(* ===== verification/_CoqProject ===== *)
-Q . S2P
Prelude.v
Types.v
Strategy.v
LevelIndex.v
Book.v
Engine.v
BookProps.v
EngineInv.v
EngineOutcome.v
EngineProps.v
Protocol.v
Risk.v
Sharding.v
Ring.v
IdGen.v
Cluster.v
Bytes.v
Text.v
Kline.v
RaftLog.v
RaftNode.v
Wire.v
Queue.v
Outbox.v
Segments.v
Publisher.v
Applied.v
Journal.v
Inspect.v
Snapshot.v
Processor.v
ProcessorProps.v
Recovery.v
Framing.v
Replica.v
Gateway.v
AssetLog.v
AssetReplay.v
Exchange.v
Metrics.v
Migration.v
Projection.v
Stages.v
Ingress.v
Commit.v
CommitProps.v
Node.v
MarketData.v
WebFront.v
OrderServer.v
