(* ===== verification/Prelude.v ===== *)
(** * trade-core: a verification development

    trade-core is a matching-engine system in Rust ([src/src]).  Orders reach a
    node as fixed-size frames, are committed by a Raft group, and are handed, entry
    by entry, to a shard.  The shard's processor checks each command against
    duplicate, halt, risk and price-band rules and runs it on the matching engine of
    its instrument; the engine trades it against an order book by a matching
    strategy.  The reports go to an outbox on disk, from which a publisher sends
    them to Kafka; journals and snapshots let a restarted shard rebuild its state;
    category routes can be migrated between groups.  This library models that
    system and proves what makes it correct.  In front of the nodes, an order
    service takes commands over HTTP into Kafka, forwards them to the Raft groups,
    and keeps tables of orders from the commands and from the published reports.
    An exchange can also run without Raft, from its own journals, with standbys fed
    over a replication stream.  A market data service follows the reports, shows
    candles, ladders and trades, and forwards orders to the order service.

    ** Files

    Foundations
    - [Prelude]: panics ([outcome]), errors ([io_result]), loops, machine integers,
      sums, shared tactics and lemmas.
    - [Types]: [types.rs], [order.rs], [trade.rs], [fees.rs].
    - [Bytes]: byte strings and FNV-1a.  [Text]: what the sources use of [str].

    Matching
    - [Strategy]: [strategy/*.rs], the allocation of a taker over a level.
    - [LevelIndex]: the price index of [book.rs] (ladder, bitset and tree), and the
      order pool.
    - [Book], [BookProps]: [OrderBook] of [book.rs], and its refinement of queues
      per side and price.
    - [Engine], [EngineInv], [EngineOutcome], [EngineProps]: [engine.rs], its
      invariant, what a submission leaves behind, and the theorems.

    Commands
    - [Protocol]: commands and reports of [exchange.rs].  [Wire]: [wire.rs].
      [Queue]: [order_queue.rs].
    - [Risk]: [risk.rs].  [Processor], [ProcessorProps]: [Processor] of [exchange.rs].
    - [Sharding]: [sharding.rs].  [Ring]: the lock-free ring of [lockfree.rs], as a
      step relation on its atomics.  [IdGen]: [idgen.rs].
    - [Cluster]: the route control plane of [cluster.rs].  [Migration]:
      [migration.rs] and the queries it is served by.
    - [Kline]: the candles and the calendar of [kline.rs].

    Durability and replication
    - [Journal], [Inspect]: [journal.rs], [journal_inspect.rs].  [Snapshot]:
      [snapshot.rs].  [Recovery]: export, restore, fingerprints and replay of
      [exchange.rs].
    - [RaftLog], [RaftNode]: [raft_log.rs], the state file of a Raft member and
      the member's turns.
    - [Outbox], [Segments]: [execution_outbox.rs].  [Applied]: the application
      proofs of [asset_log.rs].
    - [Commit], [CommitProps]: a committed batch through a shard ([exchange.rs]), the
      shard's start, and its life across crashes.
    - [AssetLog], [AssetReplay]: the per-asset logs of [asset_log.rs]: the set of
      open writers, committed batches, inspection; and the replay of one asset.
    - [Node]: the runtime of [bin/raft_node.rs]: duplicate window, requests,
      recovered and live entries, start, compaction.  [Publisher]: its outbox
      publisher.

    The standalone exchange and its edges
    - [Exchange]: lanes, mailboxes, the shard's thread as steps, pause, resume and
      shutdown of [exchange.rs].
    - [Framing]: what a socket delivers and takes.  [Gateway]: [gateway.rs] and its
      client in [bin/order_api.rs].  [Replica]: [replication.rs].
    - [Metrics]: the counters, histograms and text page of [metrics.rs].
    - [MarketData], [WebFront]: the feed and pages, and the HTTP and WebSocket front
      of [bin/market_data.rs].

    The order service, [bin/order_api.rs]
    - [Ingress]: admission (commands in flight, backpressure tiers), publishing to
      Kafka, bodies and queries, the administration of migrations.
    - [Stages]: the consumers' turns with their commits and rewinds, dead letters,
      the split of a batch over Raft groups, the assignment of partitions.
    - [Projection]: the order tables, their SQL statements as functions, and the
      transactions of the command and execution stages.
    - [OrderServer]: a client's HTTP connection with all its requests, and the
      configuration of the matcher connections.

    ** How the code is rendered

    A Rust function is a Rocq function; [&mut self] is a state that is returned;
    [Result] is [io_result] or an inductive type; a panic is [Panic], which ends the
    process (the release profile aborts).  Integers are [Z] with the wrapping,
    saturating and checked operations the code uses.  Hash tables are [gmap] and
    [gset]; where the code walks one, the order of the walk is a parameter of the
    model, and theorems hold for every order.  Rust seeds the order per process, so
    theorems that relate two processes (a restart, a standby, another machine) give
    each its own order; the one command whose outcome depends on it, a force close,
    is excluded from them ([order_free], [steady]), and
    [CommitProps.force_close_not_replayable] shows why.  The reference prices of a
    price guard are part of a processor's configuration and do not change within a
    run.  Files are byte lists with the number of bytes a completed sync covers; a
    crash leaves any prefix that contains them.  Renames are atomic and survive a
    crash once they return, with or without a sync of the directory
    ([RaftLog.rename_needs_directory_sync] shows what depends on it).  Loops that are not
    structural are [loop], bounded by a number the state gives (never a guess),
    with the theorems that the bound is enough; recursive readers take the length
    of what is left as fuel.  Threads appear as steps ([Ring], [Publisher],
    [Ingress], [Exchange], the fan-out of [Replica]) or as the queue between them,
    which [Ring] justifies.  A network delivers a stream in any pieces, and may cut
    it anywhere ([Framing]); an HTTP connection is the text it carries.  A SQL
    transaction is a function on the tables that takes effect whole or not at all,
    its assignments in the order written.

    The [raft] crate's messages and storage are classes ([Message], [MemStorage])
    with the laws the code relies on ([MessageLaws], [MemStorageLaws]), and
    concrete instances satisfy them in the witnesses.  Clocks, broker answers,
    polled messages and leadership are arguments.

    ** What is shown

    - Matching: the book refines price-time queues; a submission conserves quantity,
      trades in priority order at the best price, never leaves a crossed book, and
      honours time in force, budgets and self-trade prevention; the strategies meet
      their contract; the index and the cached aggregates are exact.
    - Commands: the processor never panics and stays well-formed; every id takes
      effect once; reports and positions say what happened; limits and bands hold.
    - Formats: frames, events, batches, snapshots, names and queries are read back
      as they were written.
    - Durability: a journal, a Raft state file and an outbox keep what they have
      synced through any crash; recovery from snapshot and journal rebuilds the
      state; committed entries are applied exactly once across crashes and
      restarts, in the shard ([CommitProps]) and in the whole node, whose Raft file
      and shard recover together ([Node]), as long as neither takes snapshots.
    - Publication: no record is skipped by any member of a group, and the oldest
      segment is always drained ([Publisher]).
    - Order service: commands in flight never pass their limit under any
      interleaving; a stage whose seeks succeed commits an offset only past records
      it processed; for an order that is not modified, the order tables show exactly
      the trades delivered, in any interleaving of commands, events, redeliveries
      and failures.
    - Standalone exchange: whatever the interleaving, a shard takes from each lane
      what was accepted into it, in order, and processor, reports, journals and
      replication stream are those of the one sequence it took, the journal from the
      last snapshot on; a mailbox waits for
      at most one round; a pause that found no shard parked is a quiescent point.
    - Asset logs: a committed batch is logged whole and survives a crash after its
      barrier; inspection accepts exactly the gapless logs of one asset; replaying
      one asset's log rebuilds its engine, halt state and positions.
    - Edges: the intake hands on the complete frames, in order, within its rate; a
      bad request ends an acknowledged session without being submitted; a standby
      holds the primary's state; the ladders shown are those of the books; only the
      token opens the order service, and an order forwarded to it reaches the
      broker exactly when the terminal is told so; histogram rows are exact.
    - Control: migrations keep one owner per category and cut over only when both
      sides hold the same books; ids are unique; the ring is a queue.
    - Theorems named after a defect show where the code falls short, on inputs it
      can meet: lost or repeated entries, stalled or skipped publication, state
      that cannot be opened again, documentation that does not hold.

    ** Not modelled

    - Opening and accepting sockets, creating threads, timers, signals, core
      pinning ([affinity.rs]) and environment variables; the [main] functions and
      the tools of [bin/] (clients, load generators, simulations, printing).
    - Floating point: the quantile estimate of [metrics.rs] and the average price
      of a report; where a page shows one, it is an argument.
    - [oblog.rs]: log lines, which nothing reads back.
    - The MySQL, Kafka and Redis clients and the process setup of
      [bin/order_api.rs]; what the services answer is an argument.
    - The election and replication protocol itself, which is the [raft] crate.
    - Weak memory: the atomics of [Ring], [Exchange], [Ingress] and [Replica] are
      sequentially consistent. *)

From stdpp Require Export base list gmap sorting strings.
From Stdlib Require Export ZArith Lia.

Open Scope Z_scope.

(** ** Outcomes: Rust computations that may panic

    [Ret a] is a normal return, [Panic why] an [assert!], [expect], [unwrap]
    or an out-of-range index.  The release profile of the crate sets
    [panic = "abort"], so a panic ends the process: nothing catches it. *)
Inductive outcome (A : Type) : Type :=
| Ret (a : A)
| Panic (why : string).
Arguments Ret {A} a.
Arguments Panic {A} why.

Definition obind {A B : Type} (c : outcome A) (k : A -> outcome B) : outcome B :=
  match c with
  | Ret a => k a
  | Panic why => Panic why
  end.

Declare Scope outcome_scope.
Delimit Scope outcome_scope with outcome.
Open Scope outcome_scope.

Notation "'let!' x := c 'in' k" := (obind c (fun x => k))
  (at level 10, x binder, c at level 200, k at level 200,
   format "'[v' 'let!'  x  :=  c  'in' '//' k ']'") : outcome_scope.

(** [Option::expect]. *)
Definition expect {A : Type} (o : option A) (why : string) : outcome A :=
  match o with
  | Some a => Ret a
  | None => Panic why
  end.

(** [assert!(b, why)] followed by the rest of the function. *)
Definition assert_that {A : Type} (b : bool) (why : string) (k : outcome A) : outcome A :=
  if b then k else Panic why.

(** [io::Result]: an operation that returns an error instead of panicking. *)
Inductive io_result (A : Type) : Type :=
| Ok (a : A)
| Err (why : string).
Arguments Ok {A} a.
Arguments Err {A} why.

(** The [?] operator. *)
Definition try_bind {A B : Type} (c : io_result A) (k : A -> io_result B) : io_result B :=
  match c with
  | Ok a => k a
  | Err why => Err why
  end.

Notation "'let?' x := c 'in' k" := (try_bind c (fun x => k))
  (at level 10, x binder, c at level 200, k at level 200,
   format "'[v' 'let?'  x  :=  c  'in' '//' k ']'") : outcome_scope.

(** The sequential [for] loop over a list whose body may panic. *)
Fixpoint ofold {A S : Type} (f : S -> A -> outcome S) (s : S) (l : list A) : outcome S :=
  match l with
  | [] => Ret s
  | a :: l' => let! s' := f s a in ofold f s' l'
  end.

(** The [while]/[loop] statement: the body [f] either continues with a new state
    ([inl]) or leaves the loop with a result ([inr]).  The number of iterations
    is bounded by a binary number, so that the bound can be as large as the
    machine integers that govern the loop while evaluation only performs the
    iterations that happen. *)
Fixpoint iter_pos {S R : Type} (p : positive) (f : S -> outcome (S + R)) (s : S)
  : outcome (S + R) :=
  let twice q s :=
    match iter_pos q f s with
    | Ret (inl s') => iter_pos q f s'
    | c => c
    end in
  match p with
  | xH => f s
  | xO q => twice q s
  | xI q =>
      match f s with
      | Ret (inl s') => twice q s'
      | c => c
      end
  end.

Definition loop {S R : Type} (bound : positive) (f : S -> outcome (S + R)) (s : S) : outcome R :=
  let! r := iter_pos bound f s in
  match r with
  | inl _ => Panic "loop bound exceeded"
  | inr r => Ret r
  end.

(** ** Machine integers

    Values of [u32], [u64], [u128] and [i64] are integers of [Z] kept in their
    range; every operation that can leave the range is written with the
    wrap-around, saturation or check the source uses.  The release profile does
    not set [overflow-checks], so plain [+], [-] and [*] wrap. *)
Abbreviation U8_MAX := 255.
Abbreviation U32_MAX := 4294967295.
Abbreviation U64_MAX := 18446744073709551615.
Abbreviation U128_MAX := 340282366920938463463374607431768211455.
Abbreviation I64_MAX := 9223372036854775807.
Abbreviation I64_MIN := (-9223372036854775808).

Definition wrap32 (z : Z) : Z := z mod 4294967296.
Definition wrap64 (z : Z) : Z := z mod 18446744073709551616.
Definition wrap128 (z : Z) : Z := z mod 340282366920938463463374607431768211456.

(** Two's complement [i64]. *)
Definition wrap_i64 (z : Z) : Z := wrap64 (z + 9223372036854775808) - 9223372036854775808.

Definition checked_add (max a b : Z) : option Z :=
  if a + b <=? max then Some (a + b) else None.
Definition checked_sub (a b : Z) : option Z :=
  if b <=? a then Some (a - b) else None.
Definition checked_mul (max a b : Z) : option Z :=
  if a * b <=? max then Some (a * b) else None.
Definition saturating_sub (a b : Z) : Z := Z.max 0 (a - b).
Definition saturating_add (max a b : Z) : Z := Z.min max (a + b).
Definition saturating_mul (max a b : Z) : Z := Z.min max (a * b).

Definition is_u8 (z : Z) : Prop := 0 <= z <= U8_MAX.
Definition is_u32 (z : Z) : Prop := 0 <= z <= U32_MAX.
Definition is_u64 (z : Z) : Prop := 0 <= z <= U64_MAX.
Definition is_u128 (z : Z) : Prop := 0 <= z <= U128_MAX.
Definition is_i64 (z : Z) : Prop := I64_MIN <= z <= I64_MAX.

(** ** Sums over lists *)
Definition sumZ {A : Type} (f : A -> Z) (l : list A) : Z :=
  foldr (fun a s => f a + s) 0 l.
Arguments sumZ : simpl never.

(** ** Automation *)
Create HintDb tc.

(** Turn boolean tests of the source into propositions. *)
Ltac zbool :=
  repeat match goal with
  | H : (_ <=? _) = true |- _ => apply Z.leb_le in H
  | H : (_ <=? _) = false |- _ => apply Z.leb_gt in H
  | H : (_ <? _) = true |- _ => apply Z.ltb_lt in H
  | H : (_ <? _) = false |- _ => apply Z.ltb_ge in H
  | H : (_ =? _) = true |- _ => apply Z.eqb_eq in H
  | H : (_ =? _) = false |- _ => apply Z.eqb_neq in H
  | H : andb _ _ = true |- _ => apply andb_true_iff in H; destruct H
  | H : orb _ _ = false |- _ => apply orb_false_iff in H; destruct H
  | H : negb _ = true |- _ => apply negb_true_iff in H
  | H : negb _ = false |- _ => apply negb_false_iff in H
  end.

(** Case analysis on the first [if] condition in the goal. *)
Ltac case_if :=
  match goal with
  | |- context [if ?b then _ else _] =>
      lazymatch type of b with
      | bool => let E := fresh "E" in destruct b eqn:E; zbool
      | _ => case_decide
      end
  end.

Ltac unfold_width :=
  unfold is_u8, is_u32, is_u64, is_u128, is_i64 in *.

(** ** Lemmas on outcomes *)
Lemma obind_ret {A B : Type} (c : outcome A) (k : A -> outcome B) b :
  obind c k = Ret b -> exists a, c = Ret a /\ k a = Ret b.
Proof. destruct c as [a|why]; simpl; [eauto | discriminate]. Qed.

Lemma expect_ret {A : Type} (o : option A) why a : expect o why = Ret a <-> o = Some a.
Proof. destruct o; simpl; split; congruence. Qed.

Lemma ofold_app {A S : Type} (f : S -> A -> outcome S) s l1 l2 :
  ofold f s (l1 ++ l2) = let! s' := ofold f s l1 in ofold f s' l2.
Proof.
  revert s; induction l1 as [|a l1 IH]; intros s; simpl; [done|].
  destruct (f s a); simpl; [apply IH | done].
Qed.

(** An invariant of the loop body holds after the loop, and the loop returns. *)
Lemma ofold_ind {A S : Type} (f : S -> A -> outcome S) (P : S -> list A -> Prop) s l :
  P s l ->
  (forall s a l', P s (a :: l') -> exists s', f s a = Ret s' /\ P s' l') ->
  exists s', ofold f s l = Ret s' /\ P s' [].
Proof.
  intros HP Hstep; revert s HP; induction l as [|a l IH]; intros s HP; simpl.
  - eauto.
  - destruct (Hstep s a l HP) as (s' & -> & HP'); simpl. by apply IH.
Qed.

(** *** Loops *)
Fixpoint iter_nat {S R : Type} (n : nat) (f : S -> outcome (S + R)) (s : S) : outcome (S + R) :=
  match n with
  | O => Ret (inl s)
  | Datatypes.S n' =>
      match f s with
      | Ret (inl s') => iter_nat n' f s'
      | c => c
      end
  end.

Lemma iter_nat_add {S R : Type} (f : S -> outcome (S + R)) n k s :
  iter_nat (n + k) f s =
  match iter_nat n f s with
  | Ret (inl s') => iter_nat k f s'
  | c => c
  end.
Proof.
  revert s; induction n as [|n IH]; intros s; simpl; [done|].
  destruct (f s) as [[s'|r]|why]; [apply IH | done | done].
Qed.

Lemma iter_pos_nat {S R : Type} p (f : S -> outcome (S + R)) s :
  iter_pos p f s = iter_nat (Pos.to_nat p) f s.
Proof.
  revert s; induction p as [p IH|p IH|]; intros s.
  - rewrite Pos2Nat.inj_xI. cbn [iter_pos iter_nat]. destruct (f s) as [[s'|r]|why]; try done.
    replace (2 * Pos.to_nat p)%nat with (Pos.to_nat p + Pos.to_nat p)%nat by lia.
    rewrite iter_nat_add, IH. destruct (iter_nat _ f s') as [[s''|r]|why]; [apply IH | done | done].
  - rewrite Pos2Nat.inj_xO. cbn [iter_pos].
    replace (2 * Pos.to_nat p)%nat with (Pos.to_nat p + Pos.to_nat p)%nat by lia.
    rewrite iter_nat_add, IH. destruct (iter_nat _ f s) as [[s''|r]|why]; [apply IH | done | done].
  - simpl. by destruct (f s) as [[s'|r]|why].
Qed.

(** A loop whose body keeps an invariant and decreases a measure below the
    bound terminates, with the postcondition of the exits. *)
Lemma loop_total {S R : Type} (f : S -> outcome (S + R)) (I : S -> Prop) (Q : R -> Prop)
    (mu : S -> Z) bound s :
  (forall s, I s -> 0 <= mu s) ->
  (forall s, I s -> exists r, f s = Ret r /\
     match r with inl s' => I s' /\ mu s' < mu s | inr r => Q r end) ->
  I s -> mu s < Z.pos bound -> exists r, loop bound f s = Ret r /\ Q r.
Proof.
  intros Hmu Hstep HI Hb. unfold loop. rewrite iter_pos_nat.
  assert (exists r, iter_nat (Pos.to_nat bound) f s = Ret (inr r) /\ Q r) as (r & -> & Hr);
    [|by eauto].
  assert (mu s < Z.of_nat (Pos.to_nat bound)) as Hn by lia. clear Hb.
  revert s HI Hn. induction (Pos.to_nat bound) as [|n IH]; intros s HI Hn.
  - specialize (Hmu s HI). lia.
  - destruct (Hstep s HI) as ([s'|r] & E & H); simpl; rewrite E; [|eauto].
    destruct H as [HI' Hlt]. apply IH; [done|lia].
Qed.

(** Invert [c = Ret _] hypotheses built from [obind], [expect], [assert_that]. *)
Ltac inv_ret :=
  repeat match goal with
  | H : obind _ _ = Ret _ |- _ =>
      let a := fresh "a" in let Ha := fresh "Ha" in
      apply obind_ret in H; destruct H as (a & Ha & H)
  | H : expect _ _ = Ret _ |- _ => apply expect_ret in H
  | H : Ret _ = Ret _ |- _ => injection H as H; subst
  | H : Panic _ = Ret _ |- _ => discriminate H
  end.

(** ** Lemmas on machine integers *)
Lemma wrap64_small z : is_u64 z -> wrap64 z = z.
Proof. unfold wrap64, is_u64; intros; apply Z.mod_small; lia. Qed.

Lemma wrap64_succ a : wrap64 (wrap64 a + 1) = wrap64 (a + 1).
Proof. unfold wrap64. by rewrite Zplus_mod_idemp_l. Qed.

Lemma wrap64_le x : 0 <= x -> 0 <= wrap64 x <= x.
Proof.
  intros H. unfold wrap64. split; [apply Z.mod_pos_bound; done|]. by apply Z.mod_le.
Qed.

Lemma wrap32_small z : is_u32 z -> wrap32 z = z.
Proof. unfold wrap32, is_u32; intros; apply Z.mod_small; lia. Qed.

Lemma wrap128_small z : is_u128 z -> wrap128 z = z.
Proof. unfold wrap128, is_u128; intros; apply Z.mod_small; lia. Qed.

Lemma wrap64_range z : is_u64 (wrap64 z).
Proof.
  unfold wrap64, is_u64.
  pose proof (Z.mod_pos_bound z 18446744073709551616 ltac:(lia)); lia.
Qed.

Lemma wrap32_range z : is_u32 (wrap32 z).
Proof.
  unfold wrap32, is_u32. pose proof (Z.mod_pos_bound z 4294967296 ltac:(lia)); lia.
Qed.

Lemma wrap_i64_small z : is_i64 z -> wrap_i64 z = z.
Proof.
  unfold wrap_i64, is_i64; intros. rewrite wrap64_small; unfold is_u64; lia.
Qed.

Lemma wrap_i64_shift z k : wrap_i64 (z + k * 18446744073709551616) = wrap_i64 z.
Proof.
  unfold wrap_i64, wrap64. replace (z + k * 18446744073709551616 + 9223372036854775808)
    with (z + 9223372036854775808 + k * 18446744073709551616) by lia. by rewrite Z_mod_plus_full.
Qed.

Lemma wrap_i64_spec z : exists k, wrap_i64 z = z + k * 18446744073709551616.
Proof.
  exists (- ((z + 9223372036854775808) / 18446744073709551616)). unfold wrap_i64, wrap64.
  pose proof (Z.div_mod (z + 9223372036854775808) 18446744073709551616 ltac:(lia)). lia.
Qed.

Lemma wrap_i64_range z : is_i64 (wrap_i64 z).
Proof. pose proof (wrap64_range (z + 9223372036854775808)). unfold wrap_i64, is_i64, is_u64 in *. lia. Qed.

Lemma checked_add_Some max a b c : checked_add max a b = Some c <-> c = a + b /\ a + b <= max.
Proof.
  unfold checked_add; case_if; split; intros H;
    [by inv H | by destruct H as [-> _] | done | destruct H; lia].
Qed.

Lemma checked_sub_Some a b c : checked_sub a b = Some c <-> c = a - b /\ b <= a.
Proof.
  unfold checked_sub; case_if; split; intros H;
    [by inv H | by destruct H as [-> _] | done | destruct H; lia].
Qed.

(** ** Lemmas on sums *)
Section Sums.
Context {A : Type}.
Implicit Types (f g : A -> Z) (l : list A).

Lemma sumZ_nil f : sumZ f [] = 0.
Proof. done. Qed.

Lemma sumZ_cons f a l : sumZ f (a :: l) = f a + sumZ f l.
Proof. done. Qed.

Lemma sumZ_app f l1 l2 : sumZ f (l1 ++ l2) = sumZ f l1 + sumZ f l2.
Proof. induction l1 as [|a l1 IH]; simpl; [done|]. rewrite !sumZ_cons, IH; lia. Qed.

Lemma sumZ_perm f l1 l2 : l1 ≡ₚ l2 -> sumZ f l1 = sumZ f l2.
Proof.
  induction 1; rewrite ?sumZ_cons in *; [done | lia | lia | congruence].
Qed.

Lemma sumZ_nonneg f l : Forall (fun a => 0 <= f a) l -> 0 <= sumZ f l.
Proof. induction 1; rewrite ?sumZ_cons; simpl; [done | lia]. Qed.

Lemma sumZ_le f g l : Forall (fun a => f a <= g a) l -> sumZ f l <= sumZ g l.
Proof. induction 1; rewrite ?sumZ_cons; simpl; [done | lia]. Qed.

Lemma sumZ_ext f g l : (forall a, a ∈ l -> f a = g a) -> sumZ f l = sumZ g l.
Proof.
  induction l as [|a l IH]; intros H; [done|].
  rewrite !sumZ_cons, H, IH; [done | intros; apply H; set_solver | set_solver].
Qed.

Lemma sumZ_mul f c l : sumZ (fun a => c * f a) l = c * sumZ f l.
Proof. induction l as [|a l IH]; rewrite ?sumZ_cons; simpl; [by rewrite Z.mul_0_r | lia]. Qed.

Lemma sumZ_add f g l : sumZ (fun a => f a + g a) l = sumZ f l + sumZ g l.
Proof. induction l as [|a l IH]; rewrite ?sumZ_cons; simpl; [done | lia]. Qed.

Lemma sumZ_zero f l : (forall a, a ∈ l -> f a = 0) -> sumZ f l = 0.
Proof.
  induction l as [|a l IH]; intros H; [done|].
  rewrite sumZ_cons, H, IH; [done | intros; apply H; set_solver | set_solver].
Qed.

Lemma sumZ_elem_le f l a :
  Forall (fun a => 0 <= f a) l -> a ∈ l -> f a <= sumZ f l.
Proof.
  intros Hf Ha; apply list_elem_of_split in Ha as (l1 & l2 & ->).
  rewrite sumZ_app, sumZ_cons.
  apply Forall_app in Hf as [H1 H2]; inv H2.
  pose proof (sumZ_nonneg f l1 H1); pose proof (sumZ_nonneg f l2 ltac:(done)); lia.
Qed.

Lemma sumZ_insert f l i a b :
  l !! i = Some a -> sumZ f (<[i := b]> l) = sumZ f l - f a + f b.
Proof.
  intros Hi. rewrite insert_take_drop by (by eapply lookup_lt_Some).
  rewrite <-(take_drop_middle l i a Hi) at 3.
  rewrite !sumZ_app, !sumZ_cons; lia.
Qed.

Lemma sumZ_map {B} (h : B -> A) f (l : list B) : sumZ f (map h l) = sumZ (fun b => f (h b)) l.
Proof. induction l as [|b l IH]; [done|]; simpl; rewrite !sumZ_cons, IH; done. Qed.

(** A wrapping [u64] sum of a list whose exact sum is in range is the sum. *)
Lemma foldl_wrap64 f l s :
  Forall (fun a => 0 <= f a) l -> 0 <= s -> s + sumZ f l <= U64_MAX ->
  foldl (fun s a => wrap64 (s + f a)) s l = s + sumZ f l.
Proof.
  revert s; induction l as [|a l IH]; intros s Hl Hs Hb; simpl; [rewrite sumZ_nil; lia|].
  rewrite sumZ_cons in *. inv Hl.
  pose proof (sumZ_nonneg f l ltac:(done)).
  rewrite wrap64_small by (unfold is_u64; lia).
  rewrite IH; [lia | done | lia | lia].
Qed.
End Sums.

(** ** Sorted lists *)

(** A list sorted by an asymmetric relation is determined by its elements. *)
Lemma sorted_unique {A : Type} (R : relation A) (l1 l2 : list A) :
  (forall x y, R x y -> R y x -> False) ->
  StronglySorted R l1 -> StronglySorted R l2 -> (forall x, x ∈ l1 <-> x ∈ l2) -> l1 = l2.
Proof.
  intros Hasym H1. revert l2. induction H1 as [|x l1 H1 IH Hf]; intros l2 H2 He.
  - destruct l2 as [|y l2]; [done|]. exfalso. specialize (He y). set_solver.
  - destruct H2 as [|y l2 H2 Hf2]; [exfalso; specialize (He x); set_solver|].
    rewrite Forall_forall in Hf, Hf2.
    assert (x = y) as <-.
    { destruct (proj1 (elem_of_cons l2 x y)) as [|H]; [apply He; set_solver | done |].
      destruct (proj1 (elem_of_cons l1 y x)) as [|H']; [apply He; set_solver | done |].
      exfalso. apply (Hasym x y); [by apply Hf | by apply Hf2]. }
    f_equal. apply IH; [done|]. intros z.
    assert (z ∈ l1 -> z <> x) by (intros Hin ->; apply (Hasym x x); by apply Hf).
    assert (z ∈ l2 -> z <> x) by (intros Hin ->; apply (Hasym x x); by apply Hf2).
    specialize (He z). rewrite !elem_of_cons in He. naive_solver.
Qed.

Lemma filter_all {A : Type} (P : A -> Prop) `{!forall x, Decision (P x)} (l : list A) :
  (forall x, x ∈ l -> P x) -> filter P l = l.
Proof.
  induction l as [|a l IH]; intros Hall; [done|]. rewrite filter_cons_True by (apply Hall; by left).
  f_equal. apply IH. intros x Hx. apply Hall. by right.
Qed.

Lemma filter_none {A : Type} (P : A -> Prop) `{!forall x, Decision (P x)} (l : list A) :
  (forall x, x ∈ l -> ~ P x) -> filter P l = [].
Proof.
  induction l as [|a l IH]; intros Hall; [done|]. rewrite filter_cons_False by (apply Hall; by left).
  apply IH. intros x Hx. apply Hall. by right.
Qed.

Lemma filter_ext_in {A : Type} (P Q : A -> Prop) `{!forall x, Decision (P x), !forall x, Decision (Q x)}
    (l : list A) : (forall x, x ∈ l -> P x <-> Q x) -> filter P l = filter Q l.
Proof.
  induction l as [|x l IH]; intros Heq; [done|]. rewrite !filter_cons.
  rewrite IH by (intros; apply Heq; set_solver).
  destruct (decide (P x)) as [HP|HP], (decide (Q x)) as [HQ|HQ]; try done; exfalso;
    specialize (Heq x ltac:(set_solver)); tauto.
Qed.

Lemma sumZ_filter_le {A : Type} (f : A -> Z) (P : A -> Prop) `{!forall x, Decision (P x)} (l : list A) :
  Forall (fun x => 0 <= f x) l -> sumZ f (filter P l) <= sumZ f l.
Proof.
  induction 1 as [|x l Hx Hl IH]; [done|]. rewrite filter_cons. case_decide; rewrite !sumZ_cons; lia.
Qed.
