(* ===== verification/Types.v ===== *)
(** * Value types, orders, trades and fees

    [src/src/types.rs], [src/src/order.rs], [src/src/trade.rs] and
    [src/src/fees.rs].  The newtypes [OrderId] and [InstrumentId] and the
    aliases [Price], [Qty] and [Timestamp] are integers of [Z]; [order_ok]
    states the widths. *)

From S2P Require Import Prelude.

Abbreviation OrderId := Z (only parsing).
Abbreviation InstrumentId := Z (only parsing).
Abbreviation UserId := Z (only parsing).
Abbreviation Price := Z (only parsing).
Abbreviation Qty := Z (only parsing).
Abbreviation Timestamp := Z (only parsing).

Inductive Side := Buy | Sell.

Definition opposite (s : Side) : Side :=
  match s with
  | Buy => Sell
  | Sell => Buy
  end.

Inductive OrderType := Limit | Market.

Inductive TimeInForce := Gtc | Ioc | Fok | IocBudget | FokBudget.

#[export] Instance Side_eq_dec : EqDecision Side.
Proof. solve_decision. Defined.
#[export] Instance OrderType_eq_dec : EqDecision OrderType.
Proof. solve_decision. Defined.
#[export] Instance TimeInForce_eq_dec : EqDecision TimeInForce.
Proof. solve_decision. Defined.

Record Order := mkOrder {
  o_id : OrderId;
  o_instrument : InstrumentId;
  o_user : UserId;
  o_side : Side;
  o_type : OrderType;
  o_tif : TimeInForce;
  o_price : Price;
  o_quantity : Qty;
  o_remaining : Qty;
  o_timestamp : Timestamp
}.

#[export] Instance Order_eq_dec : EqDecision Order.
Proof. solve_decision. Defined.

Module Order.

(** [Order::limit]. *)
Definition limit (id : OrderId) (side : Side) (price : Price) (quantity : Qty) : Order :=
  mkOrder id 0 0 side Limit Gtc price quantity quantity 0.

(** [Order::market]: the sentinel price makes any resting order crossable. *)
Definition market (id : OrderId) (side : Side) (quantity : Qty) : Order :=
  mkOrder id 0 0 side Market Ioc
    (match side with Buy => U64_MAX | Sell => 0 end) quantity quantity 0.

Definition with_tif (o : Order) (tif : TimeInForce) : Order :=
  mkOrder (o_id o) (o_instrument o) (o_user o) (o_side o) (o_type o) tif
    (o_price o) (o_quantity o) (o_remaining o) (o_timestamp o).

Definition on (o : Order) (instrument : InstrumentId) : Order :=
  mkOrder (o_id o) instrument (o_user o) (o_side o) (o_type o) (o_tif o)
    (o_price o) (o_quantity o) (o_remaining o) (o_timestamp o).

(** [Order::by]. *)
Definition by_user (o : Order) (user : UserId) : Order :=
  mkOrder (o_id o) (o_instrument o) user (o_side o) (o_type o) (o_tif o)
    (o_price o) (o_quantity o) (o_remaining o) (o_timestamp o).

Definition filled (o : Order) : Qty := wrap64 (o_quantity o - o_remaining o).

(** Field updates used by the book and the engine. *)
Definition set_remaining (o : Order) (r : Qty) : Order :=
  mkOrder (o_id o) (o_instrument o) (o_user o) (o_side o) (o_type o) (o_tif o)
    (o_price o) (o_quantity o) r (o_timestamp o).

Definition set_price (o : Order) (p : Price) : Order :=
  mkOrder (o_id o) (o_instrument o) (o_user o) (o_side o) (o_type o) (o_tif o)
    p (o_quantity o) (o_remaining o) (o_timestamp o).

Definition set_quantity (o : Order) (q : Qty) : Order :=
  mkOrder (o_id o) (o_instrument o) (o_user o) (o_side o) (o_type o) (o_tif o)
    (o_price o) q (o_remaining o) (o_timestamp o).

Definition set_type (o : Order) (t : OrderType) : Order :=
  mkOrder (o_id o) (o_instrument o) (o_user o) (o_side o) t (o_tif o)
    (o_price o) (o_quantity o) (o_remaining o) (o_timestamp o).

Definition set_timestamp (o : Order) (ts : Timestamp) : Order :=
  mkOrder (o_id o) (o_instrument o) (o_user o) (o_side o) (o_type o) (o_tif o)
    (o_price o) (o_quantity o) (o_remaining o) ts.

End Order.

(** Every field is in the range of its Rust type. *)
Definition order_ok (o : Order) : Prop :=
  is_u64 (o_id o) /\ is_u32 (o_instrument o) /\ is_u64 (o_user o) /\
  is_u64 (o_price o) /\ is_u64 (o_quantity o) /\ is_u64 (o_remaining o) /\
  is_u64 (o_timestamp o).

Record Trade := mkTrade {
  t_taker : OrderId;
  t_maker : OrderId;
  t_aggressor : Side;
  t_price : Price;
  t_quantity : Qty;
  t_timestamp : Timestamp;
  t_maker_user : UserId;
  t_taker_user : UserId
}.

#[export] Instance Trade_eq_dec : EqDecision Trade.
Proof. solve_decision. Defined.

Inductive OrderStatus := Filled | PartiallyFilled | Resting | Cancelled | Rejected.

#[export] Instance OrderStatus_eq_dec : EqDecision OrderStatus.
Proof. solve_decision. Defined.

Record SubmitReport := mkSubmitReport {
  sr_order_id : OrderId;
  sr_status : OrderStatus;
  sr_filled : Qty;
  sr_trades : list Trade;
  sr_resting : bool
}.

Inductive ModifyOutcome :=
| MNotFound
| MReduced (order_id : OrderId) (remaining : Qty)
| MCancelled (order_id : OrderId)
| MRequoted (report : SubmitReport).

(** ** Fees *)
Record FeeSchedule := mkFees { maker_bps : Z; taker_bps : Z }.

(** The product is computed in [u128], the quotient truncated by [as u64]. *)
Definition fee_of (notional bps : Z) : Z := wrap64 (wrap128 (notional * bps) / 10000).

Definition fees (f : FeeSchedule) (price : Price) (qty : Qty) : Z * Z :=
  let notional := wrap128 (price * qty) in
  (fee_of notional (maker_bps f), fee_of notional (taker_bps f)).

(** ** Theorems *)
Lemma opposite_involutive s : opposite (opposite s) = s.
Proof. by destruct s. Qed.

Lemma opposite_ne s : opposite s <> s.
Proof. by destruct s. Qed.

