(* ===== verification/Strategy.v ===== *)
(** * Matching strategies

    [src/src/strategy/]: the [MatchingStrategy] trait as a record of its
    methods, the three implementations [PriceTimePriority], [ProRata] and
    [SizePriority], and the contract every implementation promises to the
    engine as the class [AllocContract]. *)

From S2P Require Import Prelude Types.

(** ** Data *)
Record RestingOrder := mkResting {
  r_id : OrderId;
  r_remaining : Qty;
  r_timestamp : Timestamp;
  r_user : UserId
}.

Record Allocation := mkAlloc {
  a_id : OrderId;
  a_qty : Qty;
  a_idx : Z
}.

#[export] Instance Allocation_eq_dec : EqDecision Allocation.
Proof. solve_decision. Defined.

(** The trait's methods that the engine calls.  [allocate_into] appends to
    [out]. *)
Record MatchingStrategy := mkStrategy {
  name : string;
  allocate_into : list RestingOrder -> Qty -> list Allocation -> outcome (list Allocation);
  full_level_required : bool
}.

(** [MatchingStrategy::allocate]. *)
Definition allocate (s : MatchingStrategy) (resting : list RestingOrder) (incoming : Qty)
  : outcome (list Allocation) :=
  allocate_into s resting incoming [].

(** [iter().map(|r| r.remaining).sum::<u64>()], wrapping in release builds. *)
Definition total_remaining (resting : list RestingOrder) : Qty :=
  foldl (fun s r => wrap64 (s + r_remaining r)) 0 resting.

(** ** [MatchingStrategy::validate] *)
Inductive violation :=
| ZeroQty (id : OrderId)
| OutOfRange (id : OrderId) (idx : Z)
| IdMismatch (idx : Z) (found id : OrderId)
| OverAllocated (id : OrderId) (qty remaining : Qty)
| WrongTotal (allocated expected : Qty).

Fixpoint validate_loop (resting : list RestingOrder) (allocated : Qty) (out : list Allocation)
  : violation + Qty :=
  match out with
  | [] => inr allocated
  | a :: out' =>
      if a_qty a =? 0 then inl (ZeroQty (a_id a))
      else match resting !! Z.to_nat (a_idx a) with
           | None => inl (OutOfRange (a_id a) (a_idx a))
           | Some r =>
               if negb (r_id r =? a_id a) then inl (IdMismatch (a_idx a) (r_id r) (a_id a))
               else if r_remaining r <? a_qty a
               then inl (OverAllocated (a_id a) (a_qty a) (r_remaining r))
               else validate_loop resting (wrap64 (allocated + a_qty a)) out'
           end
  end.

Definition validate (resting : list RestingOrder) (incoming : Qty) (out : list Allocation)
  : violation + unit :=
  let expected := Z.min incoming (total_remaining resting) in
  match validate_loop resting 0 out with
  | inl v => inl v
  | inr allocated =>
      if allocated =? expected then inr tt else inl (WrongTotal allocated expected)
  end.

(** ** [PriceTimePriority] *)
Module PriceTimePriority.

(** The [for (i, r) in resting.iter().enumerate()] loop; [i] is the position
    of the head of [resting] in the slice. *)
Fixpoint sweep (resting : list RestingOrder) (i : Z) (remaining : Qty) : list Allocation :=
  match resting with
  | [] => []
  | r :: rest =>
      if remaining =? 0 then []
      else
        let fill := Z.min remaining (r_remaining r) in
        if 0 <? fill
        then mkAlloc (r_id r) fill (wrap32 i) :: sweep rest (i + 1) (remaining - fill)
        else sweep rest (i + 1) remaining
  end.

Definition allocate_into (resting : list RestingOrder) (incoming : Qty) (out : list Allocation)
  : outcome (list Allocation) :=
  Ret (out ++ sweep resting 0 incoming).

Definition strategy : MatchingStrategy := mkStrategy "price-time" allocate_into false.

End PriceTimePriority.

(** ** [ProRata] *)
Module ProRata.

(** The level is cleared: everyone fills fully. *)
Definition fill_all (resting : list RestingOrder) : list Allocation :=
  imap (fun i r => mkAlloc (r_id r) (r_remaining r) (wrap32 (Z.of_nat i))) resting.

(** One iteration of the share loop: floored share and fractional remainder. *)
Definition share_of (fillable total : Z) (r : RestingOrder) : Qty :=
  wrap64 (wrap128 (fillable * r_remaining r) / total).
Definition frac_of (fillable total : Z) (r : RestingOrder) : Z :=
  wrap128 (fillable * r_remaining r) mod total.

Definition shares (fillable total : Z) (resting : list RestingOrder) : list Qty :=
  map (share_of fillable total) resting.
Definition fracs (fillable total : Z) (resting : list RestingOrder) : list (Z * Z) :=
  imap (fun i r => (wrap32 (Z.of_nat i), frac_of fillable total r)) resting.

Definition assigned (base : list Qty) : Qty := foldl (fun s q => wrap64 (s + q)) 0 base.

(** [by_remainder]: remainder descending, then timestamp, then position. The
    indices come from [enumerate] on the same slice, so [resting[i]] is in
    range; the default is never used. *)
Definition ts_at (resting : list RestingOrder) (i : Z) : Timestamp :=
  default 0 (r_timestamp <$> resting !! Z.to_nat i).

Definition by_remainder (resting : list RestingOrder) (a b : Z * Z) : comparison :=
  match Z.compare b.2 a.2 with
  | Eq => match Z.compare (ts_at resting a.1) (ts_at resting b.1) with
          | Eq => Z.compare a.1 b.1
          | c => c
          end
  | c => c
  end.

Definition before (resting : list RestingOrder) (a b : Z * Z) : Prop :=
  by_remainder resting a b <> Gt.

#[export] Instance before_dec resting : RelDecision (before resting).
Proof. unfold RelDecision, before; intros; solve_decision. Defined.

(** [select_nth_unstable_by(leftover - 1, by_remainder)] reorders [fracs] so
    that a prefix of [leftover] entries precedes the rest; sorting is one such
    reordering, and [bump_unique] shows that any other gives the same result. *)
Definition selected (resting : list RestingOrder) (leftover : nat) (fr : list (Z * Z))
  : list (Z * Z) :=
  take leftover (merge_sort (before resting) fr).

(** [for &(i, _) in &fracs[..leftover] { base[i as usize] += 1 }]. *)
Definition bump1 (base : list Qty) (e : Z * Z) : outcome (list Qty) :=
  match base !! Z.to_nat e.1 with
  | Some q => Ret (<[Z.to_nat e.1 := wrap64 (q + 1)]> base)
  | None => Panic "index out of bounds"
  end.
Definition bump (base : list Qty) (sel : list (Z * Z)) : outcome (list Qty) :=
  ofold bump1 base sel.

(** Emit the non-zero shares in time order. *)
Fixpoint emit (resting : list RestingOrder) (base : list Qty) (i : Z) : list Allocation :=
  match resting, base with
  | r :: rest, q :: base' =>
      if 0 <? q then mkAlloc (r_id r) q (wrap32 i) :: emit rest base' (i + 1)
      else emit rest base' (i + 1)
  | _, _ => []
  end.

Definition allocate_into (resting : list RestingOrder) (incoming : Qty) (out : list Allocation)
  : outcome (list Allocation) :=
  let total := total_remaining resting in
  let fillable := Z.min incoming total in
  if fillable =? 0 then Ret out
  else if fillable =? total then Ret (out ++ fill_all resting)
  else match resting with
       | [r] => Ret (out ++ [mkAlloc (r_id r) fillable 0])
       | _ =>
           let base := shares fillable total resting in
           let fr := fracs fillable total resting in
           let leftover := wrap64 (fillable - assigned base) in
           let! base' :=
             (if (0 <? leftover) && (leftover <? Z.of_nat (length fr))
              then bump base (selected resting (Z.to_nat leftover) fr)
              else Ret base) in
           Ret (out ++ emit resting base' 0)
       end.

Definition strategy : MatchingStrategy := mkStrategy "pro-rata" allocate_into true.

End ProRata.

(** ** [SizePriority] *)
Module SizePriority.

Record BySize := mkBySize { s_remaining : Qty; s_timestamp : Timestamp; s_idx : Z }.

(** [impl Ord for BySize]. *)
Definition cmp (a b : BySize) : comparison :=
  match Z.compare (s_remaining a) (s_remaining b) with
  | Eq => match Z.compare (s_timestamp b) (s_timestamp a) with
          | Eq => Z.compare (s_idx b) (s_idx a)
          | c => c
          end
  | c => c
  end.

(** [BinaryHeap::pop]: remove a greatest entry. *)
Fixpoint greatest (top : BySize) (rest : list BySize) : BySize * list BySize :=
  match rest with
  | [] => (top, [])
  | e :: rest' =>
      match cmp top e with
      | Lt => let '(g, others) := greatest e rest' in (g, top :: others)
      | _ => let '(g, others) := greatest top rest' in (g, e :: others)
      end
  end.

Definition pop (heap : list BySize) : option (BySize * list BySize) :=
  match heap with
  | [] => None
  | e :: rest => Some (greatest e rest)
  end.

Definition storage (resting : list RestingOrder) : list BySize :=
  imap (fun i r => mkBySize (r_remaining r) (r_timestamp r) (wrap32 (Z.of_nat i))) resting.

(** [while remaining > 0 { let Some(top) = heap.pop() else { break }; ... }].
    Each iteration pops one entry: [length heap] iterations exhaust the heap,
    so that much fuel never runs out. *)
Fixpoint drain (fuel : nat) (resting : list RestingOrder) (heap : list BySize)
    (remaining : Qty) (out : list Allocation) : outcome (list Allocation) :=
  match fuel with
  | O => Ret out
  | S fuel' =>
      if 0 <? remaining then
        match pop heap with
        | None => Ret out
        | Some (top, heap') =>
            let fill := Z.min remaining (s_remaining top) in
            if 0 <? fill then
              match resting !! Z.to_nat (s_idx top) with
              | None => Panic "index out of bounds"
              | Some r =>
                  drain fuel' resting heap' (remaining - fill)
                    (out ++ [mkAlloc (r_id r) fill (s_idx top)])
              end
            else drain fuel' resting heap' remaining out
        end
      else Ret out
  end.

Definition allocate_into (resting : list RestingOrder) (incoming : Qty) (out : list Allocation)
  : outcome (list Allocation) :=
  if incoming =? 0 then Ret out
  else match resting with
       | [r] =>
           let fill := Z.min incoming (r_remaining r) in
           if 0 <? fill then Ret (out ++ [mkAlloc (r_id r) fill 0]) else Ret out
       | _ => drain (length resting) resting (storage resting) incoming out
       end.

Definition strategy : MatchingStrategy := mkStrategy "size-priority" allocate_into true.

End SizePriority.

(** ** The contract *)

(** What the engine guarantees about the slice it hands to a strategy. *)
Definition level_slice (resting : list RestingOrder) : Prop :=
  Forall (fun r => 0 < r_remaining r) resting /\
  sumZ r_remaining resting <= U64_MAX /\
  Z.of_nat (length resting) <= U32_MAX.

(** An allocation refers to a resting order and fills at most what rests. *)
Definition alloc_valid (resting : list RestingOrder) (a : Allocation) : Prop :=
  0 < a_qty a /\ 0 <= a_idx a /\
  exists r, resting !! Z.to_nat (a_idx a) = Some r /\ r_id r = a_id a /\
            a_qty a <= r_remaining r.

(** The trait's documented contract; no order is allocated twice. *)
Definition contract (resting : list RestingOrder) (incoming : Qty) (al : list Allocation)
  : Prop :=
  Forall (alloc_valid resting) al /\
  NoDup (map a_idx al) /\
  sumZ a_qty al = Z.min incoming (sumZ r_remaining resting).

(** The interface the engine is verified against: [allocate_into] returns, it
    appends, and what it appends satisfies the contract. *)
Class AllocContract (s : MatchingStrategy) : Prop :=
  allocate_contract : forall resting incoming out,
    level_slice resting -> 0 < incoming <= U64_MAX ->
    exists al, allocate_into s resting incoming out = Ret (out ++ al) /\
               contract resting incoming al.

(** Quantity allocated to position [i]. *)
Definition alloc_at (al : list Allocation) (i : nat) : Qty :=
  sumZ (fun a => if decide (a_idx a = Z.of_nat i) then a_qty a else 0) al.

(** ** Lemmas on the slice *)
Section Slice.
Variable resting : list RestingOrder.
Hypothesis slice : level_slice resting.

Lemma slice_pos : Forall (fun r => 0 < r_remaining r) resting.
Proof. apply slice. Qed.

Lemma slice_nonneg : Forall (fun r => 0 <= r_remaining r) resting.
Proof. eapply Forall_impl; [apply slice_pos | simpl; lia]. Qed.

Lemma slice_total_remaining : total_remaining resting = sumZ r_remaining resting.
Proof.
  unfold total_remaining. rewrite foldl_wrap64; [lia | apply slice_nonneg | lia |].
  destruct slice as (_ & ? & _); lia.
Qed.

Lemma slice_remaining_le r : r ∈ resting -> 0 < r_remaining r <= sumZ r_remaining resting.
Proof.
  intros Hr. split; [by eapply (proj1 (Forall_forall _ _) slice_pos) |].
  apply (sumZ_elem_le r_remaining); [apply slice_nonneg | done].
Qed.

Lemma slice_idx k : (k < length resting)%nat -> wrap32 (Z.of_nat k) = Z.of_nat k.
Proof. destruct slice as (_ & _ & ?); intros; apply wrap32_small; unfold is_u32; lia. Qed.
End Slice.

(** ** Allocations given by a quantity per position

    FIFO and pro-rata both emit, in time order, the non-zero entries of a list
    of quantities aligned with the slice; [emit_contract] reduces the contract
    to pointwise bounds and the sum. *)
Section Emit.
Import ProRata.

Definition aligned (base : list Qty) (resting : list RestingOrder) : Prop :=
  Forall2 (fun q r => 0 <= q <= r_remaining r) base resting.

Lemma emit_elem resting base i a :
  a ∈ emit resting base i ->
  exists k r, resting !! k = Some r /\ base !! k = Some (a_qty a) /\
              a = mkAlloc (r_id r) (a_qty a) (wrap32 (i + Z.of_nat k)) /\ 0 < a_qty a.
Proof.
  revert base i; induction resting as [|r rest IH]; intros [|q base] i; simpl;
    try (intros H; by inv H).
  intros H.
  assert (a ∈ emit rest base (i + 1) \/ (0 < q /\ a = mkAlloc (r_id r) q (wrap32 i)))
    as [Ha|[Hq ->]].
  { revert H; case_if; [|by left]. intros [->|?]%elem_of_cons; [by right | by left]. }
  - destruct (IH _ _ Ha) as (k & r' & ? & ? & Heq & ?).
    exists (S k), r'; repeat split; try done. rewrite Heq at 1. f_equal; f_equal; lia.
  - exists 0%nat, r; simpl. rewrite Z.add_0_r. done.
Qed.

Lemma emit_idx_sorted resting base i :
  0 <= i -> i + Z.of_nat (length resting) <= U32_MAX + 1 ->
  StronglySorted Z.lt (map a_idx (emit resting base i)) /\
  Forall (fun a => i <= a_idx a) (emit resting base i).
Proof.
  revert base i; induction resting as [|r rest IH]; intros [|q base] i Hi Hl; simpl in *;
    try (split; constructor).
  destruct (IH base (i + 1)) as [Hs Hf]; [lia | lia |].
  assert (Forall (fun a => i <= a_idx a) (emit rest base (i + 1))) as Hf'.
  { eapply Forall_impl; [exact Hf | simpl; lia]. }
  case_if; [|done]. rewrite wrap32_small by (unfold is_u32; lia). simpl; split.
  - constructor; [done|]. rewrite Forall_map. eapply Forall_impl; [exact Hf | simpl; lia].
  - constructor; [simpl; lia | done].
Qed.

Lemma emit_sum resting base i :
  aligned base resting -> sumZ a_qty (emit resting base i) = sumZ id base.
Proof.
  intros H; revert i; induction H as [|q r base rest Hq H IH]; intros i; [done|].
  simpl. rewrite sumZ_cons. case_if; rewrite ?sumZ_cons, IH; simpl; lia.
Qed.

Lemma emit_contract resting base incoming :
  level_slice resting -> aligned base resting ->
  sumZ id base = Z.min incoming (sumZ r_remaining resting) ->
  contract resting incoming (emit resting base 0).
Proof.
  intros Hs Hb Hsum. split; [|split].
  - apply Forall_forall; intros a Ha.
    destruct (emit_elem _ _ _ _ Ha) as (k & r & Hr & Hq & Ha' & Hpos).
    assert (k < length resting)%nat as Hk by (by eapply lookup_lt_Some).
    assert (a_idx a = Z.of_nat k) as Hi.
    { rewrite Ha'; simpl. by apply (slice_idx resting Hs). }
    split; [done|]. rewrite Hi, Nat2Z.id. split; [lia|].
    exists r. repeat split; [done | by rewrite Ha' |].
    eapply Forall2_lookup_lr in Hb; [|done..]. simpl in Hb; lia.
  - destruct (emit_idx_sorted resting base 0) as [Hsort _]; [lia | |].
    { destruct Hs as (_ & _ & ?); lia. }
    apply NoDup_ListNoDup. clear -Hsort.
    induction Hsort as [|x l Hl IH Hx]; constructor; [|done].
    rewrite Forall_forall in Hx. intros Hin%list_elem_of_In. specialize (Hx _ Hin); lia.
  - by rewrite emit_sum.
Qed.

Lemma emit_alloc_at resting base i k :
  aligned base resting -> 0 <= i -> i + Z.of_nat (length resting) <= U32_MAX + 1 ->
  sumZ (fun a => if decide (a_idx a = i + Z.of_nat k) then a_qty a else 0)
    (emit resting base i) = default 0 (base !! k).
Proof.
  intros H; revert i k; induction H as [|q r base rest Hq H IH]; intros i k Hi Hl; [done|].
  simpl in *.
  assert (forall k', (if decide (i = i + Z.of_nat k') then q else 0) =
          match k' with O => q | _ => 0 end) as Hdec.
  { intros [|k']; case_decide; lia. }
  assert (sumZ (fun a => if decide (a_idx a = i + Z.of_nat k) then a_qty a else 0)
            (emit rest base (i + 1)) = match k with O => 0 | S k' => default 0 (base !! k') end)
    as Hrest.
  { destruct k as [|k'].
    - apply sumZ_zero. intros a Ha.
      destruct (emit_idx_sorted rest base (i + 1)) as [_ Hf]; [lia | lia |].
      rewrite Forall_forall in Hf. specialize (Hf _ Ha). case_decide; lia.
    - rewrite <-(IH (i + 1) k') by lia. apply sumZ_ext. intros a _.
      replace (i + Z.of_nat (S k')) with (i + 1 + Z.of_nat k') by lia. done. }
  case_if.
  - rewrite sumZ_cons, Hrest. simpl. rewrite wrap32_small by (unfold is_u32; lia).
    rewrite Hdec. destruct k; simpl; lia.
  - rewrite Hrest. destruct k; simpl; [lia | done].
Qed.

Lemma alloc_at_emit resting base k :
  level_slice resting -> aligned base resting ->
  alloc_at (emit resting base 0) k = default 0 (base !! k).
Proof.
  intros (_ & _ & Hl) Hb.
  exact (emit_alloc_at resting base 0 k Hb ltac:(lia) ltac:(lia)).
Qed.
End Emit.

(** ** [PriceTimePriority] meets the contract *)
Module PriceTimeFacts.
Import PriceTimePriority.

(** The quantity each position receives. *)
Fixpoint fifo_base (resting : list RestingOrder) (remaining : Qty) : list Qty :=
  match resting with
  | [] => []
  | r :: rest =>
      let fill := Z.min remaining (r_remaining r) in
      fill :: fifo_base rest (remaining - fill)
  end.

Lemma fifo_base_zero resting :
  Forall (fun r => 0 < r_remaining r) resting ->
  fifo_base resting 0 = replicate (length resting) 0.
Proof.
  induction 1; simpl; [done|]. rewrite Z.min_l by lia. simpl. by f_equal.
Qed.

Lemma emit_zeros resting n i : ProRata.emit resting (replicate n 0) i = [].
Proof. revert n i; induction resting; intros [|n] i; simpl; auto. Qed.

Lemma sweep_emit resting i remaining :
  Forall (fun r => 0 < r_remaining r) resting -> 0 <= remaining ->
  sweep resting i remaining = ProRata.emit resting (fifo_base resting remaining) i.
Proof.
  intros H; revert i remaining; induction H as [|r rest Hr H IH]; intros i remaining Hrem;
    simpl; [done|].
  case_if; subst.
  - rewrite Z.min_l, fifo_base_zero by (lia || done). simpl. by rewrite emit_zeros.
  - rewrite IH by lia. case_if; [done|lia].
Qed.

Lemma fifo_base_aligned resting remaining :
  Forall (fun r => 0 < r_remaining r) resting -> 0 <= remaining ->
  aligned (fifo_base resting remaining) resting.
Proof.
  intros H; revert remaining; induction H as [|r rest Hr H IH]; intros remaining Hrem;
    simpl; constructor; [lia|]. apply IH; lia.
Qed.

Lemma fifo_base_sum resting remaining :
  Forall (fun r => 0 < r_remaining r) resting -> 0 <= remaining ->
  sumZ id (fifo_base resting remaining) = Z.min remaining (sumZ r_remaining resting).
Proof.
  intros H; revert remaining; induction H as [|r rest Hr H IH]; intros remaining Hrem;
    simpl; [rewrite !sumZ_nil; lia|].
  rewrite !sumZ_cons, IH by lia.
  assert (0 <= sumZ r_remaining rest).
  { apply sumZ_nonneg. eapply Forall_impl; [exact H | simpl; lia]. }
  unfold id; lia.
Qed.

#[global] Instance price_time_contract : AllocContract strategy.
Proof.
  intros resting incoming out Hs Hin. exists (sweep resting 0 incoming); split; [done|].
  rewrite sweep_emit by first [lia | by apply slice_pos].
  apply emit_contract; [done | apply fifo_base_aligned | apply fifo_base_sum];
    first [lia | by apply slice_pos].
Qed.
End PriceTimeFacts.

(** ** [ProRata] meets the contract *)
Module ProRataFacts.
Import ProRata.

Section Split.
Variables (resting : list RestingOrder) (fillable total : Qty).
Hypothesis total_eq : sumZ r_remaining resting = total.
Hypothesis slice : level_slice resting.
Hypothesis fillable_range : 0 < fillable < total.

Lemma numer_u128 r : r ∈ resting -> wrap128 (fillable * r_remaining r) = fillable * r_remaining r.
Proof.
  intros Hr. apply wrap128_small. unfold is_u128.
  pose proof (slice_remaining_le resting slice r Hr). destruct slice as (_ & ? & _).
  rewrite total_eq in *. nia.
Qed.

Lemma share_eq r : r ∈ resting ->
  share_of fillable total r = fillable * r_remaining r / total.
Proof.
  intros Hr. unfold share_of. rewrite numer_u128 by done. apply wrap64_small.
  pose proof (slice_remaining_le resting slice r Hr). destruct slice as (_ & ? & _).
  rewrite total_eq in *. unfold is_u64. split; [apply Z.div_pos; lia|].
  apply Z.lt_succ_r. apply Z.div_lt_upper_bound; nia.
Qed.

Lemma frac_eq r : r ∈ resting ->
  frac_of fillable total r = (fillable * r_remaining r) mod total.
Proof. intros Hr. unfold frac_of. by rewrite numer_u128. Qed.

(** A floored share of [fillable < total] is strictly below the order's size,
    so one extra lot never over-fills it. *)
Lemma share_bound r : r ∈ resting -> 0 <= share_of fillable total r < r_remaining r.
Proof.
  intros Hr. rewrite share_eq by done.
  pose proof (slice_remaining_le resting slice r Hr). rewrite total_eq in *.
  split; [apply Z.div_pos; lia | apply Z.div_lt_upper_bound; nia].
Qed.

Lemma share_frac r : r ∈ resting ->
  fillable * r_remaining r = total * share_of fillable total r + frac_of fillable total r /\
  0 <= frac_of fillable total r < total.
Proof.
  intros Hr. rewrite share_eq, frac_eq by done.
  split; [apply Z.div_mod; lia | apply Z.mod_pos_bound; lia].
Qed.

Lemma sum_shares : sumZ (share_of fillable total) resting <= fillable /\
  (resting <> [] ->
   fillable - sumZ (share_of fillable total) resting < Z.of_nat (length resting)).
Proof.
  assert (fillable * total = total * sumZ (share_of fillable total) resting +
          sumZ (frac_of fillable total) resting) as Heq.
  { rewrite <-total_eq at 1. rewrite <-!sumZ_mul, <-sumZ_add. apply sumZ_ext.
    intros r Hr. by apply share_frac. }
  assert (0 <= sumZ (frac_of fillable total) resting).
  { apply sumZ_nonneg, Forall_forall. intros r Hr. apply share_frac in Hr. lia. }
  split; [nia|]. intros Hne.
  assert (sumZ (frac_of fillable total) resting < total * Z.of_nat (length resting)).
  { assert (forall l, l ⊆ resting -> l <> [] ->
      sumZ (frac_of fillable total) l < total * Z.of_nat (length l)) as Hall.
    { induction l as [|r l IH]; intros Hsub Hl; [done|].
      rewrite sumZ_cons. assert (r ∈ resting) as Hr by set_solver.
      apply share_frac in Hr as [_ Hr]. destruct l as [|r' l].
      - rewrite sumZ_nil; simpl; lia.
      - specialize (IH ltac:(set_solver) ltac:(done)). simpl length in *. lia. }
    by apply Hall. }
  nia.
Qed.

Lemma assigned_eq : assigned (shares fillable total resting) =
  sumZ (share_of fillable total) resting.
Proof.
  unfold assigned, shares. rewrite foldl_fmap.
  rewrite (foldl_wrap64 (share_of fillable total)); [lia | | lia |].
  - apply Forall_forall; intros r Hr. pose proof (share_bound r Hr); lia.
  - pose proof sum_shares as [? _]. destruct slice as (_ & ? & _). rewrite total_eq in *. lia.
Qed.
End Split.

(** *** Distributing the leftover lots *)

(** [bump] adds one lot at every selected position, in any order. *)
Lemma bump_spec sel base :
  NoDup (map fst sel) ->
  Forall (fun e => 0 <= e.1 < Z.of_nat (length base)) sel ->
  Forall (fun q => 0 <= q < U64_MAX) base ->
  exists base', bump base sel = Ret base' /\ length base' = length base /\
    (forall k q, base !! k = Some q ->
       base' !! k = Some (if decide (Z.of_nat k ∈ map fst sel) then q + 1 else q)).
Proof.
  intros Hnd Hidx Hq. unfold bump.
  assert (forall done_ todo, sel = done_ ++ todo -> forall b,
    length b = length base ->
    (forall k q, base !! k = Some q ->
       b !! k = Some (if decide (Z.of_nat k ∈ map fst done_) then q + 1 else q)) ->
    exists base', ofold bump1 b todo = Ret base' /\ length base' = length base /\
      (forall k q, base !! k = Some q ->
         base' !! k = Some (if decide (Z.of_nat k ∈ map fst sel) then q + 1 else q))) as Hloop.
  { intros done_ todo; revert done_; induction todo as [|e todo IH];
      intros done_ Hsel b Hlen Hb; simpl.
    { rewrite app_nil_r in Hsel; subst. eauto. }
    assert (e ∈ sel) as He by set_solver.
    rewrite Forall_forall in Hidx; pose proof (Hidx _ He) as Hr.
    assert (Z.to_nat e.1 < length base)%nat as Hk by lia.
    destruct (lookup_lt_is_Some_2 base (Z.to_nat e.1) Hk) as [q Hq'].
    assert (e.1 ∉ map fst done_) as Hnot.
    { subst sel. rewrite map_app in Hnd; simpl in Hnd.
      apply NoDup_app in Hnd as (_ & Hd & _). intros Hin. apply (Hd _ Hin). set_solver. }
    unfold bump1. rewrite (Hb _ _ Hq').
    rewrite Z2Nat.id by lia. rewrite decide_False by done. simpl.
    apply (IH (done_ ++ [e])); [by rewrite <-app_assoc | by rewrite length_insert |].
    intros k q'' Hk'. rewrite map_app; simpl.
    destruct (decide (k = Z.to_nat e.1)) as [->|Hne].
    - rewrite list_lookup_insert_eq by lia.
      rewrite Z2Nat.id by lia. rewrite decide_True by set_solver.
      simplify_eq. rewrite wrap64_small; [done|].
      apply (proj1 (Forall_lookup _ _) Hq) in Hq'. unfold is_u64; lia.
    - rewrite list_lookup_insert_ne by done. rewrite (Hb _ _ Hk').
      f_equal. apply decide_ext. set_unfold. split; [by left|].
      intros [?|[?|[]]]; [done | lia]. }
  apply (Hloop [] sel eq_refl base eq_refl). intros k q Hk.
  rewrite decide_False by set_solver. done.
Qed.

(** Each bump adds one lot to the sum. *)
Lemma bump_sum sel base base' :
  Forall (fun q => 0 <= q /\ q + Z.of_nat (length sel) <= U64_MAX) base ->
  bump base sel = Ret base' -> sumZ id base' = sumZ id base + Z.of_nat (length sel).
Proof.
  unfold bump; revert base; induction sel as [|e sel IH]; intros base Hq Hb; simpl in *.
  { inv_ret. lia. }
  apply obind_ret in Hb as (b1 & Hb1 & Hb). unfold bump1 in Hb1.
  destruct (base !! Z.to_nat e.1) as [q|] eqn:Eq; [|done]. injection Hb1 as <-.
  assert (0 <= q /\ q + Z.of_nat (S (length sel)) <= U64_MAX) as Hqb
    by (by apply (proj1 (Forall_lookup _ _) Hq) in Eq).
  rewrite wrap64_small in Hb by (unfold is_u64; lia).
  apply IH in Hb.
  - rewrite Hb, (sumZ_insert id _ _ q) by done. unfold id; lia.
  - apply Forall_insert; [|lia]. eapply Forall_impl; [exact Hq | simpl; lia].
Qed.

(** *** The order of the fractional remainders *)
Lemma by_remainder_Eq resting a b : by_remainder resting a b = Eq -> a = b.
Proof.
  unfold by_remainder. destruct a as [ia fa], b as [ib fb]; simpl.
  destruct (Z.compare_spec fb fa); try done.
  destruct (Z.compare_spec (ts_at resting ia) (ts_at resting ib)); try done.
  destruct (Z.compare_spec ia ib); congruence.
Qed.

#[export] Instance before_total resting : Total (before resting).
Proof.
  intros [ia fa] [ib fb]. unfold before, by_remainder; simpl.
  destruct (Z.compare_spec fb fa), (Z.compare_spec fa fb); try lia; try (by left); try (by right).
  destruct (Z.compare_spec (ts_at resting ia) (ts_at resting ib)),
    (Z.compare_spec (ts_at resting ib) (ts_at resting ia));
    try lia; try (by left); try (by right).
  destruct (Z.compare_spec ia ib), (Z.compare_spec ib ia);
    try lia; try (by left); try (by right).
Qed.

#[export] Instance before_antisymm resting : AntiSymm (=) (before resting).
Proof.
  intros a b Hab Hba. destruct (by_remainder resting a b) eqn:E; [by eapply by_remainder_Eq | | done].
  exfalso. apply Hba. clear Hab Hba. revert E. unfold by_remainder.
  destruct (Z.compare_spec b.2 a.2), (Z.compare_spec a.2 b.2); try lia; try done.
  destruct (Z.compare_spec (ts_at resting a.1) (ts_at resting b.1)),
    (Z.compare_spec (ts_at resting b.1) (ts_at resting a.1)); try lia; try done.
  destruct (Z.compare_spec a.1 b.1), (Z.compare_spec b.1 a.1); try lia; done.
Qed.

#[export] Instance before_trans resting : Transitive (before resting).
Proof.
  intros a b c. unfold before, by_remainder.
  destruct (Z.compare_spec b.2 a.2), (Z.compare_spec c.2 b.2), (Z.compare_spec c.2 a.2);
    try lia; try done.
  destruct (Z.compare_spec (ts_at resting a.1) (ts_at resting b.1)),
    (Z.compare_spec (ts_at resting b.1) (ts_at resting c.1)),
    (Z.compare_spec (ts_at resting a.1) (ts_at resting c.1)); try lia; try done.
  destruct (Z.compare_spec a.1 b.1), (Z.compare_spec b.1 c.1), (Z.compare_spec a.1 c.1);
    try lia; done.
Qed.

(** What [select_nth_unstable_by] guarantees: the entries are permuted and
    every entry of the prefix is before every entry of the rest. *)
Definition selection (resting : list RestingOrder) (k : nat) (fr fr' : list (Z * Z)) : Prop :=
  fr' ≡ₚ fr /\
  forall a b, a ∈ take k fr' -> b ∈ drop k fr' -> before resting a b.

Lemma sorted_selection resting k fr :
  selection resting k fr (merge_sort (before resting) fr).
Proof.
  split; [apply merge_sort_Permutation|].
  pose proof (StronglySorted_merge_sort (before resting) fr) as Hs.
  rewrite <-(take_drop k (merge_sort (before resting) fr)) in Hs.
  intros a b Ha Hb. by eapply StronglySorted_app_1_elem_of.
Qed.

(** Any two selections choose the same entries. *)
Lemma selection_unique resting k fr l1 l2 :
  NoDup fr -> selection resting k fr l1 -> selection resting k fr l2 ->
  take k l1 ≡ₚ take k l2.
Proof.
  assert (forall l1 l2 a, NoDup fr -> selection resting k fr l1 -> selection resting k fr l2 ->
    a ∈ take k l1 -> a ∈ take k l2) as Hincl.
  { clear l1 l2; intros l1 l2 a Hnd [Hp1 Ho1] [Hp2 Ho2] Ha.
    destruct (decide (a ∈ take k l2)) as [|Hna]; [done|exfalso].
    assert (NoDup l1) as Hnd1 by (by rewrite Hp1).
    assert (NoDup l2) as Hnd2 by (by rewrite Hp2).
    assert (a ∈ l2) as Ha2.
    { rewrite Hp2, <-Hp1, <-(take_drop k l1). set_solver. }
    assert (a ∈ drop k l2) as Had by (rewrite <-(take_drop k l2) in Ha2; set_solver).
    assert (exists b, b ∈ take k l2 /\ b ∉ take k l1) as (b & Hb2 & Hb1).
    { destruct (decide (Exists (fun b => b ∉ take k l1) (take k l2))) as [He|Hne].
      { apply Exists_exists in He; naive_solver. }
      exfalso. rewrite <-Forall_Exists_neg, Forall_forall in Hne.
      assert (length (a :: take k l2) <= length (take k l1))%nat as Hlen.
      { apply submseteq_length, NoDup_submseteq.
        - apply NoDup_cons; split; [done|]. rewrite <-(take_drop k l2) in Hnd2.
          by apply NoDup_app in Hnd2 as [? _].
        - intros x [->|Hx]%elem_of_cons; [done|].
          destruct (decide (x ∈ take k l1)); [done|]. by destruct (Hne x Hx). }
      simpl in Hlen. rewrite !length_take in Hlen.
      assert (length l1 = length l2) by (by rewrite Hp1, Hp2). lia. }
    assert (b ∈ drop k l1) as Hbd.
    { assert (b ∈ l1) as Hbl.
      { rewrite Hp1, <-Hp2, <-(take_drop k l2). set_solver. }
      rewrite <-(take_drop k l1) in Hbl. set_solver. }
    assert (a = b) as ->.
    { apply (anti_symm (before resting)); [by apply Ho1 | by apply Ho2]. }
    done. }
  intros Hnd H1 H2. apply NoDup_Permutation.
  - destruct H1 as [Hp _]. rewrite <-Hp, <-(take_drop k l1) in Hnd.
    by apply NoDup_app in Hnd as [? _].
  - destruct H2 as [Hp _]. rewrite <-Hp, <-(take_drop k l2) in Hnd.
    by apply NoDup_app in Hnd as [? _].
  - intros a; split; eauto.
Qed.

Section Fracs.
Variables (resting : list RestingOrder) (fillable total : Z).
Hypothesis slice : level_slice resting.

Lemma fracs_fst : map fst (fracs fillable total resting) =
  imap (fun i _ => Z.of_nat i) resting.
Proof.
  unfold fracs. change (map fst) with (fmap (M:=list) (@fst Z Z)). rewrite fmap_imap.
  apply imap_ext. intros i r Hi. simpl. apply (slice_idx resting slice).
  by eapply lookup_lt_Some.
Qed.

Lemma fracs_fst_nodup : NoDup (map fst (fracs fillable total resting)).
Proof.
  rewrite fracs_fst. apply NoDup_alt. intros i j x.
  rewrite !list_lookup_imap. intros (r & _ & ->)%fmap_Some (r' & _ & Hx)%fmap_Some. lia.
Qed.

Lemma fracs_nodup : NoDup (fracs fillable total resting).
Proof. eapply NoDup_fmap_1. apply fracs_fst_nodup. Qed.

Lemma fracs_length : length (fracs fillable total resting) = length resting.
Proof. apply length_imap. Qed.

Lemma fracs_range : Forall (fun e => 0 <= e.1 < Z.of_nat (length resting))
  (fracs fillable total resting).
Proof.
  apply Forall_forall. intros e He.
  assert (e.1 ∈ map fst (fracs fillable total resting)) as Hin by (by apply list_elem_of_fmap_2).
  rewrite fracs_fst in Hin. apply list_elem_of_lookup in Hin as (i & Hi).
  rewrite list_lookup_imap in Hi. apply fmap_Some in Hi as (r & Hr & ->).
  apply lookup_lt_Some in Hr. lia.
Qed.
End Fracs.

(** *** The final quantities *)
Section Final.
Variables (resting : list RestingOrder) (fillable total : Z).
Hypothesis total_eq : sumZ r_remaining resting = total.
Hypothesis slice : level_slice resting.
Hypothesis fillable_range : 0 < fillable < total.

Let base := shares fillable total resting.
Let fr := fracs fillable total resting.
Let leftover := wrap64 (fillable - assigned base).

Lemma leftover_eq :
  leftover = fillable - sumZ (share_of fillable total) resting /\
  0 <= leftover < Z.of_nat (length fr).
Proof.
  unfold leftover, base, fr. rewrite fracs_length, assigned_eq by done.
  destruct (sum_shares resting fillable total) as [H1 H2]; [done..|].
  assert (resting <> []) as Hne.
  { intros ->. rewrite sumZ_nil in total_eq. lia. }
  specialize (H2 Hne).
  assert (0 <= sumZ (share_of fillable total) resting).
  { apply sumZ_nonneg, Forall_forall. intros r Hr.
    pose proof (share_bound resting fillable total total_eq slice fillable_range r Hr); lia. }
  rewrite wrap64_small; [lia|]. destruct slice as (_ & ? & _). unfold is_u64. lia.
Qed.

Lemma base_lookup k r : resting !! k = Some r -> base !! k = Some (share_of fillable total r).
Proof. intros Hk. unfold base, shares. by rewrite list_lookup_fmap, Hk. Qed.

Lemma base_bound : Forall (fun q => 0 <= q /\ q + leftover <= U64_MAX) base.
Proof.
  destruct leftover_eq as [-> _]. apply Forall_forall. unfold base, shares.
  intros q (r & -> & Hr)%list_elem_of_fmap.
  pose proof (share_bound resting fillable total total_eq slice fillable_range r Hr).
  assert (share_of fillable total r <= sumZ (share_of fillable total) resting).
  { apply sumZ_elem_le; [|done]. apply Forall_forall. intros r' Hr'.
    pose proof (share_bound resting fillable total total_eq slice fillable_range r' Hr'); lia. }
  destruct slice as (_ & ? & _). lia.
Qed.

(** For every selection of the leftover recipients the loop returns the same
    aligned quantities: the floored share, plus one lot for a recipient. *)
Lemma bump_final fr' :
  selection resting (Z.to_nat leftover) fr fr' ->
  exists base', bump base (take (Z.to_nat leftover) fr') = Ret base' /\
    bump base (selected resting (Z.to_nat leftover) fr) = Ret base' /\
    aligned base' resting /\ sumZ id base' = fillable /\
    forall k r, resting !! k = Some r ->
      exists q, base' !! k = Some q /\
        share_of fillable total r <= q <= share_of fillable total r + 1.
Proof.
  intros Hsel. destruct leftover_eq as [Hleft Hlr].
  pose proof base_bound as Hbb.
  assert (length base = length resting) as Hlb by apply length_fmap.
  assert (forall l, l ≡ₚ fr ->
    NoDup (map fst (take (Z.to_nat leftover) l)) /\
    Forall (fun e => 0 <= e.1 < Z.of_nat (length base)) (take (Z.to_nat leftover) l) /\
    length (take (Z.to_nat leftover) l) = Z.to_nat leftover) as Hpre.
  { intros l Hl. repeat split.
    - assert (NoDup (map fst l)) as Hnd.
      { rewrite Hl. by apply fracs_fst_nodup. }
      rewrite <-(take_drop (Z.to_nat leftover) l), map_app in Hnd.
      by apply NoDup_app in Hnd as [? _].
    - apply Forall_take. rewrite Hlb, Hl. by apply fracs_range.
    - rewrite length_take, Hl. lia. }
  assert (Forall (fun q => 0 <= q < U64_MAX) base) as Hbs.
  { apply Forall_forall. unfold base, shares. intros q (r & -> & Hr)%list_elem_of_fmap.
    pose proof (share_bound resting fillable total total_eq slice fillable_range r Hr).
    pose proof (slice_remaining_le resting slice r Hr). destruct slice as (_ & ? & _). lia. }
  destruct (sorted_selection resting (Z.to_nat leftover) fr) as [Hps Hos].
  destruct (Hpre _ (proj1 Hsel)) as (Hn1 & Hr1 & Hl1).
  destruct (Hpre _ Hps) as (Hn2 & Hr2 & Hl2).
  destruct (bump_spec _ base Hn1 Hr1 Hbs) as (b1 & Hb1 & Hlen1 & Hlk1).
  destruct (bump_spec _ base Hn2 Hr2 Hbs) as (b2 & Hb2 & Hlen2 & Hlk2).
  assert (map fst (take (Z.to_nat leftover) fr') ≡ₚ
          map fst (take (Z.to_nat leftover) (merge_sort (before resting) fr))) as Hperm.
  { apply Permutation_map, (selection_unique resting _ fr); [by apply fracs_nodup | done | by split]. }
  assert (b1 = b2) as <-.
  { apply list_eq_same_length with (length base); [done..|].
    intros k x y Hk Hx Hy. destruct (lookup_lt_is_Some_2 base k Hk) as [q Hq].
    rewrite (Hlk1 _ _ Hq) in Hx. rewrite (Hlk2 _ _ Hq) in Hy. simplify_eq.
    apply decide_ext. by rewrite Hperm. }
  exists b1. split; [done|]. split; [done|]. split; [|split].
  - apply Forall2_same_length_lookup; split; [by rewrite Hlen1, Hlb|].
    intros k q r Hq Hr. rewrite (Hlk1 _ _ (base_lookup _ _ Hr)) in Hq.
    apply list_elem_of_lookup_2 in Hr.
    pose proof (share_bound resting fillable total total_eq slice fillable_range r Hr).
    case_decide; simplify_eq; lia.
  - rewrite (bump_sum _ _ _ ltac:(by rewrite Hl1, Z2Nat.id by lia) Hb1), Hl1.
    unfold base, shares. rewrite sumZ_map, Z2Nat.id, Hleft by lia.
    rewrite (sumZ_ext _ (share_of fillable total)) by done. lia.
  - intros k r Hr. eexists. split; [by apply Hlk1, base_lookup|]. case_decide; lia.
Qed.
End Final.

(** Emitting every order's whole size is the cleared-level branch. *)
Lemma fill_all_emit resting :
  Forall (fun r => 0 < r_remaining r) resting ->
  fill_all resting = emit resting (map r_remaining resting) 0.
Proof.
  intros H. unfold fill_all.
  assert (forall n, imap (fun i r => mkAlloc (r_id r) (r_remaining r) (wrap32 (Z.of_nat (n + i)))) resting =
    emit resting (map r_remaining resting) (Z.of_nat n)) as Hgen.
  { induction H as [|r rest Hr H IH]; intros n; simpl; [done|].
    case_if; [|lia]. rewrite Nat.add_0_r. f_equal.
    replace (Z.of_nat n + 1) with (Z.of_nat (S n)) by lia. rewrite <-IH.
    apply imap_ext. intros i r' _. simpl. do 2 f_equal. lia. }
  apply (Hgen 0%nat).
Qed.

Lemma full_aligned resting :
  Forall (fun r => 0 < r_remaining r) resting -> aligned (map r_remaining resting) resting.
Proof. induction 1; simpl; constructor; [lia | done]. Qed.

(** [allocate_into] emits one quantity per position: the whole level, or the
    floored proportional share plus at most one lot. *)
Lemma allocate_base resting incoming out :
  level_slice resting -> 0 < incoming <= U64_MAX -> resting <> [] ->
  exists base, allocate_into resting incoming out = Ret (out ++ emit resting base 0) /\
    aligned base resting /\
    sumZ id base = Z.min incoming (sumZ r_remaining resting) /\
    let fillable := Z.min incoming (sumZ r_remaining resting) in
    let total := sumZ r_remaining resting in
    forall k r, resting !! k = Some r ->
      exists q, base !! k = Some q /\
        fillable * r_remaining r / total <= q <= fillable * r_remaining r / total + 1.
Proof.
  intros Hs Hin Hne. unfold allocate_into.
  rewrite (slice_total_remaining resting Hs).
  set (total := sumZ r_remaining resting). set (fillable := Z.min incoming total).
  pose proof (slice_pos resting Hs) as Hpos.
  assert (0 < total) as Htot.
  { destruct resting as [|r rest]; [done|].
    pose proof (slice_remaining_le _ Hs r ltac:(left)). unfold total; lia. }
  case_if; [lia|]. case_if.
  - exists (map r_remaining resting). rewrite fill_all_emit by done.
    split; [done|]. split; [by apply full_aligned|]. split.
    + rewrite sumZ_map. change (sumZ r_remaining resting = fillable). done.
    + intros k r Hr. rewrite list_lookup_fmap, Hr. eexists; split; [done|].
      rewrite E0, Z.mul_comm, Z.div_mul by lia. lia.
  - destruct resting as [|r [|r2 rest]]; [done| |].
    + exists [fillable]. simpl. case_if; [|lia].
      split; [done|]. split; [|split].
      * constructor; [|constructor]. assert (total = r_remaining r + 0) by done. lia.
      * rewrite sumZ_cons, sumZ_nil. unfold id; lia.
      * intros [|k] r' Hr'; simplify_eq/=. exists fillable; split; [done|].
        unfold total in *; rewrite sumZ_cons, sumZ_nil, Z.add_0_r in *.
        rewrite Z.div_mul by lia. lia.
    + destruct (bump_final (r :: r2 :: rest) fillable total eq_refl Hs ltac:(lia) _
        (sorted_selection _ _ _)) as (b & Hb & _ & Hal & Hsum & Hlk).
      destruct (leftover_eq (r :: r2 :: rest) fillable total eq_refl Hs ltac:(lia)) as [Hl1 Hl2].
      exists b. split; [|split; [done|split; [done|]]].
      * case_if.
        -- unfold selected. rewrite Hb. done.
        -- assert (wrap64 (fillable - assigned (shares fillable total (r :: r2 :: rest))) = 0) as Hz.
           { apply andb_false_iff in E1 as [E1|E1]; zbool; lia. }
           rewrite Hz in Hb. simpl in Hb. unfold bump in Hb; simpl in Hb. injection Hb as <-. done.
      * intros k r' Hr'. destruct (Hlk k r' Hr') as (q & Hq & Hb').
        exists q; split; [done|].
        rewrite (share_eq (r :: r2 :: rest) fillable total) in Hb'; [done..|lia|].
        by eapply list_elem_of_lookup_2.
Qed.

#[global] Instance pro_rata_contract : AllocContract strategy.
Proof.
  intros resting incoming out Hs Hin. destruct (decide (resting = [])) as [->|Hne].
  - exists []. rewrite app_nil_r. split; [|split; [constructor|split; [constructor|]]].
    + unfold strategy, allocate_into; cbn -[Z.min]. by rewrite Z.min_r by lia.
    + rewrite !sumZ_nil. lia.
  - destruct (allocate_base resting incoming out Hs Hin Hne) as (b & Hb & Hal & Hsum & _).
    exists (emit resting b 0); split; [done|]. by apply emit_contract.
Qed.
End ProRataFacts.

(** ** [SizePriority] meets the contract *)
Module SizePriorityFacts.
Import SizePriority.

(** Descending order of [BySize]. *)
Definition larger (a b : BySize) : Prop := cmp a b <> Lt.

#[export] Instance larger_dec : RelDecision larger.
Proof. unfold RelDecision, larger; intros; solve_decision. Defined.

Lemma cmp_antisym a b : cmp b a = CompOpp (cmp a b).
Proof.
  unfold cmp. rewrite (Z.compare_antisym (s_remaining a)).
  destruct (s_remaining a ?= s_remaining b); simpl; try done.
  rewrite (Z.compare_antisym (s_timestamp b)).
  destruct (s_timestamp b ?= s_timestamp a); simpl; try done.
  by rewrite (Z.compare_antisym (s_idx b)).
Qed.

Lemma cmp_Eq a b : cmp a b = Eq -> a = b.
Proof.
  unfold cmp. destruct a as [ra ta ia], b as [rb tb ib]; simpl.
  destruct (Z.compare_spec ra rb); try done.
  destruct (Z.compare_spec tb ta); try done.
  destruct (Z.compare_spec ib ia); congruence.
Qed.

#[export] Instance larger_total : Total larger.
Proof. intros a b. unfold larger. rewrite (cmp_antisym a b). destruct (cmp a b); auto. Qed.

#[export] Instance larger_antisymm : AntiSymm (=) larger.
Proof.
  intros a b. unfold larger. rewrite (cmp_antisym a b).
  destruct (cmp a b) eqn:E; simpl; try done. intros; by apply cmp_Eq.
Qed.

#[export] Instance larger_trans : Transitive larger.
Proof.
  intros a b c. unfold larger, cmp.
  destruct (Z.compare_spec (s_remaining a) (s_remaining b)),
    (Z.compare_spec (s_remaining b) (s_remaining c)),
    (Z.compare_spec (s_remaining a) (s_remaining c)); try lia; try done.
  destruct (Z.compare_spec (s_timestamp b) (s_timestamp a)),
    (Z.compare_spec (s_timestamp c) (s_timestamp b)),
    (Z.compare_spec (s_timestamp c) (s_timestamp a)); try lia; try done.
  destruct (Z.compare_spec (s_idx b) (s_idx a)), (Z.compare_spec (s_idx c) (s_idx b)),
    (Z.compare_spec (s_idx c) (s_idx a)); try lia; done.
Qed.

Lemma greatest_spec top rest g others :
  greatest top rest = (g, others) ->
  g :: others ≡ₚ top :: rest /\ Forall (larger g) (top :: rest).
Proof.
  revert top g others; induction rest as [|e rest IH]; intros top g others; simpl.
  { intros [= <- <-]. split; [done|]. constructor; [|constructor].
    destruct (total larger top top); done. }
  assert (larger top e \/ larger e top /\ cmp top e = Lt) as Hte.
  { unfold larger at 1. destruct (cmp top e) eqn:E; auto.
    right; split; [|done]. unfold larger. rewrite cmp_antisym, E. done. }
  destruct Hte as [Hte|[Hte E]].
  - destruct (greatest top rest) as [g' o'] eqn:Eg. intros Hg.
    assert (g' = g /\ e :: o' = others) as [<- <-].
    { unfold larger in Hte. destruct (cmp top e); by inv Hg. }
    destruct (IH _ _ _ Eg) as [Hp Hf]. split.
    + rewrite (Permutation_swap e g' o'), Hp. constructor.
    + inv Hf. constructor; [done|]. constructor; [by transitivity top | done].
  - rewrite E. destruct (greatest e rest) as [g' o'] eqn:Eg. intros [= <- <-].
    destruct (IH _ _ _ Eg) as [Hp Hf]. split.
    + rewrite (Permutation_swap top g' o'), Hp. done.
    + inv Hf. constructor; [by transitivity e | by constructor].
Qed.

(** [BinaryHeap::pop] yields the head of the sorted heap. *)
Lemma pop_sorted heap top heap' :
  pop heap = Some (top, heap') ->
  merge_sort larger heap = top :: merge_sort larger heap'.
Proof.
  destruct heap as [|e rest]; simpl; [done|]. intros [= Hg].
  destruct (greatest_spec _ _ _ _ Hg) as [Hp Hf].
  apply (StronglySorted_unique larger).
  - apply StronglySorted_merge_sort; apply _.
  - constructor; [apply StronglySorted_merge_sort; apply _|].
    rewrite merge_sort_Permutation. rewrite <-Hp in Hf. by inv Hf.
  - by rewrite !merge_sort_Permutation, Hp.
Qed.

Lemma pop_length heap top heap' :
  pop heap = Some (top, heap') -> length heap = S (length heap').
Proof.
  destruct heap as [|e rest]; simpl; [done|]. intros [= Hg].
  destruct (greatest_spec _ _ _ _ Hg) as [Hp _].
  apply Permutation_length in Hp. simpl in Hp. lia.
Qed.

(** The sort-based reference: sweep the level largest-first. *)
Fixpoint sweep_by (resting : list RestingOrder) (l : list BySize) (remaining : Qty)
  : list Allocation :=
  match l with
  | [] => []
  | e :: l' =>
      let fill := Z.min remaining (s_remaining e) in
      if 0 <? fill then
        match resting !! Z.to_nat (s_idx e) with
        | Some r => mkAlloc (r_id r) fill (s_idx e) :: sweep_by resting l' (remaining - fill)
        | None => []
        end
      else sweep_by resting l' remaining
  end.

Definition in_range (resting : list RestingOrder) (e : BySize) : Prop :=
  0 <= s_idx e /\
  exists r, resting !! Z.to_nat (s_idx e) = Some r /\ s_remaining e = r_remaining r.

Lemma sweep_by_done resting l : sweep_by resting l 0 = [].
Proof.
  induction l as [|e l IH]; simpl; [done|]. case_if; [lia | done].
Qed.

Lemma drain_sweep fuel resting heap remaining out :
  length heap = fuel -> 0 <= remaining -> Forall (in_range resting) heap ->
  drain fuel resting heap remaining out =
    Ret (out ++ sweep_by resting (merge_sort larger heap) remaining).
Proof.
  revert heap remaining out; induction fuel as [|fuel IH]; intros heap remaining out Hl Hr Hf.
  { destruct heap; [|done]. simpl. by rewrite app_nil_r. }
  simpl. case_if.
  2:{ assert (remaining = 0) as -> by lia. by rewrite sweep_by_done, app_nil_r. }
  destruct (pop heap) as [[top heap']|] eqn:Ep.
  2:{ destruct heap; [|done]. simpl. by rewrite app_nil_r. }
  pose proof (pop_length _ _ _ Ep) as Hl'.
  rewrite (pop_sorted _ _ _ Ep). simpl.
  assert (in_range resting top /\ Forall (in_range resting) heap') as [(Hi & r & Hr' & Hs) Hf'].
  { destruct heap as [|e rest]; simpl in Ep; [done|]. injection Ep as Ep.
    destruct (greatest_spec _ _ _ _ Ep) as [Hp _]. rewrite <-Hp in Hf. by inv Hf. }
  rewrite Hr'. case_if; rewrite IH; try done; try lia. by rewrite <-app_assoc.
Qed.

Lemma sweep_by_contract resting l remaining :
  Forall (in_range resting) l -> NoDup (map s_idx l) ->
  Forall (fun e => 0 < s_remaining e) l -> 0 <= remaining ->
  Forall (alloc_valid resting) (sweep_by resting l remaining) /\
  NoDup (map a_idx (sweep_by resting l remaining)) /\
  map a_idx (sweep_by resting l remaining) ⊆ map s_idx l /\
  sumZ a_qty (sweep_by resting l remaining) = Z.min remaining (sumZ s_remaining l).
Proof.
  intros Hf Hnd Hpos; revert remaining; induction l as [|e l IH]; intros remaining Hrem; simpl.
  { repeat split; try constructor; [done|]. rewrite !sumZ_nil; lia. }
  inv Hf. inv Hpos. simpl in Hnd. apply NoDup_cons in Hnd as [Hnot Hnd].
  destruct H1 as (Hi & r & Hr & Hs). rewrite Hr.
  assert (0 <= sumZ s_remaining l) as Hl0.
  { apply sumZ_nonneg. eapply Forall_impl; [done | simpl; lia]. }
  rewrite sumZ_cons. case_if.
  - destruct (IH ltac:(done) Hnd ltac:(done) (remaining - Z.min remaining (s_remaining e)))
      as (Ha & Hn & Hsub & Hsum); [lia|].
    simpl. rewrite sumZ_cons, Hsum. repeat split.
    + constructor; [|done]. split; [done|]. split; [done|]. exists r; simpl.
      repeat split; [done|lia].
    + apply NoDup_cons; split; [|done]. set_solver.
    + set_solver.
    + simpl; lia.
  - destruct (IH ltac:(done) Hnd ltac:(done) remaining Hrem) as (Ha & Hn & Hsub & Hsum).
    rewrite Hsum. repeat split; [done | done | set_solver | lia].
Qed.

Section Storage.
Variable resting : list RestingOrder.
Hypothesis slice : level_slice resting.

Lemma storage_lookup k : storage resting !! k =
  (fun r => mkBySize (r_remaining r) (r_timestamp r) (Z.of_nat k)) <$> resting !! k.
Proof.
  unfold storage. rewrite list_lookup_imap. destruct (resting !! k) eqn:E; [|done]. simpl.
  by rewrite (slice_idx resting slice) by (by eapply lookup_lt_Some).
Qed.

Lemma storage_in_range : Forall (in_range resting) (storage resting).
Proof.
  apply Forall_lookup. intros k e. rewrite storage_lookup.
  intros (r & Hr & ->)%fmap_Some. split; [simpl; lia|].
  exists r. simpl. by rewrite Nat2Z.id.
Qed.

Lemma storage_idx_nodup : NoDup (map s_idx (storage resting)).
Proof.
  apply NoDup_alt. intros i j x. change (map s_idx) with (fmap (M:=list) s_idx).
  rewrite !list_lookup_fmap, !storage_lookup, <-!option_fmap_compose.
  intros (r & _ & ->)%fmap_Some (r' & _ & Hx)%fmap_Some. simpl in Hx. lia.
Qed.

Lemma storage_pos : Forall (fun e => 0 < s_remaining e) (storage resting).
Proof.
  apply Forall_lookup. intros k e. rewrite storage_lookup.
  intros (r & Hr & ->)%fmap_Some. simpl.
  apply (proj1 (Forall_lookup _ _) (slice_pos resting slice) _ _ Hr).
Qed.

Lemma storage_sum : sumZ s_remaining (storage resting) = sumZ r_remaining resting.
Proof.
  unfold storage. clear slice.
  assert (forall f, sumZ s_remaining (imap (fun i r =>
    mkBySize (r_remaining r) (r_timestamp r) (f i)) resting) = sumZ r_remaining resting) as H.
  { induction resting as [|r rest IH]; intros f; [done|].
    simpl. rewrite !sumZ_cons. f_equal. apply (IH (fun i => f (S i))). }
  apply H.
Qed.

(** The heap-based allocation is the sort-based reference. *)
Lemma allocate_sorted incoming out :
  0 < incoming -> resting <> [] ->
  allocate_into resting incoming out =
    Ret (out ++ sweep_by resting (merge_sort larger (storage resting)) incoming).
Proof.
  intros Hin Hne. unfold allocate_into. case_if; [lia|].
  assert (drain (length resting) resting (storage resting) incoming out =
    Ret (out ++ sweep_by resting (merge_sort larger (storage resting)) incoming)) as Hd.
  { apply drain_sweep; [apply length_imap | lia | apply storage_in_range]. }
  destruct resting as [|r [|r2 rest]]; [done| |done].
  unfold storage; simpl. case_if; [done|]. by rewrite app_nil_r.
Qed.
End Storage.

#[global] Instance size_priority_contract : AllocContract strategy.
Proof.
  intros resting incoming out Hs Hin. destruct (decide (resting = [])) as [->|Hne].
  - exists []. rewrite app_nil_r. split; [|split; [constructor|split; [constructor|]]].
    + unfold strategy, allocate_into; simpl. by case_if.
    + rewrite !sumZ_nil. lia.
  - eexists. split; [by apply allocate_sorted; [|lia|]|].
    set (l := merge_sort larger (storage resting)).
    assert (l ≡ₚ storage resting) as Hp by apply merge_sort_Permutation.
    destruct (sweep_by_contract resting l incoming) as (H1 & H2 & _ & H4); [..|lia|].
    + rewrite Hp. by apply storage_in_range.
    + rewrite Hp. by apply storage_idx_nodup.
    + rewrite Hp. by apply storage_pos.
    + split; [done|]. split; [done|]. rewrite H4. f_equal.
      by rewrite (sumZ_perm _ _ _ Hp), storage_sum.
Qed.
End SizePriorityFacts.

(** ** Properties of the strategies *)

(** each of the three strategies, on every price level the engine can hand
    it, returns normally with allocations that are positive, name a resting
    order, never exceed what it has left, never name an order twice, and add up
    to exactly [min(incoming, total)]. *)
Theorem strategies_contract (s : MatchingStrategy) (resting : list RestingOrder) (incoming : Qty)
  (Hs : s ∈ [PriceTimePriority.strategy; ProRata.strategy; SizePriority.strategy])
  (Hslice : level_slice resting) (Hin : 0 < incoming <= U64_MAX) :
  exists al, allocate s resting incoming = Ret al /\ contract resting incoming al.
Proof.
  assert (AllocContract s) as Hc.
  { apply elem_of_cons in Hs as [->|Hs]; [apply _|].
    apply elem_of_cons in Hs as [->|Hs]; [apply _|].
    apply list_elem_of_singleton in Hs as ->; apply _. }
  exact (allocate_contract resting incoming [] Hslice Hin).
Qed.

(** FIFO gives nothing to an order while an older order at the level still
    has quantity left. *)
Theorem price_time_priority (resting : list RestingOrder) (incoming : Qty) (i j : nat)
  (ri : RestingOrder) (Hslice : level_slice resting) (Hin : 0 <= incoming)
  (Hi : resting !! i = Some ri) (Hij : (i < j)%nat) (al : list Allocation)
  (Hal : allocate PriceTimePriority.strategy resting incoming = Ret al)
  (Hj : 0 < alloc_at al j) :
  alloc_at al i = r_remaining ri.
Proof.
  unfold allocate in Hal. simpl in Hal. unfold PriceTimePriority.allocate_into in Hal.
  injection Hal as <-. simpl in *.
  pose proof (slice_pos _ Hslice) as Hpos.
  rewrite PriceTimeFacts.sweep_emit in * by done.
  pose proof (PriceTimeFacts.fifo_base_aligned resting incoming Hpos Hin) as Hb.
  rewrite alloc_at_emit in * by done.
  clear -Hpos Hi Hij Hj Hin.
  revert i j incoming Hin Hi Hij Hj. induction Hpos as [|r rest Hr Hpos IH];
    intros i j incoming Hin Hi Hij Hj; [done|].
  destruct j as [|j]; [lia|]. destruct i as [|i]; simpl in *; simplify_eq.
  - destruct (decide (incoming < r_remaining ri)) as [Hlt|]; [|lia].
    rewrite Z.min_l, Z.sub_diag, PriceTimeFacts.fifo_base_zero in Hj by (lia || done).
    destruct (decide (j < length rest)%nat).
    + rewrite lookup_replicate_2 in Hj by done. simpl in Hj. lia.
    + rewrite (lookup_ge_None_2 (replicate (length rest) 0)) in Hj
        by (rewrite length_replicate; lia). simpl in Hj; lia.
  - apply (IH i j (incoming - Z.min incoming (r_remaining r))); [lia | done | lia | done].
Qed.

(** C39: pro-rata gives every order its floored proportional share of the
    quantity filled at the level, or one lot more. *)
Theorem pro_rata_fair (resting : list RestingOrder) (incoming : Qty) (al : list Allocation)
  (Hslice : level_slice resting) (Hin : 0 < incoming <= U64_MAX) (k : nat) (r : RestingOrder)
  (Hk : resting !! k = Some r) (Hal : allocate ProRata.strategy resting incoming = Ret al) :
  let total := sumZ r_remaining resting in
  let share := Z.min incoming total * r_remaining r / total in
  share <= alloc_at al k <= share + 1.
Proof.
  assert (resting <> []) as Hne by (intros ->; done).
  destruct (ProRataFacts.allocate_base resting incoming [] Hslice Hin Hne)
    as (base & Hb & Hal' & _ & Hfair).
  unfold allocate in Hal. simpl in Hal. rewrite Hb in Hal. injection Hal as <-. simpl.
  destruct (Hfair k r Hk) as (q & Hq & Hle).
  rewrite alloc_at_emit by done. by rewrite Hq.
Qed.

(** The recipients of the leftover lots do not depend on how
    [select_nth_unstable_by] permutes the entries: every permutation it may
    produce yields the quantities of the sorted order. *)
Theorem pro_rata_selection (resting : list RestingOrder) (fillable : Qty) (fr' : list (Z * Z))
  (Hslice : level_slice resting) (Hf : 0 < fillable < sumZ r_remaining resting) :
  let total := sumZ r_remaining resting in
  let base := ProRata.shares fillable total resting in
  let fr := ProRata.fracs fillable total resting in
  let leftover := Z.to_nat (wrap64 (fillable - ProRata.assigned base)) in
  ProRataFacts.selection resting leftover fr fr' ->
  exists base', ProRata.bump base (take leftover fr') = Ret base' /\
    ProRata.bump base (ProRata.selected resting leftover fr) = Ret base'.
Proof.
  intros total base fr leftover Hsel.
  destruct (ProRataFacts.bump_final resting fillable total eq_refl Hslice Hf fr' Hsel)
    as (b & H1 & H2 & _). eauto.
Qed.

(** Popping the heap until the aggressor is satisfied allocates exactly as
    sorting the level by size (ties by time, then position) and sweeping it. *)
Theorem size_priority_sorted (resting : list RestingOrder) (incoming : Qty)
  (Hslice : level_slice resting) (Hin : 0 < incoming) (Hne : resting <> []) :
  allocate SizePriority.strategy resting incoming =
    Ret (SizePriorityFacts.sweep_by resting
           (merge_sort SizePriorityFacts.larger (SizePriority.storage resting)) incoming).
Proof. apply (SizePriorityFacts.allocate_sorted resting Hslice incoming [] Hin Hne). Qed.

Definition example_level : list RestingOrder :=
  [mkResting 1 5 1 0; mkResting 2 5 2 0; mkResting 3 10 3 0].

Lemma example_level_slice : level_slice example_level.
Proof. unfold level_slice, example_level. repeat split; [repeat constructor | done | done]. Qed.

Lemma strategies_contract_witness :
  exists al, allocate SizePriority.strategy example_level 12 = Ret al /\
             contract example_level 12 al.
Proof.
  apply (strategies_contract SizePriority.strategy example_level 12);
    [set_solver | apply example_level_slice | lia].
Defined.

Lemma price_time_priority_witness :
  alloc_at (PriceTimePriority.sweep example_level 0 8) 0 = 5.
Proof.
  apply (price_time_priority example_level 8 0 1 (mkResting 1 5 1 0)
           example_level_slice ltac:(lia) eq_refl ltac:(lia) _ eq_refl).
  vm_compute. reflexivity.
Defined.

Lemma pro_rata_fair_witness :
  exists al, allocate ProRata.strategy example_level 9 = Ret al /\
    (9 * 10 / 20 <= alloc_at al 2 <= 9 * 10 / 20 + 1).
Proof.
  eexists; split; [vm_compute; reflexivity|].
  apply (pro_rata_fair example_level 9 _ example_level_slice ltac:(lia) 2
           (mkResting 3 10 3 0) eq_refl).
  vm_compute. reflexivity.
Defined.

Lemma pro_rata_selection_witness :
  exists base', ProRata.bump [2; 2; 4] (take 1 [(2, 10); (0, 5); (1, 5)]) = Ret base' /\
    ProRata.bump [2; 2; 4] (ProRata.selected example_level 1 [(0, 5); (1, 5); (2, 10)]) = Ret base'.
Proof.
  apply (pro_rata_selection example_level 9 [(2, 10); (0, 5); (1, 5)] example_level_slice).
  - vm_compute. done.
  - split.
    + vm_compute. apply (Permutation_app_comm [(2, 10)] [(0, 5); (1, 5)]).
    + vm_compute. intros a b Ha Hb.
      apply list_elem_of_singleton in Ha as ->.
      apply elem_of_cons in Hb as [->|Hb]; [done|].
      apply list_elem_of_singleton in Hb as ->. done.
Defined.

Lemma size_priority_sorted_witness :
  allocate SizePriority.strategy example_level 12 =
    Ret [mkAlloc 3 10 2; mkAlloc 1 2 0].
Proof.
  rewrite (size_priority_sorted example_level 12 example_level_slice ltac:(lia) ltac:(done)).
  vm_compute. reflexivity.
Defined.
