(* ===== verification/LevelIndex.v ===== *)
(** * The order pool and the price-level index

    [src/src/book.rs], lines 22 to 440: the slab of order slots with its free
    list ([OrderPool]), one price level with its tombstones and aggregates
    ([Level]), and the dense window with its two-level occupancy bitmap and the
    [BTreeMap] for the prices outside it ([LevelIndex]).

    The contract of the index is [index_ok]: it represents a finite map from
    prices to levels.  Every operation is shown to act on that map, and the
    bitmap scans are shown to find its least and greatest key and to enumerate
    it in price order. *)

From S2P Require Import Prelude Types.

(** ** [OrderPool] *)

(** [free] is the free list with the next slot to reuse first: [Vec::push] and
    [Vec::pop] act at the head.  Reserved capacity and pre-faulting do not
    change the contents and are not part of the state. *)
Record OrderPool := mkPool { slots : list Order; free : list nat }.

Module OrderPool.

Definition with_capacity : OrderPool := mkPool [] [].

Definition in_use (p : OrderPool) : Z := Z.of_nat (length (slots p)) - Z.of_nat (length (free p)).

(** [as u32] on a slot index. *)
Definition as_u32 (n : nat) : nat := Z.to_nat (wrap32 (Z.of_nat n)).

Definition alloc (p : OrderPool) (order : Order) : outcome (OrderPool * nat) :=
  match free p with
  | i :: free' =>
      match slots p !! i with
      | Some _ => Ret (mkPool (<[i := order]> (slots p)) free', i)
      | None => Panic "index out of bounds"
      end
  | [] =>
      let slots' := slots p ++ [order] in
      Ret (mkPool slots' [], as_u32 (length slots' - 1))
  end.

Definition release (p : OrderPool) (i : nat) : OrderPool := mkPool (slots p) (i :: free p).

Definition get (p : OrderPool) (i : nat) : outcome Order :=
  expect (slots p !! i) "index out of bounds".

(** [get_mut(i).remaining = r]. *)
Definition set_remaining (p : OrderPool) (i : nat) (r : Qty) : outcome OrderPool :=
  match slots p !! i with
  | Some o => Ret (mkPool (<[i := Order.set_remaining o r]> (slots p)) (free p))
  | None => Panic "index out of bounds"
  end.

End OrderPool.

(** ** [Level] *)
Record Level := mkLevel { orders : list nat; qty : Qty; live : Z }.

Definition Level_default : Level := mkLevel [] 0 0.

(** ** [LevelIndex] *)
Abbreviation WINDOW := 1024%nat.
Abbreviation W_WORDS := 16%nat.

Record LevelIndex := mkIndex {
  base : Price;
  levels : list (option Level);
  l0 : list Z;
  l1 : list Z;
  in_window : Z;
  overflow : gmap Z Level
}.

(** ** Bit scans on [u64] *)
Fixpoint ctz_pos (p : positive) : Z :=
  match p with
  | xO p' => 1 + ctz_pos p'
  | _ => 0
  end.

Definition trailing_zeros (x : Z) : Z :=
  match x with
  | Zpos p => ctz_pos p
  | _ => 64
  end.

Definition leading_zeros (x : Z) : Z := if x =? 0 then 64 else 63 - Z.log2 x.

(** [!x] on [u64]. *)
Definition not64 (x : Z) : Z := Z.lxor U64_MAX x.

(** The scan [while bits != 0 { .. trailing_zeros ..; bits &= bits - 1 }]: the
    positions it visits.  A [u64] has at most 64 bits set, so 64 iterations
    always suffice. *)
Fixpoint bits_asc (fuel : nat) (bits : Z) : list Z :=
  match fuel with
  | O => []
  | S fuel' =>
      if bits =? 0 then []
      else trailing_zeros bits :: bits_asc fuel' (Z.land bits (bits - 1))
  end.

(** The scan [while bits != 0 { .. leading_zeros ..; bits &= !(1 << (i % 64)) }]. *)
Fixpoint bits_desc (fuel : nat) (bits : Z) : list Z :=
  match fuel with
  | O => []
  | S fuel' =>
      if bits =? 0 then []
      else
        let b := 63 - leading_zeros bits in
        b :: bits_desc fuel' (Z.land bits (not64 (Z.shiftl 1 b)))
  end.

(** ** Ordered iteration over the overflow [BTreeMap] *)
Definition key_le (a b : Z * Level) : Prop := a.1 <= b.1.

#[export] Instance key_le_dec : RelDecision key_le.
Proof. unfold RelDecision, key_le; intros; apply _. Defined.

Definition sorted_levels (m : gmap Z Level) : list (Z * Level) :=
  merge_sort key_le (map_to_list m).

Module LevelIndex.

Definition new : LevelIndex :=
  mkIndex U64_MAX [] (replicate W_WORDS 0) [0] 0 ∅.

Definition idx (ix : LevelIndex) (price : Price) : option nat :=
  if (base ix =? U64_MAX) || (price <? base ix) then None
  else
    let delta := price - base ix in
    if delta <? 1024 then Some (Z.to_nat delta) else None.

(** The arrays [l0] and [l1] have 16 and 1 words and [i] is below 1024, so the
    indexing below never leaves them. *)
Definition set_bit (ix : LevelIndex) (i : nat) : LevelIndex :=
  mkIndex (base ix) (levels ix)
    (alter (fun w => Z.lor w (Z.shiftl 1 (Z.of_nat (i mod 64)))) (i / 64)%nat (l0 ix))
    (alter (fun w => Z.lor w (Z.shiftl 1 (Z.of_nat ((i / 64) mod 64)))) (i / 64 / 64)%nat (l1 ix))
    (in_window ix) (overflow ix).

Definition clear_bit (ix : LevelIndex) (i : nat) : LevelIndex :=
  let w := (i / 64)%nat in
  let l0' := alter (fun x => Z.land x (not64 (Z.shiftl 1 (Z.of_nat (i mod 64))))) w (l0 ix) in
  let l1' :=
    if default 0 (l0' !! w) =? 0
    then alter (fun x => Z.land x (not64 (Z.shiftl 1 (Z.of_nat (w mod 64))))) (w / 64)%nat (l1 ix)
    else l1 ix in
  mkIndex (base ix) (levels ix) l0' l1' (in_window ix) (overflow ix).

Definition bit (ix : LevelIndex) (i : nat) : bool :=
  Z.land (Z.shiftr (default 0 (l0 ix !! (i / 64)%nat)) (Z.of_nat (i mod 64))) 1 =? 1.

Definition with_levels (ix : LevelIndex) (lvs : list (option Level)) : LevelIndex :=
  mkIndex (base ix) lvs (l0 ix) (l1 ix) (in_window ix) (overflow ix).
Definition with_overflow (ix : LevelIndex) (m : gmap Z Level) : LevelIndex :=
  mkIndex (base ix) (levels ix) (l0 ix) (l1 ix) (in_window ix) m.
Definition with_in_window (ix : LevelIndex) (n : Z) : LevelIndex :=
  mkIndex (base ix) (levels ix) (l0 ix) (l1 ix) n (overflow ix).

(** The part of [push] that appends to the level and updates its aggregates. *)
Definition append (lv : Level) (slot : nat) (remaining : Qty) : outcome Level :=
  let! q := expect (checked_add U64_MAX (qty lv) remaining) "level quantity overflow" in
  let! n := expect (checked_add U32_MAX (live lv) 1) "level order-count overflow" in
  Ret (mkLevel (orders lv ++ [slot]) q n).

(** The first insert centres the window. *)
Definition centre (ix : LevelIndex) (price : Price) : LevelIndex :=
  if base ix =? U64_MAX
  then mkIndex (saturating_sub price 512) (levels ix ++ replicate (WINDOW - length (levels ix)) None)
         (l0 ix) (l1 ix) (in_window ix) (overflow ix)
  else ix.

Definition push (ix : LevelIndex) (price : Price) (slot : nat) (remaining : Qty)
  : outcome LevelIndex :=
  assert_that (0 <? remaining) "cannot rest a zero-quantity order"
  (let ix := centre ix price in
   match idx ix price with
   | Some i =>
       match levels ix !! i with
       | None => Panic "index out of bounds"
       | Some entry =>
           let! ix :=
             (if match entry with None => true | Some lv => live lv =? 0 end
              then
                let ix := set_bit ix i in
                let! n := expect (checked_add U64_MAX (in_window ix) 1)
                            "in-window level count overflow" in
                Ret (with_in_window ix n)
              else Ret ix) in
           let! lv := append (default Level_default entry) slot remaining in
           Ret (with_levels ix (<[i := Some lv]> (levels ix)))
       end
   | None =>
       let! lv := append (default Level_default (overflow ix !! price)) slot remaining in
       Ret (with_overflow ix (<[price := lv]> (overflow ix)))
   end).

(** The stored level at [price], whether or not it is logically empty. *)
Definition entry_at (ix : LevelIndex) (price : Price) : option Level :=
  match idx ix price with
  | Some i => mjoin (levels ix !! i)
  | None => overflow ix !! price
  end.

(** [get]: the logically non-empty level at [price]. *)
Definition get (ix : LevelIndex) (price : Price) : option Level :=
  match entry_at ix price with
  | Some lv => if 0 <? live lv then Some lv else None
  | None => None
  end.

(** Writing a level back through the reference [get_mut] returned. *)
Definition put (ix : LevelIndex) (price : Price) (lv : Level) : LevelIndex :=
  match idx ix price with
  | Some i => with_levels ix (<[i := Some lv]> (levels ix))
  | None => with_overflow ix (<[price := lv]> (overflow ix))
  end.

Abbreviation COMPACT_MIN_SLOTS := 1024%nat.

(** [reclaim], first loop: release the tombstones at the front. *)
Fixpoint reclaim_front (os : list nat) (pool : OrderPool) : outcome (list nat * OrderPool) :=
  match os with
  | [] => Ret ([], pool)
  | front :: rest =>
      let! o := OrderPool.get pool front in
      if o_remaining o =? 0 then reclaim_front rest (OrderPool.release pool front)
      else Ret (os, pool)
  end.

(** [reclaim], compaction: [retain] the live slots, release the others. *)
Fixpoint retain_live (os : list nat) (pool : OrderPool) : outcome (list nat * OrderPool) :=
  match os with
  | [] => Ret ([], pool)
  | slot :: rest =>
      let! o := OrderPool.get pool slot in
      if o_remaining o =? 0 then retain_live rest (OrderPool.release pool slot)
      else
        let! r := retain_live rest pool in
        Ret (slot :: r.1, r.2)
  end.

Definition reclaim (lv : Level) (pool : OrderPool) : outcome (Level * OrderPool) :=
  let! r := reclaim_front (orders lv) pool in
  let os := r.1 in
  let pool := r.2 in
  if live lv =? 0 then
    Ret (mkLevel [] 0 (live lv), foldl OrderPool.release pool os)
  else if (COMPACT_MIN_SLOTS <=? length os)%nat &&
          (Z.min U64_MAX (live lv * 2) <? Z.of_nat (length os))
  then
    let! r := retain_live os pool in
    Ret (mkLevel r.1 (qty lv) (live lv), r.2)
  else Ret (mkLevel os (qty lv) (live lv), pool).

Definition maintain_level (ix : LevelIndex) (price : Price) (pool : OrderPool)
  : outcome (LevelIndex * OrderPool) :=
  match idx ix price with
  | Some i =>
      match levels ix !! i with
      | None => Panic "index out of bounds"
      | Some None => Ret (ix, pool)
      | Some (Some level) =>
          let! r := reclaim level pool in
          let ix := with_levels ix (<[i := Some r.1]> (levels ix)) in
          if (live r.1 =? 0) && bit ix i then
            let ix := clear_bit ix i in
            let! n := expect (checked_sub (in_window ix) 1) "in-window level count underflow" in
            let ix := with_in_window ix n in
            Ret (with_levels ix (<[i := None]> (levels ix)), r.2)
          else Ret (ix, r.2)
      end
  | None =>
      match overflow ix !! price with
      | None => Ret (ix, pool)
      | Some lv =>
          let! r := reclaim lv pool in
          if live r.1 =? 0
          then Ret (with_overflow ix (delete price (overflow ix)), r.2)
          else Ret (with_overflow ix (<[price := r.1]> (overflow ix)), r.2)
      end
  end.

(** [window_min] and [window_max]: find the first (last) non-zero summary word,
    then the lowest (highest) bit of the word it points at. *)
Fixpoint scan_words (words : list Z) (wi : nat) : option (nat * Z) :=
  match words with
  | [] => None
  | s :: rest => if s =? 0 then scan_words rest (S wi) else Some (wi, s)
  end.

Fixpoint scan_words_rev (words : list Z) (wi : nat) : option (nat * Z) :=
  match words with
  | [] => None
  | s :: rest =>
      match scan_words_rev rest (S wi) with
      | Some r => Some r
      | None => if s =? 0 then None else Some (wi, s)
      end
  end.

Definition window_min (ix : LevelIndex) : outcome (option Z) :=
  match scan_words (l1 ix) 0 with
  | None => Ret None
  | Some (wi, s) =>
      let w := Z.of_nat wi * 64 + trailing_zeros s in
      let! x := expect (l0 ix !! Z.to_nat w) "index out of bounds" in
      Ret (Some (w * 64 + trailing_zeros x))
  end.

Definition window_max (ix : LevelIndex) : outcome (option Z) :=
  match scan_words_rev (l1 ix) 0 with
  | None => Ret None
  | Some (wi, s) =>
      let w := Z.of_nat wi * 64 + 63 - leading_zeros s in
      let! x := expect (l0 ix !! Z.to_nat w) "index out of bounds" in
      Ret (Some (w * 64 + 63 - leading_zeros x))
  end.

(** [match (w, o) { (Some(a), Some(b)) => Some(f(a, b)), (a, b) => a.or(b) }]. *)
Definition combine_opt (f : Z -> Z -> Z) (a b : option Z) : option Z :=
  match a, b with
  | Some x, Some y => Some (f x y)
  | Some x, None => Some x
  | None, b => b
  end.

Definition min_price (ix : LevelIndex) : outcome (option Price) :=
  let! w := window_min ix in
  let w := w ≫= fun i => checked_add U64_MAX (base ix) i in
  let o := fst <$> head (sorted_levels (overflow ix)) in
  Ret (combine_opt Z.min w o).

Definition max_price (ix : LevelIndex) : outcome (option Price) :=
  let! w := window_max ix in
  let w := w ≫= fun i => checked_add U64_MAX (base ix) i in
  let o := fst <$> last (sorted_levels (overflow ix)) in
  Ret (combine_opt Z.max w o).

(** *** Ordered walks

    The entries a walk visits, in order.  An entry is computed only when the
    walk reaches it, so the [expect]s on it are part of the entry. *)
Definition window_entry (ix : LevelIndex) (i : Z) : outcome (Price * Level) :=
  let! px := expect (checked_add U64_MAX (base ix) i) "occupied price overflow" in
  let! lv := expect (mjoin (levels ix !! Z.to_nat i))
               "occupied level missing from dense window" in
  Ret (px, lv).

Definition window_positions (bits_of : Z -> list Z) (ix : LevelIndex) (w : nat) : list Z :=
  (fun b => Z.of_nat w * 64 + b) <$> bits_of (default 0 (l0 ix !! w)).

Definition below_window (ix : LevelIndex) : list (Z * Level) :=
  filter (fun e => e.1 < base ix) (sorted_levels (overflow ix)).

Definition above_window (ix : LevelIndex) : list (Z * Level) :=
  match checked_add U64_MAX (base ix) 1024 with
  | Some window_end => filter (fun e => window_end <= e.1) (sorted_levels (overflow ix))
  | None => []
  end.

Definition visit_asc (ix : LevelIndex) : list (outcome (Price * Level)) :=
  (Ret <$> below_window ix) ++
  (window_entry ix <$> mjoin (window_positions (bits_asc 64) ix <$> seq 0 W_WORDS)) ++
  (Ret <$> above_window ix).

Definition visit_desc (ix : LevelIndex) : list (outcome (Price * Level)) :=
  (Ret <$> reverse (above_window ix)) ++
  (window_entry ix <$> mjoin (window_positions (bits_desc 64) ix <$> reverse (seq 0 W_WORDS))) ++
  (Ret <$> reverse (below_window ix)).

(** Visit until the closure returns [false]; [s] is the state it captures. *)
Fixpoint walk {S : Type} (f : S -> Price -> Level -> outcome (S * bool))
    (es : list (outcome (Price * Level))) (s : S) : outcome S :=
  match es with
  | [] => Ret s
  | e :: rest =>
      let! pl := e in
      let! r := f s pl.1 pl.2 in
      if r.2 then walk f rest r.1 else Ret r.1
  end.

Definition walk_asc {S : Type} (f : S -> Price -> Level -> outcome (S * bool)) (ix : LevelIndex)
    (s : S) : outcome S := walk f (visit_asc ix) s.
Definition walk_desc {S : Type} (f : S -> Price -> Level -> outcome (S * bool)) (ix : LevelIndex)
    (s : S) : outcome S := walk f (visit_desc ix) s.

End LevelIndex.

(** ** Bit-scan lemmas *)
Lemma ctz_pos_spec p : 0 <= ctz_pos p /\ Z.pos p mod 2 ^ (ctz_pos p + 1) = 2 ^ ctz_pos p.
Proof.
  induction p as [p IH|p IH|]; simpl ctz_pos.
  - split; [lia|]. change (2 ^ (0 + 1)) with 2. change (2 ^ 0) with 1.
    symmetry. apply (Z.mod_unique_pos _ _ (Z.pos p)); lia.
  - destruct IH as [H0 IH]. split; [lia|].
    rewrite Pos2Z.inj_xO.
    replace (2 ^ (1 + ctz_pos p + 1)) with (2 * 2 ^ (ctz_pos p + 1))
      by (rewrite <-Z.pow_succ_r by lia; f_equal; lia).
    rewrite Z.mul_mod_distr_l by lia. rewrite IH.
    rewrite <-Z.pow_succ_r by lia. f_equal; lia.
  - split; [lia|]. reflexivity.
Qed.

(** [trailing_zeros] is the least set bit. *)
Lemma trailing_zeros_spec x : 0 < x ->
  let k := trailing_zeros x in
  0 <= k /\ Z.testbit x k = true /\ (forall j, 0 <= j < k -> Z.testbit x j = false).
Proof.
  intros Hx. destruct x as [|p|]; try lia. simpl.
  destruct (ctz_pos_spec p) as [H0 Hm]. split; [done|]. split.
  - rewrite <-(Z.mod_pow2_bits_low (Z.pos p) (ctz_pos p + 1)) by lia.
    rewrite Hm. by apply Z.pow2_bits_true.
  - intros j Hj. rewrite <-(Z.mod_pow2_bits_low (Z.pos p) (ctz_pos p + 1)) by lia.
    rewrite Hm. apply Z.pow2_bits_false. lia.
Qed.

(** [bits & (bits - 1)] clears the least set bit. *)
Lemma land_pred_bits x j : 0 < x -> 0 <= j ->
  Z.testbit (Z.land x (x - 1)) j = Z.testbit x j && negb (j =? trailing_zeros x).
Proof.
  intros Hx Hj. destruct (trailing_zeros_spec x Hx) as (H0 & Hk & Hlow).
  destruct x as [|p|]; try lia. simpl trailing_zeros in *.
  destruct (ctz_pos_spec p) as [_ Hm]. set (k := ctz_pos p) in *.
  rewrite Z.land_spec.
  assert (0 < 2 ^ k) as Hpk by (apply Z.pow_pos_nonneg; lia).
  assert (2 ^ (k + 1) = 2 * 2 ^ k) as Hp1 by (rewrite <-Z.pow_succ_r by lia; f_equal; lia).
  assert ((Z.pos p - 1) mod 2 ^ (k + 1) = 2 ^ k - 1) as Hm1.
  { rewrite Zminus_mod, Hm.
    destruct (decide (k = 0)) as [->|]; [done|].
    rewrite (Z.mod_small 1) by lia. apply Z.mod_small. lia. }
  destruct (Z.lt_trichotomy j k) as [Hlt|[->|Hgt]].
  - rewrite Hlow by lia. done.
  - rewrite Hk, Z.eqb_refl. simpl.
    rewrite <-(Z.mod_pow2_bits_low _ (k + 1)) by lia. rewrite Hm1.
    destruct (decide (k = 0)) as [->|]; [apply Z.bits_0|].
    pose proof (Z.pow_gt_1 2 k ltac:(lia)).
    apply Z.bits_above_log2; [lia|]. apply Z.log2_lt_pow2; lia.
  - assert (negb (j =? k) = true) as -> by (apply negb_true_iff, Z.eqb_neq; lia).
    rewrite andb_true_r.
    assert (forall y, Z.testbit y j = Z.testbit (y / 2 ^ (k + 1)) (j - (k + 1))) as Hdiv.
    { intros y. rewrite Z.div_pow2_bits by lia. f_equal; lia. }
    rewrite (Hdiv (Z.pos p - 1)), (Hdiv (Z.pos p)).
    assert ((Z.pos p - 1) / 2 ^ (k + 1) = Z.pos p / 2 ^ (k + 1)) as ->.
    { pose proof (Z.div_mod (Z.pos p) (2 ^ (k + 1)) ltac:(lia)).
      pose proof (Z.div_mod (Z.pos p - 1) (2 ^ (k + 1)) ltac:(lia)). nia. }
    apply andb_diag.
Qed.

Lemma testbit_high x j : 0 <= x < 2 ^ 64 -> 64 <= j -> Z.testbit x j = false.
Proof.
  intros Hx Hj. destruct (decide (x = 0)) as [->|]; [apply Z.bits_0|].
  apply Z.bits_above_log2; [lia|]. apply Z.log2_lt_pow2; [lia|].
  eapply Z.lt_le_trans; [apply Hx|]. apply Z.pow_le_mono_r; lia.
Qed.

Lemma pow2_of_bits n x : 0 <= n -> 0 <= x ->
  (forall j, n <= j -> Z.testbit x j = false) -> x < 2 ^ n.
Proof.
  intros Hn Hx Hb. destruct (decide (x = 0)) as [->|]; [by apply Z.pow_pos_nonneg|].
  destruct (Z.lt_ge_cases (Z.log2 x) n) as [Hl|Hl]; [apply Z.log2_lt_pow2; lia|].
  pose proof (Z.bit_log2 x ltac:(lia)) as Ht. rewrite Hb in Ht by lia. done.
Qed.

Lemma land_range x y : 0 <= x < 2 ^ 64 -> 0 <= Z.land x y < 2 ^ 64.
Proof.
  intros Hx. assert (0 <= Z.land x y) as H0 by (apply Z.land_nonneg; lia).
  split; [done|]. apply pow2_of_bits; [lia | done |]. intros j Hj.
  by rewrite Z.land_spec, testbit_high.
Qed.

Lemma testbit_zero_eq x : 0 <= x -> (forall j, 0 <= j -> Z.testbit x j = false) -> x = 0.
Proof. intros Hx H. apply Z.bits_inj_0. intros j. destruct (Z.le_gt_cases 0 j); [auto|]. by apply Z.testbit_neg_r. Qed.

(** The ascending scan visits exactly the set bits, in increasing order. *)
Lemma bits_asc_gen fuel x :
  0 <= x < 2 ^ 64 -> (fuel <= 64)%nat ->
  (forall j, 0 <= j < 64 - Z.of_nat fuel -> Z.testbit x j = false) ->
  StronglySorted Z.lt (bits_asc fuel x) /\
  forall j, j ∈ bits_asc fuel x <-> 0 <= j /\ Z.testbit x j = true.
Proof.
  revert x; induction fuel as [|fuel IH]; intros x Hx Hf Hlow; simpl.
  - split; [constructor|]. intros j. split; [intros H; inv H|]. intros [Hj Hb].
    destruct (Z.lt_ge_cases j 64).
    + rewrite Hlow in Hb by lia. done.
    + rewrite Z.bits_above_log2 in Hb; [done | lia |].
      destruct (decide (x = 0)) as [->|]; [simpl; lia|].
      apply Z.log2_lt_pow2; [lia|]. eapply Z.lt_le_trans; [apply Hx|].
      apply Z.pow_le_mono_r; lia.
  - case_if; subst.
    { split; [constructor|]. intros j. rewrite Z.bits_0. set_solver. }
    destruct (trailing_zeros_spec x ltac:(lia)) as (H0 & Hk & Hmin).
    assert (64 - Z.of_nat (S fuel) <= trailing_zeros x) as Hkl.
    { destruct (Z.le_gt_cases (64 - Z.of_nat (S fuel)) (trailing_zeros x)); [done|].
      rewrite Hlow in Hk; [done|lia]. }
    destruct (IH (Z.land x (x - 1))) as [Hs Hm].
    { by apply land_range. }
    { lia. }
    { intros j Hj. rewrite land_pred_bits by lia.
      destruct (j =? trailing_zeros x) eqn:Ej; simpl; [by rewrite andb_false_r|].
      rewrite andb_true_r. zbool. destruct (Z.lt_ge_cases j (trailing_zeros x)); [apply Hmin; lia|].
      lia. }
    assert (forall j, j ∈ bits_asc fuel (Z.land x (x - 1)) <->
      0 <= j /\ Z.testbit x j = true /\ j <> trailing_zeros x) as Hm'.
    { intros j. rewrite Hm. split.
      - intros [Hj Hb]. rewrite land_pred_bits in Hb by lia. zbool. done.
      - intros (Hj & Hb & Hne). split; [done|]. rewrite land_pred_bits, Hb by lia. simpl.
        apply negb_true_iff. by apply Z.eqb_neq. }
    split.
    + constructor; [done|]. apply Forall_forall. intros j Hj%Hm'.
      destruct (Z.lt_trichotomy j (trailing_zeros x)) as [Hlt|[|]]; [|lia|lia].
      destruct Hj as (? & Hb & _). rewrite Hmin in Hb by lia. done.
    + intros j. rewrite elem_of_cons, Hm'. split.
      * intros [->|(? & ? & ?)]; done.
      * intros [Hj Hb]. destruct (decide (j = trailing_zeros x)); auto.
Qed.

Lemma bits_asc_spec x : 0 <= x < 2 ^ 64 ->
  StronglySorted Z.lt (bits_asc 64 x) /\
  forall j, j ∈ bits_asc 64 x <-> 0 <= j /\ Z.testbit x j = true.
Proof. intros Hx. apply bits_asc_gen; [done | lia | simpl; lia]. Qed.

Lemma not64_bit b j : 0 <= b < 64 -> 0 <= j ->
  Z.testbit (not64 (Z.shiftl 1 b)) j = (j <? 64) && negb (j =? b).
Proof.
  intros Hb Hj. unfold not64. rewrite Z.lxor_spec, Z.shiftl_1_l.
  change U64_MAX with (Z.ones 64).
  destruct (Z.ltb_spec j 64).
  - rewrite Z.ones_spec_low by lia. destruct (Z.eqb_spec j b); subst.
    + rewrite Z.pow2_bits_true by lia. done.
    + rewrite Z.pow2_bits_false by lia. done.
  - rewrite Z.ones_spec_high by lia. rewrite Z.pow2_bits_false by lia. done.
Qed.

(** [x & !(1 << b)] clears bit [b]; [x | (1 << b)] sets it. *)
Lemma land_not64_bit x b j : 0 <= x < 2 ^ 64 -> 0 <= b < 64 -> 0 <= j ->
  Z.testbit (Z.land x (not64 (Z.shiftl 1 b))) j = Z.testbit x j && negb (j =? b).
Proof.
  intros Hx Hb Hj. rewrite Z.land_spec, not64_bit by lia.
  destruct (Z.ltb_spec j 64); simpl; [done|]. by rewrite testbit_high by lia.
Qed.

Lemma lor_bit x b j : 0 <= b -> 0 <= j ->
  Z.testbit (Z.lor x (Z.shiftl 1 b)) j = Z.testbit x j || (j =? b).
Proof.
  intros Hb Hj. rewrite Z.lor_spec, Z.shiftl_1_l. f_equal.
  destruct (Z.eqb_spec j b); subst; [by apply Z.pow2_bits_true | by apply Z.pow2_bits_false; lia].
Qed.

Lemma lor_range x b : 0 <= x < 2 ^ 64 -> 0 <= b < 64 -> 0 <= Z.lor x (Z.shiftl 1 b) < 2 ^ 64.
Proof.
  intros Hx Hb. assert (0 <= Z.lor x (Z.shiftl 1 b)) as H0.
  { apply Z.lor_nonneg. split; [lia|]. rewrite Z.shiftl_1_l. pose proof (Z.pow_pos_nonneg 2 b); lia. }
  split; [done|]. apply pow2_of_bits; [lia | done |]. intros j Hj.
  rewrite lor_bit by lia. rewrite testbit_high by lia. simpl. apply Z.eqb_neq. lia.
Qed.

Lemma top_bit x : 0 < x < 2 ^ 64 -> 63 - leading_zeros x = Z.log2 x /\ 0 <= Z.log2 x < 64.
Proof.
  intros Hx. unfold leading_zeros. case_if; [lia|].
  pose proof (Z.log2_nonneg x).
  assert (Z.log2 x < 64) by (apply Z.log2_lt_pow2; lia). lia.
Qed.

(** The descending scan visits exactly the set bits, in decreasing order. *)
Lemma bits_desc_gen fuel x :
  0 <= x < 2 ^ Z.of_nat fuel -> (fuel <= 64)%nat ->
  StronglySorted Z.gt (bits_desc fuel x) /\
  forall j, j ∈ bits_desc fuel x <-> 0 <= j /\ Z.testbit x j = true.
Proof.
  revert x; induction fuel as [|fuel IH]; intros x Hx Hf; simpl bits_desc.
  { assert (x = 0) as -> by (simpl in Hx; lia).
    split; [constructor|]. intros j. rewrite Z.bits_0. set_solver. }
  case_if; subst.
  { split; [constructor|]. intros j. rewrite Z.bits_0. set_solver. }
  assert (0 < x < 2 ^ 64) as Hx64.
  { split; [lia|]. eapply Z.lt_le_trans; [apply Hx|]. apply Z.pow_le_mono_r; lia. }
  destruct (top_bit x Hx64) as [-> Hb]. set (b := Z.log2 x) in *.
  assert (forall j, 0 <= j -> Z.testbit (Z.land x (not64 (Z.shiftl 1 b))) j =
    Z.testbit x j && negb (j =? b)) as Hcl by (intros; apply land_not64_bit; lia).
  destruct (IH (Z.land x (not64 (Z.shiftl 1 b)))) as [Hs Hm].
  { pose proof (land_range x (not64 (Z.shiftl 1 b)) ltac:(lia)). split; [lia|].
    apply pow2_of_bits; [lia | lia |]. intros j Hj. rewrite Hcl by lia.
    assert (b < Z.of_nat (S fuel)) by (unfold b; apply Z.log2_lt_pow2; lia).
    destruct (Z.eqb_spec j b); [by rewrite andb_false_r|].
    rewrite Z.bits_above_log2; [done | lia | unfold b in *; lia]. }
  { lia. }
  assert (forall j, j ∈ bits_desc fuel (Z.land x (not64 (Z.shiftl 1 b))) <->
    0 <= j /\ Z.testbit x j = true /\ j <> b) as Hm'.
  { intros j. rewrite Hm. split.
    - intros [Hj Hbt]. rewrite Hcl in Hbt by done. zbool. done.
    - intros (Hj & Hbt & Hne). split; [done|]. rewrite Hcl, Hbt by done. simpl.
      apply negb_true_iff. by apply Z.eqb_neq. }
  split.
  - constructor; [done|]. apply Forall_forall. intros j Hj%Hm'. destruct Hj as (? & Hbt & ?).
    destruct (Z.lt_ge_cases b j); [|lia].
    rewrite Z.bits_above_log2 in Hbt; [done | lia | done].
  - intros j. rewrite elem_of_cons, Hm'. split.
    + intros [->|(? & ? & ?)]; [|done]. split; [lia|]. apply Z.bit_log2; lia.
    + intros [Hj Hbt]. destruct (decide (j = b)); auto.
Qed.

Lemma bits_desc_spec x : 0 <= x < 2 ^ 64 ->
  StronglySorted Z.gt (bits_desc 64 x) /\
  forall j, j ∈ bits_desc 64 x <-> 0 <= j /\ Z.testbit x j = true.
Proof. intros Hx. apply bits_desc_gen; [done | lia]. Qed.

(** ** What the index represents *)
Module LevelIndexFacts.
Import LevelIndex.

(** Bit [i] of the occupancy bitmap as a test bit. *)
Definition word (ix : LevelIndex) (w : nat) : Z := default 0 (l0 ix !! w).
Definition summary (ix : LevelIndex) : Z := default 0 (l1 ix !! 0%nat).

Definition occupied (o : option Level) : Z := match o with Some _ => 1 | None => 0 end.

(** The index represents the finite map [m] from prices to stored levels. *)
Record index_ok (ix : LevelIndex) (m : gmap Z Level) : Prop := {
  ok_len0 : length (l0 ix) = 16%nat;
  ok_len1 : length (l1 ix) = 1%nat;
  ok_word : forall w, 0 <= word ix w < 2 ^ 64;
  ok_base : is_u64 (base ix);
  ok_unset : base ix = U64_MAX -> levels ix = [] /\ overflow ix = ∅;
  ok_set : base ix <> U64_MAX -> length (levels ix) = 1024%nat;
  ok_entry : forall p, m !! p = entry_at ix p;
  ok_price : forall p, is_Some (m !! p) -> is_u64 p;
  ok_in : forall i lv, levels ix !! i = Some (Some lv) -> base ix + Z.of_nat i <= U64_MAX;
  ok_out : forall p, is_Some (overflow ix !! p) -> idx ix p = None;
  ok_bit : forall i, (i < 1024)%nat -> bit ix i = true <-> is_Some (mjoin (levels ix !! i));
  ok_sum : 0 <= summary ix /\ forall w, 0 <= w ->
    Z.testbit (summary ix) w = true <-> (w < 16 /\ word ix (Z.to_nat w) <> 0);
  ok_count : in_window ix = sumZ occupied (levels ix)
}.

Lemma bit_testbit ix i : bit ix i = Z.testbit (word ix (i / 64)) (Z.of_nat (i mod 64)).
Proof.
  unfold bit, word. rewrite Z.testbit_odd, Z.land_comm.
  change 1 with (Z.ones 1) at 1. rewrite Z.land_comm, Z.land_ones by lia.
  rewrite Zodd_mod. change (2 ^ 1) with 2.
  generalize (Z.shiftr (default 0 (l0 ix !! (i / 64)%nat)) (Z.of_nat (i mod 64)) mod 2).
  intros z. unfold Zeq_bool. destruct (Z.eqb_spec z 1) as [->|]; [done|].
  destruct (Z.compare_spec z 1); done.
Qed.

Lemma index_ok_new : index_ok new ∅.
Proof.
  assert (forall w, word new w = 0) as Hw.
  { intros w. unfold word. change (l0 new) with (replicate 16 0). destruct (replicate 16 0 !! w) eqn:E; [|done].
    apply lookup_replicate in E as [-> _]. done. }
  split; try done.
  - intros w. by rewrite Hw.
  - intros p. rewrite lookup_empty. done.
  - intros i Hi. rewrite bit_testbit, Hw, Z.bits_0. split; [done|]. simpl. by intros [? ?].
  - split; [done|]. intros w Hw'. change (summary new) with 0. rewrite Z.bits_0, Hw. naive_solver.
Qed.

Lemma idx_Some ix p i : idx ix p = Some i <->
  base ix <> U64_MAX /\ base ix <= p < base ix + 1024 /\ i = Z.to_nat (p - base ix).
Proof.
  unfold idx. split.
  - case_if; [done|]. case_if; [|done]. intros [= <-]. zbool. lia.
  - intros (H1 & H2 & ->). case_if.
    + apply orb_true_iff in E as [E|E]; zbool; lia.
    + case_if; [done | lia].
Qed.

Lemma idx_None ix p : idx ix p = None <->
  base ix = U64_MAX \/ p < base ix \/ base ix + 1024 <= p.
Proof.
  destruct (idx ix p) as [i|] eqn:E.
  - apply idx_Some in E. split; [done | lia].
  - split; [|done]. intros _. destruct (decide (base ix = U64_MAX)); [by left|right].
    destruct (decide (base ix <= p < base ix + 1024)); [|lia].
    exfalso. assert (idx ix p = Some (Z.to_nat (p - base ix))) by (by apply idx_Some).
    congruence.
Qed.

(** The price of an occupied window position. *)
Lemma window_lookup ix m i lv : index_ok ix m -> levels ix !! i = Some (Some lv) ->
  base ix <> U64_MAX /\ (i < 1024)%nat /\ base ix + Z.of_nat i <= U64_MAX /\
  idx ix (base ix + Z.of_nat i) = Some i /\ m !! (base ix + Z.of_nat i) = Some lv.
Proof.
  intros Hok Hi.
  assert (base ix <> U64_MAX) as Hb.
  { intros Hb. apply (ok_unset _ _ Hok) in Hb as [Hb _]. rewrite Hb in Hi. done. }
  assert (i < 1024)%nat as Hlt.
  { apply lookup_lt_Some in Hi. by rewrite (ok_set _ _ Hok Hb) in Hi. }
  assert (idx ix (base ix + Z.of_nat i) = Some i) as Hidx by (apply idx_Some; lia).
  repeat split; try done; [by eapply ok_in|].
  rewrite (ok_entry _ _ Hok). unfold entry_at. by rewrite Hidx, Hi.
Qed.

(** *** Bitmap updates *)
Lemma div64_lt i : (i < 1024)%nat -> (i / 64 < 16)%nat.
Proof. intros. apply Nat.Div0.div_lt_upper_bound. lia. Qed.

Lemma pos_eq i j : i = j <-> (i / 64 = j / 64 /\ i mod 64 = j mod 64)%nat.
Proof.
  split; [by intros ->|]. intros [H1 H2].
  rewrite (Nat.div_mod_eq i 64), (Nat.div_mod_eq j 64). congruence.
Qed.

Lemma alter_default (f : Z -> Z) (l : list Z) k w :
  (k < length l)%nat ->
  default 0 (alter f k l !! w) = if decide (w = k) then f (default 0 (l !! w)) else default 0 (l !! w).
Proof.
  intros Hk. case_decide; subst.
  - destruct (lookup_lt_is_Some_2 l k Hk) as [x Hx].
    by rewrite list_lookup_alter, decide_True, Hx by done.
  - by rewrite list_lookup_alter_ne by done.
Qed.

(** What a bitmap update at position [i] must achieve. *)
Definition bits_set_to (ix ix' : LevelIndex) (i : nat) (b : bool) : Prop :=
  length (l0 ix') = 16%nat /\ length (l1 ix') = 1%nat /\
  (forall w, 0 <= word ix' w < 2 ^ 64) /\
  (forall j, (j < 1024)%nat -> bit ix' j = if decide (j = i) then b else bit ix j) /\
  (0 <= summary ix' /\ forall w, 0 <= w ->
     Z.testbit (summary ix') w = true <-> (w < 16 /\ word ix' (Z.to_nat w) <> 0)).

Lemma bits_set_to_same ix m i b :
  index_ok ix m -> (i < 1024)%nat -> bit ix i = b -> bits_set_to ix ix i b.
Proof.
  intros Hok Hi Hb. split; [exact (ok_len0 _ _ Hok)|]. split; [exact (ok_len1 _ _ Hok)|].
  split; [exact (ok_word _ _ Hok)|]. split; [|exact (ok_sum _ _ Hok)].
  intros j Hj. case_decide; by subst.
Qed.

Section BitUpdate.
Context (ix : LevelIndex) (m : gmap Z Level) (Hok : index_ok ix m).
Context (i : nat) (Hi : (i < 1024)%nat).

Lemma word_mod64 : 0 <= Z.of_nat (i mod 64) < 64.
Proof. pose proof (Nat.mod_upper_bound i 64). lia. Qed.

Lemma word_mod64_idem : ((i / 64) mod 64 = i / 64 /\ i / 64 / 64 = 0)%nat.
Proof.
  pose proof (div64_lt i Hi). split; [apply Nat.mod_small; lia | apply Nat.div_small; lia].
Qed.

Lemma set_bit_word w : word (set_bit ix i) w =
  if decide (w = i / 64)%nat then Z.lor (word ix w) (Z.shiftl 1 (Z.of_nat (i mod 64)))
  else word ix w.
Proof.
  unfold word, set_bit; cbn [l0]. apply alter_default.
  rewrite (ok_len0 _ _ Hok). by apply div64_lt.
Qed.

Lemma set_bit_summary : summary (set_bit ix i) =
  Z.lor (summary ix) (Z.shiftl 1 (Z.of_nat (i / 64))).
Proof.
  unfold summary, set_bit; cbn [l1]. destruct word_mod64_idem as [-> ->].
  rewrite alter_default by (rewrite (ok_len1 _ _ Hok); lia). by rewrite decide_True.
Qed.

Lemma set_bit_ok : bits_set_to ix (set_bit ix i) i true.
Proof.
  pose proof word_mod64 as Hm. pose proof (div64_lt i Hi) as Hd.
  split; [|split; [|split; [|split]]].
  - unfold set_bit, clear_bit; cbn [l0]. by rewrite length_alter, (ok_len0 _ _ Hok).
  - unfold set_bit; cbn [l1]. by rewrite length_alter, (ok_len1 _ _ Hok).
  - intros w. rewrite set_bit_word. case_decide; [apply lor_range; [|lia]|]; exact (ok_word _ _ Hok _).
  - intros j Hj. rewrite !bit_testbit, set_bit_word.
    destruct (decide (j = i)) as [->|Hne].
    + rewrite decide_True by done. rewrite lor_bit by lia. by rewrite Z.eqb_refl, orb_true_r.
    + case_decide as Hw; [|done]. rewrite lor_bit by lia.
      destruct (Z.eqb_spec (Z.of_nat (j mod 64)) (Z.of_nat (i mod 64))) as [He|].
      * exfalso. apply Hne, pos_eq. split; [done | lia].
      * by rewrite orb_false_r.
  - rewrite set_bit_summary. destruct (ok_sum _ _ Hok) as [Hs0 Hs]. split.
    { apply Z.lor_nonneg. split; [done|]. rewrite Z.shiftl_1_l.
      pose proof (Z.pow_pos_nonneg 2 (Z.of_nat (i / 64))); lia. }
    intros w Hw. rewrite lor_bit by lia. rewrite orb_true_iff, Hs, Z.eqb_eq by done.
    rewrite set_bit_word. case_decide as Hwi.
    + assert (Z.lor (word ix (Z.to_nat w)) (Z.shiftl 1 (Z.of_nat (i mod 64))) <> 0).
      { intros Hz. assert (Z.testbit 0 (Z.of_nat (i mod 64)) = true) as Ht; [|by rewrite Z.bits_0 in Ht].
        rewrite <-Hz, lor_bit, Z.eqb_refl by lia. apply orb_true_r. }
      split; [intros _; split; [lia|done] | intros _; right; lia].
    + split; [intros [?|?]; [done | lia] | by left].
Qed.

Lemma clear_bit_word w : word (clear_bit ix i) w =
  if decide (w = i / 64)%nat
  then Z.land (word ix w) (not64 (Z.shiftl 1 (Z.of_nat (i mod 64))))
  else word ix w.
Proof.
  unfold word, clear_bit; cbn [l0]. apply alter_default.
  rewrite (ok_len0 _ _ Hok). by apply div64_lt.
Qed.

Lemma summary_range : 0 <= summary ix < 2 ^ 64.
Proof.
  destruct (ok_sum _ _ Hok) as [Hs0 Hs]. split; [done|]. apply pow2_of_bits; [lia | done |].
  intros j Hj. destruct (Z.testbit (summary ix) j) eqn:E; [|done].
  apply Hs in E as [? _]; lia.
Qed.

Lemma clear_bit_summary : summary (clear_bit ix i) =
  if word (clear_bit ix i) (i / 64) =? 0
  then Z.land (summary ix) (not64 (Z.shiftl 1 (Z.of_nat (i / 64))))
  else summary ix.
Proof.
  unfold summary, word, clear_bit; cbn [l0 l1]. destruct word_mod64_idem as [-> ->].
  case_if; [|done]. rewrite alter_default by (rewrite (ok_len1 _ _ Hok); lia).
  by rewrite decide_True.
Qed.

Lemma clear_bit_ok : bits_set_to ix (clear_bit ix i) i false.
Proof.
  pose proof word_mod64 as Hm. pose proof (div64_lt i Hi) as Hd.
  split; [|split; [|split; [|split]]].
  - unfold set_bit, clear_bit; cbn [l0]. by rewrite length_alter, (ok_len0 _ _ Hok).
  - unfold clear_bit; cbn [l1]. case_if; rewrite ?length_alter; exact (ok_len1 _ _ Hok).
  - intros w. rewrite clear_bit_word. case_decide; [apply land_range|]; exact (ok_word _ _ Hok _).
  - intros j Hj. rewrite !bit_testbit, clear_bit_word.
    destruct (decide (j = i)) as [->|Hne].
    + rewrite decide_True by done. rewrite land_not64_bit by (exact (ok_word _ _ Hok _) || lia).
      by rewrite Z.eqb_refl, andb_false_r.
    + case_decide as Hw; [|done]. rewrite land_not64_bit by (exact (ok_word _ _ Hok _) || lia).
      destruct (Z.eqb_spec (Z.of_nat (j mod 64)) (Z.of_nat (i mod 64))) as [He|].
      * exfalso. apply Hne, pos_eq. split; [done | lia].
      * by rewrite andb_true_r.
  - destruct (ok_sum _ _ Hok) as [Hs0 Hs]. pose proof summary_range as Hsr.
    rewrite clear_bit_summary. case_if.
    + split; [apply land_range; lia|]. intros w Hw.
      rewrite land_not64_bit by lia. rewrite andb_true_iff, Hs, negb_true_iff, Z.eqb_neq by done.
      split.
      * intros [[? Hnz] Hne]. split; [done|]. rewrite clear_bit_word.
        rewrite decide_False by lia. done.
      * intros [Hlt Hnz]. assert (w <> Z.of_nat (i / 64)) as Hne.
        { intros ->. rewrite Nat2Z.id in Hnz. done. }
        split; [|done]. split; [done|]. rewrite clear_bit_word in Hnz.
        rewrite decide_False in Hnz by lia. done.
    + split; [done|]. intros w Hw. rewrite Hs by done.
      destruct (decide (w = Z.of_nat (i / 64))) as [->|Hne].
      * rewrite Nat2Z.id. split; [by intros [? ?]|]. intros [? Hnz]. split; [done|].
        intros Hz. apply Hnz. rewrite clear_bit_word, decide_True, Hz by done. done.
      * rewrite clear_bit_word, decide_False by lia. done.
Qed.
End BitUpdate.

(** *** Updates of one stored level *)

(** Changing the window entry at position [i], with the bitmap and the count
    kept in step, changes the represented map at that price only. *)
Lemma set_window_entry ix ix' m p i (o : option Level) :
  index_ok ix m -> idx ix p = Some i -> is_u64 p ->
  bits_set_to ix ix' i (bool_decide (is_Some o)) ->
  base ix' = base ix -> overflow ix' = overflow ix ->
  levels ix' = <[i := o]> (levels ix) ->
  in_window ix' = in_window ix - occupied (mjoin (levels ix !! i)) + occupied o ->
  index_ok ix' (partial_alter (fun _ => o) p m).
Proof.
  intros Hok Hidx Hp (Hb1 & Hb2 & Hb3 & Hb4 & Hb5) Hbase Hov Hlv Hin.
  apply idx_Some in Hidx as (Hset & Hrange & Hi).
  assert (i < 1024)%nat as Hlt by lia.
  assert (forall q, idx ix' q = idx ix q) as Hidx' by (intros q; unfold idx; by rewrite Hbase).
  assert (forall q, idx ix q = Some i <-> q = p) as Hinj.
  { intros q. rewrite idx_Some. lia. }
  pose proof (ok_set _ _ Hok Hset) as Hlen.
  split; try done.
  - rewrite Hbase. exact (ok_base _ _ Hok).
  - intros. congruence.
  - intros _. by rewrite Hlv, length_insert.
  - intros q. unfold entry_at. rewrite Hidx'. destruct (decide (q = p)) as [->|Hne].
    + rewrite lookup_partial_alter_eq.
      rewrite (proj2 (Hinj p) eq_refl), Hlv, list_lookup_insert_eq by lia. done.
    + rewrite lookup_partial_alter_ne by done. rewrite (ok_entry _ _ Hok). unfold entry_at.
      destruct (idx ix q) as [j|] eqn:E; [|by rewrite Hov].
      assert (j <> i) by (intros ->; by apply Hinj in E).
      by rewrite Hlv, list_lookup_insert_ne by done.
  - intros q Hq. destruct (decide (q = p)) as [->|Hne]; [done|].
    rewrite lookup_partial_alter_ne in Hq by done. by apply (ok_price _ _ Hok).
  - intros j lv. rewrite Hlv, Hbase. destruct (decide (j = i)) as [->|Hne].
    + intros _. unfold is_u64 in Hp. lia.
    + rewrite list_lookup_insert_ne by done. apply (ok_in _ _ Hok).
  - intros q. rewrite Hov, Hidx'. apply (ok_out _ _ Hok).
  - intros j Hj. rewrite Hb4 by done. rewrite Hlv. case_decide as Hji; subst.
    + rewrite list_lookup_insert_eq by lia. simpl. by rewrite bool_decide_eq_true.
    + rewrite list_lookup_insert_ne by done. by apply (ok_bit _ _ Hok).
  - rewrite Hin, Hlv, (ok_count _ _ Hok).
    destruct (lookup_lt_is_Some_2 (levels ix) i) as [x Hx]; [lia|].
    rewrite (sumZ_insert occupied _ _ x) by done. by rewrite Hx.
Qed.

(** Changing the overflow map at a price outside the window. *)
Lemma set_overflow_entry ix m p (o : option Level) :
  index_ok ix m -> idx ix p = None -> is_u64 p -> base ix <> U64_MAX ->
  index_ok (with_overflow ix (partial_alter (fun _ => o) p (overflow ix)))
           (partial_alter (fun _ => o) p m).
Proof.
  intros Hok Hidx Hp Hset. destruct Hok. split; try done.
  - intros q. unfold entry_at. change (idx (with_overflow ix _) q) with (idx ix q).
    cbn [levels overflow with_overflow]. destruct (decide (q = p)) as [->|Hne].
    + by rewrite Hidx, !lookup_partial_alter_eq.
    + rewrite !lookup_partial_alter_ne by done. apply ok_entry0.
  - intros q Hq. destruct (decide (q = p)) as [->|Hne]; [done|].
    rewrite lookup_partial_alter_ne in Hq by done. by apply ok_price0.
  - intros q. change (idx (with_overflow ix _) q) with (idx ix q).
    cbn [overflow with_overflow]. destruct (decide (q = p)) as [->|Hne]; [done|].
    rewrite lookup_partial_alter_ne by done. apply ok_out0.
Qed.

Lemma entry_set ix m p lv : index_ok ix m -> m !! p = Some lv -> base ix <> U64_MAX.
Proof.
  intros Hok Hm Hb. rewrite (ok_entry _ _ Hok) in Hm. unfold entry_at in Hm.
  destruct (ok_unset _ _ Hok Hb) as [H1 H2]. rewrite H1, H2 in Hm.
  destruct (idx ix p); done.
Qed.

Lemma entry_window ix m p i lv :
  index_ok ix m -> idx ix p = Some i -> m !! p = Some lv -> levels ix !! i = Some (Some lv).
Proof.
  intros Hok Hidx Hm. rewrite (ok_entry _ _ Hok) in Hm. unfold entry_at in Hm.
  rewrite Hidx in Hm. destruct (levels ix !! i) as [o|]; [|done]. simpl in Hm. by subst.
Qed.

(** Writing a level back replaces it in the map. *)
Lemma put_ok ix m p lv0 lv :
  index_ok ix m -> m !! p = Some lv0 -> index_ok (put ix p lv) (<[p := lv]> m).
Proof.
  intros Hok Hm. unfold put.
  assert (is_u64 p) as Hp by (apply (ok_price _ _ Hok); eauto).
  pose proof (entry_set _ _ _ _ Hok Hm) as Hset.
  destruct (idx ix p) as [i|] eqn:Hidx.
  - pose proof (entry_window _ _ _ _ _ Hok Hidx Hm) as Hi.
    assert (i < 1024)%nat as Hlt.
    { apply lookup_lt_Some in Hi. by rewrite (ok_set _ _ Hok Hset) in Hi. }
    apply (set_window_entry ix _ m p i (Some lv)); try done.
    + apply (bits_set_to_same ix m); [done..|]. rewrite bool_decide_true by eauto.
      apply (ok_bit _ _ Hok i Hlt). rewrite Hi. simpl. eauto.
    + cbn [in_window with_levels]. rewrite Hi. simpl. lia.
  - by apply (set_overflow_entry ix m p (Some lv)).
Qed.

Lemma get_ok ix m p : index_ok ix m ->
  get ix p = match m !! p with
             | Some lv => if 0 <? live lv then Some lv else None
             | None => None
             end.
Proof. intros Hok. unfold get. by rewrite (ok_entry _ _ Hok). Qed.

(** Centring the window on the first insert keeps the (empty) map. *)
Lemma centre_ok ix m p : index_ok ix m -> is_u64 p ->
  index_ok (centre ix p) m /\ base (centre ix p) <> U64_MAX.
Proof.
  intros Hok Hp. unfold centre. case_if; [|done].
  destruct (ok_unset _ _ Hok E) as [Hl Ho].
  replace (levels ix ++ replicate (1024 - length (levels ix)) None)
    with (replicate 1024 (@None Level)) by (by rewrite Hl).
  assert (forall q, m !! q = None) as Hm.
  { intros q. rewrite (ok_entry _ _ Hok). unfold entry_at. rewrite Hl, Ho. by destruct (idx ix q). }
  assert (forall j, mjoin (replicate 1024 (@None Level) !! j) = None) as Hnone.
  { intros j. destruct (replicate 1024 (@None Level) !! j) as [o|] eqn:Ej; [|done].
    apply lookup_replicate in Ej as [-> _]. done. }
  revert Hnone. set (lvs := replicate 1024 (@None Level)). intros Hnone.
  assert (length lvs = 1024%nat) as Hlen by apply length_replicate.
  assert (sumZ occupied lvs = 0) as Hsum.
  { apply sumZ_zero. intros o Ho'. apply elem_of_replicate in Ho' as [-> _]. done. }
  clearbody lvs. unfold saturating_sub, is_u64 in *.
  split; [|cbn [base]; lia].
  destruct Hok as [H1 H2 H3 H4 H5 H6 H7 H8 H9 H10 H11 H12 H13]. split; try done.
  - cbn [base]. unfold is_u64. lia.
  - cbn [base]. lia.
  - intros q. rewrite Hm. unfold entry_at. cbn [levels overflow].
    destruct (idx _ q); [by rewrite Hnone | by rewrite Ho].
  - intros j lv. cbn [levels base]. intros Hj. pose proof (Hnone j) as Hn. rewrite Hj in Hn. done.
  - intros q. cbn [overflow]. rewrite Ho. by intros [? ?].
  - intros j Hj. cbn [levels]. rewrite Hnone. change (bit _ j) with (bit ix j).
    rewrite H11 by done. by rewrite Hl.
  - cbn [in_window levels]. by rewrite H13, Hl, Hsum.
Qed.

Lemma append_ok lv slot r :
  qty lv + r <= U64_MAX -> live lv + 1 <= U32_MAX ->
  append lv slot r = Ret (mkLevel (orders lv ++ [slot]) (qty lv + r) (live lv + 1)).
Proof.
  intros Hq Hl. unfold append, checked_add. case_if; [|lia]. simpl. case_if; [done|lia].
Qed.

Lemma occupied_bound l : 0 <= sumZ occupied l <= Z.of_nat (length l).
Proof.
  induction l as [|o l IH]; [done|]. rewrite sumZ_cons. simpl length. destruct o; simpl; lia.
Qed.

(** [push] appends to the level at the price, creating it if needed. *)
Lemma push_ok ix m p slot r :
  index_ok ix m -> is_u64 p -> 0 < r ->
  let lv := default Level_default (m !! p) in
  (forall lv', m !! p = Some lv' -> 0 < live lv') ->
  qty lv + r <= U64_MAX -> live lv + 1 <= U32_MAX ->
  exists ix', push ix p slot r = Ret ix' /\
    index_ok ix' (<[p := mkLevel (orders lv ++ [slot]) (qty lv + r) (live lv + 1)]> m).
Proof.
  intros Hok Hp Hr lv Hlive Hq Hl. unfold push, assert_that.
  case_if; [|lia]. destruct (centre_ok ix m p Hok Hp) as [Hok' Hset].
  revert Hok' Hset. generalize (centre ix p). clear ix Hok E. intros ix Hok Hset.
  cbv zeta.
  pose proof (ok_entry _ _ Hok p) as Hentry. unfold entry_at in Hentry.
  destruct (idx ix p) as [i|] eqn:Hidx.
  - assert (i < 1024)%nat as Hlt by (apply idx_Some in Hidx; lia).
    destruct (lookup_lt_is_Some_2 (levels ix) i) as [entry Hi];
      [by rewrite (ok_set _ _ Hok Hset)|].
    rewrite Hi in Hentry |- *. simpl in Hentry.
    assert (default Level_default entry = lv) as -> by (unfold lv; by rewrite Hentry).
    rewrite append_ok by done.
    destruct entry as [lv0|].
    + assert (live lv0 =? 0 = false) as ->.
      { apply Z.eqb_neq. pose proof (Hlive lv0 Hentry). lia. }
      simpl. eexists; split; [done|].
      apply (set_window_entry ix _ m p i (Some _)); try done.
      * apply (bits_set_to_same ix m); [done..|]. rewrite bool_decide_true by eauto.
        apply (ok_bit _ _ Hok i Hlt). rewrite Hi. simpl. eauto.
      * cbn [in_window with_levels]. rewrite Hi. simpl. lia.
    + assert (0 <= in_window ix <= 1024) as Hcnt.
      { rewrite (ok_count _ _ Hok). pose proof (occupied_bound (levels ix)) as Hb.
        rewrite (ok_set _ _ Hok Hset) in Hb. lia. }
      unfold checked_add. cbn [in_window set_bit]. case_if; [|lia]. simpl.
      eexists; split; [done|].
      apply (set_window_entry ix _ m p i (Some _)); try done.
      * rewrite bool_decide_true by eauto. by apply (set_bit_ok ix m).
      * cbn [in_window with_levels with_in_window]. rewrite Hi. simpl. lia.
  - assert (default Level_default (overflow ix !! p) = lv) as ->
      by (unfold lv; by rewrite Hentry).
    rewrite append_ok by done. simpl. eexists; split; [done|].
    by apply (set_overflow_entry ix m p (Some _)).
Qed.

(** *** Reclaiming tombstones *)
Definition slot_live (sl : list Order) (s : nat) : Prop :=
  exists o, sl !! s = Some o /\ o_remaining o <> 0.

#[export] Instance slot_live_dec sl s : Decision (slot_live sl s).
Proof.
  unfold slot_live. destruct (sl !! s) as [o|] eqn:E.
  - destruct (decide (o_remaining o = 0)) as [H|H].
    + right. intros (o' & [= <-] & ?). done.
    + left. eauto.
  - right. intros (o' & ? & _). congruence.
Defined.

(** [os'] is [os] without some dead slots, which went to the free list. *)
Definition swept (pool pool' : OrderPool) (os os' : list nat) : Prop :=
  exists dead, slots pool' = slots pool /\ free pool' ≡ₚ dead ++ free pool /\
    os ≡ₚ dead ++ os' /\ Forall (fun s => ~ slot_live (slots pool) s) dead /\
    filter (slot_live (slots pool)) os' = filter (slot_live (slots pool)) os.

Definition slots_valid (pool : OrderPool) (os : list nat) : Prop :=
  Forall (fun s => is_Some (slots pool !! s)) os.

Lemma swept_refl pool os : swept pool pool os os.
Proof. exists []. split_and!; [done | done | done | constructor | done]. Qed.

Lemma swept_dead pool pool' s os os' :
  ~ slot_live (slots pool) s -> swept (OrderPool.release pool s) pool' os os' ->
  swept pool pool' (s :: os) os'.
Proof.
  intros Hs (dead & H1 & H2 & H3 & H4 & H5). exists (s :: dead).
  cbn [slots free OrderPool.release] in *. split_and!; [done | | | by constructor |].
  - rewrite H2. by rewrite <-Permutation_middle.
  - simpl. by rewrite H3.
  - rewrite H5. by rewrite filter_cons_False.
Qed.

Lemma swept_live pool pool' s os os' :
  slot_live (slots pool) s -> swept pool pool' os os' -> swept pool pool' (s :: os) (s :: os').
Proof.
  intros Hs (dead & H1 & H2 & H3 & H4 & H5). exists dead.
  split_and!; [done | done | | done |].
  - rewrite H3. by rewrite Permutation_middle.
  - rewrite !filter_cons_True by done. by f_equal.
Qed.

Lemma swept_trans p1 p2 p3 o1 o2 o3 :
  swept p1 p2 o1 o2 -> swept p2 p3 o2 o3 -> swept p1 p3 o1 o3.
Proof.
  intros (d & H1 & H2 & H3 & H4 & H5) (d' & K1 & K2 & K3 & K4 & K5).
  rewrite H1 in *. exists (d ++ d'). split_and!.
  - done.
  - rewrite K2, H2. by rewrite (assoc (++)), (comm (++) d').
  - rewrite H3, K3. by rewrite (assoc (++)).
  - by apply Forall_app.
  - by rewrite K5.
Qed.

Lemma reclaim_front_ok os pool : slots_valid pool os ->
  exists os' pool', reclaim_front os pool = Ret (os', pool') /\ swept pool pool' os os'.
Proof.
  revert pool; induction os as [|s os IH]; intros pool Hv; simpl.
  { eauto using swept_refl. }
  inv Hv. destruct H1 as [o Ho]. unfold OrderPool.get. rewrite Ho. simpl. case_if.
  - destruct (IH (OrderPool.release pool s)) as (os' & pool' & -> & Hsw); [done|].
    exists os', pool'; split; [done|]. apply swept_dead; [|done].
    intros (o' & Ho' & ?). congruence.
  - eauto using swept_refl.
Qed.

Lemma retain_live_ok os pool : slots_valid pool os ->
  exists os' pool', retain_live os pool = Ret (os', pool') /\ swept pool pool' os os'.
Proof.
  revert pool; induction os as [|s os IH]; intros pool Hv; simpl.
  { eauto using swept_refl. }
  inv Hv. destruct H1 as [o Ho]. unfold OrderPool.get. rewrite Ho. simpl. case_if.
  - destruct (IH (OrderPool.release pool s)) as (os' & pool' & -> & Hsw); [done|].
    exists os', pool'; split; [done|]. apply swept_dead; [|done].
    intros (o' & Ho' & ?). congruence.
  - destruct (IH pool H2) as (os' & pool' & -> & Hsw). simpl.
    exists (s :: os'), pool'; split; [done|]. apply swept_live; [|done]. by exists o.
Qed.

Lemma drain_ok os pool :
  Forall (fun s => ~ slot_live (slots pool) s) os ->
  swept pool (foldl OrderPool.release pool os) os [].
Proof.
  revert pool; induction os as [|s os IH]; intros pool Hv; simpl.
  { apply swept_refl. }
  inv Hv. apply swept_dead; [done|]. by apply IH.
Qed.

Lemma swept_valid pool pool' os os' :
  swept pool pool' os os' -> slots_valid pool os -> slots_valid pool' os'.
Proof.
  intros (d & H1 & _ & H3 & _) Hv. unfold slots_valid in *. rewrite H1.
  rewrite H3 in Hv. by apply Forall_app in Hv as [_ ?].
Qed.

Lemma reclaim_ok lv pool :
  slots_valid pool (orders lv) ->
  (live lv = 0 -> Forall (fun s => ~ slot_live (slots pool) s) (orders lv)) ->
  exists lv' pool', reclaim lv pool = Ret (lv', pool') /\
    swept pool pool' (orders lv) (orders lv') /\ live lv' = live lv /\
    (live lv <> 0 -> qty lv' = qty lv) /\ (live lv = 0 -> orders lv' = []).
Proof.
  intros Hv Hd. unfold reclaim.
  destruct (reclaim_front_ok _ _ Hv) as (os & pool1 & -> & Hs1). simpl.
  pose proof (swept_valid _ _ _ _ Hs1 Hv) as Hv1.
  case_if.
  - exists (mkLevel [] 0 (live lv)), (foldl OrderPool.release pool1 os).
    split; [done|]. split; [|done]. simpl. eapply swept_trans; [done|].
    apply drain_ok. destruct Hs1 as (d & H1 & _ & H3 & _). rewrite H1.
    specialize (Hd E). rewrite H3 in Hd. by apply Forall_app in Hd as [_ ?].
  - case_if.
    + destruct (retain_live_ok _ _ Hv1) as (os' & pool2 & -> & Hs2). simpl.
      exists (mkLevel os' (qty lv) (live lv)), pool2. split; [done|].
      split; [by eapply swept_trans|]. done.
    + exists (mkLevel os (qty lv) (live lv)), pool1. done.
Qed.

(** [maintain_level] sweeps the level at [p] and drops it once it is empty. *)
Lemma maintain_ok ix m p lv pool :
  index_ok ix m -> m !! p = Some lv -> slots_valid pool (orders lv) ->
  (live lv = 0 -> Forall (fun s => ~ slot_live (slots pool) s) (orders lv)) ->
  exists ix' pool' lv', maintain_level ix p pool = Ret (ix', pool') /\
    swept pool pool' (orders lv) (orders lv') /\
    live lv' = live lv /\ (live lv <> 0 -> qty lv' = qty lv) /\
    (live lv = 0 -> orders lv' = []) /\
    index_ok ix' (if live lv =? 0 then delete p m else <[p := lv']> m).
Proof.
  intros Hok Hm Hv Hd. unfold maintain_level.
  destruct (reclaim_ok lv pool Hv Hd) as (lv' & pool' & Hr & Hsw & Hlive & Hq & Hempty).
  assert (is_u64 p) as Hp by (apply (ok_price _ _ Hok); eauto).
  pose proof (entry_set _ _ _ _ Hok Hm) as Hset.
  destruct (idx ix p) as [i|] eqn:Hidx.
  - pose proof (entry_window _ _ _ _ _ Hok Hidx Hm) as Hi. rewrite Hi, Hr. simpl.
    assert (i < 1024)%nat as Hlt.
    { apply lookup_lt_Some in Hi. by rewrite (ok_set _ _ Hok Hset) in Hi. }
    assert (bit ix i = true) as Hbit.
    { apply (ok_bit _ _ Hok i Hlt). rewrite Hi. simpl. eauto. }
    change (bit (with_levels ix _) i) with (bit ix i). rewrite Hbit, andb_true_r, Hlive.
    assert (index_ok (put ix p lv') (<[p := lv']> m)) as Hput by (by eapply put_ok).
    unfold put in Hput. rewrite Hidx in Hput.
    case_if.
    + assert (0 < in_window ix) as Hcnt.
      { rewrite (ok_count _ _ Hok). rewrite <-(take_drop_middle _ _ _ Hi).
        rewrite sumZ_app, sumZ_cons. simpl.
        pose proof (occupied_bound (take i (levels ix))).
        pose proof (occupied_bound (drop (S i) (levels ix))). lia. }
      unfold checked_sub. cbn [in_window clear_bit with_levels]. case_if; [|lia]. simpl.
      eexists _, _, lv'. split_and!; try done.
      rewrite <-(delete_insert_eq m p lv').
      apply (set_window_entry _ _ _ p i None Hput); try done.
      * rewrite bool_decide_false by (by intros [? ?]). by apply (clear_bit_ok _ _ Hput).
      * cbn [in_window with_levels with_in_window levels].
        rewrite list_lookup_insert_eq by (by eapply lookup_lt_Some). simpl. lia.
    + eexists _, _, lv'. split_and!; done.
  - rewrite (ok_entry _ _ Hok) in Hm. unfold entry_at in Hm. rewrite Hidx in Hm.
    rewrite Hm, Hr. simpl. rewrite Hlive. case_if; eexists _, _, lv'; split_and!; try done.
    + by apply (set_overflow_entry ix m p None).
    + by apply (set_overflow_entry ix m p (Some lv')).
Qed.

Lemma maintain_none ix m p pool :
  index_ok ix m -> is_u64 p -> m !! p = None ->
  base ix <> U64_MAX \/ idx ix p = None -> maintain_level ix p pool = Ret (ix, pool).
Proof.
  intros Hok Hp Hm Hb. unfold maintain_level.
  rewrite (ok_entry _ _ Hok) in Hm. unfold entry_at in Hm.
  destruct (idx ix p) as [i|] eqn:Hidx; [|by rewrite Hm].
  destruct Hb as [Hb|]; [|done].
  destruct (lookup_lt_is_Some_2 (levels ix) i) as [e He].
  { rewrite (ok_set _ _ Hok Hb). apply idx_Some in Hidx. lia. }
  rewrite He in *. simpl in Hm. by subst.
Qed.

(** *** Ordered enumeration *)
Definition key_lt (a b : Z * Level) : Prop := a.1 < b.1.

#[export] Instance key_le_trans : Transitive key_le.
Proof. intros a b c. unfold key_le. lia. Qed.
#[export] Instance key_le_total : Total key_le.
Proof. intros a b. unfold key_le. lia. Qed.
#[export] Instance key_lt_antisymm : AntiSymm (=) key_lt.
Proof. intros a b. unfold key_lt. lia. Qed.

Lemma sorted_levels_elem m p lv : (p, lv) ∈ sorted_levels m <-> m !! p = Some lv.
Proof. unfold sorted_levels. rewrite merge_sort_Permutation. apply elem_of_map_to_list. Qed.

Lemma sorted_levels_sorted m : StronglySorted key_lt (sorted_levels m).
Proof.
  assert (StronglySorted key_le (sorted_levels m)) as Hs
    by (apply StronglySorted_merge_sort; apply _).
  assert (NoDup (fst <$> sorted_levels m)) as Hnd.
  { unfold sorted_levels. rewrite merge_sort_Permutation. apply NoDup_fst_map_to_list. }
  induction Hs as [|e l Hs IH Hf]; constructor.
  - apply IH. rewrite fmap_cons in Hnd. by apply NoDup_cons in Hnd as [_ ?].
  - rewrite fmap_cons in Hnd. apply NoDup_cons in Hnd as [Hn _].
    rewrite Forall_forall in Hf |- *. intros e' He'. specialize (Hf e' He').
    unfold key_le, key_lt in *.
    assert (e.1 <> e'.1); [|lia]. intros Heq. apply Hn. rewrite Heq.
    by apply list_elem_of_fmap_2.
Qed.

Lemma key_sorted_nodup l : StronglySorted key_lt l -> NoDup l.
Proof.
  induction 1 as [|e l Hs IH Hf]; constructor; [|done].
  rewrite Forall_forall in Hf. intros He. specialize (Hf e He). unfold key_lt in Hf. lia.
Qed.

(** A strictly sorted list with the entries of [m] is [sorted_levels m]. *)
Lemma sorted_levels_unique m l :
  StronglySorted key_lt l -> (forall p lv, (p, lv) ∈ l <-> m !! p = Some lv) ->
  l = sorted_levels m.
Proof.
  intros Hs Hm. apply (StronglySorted_unique key_lt); [done | apply sorted_levels_sorted |].
  apply NoDup_Permutation; [by apply key_sorted_nodup | apply key_sorted_nodup, sorted_levels_sorted |].
  intros [p lv]. by rewrite Hm, sorted_levels_elem.
Qed.

Lemma join_sorted {A B} (R : relation A) (RB : relation B) (f : B -> list A) (ws : list B) :
  StronglySorted RB ws -> (forall w, w ∈ ws -> StronglySorted R (f w)) ->
  (forall w w', RB w w' -> forall x y, x ∈ f w -> y ∈ f w' -> R x y) ->
  StronglySorted R (mjoin (f <$> ws)).
Proof.
  intros Hs Hf HR. induction Hs as [|w ws Hs IH Hw]; [constructor|].
  rewrite fmap_cons. simpl. apply StronglySorted_app_2.
  - intros x y Hx Hy. apply list_elem_of_join in Hy as (l & Hy & Hl).
    apply list_elem_of_fmap in Hl as (w' & -> & Hw').
    rewrite Forall_forall in Hw. eapply HR; eauto.
  - apply Hf. left.
  - apply IH. intros. apply Hf. by right.
Qed.

Lemma sorted_min l j : StronglySorted Z.lt l -> j ∈ l -> (forall k, k ∈ l -> j <= k) ->
  head l = Some j.
Proof.
  intros Hs Hj Hmin. destruct Hs as [|x l Hs Hf]; [by inv Hj|]. simpl. f_equal.
  apply elem_of_cons in Hj as [->|Hj]; [done|].
  rewrite Forall_forall in Hf. specialize (Hf j Hj). specialize (Hmin x ltac:(left)). lia.
Qed.

Section Window.
Context (ix : LevelIndex) (m : gmap Z Level) (Hok : index_ok ix m).

Definition positions (bits_of : Z -> list Z) (ws : list nat) : list Z :=
  mjoin (window_positions bits_of ix <$> ws).

Lemma positions_elem bits_of ws :
  (forall x, 0 <= x < 2 ^ 64 -> forall j, j ∈ bits_of x <-> 0 <= j /\ Z.testbit x j = true) ->
  (forall w, w ∈ ws <-> (w < 16)%nat) ->
  forall j, j ∈ positions bits_of ws <-> 0 <= j < 1024 /\ bit ix (Z.to_nat j) = true.
Proof.
  intros Hbits Hws j. unfold positions. rewrite list_elem_of_join. split.
  - intros (l & Hj & Hl). apply list_elem_of_fmap in Hl as (w & -> & Hw%Hws).
    apply list_elem_of_fmap in Hj as (b & -> & Hb).
    apply Hbits in Hb as [Hb0 Hb]; [|exact (ok_word _ _ Hok w)].
    assert (b < 64) as Hb64.
    { destruct (Z.lt_ge_cases b 64); [done|]. rewrite testbit_high in Hb; [done | exact (ok_word _ _ Hok w) | done]. }
    split; [lia|]. rewrite bit_testbit.
    assert (Z.to_nat (Z.of_nat w * 64 + b) = w * 64 + Z.to_nat b)%nat as -> by lia.
    rewrite Nat.div_add_l, Nat.div_small by lia. rewrite Nat.add_0_r.
    rewrite Nat.add_comm, Nat.Div0.mod_add, Nat.mod_small by lia.
    rewrite Z2Nat.id by lia. done.
  - intros [Hj Hb]. rewrite bit_testbit in Hb.
    exists (window_positions bits_of ix (Z.to_nat j / 64)). split.
    + unfold window_positions. apply list_elem_of_fmap.
      exists (Z.of_nat (Z.to_nat j mod 64)). split.
      * pose proof (Nat.div_mod_eq (Z.to_nat j) 64). lia.
      * apply Hbits; [exact (ok_word _ _ Hok _)|]. split; [lia | done].
    + apply list_elem_of_fmap. exists (Z.to_nat j / 64)%nat. split; [done|].
      apply Hws. apply div64_lt. lia.
Qed.

Lemma window_chunk bits_of w x :
  (forall x, 0 <= x < 2 ^ 64 -> forall j, j ∈ bits_of x <-> 0 <= j /\ Z.testbit x j = true) ->
  x ∈ window_positions bits_of ix w -> Z.of_nat w * 64 <= x < Z.of_nat w * 64 + 64.
Proof.
  intros Hbits Hx. unfold window_positions in Hx. apply list_elem_of_fmap in Hx as (b & -> & Hb).
  apply Hbits in Hb as [Hb0 Hb]; [|exact (ok_word _ _ Hok w)].
  destruct (Z.lt_ge_cases b 64); [lia|].
  rewrite testbit_high in Hb; [done | exact (ok_word _ _ Hok w) | done].
Qed.

Lemma seq_sorted k n : StronglySorted lt (seq k n).
Proof.
  revert k; induction n as [|n IH]; intros k; simpl; constructor; [apply IH|].
  apply Forall_forall. intros x Hx%elem_of_seq. lia.
Qed.

Lemma positions_asc_sorted : StronglySorted Z.lt (positions (bits_asc 64) (seq 0 16)).
Proof.
  apply (join_sorted Z.lt lt); [apply seq_sorted | |].
  - intros w _. unfold window_positions. eapply StronglySorted_fmap; [|apply bits_asc_spec, Hok].
    simpl; intros; lia.
  - intros w w' Hw x y Hx Hy.
    apply window_chunk in Hx; [|intros; by apply bits_asc_spec].
    apply window_chunk in Hy; [|intros; by apply bits_asc_spec]. lia.
Qed.

Lemma positions_desc_sorted :
  StronglySorted Z.gt (positions (bits_desc 64) (reverse (seq 0 16))).
Proof.
  apply (join_sorted Z.gt gt).
  - change (reverse (seq 0 16)) with [15;14;13;12;11;10;9;8;7;6;5;4;3;2;1;0]%nat.
    repeat constructor; lia.
  - intros w _. unfold window_positions. eapply StronglySorted_fmap; [|apply bits_desc_spec, Hok].
    simpl; intros; lia.
  - intros w w' Hw x y Hx Hy.
    apply window_chunk in Hx; [|intros; by apply bits_desc_spec].
    apply window_chunk in Hy; [|intros; by apply bits_desc_spec]. lia.
Qed.

Lemma positions_asc_elem j :
  j ∈ positions (bits_asc 64) (seq 0 16) <-> 0 <= j < 1024 /\ bit ix (Z.to_nat j) = true.
Proof.
  apply positions_elem; [intros; by apply bits_asc_spec|]. intros w. rewrite elem_of_seq. lia.
Qed.

Lemma positions_desc_elem j :
  j ∈ positions (bits_desc 64) (reverse (seq 0 16)) <->
  0 <= j < 1024 /\ bit ix (Z.to_nat j) = true.
Proof.
  apply positions_elem; [intros; by apply bits_desc_spec|]. intros w.
  rewrite elem_of_reverse, elem_of_seq. lia.
Qed.

(** The level at an occupied window position. *)
Definition went (j : Z) : Z * Level :=
  (base ix + j, default Level_default (mjoin (levels ix !! Z.to_nat j))).

Lemma occupied_position j : 0 <= j < 1024 -> bit ix (Z.to_nat j) = true ->
  window_entry ix j = Ret (went j) /\ m !! (base ix + j) = Some (went j).2 /\
  idx ix (base ix + j) = Some (Z.to_nat j).
Proof.
  intros Hj Hb. apply (ok_bit _ _ Hok) in Hb as [lv Hlv]; [|lia].
  unfold went. destruct (levels ix !! Z.to_nat j) as [o|] eqn:E; [|done]. simpl in Hlv. subst o.
  destruct (window_lookup ix m _ lv Hok E) as (_ & _ & Hle & Hidx & Hm).
  rewrite Z2Nat.id in * by lia. split; [|done].
  unfold window_entry, checked_add. case_if; [|lia]. simpl. by rewrite E.
Qed.

Lemma window_position p i lv : idx ix p = Some i -> m !! p = Some lv ->
  p = base ix + Z.of_nat i /\ (i < 1024)%nat /\ bit ix i = true /\ went (Z.of_nat i) = (p, lv).
Proof.
  intros Hidx Hm. pose proof (entry_window _ _ _ _ _ Hok Hidx Hm) as Hi.
  apply idx_Some in Hidx as (? & ? & ->).
  assert (Z.to_nat (p - base ix) < 1024)%nat by lia.
  split_and!; try lia.
  - apply (ok_bit _ _ Hok); [done|]. rewrite Hi. simpl. eauto.
  - unfold went. rewrite Nat2Z.id, Hi. simpl. f_equal. lia.
Qed.

Definition asc_list : list (Z * Level) :=
  below_window ix ++ (went <$> positions (bits_asc 64) (seq 0 16)) ++ above_window ix.

Lemma below_elem p lv : (p, lv) ∈ below_window ix <-> p < base ix /\ overflow ix !! p = Some lv.
Proof. unfold below_window. rewrite list_elem_of_filter, sorted_levels_elem. done. Qed.

Lemma above_elem p lv : (p, lv) ∈ above_window ix <->
  (base ix + 1024 <= U64_MAX /\ base ix + 1024 <= p) /\ overflow ix !! p = Some lv.
Proof.
  unfold above_window, checked_add. case_if.
  - rewrite list_elem_of_filter, sorted_levels_elem. simpl. intuition lia.
  - split; [intros H; by inv H | lia].
Qed.

Lemma overflow_elem p lv : overflow ix !! p = Some lv <-> idx ix p = None /\ m !! p = Some lv.
Proof.
  rewrite (ok_entry _ _ Hok). unfold entry_at. split.
  - intros H. assert (idx ix p = None) as Hn by (apply (ok_out _ _ Hok); eauto).
    by rewrite Hn.
  - intros [Hn H]. by rewrite Hn in H.
Qed.

Lemma asc_list_elem p lv : (p, lv) ∈ asc_list <-> m !! p = Some lv.
Proof.
  unfold asc_list. rewrite !elem_of_app, below_elem, above_elem, list_elem_of_fmap. split.
  - intros [[_ H]|[(j & Hj & Hin)|[_ H]]].
    + by apply overflow_elem in H as [_ ?].
    + apply positions_asc_elem in Hin as [Hr Hb].
      destruct (occupied_position j Hr Hb) as (_ & H & _). by inv Hj.
    + by apply overflow_elem in H as [_ ?].
  - intros Hm. destruct (idx ix p) as [i|] eqn:Hidx.
    + destruct (window_position p i lv Hidx Hm) as (_ & Hlt & Hb & Hw).
      right; left. exists (Z.of_nat i). split; [done|].
      apply positions_asc_elem. rewrite Nat2Z.id. split; [lia|done].
    + assert (overflow ix !! p = Some lv) as Ho by (by apply overflow_elem).
      assert (is_u64 p) as Hp by (apply (ok_price _ _ Hok); eauto).
      pose proof (entry_set _ _ _ _ Hok Hm) as Hset.
      apply idx_None in Hidx. unfold is_u64 in Hp.
      destruct Hidx as [?|[?|?]]; [done | by left | right; right; split; [lia|done]].
Qed.

Lemma asc_list_sorted : StronglySorted key_lt asc_list.
Proof.
  unfold asc_list.
  assert (forall P `{!forall x, Decision (P x)}, StronglySorted key_lt
    (filter P (sorted_levels (overflow ix)))) as Hfil.
  { intros P HP. pose proof (sorted_levels_sorted (overflow ix)) as Hs.
    induction Hs as [|e l Hs IH Hf]; [constructor|].
    rewrite filter_cons. case_decide; [|done]. constructor; [done|].
    rewrite Forall_forall in Hf |- *. intros x [_ Hx]%list_elem_of_filter. by apply Hf. }
  apply StronglySorted_app_2; [|apply Hfil|apply StronglySorted_app_2].
  - intros [p lv] [q lv'] Hp Hq. apply below_elem in Hp as [Hp _].
    unfold key_lt; simpl. apply elem_of_app in Hq as [Hq|Hq].
    + apply list_elem_of_fmap in Hq as (j & Hj & Hin). inv Hj.
      apply positions_asc_elem in Hin. lia.
    + apply above_elem in Hq. lia.
  - intros [p lv] [q lv'] Hp Hq. apply above_elem in Hq as [Hq _].
    apply list_elem_of_fmap in Hp as (j & Hj & Hin). inv Hj.
    apply positions_asc_elem in Hin. unfold key_lt; simpl. lia.
  - eapply StronglySorted_fmap; [|apply positions_asc_sorted].
    intros j k Hjk. unfold key_lt, went; simpl. lia.
  - unfold above_window. destruct (checked_add _ _ _); [apply Hfil | constructor].
Qed.

Lemma window_entries (ps : list Z) :
  (forall j, j ∈ ps -> 0 <= j < 1024 /\ bit ix (Z.to_nat j) = true) ->
  window_entry ix <$> ps = Ret <$> (went <$> ps).
Proof.
  intros H. rewrite <-list_fmap_compose. apply list_fmap_ext. intros i j Hj.
  simpl. apply occupied_position; apply H; by eapply list_elem_of_lookup_2.
Qed.

(** The ascending walk enumerates the map in price order. *)
Lemma visit_asc_ok : visit_asc ix = Ret <$> sorted_levels m.
Proof.
  rewrite <-(sorted_levels_unique m asc_list asc_list_sorted asc_list_elem).
  unfold visit_asc, asc_list. rewrite !fmap_app. rewrite <-window_entries.
  { unfold positions. reflexivity. }
  intros j Hj. apply positions_asc_elem in Hj. exact Hj.
Qed.

Lemma positions_rev :
  positions (bits_desc 64) (reverse (seq 0 16)) =
  reverse (positions (bits_asc 64) (seq 0 16)).
Proof.
  assert (StronglySorted Z.gt (reverse (positions (bits_asc 64) (seq 0 16)))) as Hrev.
  { pose proof positions_asc_sorted as Hs.
    induction Hs as [|x l Hs IH Hf]; [constructor|]. rewrite reverse_cons.
    apply StronglySorted_app_2; [|done|repeat constructor].
    intros a b Ha ->%list_elem_of_singleton. rewrite elem_of_reverse in Ha.
    rewrite Forall_forall in Hf. specialize (Hf a Ha). lia. }
  assert (forall l, StronglySorted Z.gt l -> NoDup l) as Hnd.
  { induction 1 as [|x l Hs IH Hf]; constructor; [|done]. rewrite Forall_forall in Hf.
    intros Hin. specialize (Hf x Hin). lia. }
  assert (AntiSymm (=) Z.gt) as Hanti by (intros x y; lia).
  apply (StronglySorted_unique Z.gt); [apply positions_desc_sorted | done |].
  apply NoDup_Permutation; [apply Hnd, positions_desc_sorted | by apply Hnd |].
  intros j. rewrite elem_of_reverse, positions_desc_elem, positions_asc_elem. done.
Qed.

(** The descending walk enumerates it in reverse. *)
Lemma visit_desc_ok : visit_desc ix = Ret <$> reverse (sorted_levels m).
Proof.
  rewrite <-(sorted_levels_unique m asc_list asc_list_sorted asc_list_elem).
  unfold visit_desc, asc_list. rewrite !reverse_app, !fmap_app, <-(assoc (++)).
  rewrite <-fmap_reverse, <-window_entries, <-positions_rev.
  { unfold positions. reflexivity. }
  intros j Hj. apply elem_of_reverse, positions_asc_elem in Hj. exact Hj.
Qed.

(** *** Best prices *)

(** [o] is the least (greatest) key of [mm]. *)
Definition least (mm : gmap Z Level) (o : option Z) : Prop :=
  match o with
  | None => mm = ∅
  | Some p => is_Some (mm !! p) /\ forall q, is_Some (mm !! q) -> p <= q
  end.

Definition greatest (mm : gmap Z Level) (o : option Z) : Prop :=
  match o with
  | None => mm = ∅
  | Some p => is_Some (mm !! p) /\ forall q, is_Some (mm !! q) -> q <= p
  end.

Lemma sorted_levels_nil mm : sorted_levels mm = [] -> mm = ∅.
Proof.
  intros H. apply map_empty. intros p. destruct (mm !! p) as [lv|] eqn:E; [|done].
  apply sorted_levels_elem in E. rewrite H in E. by inv E.
Qed.

Lemma head_least mm : least mm (fst <$> head (sorted_levels mm)).
Proof.
  pose proof (sorted_levels_sorted mm) as Hs.
  destruct (sorted_levels mm) as [|[p lv] l] eqn:E; simpl.
  - by apply sorted_levels_nil.
  - split.
    + exists lv. apply sorted_levels_elem. rewrite E. left.
    + intros q [lv' Hq]. apply sorted_levels_elem in Hq. rewrite E in Hq.
      apply elem_of_cons in Hq as [[= <- <-]|Hq]; [done|].
      inv Hs. rewrite Forall_forall in H2. specialize (H2 _ Hq). unfold key_lt in H2. simpl in H2. lia.
Qed.

Lemma last_greatest mm : greatest mm (fst <$> last (sorted_levels mm)).
Proof.
  pose proof (sorted_levels_sorted mm) as Hs.
  destruct (last (sorted_levels mm)) as [[p lv]|] eqn:E; simpl.
  - apply last_Some in E as [l E]. split.
    + exists lv. apply sorted_levels_elem. rewrite E. set_solver.
    + intros q [lv' Hq]. apply sorted_levels_elem in Hq. rewrite E in Hq, Hs.
      apply elem_of_app in Hq as [Hq|Hq].
      * assert (key_lt (q, lv') (p, lv)) as Hlt
          by (eapply StronglySorted_app_1_elem_of; [done | done | set_solver]).
        unfold key_lt in Hlt. simpl in Hlt. lia.
      * apply list_elem_of_singleton in Hq. inv Hq. done.
  - apply sorted_levels_nil. by apply last_None.
Qed.

Lemma summary_word : l1 ix = [summary ix].
Proof.
  pose proof (ok_len1 _ _ Hok) as Hl. unfold summary.
  destruct (l1 ix) as [|x [|]]; simpl in *; [lia | done | lia].
Qed.

Lemma word_lookup w : (w < 16)%nat -> l0 ix !! w = Some (word ix w).
Proof.
  intros Hw. unfold word. destruct (lookup_lt_is_Some_2 (l0 ix) w) as [x Hx].
  { rewrite (ok_len0 _ _ Hok). done. }
  by rewrite Hx.
Qed.

(** An occupied position lies in a word whose summary bit is set. *)
Lemma position_summary j : 0 <= j < 1024 -> bit ix (Z.to_nat j) = true ->
  Z.testbit (summary ix) (j / 64) = true /\
  Z.testbit (word ix (Z.to_nat (j / 64))) (j mod 64) = true.
Proof.
  intros Hj Hb. rewrite bit_testbit in Hb.
  assert (Z.to_nat j / 64 = Z.to_nat (j / 64))%nat as Hd by (rewrite Z2Nat.inj_div; [done|lia|lia]).
  assert (Z.of_nat (Z.to_nat j mod 64) = j mod 64) as Hm.
  { rewrite Nat2Z.inj_mod, Z2Nat.id; [done|lia]. }
  rewrite Hd, Hm in Hb. split; [|done].
  apply (ok_sum _ _ Hok); [apply Z.div_pos; lia|]. split.
  - apply Z.div_lt_upper_bound; lia.
  - intros Hz. rewrite Hz, Z.bits_0 in Hb. done.
Qed.

Lemma summary_position w b :
  0 <= w -> Z.testbit (summary ix) w = true -> 0 <= b < 64 ->
  Z.testbit (word ix (Z.to_nat w)) b = true ->
  0 <= w * 64 + b < 1024 /\ bit ix (Z.to_nat (w * 64 + b)) = true.
Proof.
  intros Hw Hs Hb Hbit. apply (ok_sum _ _ Hok) in Hs as [Hlt _]; [|done].
  split; [lia|]. rewrite bit_testbit.
  assert (Z.to_nat (w * 64 + b) = Z.to_nat w * 64 + Z.to_nat b)%nat as -> by lia.
  rewrite Nat.div_add_l, Nat.div_small by lia. rewrite Nat.add_0_r.
  rewrite Nat.add_comm, Nat.Div0.mod_add, Nat.mod_small by lia.
  by rewrite Z2Nat.id by lia.
Qed.

Lemma word_pos w : 0 <= w -> Z.testbit (summary ix) w = true ->
  (Z.to_nat w < 16)%nat /\ 0 < word ix (Z.to_nat w) < 2 ^ 64.
Proof.
  intros Hw Hs. apply (ok_sum _ _ Hok) in Hs as [Hlt Hnz]; [|done].
  pose proof (ok_word _ _ Hok (Z.to_nat w)). lia.
Qed.

(** The two-level scan finds the lowest occupied position. *)
Lemma window_min_ok : exists o, window_min ix = Ret o /\
  match o with
  | None => forall j, 0 <= j < 1024 -> bit ix (Z.to_nat j) = false
  | Some j => 0 <= j < 1024 /\ bit ix (Z.to_nat j) = true /\
              forall k, 0 <= k < 1024 -> bit ix (Z.to_nat k) = true -> j <= k
  end.
Proof.
  unfold window_min. rewrite summary_word. cbn [scan_words]. case_if.
  - exists None. split; [done|]. intros j Hj. destruct (bit ix (Z.to_nat j)) eqn:Eb; [|done].
    apply position_summary in Eb as [Hs _]; [|done]. by rewrite E, Z.bits_0 in Hs.
  - pose proof (summary_range ix m Hok 0%nat ltac:(lia)) as Hsr.
    destruct (trailing_zeros_spec (summary ix) ltac:(lia)) as (Hw0 & Hwb & Hwmin).
    set (w := trailing_zeros (summary ix)) in *.
    destruct (word_pos w Hw0 Hwb) as [Hlt Hx].
    replace (Z.of_nat 0 * 64 + w) with w by lia. rewrite word_lookup by done. cbn [expect obind].
    destruct (trailing_zeros_spec (word ix (Z.to_nat w)) ltac:(lia)) as (Hb0 & Hbb & Hbmin).
    set (b := trailing_zeros (word ix (Z.to_nat w))) in *.
    assert (b < 64) as Hb64.
    { destruct (Z.lt_ge_cases b 64); [done|]. rewrite testbit_high in Hbb; [done | lia | done]. }
    destruct (summary_position w b Hw0 Hwb ltac:(lia) Hbb) as [Hr Hbit].
    eexists. split; [done|]. split; [done|]. split; [done|]. intros k Hk Hkb.
    apply position_summary in Hkb as [Hks Hkw]; [|done].
    pose proof (Z.div_mod k 64 ltac:(lia)). pose proof (Z.mod_pos_bound k 64 ltac:(lia)).
    assert (w <= k / 64) as Hle.
    { destruct (Z.le_gt_cases w (k / 64)); [done|]. rewrite Hwmin in Hks; [done|].
      split; [apply Z.div_pos; lia | lia]. }
    destruct (decide (w = k / 64)) as [Heq|]; [|lia].
    assert (b <= k mod 64); [|lia].
    destruct (Z.le_gt_cases b (k mod 64)); [done|]. rewrite <-Heq in Hkw.
    rewrite Hbmin in Hkw; [done | lia].
Qed.

Lemma log2_top x j : 0 < x -> 0 <= j -> Z.testbit x j = true -> j <= Z.log2 x.
Proof.
  intros Hx Hj Hb. destruct (Z.le_gt_cases j (Z.log2 x)); [done|].
  rewrite Z.bits_above_log2 in Hb; [done | lia | done].
Qed.

(** ... and the highest one. *)
Lemma window_max_ok : exists o, window_max ix = Ret o /\
  match o with
  | None => forall j, 0 <= j < 1024 -> bit ix (Z.to_nat j) = false
  | Some j => 0 <= j < 1024 /\ bit ix (Z.to_nat j) = true /\
              forall k, 0 <= k < 1024 -> bit ix (Z.to_nat k) = true -> k <= j
  end.
Proof.
  unfold window_max. rewrite summary_word. cbn [scan_words_rev]. case_if.
  - exists None. split; [done|]. intros j Hj. destruct (bit ix (Z.to_nat j)) eqn:Eb; [|done].
    apply position_summary in Eb as [Hs _]; [|done]. by rewrite E, Z.bits_0 in Hs.
  - pose proof (summary_range ix m Hok 0%nat ltac:(lia)) as Hsr.
    destruct (top_bit (summary ix) ltac:(lia)) as [Htop Hw0].
    replace (Z.of_nat 0 * 64 + 63 - leading_zeros (summary ix)) with (Z.log2 (summary ix)) by lia.
    pose proof (Z.bit_log2 (summary ix) ltac:(lia)) as Hwb.
    set (w := Z.log2 (summary ix)) in *.
    destruct (word_pos w ltac:(lia) Hwb) as [Hlt Hx].
    rewrite word_lookup by done. cbn [expect obind].
    destruct (top_bit (word ix (Z.to_nat w)) ltac:(lia)) as [Htop' Hb0].
    replace (w * 64 + 63 - leading_zeros (word ix (Z.to_nat w)))
      with (w * 64 + Z.log2 (word ix (Z.to_nat w))) by lia.
    pose proof (Z.bit_log2 (word ix (Z.to_nat w)) ltac:(lia)) as Hbb.
    destruct (summary_position w _ ltac:(lia) Hwb Hb0 Hbb) as [Hr Hbit].
    eexists. split; [done|]. split; [done|]. split; [done|]. intros k Hk Hkb.
    apply position_summary in Hkb as [Hks Hkw]; [|done].
    pose proof (Z.div_mod k 64 ltac:(lia)). pose proof (Z.mod_pos_bound k 64 ltac:(lia)).
    apply log2_top in Hks; [|lia|apply Z.div_pos; lia].
    destruct (decide (w = k / 64)) as [Heq|]; [|lia].
    rewrite <-Heq in Hkw. apply log2_top in Hkw; lia.
Qed.

Lemma map_none_window :
  (forall j, 0 <= j < 1024 -> bit ix (Z.to_nat j) = false) -> m = overflow ix.
Proof.
  intros H. apply map_eq. intros p. rewrite (ok_entry _ _ Hok). unfold entry_at.
  destruct (idx ix p) as [i|] eqn:Hidx; [|done].
  destruct (overflow ix !! p) as [lv|] eqn:Eo.
  { apply overflow_elem in Eo as [? _]. congruence. }
  destruct (mjoin (levels ix !! i)) as [lv|] eqn:El; [|done]. exfalso.
  assert (i < 1024)%nat as Hi by (apply idx_Some in Hidx; lia).
  assert (bit ix i = true) as Hb by (apply (ok_bit _ _ Hok i Hi); rewrite El; eauto).
  specialize (H (Z.of_nat i) ltac:(lia)). rewrite Nat2Z.id in H. congruence.
Qed.

(** An entry of the map is an occupied position or an overflow entry. *)
Lemma map_split p : is_Some (m !! p) ->
  (exists j, 0 <= j < 1024 /\ bit ix (Z.to_nat j) = true /\ p = base ix + j) \/
  is_Some (overflow ix !! p).
Proof.
  intros [lv Hm]. destruct (idx ix p) as [i|] eqn:Hidx.
  - left. destruct (window_position p i lv Hidx Hm) as (-> & Hlt & Hb & _).
    exists (Z.of_nat i). rewrite Nat2Z.id. split; [lia | done].
  - right. exists lv. by apply overflow_elem.
Qed.

Lemma overflow_map p : is_Some (overflow ix !! p) -> is_Some (m !! p).
Proof. intros [lv H]. apply overflow_elem in H as [_ ?]. eauto. Qed.

Lemma min_price_ok : exists o, min_price ix = Ret o /\ least m o.
Proof.
  unfold min_price. destruct window_min_ok as (ow & -> & Hw). cbn [obind].
  eexists; split; [done|].
  pose proof (head_least (overflow ix)) as Ho.
  destruct ow as [j|]; cbn [mbind option_bind].
  - destruct Hw as (Hr & Hb & Hmin).
    destruct (occupied_position j Hr Hb) as (_ & Hm & _).
    assert (is_u64 (base ix + j)) as Hu by (apply (ok_price _ _ Hok); eauto).
    unfold checked_add, is_u64 in *. case_if; [|lia].
    destruct (fst <$> head (sorted_levels (overflow ix))) as [q|]; cbn [combine_opt least] in *.
    + destruct Ho as [Hq Hqmin]. split.
      * destruct (Z.min_spec (base ix + j) q) as [[_ ->]|[_ ->]]; [eauto | by apply overflow_map].
      * intros p [(k & Hk & Hkb & ->)|Hp]%map_split.
        -- specialize (Hmin k Hk Hkb). lia.
        -- specialize (Hqmin p Hp). lia.
    + split; [eauto|]. intros p [(k & Hk & Hkb & ->)|Hp]%map_split.
      * specialize (Hmin k Hk Hkb). lia.
      * rewrite Ho, lookup_empty in Hp. by destruct Hp.
  - rewrite (map_none_window Hw). cbn [combine_opt]. done.
Qed.

Lemma max_price_ok : exists o, max_price ix = Ret o /\ greatest m o.
Proof.
  unfold max_price. destruct window_max_ok as (ow & -> & Hw). cbn [obind].
  eexists; split; [done|].
  pose proof (last_greatest (overflow ix)) as Ho.
  destruct ow as [j|]; cbn [mbind option_bind].
  - destruct Hw as (Hr & Hb & Hmax).
    destruct (occupied_position j Hr Hb) as (_ & Hm & _).
    assert (is_u64 (base ix + j)) as Hu by (apply (ok_price _ _ Hok); eauto).
    unfold checked_add, is_u64 in *. case_if; [|lia].
    destruct (fst <$> last (sorted_levels (overflow ix))) as [q|]; cbn [combine_opt greatest] in *.
    + destruct Ho as [Hq Hqmax]. split.
      * destruct (Z.max_spec (base ix + j) q) as [[_ ->]|[_ ->]]; [by apply overflow_map | eauto].
      * intros p [(k & Hk & Hkb & ->)|Hp]%map_split.
        -- specialize (Hmax k Hk Hkb). lia.
        -- specialize (Hqmax p Hp). lia.
    + split; [eauto|]. intros p [(k & Hk & Hkb & ->)|Hp]%map_split.
      * specialize (Hmax k Hk Hkb). lia.
      * rewrite Ho, lookup_empty in Hp. by destruct Hp.
  - rewrite (map_none_window Hw). cbn [combine_opt]. done.
Qed.
End Window.
End LevelIndexFacts.

(** ** Properties of the index *)

(** The reference: a plain map from price to level, one [push] at a time. *)
Definition push_ref (m : gmap Z Level) (e : Price * nat * Qty) : gmap Z Level :=
  let '(p, slot, r) := e in
  let lv := default Level_default (m !! p) in
  <[p := mkLevel (orders lv ++ [slot]) (qty lv + r) (live lv + 1)]> m.

Definition push_all (ix : LevelIndex) (es : list (Price * nat * Qty)) : outcome LevelIndex :=
  ofold (fun ix e => LevelIndex.push ix e.1.1 e.1.2 e.2) ix es.

(** Total quantity and number of entries pushed are within the counters. *)
Definition pushes_bounded (es : list (Price * nat * Qty)) : Prop :=
  Forall (fun e => is_u64 e.1.1 /\ 0 < e.2) es /\ sumZ snd es <= U64_MAX /\
  Z.of_nat (length es) <= U32_MAX.

Section PushAll.
Import LevelIndexFacts.

Lemma push_all_ok es ix m n q :
  index_ok ix m -> Forall (fun e => is_u64 e.1.1 /\ 0 < e.2) es ->
  (forall p lv, m !! p = Some lv -> 0 < live lv <= n /\ 0 <= qty lv <= q) ->
  0 <= n -> 0 <= q -> q + sumZ snd es <= U64_MAX -> n + Z.of_nat (length es) <= U32_MAX ->
  exists ix', push_all ix es = Ret ix' /\ index_ok ix' (foldl push_ref m es).
Proof.
  revert ix m n q; induction es as [|[[p slot] r] es IH]; intros ix m n q Hok Hf Hm Hn Hq Hsum Hlen.
  { simpl. eauto. }
  inv Hf. destruct H1 as [Hp Hr]. cbn [fst snd] in *. rewrite sumZ_cons in Hsum. cbn [snd] in Hsum.
  simpl length in Hlen.
  assert (0 <= sumZ snd es) as Hes.
  { apply sumZ_nonneg. eapply Forall_impl; [done|]. intros e [_ ?]. lia. }
  assert (0 <= live (default Level_default (m !! p)) <= n /\
          0 <= qty (default Level_default (m !! p)) <= q) as [Hl1 Hq1].
  { destruct (m !! p) as [lv|] eqn:E; simpl; [|lia]. destruct (Hm p lv E); lia. }
  destruct (push_ok ix m p slot r Hok Hp Hr) as (ix1 & Hpush & Hok1).
  { intros lv' Hlv'. destruct (Hm p lv' Hlv'); lia. }
  { lia. }
  { lia. }
  unfold push_all. simpl ofold. rewrite Hpush. simpl.
  apply (IH ix1 _ (n + 1) (q + r)); [done | done | | lia | lia | lia | lia].
  intros p' lv'. destruct (decide (p' = p)) as [->|Hne].
  - rewrite lookup_insert_eq. intros [= <-]. simpl. lia.
  - rewrite lookup_insert_ne by done. intros Hlv'. destruct (Hm p' lv' Hlv'). lia.
Qed.
End PushAll.

(** pushing any bounded sequence of orders into a fresh index returns, and
    the window, bitmaps and overflow tree together hold exactly the plain
    price-to-level map built from the same sequence. *)
Theorem index_push_refines (es : list (Price * nat * Qty)) (Hes : pushes_bounded es) :
  exists ix, push_all LevelIndex.new es = Ret ix /\
    LevelIndexFacts.index_ok ix (foldl push_ref ∅ es).
Proof.
  destruct Hes as (Hf & Hsum & Hlen).
  eapply (push_all_ok es _ _ 0 0); [apply LevelIndexFacts.index_ok_new | done | | lia..].
  intros p lv H. by rewrite lookup_empty in H.
Qed.

(** the bitmap scans are exact: [min_price] and [max_price] return the
    least and greatest occupied price over window and overflow together, and
    the two walks visit the occupied levels in ascending and descending price
    order, each exactly once. *)
Theorem index_scans_exact (ix : LevelIndex) (m : gmap Z Level)
  (Hok : LevelIndexFacts.index_ok ix m) :
  (exists o, LevelIndex.min_price ix = Ret o /\ LevelIndexFacts.least m o) /\
  (exists o, LevelIndex.max_price ix = Ret o /\ LevelIndexFacts.greatest m o) /\
  LevelIndex.visit_asc ix = Ret <$> sorted_levels m /\
  LevelIndex.visit_desc ix = Ret <$> reverse (sorted_levels m).
Proof.
  split_and!.
  - by apply LevelIndexFacts.min_price_ok.
  - by apply LevelIndexFacts.max_price_ok.
  - by apply LevelIndexFacts.visit_asc_ok.
  - by apply LevelIndexFacts.visit_desc_ok.
Qed.

Definition example_pushes : list (Price * nat * Qty) :=
  [(1000, 0%nat, 5); (1003, 1%nat, 7); (1000, 2%nat, 2); (9000, 3%nat, 1); (3, 4%nat, 4)].

Lemma example_pushes_bounded : pushes_bounded example_pushes.
Proof. split_and!; [repeat constructor; done | done | done]. Qed.

Lemma index_push_refines_witness :
  exists ix, push_all LevelIndex.new example_pushes = Ret ix /\
    LevelIndexFacts.index_ok ix (foldl push_ref ∅ example_pushes).
Proof. apply (index_push_refines example_pushes example_pushes_bounded). Defined.

Lemma example_index_ok :
  match push_all LevelIndex.new example_pushes with
  | Ret ix => LevelIndexFacts.index_ok ix (foldl push_ref ∅ example_pushes)
  | Panic _ => False
  end.
Proof.
  destruct (push_all_ok example_pushes LevelIndex.new ∅ 0 0) as (ix & -> & Hok);
    [apply LevelIndexFacts.index_ok_new | apply example_pushes_bounded | | done.. ].
  intros p lv H. by rewrite lookup_empty in H.
Qed.

Lemma index_scans_exact_witness :
  match push_all LevelIndex.new example_pushes with
  | Ret ix => LevelIndex.min_price ix = Ret (Some 3) /\ LevelIndex.max_price ix = Ret (Some 9000) /\
              LevelIndex.visit_asc ix = Ret <$> sorted_levels (foldl push_ref ∅ example_pushes)
  | Panic _ => False
  end.
Proof.
  pose proof example_index_ok as Hok.
  destruct (push_all LevelIndex.new example_pushes) as [ix|] eqn:E; [|done].
  destruct (index_scans_exact ix _ Hok) as (_ & _ & Hasc & _).
  vm_compute in E. injection E as <-. split; [vm_compute; reflexivity|].
  split; [vm_compute; reflexivity | exact Hasc].
Defined.
