(* ===== verification/Book.v ===== *)
(** * The order book

    [src/src/book.rs], lines 442 to 925: two level indexes over one slab of
    order slots, with the id index and the per-user counters.  Cancelled and
    filled orders stay in their level as tombstones until they are reclaimed.

    The abstract book is [queue]: for each side and price, the list of live
    orders in time priority.  [book_ok] is the representation invariant; every
    operation preserves it and acts on the queues as its documentation says. *)

From S2P Require Import Prelude Types Strategy LevelIndex.

Record OrderBook := mkBook {
  pool : OrderPool;
  bids : LevelIndex;
  asks : LevelIndex;
  locate : gmap Z nat;
  user_counts : gmap Z Z
}.

Module OrderBook.

(** [OrderBook::with_capacity] and [OrderBook::new]. *)
Definition new : OrderBook :=
  mkBook OrderPool.with_capacity LevelIndex.new LevelIndex.new ∅ ∅.

Definition user_open_orders (b : OrderBook) (user : UserId) : Z :=
  default 0 (user_counts b !! user).

Definition count_user (counts : gmap Z Z) (user : UserId) (delta : Z) : outcome (gmap Z Z) :=
  if user =? 0 then Ret counts
  else if delta =? 1 then
    let! n := expect (checked_add U32_MAX (default 0 (counts !! user)) 1)
                "per-user order count overflow" in
    Ret (<[user := n]> counts)
  else if delta =? -1 then
    let! e := expect (counts !! user) "missing per-user count for live order" in
    let! n := expect (checked_sub e 1) "per-user order count underflow" in
    Ret (if n =? 0 then delete user counts else <[user := n]> counts)
  else Panic "unsupported user-count delta".

Definition side (b : OrderBook) (s : Side) : LevelIndex :=
  match s with
  | Buy => bids b
  | Sell => asks b
  end.

(** Writing back through [side_mut]. *)
Definition with_side (b : OrderBook) (s : Side) (ix : LevelIndex) : OrderBook :=
  match s with
  | Buy => mkBook (pool b) ix (asks b) (locate b) (user_counts b)
  | Sell => mkBook (pool b) (bids b) ix (locate b) (user_counts b)
  end.

Definition with_pool (b : OrderBook) (p : OrderPool) : OrderBook :=
  mkBook p (bids b) (asks b) (locate b) (user_counts b).
Definition with_locate (b : OrderBook) (l : gmap Z nat) : OrderBook :=
  mkBook (pool b) (bids b) (asks b) l (user_counts b).
Definition with_counts (b : OrderBook) (c : gmap Z Z) : OrderBook :=
  mkBook (pool b) (bids b) (asks b) (locate b) c.

Definition is_empty (b : OrderBook) : bool := bool_decide (locate b = ∅).
Definition len (b : OrderBook) : nat := size (locate b).

Definition best_bid (b : OrderBook) : outcome (option Price) := LevelIndex.max_price (bids b).
Definition best_ask (b : OrderBook) : outcome (option Price) := LevelIndex.min_price (asks b).
Definition best (b : OrderBook) (s : Side) : outcome (option Price) :=
  match s with
  | Buy => best_bid b
  | Sell => best_ask b
  end.

(** [locate.values().map(|loc| pool.get(loc.slot))] in the iteration order
    [entries] of the hash map, which is unspecified. *)
Definition iter_orders (entries : list (Z * nat)) (b : OrderBook) : outcome (list Order) :=
  ofold (fun acc e => let! o := OrderPool.get (pool b) e.2 in Ret (acc ++ [o])) [] entries.

(** The ids of the orders of [user], in the iteration order of the hash map. *)
Definition orders_of_user (entries : list (Z * nat)) (b : OrderBook) (user : UserId)
  : outcome (list OrderId) :=
  ofold (fun acc e =>
    let! o := OrderPool.get (pool b) e.2 in
    Ret (if o_user o =? user then acc ++ [e.1] else acc)) [] entries.

(** The closure [copy_level] of [snapshot_orders]. *)
Definition copy_level (b : OrderBook) (out : list Order) (_ : Price) (lv : Level)
  : outcome (list Order * bool) :=
  let! out :=
    ofold (fun out slot =>
      let! o := OrderPool.get (pool b) slot in
      Ret (if 0 <? o_remaining o then out ++ [o] else out)) out (orders lv) in
  Ret (out, true).

Definition snapshot_orders (b : OrderBook) : outcome (list Order) :=
  let! out := LevelIndex.walk_asc (copy_level b) (bids b) [] in
  LevelIndex.walk_asc (copy_level b) (asks b) out.

Definition to_resting (o : Order) : RestingOrder :=
  mkResting (o_id o) (o_remaining o) (o_timestamp o) (o_user o).

Definition level_view (b : OrderBook) (s : Side) (price : Price) : outcome (list RestingOrder) :=
  match LevelIndex.get (side b s) price with
  | None => Ret []
  | Some lv =>
      ofold (fun out slot =>
        let! o := OrderPool.get (pool b) slot in
        Ret (if 0 <? o_remaining o then out ++ [to_resting o] else out)) [] (orders lv)
  end.

(** The copy loop of [level_view_capped]: stop once [cap_qty] is covered. *)
Fixpoint view_loop (p : OrderPool) (os : list nat) (cap_qty covered : Qty)
    (out : list RestingOrder) : outcome (list RestingOrder) :=
  match os with
  | [] => Ret out
  | i :: rest =>
      let! o := OrderPool.get p i in
      if o_remaining o =? 0 then view_loop p rest cap_qty covered out
      else
        let out := out ++ [to_resting o] in
        let! covered := expect (checked_add U64_MAX covered (o_remaining o))
                          "covered level quantity overflow" in
        if cap_qty <=? covered then Ret out else view_loop p rest cap_qty covered out
  end.

Definition level_view_capped (b : OrderBook) (s : Side) (price : Price) (cap_qty : Qty)
  : outcome (OrderBook * list RestingOrder) :=
  let! r := LevelIndex.maintain_level (side b s) price (pool b) in
  let b := with_pool (with_side b s r.1) r.2 in
  match LevelIndex.get r.1 price with
  | None => Ret (b, [])
  | Some lv =>
      let! out := view_loop r.2 (orders lv) cap_qty 0 [] in
      Ret (b, out)
  end.

Definition level_view_into (b : OrderBook) (s : Side) (price : Price)
  : outcome (OrderBook * list RestingOrder) :=
  level_view_capped b s price U64_MAX.

(** The closure of [cost_to_fill]; its state is [(left, cost)]. *)
Definition cost_step (st : Qty * Z) (px : Price) (lv : Level) : outcome ((Qty * Z) * bool) :=
  let '(left_, cost) := st in
  let take_ := Z.min left_ (qty lv) in
  let! notional := expect (checked_mul U128_MAX px take_) "fill notional overflow" in
  let! cost := expect (checked_add U128_MAX cost notional) "total fill cost overflow" in
  let! left_ := expect (checked_sub left_ take_) "fill quantity underflow" in
  Ret ((left_, cost), 0 <? left_).

Definition cost_to_fill (b : OrderBook) (aggressor : Side) (q : Qty) : outcome (Qty * Z) :=
  let levels := side b (opposite aggressor) in
  let! st :=
    match aggressor with
    | Buy => LevelIndex.walk_asc cost_step levels (q, 0)
    | Sell => LevelIndex.walk_desc cost_step levels (q, 0)
    end in
  Ret (wrap64 (q - st.1), st.2).

(** The two closures of [crossable_qty]. *)
Definition cross_step (aggressor : Side) (limit : Price) (sum : Qty) (px : Price) (lv : Level)
  : outcome (Qty * bool) :=
  if match aggressor with Buy => limit <? px | Sell => px <? limit end then Ret (sum, false)
  else
    let! sum := expect (checked_add U64_MAX sum (qty lv)) "crossable quantity overflow" in
    Ret (sum, true).

Definition crossable_qty (b : OrderBook) (aggressor : Side) (limit : Price) : outcome Qty :=
  let levels := side b (opposite aggressor) in
  match aggressor with
  | Buy => LevelIndex.walk_asc (cross_step Buy limit) levels 0
  | Sell => LevelIndex.walk_desc (cross_step Sell limit) levels 0
  end.

Definition try_insert (b : OrderBook) (order : Order) : outcome (OrderBook * bool) :=
  if (o_remaining order =? 0) || bool_decide (is_Some (locate b !! o_id order))
  then Ret (b, false)
  else
    let! r := OrderPool.alloc (pool b) order in
    let b := with_locate (with_pool b r.1) (<[o_id order := r.2]> (locate b)) in
    let! ix := LevelIndex.push (side b (o_side order)) (o_price order) r.2 (o_remaining order) in
    let b := with_side b (o_side order) ix in
    let! counts := count_user (user_counts b) (o_user order) 1 in
    Ret (with_counts b counts, true).

Definition insert (b : OrderBook) (order : Order) : outcome OrderBook :=
  let! r := try_insert b order in
  assert_that r.2 "invalid or duplicate resting order" (Ret r.1).

(** One iteration of the loop of [apply_fills]. *)
Definition apply_fill (s : Side) (price : Price) (b : OrderBook) (fill : OrderId * Qty)
  : outcome OrderBook :=
  let '(id, fill_qty) := fill in
  assert_that (0 <? fill_qty) "zero-size fill"
  (let! slot := expect (locate b !! id) "fill references non-resting order" in
   let! order := OrderPool.get (pool b) slot in
   assert_that (bool_decide (o_side order = s) && (o_price order =? price))
     "fill targets the wrong price level"
   (assert_that (fill_qty <=? o_remaining order) "over-fill"
    (let! lv := expect (LevelIndex.get (side b s) price)
                  "price level disappeared while applying fills" in
     let! q := expect (checked_sub (qty lv) fill_qty) "level quantity underflow" in
     let! n := (if fill_qty =? o_remaining order
                then expect (checked_sub (live lv) 1) "level live-count underflow"
                else Ret (live lv)) in
     let b := with_side b s (LevelIndex.put (side b s) price (mkLevel (orders lv) q n)) in
     let! r := expect (checked_sub (o_remaining order) fill_qty) "maker quantity underflow" in
     let! p := OrderPool.set_remaining (pool b) slot r in
     let b := with_pool b p in
     if r =? 0 then
       let b := with_locate b (delete id (locate b)) in
       let! counts := count_user (user_counts b) (o_user order) (-1) in
       Ret (with_counts b counts)
     else Ret b))).

Definition apply_fills (b : OrderBook) (s : Side) (price : Price) (fills : list (OrderId * Qty))
  : outcome OrderBook :=
  match fills with
  | [] => Ret b
  | _ =>
      assert_that (bool_decide (is_Some (LevelIndex.get (side b s) price)))
        "fill references a missing price level"
      (let! b := ofold (apply_fill s price) b fills in
       let! r := LevelIndex.maintain_level (side b s) price (pool b) in
       Ret (with_pool (with_side b s r.1) r.2))
  end.

Definition get (b : OrderBook) (id : OrderId) : outcome (option Order) :=
  match locate b !! id with
  | None => Ret None
  | Some slot => let! o := OrderPool.get (pool b) slot in Ret (Some o)
  end.

Definition cancel (b : OrderBook) (id : OrderId) : outcome (OrderBook * option Order) :=
  match locate b !! id with
  | None => Ret (b, None)
  | Some slot =>
      let b := with_locate b (delete id (locate b)) in
      let! order := OrderPool.get (pool b) slot in
      assert_that (0 <? o_remaining order) "locate points at a tombstoned order"
      (let! p := OrderPool.set_remaining (pool b) slot 0 in
       let b := with_pool b p in
       let s := o_side order in
       let! lv := expect (LevelIndex.get (side b s) (o_price order))
                    "cancel references a missing price level" in
       let! q := expect (checked_sub (qty lv) (o_remaining order))
                   "level quantity underflow on cancel" in
       let! n := expect (checked_sub (live lv) 1) "level live-count underflow" in
       let ix := LevelIndex.put (side b s) (o_price order) (mkLevel (orders lv) q n) in
       let! r := LevelIndex.maintain_level ix (o_price order) (pool b) in
       let b := with_pool (with_side b s r.1) r.2 in
       let! counts := count_user (user_counts b) (o_user order) (-1) in
       Ret (with_counts b counts, Some order))
  end.

Definition reduce (b : OrderBook) (id : OrderId) (new_remaining : Qty)
  : outcome (OrderBook * bool) :=
  match locate b !! id with
  | None => Ret (b, false)
  | Some slot =>
      if new_remaining =? 0 then
        let! r := cancel b id in
        Ret (r.1, bool_decide (is_Some r.2))
      else
        let! o := OrderPool.get (pool b) slot in
        if o_remaining o <? new_remaining then Ret (b, false)
        else
          let! delta := expect (checked_sub (o_remaining o) new_remaining)
                          "order reduction underflow" in
          let! p := OrderPool.set_remaining (pool b) slot new_remaining in
          let b := with_pool b p in
          match LevelIndex.get (side b (o_side o)) (o_price o) with
          | None => Ret (b, true)
          | Some lv =>
              let! q := expect (checked_sub (qty lv) delta) "level quantity underflow" in
              Ret (with_side b (o_side o)
                     (LevelIndex.put (side b (o_side o)) (o_price o)
                        (mkLevel (orders lv) q (live lv))), true)
          end
  end.

(** The closures of [top_levels] and [depth]. *)
Definition top_step (n : nat) (rows : list (Price * Qty)) (px : Price) (lv : Level)
  : outcome (list (Price * Qty) * bool) :=
  let rows := if 0 <? qty lv then rows ++ [(px, qty lv)] else rows in
  Ret (rows, (length rows <? n)%nat).

Definition top_levels (b : OrderBook) (s : Side) (n : nat) : outcome (list (Price * Qty)) :=
  match s with
  | Buy => LevelIndex.walk_desc (top_step n) (side b s) []
  | Sell => LevelIndex.walk_asc (top_step n) (side b s) []
  end.

Definition depth_step (rows : list (Price * Qty * Z)) (px : Price) (lv : Level)
  : outcome (list (Price * Qty * Z) * bool) :=
  Ret (if 0 <? qty lv then rows ++ [(px, qty lv, live lv)] else rows, true).

Definition depth (b : OrderBook) (s : Side) : outcome (list (Price * Qty * Z)) :=
  match s with
  | Buy => LevelIndex.walk_desc depth_step (side b s) []
  | Sell => LevelIndex.walk_asc depth_step (side b s) []
  end.

End OrderBook.

(** ** The abstract book *)

(** The order in a slot, if it is live. *)
Definition live_at (sl : list Order) (s : nat) : option Order :=
  match sl !! s with
  | Some o => if o_remaining o =? 0 then None else Some o
  | None => None
  end.

Definition live_orders (sl : list Order) (os : list nat) : list Order := omap (live_at sl) os.

(** The live orders at a side and price, oldest first. *)
Definition queue (b : OrderBook) (sd : Side) (p : Price) : list Order :=
  match LevelIndex.entry_at (OrderBook.side b sd) p with
  | Some lv => live_orders (slots (pool b)) (orders lv)
  | None => []
  end.

(** The stored levels of a side by ascending price, and the same best price
    first with their queues: what an aggressor walks through. *)
Definition stored (b : OrderBook) (sd : Side) : list (Price * Level) :=
  omap (fun c => match c with Ret e => Some e | Panic _ => None end)
    (LevelIndex.visit_asc (OrderBook.side b sd)).

Definition ladder_asc (b : OrderBook) (sd : Side) : list (Price * list Order) :=
  (fun e => (e.1, live_orders (slots (pool b)) (orders e.2))) <$> stored b sd.

Definition ladder (b : OrderBook) (sd : Side) : list (Price * list Order) :=
  match sd with
  | Sell => ladder_asc b sd
  | Buy => reverse (ladder_asc b sd)
  end.

(** On the resting side [sd], price [p] is strictly better for the aggressor. *)
Definition better (sd : Side) (p p' : Price) : Prop :=
  match sd with
  | Sell => p < p'
  | Buy => p' < p
  end.

(** Does an aggressor on side [ag] with limit [limit] reach price [p]? *)
Definition reaches (ag : Side) (limit p : Price) : bool :=
  match ag with
  | Buy => p <=? limit
  | Sell => limit <=? p
  end.

(** Sum of a measure of the queues at the prices satisfying [P]. *)
Definition depth_sum (G : list Order -> Z) (P : Price -> bool) (b : OrderBook) (sd : Side) : Z :=
  sumZ (fun e => if P e.1 then G e.2 else 0) (ladder b sd).

(** Fill [n] lots through the ladder: what is left and the cost. *)
Fixpoint ladder_cost (n : Qty) (l : list (Price * list Order)) : Qty * Z :=
  match l with
  | [] => (n, 0)
  | (p, q) :: rest =>
      let t := Z.min n (sumZ o_remaining q) in
      let r := if 0 <? n - t then ladder_cost (n - t) rest else (n - t, 0) in
      (r.1, p * t + r.2)
  end.

(** The front of a queue that covers [cap] lots. *)
Fixpoint q_cap (cap covered : Qty) (q : list Order) : list Order :=
  match q with
  | [] => []
  | o :: rest =>
      o :: (if cap <=? covered + o_remaining o then [] else q_cap cap (covered + o_remaining o) rest)
  end.

(** All orders of a side by ascending price, each queue oldest first. *)
Definition side_orders (b : OrderBook) (sd : Side) : list Order := ladder_asc b sd ≫= snd.

(** A level at the front of a ladder, dropped when its queue is empty. *)
Definition push_level (p : Price) (q : list Order) (rest : list (Price * list Order))
  : list (Price * list Order) :=
  match q with
  | [] => rest
  | _ => (p, q) :: rest
  end.

(** ** Representation invariant *)
Module BookFacts.
Import LevelIndexFacts OrderBook.

(** *** Live orders of a list of slots *)
Lemma live_at_Some sl s o : live_at sl s = Some o <-> sl !! s = Some o /\ o_remaining o <> 0.
Proof.
  unfold live_at. destruct (sl !! s) as [o'|]; [|naive_solver].
  case_if; split; intros H; destruct_and?; simplify_eq; done.
Qed.

Lemma live_at_dead sl s : ~ slot_live sl s -> live_at sl s = None.
Proof.
  intros H. destruct (live_at sl s) as [o|] eqn:E; [|done].
  apply live_at_Some in E. destruct H. by exists o.
Qed.

Lemma live_orders_app sl l1 l2 : live_orders sl (l1 ++ l2) = live_orders sl l1 ++ live_orders sl l2.
Proof. apply omap_app. Qed.

Lemma live_orders_cons sl s os : live_orders sl (s :: os) =
  match live_at sl s with Some o => o :: live_orders sl os | None => live_orders sl os end.
Proof. done. Qed.

Lemma live_orders_filter sl os : live_orders sl (filter (slot_live sl) os) = live_orders sl os.
Proof.
  induction os as [|s os IH]; [done|]. rewrite filter_cons, live_orders_cons.
  case_decide as H; [by rewrite live_orders_cons, IH|]. by rewrite live_at_dead.
Qed.

Lemma live_orders_ext sl sl' os :
  (forall s, s ∈ os -> sl' !! s = sl !! s) -> live_orders sl' os = live_orders sl os.
Proof.
  intros H. induction os as [|s os IH]; [done|]. rewrite !live_orders_cons. unfold live_at.
  rewrite H by set_solver. rewrite IH by set_solver. done.
Qed.

Lemma live_orders_elem sl os o :
  o ∈ live_orders sl os <-> exists s, s ∈ os /\ sl !! s = Some o /\ o_remaining o <> 0.
Proof.
  unfold live_orders. rewrite list_elem_of_omap. split.
  - intros (s & Hs & H). apply live_at_Some in H. eauto.
  - intros (s & Hs & H). exists s. by rewrite live_at_Some.
Qed.

Lemma live_orders_dead sl os :
  live_orders sl os = [] -> Forall (fun s => ~ slot_live sl s) os.
Proof.
  intros H. apply Forall_forall. intros s Hs (o & Ho & Hr).
  assert (o ∈ live_orders sl os) as Hin by (apply live_orders_elem; eauto).
  rewrite H in Hin. set_solver.
Qed.

Lemma live_orders_length sl os : (length (live_orders sl os) <= length os)%nat.
Proof.
  induction os as [|s os IH]; [done|]. rewrite live_orders_cons. cbn [length].
  destruct (live_at sl s); cbn [length]; lia.
Qed.

(** The live orders after one slot [s] of the queue got a new remaining
    quantity: the order is replaced in place, or leaves when nothing is left. *)
Definition refill (o : Order) (r : Qty) : list Order :=
  if r =? 0 then [] else [Order.set_remaining o r].

Lemma live_orders_update sl os s o r :
  NoDup os -> s ∈ os -> sl !! s = Some o -> o_remaining o <> 0 ->
  exists l1 l2, live_orders sl os = l1 ++ [o] ++ l2 /\
    live_orders (<[s := Order.set_remaining o r]> sl) os = l1 ++ refill o r ++ l2.
Proof.
  intros Hnd Hs Ho Hr. apply list_elem_of_split in Hs as (a & c & ->).
  apply NoDup_app in Hnd as (_ & Ha & [Hc _]%NoDup_cons).
  exists (live_orders sl a), (live_orders sl c). rewrite !live_orders_app. split.
  - f_equal. rewrite live_orders_cons. unfold live_at. rewrite Ho. by case_if.
  - assert (forall s', s' ∈ a \/ s' ∈ c -> s <> s') as Hne by (intros s' [H|H] ->; set_solver).
    f_equal; [apply live_orders_ext; intros; rewrite list_lookup_insert_ne; naive_solver|].
    rewrite live_orders_cons. unfold live_at.
    rewrite list_lookup_insert_eq by (by eapply lookup_lt_Some).
    change (o_remaining (Order.set_remaining o r)) with r.
    rewrite (live_orders_ext sl _ c)
      by (intros; rewrite list_lookup_insert_ne; naive_solver).
    unfold refill. by case_if.
Qed.

(** *** Open orders per user *)
Definition slot_user (sl : list Order) (s : nat) : UserId := default 0 (o_user <$> sl !! s).

Definition owned (sl : list Order) (loc : gmap Z nat) (u : UserId) : Z :=
  Z.of_nat (size (filter (fun e => slot_user sl e.2 = u) loc)).

Definition users_ok (sl : list Order) (loc : gmap Z nat) (counts : gmap Z Z) : Prop :=
  forall u, u <> 0 ->
    counts !! u = (if owned sl loc u =? 0 then None else Some (owned sl loc u)).

Lemma owned_insert sl loc id s u : loc !! id = None ->
  owned sl (<[id := s]> loc) u = owned sl loc u + (if slot_user sl s =? u then 1 else 0).
Proof.
  intros Hn. unfold owned. case_if.
  - rewrite map_filter_insert_True by done.
    rewrite map_size_insert_None by (apply map_lookup_filter_None; by left). lia.
  - rewrite map_filter_insert_not' by naive_solver. lia.
Qed.

Lemma owned_delete sl loc id s u : loc !! id = Some s ->
  owned sl loc u = owned sl (delete id loc) u + (if slot_user sl s =? u then 1 else 0).
Proof.
  intros H. rewrite <-(insert_delete_id loc id s H) at 1.
  apply owned_insert, lookup_delete_eq.
Qed.

Lemma owned_ext sl sl' loc u :
  (forall id s, loc !! id = Some s -> slot_user sl' s = slot_user sl s) ->
  owned sl' loc u = owned sl loc u.
Proof.
  intros H. unfold owned. f_equal. f_equal. apply map_filter_ext. intros i x Hx. simpl.
  by rewrite (H i x Hx).
Qed.

Lemma owned_nonneg sl loc u : 0 <= owned sl loc u.
Proof. unfold owned. lia. Qed.

Lemma owned_le_size sl loc u : owned sl loc u <= Z.of_nat (size loc).
Proof. unfold owned. apply inj_le, map_subseteq_size, map_filter_subseteq. Qed.

Lemma users_ext sl sl' loc counts :
  (forall id s, loc !! id = Some s -> slot_user sl' s = slot_user sl s) ->
  users_ok sl loc counts -> users_ok sl' loc counts.
Proof. intros He H u Hu. rewrite (owned_ext sl sl') by done. by apply H. Qed.

Lemma users_insert sl loc counts id s u :
  users_ok sl loc counts -> loc !! id = None -> slot_user sl s = u ->
  Z.of_nat (size loc) < U32_MAX ->
  exists counts', count_user counts u 1 = Ret counts' /\
    users_ok sl (<[id := s]> loc) counts'.
Proof.
  intros H Hn Hs Hsz. unfold count_user. pose proof (owned_le_size sl loc u).
  pose proof (owned_nonneg sl loc u).
  case_if.
  - eexists. split; [done|]. intros v Hv. rewrite (owned_insert _ _ _ _ _ Hn), Hs.
    rewrite (proj2 (Z.eqb_neq u v)), Z.add_0_r by lia. by apply H.
  - change (1 =? 1) with true. cbn match. rewrite (H u E).
    assert (default 0 (if owned sl loc u =? 0 then None else Some (owned sl loc u))
            = owned sl loc u) as -> by (case_if; simpl; lia).
    unfold checked_add. case_if; [|lia]. simpl. eexists. split; [done|].
    intros v Hv. rewrite (owned_insert _ _ _ _ _ Hn), Hs.
    destruct (decide (u = v)) as [->|Hne].
    + rewrite lookup_insert_eq, Z.eqb_refl. case_if; [lia|done].
    + rewrite lookup_insert_ne, (proj2 (Z.eqb_neq u v)), Z.add_0_r by done. by apply H.
Qed.

Lemma users_delete sl loc counts id s u :
  users_ok sl loc counts -> loc !! id = Some s -> slot_user sl s = u ->
  exists counts', count_user counts u (-1) = Ret counts' /\
    users_ok sl (delete id loc) counts'.
Proof.
  intros H Hn Hs. unfold count_user.
  pose proof (fun v => owned_delete sl loc id s v Hn) as Hd.
  pose proof (owned_nonneg sl (delete id loc) u).
  case_if.
  - eexists. split; [done|]. intros v Hv. specialize (Hd v). rewrite Hs in Hd.
    rewrite (proj2 (Z.eqb_neq u v)), Z.add_0_r in Hd by lia. by rewrite (H v Hv), Hd.
  - change (-1 =? 1) with false. change (-1 =? -1) with true. cbn match.
    pose proof (Hd u) as Hu. rewrite Hs, Z.eqb_refl in Hu. rewrite (H u E).
    case_if; [lia|]. simpl. unfold checked_sub. case_if; [|lia]. simpl.
    eexists. split; [done|]. intros v Hv. specialize (Hd v). rewrite Hs in Hd.
    destruct (decide (u = v)) as [->|Hne].
    + case_if; [rewrite lookup_delete_eq | rewrite lookup_insert_eq];
        case_if; try lia; f_equal; lia.
    + rewrite (proj2 (Z.eqb_neq u v)), Z.add_0_r in Hd by done. rewrite <-Hd, <-(H v Hv).
      case_if; [by rewrite lookup_delete_ne | by rewrite lookup_insert_ne].
Qed.

(** *** The invariant *)
Record level_ok (pl : OrderPool) (sd : Side) (p : Price) (lv : Level) : Prop := {
  lv_nodup : NoDup (orders lv);
  lv_slot : forall s, s ∈ orders lv -> s ∉ free pl /\
    exists o, slots pl !! s = Some o /\ o_side o = sd /\ o_price o = p /\ order_ok o;
  lv_qty : qty lv = sumZ o_remaining (live_orders (slots pl) (orders lv));
  lv_live : live lv = Z.of_nat (length (live_orders (slots pl) (orders lv)));
  lv_max : qty lv <= U64_MAX
}.

(** [m] is the map of levels each side's index represents.  While an operation
    is under way the level [ex] may have no live order left. *)
Record book_ok (ex : option (Side * Price)) (b : OrderBook) (m : Side -> gmap Z Level) : Prop := {
  bk_index : forall sd, index_ok (side b sd) (m sd);
  bk_level : forall sd p lv, m sd !! p = Some lv -> level_ok (pool b) sd p lv;
  bk_live : forall sd p lv, m sd !! p = Some lv -> ex <> Some (sd, p) -> 0 < live lv;
  bk_locate : forall id s, locate b !! id = Some s <->
    exists o lv, slots (pool b) !! s = Some o /\ o_id o = id /\ o_remaining o <> 0 /\
      m (o_side o) !! o_price o = Some lv /\ s ∈ orders lv;
  bk_free : NoDup (free (pool b)) /\ forall s, s ∈ free (pool b) -> is_Some (slots (pool b) !! s);
  bk_users : users_ok (slots (pool b)) (locate b) (user_counts b);
  bk_slots : Z.of_nat (length (slots (pool b))) <= U32_MAX
}.

Definition upd (m : Side -> gmap Z Level) (sd : Side) (x : gmap Z Level) : Side -> gmap Z Level :=
  fun sd' => if decide (sd' = sd) then x else m sd'.

Lemma side_cases sd sd' : sd' = sd \/ sd' = opposite sd.
Proof. destruct sd, sd'; auto. Qed.

Lemma upd_eq m sd x : upd m sd x sd = x.
Proof. unfold upd. by rewrite decide_True. Qed.

Lemma upd_ne m sd x sd' : sd' <> sd -> upd m sd x sd' = m sd'.
Proof. intros. unfold upd. by rewrite decide_False. Qed.

Lemma upd_lookup m sd p lv sd' p' :
  upd m sd (<[p := lv]> (m sd)) sd' !! p' =
  if decide ((sd', p') = (sd, p)) then Some lv else m sd' !! p'.
Proof.
  destruct (decide (sd' = sd)) as [->|Hs].
  - rewrite upd_eq. case_decide as H; simplify_eq; [apply lookup_insert_eq|].
    rewrite lookup_insert_ne; congruence.
  - rewrite upd_ne by done. rewrite decide_False; [done|congruence].
Qed.

Lemma queue_map ex b m sd p : book_ok ex b m ->
  queue b sd p = match m sd !! p with
                 | Some lv => live_orders (slots (pool b)) (orders lv)
                 | None => []
                 end.
Proof. intros H. unfold queue. by rewrite <-(ok_entry _ _ (bk_index _ _ _ H sd)). Qed.

(** A slot is in the queue of at most one level. *)
Lemma slot_level ex b m sd p lv sd' p' lv' s :
  book_ok ex b m -> m sd !! p = Some lv -> s ∈ orders lv ->
  m sd' !! p' = Some lv' -> s ∈ orders lv' -> (sd', p') = (sd, p).
Proof.
  intros H H1 Hs1 H2 Hs2.
  destruct (lv_slot _ _ _ _ (bk_level _ _ _ H _ _ _ H1) s Hs1) as (_ & o1 & Ho1 & <- & <- & _).
  destruct (lv_slot _ _ _ _ (bk_level _ _ _ H _ _ _ H2) s Hs2) as (_ & o2 & Ho2 & <- & <- & _).
  congruence.
Qed.

Lemma slot_user_update sl s o r s' :
  sl !! s = Some o -> slot_user (<[s := Order.set_remaining o r]> sl) s' = slot_user sl s'.
Proof.
  intros Ho. unfold slot_user. destruct (decide (s = s')) as [<-|Hne].
  - rewrite list_lookup_insert_eq by (by eapply lookup_lt_Some). by rewrite Ho.
  - by rewrite list_lookup_insert_ne.
Qed.

Lemma set_remaining_ok o r : order_ok o -> 0 <= r <= o_remaining o ->
  order_ok (Order.set_remaining o r).
Proof. unfold order_ok, is_u64. simpl. naive_solver lia. Qed.

(** Levels that do not hold the slot are untouched by the update of an order. *)
Lemma level_ok_frame pl pl' sd p lv :
  level_ok pl sd p lv -> free pl' = free pl ->
  (forall s, s ∈ orders lv -> slots pl' !! s = slots pl !! s) -> level_ok pl' sd p lv.
Proof.
  intros [H1 H2 H3 H4 H5] Hf Hs. pose proof (live_orders_ext _ _ _ Hs) as He.
  split; rewrite ?He; try done. intros s Hin. rewrite Hf, (Hs s Hin). by apply H2.
Qed.

Lemma resting_pos ex b m s o lv :
  book_ok ex b m -> slots (pool b) !! s = Some o -> o_remaining o <> 0 ->
  m (o_side o) !! o_price o = Some lv -> s ∈ orders lv ->
  0 < o_remaining o <= qty lv /\ 0 < live lv.
Proof.
  intros Hbk Ho Hrem Hlv Hin. pose proof (bk_level _ _ _ Hbk _ _ _ Hlv) as HL.
  assert (o ∈ live_orders (slots (pool b)) (orders lv)) as Hq by (apply live_orders_elem; eauto).
  assert (Forall (fun x => 0 <= o_remaining x) (live_orders (slots (pool b)) (orders lv))) as Hnn.
  { apply Forall_forall. intros x (sx & Hsx & Hx & _)%live_orders_elem.
    destruct (lv_slot _ _ _ _ HL sx Hsx) as (_ & y & Hy & _ & _ & Hok).
    assert (x = y) as -> by congruence. unfold order_ok, is_u64 in Hok. lia. }
  assert (0 <= o_remaining o) by (rewrite Forall_forall in Hnn; by apply Hnn).
  rewrite (lv_qty _ _ _ _ HL), (lv_live _ _ _ _ HL). split; [split; [lia|]|].
  - by apply (sumZ_elem_le o_remaining _ o).
  - apply list_elem_of_split in Hq as (? & ? & ->). rewrite length_app. simpl. lia.
Qed.

Section update.
Context (ex : option (Side * Price)) (b b' : OrderBook) (m : Side -> gmap Z Level).
Context (id : OrderId) (s : nat) (o : Order) (r : Qty) (lv lv' : Level).
Context (Hbk : book_ok ex b m) (Hloc : locate b !! id = Some s).
Context (Ho : slots (pool b) !! s = Some o) (Hr : 0 <= r <= o_remaining o).
Context (Hlv : m (o_side o) !! o_price o = Some lv) (Hin : s ∈ orders lv).
Context (Hrem : o_remaining o <> 0) (Hid : o_id o = id).
Context (Hex : ex = None \/ ex = Some (o_side o, o_price o)).
Context (Hlo : orders lv' = orders lv) (Hlq : qty lv' = qty lv - (o_remaining o - r)).
Context (Hll : live lv' = if r =? 0 then live lv - 1 else live lv).

Context (Hsl : slots (pool b') = <[s := Order.set_remaining o r]> (slots (pool b))).
Context (Hfr : free (pool b') = free (pool b)).
Context (Hsd : side b' (o_side o) = LevelIndex.put (side b (o_side o)) (o_price o) lv').
Context (Hot : side b' (opposite (o_side o)) = side b (opposite (o_side o))).
Context (Hloc' : locate b' = if r =? 0 then delete id (locate b) else locate b).
Context (Hus : users_ok (slots (pool b)) (locate b') (user_counts b')).

Let m' := upd m (o_side o) (<[o_price o := lv']> (m (o_side o))).

Lemma update_index sd : index_ok (side b' sd) (m' sd).
Proof.
  destruct (side_cases (o_side o) sd) as [-> | ->].
  - rewrite Hsd. unfold m'. rewrite upd_eq.
    by apply (put_ok _ _ _ lv); [apply (bk_index _ _ _ Hbk)|].
  - rewrite Hot. unfold m'. rewrite upd_ne by (by destruct (o_side o)).
    apply (bk_index _ _ _ Hbk).
Qed.

Lemma update_live_orders :
  exists l1 l2, live_orders (slots (pool b)) (orders lv) = l1 ++ [o] ++ l2 /\
    live_orders (slots (pool b')) (orders lv) = l1 ++ refill o r ++ l2.
Proof.
  rewrite Hsl. apply live_orders_update; try done.
  by apply (lv_nodup _ _ _ _ (bk_level _ _ _ Hbk _ _ _ Hlv)).
Qed.

Lemma update_level : level_ok (pool b') (o_side o) (o_price o) lv'.
Proof.
  pose proof (bk_level _ _ _ Hbk _ _ _ Hlv) as [H1 H2 H3 H4 H5].
  destruct update_live_orders as (l1 & l2 & E1 & E2).
  rewrite E1 in H3, H4. rewrite !sumZ_app, sumZ_cons, sumZ_nil in H3.
  rewrite !length_app in H4. cbn [length] in H4.
  split; rewrite ?Hlo, ?Hlq, ?Hll, ?E2.
  - done.
  - intros s' Hs'. rewrite Hfr, Hsl. destruct (H2 s' Hs') as (Hf & o' & Ho' & Hx).
    split; [done|]. destruct (decide (s = s')) as [<-|Hne].
    + rewrite list_lookup_insert_eq by (by eapply lookup_lt_Some).
      assert (o' = o) as -> by congruence. eexists. split; [done|]. simpl.
      split_and!; try done. apply set_remaining_ok; naive_solver.
    + rewrite list_lookup_insert_ne by done. eauto.
  - rewrite !sumZ_app. unfold refill. case_if; rewrite ?sumZ_cons, sumZ_nil; simpl; lia.
  - rewrite !length_app. unfold refill. case_if; cbn [length]; lia.
  - lia.
Qed.

Lemma update_locate id' s' : locate b' !! id' = Some s' <->
  exists o' lw, slots (pool b') !! s' = Some o' /\ o_id o' = id' /\ o_remaining o' <> 0 /\
    m' (o_side o') !! o_price o' = Some lw /\ s' ∈ orders lw.
Proof.
  rewrite Hsl, Hloc'. destruct (decide (s = s')) as [<-|Hne].
  - rewrite list_lookup_insert_eq by (by eapply lookup_lt_Some). case_if.
    + split; [|intros (o' & lw & [= <-] & _ & Hz & _); by simpl in Hz].
      intros (Hne & Hl)%lookup_delete_Some. apply (bk_locate _ _ _ Hbk) in Hl as (x & ? & Hx & <- & _).
      congruence.
    + split.
      * intros Hl. apply (bk_locate _ _ _ Hbk) in Hl as (x & ? & Hx & <- & _).
        assert (x = o) as -> by congruence. eexists _, lv'. split; [done|]. simpl.
        unfold m'. rewrite upd_lookup, decide_True by done. by rewrite Hlo.
      * intros (o' & lw & [= <-] & <- & _). simpl. congruence.
  - rewrite list_lookup_insert_ne by done.
    assert ((if r =? 0 then delete id (locate b) else locate b) !! id' = Some s' <->
            locate b !! id' = Some s') as ->.
    { case_if; [|done]. rewrite lookup_delete_Some. split; [naive_solver|].
      intros Hl. split; [|done]. intros ->. congruence. }
    rewrite (bk_locate _ _ _ Hbk). unfold m'. split.
    + intros (x & lw & Hx & Hi & Hrx & Hlw & Hinw). exists x. rewrite upd_lookup. case_decide as Hd.
      * exists lv'. injection Hd as E1 E2. rewrite Hlo. split_and!; congruence.
      * eauto 10.
    + intros (x & lw & Hx & Hi & Hrx & Hlw & Hinw). exists x. rewrite upd_lookup in Hlw.
      case_decide as Hd; [|eauto 10]. exists lv. injection Hd as E1 E2.
      injection Hlw as <-. rewrite <-Hlo. split_and!; congruence.
Qed.

Lemma update_ok : book_ok (if r =? 0 then Some (o_side o, o_price o) else ex) b' m'.
Proof.
  destruct (resting_pos _ _ _ _ _ _ Hbk Ho Hrem Hlv Hin) as [_ Hpos]. split.
  - apply update_index.
  - intros sd p lw. unfold m'. rewrite upd_lookup. case_decide as Hd; intros Hlw.
    + injection Hd as -> ->. injection Hlw as <-. apply update_level.
    + apply (level_ok_frame (pool b)); [by eapply bk_level | done |].
      intros s' Hs'. rewrite Hsl, list_lookup_insert_ne; [done|]. intros <-. apply Hd.
      by eapply (slot_level ex b m).
  - intros sd p lw. unfold m'. rewrite upd_lookup. case_decide as Hd; intros Hlw Hx.
    + injection Hd as -> ->. injection Hlw as <-. rewrite Hll. case_if; [done|lia].
    + apply (bk_live _ _ _ Hbk sd p); [done|].
      destruct Hex as [-> | ->]; congruence.
  - apply update_locate.
  - rewrite Hfr, Hsl. split; [apply (bk_free _ _ _ Hbk)|]. intros s' Hs'.
    rewrite lookup_lt_is_Some, length_insert, <-lookup_lt_is_Some. by apply (bk_free _ _ _ Hbk).
  - rewrite Hsl. eapply users_ext; [|exact Hus]. intros. by apply slot_user_update.
  - rewrite Hsl, length_insert. apply (bk_slots _ _ _ Hbk).
Qed.

Lemma update_queue :
  (exists l1 l2, queue b (o_side o) (o_price o) = l1 ++ [o] ++ l2 /\
     queue b' (o_side o) (o_price o) = l1 ++ refill o r ++ l2) /\
  forall sd p, (sd, p) <> (o_side o, o_price o) -> queue b' sd p = queue b sd p.
Proof.
  pose proof update_ok as Hbk'. split.
  - destruct update_live_orders as (l1 & l2 & E1 & E2). exists l1, l2.
    rewrite (queue_map _ _ _ _ _ Hbk), (queue_map _ _ _ _ _ Hbk'), Hlv.
    unfold m'. rewrite upd_lookup, decide_True by done. by rewrite Hlo.
  - intros sd p Hne. rewrite (queue_map _ _ _ _ _ Hbk), (queue_map _ _ _ _ _ Hbk').
    unfold m'. rewrite upd_lookup, decide_False by done.
    destruct (m sd !! p) as [lw|] eqn:Hlw; [|done]. apply live_orders_ext.
    intros s' Hs'. rewrite Hsl, list_lookup_insert_ne; [done|]. intros <-. apply Hne.
    by eapply (slot_level ex b m).
Qed.

End update.

(** *** Order ids *)
Lemma live_orders_ids sl os :
  NoDup os ->
  (forall s1 s2 o1 o2, live_at sl s1 = Some o1 -> live_at sl s2 = Some o2 ->
     s1 ∈ os -> s2 ∈ os -> o_id o1 = o_id o2 -> s1 = s2) ->
  NoDup (o_id <$> live_orders sl os).
Proof.
  intros Hnd. induction Hnd as [|s os Hs Hnd IH]; intros H; [constructor|].
  rewrite live_orders_cons. destruct (live_at sl s) as [o|] eqn:Ho.
  - simpl. constructor.
    + intros (o' & Hi & (s' & Hs' & Hl)%live_orders_elem)%list_elem_of_fmap.
      apply live_at_Some in Hl. assert (s = s') as <- by (eapply H; eauto; set_solver). done.
    + apply IH. intros s1 s2 o1 o2 ? ? ? ?. eapply H; eauto; set_solver.
  - apply IH. intros s1 s2 o1 o2 ? ? ? ?. eapply H; eauto; set_solver.
Qed.

Lemma queue_elem ex b m o sd p : book_ok ex b m -> o ∈ queue b sd p ->
  o_side o = sd /\ o_price o = p /\ order_ok o /\ o_remaining o <> 0 /\
  exists s lv, locate b !! o_id o = Some s /\ slots (pool b) !! s = Some o /\
    m sd !! p = Some lv /\ s ∈ orders lv.
Proof.
  intros Hbk. rewrite (queue_map _ _ _ _ _ Hbk). destruct (m sd !! p) as [lv|] eqn:Hlv; [|set_solver].
  intros (s & Hs & Ho & Hr)%live_orders_elem.
  destruct (lv_slot _ _ _ _ (bk_level _ _ _ Hbk _ _ _ Hlv) s Hs) as (_ & o' & Ho' & Hx).
  assert (o' = o) as -> by congruence. destruct Hx as (<- & <- & Hok).
  split_and!; try done. exists s, lv. split_and!; try done.
  apply (bk_locate _ _ _ Hbk). eauto 10.
Qed.

Lemma locate_queue ex b m id s : book_ok ex b m -> locate b !! id = Some s ->
  exists o lv, slots (pool b) !! s = Some o /\ o_id o = id /\ o_remaining o <> 0 /\ order_ok o /\
    m (o_side o) !! o_price o = Some lv /\ s ∈ orders lv /\ o ∈ queue b (o_side o) (o_price o).
Proof.
  intros Hbk Hl. apply (bk_locate _ _ _ Hbk) in Hl as (o & lv & Ho & Hi & Hr & Hlv & Hs).
  exists o, lv. split_and!; try done.
  - destruct (lv_slot _ _ _ _ (bk_level _ _ _ Hbk _ _ _ Hlv) s Hs) as (_ & o' & Ho' & _ & _ & Hok).
    congruence.
  - rewrite (queue_map _ _ _ _ _ Hbk), Hlv. apply live_orders_elem. eauto.
Qed.

Lemma queue_ids ex b m sd p : book_ok ex b m -> NoDup (o_id <$> queue b sd p).
Proof.
  intros Hbk. rewrite (queue_map _ _ _ _ _ Hbk). destruct (m sd !! p) as [lv|] eqn:Hlv; [|constructor].
  pose proof (bk_level _ _ _ Hbk _ _ _ Hlv) as HL.
  apply live_orders_ids; [apply HL|]. intros s1 s2 o1 o2 [H1 H1']%live_at_Some [H2 H2']%live_at_Some Hs1 Hs2 He.
  assert (locate b !! o_id o1 = Some s1 /\ locate b !! o_id o1 = Some s2) as []; [|congruence].
  destruct (lv_slot _ _ _ _ HL s1 Hs1) as (_ & x1 & Hx1 & E1 & F1 & _).
  destruct (lv_slot _ _ _ _ HL s2 Hs2) as (_ & x2 & Hx2 & E2 & F2 & _).
  assert (x1 = o1) as -> by congruence. assert (x2 = o2) as -> by congruence.
  split; apply (bk_locate _ _ _ Hbk); [exists o1, lv | exists o2, lv]; rewrite ?E1, ?F1, ?E2, ?F2; done.
Qed.

(** [get] finds exactly the resting orders. *)
Lemma get_order ex b m id : book_ok ex b m ->
  exists r, get b id = Ret r /\
    forall o, r = Some o <-> (o_id o = id /\ o ∈ queue b (o_side o) (o_price o)).
Proof.
  intros Hbk. unfold get. destruct (locate b !! id) as [s|] eqn:Hl.
  - destruct (locate_queue _ _ _ _ _ Hbk Hl) as (o & lv & Ho & Hi & Hr & Hok & Hlv & Hs & Hq).
    unfold OrderPool.get. rewrite Ho. simpl. eexists. split; [done|]. intros x. split.
    + intros [= <-]. done.
    + intros [Hi' Hx]. destruct (queue_elem _ _ _ _ _ _ Hbk Hx) as (_ & _ & _ & _ & s' & ? & Hl' & Hs' & _).
      congruence.
  - eexists. split; [done|]. intros x. split; [done|]. intros [<- Hx].
    destruct (queue_elem _ _ _ _ _ _ Hbk Hx) as (_ & _ & _ & _ & s' & ? & Hl' & _). congruence.
Qed.

(** *** Edits of one queue *)
(** The order [id] of the queue gets the remaining quantity [g]. *)
Definition q_edit (id : OrderId) (g : Order -> Qty) (q : list Order) : list Order :=
  q ≫= fun x => if o_id x =? id then refill x (g x) else [x].

Definition q_set (id : OrderId) (r : Qty) : list Order -> list Order := q_edit id (fun _ => r).

Definition q_fill (fill : OrderId * Qty) : list Order -> list Order :=
  q_edit fill.1 (fun x => o_remaining x - fill.2).

(** Only the queue at [sd] and [p] changed, by [f]. *)
Definition edited (b b' : OrderBook) (sd : Side) (p : Price) (f : list Order -> list Order) : Prop :=
  queue b' sd p = f (queue b sd p) /\
  forall sd' p', (sd', p') <> (sd, p) -> queue b' sd' p' = queue b sd' p'.

Lemma q_edit_cons id g x q :
  q_edit id g (x :: q) = (if o_id x =? id then refill x (g x) else [x]) ++ q_edit id g q.
Proof. done. Qed.

Lemma q_edit_app id g q1 q2 : q_edit id g (q1 ++ q2) = q_edit id g q1 ++ q_edit id g q2.
Proof. apply bind_app. Qed.

Lemma q_edit_frame id g q : id ∉ o_id <$> q -> q_edit id g q = q.
Proof.
  induction q as [|x q IH]; [done|]. intros H. rewrite fmap_cons in H.
  rewrite q_edit_cons, IH by set_solver. case_if; [set_solver|done].
Qed.

Lemma q_edit_split o g l1 l2 :
  NoDup (o_id <$> l1 ++ [o] ++ l2) ->
  q_edit (o_id o) g (l1 ++ [o] ++ l2) = l1 ++ refill o (g o) ++ l2.
Proof.
  rewrite !fmap_app. intros (_ & H1 & (_ & H2 & _)%NoDup_app)%NoDup_app.
  rewrite !q_edit_app, q_edit_cons, Z.eqb_refl, !q_edit_frame by set_solver. by rewrite app_nil_r.
Qed.

(** *** Maintenance of one level *)
Lemma side_with_side b sd ix sd' :
  side (with_side b sd ix) sd' = if decide (sd' = sd) then ix else side b sd'.
Proof. by destruct sd, sd'. Qed.

Lemma pool_with_side b sd ix : pool (with_side b sd ix) = pool b.
Proof. by destruct sd. Qed.

Lemma locate_with_side b sd ix : locate (with_side b sd ix) = locate b.
Proof. by destruct sd. Qed.

Lemma counts_with_side b sd ix : user_counts (with_side b sd ix) = user_counts b.
Proof. by destruct sd. Qed.

Lemma side_with_pool b p sd : side (with_pool b p) sd = side b sd.
Proof. by destruct sd. Qed.

Section maintain.
Context (ex : option (Side * Price)) (b : OrderBook) (m : Side -> gmap Z Level).
Context (sd : Side) (p : Price) (lv lv' : Level) (pl : OrderPool).
Context (Hbk : book_ok ex b m) (Hlv : m sd !! p = Some lv).
Context (Hsw : swept (pool b) pl (orders lv) (orders lv')).
Context (Hlive : live lv' = live lv) (Hqty : live lv <> 0 -> qty lv' = qty lv).

Lemma maintain_slots : slots pl = slots (pool b).
Proof. by destruct Hsw as (d & H & _). Qed.

Lemma maintain_live_orders :
  live_orders (slots pl) (orders lv') = live_orders (slots (pool b)) (orders lv).
Proof.
  destruct Hsw as (d & -> & _ & _ & _ & Hf).
  rewrite <-(live_orders_filter _ (orders lv')), <-(live_orders_filter _ (orders lv)). by rewrite Hf.
Qed.

Lemma maintain_level_ok : live lv <> 0 -> level_ok pl sd p lv'.
Proof.
  intros Hn. destruct (bk_level _ _ _ Hbk _ _ _ Hlv) as [H1 H2 H3 H4 H5].
  destruct Hsw as (d & Hs & Hf & Hp & Hd & _).
  rewrite Hp in H1. apply NoDup_app in H1 as (_ & Hdis & Hnd).
  split; rewrite ?maintain_live_orders, ?Hlive, ?Hqty by done; try done.
  intros s Hin. destruct (H2 s) as (Hnf & Hx); [rewrite Hp; set_solver|].
  rewrite Hs, Hf. split; [|done]. intros [H|H]%elem_of_app; [|done]. by apply (Hdis s).
Qed.

Lemma maintain_frame sd' p' lw :
  (sd', p') <> (sd, p) -> m sd' !! p' = Some lw -> level_ok pl sd' p' lw.
Proof.
  intros Hne Hlw. destruct (bk_level _ _ _ Hbk _ _ _ Hlw) as [H1 H2 H3 H4 H5].
  destruct Hsw as (d & Hs & Hf & Hp & Hd & _).
  split; rewrite ?Hs; try done. intros s Hin. destruct (H2 s Hin) as (Hnf & Hx).
  split; [|done]. rewrite Hf. intros [H|H]%elem_of_app; [|done].
  apply Hne. eapply (slot_level ex b m); [done | exact Hlv | | exact Hlw | done]. rewrite Hp. set_solver.
Qed.

Lemma maintain_member s : slot_live (slots (pool b)) s -> s ∈ orders lv' <-> s ∈ orders lv.
Proof.
  intros Hl. destruct Hsw as (d & _ & _ & _ & _ & Hf).
  split; intros H.
  - assert (s ∈ filter (slot_live (slots (pool b))) (orders lv')) as Hi by (by apply list_elem_of_filter).
    rewrite Hf in Hi. by apply list_elem_of_filter in Hi as [_ ?].
  - assert (s ∈ filter (slot_live (slots (pool b))) (orders lv)) as Hi by (by apply list_elem_of_filter).
    rewrite <-Hf in Hi. by apply list_elem_of_filter in Hi as [_ ?].
Qed.

Lemma maintain_free : NoDup (free pl) /\ forall s, s ∈ free pl -> is_Some (slots pl !! s).
Proof.
  destruct Hsw as (d & Hs & Hf & Hp & Hd & _). destruct (bk_free _ _ _ Hbk) as [Hnd Hv].
  destruct (bk_level _ _ _ Hbk _ _ _ Hlv) as [H1 H2 _ _ _].
  rewrite Hp in H1. apply NoDup_app in H1 as (Hdn & _ & _). rewrite Hs. split.
  - rewrite Hf. apply NoDup_app. split_and!; try done. intros s Hin.
    apply H2. rewrite Hp. set_solver.
  - intros s. rewrite Hf. intros [Hin|Hin]%elem_of_app; [|by apply Hv].
    destruct (H2 s) as (_ & o & Ho & _); [rewrite Hp; set_solver|eauto].
Qed.

Context (ix : LevelIndex) (Hex : ex = None \/ ex = Some (sd, p)).
Context (Hix : index_ok ix (if live lv =? 0 then delete p (m sd) else <[p := lv']> (m sd))).
Let m' := upd m sd (if live lv =? 0 then delete p (m sd) else <[p := lv']> (m sd)).
Let b' := with_pool (with_side b sd ix) pl.

Lemma maintain_lookup sd' p' :
  m' sd' !! p' = if decide ((sd', p') = (sd, p)) then (if live lv =? 0 then None else Some lv')
                 else m sd' !! p'.
Proof.
  unfold m'. destruct (decide (sd' = sd)) as [->|Hs].
  - rewrite upd_eq. case_if; case_decide as Hd; simplify_eq;
      rewrite ?lookup_delete_eq, ?lookup_insert_eq; try done.
    + rewrite lookup_delete_ne; congruence.
    + rewrite lookup_insert_ne; congruence.
  - rewrite upd_ne by done. by rewrite decide_False by congruence.
Qed.

Lemma maintain_locate id s : locate b !! id = Some s <->
  exists o lw, slots pl !! s = Some o /\ o_id o = id /\ o_remaining o <> 0 /\
    m' (o_side o) !! o_price o = Some lw /\ s ∈ orders lw.
Proof.
  rewrite (bk_locate _ _ _ Hbk), maintain_slots.
  split; intros (o & lw & Ho & Hi & Hr & Hlw & Hin); exists o; rewrite maintain_lookup in *;
    case_decide as Hd; eauto 10.
  - injection Hd as E1 E2. assert (lw = lv) as -> by congruence. case_if.
    + rewrite (lv_live _ _ _ _ (bk_level _ _ _ Hbk _ _ _ Hlv)) in E.
      assert (o ∈ live_orders (slots (pool b)) (orders lv)) as Hx by (apply live_orders_elem; eauto).
      destruct (live_orders _ _); [set_solver|done].
    + exists lv'. split_and!; try done. apply maintain_member; [by exists o|done].
  - injection Hd as E1 E2. revert Hlw. case_if; [done|]. intros [= <-]. exists lv.
    split_and!; try done; [congruence|]. apply maintain_member; [by exists o|done].
Qed.

Lemma maintain_book_ok : book_ok None b' m'.
Proof.
  unfold b'. split; simpl; rewrite ?pool_with_side, ?locate_with_side, ?counts_with_side.
  - intros sd'. rewrite side_with_pool, side_with_side. unfold m', upd. case_decide; [done|].
    apply (bk_index _ _ _ Hbk).
  - intros sd' p' lw. rewrite maintain_lookup. case_decide as Hd.
    + case_if; [done|]. injection Hd as E1 E2. rewrite E1, E2. intros [= <-]. by apply maintain_level_ok.
    + by apply maintain_frame.
  - intros sd' p' lw. rewrite maintain_lookup. case_decide as Hd.
    + case_if; [done|]. intros [= <-] _. rewrite Hlive.
      rewrite (lv_live _ _ _ _ (bk_level _ _ _ Hbk _ _ _ Hlv)) in *. lia.
    + intros Hlw _. apply (bk_live _ _ _ Hbk _ _ _ Hlw). destruct Hex as [-> | ->]; congruence.
  - apply maintain_locate.
  - apply maintain_free.
  - rewrite maintain_slots. apply (bk_users _ _ _ Hbk).
  - rewrite maintain_slots. apply (bk_slots _ _ _ Hbk).
Qed.

Lemma maintain_queue sd' p' : queue b' sd' p' = queue b sd' p'.
Proof.
  rewrite (queue_map _ _ _ _ _ Hbk), (queue_map _ _ _ _ _ maintain_book_ok), maintain_lookup.
  unfold b'. simpl. case_decide as Hd.
  - injection Hd as -> ->. rewrite Hlv. case_if; [|apply maintain_live_orders].
    rewrite (lv_live _ _ _ _ (bk_level _ _ _ Hbk _ _ _ Hlv)) in E.
    by destruct (live_orders _ _).
  - by rewrite maintain_slots.
Qed.

End maintain.

Lemma maintain_book ex b m sd p lv :
  book_ok ex b m -> ex = None \/ ex = Some (sd, p) -> m sd !! p = Some lv ->
  exists ix pl m', LevelIndex.maintain_level (side b sd) p (pool b) = Ret (ix, pl) /\
    slots pl = slots (pool b) /\
    book_ok None (with_pool (with_side b sd ix) pl) m' /\
    forall sd' p', queue (with_pool (with_side b sd ix) pl) sd' p' = queue b sd' p'.
Proof.
  intros Hbk Hex Hlv. pose proof (bk_level _ _ _ Hbk _ _ _ Hlv) as HL.
  destruct (maintain_ok (side b sd) (m sd) p lv (pool b)) as
    (ix & pl & lv' & Hm & Hsw & Hlive & Hq & He & Hix); [apply (bk_index _ _ _ Hbk) | done | | |].
  - apply Forall_forall. intros s Hs. destruct (lv_slot _ _ _ _ HL s Hs) as (_ & o & Ho & _). eauto.
  - intros H0. apply live_orders_dead. rewrite (lv_live _ _ _ _ HL) in H0.
    by destruct (live_orders _ _).
  - exists ix, pl. eexists. split; [done|]. split; [by eapply maintain_slots|].
    split; [by eapply maintain_book_ok|]. intros. by eapply maintain_queue.
Qed.

(** *** Operations on one resting order *)
Lemma book_ok_hole b m e : book_ok None b m -> book_ok (Some e) b m.
Proof. intros [H1 H2 H3 H4 H5 H6 H7]. split; try done. intros sd p lv Hlv _. by eapply H3. Qed.

Lemma level_get ex b m sd p lv : book_ok ex b m -> m sd !! p = Some lv -> 0 < live lv ->
  LevelIndex.get (side b sd) p = Some lv.
Proof.
  intros Hbk Hlv Hl. rewrite (get_ok _ _ _ (bk_index _ _ _ Hbk sd)), Hlv. by case_if; [|lia].
Qed.

Lemma slot_user_at sl s o : sl !! s = Some o -> slot_user sl s = o_user o.
Proof. intros H. unfold slot_user. by rewrite H. Qed.

(** The book after the order [o] in slot [s] of the level [lv] was given the
    remaining quantity [r], with the per-user counters [counts]. *)
Definition updated (b : OrderBook) (s : nat) (o : Order) (r : Qty) (lv : Level) (counts : gmap Z Z)
  : OrderBook :=
  let lv' := mkLevel (orders lv) (qty lv - (o_remaining o - r))
               (if r =? 0 then live lv - 1 else live lv) in
  let b := with_side b (o_side o) (LevelIndex.put (side b (o_side o)) (o_price o) lv') in
  mkBook (mkPool (<[s := Order.set_remaining o r]> (slots (pool b))) (free (pool b)))
    (bids b) (asks b) (if r =? 0 then delete (o_id o) (locate b) else locate b) counts.

Lemma updated_side b s o r lv counts :
  side (updated b s o r lv counts) (o_side o) =
  LevelIndex.put (side b (o_side o)) (o_price o)
    (mkLevel (orders lv) (qty lv - (o_remaining o - r)) (if r =? 0 then live lv - 1 else live lv)).
Proof. unfold updated. by destruct (o_side o). Qed.

Lemma updated_pool b s o r lv counts :
  pool (updated b s o r lv counts) =
  mkPool (<[s := Order.set_remaining o r]> (slots (pool b))) (free (pool b)).
Proof. unfold updated. simpl. by rewrite pool_with_side. Qed.

Lemma updated_locate b s o r lv counts :
  locate (updated b s o r lv counts) = if r =? 0 then delete (o_id o) (locate b) else locate b.
Proof. unfold updated. simpl. by rewrite locate_with_side. Qed.

Lemma edited_eq b b1 b2 sd p f :
  edited b b1 sd p f -> (forall sd' p', queue b2 sd' p' = queue b1 sd' p') -> edited b b2 sd p f.
Proof. intros [H1 H2] H. split; [by rewrite H|]. intros. rewrite H. by apply H2. Qed.

Lemma updated_ok ex b m s o r lv counts g :
  book_ok ex b m -> ex = None \/ ex = Some (o_side o, o_price o) ->
  locate b !! o_id o = Some s -> slots (pool b) !! s = Some o ->
  m (o_side o) !! o_price o = Some lv -> s ∈ orders lv -> o_remaining o <> 0 ->
  0 <= r <= o_remaining o -> g o = r ->
  (if r =? 0 then users_ok (slots (pool b)) (delete (o_id o) (locate b)) counts
   else counts = user_counts b) ->
  let b' := updated b s o r lv counts in
  exists m', book_ok (if r =? 0 then Some (o_side o, o_price o) else ex) b' m' /\
    edited b b' (o_side o) (o_price o) (q_edit (o_id o) g) /\
    is_Some (m' (o_side o) !! o_price o).
Proof.
  intros Hbk Hex Hl Ho Hlv Hin Hrem Hr Hg Hc b'.
  set (lv' := mkLevel (orders lv) (qty lv - (o_remaining o - r))
                (if r =? 0 then live lv - 1 else live lv)).
  assert (slots (pool b') = <[s := Order.set_remaining o r]> (slots (pool b))) as H1
    by (unfold b', updated; simpl; by rewrite pool_with_side).
  assert (free (pool b') = free (pool b)) as H2
    by (unfold b', updated; simpl; by rewrite pool_with_side).
  assert (locate b' = if r =? 0 then delete (o_id o) (locate b) else locate b) as H3
    by (unfold b', updated; simpl; by rewrite locate_with_side).
  assert (side b' (o_side o) = LevelIndex.put (side b (o_side o)) (o_price o) lv' /\
          side b' (opposite (o_side o)) = side b (opposite (o_side o))) as [H4 H5]
    by (unfold b', updated; by destruct (o_side o)).
  assert (users_ok (slots (pool b)) (locate b') (user_counts b')) as H6.
  { rewrite H3. unfold b', updated. simpl. case_if; [done|]. rewrite Hc. apply (bk_users _ _ _ Hbk). }
  eexists. split; [|split].
  - eapply (update_ok ex b b' m (o_id o) s o r lv lv'); done.
  - destruct (update_queue ex b b' m (o_id o) s o r lv lv') as [(l1 & l2 & E1 & E2) Hfr]; try done.
    split; [|done]. rewrite E1, E2, q_edit_split, Hg; [done|].
    rewrite <-E1. by eapply queue_ids.
  - rewrite upd_eq, lookup_insert_eq. done.
Qed.

(** [apply_fill] on an order of the queue. *)
Lemma apply_fill_ok ex b m sd p o n :
  book_ok ex b m -> ex = None \/ ex = Some (sd, p) -> o ∈ queue b sd p ->
  0 < n <= o_remaining o ->
  exists b' m', apply_fill sd p b (o_id o, n) = Ret b' /\ book_ok (Some (sd, p)) b' m' /\
    edited b b' sd p (q_fill (o_id o, n)) /\
    length (slots (pool b')) = length (slots (pool b)) /\
    is_Some (m' sd !! p).
Proof.
  intros Hbk Hex Hq Hn.
  destruct (queue_elem _ _ _ _ _ _ Hbk Hq) as (<- & <- & Hok & Hr & s & lv & Hl & Hs & Hlv & Hin).
  destruct (resting_pos _ _ _ s o lv Hbk Hs Hr Hlv Hin) as [Hpos Hlive].
  set (r := o_remaining o - n).
  assert (exists counts, (if r =? 0 then count_user (user_counts b) (o_user o) (-1)
      else Ret (user_counts b)) = Ret counts /\
    (if r =? 0 then users_ok (slots (pool b)) (delete (o_id o) (locate b)) counts
     else counts = user_counts b)) as (counts & Hc & Hu).
  { case_if; [|eauto]. eapply users_delete; [apply (bk_users _ _ _ Hbk) | done |].
    by apply slot_user_at. }
  destruct (updated_ok ex b m s o r lv counts (fun x => o_remaining x - n)) as (m' & Hbk' & Hed & Hs');
    try done; [lia|].
  exists (updated b s o r lv counts), m'. split; [|split_and!; try done].
  - unfold apply_fill, assert_that. rewrite Hl. case_if; [|lia]. simpl.
    unfold OrderPool.get, OrderPool.set_remaining. rewrite Hs. simpl.
    rewrite bool_decide_true, Z.eqb_refl by done. simpl. case_if; [|lia].
    rewrite (level_get _ _ _ _ _ _ Hbk Hlv Hlive). simpl.
    unfold checked_sub. fold r. case_if; [|lia]. simpl.
    assert ((if n =? o_remaining o
             then expect (if 1 <=? live lv then Some (live lv - 1) else None) "level live-count underflow"
             else Ret (live lv)) = Ret (if r =? 0 then live lv - 1 else live lv)) as ->.
    { unfold r. destruct (Z.eqb_spec n (o_remaining o)); repeat case_if; done || lia. }
    simpl. case_if; [|lia]. simpl. rewrite pool_with_side, Hs. simpl.
    rewrite locate_with_side, counts_with_side.
    unfold updated. replace (qty lv - (o_remaining o - r)) with (qty lv - n) by lia.
    destruct (r =? 0); [rewrite Hc; simpl | injection Hc as <-]; by destruct (o_side o).
  - destruct (r =? 0); [done|]. destruct Hex as [-> | ->]; [by apply book_ok_hole|done].
  - unfold updated. simpl. by rewrite length_insert, pool_with_side.
Qed.

(** [cancel] removes exactly the order asked for. *)
Lemma cancel_ok b m id s :
  book_ok None b m -> locate b !! id = Some s ->
  exists o b' m', cancel b id = Ret (b', Some o) /\ o_id o = id /\ o ∈ queue b (o_side o) (o_price o) /\
    book_ok None b' m' /\ edited b b' (o_side o) (o_price o) (q_set id 0) /\
    length (slots (pool b')) = length (slots (pool b)) /\ locate b' = delete id (locate b).
Proof.
  intros Hbk Hl.
  destruct (locate_queue _ _ _ _ _ Hbk Hl) as (o & lv & Ho & <- & Hr & Hok & Hlv & Hin & Hq).
  destruct (resting_pos _ _ _ s o lv Hbk Ho Hr Hlv Hin) as [Hpos Hlive].
  destruct (users_delete (slots (pool b)) (locate b) (user_counts b) (o_id o) s (o_user o))
    as (counts & Hc & Hu); [apply (bk_users _ _ _ Hbk) | done | by apply slot_user_at |].
  destruct (updated_ok None b m s o 0 lv counts (fun _ => 0)) as (m1 & Hbk1 & Hed & lv1 & Hlv1);
    try done; [by left | lia |]. simpl in Hbk1.
  destruct (maintain_book _ _ _ (o_side o) (o_price o) lv1 Hbk1 (or_intror eq_refl) Hlv1)
    as (ix & pl & m2 & Hm & Hsl & Hbk2 & Hq2).
  exists o. eexists _, m2. split_and!; [|done|done|exact Hbk2| | |].
  - unfold cancel, assert_that. rewrite Hl. simpl. unfold OrderPool.get, OrderPool.set_remaining.
    rewrite Ho. simpl. case_if; [|lia]. simpl.
    assert (forall bb, side (with_pool (with_locate b (delete (o_id o) (locate b))) bb) (o_side o)
                       = side b (o_side o)) as -> by (by destruct (o_side o)).
    rewrite (level_get _ _ _ _ _ _ Hbk Hlv Hlive). simpl.
    unfold checked_sub. case_if; [|lia]. simpl. case_if; [|lia]. simpl.
    rewrite updated_side, updated_pool, Z.sub_0_r in Hm. simpl in Hm. rewrite Hm. simpl.
    rewrite counts_with_side. simpl. rewrite Hc. simpl. unfold updated. simpl. by destruct (o_side o).
  - by eapply edited_eq.
  - simpl. rewrite Hsl, updated_pool. cbn [slots]. by rewrite length_insert.
  - simpl. by rewrite locate_with_side, updated_locate.
Qed.

Lemma cancel_missing b id : locate b !! id = None -> cancel b id = Ret (b, None).
Proof. intros H. unfold cancel. by rewrite H. Qed.

(** [reduce] shrinks the order in place: its place in the queue is kept. *)
Lemma reduce_ok b m id s o n :
  book_ok None b m -> locate b !! id = Some s -> slots (pool b) !! s = Some o -> 0 <= n ->
  exists b' m', reduce b id n = Ret (b', n <=? o_remaining o) /\ book_ok None b' m' /\
    edited b b' (o_side o) (o_price o) (if n <=? o_remaining o then q_set id n else fun q => q) /\
    length (slots (pool b')) = length (slots (pool b)) /\
    locate b' = if n =? 0 then delete id (locate b) else locate b.
Proof.
  intros Hbk Hl Ho Hn.
  destruct (locate_queue _ _ _ _ _ Hbk Hl) as (o' & lv & Ho' & <- & Hr & Hok & Hlv & Hin & Hq).
  assert (o' = o) as -> by congruence.
  destruct (resting_pos _ _ _ s o lv Hbk Ho Hr Hlv Hin) as [Hpos Hlive].
  unfold reduce. rewrite Hl. destruct (Z.eqb_spec n 0) as [->|Hn0].
  - destruct (cancel_ok _ _ _ _ Hbk Hl) as (o1 & b1 & m1 & -> & Hi & Hq1 & Hbk1 & Hed & Hlen & Hloc).
    assert (o1 = o) as ->.
    { destruct (queue_elem _ _ _ _ _ _ Hbk Hq1) as (_ & _ & _ & _ & s1 & ? & Hl1 & Hs1 & _). congruence. }
    simpl. exists b1, m1. case_if; [|lia]. done.
  - unfold OrderPool.get, OrderPool.set_remaining. rewrite Ho. simpl.
    destruct (Z.leb_spec n (o_remaining o)) as [Hle|Hgt].
    + case_if; [lia|]. unfold checked_sub. case_if; [|lia]. simpl. rewrite side_with_pool.
      rewrite (level_get _ _ _ _ _ _ Hbk Hlv Hlive). case_if; [|lia]. simpl.
      destruct (updated_ok None b m s o n lv (user_counts b) (fun _ => n)) as (m1 & Hbk1 & Hed & _);
        try done; [by left | by case_if |]. revert Hbk1. case_if; [done|]. intros Hbk1.
      exists (updated b s o n lv (user_counts b)), m1. split_and!; try done.
      * unfold updated. case_if; [done|]. by destruct (o_side o).
      * rewrite updated_pool. cbn [slots]. by rewrite length_insert.
      * rewrite updated_locate. by case_if.
    + case_if; [|lia]. exists b, m. done.
Qed.

(** *** Insertion *)
Lemma nodup_bounded (l : list nat) n : NoDup l -> (forall s, s ∈ l -> (s < n)%nat) -> (length l <= n)%nat.
Proof.
  intros Hnd H. rewrite <-(length_seq n 0). apply submseteq_length, NoDup_submseteq; [done|].
  intros s Hs. apply elem_of_seq. specialize (H s Hs). lia.
Qed.

Lemma locate_size ex b m : book_ok ex b m -> (size (locate b) <= length (slots (pool b)))%nat.
Proof.
  intros Hbk. rewrite <-length_map_to_list, <-(length_fmap snd). apply nodup_bounded.
  - apply NoDup_fmap_2_strong; [|apply NoDup_map_to_list].
    intros [i s] [j t] Hi Hj Hst. simpl in Hst. subst t. apply elem_of_map_to_list in Hi, Hj.
    apply (bk_locate _ _ _ Hbk) in Hi as (o & ? & Ho & <- & _).
    apply (bk_locate _ _ _ Hbk) in Hj as (o' & ? & Ho' & <- & _). congruence.
  - intros s ([i t] & -> & Hi)%list_elem_of_fmap. apply elem_of_map_to_list in Hi.
    apply (bk_locate _ _ _ Hbk) in Hi as (o & ? & Ho & _). by eapply lookup_lt_Some.
Qed.

Lemma level_length ex b m sd p lv : book_ok ex b m -> m sd !! p = Some lv ->
  (length (orders lv) <= length (slots (pool b)))%nat.
Proof.
  intros Hbk Hlv. pose proof (bk_level _ _ _ Hbk _ _ _ Hlv) as HL.
  apply nodup_bounded; [apply HL|]. intros s Hs.
  destruct (lv_slot _ _ _ _ HL s Hs) as (_ & o & Ho & _). by eapply lookup_lt_Some.
Qed.

(** [alloc] stores the order in a slot that no level holds. *)
Lemma alloc_ok ex b m o :
  book_ok ex b m -> Z.of_nat (length (slots (pool b))) < U32_MAX ->
  exists pl i, OrderPool.alloc (pool b) o = Ret (pl, i) /\ slots pl !! i = Some o /\
    (forall j, j <> i -> slots pl !! j = slots (pool b) !! j) /\
    (forall j, j ∈ free pl -> j ∈ free (pool b) /\ j <> i) /\ NoDup (free pl) /\
    (length (slots pl) <= S (length (slots (pool b))))%nat /\
    (forall sd p lv, m sd !! p = Some lv -> i ∉ orders lv).
Proof.
  intros Hbk Hroom. destruct (bk_free _ _ _ Hbk) as [Hnd Hv]. unfold OrderPool.alloc.
  destruct (free (pool b)) as [|i fr] eqn:Hf.
  - eexists _, _. split; [done|].
    assert (OrderPool.as_u32 (length (slots (pool b) ++ [o]) - 1) = length (slots (pool b))) as ->.
    { unfold OrderPool.as_u32. rewrite length_app. simpl.
      rewrite wrap32_small; unfold_width; lia. }
    simpl. split_and!.
    + by rewrite lookup_app_r, Nat.sub_diag by lia.
    + intros j Hj. destruct (decide (j < length (slots (pool b)))%nat).
      * by rewrite lookup_app_l.
      * rewrite !lookup_ge_None_2; [done|lia|]. rewrite length_app. simpl. lia.
    + set_solver.
    + constructor.
    + rewrite length_app. simpl. lia.
    + intros sd p lv Hlv Hin.
      destruct (lv_slot _ _ _ _ (bk_level _ _ _ Hbk _ _ _ Hlv) _ Hin) as (_ & x & Hx & _).
      apply lookup_lt_Some in Hx. lia.
  - destruct (Hv i) as [x Hx]; [set_solver|]. rewrite Hx. apply NoDup_cons in Hnd as [Hi Hnd].
    eexists _, _. split; [done|]. simpl. split_and!; try done.
    + rewrite list_lookup_insert_eq; [done|]. by eapply lookup_lt_Some.
    + intros j Hj. by rewrite list_lookup_insert_ne.
    + intros j Hj. split; [set_solver|]. intros ->. done.
    + rewrite length_insert. lia.
    + intros sd p lv Hlv Hin.
      destruct (lv_slot _ _ _ _ (bk_level _ _ _ Hbk _ _ _ Hlv) _ Hin) as (Hn & _).
      rewrite Hf in Hn. set_solver.
Qed.

Section insertion.
Context (b b' : OrderBook) (m : Side -> gmap Z Level) (o : Order) (pl : OrderPool) (i : nat).
Context (Hbk : book_ok None b m) (Hok : order_ok o) (Hrem : 0 < o_remaining o).
Context (Hfresh : locate b !! o_id o = None).
Context (Hmax : sumZ o_remaining (queue b (o_side o) (o_price o)) + o_remaining o <= U64_MAX).
Context (Hi : slots pl !! i = Some o) (Hj : forall j, j <> i -> slots pl !! j = slots (pool b) !! j).
Context (Hf : forall j, j ∈ free pl -> j ∈ free (pool b) /\ j <> i) (Hnd : NoDup (free pl)).
Context (Hlen : Z.of_nat (length (slots pl)) <= U32_MAX).
Context (Hnew : forall sd p lv, m sd !! p = Some lv -> i ∉ orders lv).

Lemma insert_live_orders sd p lw : m sd !! p = Some lw ->
  live_orders (slots pl) (orders lw) = live_orders (slots (pool b)) (orders lw).
Proof. intros Hlw. apply live_orders_ext. intros s Hs. apply Hj. intros ->. by eapply Hnew. Qed.

Lemma insert_frame sd p lw : m sd !! p = Some lw -> level_ok pl sd p lw.
Proof.
  intros Hlw. destruct (bk_level _ _ _ Hbk _ _ _ Hlw) as [H1 H2 H3 H4 H5].
  split; rewrite ?(insert_live_orders sd p lw Hlw); try done.
  intros s Hs. destruct (H2 s Hs) as (Hn & x & Hx). split; [naive_solver|].
  exists x. rewrite Hj; [done|]. intros ->. by eapply Hnew.
Qed.

Let lv := default Level_default (m (o_side o) !! o_price o).

Lemma insert_old_level :
  live_orders (slots pl) (orders lv) = queue b (o_side o) (o_price o) /\
  qty lv = sumZ o_remaining (queue b (o_side o) (o_price o)) /\
  live lv = Z.of_nat (length (queue b (o_side o) (o_price o))) /\
  NoDup (orders lv) /\ i ∉ orders lv /\
  forall s, s ∈ orders lv -> s ∉ free pl /\
    exists x, slots pl !! s = Some x /\ o_side x = o_side o /\ o_price x = o_price o /\ order_ok x.
Proof.
  rewrite (queue_map _ _ _ _ _ Hbk). unfold lv.
  destruct (m (o_side o) !! o_price o) as [lw|] eqn:Hlw; simpl.
  - rewrite <-(insert_live_orders _ _ _ Hlw). destruct (insert_frame _ _ _ Hlw) as [H1 H2 H3 H4 H5].
    split_and!; try done. by eapply Hnew.
  - split_and!; try done; [constructor | set_solver | set_solver].
Qed.

Let lv' := mkLevel (orders lv ++ [i]) (qty lv + o_remaining o) (live lv + 1).
Let m' := upd m (o_side o) (<[o_price o := lv']> (m (o_side o))).

Context (Hsd : index_ok (side b' (o_side o)) (<[o_price o := lv']> (m (o_side o)))).
Context (Hot : side b' (opposite (o_side o)) = side b (opposite (o_side o))).
Context (Hpl : pool b' = pl) (Hloc : locate b' = <[o_id o := i]> (locate b)).
Context (Hus : users_ok (slots pl) (locate b') (user_counts b')).

Lemma insert_level : level_ok pl (o_side o) (o_price o) lv'.
Proof.
  destruct insert_old_level as (E1 & E2 & E3 & E4 & E5 & E6).
  assert (live_orders (slots pl) (orders lv') = queue b (o_side o) (o_price o) ++ [o]) as E7.
  { unfold lv'. simpl. rewrite live_orders_app, E1. f_equal. unfold live_orders. simpl.
    unfold live_at. rewrite Hi. by case_if; [lia|]. }
  split; rewrite ?E7; unfold lv'; simpl.
  - apply NoDup_app. split_and!; [done | set_solver | apply NoDup_singleton].
  - intros s [Hs|Hs]%elem_of_app; [by apply E6|]. apply list_elem_of_singleton in Hs as ->.
    split; [naive_solver|]. exists o. done.
  - rewrite sumZ_app, sumZ_cons, sumZ_nil. lia.
  - rewrite length_app. simpl. lia.
  - lia.
Qed.

Lemma insert_locate id s : locate b' !! id = Some s <->
  exists x lw, slots pl !! s = Some x /\ o_id x = id /\ o_remaining x <> 0 /\
    m' (o_side x) !! o_price x = Some lw /\ s ∈ orders lw.
Proof.
  rewrite Hloc, lookup_insert_Some. unfold m'. split.
  - intros [[<- <-]|[Hne Hl]].
    + exists o, lv'. rewrite upd_lookup, decide_True by done. split_and!; try done; [lia|].
      unfold lv'. simpl. set_solver.
    + apply (bk_locate _ _ _ Hbk) in Hl as (x & lw & Hx & Hid & Hr & Hlw & Hin). exists x.
      assert (s <> i) by (intros ->; by eapply Hnew). rewrite Hj, upd_lookup by done.
      case_decide as Hd; [|eauto 10]. exists lv'. split_and!; try done.
      injection Hd as E1 E2. rewrite E1, E2 in Hlw. unfold lv', lv. rewrite Hlw. simpl. set_solver.
  - intros (x & lw & Hx & Hid & Hr & Hlw & Hin). destruct (decide (s = i)) as [->|Hne].
    + left. split; [|done]. congruence.
    + right. rewrite Hj in Hx by done.
      assert (locate b !! id = Some s) as Hl; [|split; [|done]; intros <-; congruence].
      apply (bk_locate _ _ _ Hbk). exists x. rewrite upd_lookup in Hlw. case_decide as Hd; [|eauto 10].
      injection Hd as E1 E2. injection Hlw as <-. unfold lv' in Hin. simpl in Hin. unfold lv in Hin.
      rewrite E1, E2. destruct (m (o_side o) !! o_price o) as [lw|]; [|set_solver].
      exists lw. split_and!; try done. simpl in Hin. set_solver.
Qed.

Lemma insert_book_ok : book_ok None b' m'.
Proof.
  destruct insert_old_level as (E1 & E2 & E3 & _). split; rewrite ?Hpl.
  - intros sd. destruct (side_cases (o_side o) sd) as [-> | ->]; unfold m'.
    + by rewrite upd_eq.
    + rewrite upd_ne, Hot by (by destruct (o_side o)). apply (bk_index _ _ _ Hbk).
  - intros sd p lw. unfold m'. rewrite upd_lookup. case_decide as Hd.
    + injection Hd as -> ->. intros [= <-]. apply insert_level.
    + apply insert_frame.
  - intros sd p lw. unfold m'. rewrite upd_lookup. case_decide as Hd.
    + intros [= <-] _. unfold lv'. simpl. lia.
    + intros Hlw _. by apply (bk_live _ _ _ Hbk sd p).
  - apply insert_locate.
  - split; [done|]. intros s Hs. apply Hf in Hs as [Hs Hne]. rewrite Hj by done.
    by apply (bk_free _ _ _ Hbk).
  - done.
  - done.
Qed.

Lemma insert_queue : edited b b' (o_side o) (o_price o) (fun q => q ++ [o]).
Proof.
  split.
  - rewrite (queue_map _ _ _ _ _ insert_book_ok). unfold m'. rewrite upd_lookup, decide_True, Hpl by done.
    destruct insert_old_level as (E1 & _). unfold lv'. simpl. rewrite live_orders_app, E1. f_equal.
    unfold live_orders. simpl. unfold live_at. rewrite Hi. by case_if; [lia|].
  - intros sd p Hne. rewrite (queue_map _ _ _ _ _ insert_book_ok), (queue_map _ _ _ _ _ Hbk).
    unfold m'. rewrite upd_lookup, decide_False, Hpl by done.
    destruct (m sd !! p) as [lw|] eqn:Hlw; [by apply (insert_live_orders sd p)|done].
Qed.

End insertion.

(** [try_insert] refuses a zero-quantity or duplicate order and otherwise
    appends the order to its queue. *)
Lemma try_insert_refused b o :
  o_remaining o = 0 \/ is_Some (locate b !! o_id o) -> try_insert b o = Ret (b, false).
Proof.
  intros H. unfold try_insert. case_if; [done|]. exfalso. destruct H as [H|H]; [lia|].
  rewrite bool_decide_eq_false in H1. done.
Qed.

Lemma try_insert_ok b m o :
  book_ok None b m -> order_ok o -> 0 < o_remaining o -> locate b !! o_id o = None ->
  sumZ o_remaining (queue b (o_side o) (o_price o)) + o_remaining o <= U64_MAX ->
  Z.of_nat (length (slots (pool b))) < U32_MAX ->
  exists b' m' i, try_insert b o = Ret (b', true) /\ book_ok None b' m' /\
    edited b b' (o_side o) (o_price o) (fun q => q ++ [o]) /\
    (length (slots (pool b')) <= S (length (slots (pool b))))%nat /\
    locate b' = <[o_id o := i]> (locate b).
Proof.
  intros Hbk Hok Hrem Hfresh Hmax Hroom.
  destruct (alloc_ok None b m o Hbk Hroom) as (pl & i & Ha & Hi & Hj & Hf & Hnd & Hlen & Hnew).
  set (lv := default Level_default (m (o_side o) !! o_price o)).
  assert (Z.of_nat (length (queue b (o_side o) (o_price o))) < U32_MAX /\
          live lv = Z.of_nat (length (queue b (o_side o) (o_price o))) /\
          qty lv = sumZ o_remaining (queue b (o_side o) (o_price o))) as (Hl1 & Hl2 & Hq).
  { unfold lv. rewrite (queue_map _ _ _ _ _ Hbk).
    destruct (m (o_side o) !! o_price o) as [lw|] eqn:Hlw; [|split; [simpl; lia|done]].
    cbn. destruct (bk_level _ _ _ Hbk _ _ _ Hlw) as [_ _ -> -> _].
    pose proof (level_length _ _ _ _ _ _ Hbk Hlw).
    pose proof (live_orders_length (slots (pool b)) (orders lw)). split; [lia|done]. }
  destruct (push_ok (side b (o_side o)) (m (o_side o)) (o_price o) i (o_remaining o))
    as (ix & Hp & Hix); [apply (bk_index _ _ _ Hbk) | apply Hok | done | | fold lv; lia | fold lv; lia |].
  { intros lw Hlw. by apply (bk_live _ _ _ Hbk _ _ _ Hlw). }
  assert (users_ok (slots pl) (locate b) (user_counts b)) as Hu.
  { eapply users_ext; [|apply (bk_users _ _ _ Hbk)]. intros id s Hs. unfold slot_user.
    apply (bk_locate _ _ _ Hbk) in Hs as (x & lw & _ & _ & _ & Hlw & Hin).
    rewrite Hj; [done|]. intros ->. by eapply Hnew. }
  destruct (users_insert _ _ _ (o_id o) i (o_user o) Hu Hfresh) as (counts & Hc & Hu').
  { by apply slot_user_at. }
  { pose proof (locate_size _ _ _ Hbk). lia. }
  set (b' := with_counts (with_side (with_locate (with_pool b pl) (<[o_id o := i]> (locate b)))
               (o_side o) ix) counts).
  assert (side b' (o_side o) = ix /\ side b' (opposite (o_side o)) = side b (opposite (o_side o)) /\
          pool b' = pl /\ locate b' = <[o_id o := i]> (locate b) /\ user_counts b' = counts)
    as (B1 & B2 & B3 & B4 & B5) by (unfold b'; by destruct (o_side o)).
  exists b'. eexists _, i. split; [|split; [|split; [|split]]].
  - unfold try_insert. rewrite bool_decide_false by (rewrite Hfresh; by intros [? ?]).
    case_if; [naive_solver lia|]. rewrite Ha. simpl.
    assert (side (with_locate (with_pool b pl) (<[o_id o := i]> (locate b))) (o_side o)
            = side b (o_side o)) as -> by (by destruct (o_side o)).
    rewrite Hp. simpl. rewrite counts_with_side. simpl. by rewrite Hc.
  - apply (insert_book_ok b b' m o pl i); rewrite ?B1, ?B5; try rewrite B4; done || lia.
  - apply (insert_queue b b' m o pl i); rewrite ?B1, ?B5; try rewrite B4; done || lia.
  - by rewrite B3.
  - done.
Qed.

(** *** Fills of one level *)
Definition q_fills (fills : list (OrderId * Qty)) (q : list Order) : list Order :=
  foldl (fun q fill => q_fill fill q) q fills.

(** Each fill is of an order that is in the queue at its turn, and no larger. *)
Fixpoint fills_valid (fills : list (OrderId * Qty)) (q : list Order) : Prop :=
  match fills with
  | [] => True
  | fill :: rest =>
      (exists o, o ∈ q /\ o_id o = fill.1 /\ 0 < fill.2 <= o_remaining o) /\
      fills_valid rest (q_fill fill q)
  end.

Lemma edited_trans b b1 b2 sd p f g :
  edited b b1 sd p f -> edited b1 b2 sd p g -> edited b b2 sd p (fun q => g (f q)).
Proof. intros [H1 H2] [H3 H4]. split; [by rewrite H3, H1|]. intros. by rewrite H4, H2. Qed.

Lemma fills_loop_ok fills ex b m sd p :
  book_ok ex b m -> ex = None \/ ex = Some (sd, p) -> fills <> [] ->
  fills_valid fills (queue b sd p) ->
  exists b' m', ofold (apply_fill sd p) b fills = Ret b' /\ book_ok (Some (sd, p)) b' m' /\
    edited b b' sd p (q_fills fills) /\ length (slots (pool b')) = length (slots (pool b)) /\
    is_Some (m' sd !! p).
Proof.
  revert ex b m. induction fills as [|[id n] fills IH]; [done|].
  intros ex b m Hbk Hex _ [(o & Ho & Hid & Hn) Hv]. simpl in Hid, Hn. subst id.
  destruct (apply_fill_ok ex b m sd p o n) as (b1 & m1 & E1 & Hbk1 & Hed & Hlen & Hs); try done.
  cbn [ofold]. rewrite E1. cbn [obind]. destruct fills as [|f fills].
  - exists b1, m1. split_and!; done.
  - destruct (IH (Some (sd, p)) b1 m1) as (b2 & m2 & E2 & Hbk2 & Hed2 & Hlen2 & Hs2); try done.
    + by right.
    + by rewrite (proj1 Hed).
    + exists b2, m2. split_and!; try done; [|congruence].
      exact (edited_trans _ _ _ _ _ _ _ Hed Hed2).
Qed.

(** ** The interface of the book

    [book_inv] hides the levels; from here on an operation is described by its
    effect on the queues. *)
Definition book_inv (b : OrderBook) : Prop := exists m, book_ok None b m.

(** The number of slots ever used; it bounds the number of resting orders. *)
Definition used (b : OrderBook) : Z := Z.of_nat (length (slots (pool b))).

Definition resting (b : OrderBook) (id : OrderId) : option Order :=
  s ← locate b !! id; slots (pool b) !! s.

Lemma new_inv : book_inv new.
Proof.
  exists (fun _ => ∅). split.
  - intros sd. destruct sd; apply index_ok_new.
  - intros sd p lv H. by rewrite lookup_empty in H.
  - intros sd p lv H. by rewrite lookup_empty in H.
  - intros id s. split; [intros H; simpl in H; by rewrite lookup_empty in H|].
    intros (o & lv & _ & _ & _ & H & _). by rewrite lookup_empty in H.
  - simpl. split; [constructor | set_solver].
  - intros u Hu. simpl. unfold owned. rewrite map_filter_empty, map_size_empty. simpl. by rewrite lookup_empty.
  - simpl. lia.
Qed.

Lemma queue_new sd p : queue new sd p = [].
Proof. by destruct sd. Qed.

Lemma get_resting b id : book_inv b -> get b id = Ret (resting b id).
Proof.
  intros [m Hbk]. unfold get, resting. destruct (locate b !! id) as [s|] eqn:Hl; [|done].
  destruct (locate_queue _ _ _ _ _ Hbk Hl) as (o & lv & Ho & _). simpl. unfold OrderPool.get. by rewrite Ho.
Qed.

Lemma resting_queue b id o : book_inv b ->
  resting b id = Some o <-> o_id o = id /\ o ∈ queue b (o_side o) (o_price o).
Proof.
  intros Hb. pose proof (get_resting b id Hb) as Hg. destruct Hb as [m Hbk].
  destruct (get_order _ _ _ id Hbk) as (r & Hr & Hx). rewrite Hr in Hg. injection Hg as <-. apply Hx.
Qed.

Lemma resting_locate b id : book_inv b -> resting b id = None <-> locate b !! id = None.
Proof.
  intros [m Hbk]. unfold resting. destruct (locate b !! id) as [s|] eqn:Hl; [|done].
  destruct (locate_queue _ _ _ _ _ Hbk Hl) as (o & lv & Ho & _). simpl. by rewrite Ho.
Qed.

(** What is known of an order in a queue. *)
Lemma queue_order b sd p o : book_inv b -> o ∈ queue b sd p ->
  o_side o = sd /\ o_price o = p /\ order_ok o /\ 0 < o_remaining o /\ resting b (o_id o) = Some o.
Proof.
  intros Hb Ho. pose proof (resting_queue b (o_id o) o Hb) as Hr. destruct Hb as [m Hbk].
  destruct (queue_elem _ _ _ _ _ _ Hbk Ho) as (<- & <- & Hok & Hz & _).
  split_and!; try done; [|by apply Hr]. unfold order_ok, is_u64 in Hok. lia.
Qed.

Lemma queue_nodup b sd p : book_inv b -> NoDup (o_id <$> queue b sd p).
Proof. intros [m Hbk]. by eapply queue_ids. Qed.

Lemma queue_level b m sd p : book_ok None b m ->
  queue b sd p <> [] <-> is_Some (m sd !! p).
Proof.
  intros Hbk. rewrite (queue_map _ _ _ _ _ Hbk). destruct (m sd !! p) as [lv|] eqn:Hlv.
  - pose proof (bk_live _ _ _ Hbk _ _ _ Hlv) as Hl.
    rewrite (lv_live _ _ _ _ (bk_level _ _ _ Hbk _ _ _ Hlv)) in Hl.
    split; [eauto|]. intros _ H. rewrite H in Hl. simpl in Hl. specialize (Hl ltac:(done)). lia.
  - split; [done|]. by intros [? ?].
Qed.

Lemma queue_total b sd p : book_inv b ->
  Forall (fun o => 0 < o_remaining o) (queue b sd p) /\
  sumZ o_remaining (queue b sd p) <= U64_MAX /\ Z.of_nat (length (queue b sd p)) <= used b /\
  used b <= U32_MAX.
Proof.
  intros Hb. split; [|destruct Hb as [m Hbk]; rewrite (queue_map _ _ _ _ _ Hbk)].
  - apply Forall_forall. intros o Ho. by apply (queue_order b sd p o Hb).
  - split_and!; [| |apply (bk_slots _ _ _ Hbk)]; destruct (m sd !! p) as [lv|] eqn:Hlv.
    + rewrite <-(lv_qty _ _ _ _ (bk_level _ _ _ Hbk _ _ _ Hlv)).
      apply (lv_max _ _ _ _ (bk_level _ _ _ Hbk _ _ _ Hlv)).
    + rewrite sumZ_nil. lia.
    + pose proof (level_length _ _ _ _ _ _ Hbk Hlv). unfold used.
      pose proof (live_orders_length (slots (pool b)) (orders lv)). lia.
    + unfold used. simpl. lia.
Qed.

Lemma insert_spec b o :
  book_inv b -> order_ok o -> 0 < o_remaining o -> resting b (o_id o) = None ->
  sumZ o_remaining (queue b (o_side o) (o_price o)) + o_remaining o <= U64_MAX -> used b < U32_MAX ->
  exists b', try_insert b o = Ret (b', true) /\ insert b o = Ret b' /\ book_inv b' /\
    edited b b' (o_side o) (o_price o) (fun q => q ++ [o]) /\ used b' <= used b + 1.
Proof.
  intros Hb Hok Hr Hf Hm Hu. apply resting_locate in Hf; [|done]. destruct Hb as [m Hbk].
  destruct (try_insert_ok b m o) as (b' & m' & i & E & Hbk' & Hed & Hlen & _); try done.
  exists b'. unfold insert. rewrite E. split_and!; try done; [by exists m'|]. unfold used. lia.
Qed.

Lemma cancel_spec b id :
  book_inv b ->
  match resting b id with
  | None => cancel b id = Ret (b, None)
  | Some o => exists b', cancel b id = Ret (b', Some o) /\ book_inv b' /\
      edited b b' (o_side o) (o_price o) (q_set id 0) /\ used b' = used b
  end.
Proof.
  intros Hb. pose proof (resting_locate b id Hb) as Hl. pose proof (fun o => resting_queue b id o Hb) as Hq.
  destruct (locate b !! id) as [s|] eqn:Hloc.
  - destruct Hb as [m Hbk].
    destruct (cancel_ok _ _ _ _ Hbk Hloc) as (o & b' & m' & E & Hid & Ho & Hbk' & Hed & Hlen & _).
    assert (resting b id = Some o) as -> by (by apply Hq).
    exists b'. split_and!; try done; [by exists m'|]. unfold used. lia.
  - rewrite (proj2 Hl) by done. by apply cancel_missing.
Qed.

Lemma reduce_spec b id n :
  book_inv b -> 0 <= n ->
  match resting b id with
  | None => reduce b id n = Ret (b, false)
  | Some o =>
      if n <=? o_remaining o then
        exists b', reduce b id n = Ret (b', true) /\ book_inv b' /\
          edited b b' (o_side o) (o_price o) (q_set id n) /\ used b' = used b
      else reduce b id n = Ret (b, false)
  end.
Proof.
  intros Hb Hn. pose proof (resting_locate b id Hb) as Hl. unfold resting in *.
  destruct (locate b !! id) as [s|] eqn:Hloc; simpl in *.
  - destruct (slots (pool b) !! s) as [o|] eqn:Ho; [|naive_solver]. destruct Hb as [m Hbk].
    destruct (reduce_ok b m id s o n) as (b' & m' & E & Hbk' & Hed & Hlen & _); try done.
    destruct (Z.leb_spec n (o_remaining o)).
    + exists b'. split_and!; try done; [by exists m'|]. unfold used. lia.
    + unfold reduce. rewrite Hloc. unfold OrderPool.get. rewrite Ho. simpl.
      destruct (locate_queue _ _ _ _ _ Hbk Hloc) as (o' & lv & Ho' & _ & _ & Hok & _).
      assert (o' = o) as -> by congruence. unfold order_ok, is_u64 in Hok.
      repeat case_if; done || lia.
  - unfold reduce. by rewrite Hloc.
Qed.

Lemma fills_spec b sd p fills :
  book_inv b -> fills <> [] -> fills_valid fills (queue b sd p) ->
  exists b', apply_fills b sd p fills = Ret b' /\ book_inv b' /\
    edited b b' sd p (q_fills fills) /\ used b' = used b.
Proof.
  intros [m Hbk] Hne Hv.
  destruct (fills_loop_ok fills None b m sd p) as (b1 & m1 & E1 & Hbk1 & Hed & Hlen & lv & Hlv);
    try done; [by left|].
  destruct (maintain_book _ _ _ sd p lv Hbk1 (or_intror eq_refl) Hlv)
    as (ix & pl & m2 & Hm & Hsl & Hbk2 & Hq2).
  exists (with_pool (with_side b1 sd ix) pl). split_and!.
  - unfold apply_fills, assert_that. destruct fills as [|f fills]; [done|].
    destruct Hv as [(o & Ho & _) _].
    assert (is_Some (m sd !! p)) as [lw Hlw].
    { apply (queue_level b m sd p Hbk). intros H. rewrite H in Ho. set_solver. }
    rewrite (level_get _ _ _ _ _ _ Hbk Hlw) by (by apply (bk_live _ _ _ Hbk _ _ _ Hlw)).
    rewrite bool_decide_true by done. rewrite E1. cbn [obind]. rewrite Hm. done.
  - by exists m2.
  - by eapply edited_eq.
  - unfold used. simpl. by rewrite Hsl, Hlen.
Qed.

(** *** Walking a side *)
Section walks.
Context (b : OrderBook) (m : Side -> gmap Z Level) (Hbk : book_ok None b m).

Lemma stored_map sd : stored b sd = sorted_levels (m sd).
Proof.
  unfold stored. rewrite (visit_asc_ok _ _ (bk_index _ _ _ Hbk sd)).
  induction (sorted_levels (m sd)) as [|e l IH]; [done|]. simpl. by f_equal.
Qed.

Lemma ladder_elem sd p q : (p, q) ∈ ladder b sd <-> q = queue b sd p /\ q <> [].
Proof.
  assert ((p, q) ∈ ladder b sd <-> (p, q) ∈ ladder_asc b sd) as ->.
  { unfold ladder. destruct sd; [by rewrite elem_of_reverse|done]. }
  unfold ladder_asc. rewrite list_elem_of_fmap, stored_map. split.
  - intros ([p' lv] & [= -> ->] & Hin). apply sorted_levels_elem in Hin.
    assert (queue b sd p' = live_orders (slots (pool b)) (orders lv)) as Hq
      by (by rewrite (queue_map _ _ _ _ _ Hbk), Hin).
    simpl. rewrite <-Hq. split; [done|]. apply (queue_level _ _ _ _ Hbk). eauto.
  - intros [-> Hne]. destruct (proj1 (queue_level _ _ sd p Hbk) Hne) as [lv Hlv].
    exists (p, lv). split; [|by apply sorted_levels_elem].
    by rewrite (queue_map _ _ _ _ _ Hbk), Hlv.
Qed.

Lemma ladder_sorted sd : StronglySorted (fun e e' => better sd e.1 e'.1) (ladder b sd).
Proof.
  assert (StronglySorted (fun e e' : Price * list Order => e.1 < e'.1) (ladder_asc b sd)) as Hs.
  { unfold ladder_asc. rewrite stored_map.
    induction (sorted_levels_sorted (m sd)) as [|e l Hs IH Hf]; constructor; [done|].
    apply Forall_fmap. eapply Forall_impl; [exact Hf|]. done. }
  unfold ladder, better. destruct sd; [|done].
  induction Hs as [|e l Hs IH Hf]; [constructor|]. rewrite reverse_cons.
  apply StronglySorted_app_2; [|exact IH | repeat constructor].
  intros x y Hx Hy. apply list_elem_of_singleton in Hy as ->. rewrite elem_of_reverse in Hx.
  rewrite Forall_forall in Hf. by apply Hf.
Qed.

Lemma ladder_nodup sd : NoDup (fst <$> ladder b sd).
Proof.
  induction (ladder_sorted sd) as [|e l Hs IH Hf]; [constructor|]. rewrite fmap_cons. constructor; [|done].
  intros (e' & He & Hin)%list_elem_of_fmap. rewrite Forall_forall in Hf. specialize (Hf e' Hin).
  unfold better in Hf. destruct sd; lia.
Qed.

(** The walk of the index visits the ladder. *)
Lemma walk_ladder {S} (f : S -> Price -> Level -> outcome (S * bool)) sd s :
  match sd with
  | Buy => LevelIndex.walk_desc f (side b sd) s
  | Sell => LevelIndex.walk_asc f (side b sd) s
  end = LevelIndex.walk f (Ret <$> match sd with Buy => reverse (stored b sd) | Sell => stored b sd end) s.
Proof.
  unfold LevelIndex.walk_desc, LevelIndex.walk_asc. rewrite stored_map.
  destruct sd; [by rewrite (visit_desc_ok _ _ (bk_index _ _ _ Hbk Buy))|
                by rewrite (visit_asc_ok _ _ (bk_index _ _ _ Hbk Sell))].
Qed.

Lemma ladder_stored sd : ladder b sd =
  (fun e => (e.1, live_orders (slots (pool b)) (orders e.2))) <$>
    match sd with Buy => reverse (stored b sd) | Sell => stored b sd end.
Proof. unfold ladder, ladder_asc. destruct sd; [by rewrite fmap_reverse|done]. Qed.

Lemma stored_qty sd : Forall (fun e => qty e.2 = sumZ o_remaining (live_orders (slots (pool b)) (orders e.2))
    /\ live e.2 = Z.of_nat (length (live_orders (slots (pool b)) (orders e.2)))
    /\ 0 < qty e.2 <= U64_MAX /\ is_u64 e.1)
  (match sd with Buy => reverse (stored b sd) | Sell => stored b sd end).
Proof.
  apply Forall_forall. intros [p lv] Hin.
  assert ((p, lv) ∈ stored b sd) as Hin' by (destruct sd; [by rewrite elem_of_reverse in Hin|done]).
  rewrite stored_map in Hin'. apply sorted_levels_elem in Hin'. simpl.
  pose proof (bk_level _ _ _ Hbk _ _ _ Hin') as HL. split_and!; try apply HL.
  - pose proof (proj2 (queue_level b m sd p Hbk) ltac:(eauto)) as Hne.
    destruct (queue_total b sd p) as (Hpos & _); [by exists m|].
    rewrite (lv_qty _ _ _ _ HL). rewrite (queue_map _ _ _ _ _ Hbk), Hin' in *.
    destruct (live_orders _ _) as [|o l]; [done|]. rewrite sumZ_cons.
    apply Forall_cons in Hpos as [H1 H2]. assert (0 <= sumZ o_remaining l); [|lia].
    apply sumZ_nonneg. eapply Forall_impl; [exact H2|]. simpl. lia.
  - apply (ok_price _ _ (bk_index _ _ _ Hbk sd)). eauto.
Qed.

(** *** Best prices *)
Lemma best_ok sd : exists o, best b sd = Ret o /\
  match o with
  | None => forall p, queue b sd p = []
  | Some p => queue b sd p <> [] /\ is_u64 p /\
      forall p', queue b sd p' <> [] -> p' <> p -> better sd p p'
  end.
Proof.
  assert (forall p, m sd !! p = None -> queue b sd p = []) as Hnone
    by (intros p H; by rewrite (queue_map _ _ _ _ _ Hbk), H).
  destruct sd; simpl; unfold best_bid, best_ask.
  - destruct (max_price_ok _ _ (bk_index _ _ _ Hbk Buy)) as (o & E & Ho). exists o. split; [exact E|].
    destruct o as [p|]; simpl in Ho.
    + destruct Ho as [H1 H2]. split_and!; [by apply (queue_level _ m) | by apply (ok_price _ _ (bk_index _ _ _ Hbk Buy)) |].
      intros p' Hp' Hne. apply (queue_level _ m) in Hp'; [|done]. specialize (H2 _ Hp'). simpl. lia.
    + intros p. apply Hnone. by rewrite Ho, lookup_empty.
  - destruct (min_price_ok _ _ (bk_index _ _ _ Hbk Sell)) as (o & E & Ho). exists o. split; [exact E|].
    destruct o as [p|]; simpl in Ho.
    + destruct Ho as [H1 H2]. split_and!; [by apply (queue_level _ m) | by apply (ok_price _ _ (bk_index _ _ _ Hbk Sell)) |].
      intros p' Hp' Hne. apply (queue_level _ m) in Hp'; [|done]. specialize (H2 _ Hp'). simpl. lia.
    + intros p. apply Hnone. by rewrite Ho, lookup_empty.
Qed.

(** *** Crossable quantity *)
Definition reach_sum (ag : Side) (limit : Price) (l : list (Price * list Order)) : Z :=
  sumZ (fun e => if reaches ag limit e.1 then sumZ o_remaining e.2 else 0) l.

Lemma crossable_walk ag limit l acc :
  let es := (fun e => (e.1, live_orders (slots (pool b)) (orders e.2))) <$> l in
  Forall (fun e => qty e.2 = sumZ o_remaining (live_orders (slots (pool b)) (orders e.2)) /\ 0 < qty e.2) l ->
  StronglySorted (fun e e' => better (opposite ag) e.1 e'.1) es ->
  0 <= acc -> acc + reach_sum ag limit es <= U64_MAX ->
  LevelIndex.walk (cross_step ag limit) (Ret <$> l) acc = Ret (acc + reach_sum ag limit es).
Proof.
  revert acc. induction l as [|[p lv] l IH]; intros acc es Hq Hs Hacc Hmax.
  - unfold es, reach_sum. rewrite !fmap_nil, sumZ_nil, Z.add_0_r. done.
  - apply Forall_cons in Hq as [[Hq1 Hq2] Hq]. apply StronglySorted_inv in Hs as [Hs Hf].
    unfold es, reach_sum in *. rewrite !fmap_cons in *. rewrite sumZ_cons in *. cbn [fst snd] in *.
    fold (reach_sum ag limit ((fun e => (e.1, live_orders (slots (pool b)) (orders e.2))) <$> l)) in *.
    assert (0 <= reach_sum ag limit ((fun e => (e.1, live_orders (slots (pool b)) (orders e.2))) <$> l)) as Hnn.
    { apply sumZ_nonneg, Forall_fmap. eapply Forall_impl; [exact Hq|]. intros e [He ?]. simpl. case_if; lia. }
    cbn [LevelIndex.walk obind fst snd]. unfold cross_step at 1.
    assert ((match ag with Buy => limit <? p | Sell => p <? limit end) = negb (reaches ag limit p)) as ->
      by (unfold reaches; destruct ag; by rewrite Z.ltb_antisym).
    destruct (reaches ag limit p) eqn:Hr; cbn [negb].
    + unfold checked_add. case_if; [|lia]. cbn [expect obind fst snd].
      rewrite IH; try done; [f_equal; lia | lia | lia].
    + cbn [obind fst snd]. f_equal.
      assert (reach_sum ag limit ((fun e => (e.1, live_orders (slots (pool b)) (orders e.2))) <$> l) = 0); [|lia].
      apply sumZ_zero. intros e He. rewrite Forall_forall in Hf. specialize (Hf e He).
      case_if; [|done]. unfold reaches, better in *. destruct ag; simpl in *; zbool; lia.
Qed.

Lemma crossable_ok ag limit :
  depth_sum (sumZ o_remaining) (reaches ag limit) b (opposite ag) <= U64_MAX ->
  crossable_qty b ag limit = Ret (depth_sum (sumZ o_remaining) (reaches ag limit) b (opposite ag)).
Proof.
  intros Hmax. unfold crossable_qty.
  pose proof (walk_ladder (cross_step ag limit) (opposite ag) 0) as Hw.
  pose proof (crossable_walk ag limit
    (match opposite ag with Buy => reverse (stored b (opposite ag)) | Sell => stored b (opposite ag) end) 0) as Hc.
  cbv zeta in Hc. rewrite <-ladder_stored in Hc.
  change (reach_sum ag limit (ladder b (opposite ag)))
    with (depth_sum (sumZ o_remaining) (reaches ag limit) b (opposite ag)) in Hc.
  rewrite Z.add_0_l in Hc. rewrite <-Hc; clear Hc.
  - by destruct ag.
  - eapply Forall_impl; [apply stored_qty|]. naive_solver.
  - apply ladder_sorted.
  - done.
  - done.
Qed.

(** *** Cost to fill *)
Lemma ladder_cost_bound n l :
  0 <= n -> Forall (fun e => is_u64 e.1 /\ 0 <= sumZ o_remaining e.2) l ->
  0 <= (ladder_cost n l).1 <= n /\ 0 <= (ladder_cost n l).2 <= U64_MAX * (n - (ladder_cost n l).1).
Proof.
  revert n. induction l as [|[p q] l IH]; intros n Hn Hl; simpl; [lia|].
  apply Forall_cons in Hl as [[Hp Hq] Hl]. simpl in *. unfold is_u64 in Hp.
  set (t := Z.min n (sumZ o_remaining q)). assert (0 <= t <= n) by lia. case_if.
  - destruct (IH (n - t) ltac:(lia) Hl) as [H1 H2]. nia.
  - simpl. nia.
Qed.

Lemma cost_walk l n acc :
  let es := (fun e => (e.1, live_orders (slots (pool b)) (orders e.2))) <$> l in
  Forall (fun e => qty e.2 = sumZ o_remaining (live_orders (slots (pool b)) (orders e.2)) /\
                   0 < qty e.2 <= U64_MAX /\ is_u64 e.1) l ->
  0 <= n <= U64_MAX -> 0 <= acc -> acc + U64_MAX * n <= U128_MAX ->
  LevelIndex.walk cost_step (Ret <$> l) (n, acc) =
  Ret ((ladder_cost n es).1, acc + (ladder_cost n es).2).
Proof.
  revert n acc. induction l as [|[p lv] l IH]; intros n acc es Hq Hn Hacc Hmax.
  - simpl. by rewrite Z.add_0_r.
  - apply Forall_cons in Hq as [(Hq1 & Hq2 & Hp) Hq]. unfold is_u64 in Hp. unfold es.
    rewrite !fmap_cons. cbn [LevelIndex.walk obind fst snd ladder_cost]. unfold cost_step at 1.
    cbn [fst snd] in *. rewrite <-Hq1. set (t := Z.min n (qty lv)). assert (0 <= t <= n) by lia.
    assert (0 <= p * t <= U64_MAX * t) by nia.
    unfold checked_mul, checked_add, checked_sub.
    case_if; [|lia]. cbn [expect obind]. case_if; [|lia]. cbn [expect obind]. case_if; [|lia].
    cbn [expect obind fst snd]. destruct (0 <? n - t); [|cbn [fst snd]; by rewrite Z.add_0_r].
    rewrite IH; try done; [|lia|lia|lia]. cbn [fst snd]. do 2 f_equal. lia.
Qed.

Lemma cost_ok ag n : is_u64 n ->
  cost_to_fill b ag n =
  Ret (n - (ladder_cost n (ladder b (opposite ag))).1, (ladder_cost n (ladder b (opposite ag))).2).
Proof.
  intros Hn. unfold cost_to_fill.
  pose proof (walk_ladder cost_step (opposite ag) (n, 0)) as Hw.
  pose proof (cost_walk (match opposite ag with Buy => reverse (stored b (opposite ag))
    | Sell => stored b (opposite ag) end) n 0) as Hc.
  cbv zeta in Hc. rewrite <-ladder_stored, !Z.add_0_l in Hc.
  assert (0 <= (ladder_cost n (ladder b (opposite ag))).1 <= n) as Hb.
  { apply ladder_cost_bound; [apply Hn|]. rewrite ladder_stored. apply Forall_fmap.
    eapply Forall_impl; [apply stored_qty|]. intros e He. simpl. unfold_width. naive_solver lia. }
  assert ((match ag with
           | Buy => LevelIndex.walk_asc cost_step (side b (opposite ag)) (n, 0)
           | Sell => LevelIndex.walk_desc cost_step (side b (opposite ag)) (n, 0)
           end) = Ret (ladder_cost n (ladder b (opposite ag)))) as ->.
  { rewrite (surjective_pairing (ladder_cost _ _)), <-Hc; clear Hc.
    - by destruct ag.
    - eapply Forall_impl; [apply stored_qty|]. naive_solver.
    - done.
    - done.
    - unfold_width. lia. }
  cbn [obind]. rewrite wrap64_small; [done|]. unfold_width. lia.
Qed.

(** *** Reading a side *)
Lemma pool_get_level sd p lv s : m sd !! p = Some lv -> s ∈ orders lv ->
  exists o, OrderPool.get (pool b) s = Ret o /\ slots (pool b) !! s = Some o /\ 0 <= o_remaining o.
Proof.
  intros Hlv Hs. destruct (lv_slot _ _ _ _ (bk_level _ _ _ Hbk _ _ _ Hlv) s Hs) as (_ & o & Ho & _ & _ & Hok).
  exists o. unfold OrderPool.get. rewrite Ho. unfold order_ok, is_u64 in Hok. split_and!; done || lia.
Qed.

(** Copying the live orders of a level through [h]. *)
Lemma copy_slots {A} (h : Order -> A) sd p lv os (out : list A) :
  m sd !! p = Some lv -> (forall s, s ∈ os -> s ∈ orders lv) ->
  ofold (fun out slot => let! o := OrderPool.get (pool b) slot in
           Ret (if 0 <? o_remaining o then out ++ [h o] else out)) out os =
  Ret (out ++ (h <$> live_orders (slots (pool b)) os)).
Proof.
  intros Hlv. revert out. induction os as [|s os IH]; intros out Hin.
  - cbn. by rewrite app_nil_r.
  - destruct (pool_get_level sd p lv s Hlv) as (o & E & Ho & Hr); [set_solver|].
    cbn [ofold]. rewrite E. cbn [obind]. rewrite IH by set_solver. rewrite live_orders_cons.
    unfold live_at. rewrite Ho. repeat case_if; try lia; [|done].
    by rewrite fmap_cons, <-app_assoc.
Qed.

Lemma snapshot_walk sd l out :
  (forall e, e ∈ l -> m sd !! e.1 = Some e.2) ->
  LevelIndex.walk (copy_level b) (Ret <$> l) out =
  Ret (out ++ (((fun e => (e.1, live_orders (slots (pool b)) (orders e.2))) <$> l) ≫= snd)).
Proof.
  revert out. induction l as [|[p lv] l IH]; intros out Hl.
  - cbn. by rewrite app_nil_r.
  - rewrite !fmap_cons. cbn [LevelIndex.walk obind fst snd]. unfold copy_level at 1.
    rewrite (copy_slots (fun o => o) sd p lv); [|by apply (Hl (p, lv)); set_solver | done].
    cbn [obind fst snd]. rewrite IH by (intros; apply Hl; set_solver).
    rewrite bind_cons, list_fmap_id, app_assoc. done.
Qed.

Lemma snapshot_ok : snapshot_orders b = Ret (side_orders b Buy ++ side_orders b Sell).
Proof.
  unfold snapshot_orders, LevelIndex.walk_asc.
  assert (forall sd e, e ∈ sorted_levels (m sd) -> m sd !! e.1 = Some e.2) as Hin
    by (intros sd [p lv]; apply sorted_levels_elem).
  rewrite (visit_asc_ok _ _ (bk_index _ _ _ Hbk Buy) : LevelIndex.visit_asc (bids b) = _).
  rewrite (snapshot_walk Buy _ []) by apply Hin. cbn [obind].
  rewrite (visit_asc_ok _ _ (bk_index _ _ _ Hbk Sell) : LevelIndex.visit_asc (asks b) = _).
  rewrite (snapshot_walk Sell) by apply Hin.
  unfold side_orders, ladder_asc. by rewrite !stored_map.
Qed.

Lemma level_view_ok sd p : level_view b sd p = Ret (to_resting <$> queue b sd p).
Proof.
  unfold level_view. rewrite (queue_map _ _ _ _ _ Hbk).
  destruct (m sd !! p) as [lv|] eqn:Hlv.
  - rewrite (level_get _ _ _ _ _ _ Hbk Hlv) by (by apply (bk_live _ _ _ Hbk _ _ _ Hlv)).
    by rewrite (copy_slots to_resting sd p lv).
  - by rewrite (get_ok _ _ _ (bk_index _ _ _ Hbk sd)), Hlv.
Qed.

Lemma view_loop_ok sd p lv os cap covered out :
  m sd !! p = Some lv -> (forall s, s ∈ os -> s ∈ orders lv) ->
  0 <= covered -> covered + sumZ o_remaining (live_orders (slots (pool b)) os) <= U64_MAX ->
  view_loop (pool b) os cap covered out =
  Ret (out ++ (to_resting <$> q_cap cap covered (live_orders (slots (pool b)) os))).
Proof.
  intros Hlv. revert covered out. induction os as [|s os IH]; intros covered out Hin Hc Hmax.
  - cbn. by rewrite app_nil_r.
  - destruct (pool_get_level sd p lv s Hlv) as (o & E & Ho & Hr); [set_solver|].
    assert (0 <= sumZ o_remaining (live_orders (slots (pool b)) os)) as Hnn.
    { apply sumZ_nonneg, Forall_forall. intros x (sx & Hsx & Hx & _)%live_orders_elem.
      destruct (pool_get_level sd p lv sx Hlv) as (y & _ & Hy & ?); [set_solver|]. congruence. }
    cbn [view_loop]. rewrite E. cbn [obind]. rewrite live_orders_cons in *.
    unfold live_at in *. rewrite Ho in *. case_if; [by apply IH; try done; set_solver|].
    rewrite sumZ_cons in Hmax. unfold checked_add. case_if; [|lia]. cbn [expect obind q_cap].
    case_if; [by cbn|]. rewrite IH by (done || set_solver || lia).
    by rewrite fmap_cons, <-app_assoc.
Qed.

End walks.

(** [level_view_capped] sweeps the level and shows the front of its queue. *)
Lemma view_spec b sd p cap :
  book_inv b -> queue b sd p <> [] ->
  exists b', level_view_capped b sd p cap = Ret (b', to_resting <$> q_cap cap 0 (queue b sd p)) /\
    book_inv b' /\ (forall sd' p', queue b' sd' p' = queue b sd' p') /\ used b' = used b.
Proof.
  intros [m Hbk] Hq. apply (queue_level _ _ _ _ Hbk) in Hq as [lv Hlv].
  destruct (maintain_book _ _ _ sd p lv Hbk (or_introl eq_refl) Hlv)
    as (ix & pl & m' & Hm & Hsl & Hbk' & Hq').
  set (b' := with_pool (with_side b sd ix) pl) in *.
  assert (queue b' sd p <> []) as Hne by (rewrite Hq'; apply (queue_level _ _ _ _ Hbk); eauto).
  apply (queue_level _ _ _ _ Hbk') in Hne as [lw Hlw].
  exists b'. split_and!; [|by exists m'|done|unfold used, b'; simpl; by rewrite Hsl].
  unfold level_view_capped. rewrite Hm. cbn [obind fst snd]. fold b'.
  assert (side b' sd = ix) as Hix by (unfold b'; by rewrite side_with_pool, side_with_side, decide_True).
  pose proof (level_get _ _ _ _ _ _ Hbk' Hlw ltac:(by apply (bk_live _ _ _ Hbk' _ _ _ Hlw))) as Hg.
  rewrite Hix in Hg. rewrite Hg.
  pose proof (bk_level _ _ _ Hbk' _ _ _ Hlw) as HL.
  change pl with (pool b'). rewrite (view_loop_ok b' m' Hbk' sd p lw); try done.
  - cbn [obind]. rewrite <-Hq', (queue_map _ _ _ _ _ Hbk'), Hlw. done.
  - rewrite <-(lv_qty _ _ _ _ HL). apply HL.
Qed.

Lemma q_cap_prefix cap covered q :
  exists rest, q = q_cap cap covered q ++ rest /\
    (rest = [] \/ cap <= covered + sumZ o_remaining (q_cap cap covered q)).
Proof.
  revert covered. induction q as [|o q IH]; intros covered; cbn [q_cap].
  - exists []. split; [done|by left].
  - case_if.
    + exists q. split; [done|]. right. rewrite sumZ_cons, sumZ_nil. lia.
    + destruct (IH (covered + o_remaining o)) as (rest & E1 & E2). exists rest.
      rewrite <-app_comm_cons, <-E1. split; [done|]. rewrite sumZ_cons.
      destruct E2; [by left|right; lia].
Qed.

Lemma q_cap_all q :
  Forall (fun o => 0 < o_remaining o) q -> sumZ o_remaining q <= U64_MAX -> q_cap U64_MAX 0 q = q.
Proof.
  intros Hp Hs. destruct (q_cap_prefix U64_MAX 0 q) as (rest & E & Hr).
  destruct Hr as [-> | Hr]; [by rewrite app_nil_r in E|].
  rewrite E in Hs, Hp. rewrite sumZ_app in Hs. apply Forall_app in Hp as [_ Hp].
  destruct rest as [|o rest]; [by rewrite app_nil_r in E|]. rewrite sumZ_cons in Hs.
  apply Forall_cons in Hp as [H1 H2]. assert (0 <= sumZ o_remaining rest); [|lia].
  apply sumZ_nonneg. eapply Forall_impl; [exact H2|]. simpl. lia.
Qed.

(** *** Sums over a side *)
Lemma sumZ_filter {A} (f : A -> Z) (l : list A) : sumZ f l = sumZ f (filter (fun x => f x <> 0) l).
Proof.
  induction l as [|x l IH]; [done|]. rewrite filter_cons, sumZ_cons. case_decide; rewrite ?sumZ_cons; lia.
Qed.

(** Two lists without duplicates that agree where [f] is not zero. *)
Lemma sumZ_support {A} `{EqDecision A} (f : A -> Z) (l1 l2 : list A) :
  NoDup l1 -> NoDup l2 -> (forall x, f x <> 0 -> x ∈ l1 <-> x ∈ l2) -> sumZ f l1 = sumZ f l2.
Proof.
  intros H1 H2 H. rewrite (sumZ_filter f l1), (sumZ_filter f l2). apply sumZ_perm.
  apply NoDup_Permutation; [by apply NoDup_filter | by apply NoDup_filter |].
  intros x. rewrite !list_elem_of_filter. naive_solver.
Qed.

(** A sum over the ladder is a sum over any list of prices that holds all the
    non-empty ones. *)
Lemma depth_sum_prices G P b sd (ps : list Price) :
  book_inv b -> G [] = 0 -> NoDup ps -> (forall p, queue b sd p <> [] -> p ∈ ps) ->
  depth_sum G P b sd = sumZ (fun p => if P p then G (queue b sd p) else 0) ps.
Proof.
  intros [m Hbk] HG Hnd Hps. unfold depth_sum.
  transitivity (sumZ (fun p => if P p then G (queue b sd p) else 0) (fst <$> ladder b sd)).
  - transitivity (sumZ (fun e => if P e.1 then G (queue b sd e.1) else 0) (ladder b sd)).
    + apply sumZ_ext. intros [p q] Hin. apply (ladder_elem _ _ Hbk) in Hin as [-> _]. done.
    + symmetry. apply (sumZ_map fst (fun p => if P p then G (queue b sd p) else 0) (ladder b sd)).
  - apply sumZ_support; [by apply (ladder_nodup _ m)|done|]. intros p Hp.
    assert (queue b sd p <> []) as Hq.
    { intros Hq. apply Hp. rewrite Hq, HG. by case_if. }
    split; [by auto|]. intros _. apply list_elem_of_fmap. exists (p, queue b sd p).
    split; [done|]. by apply (ladder_elem _ _ Hbk).
Qed.

Lemma ladder_prices b sd p : book_inv b -> queue b sd p <> [] -> p ∈ fst <$> ladder b sd.
Proof.
  intros [m Hbk] Hq. apply list_elem_of_fmap. exists (p, queue b sd p).
  split; [done|]. by apply (ladder_elem _ _ Hbk).
Qed.

Lemma depth_sum_edit G P b b' sd p f sd' :
  book_inv b -> book_inv b' -> edited b b' sd p f -> G [] = 0 ->
  depth_sum G P b' sd' = depth_sum G P b sd' +
    (if decide (sd' = sd) then if P p then G (f (queue b sd p)) - G (queue b sd p) else 0 else 0).
Proof.
  intros Hb Hb' [H1 H2] HG.
  set (ps := remove_dups (p :: (fst <$> ladder b sd') ++ (fst <$> ladder b' sd'))).
  assert (NoDup ps) as Hnd by apply NoDup_remove_dups.
  assert (forall x, queue b sd' x <> [] -> x ∈ ps) as Hp1.
  { intros x Hx. apply elem_of_remove_dups. pose proof (ladder_prices b sd' x Hb Hx). set_solver. }
  assert (forall x, queue b' sd' x <> [] -> x ∈ ps) as Hp2.
  { intros x Hx. apply elem_of_remove_dups. pose proof (ladder_prices b' sd' x Hb' Hx). set_solver. }
  rewrite (depth_sum_prices G P b sd' ps), (depth_sum_prices G P b' sd' ps) by done.
  assert (p ∈ ps) as Hp by (apply elem_of_remove_dups; set_solver).
  apply list_elem_of_split in Hp as (a & c & Hps). rewrite Hps, !sumZ_app, !sumZ_cons.
  assert (p ∉ a /\ p ∉ c) as [Ha Hc].
  { rewrite Hps in Hnd. apply NoDup_app in Hnd as (_ & Ha & [Hc _]%NoDup_cons). set_solver. }
  rewrite (sumZ_ext (fun x => if P x then G (queue b' sd' x) else 0)
             (fun x => if P x then G (queue b sd' x) else 0) a)
    by (intros x Hx; rewrite H2; [done|]; intros [= -> ->]; done).
  rewrite (sumZ_ext (fun x => if P x then G (queue b' sd' x) else 0)
             (fun x => if P x then G (queue b sd' x) else 0) c)
    by (intros x Hx; rewrite H2; [done|]; intros [= -> ->]; done).
  case_decide as Hd.
  - subst sd'. rewrite H1. destruct (P p); lia.
  - rewrite H2 by congruence. lia.
Qed.

Lemma depth_sum_same G P b b' sd :
  book_inv b -> book_inv b' -> (forall sd' p', queue b' sd' p' = queue b sd' p') -> G [] = 0 ->
  depth_sum G P b' sd = depth_sum G P b sd.
Proof.
  intros Hb Hb' H HG. rewrite (depth_sum_edit G P b b' sd 0 (fun q => q) sd); try done.
  repeat case_if; lia.
Qed.

Lemma depth_sum_nonneg G P b sd : (forall q, 0 <= G q) -> 0 <= depth_sum G P b sd.
Proof. intros H. apply sumZ_nonneg, Forall_forall. intros e _. specialize (H e.2). case_if; lia. Qed.

Lemma depth_sum_at_least G P b sd p :
  book_inv b -> (forall q, 0 <= G q) -> G [] = 0 -> P p = true -> G (queue b sd p) <= depth_sum G P b sd.
Proof.
  intros Hb HG H0 HP. destruct (decide (queue b sd p = [])) as [->|Hq].
  - rewrite H0. by apply depth_sum_nonneg.
  - destruct Hb as [m Hbk].
    transitivity ((fun e : Price * list Order => if P e.1 then G e.2 else 0) (p, queue b sd p)).
    + simpl. by rewrite HP.
    + apply (sumZ_elem_le (fun e : Price * list Order => if P e.1 then G e.2 else 0)
        (ladder b sd) (p, queue b sd p)); [|by apply (ladder_elem _ _ Hbk)].
      apply Forall_forall. intros e _. specialize (HG e.2). case_if; lia.
Qed.

(** *** The ladder under edits *)
Lemma ladder_unique sd (l1 l2 : list (Price * list Order)) :
  StronglySorted (fun e e' => better sd e.1 e'.1) l1 ->
  StronglySorted (fun e e' => better sd e.1 e'.1) l2 ->
  (forall e, e ∈ l1 <-> e ∈ l2) -> l1 = l2.
Proof. apply sorted_unique. intros x y. unfold better. destruct sd; lia. Qed.

Lemma ladder_same b b' sd : book_inv b -> book_inv b' ->
  (forall p, queue b' sd p = queue b sd p) -> ladder b' sd = ladder b sd.
Proof.
  intros [m Hbk] [m' Hbk'] H. apply (ladder_unique sd); [by eapply ladder_sorted | by eapply ladder_sorted |].
  intros [p q]. rewrite (ladder_elem _ _ Hbk), (ladder_elem _ _ Hbk'), H. done.
Qed.

Lemma ladder_best b sd : book_inv b ->
  best b sd = Ret (fst <$> head (ladder b sd)) /\
  Forall (fun e => e.2 = queue b sd e.1 /\ e.2 <> [] /\ is_u64 e.1) (ladder b sd).
Proof.
  intros [m Hbk]. split.
  - destruct (best_ok b m Hbk sd) as (o & -> & Ho). f_equal.
    destruct (ladder b sd) as [|[p q] l] eqn:Hl; simpl.
    + destruct o as [p|]; [|done]. destruct Ho as (Hq & _).
      exfalso. pose proof (proj2 (ladder_elem b m Hbk sd p (queue b sd p)) ltac:(done)) as Hin.
      rewrite Hl in Hin. set_solver.
    + assert ((p, q) ∈ ladder b sd) as Hin by (rewrite Hl; set_solver).
      apply (ladder_elem _ _ Hbk) in Hin as [-> Hq].
      destruct o as [p'|]; [|by rewrite Ho in Hq]. destruct Ho as (Hq' & _ & Hb). f_equal.
      destruct (decide (p = p')) as [|Hne]; [done|]. exfalso.
      assert ((p', queue b sd p') ∈ ladder b sd) as Hin' by (by apply (ladder_elem _ _ Hbk)).
      pose proof (ladder_sorted b m Hbk sd) as Hs. rewrite Hl in Hs, Hin'.
      apply StronglySorted_inv in Hs as [_ Hf]. rewrite Forall_forall in Hf.
      apply elem_of_cons in Hin' as [[= ->]|Hin']; [done|].
      specialize (Hf _ Hin'). specialize (Hb p Hq Hne). simpl in Hf. unfold better in *. destruct sd; lia.
  - apply Forall_forall. intros [p q] Hin. apply (ladder_elem _ _ Hbk) in Hin as [-> Hq].
    split_and!; try done. apply (queue_level _ m) in Hq; [|done].
    by apply (ok_price _ _ (bk_index _ _ _ Hbk sd)).
Qed.

Lemma ladder_edit_head b b' sd p q rest f :
  book_inv b -> book_inv b' -> edited b b' sd p f -> ladder b sd = (p, q) :: rest ->
  ladder b' sd = push_level p (f q) rest.
Proof.
  intros [m Hbk] [m' Hbk'] [He Hfr] Hl.
  pose proof (ladder_sorted b m Hbk sd) as Hs. rewrite Hl in Hs.
  apply StronglySorted_inv in Hs as [Hs Hf].
  assert (q = queue b sd p) as Hq.
  { assert ((p, q) ∈ ladder b sd) as Hin by (rewrite Hl; set_solver).
    by apply (ladder_elem _ _ Hbk) in Hin as [-> _]. }
  assert (forall p' q', (p', q') ∈ rest -> p' <> p) as Hne.
  { intros p' q' Hin ->. rewrite Forall_forall in Hf. specialize (Hf _ Hin). simpl in Hf.
    unfold better in Hf. destruct sd; lia. }
  apply (ladder_unique sd); [by eapply ladder_sorted | |].
  - unfold push_level. destruct (f q); [done|]. by constructor.
  - intros [p' q']. rewrite (ladder_elem _ _ Hbk').
    assert ((p', q') ∈ push_level p (f q) rest <->
            (p' = p /\ q' = f q /\ f q <> []) \/ (p', q') ∈ rest) as ->.
    { unfold push_level. destruct (f q) as [|x l]; [naive_solver|]. rewrite elem_of_cons. naive_solver. }
    destruct (decide (p' = p)) as [->|Hp].
    + rewrite He, <-Hq. split; [naive_solver|]. intros [(_ & -> & ?)|Hin]; [done|].
      by apply Hne in Hin.
    + rewrite Hfr by congruence. rewrite <-(ladder_elem _ _ Hbk), Hl, elem_of_cons. naive_solver.
Qed.

(** *** Fills of distinct orders of a queue *)
Definition positive_queue (q : list Order) : Prop :=
  Forall (fun o => 0 < o_remaining o) q /\ NoDup (o_id <$> q).

Definition fill_of (f : Order * Qty) : OrderId * Qty := (o_id f.1, f.2).

Lemma q_fill_one o n q :
  positive_queue q -> o ∈ q -> 0 < n <= o_remaining o ->
  let q' := q_fill (o_id o, n) q in
  positive_queue q' /\ sumZ o_remaining q' = sumZ o_remaining q - n /\
  (length q' <= length q)%nat /\ (forall x, x ∈ q -> o_id x <> o_id o -> x ∈ q') /\
  (o_id <$> q') ⊆ (o_id <$> q).
Proof.
  intros [Hp Hnd] Ho Hn. apply list_elem_of_split in Ho as (l1 & l2 & ->).
  change (o :: l2) with ([o] ++ l2) in *. cbv zeta. unfold q_fill. cbn [fst snd].
  rewrite q_edit_split by done.
  set (r := refill o (o_remaining o - n)).
  assert (Forall (fun x => 0 < o_remaining x) r /\ sumZ o_remaining r = o_remaining o - n /\
          (length r <= 1)%nat /\ sublist (o_id <$> r) [o_id o]) as (R1 & R2 & R3 & R4).
  { unfold r, refill. case_if; rewrite ?sumZ_cons, ?sumZ_nil; simpl.
    - split_and!; [constructor | lia | lia | apply sublist_nil_l].
    - split_and!; [repeat constructor; simpl; lia | lia | lia | done]. }
  assert (sublist (o_id <$> l1 ++ r ++ l2) (o_id <$> l1 ++ [o] ++ l2)) as Hsub.
  { rewrite !fmap_app. apply sublist_app; [done|]. by apply sublist_app. }
  rewrite !Forall_app in Hp. destruct Hp as (H1 & H2 & H3).
  unfold positive_queue. split_and!.
  - rewrite !Forall_app. done.
  - by eapply sublist_NoDup.
  - rewrite !sumZ_app, sumZ_cons, sumZ_nil, R2. lia.
  - rewrite !length_app. simpl. lia.
  - intros x Hx Hne. rewrite !elem_of_app in *. destruct Hx as [Hx|[Hx|Hx]]; [tauto| |tauto].
    apply list_elem_of_singleton in Hx as ->. done.
  - intros x Hx. by eapply elem_of_sublist.
Qed.

Lemma q_fills_ok fs q :
  positive_queue q -> NoDup (o_id <$> (fst <$> fs)) ->
  Forall (fun f => f.1 ∈ q /\ 0 < f.2 <= o_remaining f.1) fs ->
  let q' := q_fills (fill_of <$> fs) q in
  fills_valid (fill_of <$> fs) q /\ positive_queue q' /\
  sumZ o_remaining q' = sumZ o_remaining q - sumZ snd fs /\ (length q' <= length q)%nat /\
  (o_id <$> q') ⊆ (o_id <$> q).
Proof.
  revert q. induction fs as [|[o n] fs IH]; intros q Hq Hnd Hf q'; unfold q'.
  - rewrite sumZ_nil, Z.sub_0_r. done.
  - rewrite !fmap_cons in *. apply Forall_cons in Hf as [[Ho Hn] Hf]. apply NoDup_cons in Hnd as [Hni Hnd].
    cbn [fst snd] in *. change (fill_of (o, n)) with (o_id o, n).
    change (q_fills ((o_id o, n) :: (fill_of <$> fs)) q)
      with (q_fills (fill_of <$> fs) (q_fill (o_id o, n) q)).
    cbn [fills_valid fst snd].
    destruct (q_fill_one o n q Hq Ho Hn) as (Hq1 & Hs1 & Hl1 & Hin1 & Hi1).
    destruct (IH (q_fill (o_id o, n) q)) as (Hv & Hq2 & Hs2 & Hl2 & Hi2); [done | done | |].
    + apply Forall_forall. intros f Hin. rewrite Forall_forall in Hf. destruct (Hf f Hin) as [Hx Hy].
      split; [|done]. apply Hin1; [done|]. intros He. apply Hni. rewrite <-He.
      apply list_elem_of_fmap. exists f.1. split; [done|]. by apply list_elem_of_fmap_2.
    + rewrite sumZ_cons. cbn [snd]. split; [|split; [exact Hq2|split; [lia|split; [lia|by etrans]]]].
      split; [by exists o|exact Hv].
Qed.

Lemma queue_positive b sd p : book_inv b -> positive_queue (queue b sd p).
Proof. intros Hb. split; [apply (queue_total b sd p Hb)|by apply queue_nodup]. Qed.

(** *** All orders of a side *)
Lemma ladder_queue b sd p q : book_inv b -> (p, q) ∈ ladder b sd <-> q = queue b sd p /\ q <> [].
Proof. intros [m Hbk]. apply (ladder_elem _ _ Hbk). Qed.

Lemma ladder_order b sd o : book_inv b ->
  o ∈ (ladder b sd ≫= snd) <-> o ∈ queue b sd (o_price o).
Proof.
  intros Hb. rewrite list_elem_of_bind. split.
  - intros ([p q] & Ho & Hin). simpl in Ho. apply (ladder_queue _ _ _ _ Hb) in Hin as [-> _].
    destruct (queue_order b sd p o Hb Ho) as (_ & -> & _). done.
  - intros Ho. exists (o_price o, queue b sd (o_price o)). split; [done|].
    apply (ladder_queue _ _ _ _ Hb). split; [done|]. intros H. rewrite H in Ho. set_solver.
Qed.

Lemma ladder_ids b sd : book_inv b -> NoDup (o_id <$> (ladder b sd ≫= snd)).
Proof.
  intros Hb. assert (forall p q, (p, q) ∈ ladder b sd -> q = queue b sd p) as Hq
    by (intros p q H; by apply (ladder_queue _ _ _ _ Hb) in H as [? _]).
  pose proof Hb as [m Hbk]. pose proof (ladder_nodup b m Hbk sd) as Hnd.
  induction (ladder b sd) as [|[p q] l IH]; [constructor|].
  rewrite fmap_cons in Hnd. apply NoDup_cons in Hnd as [Hni Hnd].
  rewrite bind_cons, fmap_app. assert (q = queue b sd p) as -> by (apply Hq; set_solver).
  apply NoDup_app. split_and!; [by apply queue_nodup | | apply IH; [set_solver|done]].
  intros id (o & -> & Ho)%list_elem_of_fmap (o' & Hid & Ho')%list_elem_of_fmap.
  apply list_elem_of_bind in Ho' as ([p' q'] & Ho' & Hin). simpl in Ho'.
  assert (q' = queue b sd p') as -> by (apply Hq; set_solver).
  destruct (queue_order b sd p o Hb Ho) as (_ & Hp & _ & _ & Hr).
  destruct (queue_order b sd p' o' Hb Ho') as (_ & Hp' & _ & _ & Hr').
  rewrite Hid, Hr' in Hr. injection Hr as ->. apply Hni.
  apply list_elem_of_fmap. exists (p', queue b sd p'). split; [|done]. simpl. congruence.
Qed.

(** The number of orders on a side is bounded by the slots in use. *)
Lemma ladder_count b sd : book_inv b ->
  Z.of_nat (length (ladder b sd ≫= snd)) <= used b.
Proof.
  intros Hb. unfold used. apply inj_le. pose proof Hb as [m Hbk].
  transitivity (size (locate b)); [|by eapply locate_size].
  rewrite <-(length_fmap o_id), <-(length_map_to_list (locate b)), <-(length_fmap fst).
  apply submseteq_length, NoDup_submseteq; [by apply ladder_ids|].
  intros id (o & -> & Ho)%list_elem_of_fmap. apply (ladder_order _ _ _ Hb) in Ho.
  destruct (queue_order _ _ _ _ Hb Ho) as (_ & _ & _ & _ & Hr). unfold resting in Hr.
  destruct (locate b !! o_id o) as [s|] eqn:Hl; [|done].
  apply list_elem_of_fmap. exists (o_id o, s). split; [done|]. by apply elem_of_map_to_list.
Qed.

(** *** Iteration over the id index *)

(** [entries] is some iteration order of the id index. *)
Definition hash_order (b : OrderBook) (entries : list (Z * nat)) : Prop :=
  entries ≡ₚ map_to_list (locate b).

Lemma iter_loop b entries acc : book_inv b -> (forall e, e ∈ entries -> locate b !! e.1 = Some e.2) ->
  exists os, ofold (fun acc e => let! o := OrderPool.get (pool b) e.2 in Ret (acc ++ [o])) acc entries =
      Ret (acc ++ os) /\ (o_id <$> os) = (fst <$> entries) /\
    Forall (fun o => resting b (o_id o) = Some o) os.
Proof.
  intros Hb. revert acc. induction entries as [|[id s] es IH]; intros acc H.
  - exists []. cbn. rewrite app_nil_r. done.
  - assert (locate b !! id = Some s) as Hl by (apply (H (id, s)); set_solver).
    assert (exists o, slots (pool b) !! s = Some o /\ o_id o = id /\ resting b id = Some o) as (o & Ho & Hid & Hr).
    { destruct Hb as [m Hbk]. destruct (locate_queue _ _ _ _ _ Hbk Hl) as (o & lv & Ho & Hid & _).
      exists o. split_and!; try done. unfold resting. rewrite Hl. done. }
    cbn [ofold snd]. unfold OrderPool.get at 1. rewrite Ho. cbn [expect obind].
    destruct (IH (acc ++ [o])) as (os & -> & E & Hf); [set_solver|].
    exists (o :: os). rewrite <-app_assoc. rewrite !fmap_cons, E. cbn [fst].
    split_and!; [done | by rewrite Hid | by constructor; [rewrite Hid|]].
Qed.

Lemma iter_orders_ok b entries : book_inv b -> hash_order b entries ->
  exists os, iter_orders entries b = Ret os /\ NoDup (o_id <$> os) /\
    Z.of_nat (length os) <= used b /\
    (forall o, o ∈ os <-> resting b (o_id o) = Some o) /\
    (forall o, o ∈ os <-> o ∈ queue b (o_side o) (o_price o)).
Proof.
  intros Hb Hh. destruct (iter_loop b entries [] Hb) as (os & E & Hids & Hf).
  { intros [id s] Hin. rewrite Hh in Hin. by apply elem_of_map_to_list in Hin. }
  exists os. split; [exact E|]. split.
  - rewrite Hids, Hh. apply NoDup_fst_map_to_list.
  - split.
    { rewrite <-(length_fmap o_id), Hids, Hh, length_fmap, length_map_to_list. unfold used. apply inj_le.
      destruct Hb as [m Hbk]. by eapply locate_size. }
    assert (forall o, o ∈ os <-> resting b (o_id o) = Some o) as Hin.
    { intros o. rewrite Forall_forall in Hf. split; [by apply Hf|]. intros Hr.
      assert (o_id o ∈ o_id <$> os) as (o' & Hid & Hin)%list_elem_of_fmap.
      { rewrite Hids, Hh. apply list_elem_of_fmap. unfold resting in Hr.
        destruct (locate b !! o_id o) as [s|] eqn:Hl; [|done]. exists (o_id o, s). split; [done|].
        by apply elem_of_map_to_list. }
      specialize (Hf o' Hin). simpl in Hf. rewrite <-Hid, Hr in Hf. by injection Hf as ->. }
    split; [done|]. intros o. rewrite Hin, (resting_queue _ _ _ Hb). naive_solver.
Qed.

Lemma orders_of_user_ok b entries u : book_inv b -> hash_order b entries ->
  exists ids, orders_of_user entries b u = Ret ids /\ NoDup ids /\
    forall id, id ∈ ids <-> exists o, resting b id = Some o /\ o_user o = u.
Proof.
  intros Hb Hh. unfold orders_of_user.
  assert (forall es acc, (forall e, e ∈ es -> locate b !! e.1 = Some e.2) ->
    exists ids, ofold (fun acc e => let! o := OrderPool.get (pool b) e.2 in
        Ret (if o_user o =? u then acc ++ [e.1] else acc)) acc es = Ret (acc ++ ids) /\
      sublist ids (fst <$> es) /\
      forall id, id ∈ ids <-> id ∈ fst <$> es /\ exists o, resting b id = Some o /\ o_user o = u) as Hloop.
  { induction es as [|[id s] es IH]; intros acc H.
    - exists []. cbn. rewrite app_nil_r. split_and!; [done | constructor | set_solver].
    - assert (locate b !! id = Some s) as Hl by (apply (H (id, s)); set_solver).
      assert (exists o, slots (pool b) !! s = Some o /\ resting b id = Some o) as (o & Ho & Hr).
      { destruct Hb as [m Hbk]. destruct (locate_queue _ _ _ _ _ Hbk Hl) as (o & lv & Ho & Hid & _).
        exists o. split; [done|]. unfold resting. rewrite Hl. done. }
      cbn [ofold fst snd]. unfold OrderPool.get at 1. rewrite Ho. cbn [expect obind].
      destruct (Z.eqb_spec (o_user o) u) as [Hu|Hu].
      + destruct (IH (acc ++ [id])) as (ids & -> & Hs & Hin); [set_solver|].
        exists (id :: ids). rewrite <-app_assoc, fmap_cons. cbn [fst].
        split_and!; [done | by apply sublist_skip |]. intros x. rewrite !elem_of_cons, Hin. naive_solver.
      + destruct (IH acc) as (ids & -> & Hs & Hin); [set_solver|].
        exists ids. rewrite fmap_cons. cbn [fst]. split_and!; [done | by apply sublist_cons |].
        intros x. rewrite elem_of_cons, Hin. split; [naive_solver|].
        intros [[->|?] Hx]; [|done]. destruct Hx as (o' & H1 & H2). congruence. }
  destruct (Hloop entries []) as (ids & E & Hs & Hin).
  { intros [id s] Hin. rewrite Hh in Hin. by apply elem_of_map_to_list in Hin. }
  exists ids. split; [exact E|]. split.
  - eapply sublist_NoDup; [|exact Hs]. rewrite Hh. apply NoDup_fst_map_to_list.
  - intros id. rewrite Hin. split; [by intros [_ ?]|]. intros Hx. split; [|done].
    destruct Hx as (o & Hr & _). rewrite Hh. apply list_elem_of_fmap. unfold resting in Hr.
    destruct (locate b !! id) as [s|] eqn:Hl; [|done]. exists (id, s). split; [done|]. by apply elem_of_map_to_list.
Qed.

End BookFacts.
