(* ===== verification/Engine.v ===== *)
(** * The matching engine

    [src/src/engine.rs]: order intake, the crossing loop, time-in-force and
    budget handling, self-trade prevention, amendment and restore.  The strategy
    is a parameter of the engine; the theorems ask of it only the contract
    [AllocContract] of [Strategy], except those on strict price-time matching. *)

From S2P Require Import Prelude Types Strategy LevelIndex Book.

Inductive SelfTradePolicy := Allow | CancelTaker | CancelMaker | CancelBoth.

#[export] Instance SelfTradePolicy_eq_dec : EqDecision SelfTradePolicy.
Proof. solve_decision. Defined.

(** The scratch buffers of the source are cleared before each use and carry no
    state between calls. *)
Record MatchingEngine := mkEngine {
  book : OrderBook;
  strategy : MatchingStrategy;
  seq : Timestamp;
  stp : SelfTradePolicy;
  stp_cancelled : list OrderId
}.

(** What the crossing loop mutates: the book, the taker's [remaining], the
    trade buffer, the budget and the list of makers STP cancelled. *)
Record CrossState := mkCross {
  c_book : OrderBook;
  c_remaining : Qty;
  c_trades : list Trade;
  c_budget : Z;
  c_stp : list OrderId
}.

Module MatchingEngine.

(** [MatchingEngine::with_pool]. *)
Definition new (s : MatchingStrategy) : MatchingEngine :=
  mkEngine OrderBook.new s 0 Allow [].

Definition with_stp (e : MatchingEngine) (p : SelfTradePolicy) : MatchingEngine :=
  mkEngine (book e) (strategy e) (seq e) p (stp_cancelled e).

Definition with_book (e : MatchingEngine) (b : OrderBook) : MatchingEngine :=
  mkEngine b (strategy e) (seq e) (stp e) (stp_cancelled e).

(** [sort_by_key(|o| o.timestamp)]: a stable sort. *)
Definition by_timestamp (a b : Order) : Prop := o_timestamp a <= o_timestamp b.

#[export] Instance by_timestamp_dec : RelDecision by_timestamp.
Proof. unfold RelDecision, by_timestamp; intros; apply _. Defined.

(** [entries] is the iteration order of the id index. *)
Definition export_orders (entries : list (Z * nat)) (e : MatchingEngine) : outcome (list Order) :=
  let! os := OrderBook.iter_orders entries (book e) in
  Ret (merge_sort by_timestamp os).

Definition restore (e : MatchingEngine) (sq : Timestamp) (os : list Order) : outcome MatchingEngine :=
  let! b := ofold OrderBook.insert (book e) os in
  Ret (mkEngine b (strategy e) sq (stp e) (stp_cancelled e)).

Definition cancel_ids (b : OrderBook) (ids : list OrderId) : outcome OrderBook :=
  ofold (fun b id => let! r := OrderBook.cancel b id in Ret r.1) b ids.

Definition cancel_all_for_user (entries : list (Z * nat)) (e : MatchingEngine) (user : UserId)
  : outcome (MatchingEngine * list OrderId) :=
  let! ids := OrderBook.orders_of_user entries (book e) user in
  let! b := cancel_ids (book e) ids in
  Ret (with_book e b, ids).

Definition cancel (e : MatchingEngine) (id : OrderId) : outcome (MatchingEngine * bool) :=
  let! r := OrderBook.cancel (book e) id in
  Ret (with_book e r.1, bool_decide (is_Some r.2)).

(** Limit orders only cross at their price or better. *)
Definition crossable (order : Order) (px : Price) : bool :=
  match o_type order with
  | Limit =>
      match o_side order with
      | Buy => px <=? o_price order
      | Sell => o_price order <=? px
      end
  | Market => true
  end.

(** One allocation: the trade, the taker's quantity, the budget and the fill. *)
Definition execute (sq : Timestamp) (order : Order) (px : Price) (view : list RestingOrder)
    (st : list Trade * Qty * Z * list (OrderId * Qty)) (a : Allocation)
  : outcome (list Trade * Qty * Z * list (OrderId * Qty)) :=
  let '(trades, remaining, budget_left, fills) := st in
  if a_qty a =? 0 then Ret st
  else
    let! maker := expect (view !! Z.to_nat (a_idx a)) "index out of bounds" in
    Ret (trades ++ [mkTrade (o_id order) (a_id a) (o_side order) px (a_qty a) sq
                      (r_user maker) (o_user order)],
         wrap64 (remaining - a_qty a),
         saturating_sub budget_left (wrap128 (px * a_qty a)),
         fills ++ [(a_id a, a_qty a)]).

(** Pull the taker's own makers off the level. *)
Definition pull_own (user : UserId) (st : OrderBook * list OrderId) (r : RestingOrder)
  : outcome (OrderBook * list OrderId) :=
  if r_user r =? user then
    let! c := OrderBook.cancel st.1 (r_id r) in
    Ret (c.1, st.2 ++ [r_id r])
  else Ret st.

(** The second half of an iteration: allocate, execute and apply the fills. *)
Definition fill_level (e : MatchingEngine) (order : Order) (px : Price) (affordable : Qty)
    (view : list RestingOrder) (st : CrossState) : outcome (CrossState + CrossState * bool) :=
  match view with
  | [] => Ret (inl st)
  | _ =>
      let! al := allocate_into (strategy e) view affordable [] in
      match al with
      | [] => Ret (inr (st, false))
      | _ =>
          let! x := ofold (execute (seq e) order px view)
                      (c_trades st, c_remaining st, c_budget st, []) al in
          let '(trades, remaining, budget_left, fills) := x in
          match fills with
          | [] => Ret (inr (mkCross (c_book st) remaining trades budget_left (c_stp st), false))
          | _ =>
              let! b := OrderBook.apply_fills (c_book st) (opposite (o_side order)) px fills in
              Ret (inl (mkCross b remaining trades budget_left (c_stp st)))
          end
      end
  end.

(** One iteration of the [while] loop of [cross]: continue ([inl]) or leave it
    with the return value [taker_stopped] ([inr]).  [order] holds the fields of
    the taker that the loop only reads. *)
Definition cross_body (e : MatchingEngine) (order : Order) (st : CrossState)
  : outcome (CrossState + CrossState * bool) :=
  let taker := o_side order in
  let maker_side := opposite taker in
  if negb (0 <? c_remaining st) then Ret (inr (st, false))
  else
    let! best := OrderBook.best (c_book st) maker_side in
    match best with
    | None => Ret (inr (st, false))
    | Some px =>
        if negb (crossable order px) then Ret (inr (st, false))
        else
          let affordable := Z.min (c_budget st / Z.max px 1) (c_remaining st) in
          if affordable =? 0 then Ret (inr (st, false))
          else
            let! v := (if full_level_required (strategy e)
                       then OrderBook.level_view_into (c_book st) maker_side px
                       else OrderBook.level_view_capped (c_book st) maker_side px affordable) in
            let '(b, view) := v in
            let st := mkCross b (c_remaining st) (c_trades st) (c_budget st) (c_stp st) in
            if negb (bool_decide (stp e = Allow)) && negb (o_user order =? 0) &&
               existsb (fun r => r_user r =? o_user order) view
            then
              match stp e with
              | CancelTaker => Ret (inr (st, true))
              | _ =>
                  let! p := ofold (pull_own (o_user order)) (b, c_stp st) view in
                  let st := mkCross p.1 (c_remaining st) (c_trades st) (c_budget st) p.2 in
                  if bool_decide (stp e = CancelBoth) then Ret (inr (st, true)) else Ret (inl st)
              end
            else
              fill_level e order px affordable view st
    end.

(** Every iteration that continues takes a lot from the taker or an order from
    the book. *)
Definition cross_bound (b : OrderBook) (remaining : Qty) : positive :=
  Z.to_pos (remaining + Z.of_nat (length (slots (pool b))) + 1).

Definition cross (e : MatchingEngine) (order : Order) (st : CrossState)
  : outcome (CrossState * bool) :=
  loop (cross_bound (c_book st) (c_remaining st)) (cross_body e order) st.

Definition is_filled_status (filled : Qty) (otherwise : OrderStatus) : OrderStatus :=
  if 0 <? filled then PartiallyFilled else otherwise.

Definition finalize (e : MatchingEngine) (order : Order)
  : outcome (MatchingEngine * (OrderId * OrderStatus * Qty * bool)) :=
  let filled := wrap64 (o_quantity order - o_remaining order) in
  if o_remaining order =? 0 then Ret (e, (o_id order, Filled, filled, false))
  else
    match o_type order, o_tif order with
    | Limit, Gtc =>
        let! b := OrderBook.insert (book e) order in
        Ret (with_book e b, (o_id order, is_filled_status filled Resting, filled, true))
    | _, _ => Ret (e, (o_id order, is_filled_status filled Cancelled, filled, false))
    end.

(** The budget translation at the top of [submit_into]: the rewritten order and
    the notional budget, or the rejection of a [FokBudget] buy. *)
Definition apply_budget (b : OrderBook) (order : Order) : outcome (option (Order * Z)) :=
  match o_tif order with
  | IocBudget | FokBudget =>
      let budget := o_price order in
      match o_side order with
      | Sell =>
          let q := Z.max (o_quantity order) 1 in
          let price := wrap64 (wrap64 (budget + q) - 1) / q in
          let tif := match o_tif order with FokBudget => Fok | _ => Ioc end in
          Ret (Some (Order.with_tif (Order.set_price order price) tif, U128_MAX))
      | Buy =>
          let order' := Order.set_price order U64_MAX in
          match o_tif order with
          | FokBudget =>
              let! c := OrderBook.cost_to_fill b Buy (o_quantity order) in
              if (c.1 <? o_quantity order) || (budget <? c.2) then Ret None
              else Ret (Some (Order.with_tif order' IocBudget, budget))
          | _ => Ret (Some (order', budget))
          end
      end
  | _ => Ret (Some (order, U128_MAX))
  end.

(** The pre-trade rejections of [submit_into]. *)
Definition fok_short (b : OrderBook) (order : Order) : outcome bool :=
  match o_tif order with
  | Fok =>
      let! q := OrderBook.crossable_qty b (o_side order) (o_price order) in
      Ret (q <? o_remaining order)
  | _ => Ret false
  end.

(** [trades] is the caller's buffer; the result is
    [(order_id, status, filled, resting)]. *)
Definition submit_into (e : MatchingEngine) (order : Order) (trades : list Trade)
  : outcome (MatchingEngine * list Trade * (OrderId * OrderStatus * Qty * bool)) :=
  let e := mkEngine (book e) (strategy e) (wrap64 (seq e + 1)) (stp e) [] in
  let order := Order.set_remaining (Order.set_timestamp order (seq e)) (o_quantity order) in
  let! bo := apply_budget (book e) order in
  match bo with
  | None => Ret (e, trades, (o_id order, Rejected, 0, false))
  | Some (order, budget_left) =>
      let! short := fok_short (book e) order in
      if short : bool then Ret (e, trades, (o_id order, Rejected, 0, false))
      else
        let! c := cross e order (mkCross (book e) (o_remaining order) trades budget_left []) in
        let st := c.1 in
        let e := mkEngine (c_book st) (strategy e) (seq e) (stp e) (c_stp st) in
        let order := Order.set_remaining order (c_remaining st) in
        if c.2 : bool then
          let filled := wrap64 (o_quantity order - o_remaining order) in
          Ret (e, c_trades st, (o_id order, is_filled_status filled Cancelled, filled, false))
        else
          let! r := finalize e order in
          Ret (r.1, c_trades st, r.2)
  end.

Definition submit (e : MatchingEngine) (order : Order) : outcome (MatchingEngine * SubmitReport) :=
  let! r := submit_into e order [] in
  let '(e, trades, (order_id, status, filled, resting)) := r in
  Ret (e, mkSubmitReport order_id status filled trades resting).

Definition modify (e : MatchingEngine) (id : OrderId) (new_price : Price) (new_qty : Qty)
  : outcome (MatchingEngine * ModifyOutcome) :=
  let! o := OrderBook.get (book e) id in
  match o with
  | None => Ret (e, MNotFound)
  | Some existing =>
      if (new_price =? o_price existing) && (new_qty <=? o_remaining existing) then
        if new_qty =? 0 then
          let! r := OrderBook.cancel (book e) id in
          Ret (with_book e r.1, MCancelled id)
        else
          let! r := OrderBook.reduce (book e) id new_qty in
          Ret (with_book e r.1, MReduced id new_qty)
      else
        let! r := OrderBook.cancel (book e) id in
        let! order := expect r.2 "located above" in
        let order := Order.set_remaining (Order.set_quantity (Order.set_price order new_price) new_qty)
                       new_qty in
        let! s := submit (with_book e r.1) (Order.with_tif order Gtc) in
        Ret (s.1, MRequoted s.2)
  end.

End MatchingEngine.

(** ** The crossing loop as a step relation

    The loop reads the maker side of the book only through its ladder (best
    price first, each level oldest first).  [cstep] is one continuing iteration
    and [cexit] a leaving one, on the ladder and the loop variables. *)
Record mview := mkView {
  v_ladder : list (Price * list Order);
  v_rem : Qty;
  v_trades : list Trade;
  v_budget : Z;
  v_stp : list OrderId
}.

Section relation.
Import MatchingEngine.
Context (e : MatchingEngine) (order : Order).

Definition affordable (budget : Z) (px : Price) (rem : Qty) : Qty := Z.min (budget / Z.max px 1) rem.

(** The part of the queue shown to the strategy. *)
Definition shown (aff : Qty) (q : list Order) : list Order :=
  if full_level_required (strategy e) then q else q_cap aff 0 q.

Definition stp_on : bool := negb (bool_decide (stp e = Allow)) && negb (o_user order =? 0).

Definition own (o : Order) : bool := o_user o =? o_user order.

Definition own_ids (q : list Order) : list OrderId := o_id <$> filter (fun o => own o = true) q.

(** A queue without the orders [ids]. *)
Definition q_drop (ids : list OrderId) (q : list Order) : list Order :=
  filter (fun o => o_id o ∉ ids) q.

Definition trade_of (px : Price) (f : Order * Qty) : Trade :=
  mkTrade (o_id order) (o_id f.1) (o_side order) px f.2 (seq e) (o_user f.1) (o_user order).

(** The orders the allocations refer to. *)
Definition resolve (q : list Order) (al : list Allocation) : list (Order * Qty) :=
  omap (fun a => o ← q !! Z.to_nat (a_idx a); Some (o, a_qty a)) al.

Inductive cstep : mview -> mview -> Prop :=
| step_fill px q rest rem ts budget pulled aff al fs :
    0 < rem -> crossable order px = true -> aff = affordable budget px rem -> 0 < aff ->
    (stp_on = true -> Forall (fun o => own o = false) (shown aff q)) ->
    allocate_into (strategy e) (OrderBook.to_resting <$> shown aff q) aff [] = Ret al ->
    fs = resolve (shown aff q) al ->
    BookFacts.positive_queue q -> q <> [] ->
    NoDup (o_id <$> (fst <$> fs)) ->
    Forall (fun f => f.1 ∈ shown aff q /\ 0 < f.2 <= o_remaining f.1) fs ->
    sumZ snd fs = Z.min aff (sumZ o_remaining q) ->
    cstep (mkView ((px, q) :: rest) rem ts budget pulled)
      (mkView (push_level px (BookFacts.q_fills (BookFacts.fill_of <$> fs) q) rest)
         (rem - sumZ snd fs) (ts ++ (trade_of px <$> fs)) (budget - px * sumZ snd fs) pulled)
| step_pull px q rest rem ts budget pulled aff :
    0 < rem -> crossable order px = true -> aff = affordable budget px rem -> 0 < aff ->
    stp_on = true -> stp e = CancelMaker -> own_ids (shown aff q) <> [] ->
    cstep (mkView ((px, q) :: rest) rem ts budget pulled)
      (mkView (push_level px (q_drop (own_ids (shown aff q)) q) rest) rem ts budget
         (pulled ++ own_ids (shown aff q))).

(** The loop ends: nothing left to fill, nothing to cross, no budget; or
    self-trade prevention stops the taker. *)
Inductive cexit : mview -> mview -> bool -> Prop :=
| exit_filled v : v_rem v = 0 -> cexit v v false
| exit_empty v : 0 < v_rem v -> v_ladder v = [] -> cexit v v false
| exit_limit v px q rest :
    0 < v_rem v -> v_ladder v = (px, q) :: rest -> crossable order px = false -> cexit v v false
| exit_budget v px q rest :
    0 < v_rem v -> v_ladder v = (px, q) :: rest -> crossable order px = true ->
    affordable (v_budget v) px (v_rem v) = 0 -> cexit v v false
| exit_taker v px q rest :
    0 < v_rem v -> v_ladder v = (px, q) :: rest -> stp_on = true -> stp e = CancelTaker ->
    own_ids q <> [] -> crossable order px = true -> cexit v v true
| exit_both px q rest rem ts budget pulled aff :
    0 < rem -> crossable order px = true -> aff = affordable budget px rem -> 0 < aff ->
    stp_on = true -> stp e = CancelBoth -> own_ids (shown aff q) <> [] ->
    cexit (mkView ((px, q) :: rest) rem ts budget pulled)
      (mkView (push_level px (q_drop (own_ids (shown aff q)) q) rest) rem ts budget
         (pulled ++ own_ids (shown aff q))) true.

End relation.

Module EngineFacts.
Import BookFacts MatchingEngine.

(** *** Resolving allocations *)
Lemma contract_resolve q aff al :
  contract (OrderBook.to_resting <$> q) aff al -> NoDup (o_id <$> q) ->
  let fs := resolve q al in
  (fill_of <$> fs) = ((fun a => (a_id a, a_qty a)) <$> al) /\
  NoDup (o_id <$> (fst <$> fs)) /\
  Forall (fun f => f.1 ∈ q /\ 0 < f.2 <= o_remaining f.1) fs /\
  sumZ snd fs = Z.min aff (sumZ o_remaining q).
Proof.
  intros (Hv & Hnd & Hs) Hid fs.
  assert (sumZ r_remaining (OrderBook.to_resting <$> q) = sumZ o_remaining q) as Hsum
    by apply (sumZ_map OrderBook.to_resting).
  rewrite Hsum in Hs. rewrite <-Hs. clear Hs Hsum. unfold fs. clear fs.
  induction Hv as [|a al (Ha & Hi & r & Hr & Hra & Hle) Hv IH].
  - cbn. rewrite !sumZ_nil. split_and!; try done; constructor.
  - simpl in Hnd. apply NoDup_cons in Hnd as [Hni Hnd]. destruct (IH Hnd) as (E1 & E2 & E3 & E4).
    rewrite list_lookup_fmap in Hr. apply fmap_Some in Hr as (o & Ho & ->).
    unfold OrderBook.to_resting in Hra, Hle. simpl in Hra, Hle.
    assert (resolve q (a :: al) = (o, a_qty a) :: resolve q al) as -> by (unfold resolve; simpl; by rewrite Ho).
    rewrite !fmap_cons, !sumZ_cons, E1, E4. cbn [fst snd]. unfold fill_of. cbn [fst snd]. rewrite Hra.
    split; [done|]. split; [|split; [|done]].
    + constructor; [|done]. intros Hin. apply Hni.
      apply list_elem_of_fmap in Hin as (o' & Hoo & Hin). apply list_elem_of_fmap in Hin as ([o1 n] & -> & Hin).
      unfold resolve in Hin. apply list_elem_of_omap in Hin as (a' & Ha' & Hq).
      destruct (q !! Z.to_nat (a_idx a')) as [o2|] eqn:Hq2; [|done]. simpl in Hq. injection Hq as -> _.
      simpl in Hoo.
      assert (Z.to_nat (a_idx a) = Z.to_nat (a_idx a')) as Heq.
      { apply (NoDup_lookup (o_id <$> q) _ _ (o_id o)); [done| |];
          rewrite list_lookup_fmap; [rewrite Ho | rewrite Hq2]; simpl; congruence. }
      rewrite Forall_forall in Hv. destruct (Hv a' Ha') as (_ & Hi' & _).
      replace (a_idx a) with (a_idx a') by lia. by apply list_elem_of_fmap_2.
    + constructor; [|done]. split; [by eapply list_elem_of_lookup_2|]. simpl. lia.
Qed.

(** The allocation loop of [cross]. *)
Lemma execute_loop sq order px q al ts rem budget fills :
  Forall (alloc_valid (OrderBook.to_resting <$> q)) al ->
  is_u64 px -> sumZ a_qty al <= rem <= U64_MAX -> px * sumZ a_qty al <= budget ->
  ofold (execute sq order px (OrderBook.to_resting <$> q)) (ts, rem, budget, fills) al =
  Ret (ts ++ ((fun f => mkTrade (o_id order) (o_id f.1) (o_side order) px f.2 sq (o_user f.1) (o_user order))
                <$> resolve q al),
       rem - sumZ a_qty al, budget - px * sumZ a_qty al,
       fills ++ ((fun a => (a_id a, a_qty a)) <$> al)).
Proof.
  intros Hv Hpx. revert ts rem budget fills.
  induction Hv as [|a al (Ha & Hi & r & Hr & Hra & Hle) Hv IH]; intros ts rem budget fills Hrem Hb.
  - cbn. rewrite sumZ_nil. rewrite !app_nil_r, Z.mul_0_r, !Z.sub_0_r. done.
  - rewrite sumZ_cons in *.
    assert (0 <= sumZ a_qty al) as Hnn.
    { apply sumZ_nonneg. eapply Forall_impl; [exact Hv|]. intros x (H & _). lia. }
    cbn [ofold]. unfold execute at 1. case_if; [lia|]. rewrite Hr. cbn [expect obind].
    rewrite list_lookup_fmap in Hr. apply fmap_Some in Hr as (o & Ho & ->).
    unfold OrderBook.to_resting in Hra, Hle. simpl in Hra, Hle.
    unfold is_u64 in Hpx.
    rewrite wrap64_small by (unfold_width; lia).
    rewrite wrap128_small by (unfold_width; nia).
    unfold saturating_sub. rewrite Z.max_r by nia.
    rewrite IH by nia.
    assert (resolve q (a :: al) = (o, a_qty a) :: resolve q al) as -> by (unfold resolve; simpl; by rewrite Ho).
    rewrite !fmap_cons, <-!app_assoc. cbn [fst snd]. rewrite Hra. cbn [app].
    replace (rem - (a_qty a + sumZ a_qty al)) with (rem - a_qty a - sumZ a_qty al) by lia.
    replace (budget - px * (a_qty a + sumZ a_qty al))
      with (budget - px * a_qty a - px * sumZ a_qty al) by lia. done.
Qed.

(** *** Pulling the taker's own makers *)
Lemma q_set_zero id q : q_set id 0 q = filter (fun o => o_id o <> id) q.
Proof.
  induction q as [|x q IH]; [done|]. unfold q_set in *. rewrite q_edit_cons, filter_cons, IH.
  unfold refill. case_if; case_decide; done.
Qed.

Lemma q_drop_nil q : q_drop [] q = q.
Proof.
  unfold q_drop. induction q as [|x q IH]; [done|]. rewrite filter_cons, decide_True, IH; [done|].
  apply not_elem_of_nil.
Qed.

Lemma q_drop_cons id ids q : q_drop (id :: ids) q = q_drop ids (q_set id 0 q).
Proof.
  rewrite q_set_zero. unfold q_drop. induction q as [|x q IH]; [done|].
  rewrite !filter_cons. case_decide as H1; case_decide as H2.
  - rewrite filter_cons, decide_True by set_solver. by rewrite IH.
  - set_solver.
  - rewrite filter_cons, decide_False by set_solver. done.
  - done.
Qed.

Lemma edited_refl b sd p : edited b b sd p (fun q => q).
Proof. done. Qed.

Lemma edited_ext b b' sd p f g : edited b b' sd p f -> (forall q, f q = g q) -> edited b b' sd p g.
Proof. intros [H1 H2] H. split; [by rewrite H1, H|done]. Qed.

Lemma own_ids_cons order o q : own_ids order (o :: q) =
  if own order o then o_id o :: own_ids order q else own_ids order q.
Proof. unfold own_ids. rewrite filter_cons. destruct (own order o) eqn:E; by case_decide. Qed.

Lemma own_ids_app order q1 q2 : own_ids order (q1 ++ q2) = own_ids order q1 ++ own_ids order q2.
Proof. unfold own_ids. by rewrite filter_app, fmap_app. Qed.

Lemma pull_loop order sd px vw b ids :
  book_inv b -> (forall o, o ∈ vw -> o ∈ queue b sd px) -> NoDup (o_id <$> vw) ->
  exists b', ofold (pull_own (o_user order)) (b, ids) (OrderBook.to_resting <$> vw) =
      Ret (b', ids ++ own_ids order vw) /\ book_inv b' /\
    edited b b' sd px (q_drop (own_ids order vw)) /\ used b' = used b.
Proof.
  revert b ids. induction vw as [|o vw IH]; intros b ids Hb Hin Hnd.
  - exists b. cbn. rewrite app_nil_r. split_and!; try done.
    eapply edited_ext; [apply edited_refl|]. intros q. by rewrite q_drop_nil.
  - rewrite fmap_cons in *. apply NoDup_cons in Hnd as [Hni Hnd]. cbn [ofold].
    unfold pull_own at 1. change (r_user (OrderBook.to_resting o)) with (o_user o).
    rewrite own_ids_cons. unfold own. destruct (o_user o =? o_user order) eqn:Ho.
    + cbn [fst snd].
      change (r_id (OrderBook.to_resting o)) with (o_id o).
      destruct (queue_order b sd px o Hb (Hin o ltac:(set_solver))) as (E1 & E2 & _ & _ & Hr).
      pose proof (cancel_spec b (o_id o) Hb) as Hc. rewrite Hr, E1, E2 in Hc.
      destruct Hc as (b1 & -> & Hb1 & Hed & Hu). cbn [obind fst snd].
      destruct (IH b1 (ids ++ [o_id o]) Hb1) as (b2 & E & Hb2 & Hed2 & Hu2); [|done|].
      * intros x Hx. rewrite (proj1 Hed), q_set_zero. apply list_elem_of_filter.
        split; [|apply Hin; set_solver]. intros Hx2. apply Hni. rewrite <-Hx2.
        by apply list_elem_of_fmap_2.
      * exists b2. rewrite E, <-app_assoc. split_and!; try done; [|congruence].
        eapply edited_ext; [exact (edited_trans _ _ _ _ _ _ _ Hed Hed2)|].
        intros q. by rewrite q_drop_cons.
    + cbn [obind]. apply IH; [done | set_solver | done].
Qed.

Lemma shown_subset (e : MatchingEngine) aff q o : o ∈ shown e aff q -> o ∈ q.
Proof.
  unfold shown. case_if; [done|]. destruct (q_cap_prefix aff 0 q) as (rest & Eq & _).
  intros H. rewrite Eq. set_solver.
Qed.

Lemma positive_sum q : positive_queue q -> q <> [] -> 0 < sumZ o_remaining q.
Proof.
  intros [Hp _] Hne. destruct q as [|o q]; [done|]. rewrite sumZ_cons. apply Forall_cons in Hp as [H1 H2].
  assert (0 <= sumZ o_remaining q); [|lia]. apply sumZ_nonneg. eapply Forall_impl; [exact H2|]. simpl. lia.
Qed.

(** *** The loop body implements the relation *)
Section simulation.
Context (e : MatchingEngine) (Hstrat : AllocContract (strategy e)) (order : Order).
Let sd := opposite (o_side order).

Definition view_of (st : CrossState) : mview :=
  mkView (ladder (c_book st) (opposite (o_side order))) (c_remaining st) (c_trades st) (c_budget st)
    (c_stp st).

Definition cross_ok (st : CrossState) : Prop :=
  book_inv (c_book st) /\ is_u64 (c_remaining st) /\ is_u128 (c_budget st).

(** What the loop leaves alone: the taker's side and the slots in use. *)
Definition other_side (st st' : CrossState) : Prop :=
  (forall p, queue (c_book st') (o_side order) p = queue (c_book st) (o_side order) p) /\
  used (c_book st') = used (c_book st).

Lemma shown_sum aff q : 0 < aff -> Forall (fun o => 0 < o_remaining o) q ->
  Z.min aff (sumZ o_remaining (shown e aff q)) = Z.min aff (sumZ o_remaining q) /\
  exists rest, q = shown e aff q ++ rest.
Proof.
  intros Ha Hq. unfold shown. case_if; [split; [done|]; exists []; by rewrite app_nil_r|].
  destruct (q_cap_prefix aff 0 q) as (rest & E1 & E2). split; [|by exists rest].
  destruct E2 as [-> | E2]; [by rewrite app_nil_r in E1; rewrite <-E1|].
  rewrite E1 at 2. rewrite sumZ_app. rewrite E1 in Hq. apply Forall_app in Hq as [_ Hr].
  assert (0 <= sumZ o_remaining rest); [|lia].
  apply sumZ_nonneg. eapply Forall_impl; [exact Hr|]. simpl. lia.
Qed.

Lemma shown_slice b p aff : book_inv b -> 0 < aff ->
  level_slice (OrderBook.to_resting <$> shown e aff (queue b sd p)).
Proof.
  intros Hb Ha. destruct (queue_total b sd p Hb) as (Hp & Hs & Hl & Hu).
  destruct (shown_sum aff (queue b sd p) Ha Hp) as [_ [rest E]].
  rewrite E in Hp, Hs, Hl. rewrite sumZ_app in Hs. rewrite length_app in Hl.
  apply Forall_app in Hp as [Hp1 Hp2].
  assert (0 <= sumZ o_remaining rest).
  { apply sumZ_nonneg. eapply Forall_impl; [exact Hp2|]. simpl. lia. }
  split_and!.
  - apply Forall_fmap. exact Hp1.
  - rewrite (sumZ_map OrderBook.to_resting). change (fun o => r_remaining (OrderBook.to_resting o)) with o_remaining. lia.
  - rewrite length_fmap. lia.
Qed.

Lemma view_shown b px aff :
  book_inv b -> queue b sd px <> [] -> 0 < aff ->
  exists b', (if full_level_required (strategy e) then OrderBook.level_view_into b sd px
              else OrderBook.level_view_capped b sd px aff) =
      Ret (b', OrderBook.to_resting <$> shown e aff (queue b sd px)) /\
    book_inv b' /\ (forall sd' p', queue b' sd' p' = queue b sd' p') /\ used b' = used b.
Proof.
  intros Hb Hq Ha. unfold shown, OrderBook.level_view_into.
  destruct (queue_total b sd px Hb) as (Hp & Hs & _).
  destruct (full_level_required (strategy e)); [|by apply view_spec].
  destruct (view_spec b sd px U64_MAX Hb Hq) as (b' & E & H). exists b'.
  rewrite E, q_cap_all by done. done.
Qed.

Lemma existsb_own vw :
  existsb (fun r => r_user r =? o_user order) (OrderBook.to_resting <$> vw) =
  negb (bool_decide (own_ids order vw = [])).
Proof.
  induction vw as [|o vw IH]; [done|]. rewrite fmap_cons, own_ids_cons. cbn [existsb]. rewrite IH.
  change (r_user (OrderBook.to_resting o)) with (o_user o). unfold own.
  destruct (o_user o =? o_user order); [|done]. by rewrite (bool_decide_false (o_id o :: _ = [])) by congruence.
Qed.

Lemma own_ids_nil vw : own_ids order vw = [] -> Forall (fun o => own order o = false) vw.
Proof.
  induction vw as [|o vw IH]; [done|]. rewrite own_ids_cons. destruct (own order o) eqn:E; [done|].
  intros H. constructor; [done|by apply IH].
Qed.

Lemma other_side_edit st b' rem ts bud ids px f :
  edited (c_book st) b' sd px f -> used b' = used (c_book st) ->
  other_side st (mkCross b' rem ts bud ids).
Proof.
  intros [_ H] Hu. split; [|done]. intros p. apply H. unfold sd. intros [= Hs _].
  by destruct (o_side order).
Qed.

(** The state after the level was viewed. *)
Section level.
Context (st : CrossState) (px : Price) (q : list Order) (rest : list (Price * list Order)) (b : OrderBook).
Context (Hb0 : book_inv (c_book st)) (Hb : book_inv b).
Context (Hsame : forall sd' p', queue b sd' p' = queue (c_book st) sd' p').
Context (Hu : used b = used (c_book st)).
Context (Hl : ladder (c_book st) sd = (px, q) :: rest).
Context (Hrem : 0 < c_remaining st <= U64_MAX) (Hbud : is_u128 (c_budget st)) (Hx : crossable order px = true).
Context (aff : Qty) (Haff : aff = affordable (c_budget st) px (c_remaining st)) (Hpos : 0 < aff).

Lemma level_facts : q = queue b sd px /\ q <> [] /\ is_u64 px /\ ladder b sd = (px, q) :: rest.
Proof.
  destruct (ladder_best (c_book st) sd Hb0) as [_ Hf]. rewrite Hl in Hf.
  apply Forall_cons in Hf as [(Hq & Hne & Hp) _]. simpl in *. rewrite Hsame. split_and!; try done.
  rewrite <-Hl. by apply ladder_same.
Qed.

Lemma level_pull :
  stp_on e order = true -> own_ids order (shown e aff q) <> [] ->
  exists b', ofold (pull_own (o_user order)) (b, c_stp st) (OrderBook.to_resting <$> shown e aff q) =
      Ret (b', c_stp st ++ own_ids order (shown e aff q)) /\ book_inv b' /\
    ladder b' sd = push_level px (q_drop (own_ids order (shown e aff q)) q) rest /\
    other_side st (mkCross b' (c_remaining st) (c_trades st) (c_budget st)
                     (c_stp st ++ own_ids order (shown e aff q))).
Proof.
  intros Hon Hown. destruct level_facts as (Hq & Hne & Hp & Hlad).
  destruct (queue_positive b sd px Hb) as [Hpq Hnd]. rewrite <-Hq in Hpq, Hnd.
  destruct (shown_sum aff q Hpos Hpq) as (_ & tl & E).
  destruct (pull_loop order sd px (shown e aff q) b (c_stp st) Hb) as (b' & E' & Hb' & Hed & Hu').
  - intros o Ho. rewrite <-Hq, E. set_solver.
  - rewrite E, fmap_app in Hnd. by apply NoDup_app in Hnd as (? & _).
  - exists b'. split_and!; try done; [by apply (ladder_edit_head b b' sd px q rest (q_drop (own_ids order (shown e aff q))))|].
    eapply (other_side_edit (mkCross b 0 [] 0 [])) in Hed as [H1 H2]; [|exact Hu'].
    split; [intros p; rewrite H1; apply Hsame | rewrite H2; apply Hu].
Qed.

Lemma level_fill :
  (stp_on e order = true -> own_ids order (shown e aff q) = []) ->
  exists al fs b', allocate_into (strategy e) (OrderBook.to_resting <$> shown e aff q) aff [] = Ret al /\
    al <> [] /\ fs = resolve (shown e aff q) al /\
    ofold (execute (seq e) order px (OrderBook.to_resting <$> shown e aff q))
      (c_trades st, c_remaining st, c_budget st, []) al =
      Ret (c_trades st ++ (trade_of e order px <$> fs), c_remaining st - sumZ snd fs,
           c_budget st - px * sumZ snd fs, fill_of <$> fs) /\
    (fill_of <$> fs) <> [] /\ OrderBook.apply_fills b sd px (fill_of <$> fs) = Ret b' /\
    let st' := mkCross b' (c_remaining st - sumZ snd fs) (c_trades st ++ (trade_of e order px <$> fs))
                 (c_budget st - px * sumZ snd fs) (c_stp st) in
    cstep e order (view_of st) (view_of st') /\ cross_ok st' /\ other_side st st'.
Proof.
  intros Hown. destruct level_facts as (Hq & Hne & Hp & Hlad).
  destruct (queue_positive b sd px Hb) as [Hpq Hnd]. rewrite <-Hq in Hpq, Hnd.
  destruct (shown_sum aff q Hpos Hpq) as (Hss & tl & E).
  assert (0 < sumZ o_remaining q) as Hqp.
  { destruct q as [|o q']; [done|]. rewrite sumZ_cons. apply Forall_cons in Hpq as [H1 H2].
    assert (0 <= sumZ o_remaining q'); [|lia].
    apply sumZ_nonneg. eapply Forall_impl; [exact H2|]. simpl. lia. }
  assert (aff <= c_remaining st /\ px * aff <= c_budget st) as [Ha1 Ha2].
  { rewrite Haff. unfold affordable. split; [lia|]. unfold is_u128 in Hbud. unfold is_u64 in Hp.
    assert (px * (c_budget st / Z.max px 1) <= c_budget st); [|nia].
    pose proof (Z.mul_div_le (c_budget st) (Z.max px 1) ltac:(lia)).
    pose proof (Z.div_pos (c_budget st) (Z.max px 1) ltac:(lia) ltac:(lia)). nia. }
  pose proof (shown_slice b px aff Hb Hpos) as Hslice. rewrite <-Hq in Hslice.
  destruct (allocate_contract (OrderBook.to_resting <$> shown e aff q) aff [] Hslice ltac:(lia))
    as (al & Hal & Hc). cbn [app] in Hal.
  assert (NoDup (o_id <$> shown e aff q)) as Hnds
    by (rewrite E, fmap_app in Hnd; by apply NoDup_app in Hnd as (? & _)).
  destruct (contract_resolve _ _ _ Hc Hnds) as (F1 & F2 & F3 & F4).
  set (fs := resolve (shown e aff q) al) in *.
  assert (sumZ a_qty al = sumZ snd fs) as Hsum.
  { destruct Hc as (_ & _ & ->). rewrite F4. f_equal. apply (sumZ_map OrderBook.to_resting). }
  rewrite Hss in F4.
  assert (Forall (fun f => f.1 ∈ q /\ 0 < f.2 <= o_remaining f.1) fs) as F5.
  { eapply Forall_impl; [exact F3|]. intros f [H1 H2]. split; [|done]. rewrite E. set_solver. }
  destruct (q_fills_ok fs q) as (Hv & _); [done | done | done |].
  assert (0 < sumZ snd fs <= c_remaining st /\ px * sumZ snd fs <= c_budget st /\ 0 <= px * sumZ snd fs)
    as (Hs1 & Hs2 & Hs3).
  { rewrite F4. unfold is_u64 in Hp. clear - Hrem Ha1 Ha2 Hpos Hqp Hp. split; [lia|].
    assert (Z.min aff (sumZ o_remaining q) <= aff) by lia. nia. }
  assert (fs <> []) as Hfs by (intros H; rewrite H, sumZ_nil in F4; lia).
  assert ((fill_of <$> fs) <> []) as Hfs' by (by destruct fs).
  destruct (fills_spec b sd px (fill_of <$> fs) Hb Hfs') as (b' & Hap & Hb' & Hed & Hu');
    [by rewrite <-Hq|].
  exists al, fs, b'. cbv zeta. split_and!; try done.
  - intros ->. done.
  - rewrite execute_loop; [| apply Hc | done | rewrite Hsum; clear - Hs1 Hrem; lia | by rewrite Hsum].
    fold fs. rewrite Hsum, <-F1. done.
  - unfold view_of. cbn [c_book c_remaining c_trades c_budget c_stp]. fold sd. rewrite Hl.
    rewrite (ladder_edit_head b b' sd px q rest _ Hb Hb' Hed Hlad).
    apply (step_fill e order px q rest (c_remaining st) (c_trades st) (c_budget st) (c_stp st) aff al fs);
      try done; try lia.
    intros Hon. apply own_ids_nil. by apply Hown.
  - unfold cross_ok. cbn. unfold_width. clear - Hb' Hs1 Hs2 Hs3 Hrem Hbud. split; [done|]. lia.
  - eapply (other_side_edit (mkCross b 0 [] 0 [])) in Hed as [H1 H2]; [|exact Hu'].
    split; [intros p; rewrite H1; apply Hsame | rewrite H2; apply Hu].
Qed.

End level.

Lemma cross_body_sim st : cross_ok st ->
  exists r, cross_body e order st = Ret r /\
    match r with
    | inl st' => cstep e order (view_of st) (view_of st') /\ cross_ok st' /\ other_side st st'
    | inr (st', stopped) =>
        cexit e order (view_of st) (view_of st') stopped /\ cross_ok st' /\ other_side st st'
    end.
Proof.
  intros (Hb & Hrem & Hbud). unfold is_u64 in Hrem. unfold cross_body. fold sd.
  destruct (Z.ltb_spec 0 (c_remaining st)) as [Hpos|]; cbn [negb].
  2:{ eexists. split; [done|]. split_and!; try done. apply exit_filled. cbn. lia. }
  destruct (ladder_best (c_book st) sd Hb) as [-> Hf]. cbn [obind].
  destruct (ladder (c_book st) sd) as [|[px q] rest] eqn:Hl.
  { eexists. split; [done|]. split_and!; try done. by apply exit_empty. }
  cbn [head fmap option_fmap option_map fst].
  destruct (crossable order px) eqn:Hx; cbn [negb].
  2:{ eexists. split; [done|]. split_and!; try done. by apply (exit_limit _ _ _ px q rest). }
  fold (affordable (c_budget st) px (c_remaining st)).
  set (aff := affordable (c_budget st) px (c_remaining st)).
  assert (0 <= aff) as Ha0.
  { unfold aff, affordable. unfold is_u128 in Hbud.
    pose proof (Z.div_pos (c_budget st) (Z.max px 1) ltac:(lia) ltac:(lia)). lia. }
  destruct (Z.eqb_spec aff 0) as [Hz|Hnz].
  { eexists. split; [done|]. split_and!; try done. by apply (exit_budget _ _ _ px q rest). }
  apply Forall_cons in Hf as [(Hq & Hne & Hp) _]. cbn [fst snd] in *.
  destruct (view_shown (c_book st) px aff) as (b & -> & Hb' & Hsame & Hu); [done | congruence | lia |].
  rewrite <-Hq. cbn [obind]. rewrite existsb_own. fold (stp_on e order).
  assert (0 < aff) as Ha by lia.
  destruct (decide (stp_on e order = true /\ own_ids order (shown e aff q) <> [])) as [[Hon Hown]|Hno].
  - rewrite Hon, bool_decide_false by done. cbn [negb andb].
    destruct (level_pull st px q rest b Hb Hb' Hsame Hu Hl ltac:(lia) Hbud Hx aff eq_refl Ha Hon Hown)
      as (b2 & Hpull & Hb2 & Hlad & Hoth).
    cbn [c_stp c_remaining c_trades c_budget c_book]. destruct (stp e) eqn:Hstp.
    + unfold stp_on in Hon. by rewrite Hstp in Hon.
    + eexists. split; [done|]. split_and!; [|done|split; [auto|done]].
      unfold view_of. cbn. fold sd. rewrite (ladder_same (c_book st) b) by (done || auto).
      apply (exit_taker e order _ px q rest); try done.
      destruct (shown_sum aff q Ha) as (_ & tl & E).
      { rewrite Hq. apply (queue_positive (c_book st) sd px Hb). }
      rewrite E, own_ids_app. by destruct (own_ids order (shown e aff q)).
    + rewrite Hpull. cbn [obind fst snd]. rewrite bool_decide_false by done.
      eexists. split; [done|]. split_and!; [|done|done].
      unfold view_of. cbn. fold sd. rewrite Hlad, Hl. by apply step_pull.
    + rewrite Hpull. cbn [obind fst snd]. rewrite bool_decide_true by done.
      eexists. split; [done|]. split_and!; [|done|done].
      unfold view_of. cbn. fold sd. rewrite Hlad, Hl. by apply exit_both.
  - assert (stp_on e order && negb (bool_decide (own_ids order (shown e aff q) = [])) = false) as ->.
    { destruct (stp_on e order); [|done]. cbn [andb]. apply negb_false_iff, bool_decide_eq_true.
      destruct (own_ids order (shown e aff q)); [done|]. exfalso. by apply Hno. }
    destruct (level_fill st px q rest b Hb Hb' Hsame Hu Hl ltac:(lia) Hbud Hx aff eq_refl Ha)
      as (al & fs & b2 & Hal & Hne1 & Hfs & Hex & Hne2 & Hap & Hst).
    { intros Hon. destruct (own_ids order (shown e aff q)); [done|]. exfalso. by apply Hno. }
    cbv zeta in Hst.
    exists (inl (mkCross b2 (c_remaining st - sumZ snd fs) (c_trades st ++ (trade_of e order px <$> fs))
              (c_budget st - px * sumZ snd fs) (c_stp st))).
    split; [|exact Hst]. unfold fill_level. cbn [c_trades c_remaining c_budget c_stp c_book].
    destruct (OrderBook.to_resting <$> shown e aff q) eqn:Hv.
    { exfalso. apply Hne2. rewrite Hfs. destruct (shown e aff q); [|done].
      unfold resolve. clear. induction al as [|a al IH]; [done|]. simpl. exact IH. }
    rewrite Hal. cbn [obind]. destruct al as [|a al]; [done|]. rewrite Hex. cbn [obind].
    destruct (fill_of <$> fs) eqn:Hfl; [done|]. fold sd. rewrite Hap. done.
Qed.

(** The number of orders on a ladder. *)
Definition count (l : list (Price * list Order)) : Z := Z.of_nat (length (l ≫= snd)).

Lemma count_push px q rest : count (push_level px q rest) = Z.of_nat (length q) + count rest.
Proof.
  unfold push_level, count. destruct q as [|o q]; [done|]. rewrite bind_cons, length_app. simpl. lia.
Qed.

Lemma count_cons px q rest : count ((px, q) :: rest) = Z.of_nat (length q) + count rest.
Proof. unfold count. rewrite bind_cons, length_app. simpl. lia. Qed.

Lemma q_drop_length ids q : (length (q_drop ids q) <= length q)%nat.
Proof. apply length_filter. Qed.

Lemma q_drop_lt ids q o : o ∈ q -> o_id o ∈ ids -> (length (q_drop ids q) < length q)%nat.
Proof. intros Ho Hi. eapply length_filter_lt; [exact Ho|]. intros H. by apply H. Qed.

Lemma own_ids_elem q id : id ∈ own_ids order q -> exists o, o ∈ q /\ o_id o = id /\ own order o = true.
Proof.
  unfold own_ids. intros (o & -> & [Ho Hin]%list_elem_of_filter)%list_elem_of_fmap. eauto.
Qed.

(** Every continuing iteration takes a lot or an order. *)
Lemma cstep_decreases v v' : cstep e order v v' ->
  0 <= v_rem v' /\ v_rem v' + count (v_ladder v') < v_rem v + count (v_ladder v).
Proof.
  intros [px q rest rem ts budget pulled aff al fs Hrem Hx Haff Ha Hown Hal Hfs Hq Hne Hnd Hf Hsum
         |px q rest rem ts budget pulled aff Hrem Hx Haff Ha Hon Hstp Hown]; cbn; rewrite count_push, count_cons.
  - assert (0 < sumZ snd fs <= rem) as Hs.
    { rewrite Hsum. split; [|unfold affordable in Haff; lia]. apply Z.min_glb_lt; [done|].
      by apply positive_sum. }
    destruct (q_fills_ok fs q) as (_ & _ & _ & Hl & _); [done | done | |lia].
    eapply Forall_impl; [exact Hf|]. intros f [H1 H2]. split; [by eapply shown_subset|done].
  - destruct (own_ids order (shown e aff q)) as [|id ids] eqn:Eo; [done|].
    destruct (own_ids_elem (shown e aff q) id) as (o & Ho & Hid & _); [rewrite Eo; set_solver|].
    assert (length (q_drop (id :: ids) q) < length q)%nat; [|lia].
    eapply q_drop_lt; [by eapply shown_subset | rewrite Hid; set_solver].
Qed.

Definition crossed (st st' : CrossState) (stopped : bool) : Prop :=
  exists v, rtc (cstep e order) (view_of st) v /\ cexit e order v (view_of st') stopped /\
    cross_ok st' /\ other_side st st'.


Lemma other_side_trans st1 st2 st3 : other_side st1 st2 -> other_side st2 st3 -> other_side st1 st3.
Proof. intros [H1 H2] [H3 H4]. split; [intros; by rewrite H3, H1|congruence]. Qed.

(** [cross] terminates, and runs the step relation to one of its exits. *)
Lemma cross_sim st : cross_ok st ->
  exists st' stopped, cross e order st = Ret (st', stopped) /\ crossed st st' stopped.
Proof.
  intros Hok. unfold cross.
  set (I s := cross_ok s /\ rtc (cstep e order) (view_of st) (view_of s) /\ other_side st s).
  set (Q (r : CrossState * bool) := crossed st r.1 r.2).
  set (mu s := c_remaining s + count (ladder (c_book s) (opposite (o_side order)))).
  destruct (loop_total (cross_body e order) I Q mu (cross_bound (c_book st) (c_remaining st)) st)
    as ([st' stopped] & E & HQ).
  - intros s ((_ & Hr & _) & _). unfold mu, count. unfold is_u64 in Hr. lia.
  - intros s (Hs & Hrtc & Hoth). destruct (cross_body_sim s Hs) as (r & E & Hr). exists r. split; [done|].
    destruct r as [s'|[s' stopped]].
    + destruct Hr as (Hstep & Hok' & Hoth'). split; [|by apply cstep_decreases in Hstep as [_ ?]].
      split_and!; [done | by eapply rtc_r | by eapply other_side_trans].
    + destruct Hr as (Hexit & Hok' & Hoth'). exists (view_of s).
      split_and!; [done | done | done | by eapply other_side_trans].
  - split_and!; [done | apply rtc_refl | done].
  - unfold mu, cross_bound. destruct Hok as (Hb & Hr & _). unfold is_u64 in Hr.
    pose proof (ladder_count (c_book st) (opposite (o_side order)) Hb) as Hc.
    unfold count, used in *. rewrite Z2Pos.id; lia.
  - exists st', stopped. done.
Qed.

End simulation.

(** ** What a run of the loop does *)
Section run.
Context (e : MatchingEngine) (order : Order).
Let sd := opposite (o_side order).

Definition ladder_wf (l : list (Price * list Order)) : Prop :=
  StronglySorted (fun a b => better (opposite (o_side order)) a.1 b.1) l /\
  Forall (fun a => positive_queue a.2 /\ a.2 <> [] /\ is_u64 a.1) l.

(** A trade of this taker with an order of the ladder [l], at the maker's price. *)
Definition trade_ok (l : list (Price * list Order)) (t : Trade) : Prop :=
  t_taker t = o_id order /\ t_aggressor t = o_side order /\ t_taker_user t = o_user order /\
  t_timestamp t = seq e /\ 0 < t_quantity t /\ crossable order (t_price t) = true /\
  (stp_on e order = true -> t_maker_user t <> o_user order) /\
  exists q o, (t_price t, q) ∈ l /\ o ∈ q /\ o_id o = t_maker t /\ o_user o = t_maker_user t.

(** What rests of the order [id], and what the trades took from it. *)
Definition rem_of (id : OrderId) (o : Order) : Z := if o_id o =? id then o_remaining o else 0.
Definition ladder_rem (id : OrderId) (l : list (Price * list Order)) : Z := sumZ (rem_of id) (l ≫= snd).
Definition traded (id : OrderId) (ts : list Trade) : Z :=
  sumZ (fun t => if t_maker t =? id then t_quantity t else 0) ts.

Record run (v0 v : mview) (ts : list Trade) : Prop := {
  run_trades : v_trades v = v_trades v0 ++ ts;
  run_wf : ladder_wf (v_ladder v);
  run_ok : Forall (trade_ok (v_ladder v0)) ts;
  run_qty : sumZ t_quantity ts = v_rem v0 - v_rem v;
  run_rem : 0 <= v_rem v;
  run_cost : sumZ (fun t => t_price t * t_quantity t) ts = v_budget v0 - v_budget v;
  run_budget : 0 <= v_budget v;
  run_best : forall t p q, t ∈ ts -> (p, q) ∈ v_ladder v -> ~ better sd p (t_price t);
  run_order : StronglySorted (fun t t' => ~ better sd (t_price t') (t_price t)) ts;
  run_from : forall p q o, (p, q) ∈ v_ladder v -> o ∈ q ->
    exists q0 o0, (p, q0) ∈ v_ladder v0 /\ o0 ∈ q0 /\
      o = Order.set_remaining o0 (o_remaining o) /\ o_remaining o <= o_remaining o0;
  run_maker : forall id, id ∉ v_stp v ->
    ladder_rem id (v_ladder v0) = ladder_rem id (v_ladder v) + traded id ts
}.

Lemma run_start v0 : ladder_wf (v_ladder v0) -> 0 <= v_rem v0 -> 0 <= v_budget v0 -> run v0 v0 [].
Proof.
  intros Hwf Hr Hb.
  split; [by rewrite app_nil_r | done | constructor | rewrite sumZ_nil; lia | done | rewrite sumZ_nil; lia
         | done | set_solver | constructor | |].
  - intros p q o Hin Ho. exists q, o. split_and!; try done. by destruct o.
  - intros id _. unfold traded. rewrite sumZ_nil. lia.
Qed.

Lemma push_wf px q q' rest :
  ladder_wf ((px, q) :: rest) -> positive_queue q' -> ladder_wf (push_level px q' rest).
Proof.
  intros [Hs Hf] Hq. apply StronglySorted_inv in Hs as [Hs Hh]. apply Forall_cons in Hf as [(H1 & H2 & H3) Hf].
  unfold push_level. destruct q' as [|o q']; [done|]. split; constructor; done.
Qed.

Lemma push_elem px q rest e' : e' ∈ push_level px q rest -> (e' = (px, q) /\ q <> []) \/ e' ∈ rest.
Proof. unfold push_level. destruct q; [by right|]. intros [->|]%elem_of_cons; [by left|by right]. Qed.

Lemma ladder_rem_push id px q rest :
  ladder_rem id (push_level px q rest) = sumZ (rem_of id) q + ladder_rem id rest.
Proof. unfold ladder_rem, push_level. destruct q as [|o q]; [done|]. by rewrite bind_cons, sumZ_app. Qed.

Lemma ladder_rem_cons id px q rest :
  ladder_rem id ((px, q) :: rest) = sumZ (rem_of id) q + ladder_rem id rest.
Proof. unfold ladder_rem. by rewrite bind_cons, sumZ_app. Qed.

Lemma rest_worse px q rest p' q' : ladder_wf ((px, q) :: rest) -> (p', q') ∈ rest ->
  better sd px p' /\ p' <> px.
Proof.
  intros [Hs _] Hin. apply StronglySorted_inv in Hs as [_ Hh]. rewrite Forall_forall in Hh.
  specialize (Hh _ Hin). simpl in Hh. fold sd in Hh. split; [done|]. intros ->. unfold better in Hh. destruct sd; lia.
Qed.

(** *** Fills at the best level *)
Lemma q_fills_from fs q o :
  positive_queue q -> NoDup (o_id <$> (fst <$> fs)) ->
  Forall (fun f => f.1 ∈ q /\ 0 < f.2 <= o_remaining f.1) fs ->
  o ∈ q_fills (fill_of <$> fs) q ->
  exists o0, o0 ∈ q /\ o = Order.set_remaining o0 (o_remaining o) /\ o_remaining o <= o_remaining o0.
Proof.
  revert q. induction fs as [|[x n] fs IH]; intros q Hq Hnd Hf Ho.
  - cbn in Ho. exists o. split_and!; try done. by destruct o.
  - rewrite !fmap_cons in *. apply Forall_cons in Hf as [[Hx Hn] Hf]. apply NoDup_cons in Hnd as [Hni Hnd].
    cbn [fst snd] in *. change (fill_of (x, n)) with (o_id x, n) in Ho.
    change (q_fills ((o_id x, n) :: (fill_of <$> fs)) q)
      with (q_fills (fill_of <$> fs) (q_fill (o_id x, n) q)) in Ho.
    destruct (q_fill_one x n q Hq Hx Hn) as (Hq1 & _ & _ & Hin1 & _).
    destruct (IH (q_fill (o_id x, n) q)) as (o1 & Ho1 & E1 & L1); try done.
    + apply Forall_forall. intros f Hin. rewrite Forall_forall in Hf. destruct (Hf f Hin) as [H1 H2].
      split; [|done]. apply Hin1; [done|]. intros He. apply Hni. rewrite <-He.
      apply list_elem_of_fmap. exists f.1. split; [done|]. by apply list_elem_of_fmap_2.
    + unfold q_fill, q_edit in Ho1. apply list_elem_of_bind in Ho1 as (y & Hy & Hyq). cbn [fst snd] in Hy.
      revert Hy. case_if.
      * unfold refill. case_if; [set_solver|]. intros ->%list_elem_of_singleton.
        assert (y = x) as ->.
        { destruct Hq as [_ Hnd']. apply list_elem_of_lookup in Hyq as [i Hi].
          apply list_elem_of_lookup in Hx as [j Hj].
          assert (i = j) as ->; [|congruence].
          apply (NoDup_lookup (o_id <$> q) i j (o_id x)); [done| |];
            rewrite list_lookup_fmap; [rewrite Hi | rewrite Hj]; simpl; congruence. }
        exists x. simpl in *. split_and!; [done| |lia]. rewrite E1. by destruct x.
      * intros ->%list_elem_of_singleton. eauto.
Qed.

Lemma q_fills_rem id fs q :
  positive_queue q -> NoDup (o_id <$> (fst <$> fs)) ->
  Forall (fun f => f.1 ∈ q /\ 0 < f.2 <= o_remaining f.1) fs ->
  sumZ (rem_of id) q =
  sumZ (rem_of id) (q_fills (fill_of <$> fs) q) + sumZ (fun f => if o_id f.1 =? id then f.2 else 0) fs.
Proof.
  revert q. induction fs as [|[x n] fs IH]; intros q Hq Hnd Hf.
  - cbn. rewrite sumZ_nil. lia.
  - rewrite !fmap_cons in *. apply Forall_cons in Hf as [[Hx Hn] Hf]. apply NoDup_cons in Hnd as [Hni Hnd].
    cbn [fst snd] in *. change (fill_of (x, n)) with (o_id x, n).
    change (q_fills ((o_id x, n) :: (fill_of <$> fs)) q)
      with (q_fills (fill_of <$> fs) (q_fill (o_id x, n) q)).
    destruct (q_fill_one x n q Hq Hx Hn) as (Hq1 & _ & _ & Hin1 & _).
    rewrite sumZ_cons. cbn [fst snd].
    rewrite Z.add_comm, <-Z.add_assoc, (Z.add_comm _ (sumZ (rem_of id) (q_fills _ _))), <-IH; try done.
    + clear IH Hf Hni Hnd. destruct Hq as [_ Hnd].
      apply list_elem_of_split in Hx as (l1 & l2 & ->). change (x :: l2) with ([x] ++ l2) in *.
      unfold q_fill. cbn [fst snd]. rewrite q_edit_split by done. unfold refill.
      rewrite !sumZ_app, sumZ_cons, sumZ_nil. unfold rem_of at 2.
      case_if; case_if; rewrite ?sumZ_cons, ?sumZ_nil; unfold rem_of; simpl; try case_if; lia.
    + apply Forall_forall. intros f Hin. rewrite Forall_forall in Hf. destruct (Hf f Hin) as [H1 H2].
      split; [|done]. apply Hin1; [done|]. intros He. apply Hni. rewrite <-He.
      apply list_elem_of_fmap. exists f.1. split; [done|]. by apply list_elem_of_fmap_2.
Qed.

Lemma sum_trades px fs :
  sumZ t_quantity (trade_of e order px <$> fs) = sumZ snd fs /\
  sumZ (fun t => t_price t * t_quantity t) (trade_of e order px <$> fs) = px * sumZ snd fs /\
  forall id, traded id (trade_of e order px <$> fs) = sumZ (fun f => if o_id f.1 =? id then f.2 else 0) fs.
Proof.
  split_and!.
  - apply (sumZ_map (trade_of e order px) t_quantity).
  - rewrite <-sumZ_mul.
    apply (sumZ_map (trade_of e order px) (fun t => t_price t * t_quantity t)).
  - intros id. unfold traded.
    apply (sumZ_map (trade_of e order px) (fun t => if t_maker t =? id then t_quantity t else 0)).
Qed.

Lemma traded_app id ts ts' : traded id (ts ++ ts') = traded id ts + traded id ts'.
Proof. apply sumZ_app. Qed.

Lemma run_fill v0 px q rest rem tsv budget pulled aff al fs ts :
  run v0 (mkView ((px, q) :: rest) rem tsv budget pulled) ts ->
  0 < rem -> crossable order px = true -> aff = affordable budget px rem -> 0 < aff ->
  (stp_on e order = true -> Forall (fun o => own order o = false) (shown e aff q)) ->
  allocate_into (strategy e) (OrderBook.to_resting <$> shown e aff q) aff [] = Ret al ->
  fs = resolve (shown e aff q) al -> positive_queue q -> q <> [] -> NoDup (o_id <$> (fst <$> fs)) ->
  Forall (fun f => f.1 ∈ shown e aff q /\ 0 < f.2 <= o_remaining f.1) fs ->
  sumZ snd fs = Z.min aff (sumZ o_remaining q) ->
  run v0 (mkView (push_level px (q_fills (fill_of <$> fs) q) rest)
         (rem - sumZ snd fs) (tsv ++ (trade_of e order px <$> fs)) (budget - px * sumZ snd fs) pulled)
    (ts ++ (trade_of e order px <$> fs)).
Proof.
  intros Hrun Hrem Hx Haff Ha Hown _ _ Hq Hne Hnd Hf Hsum.
  destruct Hrun as [R1 R2 R3 R4 R5 R6 R7 R8 R9 R10 R11]. cbn [v_ladder v_rem v_trades v_budget v_stp] in *.
  assert (Forall (fun f => f.1 ∈ q /\ 0 < f.2 <= o_remaining f.1) fs) as Hf'.
  { eapply Forall_impl; [exact Hf|]. intros f [H1 H2]. split; [by eapply shown_subset|done]. }
  assert (is_u64 px) as Hpx by (destruct R2 as [_ HF]; apply Forall_cons in HF as [(_ & _ & ?) _]; done).
  unfold is_u64 in Hpx.
  destruct (q_fills_ok fs q Hq Hnd Hf') as (_ & Hq' & _ & _ & _).
  destruct (sum_trades px fs) as (S1 & S2 & S3).
  assert (0 < sumZ o_remaining q) as Hsq by (by apply positive_sum).
  assert (aff <= rem /\ px * aff <= budget) as [Ha1 Ha2].
  { rewrite Haff. unfold affordable. split; [lia|].
    pose proof (Z.mul_div_le budget (Z.max px 1) ltac:(lia)).
    pose proof (Z.div_pos budget (Z.max px 1) ltac:(lia) ltac:(lia)).
    assert (px * (budget / Z.max px 1) <= budget) by nia. nia. }
  assert (forall t, t ∈ trade_of e order px <$> fs -> t_price t = px) as Hpr
    by (by intros t (f & -> & _)%list_elem_of_fmap).
  split; cbn [v_ladder v_rem v_trades v_budget v_stp].
  - by rewrite R1, app_assoc.
  - by apply (push_wf px q).
  - apply Forall_app. split; [done|]. apply Forall_fmap, Forall_forall. intros f Hin. rewrite Forall_forall in Hf.
    destruct (Hf f Hin) as [H1 H2]. unfold compose, trade_ok. cbn. split_and!; try done; try lia.
    + intros Hon. specialize (Hown Hon). rewrite Forall_forall in Hown. specialize (Hown _ H1).
      unfold own in Hown. by apply Z.eqb_neq in Hown.
    + destruct (R10 px q f.1) as (q0 & o0 & I1 & I2 & I3 & _); [set_solver | by eapply shown_subset |].
      exists q0, o0. split_and!; try done; rewrite I3; by destruct o0.
  - rewrite sumZ_app, R4, S1. lia.
  - lia.
  - rewrite sumZ_app, R6, S2. lia.
  - assert (Z.min aff (sumZ o_remaining q) <= aff) by lia. rewrite Hsum. nia.
  - intros t p q' Ht Hin. apply push_elem in Hin as [[[= -> ->] _]|Hin].
    + apply elem_of_app in Ht as [Ht|Ht]; [by apply (R8 t px q Ht); set_solver|].
      rewrite (Hpr t Ht). unfold better. destruct sd; lia.
    + destruct (rest_worse _ _ _ _ _ R2 Hin) as [Hb _].
      apply elem_of_app in Ht as [Ht|Ht]; [by apply (R8 t p q' Ht); set_solver|].
      rewrite (Hpr t Ht). unfold better in *. destruct sd; lia.
  - apply StronglySorted_app_2; [|done|].
    + intros t t' Ht Ht'. rewrite (Hpr t' Ht'). apply (R8 t px q Ht). set_solver.
    + clear -Hpr. induction (trade_of e order px <$> fs) as [|t l IH]; constructor.
      * apply IH. intros; apply Hpr; set_solver.
      * apply Forall_forall. intros t' Ht'. rewrite (Hpr t), (Hpr t') by set_solver. unfold better. destruct sd; lia.
  - intros p q' o Hin Ho. apply push_elem in Hin as [[[= -> ->] _]|Hin].
    + destruct (q_fills_from fs q o Hq Hnd Hf' Ho) as (o1 & Ho1 & E1 & L1).
      destruct (R10 px q o1) as (q0 & o0 & I1 & I2 & I3 & I4); [set_solver | done |].
      exists q0, o0. split_and!; try done; [|lia]. rewrite E1, I3. by destruct o0.
    + apply (R10 p q'); [set_solver|done].
  - intros id Hid. rewrite (R11 id Hid), ladder_rem_cons, ladder_rem_push, traded_app, S3.
    rewrite (q_fills_rem id fs q Hq Hnd Hf'). lia.
Qed.

Lemma q_drop_rem id ids q : id ∉ ids -> sumZ (rem_of id) (q_drop ids q) = sumZ (rem_of id) q.
Proof.
  intros Hid. unfold q_drop. induction q as [|o q IH]; [done|]. rewrite filter_cons, sumZ_cons.
  case_decide as H; rewrite ?sumZ_cons, IH; [done|]. unfold rem_of at 2. case_if; [|done].
  exfalso. congruence.
Qed.

Lemma q_drop_positive ids q : positive_queue q -> positive_queue (q_drop ids q).
Proof.
  intros [H1 H2]. split.
  - apply Forall_forall. intros o [_ Ho]%list_elem_of_filter. rewrite Forall_forall in H1. by apply H1.
  - eapply sublist_NoDup; [exact H2|]. apply fmap_sublist, sublist_filter.
Qed.

Lemma run_pull v0 px q rest rem tsv budget pulled ids ts :
  run v0 (mkView ((px, q) :: rest) rem tsv budget pulled) ts ->
  run v0 (mkView (push_level px (q_drop ids q) rest) rem tsv budget (pulled ++ ids)) ts.
Proof.
  intros [R1 R2 R3 R4 R5 R6 R7 R8 R9 R10 R11]. cbn [v_ladder v_rem v_trades v_budget v_stp] in *.
  assert (positive_queue q) as Hq by (destruct R2 as [_ HF]; apply Forall_cons in HF as [(? & _) _]; done).
  split; cbn [v_ladder v_rem v_trades v_budget v_stp]; try done.
  - apply (push_wf px q); [done|]. by apply q_drop_positive.
  - intros t p q' Ht Hin. apply push_elem in Hin as [[[= -> ->] _]|Hin].
    + apply (R8 t px q Ht). set_solver.
    + apply (R8 t p q' Ht). set_solver.
  - intros p q' o Hin Ho. apply push_elem in Hin as [[[= -> ->] _]|Hin].
    + apply (R10 px q); [set_solver|]. by apply list_elem_of_filter in Ho as [_ ?].
    + apply (R10 p q'); [set_solver|done].
  - intros id Hid. rewrite (R11 id), ladder_rem_cons, ladder_rem_push by set_solver.
    rewrite q_drop_rem by set_solver. done.
Qed.

Lemma run_step v0 v v' ts : run v0 v ts -> cstep e order v v' -> exists ts', run v0 v' (ts ++ ts').
Proof.
  intros Hrun Hst. destruct Hst.
  - eexists. eapply run_fill; eassumption.
  - exists []. rewrite app_nil_r. by apply run_pull.
Qed.

Lemma run_exit v0 v v' ts stopped : run v0 v ts -> cexit e order v v' stopped -> run v0 v' ts.
Proof. intros Hrun Hex. destruct Hex; try done. by apply run_pull. Qed.

Lemma run_rtc v0 v : rtc (cstep e order) v0 v -> ladder_wf (v_ladder v0) ->
  0 <= v_rem v0 -> 0 <= v_budget v0 -> exists ts, run v0 v ts.
Proof.
  intros Hr Hwf H1 H2. revert v Hr. apply rtc_ind_r.
  - exists []. by apply run_start.
  - intros v1 v2 Hr Hst [ts Hrun]. destruct (run_step _ _ _ _ Hrun Hst) as [ts' Hrun']. eauto.
Qed.


End run.

(** ** [submit] *)
Lemma ladder_book_wf order b : book_inv b -> ladder_wf order (ladder b (opposite (o_side order))).
Proof.
  intros Hb. split; [destruct Hb as [m Hbk]; by apply (ladder_sorted b m Hbk)|].
  apply Forall_forall. intros [p q] Hin. destruct (ladder_best b (opposite (o_side order)) Hb) as [_ Hf].
  rewrite Forall_forall in Hf. destruct (Hf _ Hin) as (Hq & Hne & Hp). cbn [fst snd] in *.
  split_and!; try done. rewrite Hq. by apply queue_positive.
Qed.

(** The exit condition of a loop that was not stopped: the taker is done, or no
    level is left that it reaches and can pay for. *)
Lemma cross_facts e (Hs : AllocContract (strategy e)) order st : cross_ok st ->
  exists st' stopped ts, cross e order st = Ret (st', stopped) /\
    run e order (view_of order st) (view_of order st') ts /\ cross_ok st' /\ other_side order st st' /\
    exists v, run e order (view_of order st) v ts /\ rtc (cstep e order) (view_of order st) v /\
      cexit e order v (view_of order st') stopped.
Proof.
  intros Hok. destruct (cross_sim e Hs order st Hok) as (st' & stopped & E & v & Hr & Hex & Hok' & Hoth).
  pose proof Hok as (Hb & Hrem & Hbud). unfold is_u64, is_u128 in *.
  destruct (run_rtc e order (view_of order st) v Hr) as [ts Hrun];
    [by apply ladder_book_wf | cbn; lia | cbn; lia |].
  exists st', stopped, ts. split_and!; try done; [by eapply run_exit|]. eauto.
Qed.

(** The order as [submit_into] stamps it, and the engine with the next [seq]. *)
Definition stamped (e : MatchingEngine) (order : Order) : Order :=
  Order.set_remaining (Order.set_timestamp order (wrap64 (seq e + 1))) (o_quantity order).

Definition advanced (e : MatchingEngine) : MatchingEngine :=
  mkEngine (book e) (strategy e) (wrap64 (seq e + 1)) (stp e) [].

(** Fields that [submit_into] never changes. *)
Definition same_taker (o o' : Order) : Prop :=
  o_id o' = o_id o /\ o_instrument o' = o_instrument o /\ o_user o' = o_user o /\
  o_side o' = o_side o /\ o_type o' = o_type o /\ o_quantity o' = o_quantity o /\
  o_remaining o' = o_remaining o /\ o_timestamp o' = o_timestamp o.

Lemma stamped_ok e order : order_ok order -> order_ok (stamped e order).
Proof.
  unfold order_ok, stamped. cbn. intros (H1 & H2 & H3 & H4 & H5 & H6 & H7). split_and!; try done.
  apply wrap64_range.
Qed.

Definition is_budget (tif : TimeInForce) : bool :=
  match tif with IocBudget | FokBudget => true | _ => false end.

(** The budget translation. *)
Lemma apply_budget_ok b o : book_inv b -> order_ok o ->
  exists r, apply_budget b o = Ret r /\
    match r with
    | None =>
        o_tif o = FokBudget /\ o_side o = Buy /\
        (0 < (ladder_cost (o_quantity o) (ladder b Sell)).1 \/
         o_price o < (ladder_cost (o_quantity o) (ladder b Sell)).2)
    | Some (o', budget) =>
        same_taker o o' /\ order_ok o' /\ is_u128 budget /\
        (is_budget (o_tif o) = false -> o' = o /\ budget = U128_MAX) /\
        (is_budget (o_tif o) = true -> o_tif o' <> Gtc) /\
        (is_budget (o_tif o) = true -> o_side o = Buy ->
           budget = o_price o /\ o_price o' = U64_MAX /\ o_tif o' = IocBudget) /\
        (is_budget (o_tif o) = true -> o_side o = Sell ->
           budget = U128_MAX /\ (o_tif o' = Fok <-> o_tif o = FokBudget)) /\
        (o_tif o = FokBudget -> o_side o = Buy ->
           (ladder_cost (o_quantity o) (ladder b Sell)).1 <= 0 /\
           (ladder_cost (o_quantity o) (ladder b Sell)).2 <= o_price o)
    end.
Proof.
  intros Hb Hok. pose proof Hok as (_ & _ & _ & Hp & Hq & _).
  assert (exists m, book_ok None b m) as [m Hbk] by done.
  unfold apply_budget. destruct (o_tif o) eqn:Ht; try (eexists; split; [done|]; unfold same_taker; cbn;
    split_and!; done || (unfold_width; lia)).
  - destruct (o_side o) eqn:Hsd.
    + eexists. split; [done|]. unfold same_taker, order_ok in *. cbn. rewrite ?Ht, ?Hsd.
      unfold_width. split_and!; naive_solver lia.
    + eexists. split; [done|]. unfold same_taker, order_ok in *. cbn. rewrite ?Ht, ?Hsd.
      unfold_width. split_and!; try naive_solver lia.
      * apply Z.div_pos; [apply wrap64_range|lia].
      * pose proof (wrap64_range (wrap64 (o_price o + Z.max (o_quantity o) 1) - 1)). unfold is_u64 in *.
        apply Z.div_le_upper_bound; nia.
  - destruct (o_side o) eqn:Hsd.
    + rewrite (cost_ok b m Hbk Buy (o_quantity o) Hq). cbn [obind fst snd opposite].
      destruct (ladder_cost (o_quantity o) (ladder b Sell)) as [left_ cost]. cbn [fst snd].
      case_if.
      * eexists. split; [done|]. split_and!; try done. zbool. lia.
      * eexists. split; [done|]. unfold same_taker, order_ok in *. cbn. rewrite ?Ht, ?Hsd.
        unfold_width. zbool. split_and!; naive_solver lia.
    + eexists. split; [done|]. unfold same_taker, order_ok in *. cbn. rewrite ?Ht, ?Hsd.
      unfold_width. split_and!; try naive_solver lia.
      * apply Z.div_pos; [apply wrap64_range|lia].
      * pose proof (wrap64_range (wrap64 (o_price o + Z.max (o_quantity o) 1) - 1)). unfold is_u64 in *.
        apply Z.div_le_upper_bound; nia.
Qed.

(** Total quantity resting on a side. *)
Definition side_total (b : OrderBook) (sd : Side) : Z := depth_sum (sumZ o_remaining) (fun _ => true) b sd.

Definition reachable_qty (b : OrderBook) (o : Order) : Z :=
  depth_sum (sumZ o_remaining) (reaches (o_side o) (o_price o)) b (opposite (o_side o)).

Lemma reachable_le b o : book_inv b -> reachable_qty b o <= side_total b (opposite (o_side o)).
Proof.
  intros Hb. apply sumZ_le, Forall_forall. intros [p q] Hin. apply (ladder_queue _ _ _ _ Hb) in Hin as [-> _].
  cbn [fst snd]. case_if; [lia|]. apply sumZ_nonneg.
  eapply Forall_impl; [apply (queue_positive b _ p Hb)|]. simpl. lia.
Qed.

Lemma fok_short_ok b o : book_inv b -> side_total b (opposite (o_side o)) <= U64_MAX ->
  fok_short b o = Ret (match o_tif o with Fok => reachable_qty b o <? o_remaining o | _ => false end).
Proof.
  intros Hb Hmax. unfold fok_short. destruct (o_tif o); try done. pose proof (reachable_le b o Hb) as Hle.
  destruct Hb as [m Hbk]. rewrite (crossable_ok b m Hbk); [done|]. fold (reachable_qty b o). lia.
Qed.

(** What [submit] needs: a sound book, an order in range, room for its remainder
    in its level and in the pool, and an id that is not resting. *)
Record submit_pre (e : MatchingEngine) (order : Order) : Prop := {
  pre_strategy : AllocContract (strategy e);
  pre_book : book_inv (book e);
  pre_order : order_ok order;
  pre_seq : 0 <= seq e < U64_MAX;
  pre_fresh : resting (book e) (o_id order) = None;
  pre_level : sumZ o_remaining (queue (book e) (o_side order) (o_price order)) + o_quantity order <= U64_MAX;
  pre_side : side_total (book e) (opposite (o_side order)) <= U64_MAX;
  pre_room : used (book e) < U32_MAX
}.

Definition status_of (quantity filled : Qty) (resting : bool) : OrderStatus :=
  if filled =? quantity then Filled
  else if 0 <? filled then PartiallyFilled
  else if resting then Resting else Cancelled.

Definition rests (o : Order) (remaining : Qty) (stopped : bool) : bool :=
  negb stopped && (0 <? remaining) &&
  match o_type o, o_tif o with Limit, Gtc => true | _, _ => false end.

Definition start_view (e : MatchingEngine) (order : Order) (trades : list Trade) (budget : Z) : mview :=
  mkView (ladder (book e) (opposite (o_side order))) (o_quantity order) trades budget [].

(** The order crossed: [o] is the order after budget translation, [v] the loop
    state at the exit, [v'] the state after it. *)
Record submit_crossed (e e' : MatchingEngine) (order o : Order) (trades ts : list Trade) (budget : Z)
    (v v' : mview) (stopped : bool) (res : OrderId * OrderStatus * Qty * bool) : Prop := {
  sc_budget : apply_budget (book e) (stamped e order) = Ret (Some (o, budget));
  sc_same : same_taker (stamped e order) o;
  sc_fok : o_tif o = Fok -> o_quantity order <= reachable_qty (book e) o;
  sc_steps : rtc (cstep (advanced e) o) (start_view e order trades budget) v;
  sc_run0 : run (advanced e) o (start_view e order trades budget) v ts;
  sc_exit : cexit (advanced e) o v v' stopped;
  sc_run : run (advanced e) o (start_view e order trades budget) v' ts;
  sc_makers : forall q p, (p, q) ∈ v_ladder v' <-> q = queue (book e') (opposite (o_side order)) p /\ q <> [];
  sc_stp : stp_cancelled e' = v_stp v';
  sc_own : forall p, queue (book e') (o_side order) p = queue (book e) (o_side order) p ++
    (if rests o (v_rem v') stopped && (p =? o_price o) then [Order.set_remaining o (v_rem v')] else []);
  sc_result : res = (o_id order, status_of (o_quantity order) (o_quantity order - v_rem v')
                                   (rests o (v_rem v') stopped),
                     o_quantity order - v_rem v', rests o (v_rem v') stopped)
}.

Definition submit_rejected (e e' : MatchingEngine) (order : Order) (ts : list Trade)
    (res : OrderId * OrderStatus * Qty * bool) : Prop :=
  res = (o_id order, Rejected, 0, false) /\ ts = [] /\ e' = advanced e /\
  ((o_tif order = FokBudget /\ o_side order = Buy /\
    (0 < (ladder_cost (o_quantity order) (ladder (book e) Sell)).1 \/
     o_price order < (ladder_cost (o_quantity order) (ladder (book e) Sell)).2)) \/
   exists o budget, apply_budget (book e) (stamped e order) = Ret (Some (o, budget)) /\
     same_taker (stamped e order) o /\ o_tif o = Fok /\ reachable_qty (book e) o < o_quantity order).

Definition submit_post (e e' : MatchingEngine) (order : Order) (trades ts : list Trade)
    (res : OrderId * OrderStatus * Qty * bool) : Prop :=
  strategy e' = strategy e /\ stp e' = stp e /\ seq e' = seq e + 1 /\ book_inv (book e') /\
  used (book e') <= used (book e) + 1 /\
  (submit_rejected e e' order ts res \/
   exists o budget v v' stopped, submit_crossed e e' order o trades ts budget v v' stopped res).

(** No order of the book after crossing has an id that was not resting before. *)
Lemma cross_fresh e order st st' ts id :
  book_inv (c_book st) -> book_inv (c_book st') ->
  run e order (view_of order st) (view_of order st') ts -> other_side order st st' ->
  resting (c_book st) id = None -> resting (c_book st') id = None.
Proof.
  intros Hb Hb' Hrun [Hoth _] Hf. destruct (resting (c_book st') id) as [x|] eqn:Hx; [|done].
  apply (resting_queue _ _ _ Hb') in Hx as [Hid Hx]. exfalso.
  destruct (decide (o_side x = o_side order)) as [Hs|Hs].
  - rewrite Hs, Hoth in Hx. destruct (queue_order _ _ _ _ Hb Hx) as (_ & _ & _ & _ & Hr). congruence.
  - assert (o_side x = opposite (o_side order)) as Hs' by (destruct (o_side x), (o_side order); done).
    rewrite Hs' in Hx.
    destruct (run_from _ _ _ _ _ Hrun (o_price x) (queue (c_book st') (opposite (o_side order)) (o_price x)) x)
      as (q0 & o0 & Hin & Ho0 & He & _); [|done|].
    + apply (ladder_queue _ _ _ _ Hb'). split; [done|]. intros H. rewrite H in Hx. set_solver.
    + apply (ladder_queue _ _ _ _ Hb) in Hin as [-> _].
      destruct (queue_order _ _ _ _ Hb Ho0) as (_ & _ & _ & _ & Hr). rewrite He in Hid. cbn in Hid. congruence.
Qed.

Lemma cexit_stopped e o v v' : cexit e o v v' true -> 0 < v_rem v'.
Proof. intros H. by inversion H. Qed.

Lemma finalize_ok e o (rem : Qty) :
  let o' := Order.set_remaining o rem in
  book_inv (book e) -> order_ok o' -> 0 <= rem <= o_quantity o -> o_quantity o <= U64_MAX ->
  resting (book e) (o_id o) = None ->
  (o_tif o = Gtc -> sumZ o_remaining (queue (book e) (o_side o) (o_price o)) + rem <= U64_MAX) ->
  used (book e) < U32_MAX ->
  exists b, finalize e o' = Ret (with_book e b,
      (o_id o, status_of (o_quantity o) (o_quantity o - rem) (rests o rem false), o_quantity o - rem,
       rests o rem false)) /\ book_inv b /\ used b <= used (book e) + 1 /\
    (forall p, queue b (o_side o) p = queue (book e) (o_side o) p ++
       (if rests o rem false && (p =? o_price o) then [o'] else [])) /\
    (forall p, queue b (opposite (o_side o)) p = queue (book e) (opposite (o_side o)) p).
Proof.
  intros o' Hb Hok Hrem Hq Hf Hl Hu. unfold finalize, o'. cbn [Order.set_remaining o_quantity o_remaining o_id o_type o_tif].
  rewrite wrap64_small by (unfold_width; lia).
  destruct (Z.eqb_spec rem 0) as [->|Hnz].
  - exists (book e). unfold status_of, rests. rewrite Z.sub_0_r, Z.eqb_refl. cbn [Z.ltb Z.compare andb negb].
    split_and!; try done; [by destruct e | lia|]. intros p. by rewrite app_nil_r.
  - assert ((o_quantity o - rem =? o_quantity o) = false) as Hne by (apply Z.eqb_neq; lia).
    assert ((0 <? rem) = true) as Hpos by (apply Z.ltb_lt; lia).
    unfold status_of, rests, is_filled_status. rewrite Hne, Hpos. cbn [negb andb].
    destruct (decide (o_type o = Limit /\ o_tif o = Gtc)) as [[Ht Hg]|Hng].
    + rewrite Ht, Hg.
      destruct (insert_spec (book e) (Order.set_remaining o rem)) as (b & _ & -> & Hb' & [He1 He2] & Hu'); try done.
      * cbn. lia.
      * cbn. specialize (Hl Hg). lia.
      * exists b. cbn [obind]. split_and!; try done.
        -- intros p. cbn in He1, He2. destruct (Z.eqb_spec p (o_price o)) as [->|Hp]; [done|].
           rewrite app_nil_r. apply He2. congruence.
        -- intros p. cbn in He2. apply He2. intros [= H _]. by destruct (o_side o).
    + exists (book e).
      assert (match o_type o, o_tif o with Limit, Gtc => true | _, _ => false end = false) as Hm
        by (destruct (o_type o), (o_tif o); try done; exfalso; by apply Hng).
      rewrite Hm. cbn [andb]. split_and!; try done; [|lia|intros p; by rewrite app_nil_r].
      destruct (o_type o), (o_tif o); try done; by destruct e.
Qed.

Lemma submit_into_ok e order trades : submit_pre e order ->
  exists e' ts res, submit_into e order trades = Ret (e', trades ++ ts, res) /\
    submit_post e e' order trades ts res.
Proof.
  intros [Hst Hb Hok Hseq Hfresh Hlevel Hside Hroom].
  assert (wrap64 (seq e + 1) = seq e + 1) as Hsq by (apply wrap64_small; unfold_width; lia).
  unfold submit_into. fold (advanced e).
  change (Order.set_remaining (Order.set_timestamp order (seq (advanced e))) (o_quantity order))
    with (stamped e order).
  change (book (advanced e)) with (book e).
  pose proof (stamped_ok e order Hok) as Hsok.
  destruct (apply_budget_ok (book e) (stamped e order) Hb Hsok) as (r & Hr & HR). rewrite Hr. cbn [obind].
  destruct r as [[o budget]|].
  2:{ exists (advanced e), [], (o_id order, Rejected, 0, false). rewrite app_nil_r. split; [done|].
      split_and!; try done; [cbn; lia|]. left. split_and!; try done. by left. }
  destruct HR as (Hsame & Hook & Hbud & Hnb & Hbt & _).
  pose proof Hsame as (S1 & S2 & S3 & S4 & S5 & S6 & S7 & S8). cbn in S1, S2, S3, S4, S5, S6, S7, S8.
  rewrite fok_short_ok; [|done|by rewrite S4]. cbn [obind].
  destruct (match o_tif o with Fok => reachable_qty (book e) o <? o_remaining o | _ => false end) eqn:Hshort.
  { exists (advanced e), [], (o_id o, Rejected, 0, false). rewrite app_nil_r. split; [done|].
    split_and!; try done; [cbn; lia|]. left. split_and!; try done; [by rewrite S1|]. right. exists o, budget.
    destruct (o_tif o) eqn:Ht; try done. apply Z.ltb_lt in Hshort. split_and!; try done. lia. }
  set (st := mkCross (book e) (o_remaining o) trades budget []).
  pose proof Hook as (_ & _ & _ & _ & Oq & Or & _).
  assert (cross_ok st) as Hcok by (by split).
  destruct (cross_facts (advanced e) Hst o st Hcok)
    as (st' & stopped & ts & -> & Hrun & Hok' & Hoth & v & Hrun0 & Hsteps & Hexit). cbn [obind fst snd].
  assert (view_of o st = start_view e order trades budget) as Hv.
  { unfold view_of, start_view. cbn. by rewrite S4, S7. }
  rewrite Hv in *.
  pose proof (run_trades _ _ _ _ _ Hrun) as Htr. cbn in Htr.
  destruct Hok' as (Hb' & Hr' & _). unfold is_u64 in Hr'.
  assert (c_remaining st' <= o_quantity order) as Hle.
  { pose proof (run_qty _ _ _ _ _ Hrun) as Hq. cbn in Hq.
    assert (0 <= sumZ t_quantity ts); [|lia]. apply sumZ_nonneg.
    eapply Forall_impl; [apply (run_ok _ _ _ _ _ Hrun)|]. unfold trade_ok. naive_solver lia. }
  set (e1 := mkEngine (c_book st') (strategy e) (seq e + 1) (stp e) (c_stp st')).
  assert (forall b res, book_inv b ->
    (forall p, queue b (o_side o) p = queue (c_book st') (o_side o) p ++
      (if rests o (c_remaining st') stopped && (p =? o_price o)
       then [Order.set_remaining o (c_remaining st')] else [])) ->
    (forall p, queue b (opposite (o_side o)) p = queue (c_book st') (opposite (o_side o)) p) ->
    res = (o_id order, status_of (o_quantity order) (o_quantity order - c_remaining st')
             (rests o (c_remaining st') stopped), o_quantity order - c_remaining st',
           rests o (c_remaining st') stopped) ->
    submit_crossed e (with_book e1 b) order o trades ts budget v (view_of o st') stopped res) as Hfin.
  { intros b res Hbb Hown Hmk Hres. split; try done.
    - intros Ht. rewrite Ht in Hshort. apply Z.ltb_ge in Hshort. lia.
    - intros q p. cbn. rewrite (ladder_queue _ _ _ _ Hb'), S4 in *. by rewrite Hmk.
    - intros p. cbn. rewrite <-S4, Hown. by rewrite (proj1 Hoth). }
  destruct Hoth as [Hown Hused]. destruct stopped.
  - assert (0 < c_remaining st') as Hpos by (by eapply (cexit_stopped (advanced e) o) in Hexit).
    eexists (with_book e1 (c_book st')), ts, _. split.
    + rewrite Htr. unfold with_book, e1. cbn. rewrite Hsq. reflexivity.
    + split_and!; try done; [change (used (c_book st') <= used (book e) + 1); rewrite Hused; cbn; lia|]. right. exists o, budget, v, (view_of o st'), true.
      apply Hfin; try done; [intros p; by rewrite app_nil_r|]. cbn. unfold status_of, is_filled_status.
      rewrite wrap64_small, S6, S1 by (unfold_width; lia).
      by rewrite (proj2 (Z.eqb_neq (o_quantity order - c_remaining st') (o_quantity order))) by lia.
  - destruct (finalize_ok e1 o (c_remaining st')) as (b & Hf & Hbb & Hub & Hq1 & Hq2).
    + done.
    + apply set_remaining_ok; [done|lia].
    + lia.
    + unfold is_u64 in Oq. lia.
    + rewrite S1. eapply (cross_fresh (advanced e) o st st'); try done. by rewrite Hv.
    + intros Hg. cbn. rewrite Hown. cbn.
      assert (o = stamped e order) as Heq.
      { destruct (is_budget (o_tif (stamped e order))) eqn:Hbg; [by specialize (Hbt eq_refl)|]. by apply Hnb. }
      rewrite Heq. cbn. lia.
    + cbn. rewrite Hused. cbn. lia.
    + eexists (with_book e1 b), ts, _. split.
      * unfold advanced. cbn [strategy seq stp]. rewrite Hsq. fold e1. rewrite Hf.
        cbn [obind fst snd]. rewrite Htr. reflexivity.
      * split_and!; try done; [cbn in Hub |- *; rewrite Hused in Hub; cbn in Hub; lia|].
        right. exists o, budget, v, (view_of o st'), false. apply Hfin; try done. by rewrite S1, S6.
Qed.

Lemma submit_ok e order : submit_pre e order ->
  exists e' rep, submit e order = Ret (e', rep) /\
    submit_post e e' order [] (sr_trades rep)
      (sr_order_id rep, sr_status rep, sr_filled rep, sr_resting rep).
Proof.
  intros Hpre. destruct (submit_into_ok e order [] Hpre) as (e' & ts & [[[id status] filled] rs] & E & H).
  unfold submit. rewrite E. eexists _, _. split; [done|]. done.
Qed.

(** ** Consequences of a run *)
(** The ladder of a run only loses quantity. *)
Lemma run_price e order v0 v ts p q : run e order v0 v ts -> (p, q) ∈ v_ladder v -> exists q0, (p, q0) ∈ v_ladder v0.
Proof.
  intros Hrun Hin. destruct (run_wf _ _ _ _ _ Hrun) as [_ Hf]. rewrite Forall_forall in Hf.
  destruct (Hf _ Hin) as (_ & Hne & _). cbn in Hne. destruct q as [|o q]; [done|].
  destruct (run_from _ _ _ _ _ Hrun p (o :: q) o Hin) as (q0 & ? & ? & _); [set_solver|]. eauto.
Qed.

Section consequences.
Context (e : MatchingEngine) (order : Order) (v0 : mview).
Context (Hwf : ladder_wf order (v_ladder v0)) (Hq0 : 0 <= v_rem v0 <= U64_MAX).

Lemma trade_price_u64 t : trade_ok e order (v_ladder v0) t -> is_u64 (t_price t) /\ 0 < t_quantity t.
Proof.
  intros (_ & _ & _ & _ & Hp & _ & _ & q & o & Hin & _). split; [|done].
  destruct Hwf as [_ Hf]. rewrite Forall_forall in Hf. by apply (Hf (t_price t, q)).
Qed.

(** With the budget [u128::MAX] of non-budget orders the cap never binds. *)
Lemma budget_slack v ts px : run e order v0 v ts -> v_budget v0 = U128_MAX -> is_u64 px ->
  affordable (v_budget v) px (v_rem v) = v_rem v.
Proof.
  intros Hrun Hb Hp. destruct Hrun as [_ _ Hok Hqty Hrem Hcost Hbud _ _ _ _].
  assert (sumZ (fun t => t_price t * t_quantity t) ts <= U64_MAX * sumZ t_quantity ts) as Hle.
  { rewrite <-sumZ_mul. apply sumZ_le. eapply Forall_impl; [exact Hok|]. intros t Ht.
    destruct (trade_price_u64 t Ht) as [H1 H2]. unfold is_u64 in H1. nia. }
  unfold affordable. unfold is_u64 in Hp. apply Z.min_r. apply Z.div_le_lower_bound; [lia|].
  assert (Z.max px 1 * v_rem v <= U64_MAX * v_rem v) by nia. lia.
Qed.

(** At an exit that did not stop the taker, with the cap not binding: the taker
    is filled or nothing it reaches is left. *)
Lemma exit_exhausted v v' ts : run e order v0 v ts -> v_budget v0 = U128_MAX ->
  cexit e order v v' false ->
  v' = v /\ (v_rem v = 0 \/ forall p q, (p, q) ∈ v_ladder v -> crossable order p = false).
Proof.
  intros Hrun Hb Hex. remember false as stopped eqn:Hst.
  destruct Hex as [v H|v H H0|v px q rest H H0 H1|v px q rest H H0 H1 H2|v|]; try done; split; try done.
  - by left.
  - right. intros p q. rewrite H0. set_solver.
  - right. intros p q' Hin. rewrite H0 in Hin. apply elem_of_cons in Hin as [[= -> ->]|Hin]; [done|].
    pose proof (run_wf _ _ _ _ _ Hrun) as Hw. rewrite H0 in Hw.
    destruct (rest_worse order _ _ _ _ _ Hw Hin) as [Hbt _].
    unfold crossable, better in *. destruct (o_type order); [|done]. destruct (o_side order); simpl in Hbt; zbool;
      apply Z.leb_gt in H1; apply Z.leb_gt; lia.
  - exfalso. rewrite (budget_slack v ts px Hrun Hb) in H2; [lia|].
    pose proof (run_wf _ _ _ _ _ Hrun) as [_ Hw]. rewrite H0 in Hw. by apply Forall_cons in Hw as [(_ & _ & ?) _].
Qed.

End consequences.

(** *** Quantity within reach *)
Definition xsum (order : Order) (l : list (Price * list Order)) : Z :=
  sumZ (fun a => if crossable order a.1 then sumZ o_remaining a.2 else 0) l.

Lemma xsum_push order px q rest : xsum order (push_level px q rest) =
  (if crossable order px then sumZ o_remaining q else 0) + xsum order rest.
Proof.
  unfold xsum, push_level. destruct q as [|o q]; [rewrite sumZ_nil; by case_if|]. by rewrite sumZ_cons.
Qed.

(** Without self-trade prevention each lot filled is a lot less within reach. *)
Lemma xsum_step e order v v' : stp_on e order = false -> cstep e order v v' ->
  xsum order (v_ladder v') - v_rem v' = xsum order (v_ladder v) - v_rem v.
Proof.
  intros Hoff Hst. destruct Hst as [px q rest rem ts budget pulled aff al fs Hrem Hx Haff Ha Hown Hal Hfs Hq Hne Hnd Hf Hsum|]; [|congruence].
  cbn [v_ladder v_rem]. rewrite xsum_push, Hx. unfold xsum at 2. rewrite sumZ_cons. cbn [fst snd]. rewrite Hx.
  fold (xsum order rest). destruct (q_fills_ok fs q Hq Hnd) as (_ & _ & -> & _); [|lia].
  eapply Forall_impl; [exact Hf|]. intros f [H1 H2]. split; [by eapply shown_subset|done].
Qed.

Lemma xsum_steps e order v0 v : stp_on e order = false -> rtc (cstep e order) v0 v ->
  xsum order (v_ladder v) - v_rem v = xsum order (v_ladder v0) - v_rem v0.
Proof.
  intros Hoff Hr. induction Hr as [|v1 v2 v3 Hst Hr IH]; [done|]. rewrite IH. by eapply xsum_step.
Qed.

Lemma xsum_none order l : (forall p q, (p, q) ∈ l -> crossable order p = false) -> xsum order l = 0.
Proof. intros H. apply sumZ_zero. intros [p q] Hin. cbn [fst snd]. by rewrite (H p q Hin). Qed.

Lemma not_stopped e order v v' stopped : stp_on e order = false -> cexit e order v v' stopped -> stopped = false.
Proof. intros Hoff Hex. destruct Hex; done || congruence. Qed.

(** *** Orders cancelled by self-trade prevention *)
Lemma ladder_id_unique (l : list (Price * list Order)) p1 q1 o1 p2 q2 o2 :
  NoDup (o_id <$> (l ≫= snd)) -> (p1, q1) ∈ l -> (p2, q2) ∈ l -> o1 ∈ q1 -> o2 ∈ q2 -> o_id o1 = o_id o2 -> p1 = p2.
Proof.
  induction l as [|[p q] l IH]; [set_solver|]. rewrite bind_cons, fmap_app.
  intros (_ & Hd & Hnd)%NoDup_app H1 H2 Ho1 Ho2 Hid.
  assert (forall p' q' o', (p', q') ∈ l -> o' ∈ q' -> o_id o' ∈ o_id <$> (l ≫= snd)) as Hin.
  { intros p' q' o' Hl Ho. apply list_elem_of_fmap_2, list_elem_of_bind. by exists (p', q'). }
  apply elem_of_cons in H1 as [[= -> ->]|H1], H2 as [[= -> ->]|H2].
  - done.
  - exfalso. apply (Hd (o_id o1)); [by apply list_elem_of_fmap_2|]. rewrite Hid. by eapply Hin.
  - exfalso. apply (Hd (o_id o2)); [by apply list_elem_of_fmap_2|]. rewrite <-Hid. by eapply Hin.
  - by eapply IH.
Qed.

Definition pulled_ok (order : Order) (v0 v : mview) : Prop :=
  forall id, id ∈ v_stp v -> id ∈ v_stp v0 \/
    ((exists p q o, (p, q) ∈ v_ladder v0 /\ o ∈ q /\ o_id o = id /\ o_user o = o_user order) /\
     forall p q o, (p, q) ∈ v_ladder v -> o ∈ q -> o_id o <> id).

Section pulled.
Context (e : MatchingEngine) (order : Order) (v0 : mview).
Context (Hnd : NoDup (o_id <$> (v_ladder v0 ≫= snd))).

Lemma pulled_pull v px q rest rem ts budget pulled aff tr :
  v = mkView ((px, q) :: rest) rem ts budget pulled -> run e order v0 v tr -> pulled_ok order v0 v ->
  pulled_ok order v0 (mkView (push_level px (q_drop (own_ids order (shown e aff q)) q) rest) rem ts budget
    (pulled ++ own_ids order (shown e aff q))).
Proof.
  intros -> Hrun Hp id Hin. cbn [v_stp] in *. apply elem_of_app in Hin as [Hin|Hin].
  - destruct (Hp id Hin) as [?|[H1 H2]]; [by left|right]. split; [done|]. cbn [v_ladder] in *.
    intros p q' o Hl Ho. apply push_elem in Hl as [[[= -> ->] _]|Hl].
    + apply list_elem_of_filter in Ho as [_ Ho]. apply (H2 px q o); [set_solver|done].
    + apply (H2 p q' o); [set_solver|done].
  - right. pose proof Hin as Hin0. apply own_ids_elem in Hin as (o & Ho & Hid & Hown). apply shown_subset in Ho.
    destruct (run_from _ _ _ _ _ Hrun px q o) as (q0 & o0 & I1 & I2 & I3 & _); [cbn; set_solver | done |].
    assert (o_id o0 = id /\ o_user o0 = o_user order) as [J1 J2].
    { unfold own in Hown. apply Z.eqb_eq in Hown. rewrite I3 in Hid, Hown. by destruct o0. }
    split; [by exists px, q0, o0|]. cbn [v_ladder]. intros p q' o' Hl Ho'.
    apply push_elem in Hl as [[[= -> ->] _]|Hl].
    + apply list_elem_of_filter in Ho' as [Hni _]. intros Hx. apply Hni. rewrite Hx.
      exact Hin0.
    + intros Hx.
      destruct (run_from _ _ _ _ _ Hrun p q' o') as (q1 & o1 & K1 & K2 & K3 & _); [cbn; set_solver | done |].
      assert (p = px) as ->.
      { eapply (ladder_id_unique (v_ladder v0) p q1 o1 px q0 o0); try done. rewrite J1, <-Hx, K3. by destruct o1. }
      destruct (rest_worse order _ _ _ _ _ (run_wf _ _ _ _ _ Hrun) Hl). done.
Qed.

Lemma pulled_steps v : rtc (cstep e order) v0 v -> ladder_wf order (v_ladder v0) ->
  0 <= v_rem v0 -> 0 <= v_budget v0 -> (exists tr, run e order v0 v tr) /\ pulled_ok order v0 v.
Proof.
  intros Hr Hwf H1 H2. revert v Hr. apply rtc_ind_r.
  - split; [exists []; by apply run_start|]. intros id Hin. by left.
  - intros v1 v2 Hr Hst [[tr Hrun] Hp]. split.
    { destruct (run_step _ _ _ _ _ _ Hrun Hst) as [ts' Hrun']. eauto. }
    destruct Hst as [px q rest rem ts budget pulled aff al fs Hrem Hx Haff Ha Hown Hal Hfs Hq Hne Hnd' Hf Hsum|].
    + intros id Hin. destruct (Hp id Hin) as [?|[K1 K2]]; [by left|right]. split; [done|]. cbn [v_ladder] in *.
      intros p q' o Hl Ho. apply push_elem in Hl as [[[= -> ->] _]|Hl]; [|apply (K2 p q' o); [set_solver|done]].
      destruct (q_fills_from fs q o Hq Hnd') as (o1 & Ho1 & E1 & _); [|done|].
      { eapply Forall_impl; [exact Hf|]. intros f [F1 F2]. split; [by eapply shown_subset|done]. }
      rewrite E1. cbn. apply (K2 px q o1); [set_solver|done].
    + by eapply pulled_pull.
Qed.

Lemma pulled_exit v v' stopped tr : run e order v0 v tr -> pulled_ok order v0 v ->
  cexit e order v v' stopped -> pulled_ok order v0 v'.
Proof. intros Hrun Hp Hex. destruct Hex; try done. by eapply pulled_pull. Qed.

End pulled.

(** *** Cost of the remaining quantity *)
Lemma ladder_cost_zero l : Forall (fun a : Price * list Order => 0 <= sumZ o_remaining a.2) l -> ladder_cost 0 l = (0, 0).
Proof.
  intros H. destruct l as [|[p q] l]; [done|]. apply Forall_cons in H as [H _]. cbn in *.
  rewrite Z.min_l, Z.sub_diag, Z.mul_0_r by done. done.
Qed.

Lemma ladder_cost_fill n px q q' rest f :
  0 <= f <= Z.min n (sumZ o_remaining q) -> sumZ o_remaining q' = sumZ o_remaining q - f ->
  Forall (fun a : Price * list Order => 0 <= sumZ o_remaining a.2) rest ->
  ladder_cost (n - f) (push_level px q' rest) =
  ((ladder_cost n ((px, q) :: rest)).1, (ladder_cost n ((px, q) :: rest)).2 - px * f).
Proof.
  intros Hf Hq' Hr. cbn [ladder_cost fst snd]. unfold push_level. destruct q' as [|o' q''].
  - rewrite sumZ_nil in Hq'. assert (Z.min n (sumZ o_remaining q) = f) as -> by lia. case_if; cbn [fst snd].
    + rewrite (surjective_pairing (ladder_cost (n - f) rest)) at 1. f_equal. lia.
    + replace (n - f) with 0 by lia. rewrite ladder_cost_zero by done. f_equal. lia.
  - cbn [ladder_cost]. rewrite Hq'.
    assert (Z.min (n - f) (sumZ o_remaining q - f) = Z.min n (sumZ o_remaining q) - f) as -> by lia.
    replace (n - f - (Z.min n (sumZ o_remaining q) - f)) with (n - Z.min n (sumZ o_remaining q)) by lia.
    f_equal. lia.
Qed.

Lemma wf_sums order l : ladder_wf order l -> Forall (fun a : Price * list Order => 0 <= sumZ o_remaining a.2) l.
Proof.
  intros [_ H]. eapply Forall_impl; [exact H|]. intros a ([Hp _] & _). apply sumZ_nonneg.
  eapply Forall_impl; [exact Hp|]. simpl. lia.
Qed.

(** Without self-trade prevention, what the walk of [cost_to_fill] says about the
    rest of the order stays true along the loop. *)
Lemma cost_step_inv e order v v' : stp_on e order = false -> ladder_wf order (v_ladder v) ->
  cstep e order v v' ->
  (ladder_cost (v_rem v') (v_ladder v')).1 = (ladder_cost (v_rem v) (v_ladder v)).1 /\
  v_budget v' - (ladder_cost (v_rem v') (v_ladder v')).2 = v_budget v - (ladder_cost (v_rem v) (v_ladder v)).2.
Proof.
  intros Hoff Hwf Hst. destruct Hst as [px q rest rem ts budget pulled aff al fs Hrem Hx Haff Ha Hown Hal Hfs Hq Hne Hnd Hf Hsum|]; [|congruence].
  cbn [v_ladder v_rem v_budget] in *.
  destruct (q_fills_ok fs q Hq Hnd) as (_ & _ & Hs & _).
  { eapply Forall_impl; [exact Hf|]. intros f [H1 H2]. split; [by eapply shown_subset|done]. }
  apply wf_sums in Hwf. apply Forall_cons in Hwf as [Hw0 Hw]. cbn [snd] in Hw0.
  assert (aff <= rem) by (rewrite Haff; unfold affordable; lia).
  rewrite (ladder_cost_fill rem px q _ rest (sumZ snd fs)); [|lia|done|done]. cbn [fst snd]. split; [done|]. lia.
Qed.

Lemma cost_steps_inv e order v0 v : stp_on e order = false -> ladder_wf order (v_ladder v0) ->
  0 <= v_rem v0 -> 0 <= v_budget v0 -> rtc (cstep e order) v0 v ->
  (ladder_cost (v_rem v) (v_ladder v)).1 = (ladder_cost (v_rem v0) (v_ladder v0)).1 /\
  v_budget v - (ladder_cost (v_rem v) (v_ladder v)).2 = v_budget v0 - (ladder_cost (v_rem v0) (v_ladder v0)).2.
Proof.
  intros Hoff Hwf H1 H2 Hr.
  assert (exists tr, run e order v0 v tr) as [tr Hrun] by (by apply run_rtc).
  revert tr Hrun. pattern v. revert v Hr. apply rtc_ind_r; [done|].
  intros v1 v2 Hr Hst IH tr _. destruct (run_rtc _ _ _ _ Hr Hwf H1 H2) as [tr1 Hrun1].
  destruct (IH tr1 Hrun1) as [E1 E2].
  destruct (cost_step_inv e order v1 v2 Hoff (run_wf _ _ _ _ _ Hrun1) Hst) as [F1 F2]. lia.
Qed.

(** *** Strict price-time matching *)

(** The textbook algorithm: walk the eligible orders best price first and oldest
    first, and take from each as much as is left to fill. *)
Fixpoint match_fifo (n : Qty) (os : list Order) : list (Order * Qty) :=
  match os with
  | [] => []
  | o :: rest =>
      if n =? 0 then []
      else (o, Z.min n (o_remaining o)) :: match_fifo (n - Z.min n (o_remaining o)) rest
  end.

Lemma match_fifo_zero os : match_fifo 0 os = [].
Proof. by destruct os. Qed.

Lemma match_fifo_app n q rest : 0 <= n -> Forall (fun o => 0 < o_remaining o) q ->
  match_fifo n (q ++ rest) = match_fifo n q ++ match_fifo (n - Z.min n (sumZ o_remaining q)) rest.
Proof.
  intros Hn Hq. revert n Hn. induction Hq as [|o q Ho Hq IH]; intros n Hn.
  - cbn. rewrite sumZ_nil, Z.min_r, Z.sub_0_r by lia. done.
  - cbn [match_fifo app]. rewrite sumZ_cons.
    assert (0 <= sumZ o_remaining q) by (apply sumZ_nonneg; eapply Forall_impl; [exact Hq|]; simpl; lia).
    case_if.
    + subst n. rewrite Z.min_l, Z.sub_diag by lia. cbn. by rewrite match_fifo_zero.
    + rewrite IH by lia. cbn [app]. do 3 f_equal. lia.
Qed.

(** The strategy's sweep of the shown front resolves to that walk of the queue. *)
Lemma sweep_resolve q i n pre :
  Forall (fun o => 0 < o_remaining o) q -> 0 <= n -> i = Z.of_nat (length pre) ->
  Z.of_nat (length (pre ++ q)) <= U32_MAX + 1 ->
  resolve (pre ++ q) (PriceTimePriority.sweep (OrderBook.to_resting <$> q) i n) = match_fifo n q.
Proof.
  intros Hq. revert pre i n. induction Hq as [|o q Ho Hq IH]; intros pre i n Hn -> Hlen; [done|].
  rewrite fmap_cons. cbn [PriceTimePriority.sweep match_fifo].
  change (r_remaining (OrderBook.to_resting o)) with (o_remaining o). case_if; [done|].
  case_if; [|lia]. unfold resolve. cbn [omap list_omap a_idx a_qty].
  rewrite length_app in Hlen. cbn [length] in Hlen.
  rewrite wrap32_small by (unfold_width; lia). rewrite Nat2Z.id.
  rewrite lookup_app_r, Nat.sub_diag by lia. cbn [lookup list_lookup mbind option_bind].
  f_equal. change (pre ++ o :: q) with (pre ++ ([o] ++ q)). rewrite app_assoc.
  apply IH; [lia | rewrite length_app; simpl; lia | rewrite !length_app; simpl; lia].
Qed.

Lemma match_fifo_cap n c q : 0 <= n -> Forall (fun o => 0 < o_remaining o) q ->
  match_fifo n (q_cap (c + n) c q) = match_fifo n q.
Proof.
  intros Hn Hq. revert n c Hn. induction Hq as [|o q Ho Hq IH]; intros n c Hn; [done|].
  cbn [q_cap match_fifo]. case_if; [done|]. f_equal. case_if.
  - rewrite Z.min_l, Z.sub_diag by lia. by rewrite !match_fifo_zero.
  - rewrite Z.min_r by lia. rewrite <-(IH (n - o_remaining o) (c + o_remaining o)) by lia.
    f_equal. f_equal; lia.
Qed.

Lemma match_fifo_all n q : sumZ o_remaining q <= n -> Forall (fun o => 0 < o_remaining o) q ->
  match_fifo n q = (fun o => (o, o_remaining o)) <$> q.
Proof.
  intros Hn Hq. revert n Hn. induction Hq as [|o q Ho Hq IH]; intros n Hn; [done|].
  rewrite sumZ_cons in Hn. assert (0 <= sumZ o_remaining q) by (apply sumZ_nonneg; eapply Forall_impl; [exact Hq|]; simpl; lia).
  cbn [match_fifo]. case_if; [lia|]. rewrite Z.min_r by lia. rewrite fmap_cons, IH by lia. done.
Qed.

(** The orders a taker reaches, in matching priority. *)
Definition eligible (order : Order) (l : list (Price * list Order)) : list Order :=
  filter (fun a => crossable order a.1 = true) l ≫= snd.

Definition trade_at (e : MatchingEngine) (order : Order) (f : Order * Qty) : Trade :=
  trade_of e order (o_price f.1) f.

Definition priced (l : list (Price * list Order)) : Prop :=
  forall p q o, (p, q) ∈ l -> o ∈ q -> o_price o = p.

Lemma eligible_cons order px q rest : crossable order px = true ->
  eligible order ((px, q) :: rest) = q ++ eligible order rest.
Proof. intros H. unfold eligible. rewrite filter_cons, decide_True by done. by rewrite bind_cons. Qed.

Lemma shown_fifo e aff q : strategy e = PriceTimePriority.strategy -> 0 <= aff ->
  Forall (fun o => 0 < o_remaining o) q -> Z.of_nat (length q) <= U32_MAX ->
  exists al, allocate_into (strategy e) (OrderBook.to_resting <$> shown e aff q) aff [] = Ret al /\
    resolve (shown e aff q) al = match_fifo aff q.
Proof.
  intros Hs Ha Hq Hl. unfold shown. rewrite Hs. cbn [full_level_required PriceTimePriority.strategy].
  eexists. split; [done|]. cbn [app].
  destruct (q_cap_prefix aff 0 q) as (tl & E & _). rewrite E in Hq, Hl at 1.
  apply Forall_app in Hq as [Hq1 Hq2]. rewrite length_app in Hl.
  transitivity (match_fifo aff (q_cap aff 0 q)).
  - apply (sweep_resolve (q_cap aff 0 q) 0 aff []); cbn [app]; done || lia.
  - apply (match_fifo_cap aff 0 q Ha). rewrite E. by apply Forall_app.
Qed.

Section fifo.
Context (e : MatchingEngine) (order : Order) (v0 : mview).
Context (Hs : strategy e = PriceTimePriority.strategy) (Hoff : stp_on e order = false).
Context (Hwf : ladder_wf order (v_ladder v0)) (Hq0 : 0 <= v_rem v0 <= U64_MAX) (Hb0 : v_budget v0 = U128_MAX).
Context (Hpr : priced (v_ladder v0)) (Hlen : Forall (fun a => Z.of_nat (length a.2) <= U32_MAX) (v_ladder v0)).

Definition fifo_inv (v : mview) : Prop :=
  v_trades v ++ (trade_at e order <$> match_fifo (v_rem v) (eligible order (v_ladder v))) =
  v_trades v0 ++ (trade_at e order <$> match_fifo (v_rem v0) (eligible order (v_ladder v0))) /\
  Forall (fun a => Z.of_nat (length a.2) <= U32_MAX) (v_ladder v) /\ priced (v_ladder v).

Lemma fifo_step v v' tr : run e order v0 v tr -> fifo_inv v -> cstep e order v v' -> fifo_inv v'.
Proof.
  intros Hrun (Hinv & Hl & Hp) Hst.
  destruct Hst as [px q rest rem ts budget pulled aff al fs Hrem Hx Haff Ha Hown Hal Hfs Hq Hne Hnd Hf Hsum|]; [|congruence].
  pose proof (run_wf _ _ _ _ _ Hrun) as [_ Hw]. cbn [v_ladder] in Hw.
  apply Forall_cons in Hw as [(Hpos & _ & Hpx) _]. cbn [fst snd] in *.
  assert (aff = rem) as ->.
  { rewrite Haff. exact (budget_slack e order v0 Hwf Hq0 _ _ px Hrun Hb0 Hpx). }
  cbn [v_ladder v_rem v_trades] in *. unfold fifo_inv. cbn [v_ladder v_rem v_trades].
  apply Forall_cons in Hl as [Hlq Hl]. cbn [snd] in Hlq.
  destruct (shown_fifo e rem q Hs ltac:(lia) (proj1 Hpos) Hlq) as (al' & Hal' & Hres).
  rewrite Hal in Hal'. injection Hal' as <-. rewrite Hres in Hfs.
  assert (Forall (fun f => f.1 ∈ q /\ 0 < f.2 <= o_remaining f.1) fs) as Hf'.
  { eapply Forall_impl; [exact Hf|]. intros f [H1 H2]. split; [by eapply shown_subset|done]. }
  destruct (q_fills_ok fs q Hq Hnd Hf') as (_ & Hq' & Hs' & Hll & _).
  assert ((trade_of e order px <$> fs) = (trade_at e order <$> fs)) as Htr.
  { apply list_fmap_ext. intros i f Hi. unfold trade_at. f_equal. symmetry.
    rewrite Forall_forall in Hf'. destruct (Hf' f) as [H1 _]; [by eapply list_elem_of_lookup_2|].
    apply (Hp px q); [set_solver|done]. }
  rewrite Htr, <-Hinv, (eligible_cons order px q rest Hx), match_fifo_app by (lia || apply Hpos).
  rewrite fmap_app, <-Hfs, <-app_assoc, Hsum.
  split; [|split].
  - do 2 f_equal. destruct (Z.le_gt_cases (sumZ o_remaining q) rem) as [Hle|Hgt].
    + rewrite Z.min_r by lia. assert (q_fills (fill_of <$> fs) q = []) as ->; [|done].
      destruct (q_fills (fill_of <$> fs) q) as [|x l] eqn:Hx'; [done|].
      pose proof (positive_sum (x :: l) Hq' ltac:(done)). lia.
    + rewrite Z.min_l, Z.sub_diag by lia. by rewrite !match_fifo_zero.
  - unfold push_level. destruct (q_fills (fill_of <$> fs) q) as [|x l] eqn:Hx'; [done|].
    constructor; [|done]. cbn [snd]. lia.
  - intros p q' o Hin Ho. apply push_elem in Hin as [[[= -> ->] _]|Hin]; [|apply (Hp p q'); [set_solver|done]].
    destruct (q_fills_from fs q o Hq Hnd Hf' Ho) as (o1 & Ho1 & E1 & _). rewrite E1. cbn.
    apply (Hp px q); [set_solver|done].
Qed.

Lemma fifo_steps v : rtc (cstep e order) v0 v -> fifo_inv v.
Proof.
  intros Hr. cut (exists tr, run e order v0 v tr /\ fifo_inv v); [by intros (_ & _ & ?)|].
  revert v Hr. apply rtc_ind_r.
  - exists []. split; [|done]. apply run_start; [done | lia | rewrite Hb0; lia].
  - intros v1 v2 Hr Hst (tr & Hrun & Hinv). destruct (run_step _ _ _ _ _ _ Hrun Hst) as [ts' Hrun'].
    eexists. split; [exact Hrun'|]. exact (fifo_step v1 v2 tr Hrun Hinv Hst).
Qed.

End fifo.

(** *** Queue order *)
Lemma q_edit_times id g q : sublist (o_timestamp <$> q_edit id g q) (o_timestamp <$> q).
Proof.
  induction q as [|x q IH]; [done|]. rewrite q_edit_cons, fmap_app, fmap_cons.
  change (o_timestamp x :: (o_timestamp <$> q)) with ([o_timestamp x] ++ (o_timestamp <$> q)).
  apply sublist_app; [|done]. case_if; [|done]. unfold refill. case_if; [apply sublist_nil_l|done].
Qed.

Lemma q_fills_times fs q : sublist (o_timestamp <$> q_fills fs q) (o_timestamp <$> q).
Proof.
  revert q. induction fs as [|f fs IH]; intros q; [done|].
  change (q_fills (f :: fs) q) with (q_fills fs (q_fill f q)). etrans; [apply IH|apply q_edit_times].
Qed.

(** The queues of the ladder keep their order. *)
Definition times_from (v0 v : mview) : Prop :=
  forall p q, (p, q) ∈ v_ladder v -> exists q0, (p, q0) ∈ v_ladder v0 /\
    sublist (o_timestamp <$> q) (o_timestamp <$> q0).

Lemma times_push v0 px q q' rest rem ts bud stp rem' ts' bud' stp' :
  times_from v0 (mkView ((px, q) :: rest) rem ts bud stp) ->
  sublist (o_timestamp <$> q') (o_timestamp <$> q) ->
  times_from v0 (mkView (push_level px q' rest) rem' ts' bud' stp').
Proof.
  intros H Hs p x Hin. cbn [v_ladder] in *. apply push_elem in Hin as [[[= -> ->] _]|Hin].
  - destruct (H px q) as (q0 & H1 & H2); [cbn; set_solver|]. exists q0. split; [done|]. by etrans.
  - apply H. cbn. set_solver.
Qed.

Lemma q_drop_times ids q : sublist (o_timestamp <$> q_drop ids q) (o_timestamp <$> q).
Proof. apply fmap_sublist, sublist_filter. Qed.

Lemma times_steps e order v0 v v' stopped : rtc (cstep e order) v0 v -> cexit e order v v' stopped ->
  times_from v0 v'.
Proof.
  intros Hr Hex. assert (times_from v0 v) as Ht.
  { clear Hex. revert v Hr. apply rtc_ind_r.
    - intros p q Hin. by exists q.
    - intros v1 v2 _ Hst IH. destruct Hst; (eapply times_push; [exact IH|]);
        [apply q_fills_times|apply q_drop_times]. }
  destruct Hex; try done. eapply times_push; [exact Ht|apply q_drop_times].
Qed.

(** *** Rebuilding a book by insertion *)
Definition at_level (sd : Side) (p : Price) (o : Order) : Prop := o_side o = sd /\ o_price o = p.

#[export] Instance at_level_dec sd p o : Decision (at_level sd p o).
Proof. unfold at_level. apply _. Defined.

Lemma insert_all os b :
  book_inv b -> Forall (fun o => order_ok o /\ 0 < o_remaining o) os -> NoDup (o_id <$> os) ->
  (forall o, o ∈ os -> resting b (o_id o) = None) ->
  (forall sd p, sumZ o_remaining (queue b sd p ++ filter (at_level sd p) os) <= U64_MAX) ->
  used b + Z.of_nat (length os) <= U32_MAX ->
  exists b', ofold OrderBook.insert b os = Ret b' /\ book_inv b' /\
    (forall sd p, queue b' sd p = queue b sd p ++ filter (at_level sd p) os) /\
    used b' <= used b + Z.of_nat (length os).
Proof.
  revert b. induction os as [|o os IH]; intros b Hb Hok Hnd Hf Hsum Hu.
  - exists b. split_and!; try done; [|simpl; lia]. intros sd p. by rewrite app_nil_r.
  - apply Forall_cons in Hok as [[Ho Hr] Hok]. rewrite fmap_cons in Hnd. apply NoDup_cons in Hnd as [Hni Hnd].
    cbn [length] in Hu.
    assert (0 <= sumZ o_remaining (filter (at_level (o_side o) (o_price o)) os)) as Hnn.
    { apply sumZ_nonneg, Forall_forall. intros x [_ Hx]%list_elem_of_filter. rewrite Forall_forall in Hok.
      specialize (Hok x Hx). simpl in Hok. lia. }
    destruct (insert_spec b o Hb Ho Hr) as (b1 & _ & E & Hb1 & [Hq1 Hq2] & Hu1).
    { apply Hf. set_solver. }
    { specialize (Hsum (o_side o) (o_price o)). rewrite filter_cons, decide_True in Hsum by done.
      rewrite sumZ_app, sumZ_cons in Hsum. lia. }
    { lia. }
    assert (forall sd p, queue b1 sd p ++ filter (at_level sd p) os = queue b sd p ++ filter (at_level sd p) (o :: os)) as Hcat.
    { intros sd p. rewrite filter_cons. case_decide as Hd.
      - destruct Hd as [<- <-]. rewrite Hq1, <-app_assoc. done.
      - rewrite Hq2; [done|]. intros [= -> ->]. by apply Hd. }
    destruct (IH b1 Hb1 Hok Hnd) as (b2 & E2 & Hb2 & Hq & Hu2).
    + intros x Hx. destruct (resting b1 (o_id x)) as [y|] eqn:Hy; [|done]. exfalso.
      apply (resting_queue _ _ _ Hb1) in Hy as [Hid Hy].
      assert (y ∈ queue b (o_side y) (o_price y) ++ filter (at_level (o_side y) (o_price y)) (o :: os)) as Hy'.
      { rewrite <-Hcat. set_solver. }
      destruct (decide ((o_side y, o_price y) = (o_side o, o_price o))) as [Heq|Hne].
      * injection Heq as E1 E2. rewrite E1, E2, Hq1 in Hy. apply elem_of_app in Hy as [Hy|Hy].
        -- destruct (queue_order _ _ _ _ Hb Hy) as (_ & _ & _ & _ & Hr2).
           rewrite Hid, (Hf x) in Hr2 by set_solver. done.
        -- apply list_elem_of_singleton in Hy as ->. apply Hni. rewrite Hid. by apply list_elem_of_fmap_2.
      * rewrite Hq2 in Hy by done. destruct (queue_order _ _ _ _ Hb Hy) as (_ & _ & _ & _ & Hr2).
        rewrite Hid, (Hf x) in Hr2 by set_solver. done.
    + intros sd p. rewrite Hcat. apply Hsum.
    + lia.
    + exists b2. cbn [ofold]. rewrite E. cbn [obind]. split_and!; try done.
      * intros sd p. by rewrite Hq, Hcat.
      * cbn [length]. lia.
Qed.

(** *** Cancellation *)
Lemma cancel_queues b id o : book_inv b -> resting b id = Some o ->
  exists b', OrderBook.cancel b id = Ret (b', Some o) /\ book_inv b' /\ used b' = used b /\
    forall sd p, queue b' sd p = filter (fun x => o_id x <> id) (queue b sd p).
Proof.
  intros Hb Hr. pose proof (cancel_spec b id Hb) as Hc. rewrite Hr in Hc.
  destruct Hc as (b' & E & Hb' & [H1 H2] & Hu). exists b'. split_and!; try done. intros sd p.
  destruct (decide ((sd, p) = (o_side o, o_price o))) as [[= -> ->]|Hne]; [by rewrite H1, q_set_zero|].
  rewrite H2 by done. rewrite <-q_set_zero. symmetry. apply q_edit_frame.
  intros (x & Hid & Hx)%list_elem_of_fmap. destruct (queue_order _ _ _ _ Hb Hx) as (H3 & H4 & _ & _ & H5).
  rewrite <-Hid, Hr in H5. injection H5 as ->. congruence.
Qed.

Lemma filter_ne_resting b b' id : book_inv b -> book_inv b' ->
  (forall sd p, queue b' sd p = filter (fun x => o_id x <> id) (queue b sd p)) ->
  forall x, resting b' x = if decide (x = id) then None else resting b x.
Proof.
  intros Hb Hb' Hq x. apply option_eq. intros o. rewrite (resting_queue _ _ _ Hb'), Hq, list_elem_of_filter.
  case_decide as Hx; [subst; naive_solver|]. rewrite (resting_queue _ _ _ Hb). naive_solver.
Qed.

Lemma cancel_ids_ok ids b : book_inv b -> NoDup ids -> (forall id, id ∈ ids -> is_Some (resting b id)) ->
  exists b', cancel_ids b ids = Ret b' /\ book_inv b' /\ used b' = used b /\
    forall sd p, queue b' sd p = q_drop ids (queue b sd p).
Proof.
  unfold cancel_ids. revert b. induction ids as [|id ids IH]; intros b Hb Hnd Hr.
  - exists b. split_and!; try done. intros. by rewrite q_drop_nil.
  - apply NoDup_cons in Hnd as [Hni Hnd]. destruct (Hr id) as [o Ho]; [set_solver|].
    destruct (cancel_queues b id o Hb Ho) as (b1 & E & Hb1 & Hu1 & Hq1). cbn [ofold]. rewrite E. cbn [obind fst].
    destruct (IH b1 Hb1 Hnd) as (b2 & E2 & Hb2 & Hu2 & Hq2).
    { intros x Hx. rewrite (filter_ne_resting b b1 id) by done. rewrite decide_False; [apply Hr; set_solver|].
      intros ->. done. }
    exists b2. split_and!; [done | done | congruence |]. intros sd p. by rewrite Hq2, q_drop_cons, q_set_zero, Hq1.
Qed.

(** The remaining quantity of a resting order, 0 when it does not rest. *)
Definition rem_at (b : OrderBook) (id : OrderId) : Qty :=
  match resting b id with Some o => o_remaining o | None => 0 end.

Lemma sum_unique {A} (f : A -> OrderId) (g : A -> Z) (l : list A) x :
  NoDup (f <$> l) -> x ∈ l -> sumZ (fun y => if f y =? f x then g y else 0) l = g x.
Proof.
  intros Hnd Hx. apply list_elem_of_split in Hx as (l1 & l2 & ->).
  rewrite fmap_app, fmap_cons in Hnd. apply NoDup_app in Hnd as (_ & H1 & [H2 _]%NoDup_cons).
  rewrite sumZ_app, sumZ_cons, Z.eqb_refl.
  rewrite (sumZ_zero _ l1), (sumZ_zero _ l2); [lia| |].
  - intros y Hy. case_if; [|done]. exfalso. apply H2. rewrite <-E. by apply list_elem_of_fmap_2.
  - intros y Hy. case_if; [|done]. exfalso. apply (H1 (f y)); [by apply list_elem_of_fmap_2|].
    rewrite E. set_solver.
Qed.

Lemma ladder_rem_resting b sd id : book_inv b ->
  ladder_rem id (ladder b sd) =
  match resting b id with Some o => if decide (o_side o = sd) then o_remaining o else 0 | None => 0 end.
Proof.
  intros Hb. unfold ladder_rem, rem_of.
  assert (forall o, o ∈ (ladder b sd ≫= snd) -> o_id o = id -> resting b id = Some o /\ o_side o = sd) as Hel.
  { intros o Ho <-. apply (ladder_order _ _ _ Hb) in Ho.
    destruct (queue_order _ _ _ _ Hb Ho) as (Hs & _ & _ & _ & Hr). done. }
  destruct (resting b id) as [o|] eqn:Hr; [case_decide as Hs|].
  - pose proof Hr as Hr'. apply (resting_queue _ _ _ Hb) in Hr' as [Hid Ho]. rewrite Hs in Ho.
    rewrite <-Hid. apply (sum_unique o_id o_remaining); [by apply ladder_ids|].
    by apply (ladder_order _ _ _ Hb).
  - apply sumZ_zero. intros x Hx. case_if; [|done]. destruct (Hel x Hx E) as [[= <-] ?]. done.
  - apply sumZ_zero. intros x Hx. case_if; [|done]. destruct (Hel x Hx E) as [? _]. done.
Qed.

End EngineFacts.
