(* ===== verification/BookProps.v ===== *)
(** * Correctness of the order book

    [src/src/book.rs]: the book refines its abstract specification (one queue of
    live orders per side and price), its read operations report those queues, its
    snapshot rebuilds them and its per-user counters count them. *)

From S2P Require Import Prelude Types Strategy LevelIndex Book Engine.
Import BookFacts EngineFacts OrderBook.

(** ** The abstract book *)

(** The operations that change the book. *)
Inductive BookOp :=
| OpInsert (o : Order)
| OpCancel (id : OrderId)
| OpReduce (id : OrderId) (n : Qty)
| OpFills (sd : Side) (p : Price) (fills : list (OrderId * Qty)).

Definition run_op (b : OrderBook) (op : BookOp) : outcome OrderBook :=
  match op with
  | OpInsert o => insert b o
  | OpCancel id => let! r := cancel b id in Ret r.1
  | OpReduce id n => let! r := reduce b id n in Ret r.1
  | OpFills sd p fills => apply_fills b sd p fills
  end.

Definition queues := Side -> Price -> list Order.

(** What the operation means: append at the back of one queue, remove an order,
    shrink it in place (never grow it), fill orders of one level. *)
Definition abs_op (a : queues) (op : BookOp) : queues :=
  match op with
  | OpInsert o => fun sd p => if decide ((sd, p) = (o_side o, o_price o)) then a sd p ++ [o] else a sd p
  | OpCancel id => fun sd p => filter (fun x => o_id x <> id) (a sd p)
  | OpReduce id n => fun sd p => q_edit id (fun x => Z.min n (o_remaining x)) (a sd p)
  | OpFills sd p fills => fun sd' p' => if decide ((sd', p') = (sd, p)) then q_fills fills (a sd p) else a sd' p'
  end.

(** The documented preconditions, on the abstract book. *)
Definition op_ok (a : queues) (op : BookOp) : Prop :=
  match op with
  | OpInsert o =>
      order_ok o /\ 0 < o_remaining o /\ (forall sd p x, x ∈ a sd p -> o_id x <> o_id o) /\
      sumZ o_remaining (a (o_side o) (o_price o)) + o_remaining o <= U64_MAX
  | OpCancel _ => True
  | OpReduce _ n => 0 <= n
  | OpFills sd p fills => fills <> [] /\ fills_valid fills (a sd p)
  end.

Definition is_insert (op : BookOp) : Z := match op with OpInsert _ => 1 | _ => 0 end.

Fixpoint ops_ok (a : queues) (ops : list BookOp) : Prop :=
  match ops with
  | [] => True
  | op :: rest => op_ok a op /\ ops_ok (abs_op a op) rest
  end.

Lemma q_edit_id id q : positive_queue q -> forall g, (forall x, x ∈ q -> o_id x = id -> g x = o_remaining x) ->
  q_edit id g q = q.
Proof.
  intros [Hp _]. induction Hp as [|x q Hx Hq IH]; intros g Hg; [done|].
  rewrite q_edit_cons, IH by (intros; apply Hg; set_solver). case_if; [|done].
  rewrite Hg by set_solver. unfold refill. case_if; [lia|]. by destruct x.
Qed.

Lemma q_edit_ext id g g' q : (forall x, x ∈ q -> o_id x = id -> g x = g' x) -> q_edit id g q = q_edit id g' q.
Proof.
  induction q as [|x q IH]; intros H; [done|]. rewrite !q_edit_cons, IH by (intros; apply H; set_solver).
  case_if; [|done]. by rewrite H by set_solver.
Qed.

(** An edit by id of the queue that holds the order is an edit of all queues. *)
Lemma edited_everywhere b b' id o g : book_inv b -> resting b id = Some o ->
  edited b b' (o_side o) (o_price o) (q_edit id g) -> forall sd p, queue b' sd p = q_edit id g (queue b sd p).
Proof.
  intros Hb Hr [H1 H2] sd p. destruct (decide ((sd, p) = (o_side o, o_price o))) as [[= -> ->]|Hne]; [done|].
  rewrite H2 by done. symmetry. apply q_edit_frame. intros (x & Hid & Hx)%list_elem_of_fmap.
  destruct (queue_order _ _ _ _ Hb Hx) as (H3 & H4 & _ & _ & H5). rewrite <-Hid, Hr in H5. congruence.
Qed.

Lemma not_resting_frame b id sd p : book_inv b -> resting b id = None -> id ∉ o_id <$> queue b sd p.
Proof.
  intros Hb Hr (x & -> & Hx)%list_elem_of_fmap. destruct (queue_order _ _ _ _ Hb Hx) as (_ & _ & _ & _ & H). congruence.
Qed.

Lemma run_op_ok b op : book_inv b -> op_ok (queue b) op -> used b + is_insert op <= U32_MAX ->
  exists b', run_op b op = Ret b' /\ book_inv b' /\ used b' <= used b + is_insert op /\
    forall sd p, queue b' sd p = abs_op (queue b) op sd p.
Proof.
  intros Hb Hop Hu. destruct op as [o|id|id n|sd p fills]; cbn [run_op abs_op op_ok is_insert] in *.
  - destruct Hop as (Hok & Hr & Hf & Hs). assert (resting b (o_id o) = None) as Hfr.
    { destruct (resting b (o_id o)) as [x|] eqn:Hx; [|done]. apply (resting_queue _ _ _ Hb) in Hx as [Hid Hx].
      by apply Hf in Hx. }
    destruct (insert_spec b o Hb Hok Hr Hfr Hs ltac:(lia)) as (b' & _ & E & Hb' & [H1 H2] & Hu').
    exists b'. split_and!; try done. intros sd p. case_decide as Hd; [by injection Hd as -> ->|]. by apply H2.
  - pose proof (cancel_spec b id Hb) as Hc. destruct (resting b id) as [o|] eqn:Hr.
    + destruct Hc as (b' & E & Hb' & Hed & Hu'). exists b'. rewrite E. split_and!; try done; [lia|].
      intros sd p. rewrite <-q_set_zero. by apply (edited_everywhere b b' id o).
    + exists b. rewrite Hc. split_and!; try done; [lia|]. intros sd p. rewrite <-q_set_zero.
      symmetry. apply q_edit_frame. by apply not_resting_frame.
  - pose proof (reduce_spec b id n Hb Hop) as Hc. destruct (resting b id) as [o|] eqn:Hr.
    + assert (forall sd p x, x ∈ queue b sd p -> o_id x = id -> x = o) as Huq.
      { intros sd p x Hx Hid. destruct (queue_order _ _ _ _ Hb Hx) as (_ & _ & _ & _ & H). congruence. }
      destruct (Z.leb_spec n (o_remaining o)).
      * destruct Hc as (b' & E & Hb' & Hed & Hu'). exists b'. rewrite E. split_and!; try done; [lia|].
        intros sd p. rewrite (edited_everywhere b b' id o _ Hb Hr Hed sd p). apply q_edit_ext.
        intros x Hx Hid. rewrite (Huq _ _ _ Hx Hid). lia.
      * exists b. rewrite Hc. split_and!; try done; [lia|]. intros sd p. symmetry.
        apply q_edit_id; [by apply queue_positive|]. intros x Hx Hid. rewrite (Huq _ _ _ Hx Hid). lia.
    + exists b. rewrite Hc. split_and!; try done; [lia|]. intros sd p. symmetry.
      apply q_edit_frame. by apply not_resting_frame.
  - destruct Hop as [Hne Hv]. destruct (fills_spec b sd p fills Hb Hne Hv) as (b' & E & Hb' & [H1 H2] & Hu').
    exists b'. split_and!; try done; [lia|]. intros sd' p'. case_decide as Hd; [by injection Hd as -> ->|]. by apply H2.
Qed.

Lemma op_ok_ext a a' op : (forall sd p, a sd p = a' sd p) -> op_ok a op -> op_ok a' op.
Proof.
  intros H. destruct op; cbn; try done.
  - intros (H1 & H2 & H3 & H4). rewrite <-H. split_and!; try done. intros sd p x. rewrite <-H. apply H3.
  - by rewrite H.
Qed.

Lemma abs_op_ext a a' op : (forall sd p, a sd p = a' sd p) -> forall sd p, abs_op a op sd p = abs_op a' op sd p.
Proof. intros H sd p. destruct op; cbn; rewrite ?H; done. Qed.

Lemma ops_ok_ext a a' ops : (forall sd p, a sd p = a' sd p) -> ops_ok a ops -> ops_ok a' ops.
Proof.
  revert a a'. induction ops as [|op ops IH]; intros a a' H; [done|]. intros [H1 H2]. split.
  - by eapply op_ok_ext.
  - eapply IH; [|exact H2]. by apply abs_op_ext.
Qed.

Lemma foldl_abs_ext ops a a' : (forall sd p, a sd p = a' sd p) ->
  forall sd p, foldl abs_op a ops sd p = foldl abs_op a' ops sd p.
Proof. revert a a'. induction ops as [|op ops IH]; intros a a' H; [done|]. apply IH. by apply abs_op_ext. Qed.

Lemma run_ops_ok ops b : book_inv b -> ops_ok (queue b) ops -> used b + sumZ is_insert ops <= U32_MAX ->
  exists b', ofold run_op b ops = Ret b' /\ book_inv b' /\
    forall sd p, queue b' sd p = foldl abs_op (queue b) ops sd p.
Proof.
  revert b. induction ops as [|op ops IH]; intros b Hb Hok Hu; [by exists b|].
  destruct Hok as [H1 H2]. rewrite sumZ_cons in Hu.
  assert (0 <= sumZ is_insert ops) by (apply sumZ_nonneg, Forall_forall; intros []; cbn; lia).
  destruct (run_op_ok b op Hb H1 ltac:(lia)) as (b1 & E1 & Hb1 & Hu1 & Hq1).
  destruct (IH b1 Hb1) as (b2 & E2 & Hb2 & Hq2); [|lia|].
  - eapply ops_ok_ext; [|exact H2]. intros. symmetry. apply Hq1.
  - exists b2. cbn [ofold foldl]. rewrite E1. cbn [obind]. split_and!; try done.
    intros sd p. rewrite Hq2. apply foldl_abs_ext. exact Hq1.
Qed.

(** C1: refinement.  Every sequence of insertions, cancellations, in-place
    reductions and fills whose preconditions hold on the abstract book (fresh id
    and room for insertions, fills of orders that rest) runs on the real book
    without a panic, keeps the representation invariant, and leaves exactly the
    abstract queues: slots, tombstones, compaction, the bitmap window and the
    overflow tree are invisible. *)
Theorem book_refines (ops : list BookOp) (Hok : ops_ok (fun _ _ => []) ops)
    (Hroom : sumZ is_insert ops <= U32_MAX) :
  exists b, ofold run_op new ops = Ret b /\ book_inv b /\
    forall sd p, queue b sd p = foldl abs_op (fun _ _ => []) ops sd p.
Proof.
  destruct (run_ops_ok ops new new_inv) as (b & E & Hb & Hq).
  - eapply ops_ok_ext; [|exact Hok]. intros. symmetry. apply queue_new.
  - exact Hroom.
  - exists b. split_and!; try done. intros sd p. rewrite Hq. apply foldl_abs_ext. apply queue_new.
Qed.

(** ** Reading the book *)

Definition level_rows (b : OrderBook) (sd : Side) : list (Price * Qty) :=
  (fun a => (a.1, sumZ o_remaining a.2)) <$> ladder b sd.

Definition depth_rows (b : OrderBook) (sd : Side) : list (Price * Qty * Z) :=
  (fun a => (a.1, sumZ o_remaining a.2, Z.of_nat (length a.2))) <$> ladder b sd.

Lemma depth_walk l rows : Forall (fun e : Price * Level => 0 < qty e.2) l ->
  LevelIndex.walk depth_step (Ret <$> l) rows = Ret (rows ++ ((fun e => (e.1, qty e.2, live e.2)) <$> l)).
Proof.
  intros H. revert rows. induction H as [|[p lv] l H1 H2 IH]; intros rows.
  - cbn. by rewrite app_nil_r.
  - rewrite !fmap_cons. cbn [LevelIndex.walk obind fst snd]. unfold depth_step at 1. cbn [obind fst snd].
    cbn [snd] in H1. case_if; [|lia]. by rewrite IH, <-app_assoc.
Qed.

Lemma top_walk n l rows : Forall (fun e : Price * Level => 0 < qty e.2) l -> (length rows < Nat.max 1 n)%nat ->
  LevelIndex.walk (top_step n) (Ret <$> l) rows =
  Ret (rows ++ take (Nat.max 1 n - length rows) ((fun e => (e.1, qty e.2)) <$> l)).
Proof.
  intros H. revert rows. induction H as [|[p lv] l H1 H2 IH]; intros rows Hr.
  - cbn. by rewrite take_nil, app_nil_r.
  - rewrite !fmap_cons. cbn [LevelIndex.walk obind fst snd]. unfold top_step at 1. cbn [obind fst snd].
    cbn [snd] in H1. destruct (Z.ltb_spec 0 (qty lv)); [|lia].
    destruct (Nat.max 1 n - length rows)%nat as [|k] eqn:Hk; [lia|]. cbn [take].
    destruct (Nat.ltb_spec (length (rows ++ [(p, qty lv)])) n) as [Hlt|Hge]; rewrite length_app in *; cbn [length] in *.
    + rewrite IH by (rewrite length_app; cbn; lia). rewrite length_app, <-app_assoc. cbn [length app].
      do 4 f_equal. lia.
    + replace k with 0%nat by lia. by rewrite take_0.
Qed.

(** The levels of a side in the order of a walk. *)
Definition walked (b : OrderBook) (sd : Side) : list (Price * Level) :=
  match sd with Buy => reverse (stored b sd) | Sell => stored b sd end.

Lemma walked_pos b m sd : book_ok None b m -> Forall (fun e : Price * Level => 0 < qty e.2) (walked b sd).
Proof. intros Hbk. eapply Forall_impl; [apply (stored_qty b m Hbk)|]. intros e He. naive_solver lia. Qed.

Lemma walked_rows b sd {A : Type} (f : Price * Level -> A) (g : Price * list Order -> A) :
  (forall e, e ∈ walked b sd -> f e = g (e.1, live_orders (slots (pool b)) (orders e.2))) -> f <$> walked b sd = g <$> ladder b sd.
Proof.
  intros Hfg. rewrite (ladder_stored b sd), <-list_fmap_compose. apply list_fmap_ext.
  intros i e Hi. apply Hfg. by eapply list_elem_of_lookup_2.
Qed.

Lemma top_levels_rows b sd n : book_inv b -> top_levels b sd n = Ret (take (Nat.max 1 n) (level_rows b sd)).
Proof.
  intros [m Hbk]. pose proof (stored_qty b m Hbk sd) as Hst. rewrite Forall_forall in Hst.
  transitivity (LevelIndex.walk (top_step n) (Ret <$> walked b sd) []).
  - unfold walked. rewrite <-(walk_ladder b m Hbk). by destruct sd.
  - rewrite top_walk by (by apply (walked_pos b m) || (cbn; lia)). cbn [app length]. rewrite Nat.sub_0_r. do 2 f_equal.
    unfold level_rows. apply walked_rows. intros e He. by destruct (Hst e He) as (-> & _).
Qed.

(** A book with an order has a level. *)
Lemma nonempty_rows b : book_inv b -> is_empty b = false -> level_rows b Buy ++ level_rows b Sell <> [].
Proof.
  intros Hb He. pose proof Hb as [m Hbk]. unfold is_empty in He. apply bool_decide_eq_false in He.
  destruct (map_choose _ He) as (id & s & Hs).
  apply (bk_locate _ _ _ Hbk) in Hs as (o & lv & Ho & _ & Hrem & Hm & Hin).
  assert (Hq : queue b (o_side o) (o_price o) <> []).
  { rewrite (queue_map _ _ _ _ _ Hbk), Hm. intros E. assert (o ∈ live_orders (slots (pool b)) (orders lv)) as Hx; [|rewrite E in Hx; by apply elem_of_nil in Hx].
    apply live_orders_elem. by exists s. }
  assert (Hl : (o_price o, queue b (o_side o) (o_price o)) ∈ ladder b (o_side o)) by (by apply ladder_queue).
  intros E. apply app_eq_nil in E as [E1 E2]. unfold level_rows in *. apply fmap_nil_inv in E1, E2.
  destruct (o_side o); [rewrite E1 in Hl|rewrite E2 in Hl]; by apply elem_of_nil in Hl.
Qed.

(** the reads report the abstract book: [best] is the best price with a live
    order (none if the side is empty), [level_view] is the queue, [depth] lists
    the levels best price first with their total quantity and order count,
    [top_levels] the first [n] of them (one row when [n] is 0), [cost_to_fill]
    the quantity and cost of walking the levels, and [crossable_qty] the quantity
    within a limit; none of them panics on a book whose side totals fit [u64]. *)
Theorem book_reads (b : OrderBook) (sd : Side) (limit : Price) (q : Qty) (n : nat)
    (Hb : book_inv b) (Hq : is_u64 q) (Hside : side_total b (opposite sd) <= U64_MAX) :
  best b sd = Ret (fst <$> head (ladder b sd)) /\
  (forall p l, (p, l) ∈ ladder b sd <-> l = queue b sd p /\ l <> []) /\
  StronglySorted (fun x y => better sd x.1 y.1) (ladder b sd) /\
  (forall p, level_view b sd p = Ret (to_resting <$> queue b sd p)) /\
  depth b sd = Ret (depth_rows b sd) /\
  top_levels b sd n = Ret (take (Nat.max 1 n) (level_rows b sd)) /\
  cost_to_fill b sd q = Ret (q - (ladder_cost q (ladder b (opposite sd))).1,
                             (ladder_cost q (ladder b (opposite sd))).2) /\
  crossable_qty b sd limit =
    Ret (depth_sum (sumZ o_remaining) (reaches sd limit) b (opposite sd)).
Proof.
  pose proof Hb as [m Hbk].
  pose proof (walked_pos b m sd Hbk) as Hpos.
  pose proof (stored_qty b m Hbk sd) as Hst. rewrite Forall_forall in Hst.
  split_and!.
  - apply (ladder_best b sd Hb).
  - intros p l. by apply ladder_queue.
  - by apply (ladder_sorted b m).
  - intros p. by apply (level_view_ok b m).
  - transitivity (LevelIndex.walk depth_step (Ret <$> walked b sd) []).
    + unfold walked. rewrite <-(walk_ladder b m Hbk). by destruct sd.
    + rewrite depth_walk by done. cbn [app]. f_equal. unfold depth_rows. apply walked_rows. intros e He.
      destruct (Hst e He) as (-> & -> & _). done.
  - by apply top_levels_rows.
  - by apply (cost_ok b m).
  - apply (crossable_ok b m Hbk).
    pose proof (reachable_le b (Order.limit 0 sd limit 0) Hb) as Hle. unfold reachable_qty in Hle. cbn in Hle.
    etrans; [exact Hle|exact Hside].
Qed.

(** ** Snapshots *)

Lemma ladder_asc_perm b sd : ladder_asc b sd ≡ₚ ladder b sd.
Proof. unfold ladder. destruct sd; [symmetry; apply reverse_Permutation|done]. Qed.

Lemma side_orders_elem b sd o : book_inv b -> o ∈ side_orders b sd <-> o ∈ queue b sd (o_price o).
Proof.
  intros Hb. rewrite <-(ladder_order _ _ _ Hb). unfold side_orders. rewrite !list_elem_of_bind.
  split; intros (a & H1 & H2); exists a; (split; [done|]); first [by rewrite <-ladder_asc_perm | by rewrite ladder_asc_perm].
Qed.

Lemma side_orders_ids b sd : book_inv b -> NoDup (o_id <$> side_orders b sd).
Proof. intros Hb. unfold side_orders. rewrite ladder_asc_perm. by apply ladder_ids. Qed.

(** Filtering the orders of a side by level gives the queue back. *)
Lemma level_filter b sd p l : book_inv b -> NoDup (fst <$> l) ->
  (forall p' q', (p', q') ∈ l -> q' = queue b sd p') ->
  filter (at_level sd p) (l ≫= snd) = if decide (p ∈ fst <$> l) then queue b sd p else [].
Proof.
  intros Hb. induction l as [|[p' q'] l IH]; intros Hnd Hq.
  - case_decide as H; [by apply elem_of_nil in H|done].
  - rewrite fmap_cons in *. apply NoDup_cons in Hnd as [Hni Hnd]. rewrite bind_cons, filter_app. cbn [fst snd] in *.
    rewrite IH by first [done | intros; apply Hq; by apply list_elem_of_further]. assert (q' = queue b sd p') as -> by (apply Hq; set_solver).
    assert (filter (at_level sd p) (queue b sd p') = if decide (p = p') then queue b sd p' else []) as ->.
    { assert (forall o, o ∈ queue b sd p' -> at_level sd p o <-> p = p') as Hx.
      { intros o Ho. destruct (queue_order _ _ _ _ Hb Ho) as (H1 & H2 & _). unfold at_level. naive_solver. }
      clear - Hx. revert Hx. induction (queue b sd p') as [|o q IHq]; intros Hx; [by destruct (decide (p = p'))|].
      rewrite filter_cons, IHq by (intros x Hin; apply Hx; by right).
      specialize (Hx o (list_elem_of_here _ _)). destruct (decide (p = p')), (decide (at_level sd p o)); tauto || done. }
    clear IH. repeat case_decide; subst; rewrite ?app_nil_r; try done; set_solver.
Qed.

Lemma side_filter b sd p sd' : book_inv b ->
  filter (at_level sd p) (side_orders b sd') = if decide (sd' = sd) then queue b sd p else [].
Proof.
  intros Hb. case_decide as Hs.
  - subst sd'. assert (forall p' q', (p', q') ∈ ladder_asc b sd <-> q' = queue b sd p' /\ q' <> []) as Hin.
    { intros p' q'. rewrite ladder_asc_perm. by apply ladder_queue. }
    assert (NoDup (fst <$> ladder_asc b sd)) as Hnd.
    { rewrite ladder_asc_perm. destruct Hb as [m Hbk]. by apply (ladder_nodup b m). }
    unfold side_orders. rewrite (level_filter b sd p) by (try done; intros; by apply Hin).
    case_decide as Hp; [done|]. destruct (decide (queue b sd p = [])) as [|Hne]; [done|].
    exfalso. apply Hp. rewrite ladder_asc_perm. by apply ladder_prices.
  - assert (forall o, o ∈ side_orders b sd' -> ~ at_level sd p o) as Hx.
    { intros o Ho [H1 _]. apply (side_orders_elem _ _ _ Hb) in Ho.
      destruct (queue_order _ _ _ _ Hb Ho) as (H2 & _). congruence. }
    induction (side_orders b sd') as [|o l IH]; [done|]. rewrite filter_cons, decide_False by (apply Hx; set_solver).
    apply IH. set_solver.
Qed.

Lemma all_orders b : book_inv b ->
  NoDup (o_id <$> side_orders b Buy ++ side_orders b Sell) /\
  Z.of_nat (length (side_orders b Buy ++ side_orders b Sell)) <= used b.
Proof.
  intros Hb.
  assert (forall o, o ∈ side_orders b Buy ++ side_orders b Sell -> resting b (o_id o) = Some o) as Hr.
  { intros o [H|H]%elem_of_app; apply (side_orders_elem _ _ _ Hb) in H; by apply (queue_order _ _ _ _ Hb H). }
  assert (NoDup (o_id <$> side_orders b Buy ++ side_orders b Sell)) as Hnd.
  { rewrite fmap_app. apply NoDup_app. split_and!; [by apply side_orders_ids | | by apply side_orders_ids].
    intros id (o & -> & Ho)%list_elem_of_fmap (o' & Hid & Ho')%list_elem_of_fmap.
    assert (o = o') as <-.
    { assert (Some o = Some o'); [|congruence]. rewrite <-(Hr o), <-(Hr o'), Hid by (rewrite elem_of_app; auto). done. }
    apply (side_orders_elem _ _ _ Hb) in Ho, Ho'. destruct (queue_order _ _ _ _ Hb Ho) as (H1 & _).
    destruct (queue_order _ _ _ _ Hb Ho') as (H2 & _). congruence. }
  split; [done|]. unfold used. apply inj_le. pose proof Hb as [m Hbk].
  transitivity (size (locate b)); [|by eapply locate_size].
  rewrite <-(length_fmap o_id), <-(length_map_to_list (locate b)), <-(length_fmap fst).
  apply submseteq_length, NoDup_submseteq; [done|]. intros id (o & -> & Ho)%list_elem_of_fmap.
  specialize (Hr o Ho). unfold resting in Hr. destruct (locate b !! o_id o) as [s|] eqn:Hl; [|done].
  apply list_elem_of_fmap. exists (o_id o, s). split; [done|]. by apply elem_of_map_to_list.
Qed.

(** Re-inserting [snapshot_orders] into an empty book reproduces every queue
    in the same order. *)
Theorem snapshot_rebuilds (b : OrderBook) (Hb : book_inv b) :
  exists os b', snapshot_orders b = Ret os /\ ofold insert new os = Ret b' /\ book_inv b' /\
    forall sd p, queue b' sd p = queue b sd p.
Proof.
  pose proof Hb as [m Hbk]. destruct (all_orders b Hb) as [Hnd Hlen].
  assert (forall sd p, filter (at_level sd p) (side_orders b Buy ++ side_orders b Sell) = queue b sd p) as Hf.
  { intros sd p. rewrite filter_app, !side_filter by done. destruct sd; cbn; by rewrite ?app_nil_r. }
  destruct (insert_all (side_orders b Buy ++ side_orders b Sell) new new_inv) as (b' & E & Hb' & Hq & _).
  - apply Forall_forall. intros o [Ho|Ho]%elem_of_app; apply (side_orders_elem _ _ _ Hb) in Ho;
      by destruct (queue_order _ _ _ _ Hb Ho) as (_ & _ & ? & ? & _).
  - done.
  - done.
  - intros sd p. rewrite Hf, queue_new. apply (queue_total b sd p Hb).
  - change (used new) with 0. pose proof (queue_total b Buy 0 Hb). lia.
  - exists (side_orders b Buy ++ side_orders b Sell), b'. split; [by apply (snapshot_ok b m)|].
    split_and!; try done. intros sd p. by rewrite Hq, Hf, queue_new.
Qed.

(** ** Per-user counters *)

(** the per-user counter of open orders is the number of that user's resting
    orders: it equals the number of ids [orders_of_user] returns, in any
    iteration order of the id index. *)
Theorem user_counter_exact (b : OrderBook) (entries : list (Z * nat)) (user : UserId)
    (Hb : book_inv b) (Horder : hash_order b entries) (Huser : user <> 0) :
  exists ids, orders_of_user entries b user = Ret ids /\
    user_open_orders b user = Z.of_nat (length ids) /\
    forall id, id ∈ ids <-> exists o, resting b id = Some o /\ o_user o = user.
Proof.
  destruct (orders_of_user_ok b entries user Hb Horder) as (ids & E & Hnd & Hin).
  exists ids. split; [done|]. split; [|done]. destruct Hb as [m Hbk].
  unfold user_open_orders. rewrite (bk_users _ _ _ Hbk user Huser).
  assert (owned (slots (pool b)) (locate b) user = Z.of_nat (length ids)) as ->.
  { unfold owned. f_equal. rewrite <-length_map_to_list, <-(length_fmap fst).
    apply Permutation_length, NoDup_Permutation; [apply NoDup_fst_map_to_list | done |].
    intros id. rewrite Hin, list_elem_of_fmap. split.
    - intros ([i s] & -> & Hx). apply elem_of_map_to_list, map_lookup_filter_Some in Hx as [Hl Hu]. cbn in Hu |- *.
      destruct (locate_queue _ _ _ _ _ Hbk Hl) as (o & lv & Ho & _). exists o. unfold resting. rewrite Hl. cbn.
      split; [done|]. unfold slot_user in Hu. by rewrite Ho in Hu.
    - intros (o & Hr & Hu). unfold resting in Hr. destruct (locate b !! id) as [s|] eqn:Hl; [|done]. cbn in Hr.
      exists (id, s). split; [done|]. apply elem_of_map_to_list, map_lookup_filter_Some. split; [done|].
      cbn. unfold slot_user. by rewrite Hr. }
  case_if; cbn; lia.
Qed.

(** ** Witnesses: a concrete book *)

Definition resting_order (id user : Z) (sd : Side) (price qty ts : Z) : Order :=
  Order.set_timestamp (Order.by_user (Order.limit id sd price qty) user) ts.

Definition example_orders : list Order :=
  [resting_order 1 1 Sell 100 5 1; resting_order 2 2 Sell 100 3 2;
   resting_order 3 1 Sell 101 4 3; resting_order 4 3 Buy 99 2 4].

Definition example_book : OrderBook :=
  match ofold OrderBook.insert OrderBook.new example_orders with
  | Ret b => b
  | Panic _ => OrderBook.new
  end.

Lemma example_book_ok : book_inv example_book /\
  forall sd p, queue example_book sd p = filter (at_level sd p) example_orders.
Proof.
  destruct (insert_all example_orders OrderBook.new new_inv) as (b & E & Hb & Hq & _).
  - repeat constructor; vm_compute; done.
  - apply (bool_decide_unpack (NoDup (o_id <$> example_orders))). vm_compute. done.
  - intros o _. done.
  - intros sd p. rewrite queue_new. cbn [app]. transitivity (sumZ o_remaining example_orders); [|vm_compute; done].
    apply sumZ_filter_le. repeat constructor; vm_compute; done.
  - vm_compute. done.
  - unfold example_book. rewrite E. split; [done|]. intros sd p. by rewrite Hq, queue_new.
Qed.

Lemma example_queue sd p o : o ∈ queue example_book sd p -> o ∈ example_orders /\ o_side o = sd /\ o_price o = p.
Proof.
  destruct example_book_ok as [_ Hq]. rewrite Hq. intros [[H1 H2] H3]%list_elem_of_filter. done.
Qed.

Lemma example_queue_ne sd p : queue example_book sd p <> [] ->
  exists o, o ∈ example_orders /\ o_side o = sd /\ o_price o = p.
Proof.
  destruct example_book_ok as [_ Hq]. rewrite Hq. intros Hne.
  destruct (filter (at_level sd p) example_orders) as [|o l] eqn:E; [done|].
  assert (o ∈ filter (at_level sd p) example_orders) as Hin by (rewrite E; left).
  apply list_elem_of_filter in Hin as [[H1 H2] H3]. eauto.
Qed.

Ltac example_cases H :=
  unfold example_orders in H; rewrite !elem_of_cons in H;
  destruct H as [->|[->|[->|[->|H]]]]; [..|exfalso; by apply not_elem_of_nil in H].


Lemma example_entries : hash_order example_book (map_to_list (locate example_book)).
Proof. unfold hash_order. apply Permutation_refl. Qed.

Definition example_ops : list BookOp :=
  [OpInsert (resting_order 1 1 Sell 100 5 1); OpInsert (resting_order 2 2 Sell 100 3 2);
   OpReduce 1 2; OpFills Sell 100 [(1, 1)]; OpCancel 2].

Lemma example_ops_ok : ops_ok (fun _ _ => []) example_ops.
Proof.
  cbn [ops_ok example_ops]. split_and!; cbn [op_ok]; try done.
  - split_and!; try (vm_compute; done). intros sd p x H. by apply elem_of_nil in H.
  - split_and!; try (vm_compute; done). intros sd p x. cbn [abs_op]. case_decide; [|by intros ?%elem_of_nil].
    intros ->%list_elem_of_singleton. done.
  - split; [done|]. split; [|done]. exists (Order.set_remaining (resting_order 1 1 Sell 100 5 1) 2).
    split; [left | by vm_compute].
Qed.

Lemma book_refines_witness :
  exists b, ofold run_op new example_ops = Ret b /\
    queue b Sell 100 = [Order.set_remaining (resting_order 1 1 Sell 100 5 1) 1].
Proof.
  destruct (book_refines example_ops example_ops_ok) as (b & E & _ & H).
  - vm_compute. discriminate.
  - exists b. split; [exact E|]. rewrite H. reflexivity.
Defined.

Lemma book_reads_witness : best example_book Sell = Ret (Some 100) /\ depth example_book Sell = Ret [(100, 8, 2); (101, 4, 1)].
Proof.
  destruct (book_reads example_book Sell 100 3 1 (proj1 example_book_ok)) as (H1 & _ & _ & _ & H2 & _).
  - unfold is_u64. vm_compute. split; congruence.
  - vm_compute. discriminate.
  - split; [rewrite H1; vm_compute; reflexivity | rewrite H2; vm_compute; reflexivity].
Defined.

Lemma snapshot_rebuilds_witness :
  exists os b', snapshot_orders example_book = Ret os /\ ofold insert new os = Ret b' /\ book_inv b' /\
    forall sd p, queue b' sd p = queue example_book sd p.
Proof. exact (snapshot_rebuilds example_book (proj1 example_book_ok)). Defined.

Lemma user_counter_exact_witness :
  exists ids, orders_of_user (map_to_list (locate example_book)) example_book 1 = Ret ids /\
    user_open_orders example_book 1 = Z.of_nat (length ids).
Proof.
  destruct (user_counter_exact example_book (map_to_list (locate example_book)) 1 (proj1 example_book_ok)
    example_entries ltac:(discriminate)) as (ids & H1 & H2 & _).
  exists ids. split; [exact H1 | exact H2].
Defined.
