(* ===== verification/EngineInv.v ===== *)
(** * The capacity invariant of an engine

    What a matching engine ([src/src/engine.rs]) needs to keep running: a sound
    book, and bounds on its sequence counter, its pool and its resting quantity
    that every operation respects.  The command processor relies on it. *)

From S2P Require Import Prelude Types Strategy LevelIndex Book Engine BookProps.
Import BookFacts EngineFacts MatchingEngine.

(** ** Total resting quantity *)

(** Every order of [b'] is an order of [b], or one of [extra], with at most its
    quantity. *)
Definition origin (b b' : OrderBook) (extra : list Order) : Prop :=
  forall sd p o, o ∈ queue b' sd p ->
    exists o0, (o0 ∈ queue b sd p \/ o0 ∈ extra) /\
      o = Order.set_remaining o0 (o_remaining o) /\ o_remaining o <= o_remaining o0.

Definition open_total (b : OrderBook) : Z := side_total b Buy + side_total b Sell.

Lemma sum_dominated (l l0 : list Order) :
  NoDup (o_id <$> l) -> Forall (fun o => 0 <= o_remaining o) l0 ->
  (forall o, o ∈ l -> exists o0, o0 ∈ l0 /\ o_id o0 = o_id o /\ o_remaining o <= o_remaining o0) ->
  sumZ o_remaining l <= sumZ o_remaining l0.
Proof.
  revert l0. induction l as [|o l IH]; intros l0 Hnd Hf H.
  - rewrite sumZ_nil. by apply sumZ_nonneg.
  - rewrite fmap_cons in Hnd. apply NoDup_cons in Hnd as [Hni Hnd].
    destruct (H o) as (o0 & (l1 & l2 & ->)%list_elem_of_split & Hid & Hle); [left|].
    apply Forall_app in Hf as [Hf1 Hf2]. apply Forall_cons in Hf2 as [Hf0 Hf2].
    specialize (IH (l1 ++ l2) Hnd ltac:(apply Forall_app; done)).
    rewrite sumZ_app in IH. rewrite sumZ_app, !sumZ_cons.
    cut (sumZ o_remaining l <= sumZ o_remaining l1 + sumZ o_remaining l2); [lia|]. apply IH. intros o' Ho'. destruct (H o') as (x & Hx & Hid' & Hle'); [by right|].
    exists x. split_and!; try done. apply elem_of_app in Hx as [Hx|[->|Hx]%elem_of_cons]; apply elem_of_app; auto.
    exfalso. apply Hni. rewrite <-Hid, Hid'. by apply list_elem_of_fmap_2.
Qed.

Lemma sumZ_bind {A} (f : A -> list Order) (l : list A) :
  sumZ o_remaining (l ≫= f) = sumZ (fun a => sumZ o_remaining (f a)) l.
Proof. induction l as [|a l IH]; [done|]. rewrite bind_cons, sumZ_app, sumZ_cons, IH. done. Qed.

Lemma side_total_orders b sd : side_total b sd = sumZ o_remaining (side_orders b sd).
Proof.
  unfold side_total, depth_sum, side_orders. rewrite sumZ_bind. apply sumZ_perm. symmetry. apply ladder_asc_perm.
Qed.

Lemma open_total_orders b : open_total b = sumZ o_remaining (side_orders b Buy ++ side_orders b Sell).
Proof. unfold open_total. by rewrite !side_total_orders, sumZ_app. Qed.

Lemma side_orders_pos b sd : book_inv b -> Forall (fun o => 0 <= o_remaining o) (side_orders b sd).
Proof.
  intros Hb. apply Forall_forall. intros o Ho. apply (side_orders_elem _ _ _ Hb) in Ho.
  destruct (queue_order _ _ _ _ Hb Ho) as (_ & _ & _ & H & _). lia.
Qed.

Lemma side_total_nonneg b sd : book_inv b -> 0 <= side_total b sd.
Proof. intros Hb. rewrite side_total_orders. by apply sumZ_nonneg, side_orders_pos. Qed.

Lemma level_le_side b sd p : book_inv b -> sumZ o_remaining (queue b sd p) <= side_total b sd.
Proof.
  intros Hb. rewrite side_total_orders. apply sum_dominated; [by apply queue_nodup | by apply side_orders_pos |].
  intros o Ho. exists o. split_and!; try done. apply (side_orders_elem _ _ _ Hb).
  destruct (queue_order _ _ _ _ Hb Ho) as (_ & -> & _). done.
Qed.

Lemma open_total_origin b b' extra : book_inv b -> book_inv b' -> origin b b' extra ->
  Forall (fun o => 0 <= o_remaining o) extra -> open_total b' <= open_total b + sumZ o_remaining extra.
Proof.
  intros Hb Hb' Ho Hx. rewrite !open_total_orders, <-sumZ_app. apply sum_dominated.
  - by apply all_orders.
  - apply Forall_app. split; [|done]. apply Forall_app. split; by apply side_orders_pos.
  - assert (forall sd o, o ∈ side_orders b' sd ->
      exists o0, (o0 ∈ side_orders b sd \/ o0 ∈ extra) /\ o_id o0 = o_id o /\ o_remaining o <= o_remaining o0) as Hs.
    { intros sd o H. apply (side_orders_elem _ _ _ Hb') in H as H'. destruct (Ho _ _ _ H') as (o0 & Hin & Heq & Hle).
      exists o0. split; [|split; [by rewrite Heq|done]]. destruct Hin as [Hin|Hin]; [left|by right].
      apply (side_orders_elem _ _ _ Hb). destruct (queue_order _ _ _ _ Hb Hin) as (_ & -> & _). done. }
    intros o [H|H]%elem_of_app; apply Hs in H as (o0 & H & ?); exists o0; rewrite !elem_of_app; naive_solver.
Qed.

Lemma origin_refl b extra : origin b b extra.
Proof. intros sd p o Ho. exists o. split_and!; [by left | by destruct o | done]. Qed.

Lemma origin_filter b b' (P : Order -> Prop) `{!forall o, Decision (P o)} extra :
  (forall sd p, queue b' sd p = filter P (queue b sd p)) -> origin b b' extra.
Proof.
  intros Hq sd p o. rewrite Hq. intros [_ Ho]%list_elem_of_filter. by apply origin_refl.
Qed.

Lemma origin_trans b1 b2 b3 extra : origin b1 b2 [] -> origin b2 b3 extra -> origin b1 b3 extra.
Proof.
  intros H1 H2 sd p o Ho. destruct (H2 _ _ _ Ho) as (o2 & [Hin|Hin] & -> & Hle); [|by exists o2; eauto].
  destruct (H1 _ _ _ Hin) as (o1 & [Hin1|Hin1] & -> & Hle1); [|set_solver].
  exists o1. split_and!; [by left | done | cbn in *; lia].
Qed.

(** ** The invariant *)

(** At most [n] commands, at most [q] lots resting, all orders from [ids]. *)
Record engine_ok (n q : Z) (ids : gset Z) (e : MatchingEngine) : Prop := {
  eo_strategy : AllocContract (strategy e);
  eo_book : book_inv (book e);
  eo_seq : 0 <= seq e <= n;
  eo_used : used (book e) <= n;
  eo_total : open_total (book e) <= q;
  eo_ids : forall sd p o, o ∈ queue (book e) sd p -> o_id o ∈ ids
}.

Lemma engine_ok_mono n q ids n' q' ids' e :
  engine_ok n q ids e -> n <= n' -> q <= q' -> ids ⊆ ids' -> engine_ok n' q' ids' e.
Proof. intros [H1 H2 H3 H4 H5 H6] Hn Hq Hi. split; try done; try lia. eauto. Qed.

Lemma engine_ok_new s p : AllocContract s -> engine_ok 0 0 ∅ (with_stp (new s) p).
Proof.
  intros Hs. split; try done; [apply new_inv|].
  intros sd pr o. cbn [book with_stp new]. rewrite queue_new. by intros ?%elem_of_nil.
Qed.

Lemma engine_ok_origin n q ids e e' extra :
  engine_ok n q ids e -> strategy e' = strategy e -> book_inv (book e') -> 0 <= seq e' <= n ->
  used (book e') <= n -> origin (book e) (book e') extra -> Forall (fun o => 0 <= o_remaining o) extra ->
  engine_ok n (q + sumZ o_remaining extra) (ids ∪ list_to_set (o_id <$> extra)) e'.
Proof.
  intros [H1 H2 H3 H4 H5 H6] Hs Hb Hsq Hu Ho Hx. split; try done; [by rewrite Hs | |].
  - pose proof (open_total_origin _ _ _ H2 Hb Ho Hx). lia.
  - intros sd p o Hin. destruct (Ho _ _ _ Hin) as (o0 & [Hin0|Hin0] & -> & _); cbn.
    + apply elem_of_union_l. eauto.
    + apply elem_of_union_r, elem_of_list_to_set. by apply list_elem_of_fmap_2.
Qed.

Lemma engine_fresh n q ids e id : engine_ok n q ids e -> id ∉ ids -> resting (book e) id = None.
Proof.
  intros He Hid. destruct (resting (book e) id) as [o|] eqn:Ho; [|done].
  apply (resting_queue _ _ _ (eo_book _ _ _ _ He)) in Ho as [<- Ho]. by destruct Hid; apply (eo_ids _ _ _ _ He) in Ho.
Qed.

(** ** Submitting *)
Lemma submit_room n q ids e order :
  engine_ok n q ids e -> order_ok order -> resting (book e) (o_id order) = None ->
  n < U32_MAX -> q + o_quantity order <= U64_MAX -> submit_pre e order.
Proof.
  intros [H1 H2 H3 H4 H5 H6] Hok Hf Hn Hq.
  pose proof (side_total_nonneg (book e) Buy H2). pose proof (side_total_nonneg (book e) Sell H2).
  pose proof (level_le_side (book e) (o_side order) (o_price order) H2). unfold open_total in H5.
  destruct Hok as (? & ? & ? & ? & Hqty & ? & ?). unfold is_u64 in Hqty.
  split; try done; [unfold_width; lia | | | lia]; destruct (o_side order); cbn [opposite] in *; lia.
Qed.

Lemma submit_origin e e' order trades ts res :
  book_inv (book e) -> order_ok order -> submit_post e e' order trades ts res ->
  exists extra, origin (book e) (book e') extra /\ sumZ o_remaining extra <= o_quantity order /\
    Forall (fun x => o_id x = o_id order /\ o_user x = o_user order /\ 0 <= o_remaining x) extra.
Proof.
  intros Hb Hok (_ & _ & _ & Hb' & _ & [(_ & _ & -> & _)|(o & bud & v & v' & st & Hc)]).
  - exists []. split_and!; [apply origin_refl | destruct Hok as (_ & _ & _ & _ & H & _); apply H | constructor].
  - pose proof (sc_run _ _ _ _ _ _ _ _ _ _ _ Hc) as Hr. pose proof (run_rem _ _ _ _ _ Hr) as H0.
    pose proof (run_qty _ _ _ _ _ Hr) as H1. cbn [start_view v_rem] in H1.
    assert (0 <= sumZ t_quantity ts) as H2.
    { apply sumZ_nonneg. eapply Forall_impl; [apply (run_ok _ _ _ _ _ Hr)|]. unfold trade_ok. naive_solver lia. }
    destruct (sc_same _ _ _ _ _ _ _ _ _ _ _ Hc) as (S1 & _ & S3 & S4 & _). cbn in S1, S3, S4.
    exists [Order.set_remaining o (v_rem v')]. split_and!.
    + intros sd p x Hx. destruct (side_cases (o_side order) sd) as [-> | ->].
      * rewrite (sc_own _ _ _ _ _ _ _ _ _ _ _ Hc) in Hx. apply elem_of_app in Hx as [Hx|Hx].
        { by apply origin_refl. }
        revert Hx. case_if; [|by intros ?%elem_of_nil]. intros ->%list_elem_of_singleton.
        eexists. split_and!; [right; left | done | done].
      * assert ((p, queue (book e') (opposite (o_side order)) p) ∈ v_ladder v') as Hin.
        { apply (sc_makers _ _ _ _ _ _ _ _ _ _ _ Hc). split; [done|]. by intros E; rewrite E in Hx; apply elem_of_nil in Hx. }
        destruct (run_from _ _ _ _ _ Hr _ _ _ Hin Hx) as (q0 & o0 & Hq0 & Ho0 & Heq & Hle).
        cbn [start_view v_ladder] in Hq0. apply (ladder_queue _ _ _ _ Hb) in Hq0 as [-> _]. eauto 6.
    + rewrite sumZ_cons, sumZ_nil. cbn. lia.
    + repeat constructor; done.
Qed.

Lemma submit_keeps n q ids e order trades :
  engine_ok n q ids e -> order_ok order -> resting (book e) (o_id order) = None ->
  n < U32_MAX -> q + o_quantity order <= U64_MAX ->
  exists e' ts res, submit_into e order trades = Ret (e', trades ++ ts, res) /\
    submit_post e e' order trades ts res /\
    engine_ok (n + 1) (q + o_quantity order) ({[o_id order]} ∪ ids) e'.
Proof.
  intros He Hok Hf Hn Hq.
  destruct (submit_into_ok e order trades (submit_room _ _ _ _ _ He Hok Hf Hn Hq)) as (e' & ts & res & E & Hp).
  exists e', ts, res. split_and!; try done.
  destruct (submit_origin _ _ _ _ _ _ (eo_book _ _ _ _ He) Hok Hp) as (extra & Ho & Hs & Hx).
  destruct Hp as (Hst & _ & Hsq & Hb' & Hu & _). pose proof (eo_seq _ _ _ _ He). pose proof (eo_used _ _ _ _ He).
  eapply engine_ok_mono; [eapply (engine_ok_origin (n + 1) q ids e e' extra) | | |]; try done; try lia.
  - by eapply engine_ok_mono; [exact He|lia..|].
  - eapply Forall_impl; [exact Hx|]. naive_solver.
  - intros id [Hi|Hi]%elem_of_union; [set_solver|]. apply elem_of_list_to_set, list_elem_of_fmap in Hi as (x & -> & Hin).
    rewrite Forall_forall in Hx. destruct (Hx x Hin) as (-> & _). set_solver.
Qed.

(** ** Cancelling and amending *)
Lemma with_book_keeps n q ids e b' : engine_ok n q ids e -> book_inv b' -> used b' = used (book e) ->
  origin (book e) b' [] -> engine_ok n q ids (with_book e b').
Proof.
  intros He Hb' Hu Ho.
  eapply engine_ok_mono; [eapply (engine_ok_origin n q ids e (with_book e b') []) | | |]; try done;
    [apply He | cbn; rewrite Hu; apply He | rewrite sumZ_nil; lia | cbn; set_solver].
Qed.

Lemma cancel_keeps n q ids e id : engine_ok n q ids e ->
  exists e', cancel e id = Ret (e', bool_decide (is_Some (resting (book e) id))) /\ engine_ok n q ids e' /\
    stp e' = stp e /\ origin (book e) (book e') [].
Proof.
  intros He. pose proof (eo_book _ _ _ _ He) as Hb. unfold cancel.
  destruct (resting (book e) id) as [o|] eqn:Ho.
  - destruct (cancel_queues (book e) id o Hb Ho) as (b' & E & Hb' & Hu & Hq). rewrite E. cbn [obind fst snd].
    assert (origin (book e) b' []) as Hor by (by eapply origin_filter).
    exists (with_book e b'). split_and!; try done. by apply with_book_keeps.
  - pose proof (cancel_spec (book e) id Hb) as Hc. rewrite Ho in Hc. rewrite Hc. cbn [obind fst snd].
    exists (with_book e (book e)). split_and!; try done; [|apply origin_refl].
    apply with_book_keeps; try done. apply origin_refl.
Qed.

Lemma cancel_all_ok e entries user : book_inv (book e) -> hash_order (book e) entries ->
  exists b' ids, cancel_all_for_user entries e user = Ret (with_book e b', ids) /\ book_inv b' /\
    used b' = used (book e) /\ NoDup ids /\
    (forall id, id ∈ ids <-> exists o, resting (book e) id = Some o /\ o_user o = user) /\
    forall sd p, queue b' sd p = filter (fun o => o_user o <> user) (queue (book e) sd p).
Proof.
  intros Hb Hh. destruct (orders_of_user_ok (book e) entries user Hb Hh) as (ids & E & Hnd & Hin).
  destruct (cancel_ids_ok ids (book e) Hb Hnd) as (b' & E' & Hb' & Hu & Hq).
  { intros id Hid. apply Hin in Hid as (o & -> & _). eauto. }
  unfold cancel_all_for_user. rewrite E. cbn [obind]. rewrite E'. cbn [obind].
  exists b', ids. split_and!; try done. intros sd p. rewrite Hq. unfold q_drop.
  apply filter_ext_in. intros o Ho. destruct (queue_order _ _ _ _ Hb Ho) as (_ & _ & _ & _ & Hr).
  rewrite Hin. naive_solver.
Qed.

Lemma modify_ok e id new_price new_qty : book_inv (book e) -> is_u64 new_qty ->
  match resting (book e) id with
  | None => modify e id new_price new_qty = Ret (e, MNotFound)
  | Some o =>
      if (new_price =? o_price o) && (new_qty <=? o_remaining o) then
        exists b', book_inv b' /\ used b' = used (book e) /\
          modify e id new_price new_qty =
            Ret (with_book e b', if new_qty =? 0 then MCancelled id else MReduced id new_qty) /\
          edited (book e) b' (o_side o) (o_price o) (q_set id new_qty)
      else
        exists b1, book_inv b1 /\ used b1 = used (book e) /\ resting b1 id = None /\
          edited (book e) b1 (o_side o) (o_price o) (q_set id 0) /\
          modify e id new_price new_qty =
            (let! s := submit (with_book e b1)
               (Order.with_tif (Order.set_remaining (Order.set_quantity (Order.set_price o new_price) new_qty)
                  new_qty) Gtc) in
             Ret (s.1, MRequoted s.2))
  end.
Proof.
  intros Hb Hqty. unfold modify. rewrite (get_resting _ _ Hb). cbn [obind].
  pose proof (cancel_spec (book e) id Hb) as Hc. unfold is_u64 in Hqty.
  pose proof (reduce_spec (book e) id new_qty Hb ltac:(lia)) as Hr.
  destruct (resting (book e) id) as [o|] eqn:Ho; [|done].
  destruct Hc as (b1 & E1 & Hb1 & Hed1 & Hu1).
  destruct ((new_price =? o_price o) && (new_qty <=? o_remaining o)) eqn:Hfast.
  - apply andb_true_iff in Hfast as [_ Hle]. rewrite Hle in Hr. destruct Hr as (b' & E' & Hb' & Hed' & Hu').
    destruct (Z.eqb_spec new_qty 0) as [->|Hnz].
    + exists b1. rewrite E1. done.
    + exists b'. rewrite E'. done.
  - exists b1. rewrite E1. cbn [obind fst snd expect]. split_and!; try done.
    destruct (cancel_queues (book e) id o Hb Ho) as (b2 & E2 & Hb2 & _ & Hq2). rewrite E1 in E2. injection E2 as <-.
    rewrite (filter_ne_resting (book e) b1 id Hb Hb1 Hq2). by rewrite decide_True.
Qed.

Lemma edited_origin b b' o id n : book_inv b -> resting b id = Some o -> n <= o_remaining o ->
  edited b b' (o_side o) (o_price o) (q_set id n) -> origin b b' [].
Proof.
  intros Hb Ho Hn [H1 H2] sd p x Hx.
  destruct (decide ((sd, p) = (o_side o, o_price o))) as [[= -> ->]|Hne]; [|rewrite H2 in Hx by done; by apply origin_refl].
  rewrite H1 in Hx. unfold q_set, q_edit in Hx. apply list_elem_of_bind in Hx as (y & Hx & Hy).
  destruct (Z.eqb_spec (o_id y) id) as [Hid|Hid].
  - assert (y = o) as ->.
    { destruct (queue_order _ _ _ _ Hb Hy) as (_ & _ & _ & _ & Hr). rewrite Hid in Hr. congruence. }
    unfold refill in Hx. revert Hx. case_if; [by intros ?%elem_of_nil|]. intros ->%list_elem_of_singleton. eauto 6.
  - apply list_elem_of_singleton in Hx as ->. by apply origin_refl.
Qed.

(** ** What the trades and the result of a submission say *)

(** A trade of [order] with an order resting in [b], within the order's limit. *)
Definition trade_of_order (b : OrderBook) (order : Order) (t : Trade) : Prop :=
  t_taker t = o_id order /\ t_aggressor t = o_side order /\ t_taker_user t = o_user order /\
  0 < t_quantity t /\
  (exists maker, resting b (t_maker t) = Some maker /\ o_side maker = opposite (o_side order) /\
     o_price maker = t_price t /\ o_user maker = t_maker_user t) /\
  (o_type order = Limit -> is_budget (o_tif order) = false ->
   reaches (o_side order) (o_price order) (t_price t) = true).

Lemma submit_trades e e' order trades ts res :
  book_inv (book e) -> order_ok order -> submit_post e e' order trades ts res ->
  Forall (trade_of_order (book e) order) ts.
Proof.
  intros Hb Hok (_ & _ & _ & Hb' & _ & [(_ & -> & _)|(o & bud & v & v' & st & Hc)]); [constructor|].
  pose proof (sc_run _ _ _ _ _ _ _ _ _ _ _ Hc) as Hrun.
  destruct (sc_same _ _ _ _ _ _ _ _ _ _ _ Hc) as (S1 & S2 & S3 & S4 & S5 & _). cbn in S1, S2, S3, S4, S5.
  eapply Forall_impl; [apply (run_ok _ _ _ _ _ Hrun)|].
  intros t (T1 & T2 & T3 & _ & T5 & Hx & _ & q & mk & Hin & Hmk & Hid & Hu).
  cbn [start_view v_ladder] in Hin. apply (ladder_queue _ _ _ _ Hb) in Hin as [-> _].
  destruct (queue_order _ _ _ _ Hb Hmk) as (M1 & M2 & _ & _ & M3).
  unfold trade_of_order. rewrite <-S1, <-S3, <-S4. split_and!; try done.
  - exists mk. rewrite <-Hid, S4. done.
  - intros Hl Hnb. unfold crossable in Hx. rewrite S5, Hl in Hx.
    destruct (apply_budget_ok (book e) (stamped e order) Hb) as (r & Hr & HR); [by apply stamped_ok|].
    rewrite (sc_budget _ _ _ _ _ _ _ _ _ _ _ Hc) in Hr. injection Hr as <-.
    destruct HR as (_ & _ & _ & Hnbd & _). destruct (Hnbd Hnb) as [-> _]. by cbn in Hx |- *.
Qed.

Lemma submit_filled e e' order trades ts id status filled rests :
  order_ok order -> submit_post e e' order trades ts (id, status, filled, rests) ->
  id = o_id order /\ sumZ t_quantity ts = filled /\ 0 <= filled <= o_quantity order /\
  (status = Rejected -> ts = []) /\
  (status <> Rejected -> status = status_of (o_quantity order) filled rests).
Proof.
  intros Hok (_ & _ & _ & _ & _ & [([= -> -> -> ->] & -> & _)|(o & bud & v & v' & st & Hc)]).
  - destruct Hok as (_ & _ & _ & _ & Hq & _). unfold is_u64 in Hq. rewrite sumZ_nil. split_and!; done || lia.
  - pose proof (sc_run _ _ _ _ _ _ _ _ _ _ _ Hc) as Hr.
    pose proof (run_qty _ _ _ _ _ Hr) as H1. cbn in H1. pose proof (run_rem _ _ _ _ _ Hr).
    assert (0 <= sumZ t_quantity ts).
    { apply sumZ_nonneg. eapply Forall_impl; [apply (run_ok _ _ _ _ _ Hr)|]. unfold trade_ok. naive_solver lia. }
    pose proof (sc_result _ _ _ _ _ _ _ _ _ _ _ Hc) as [= -> -> -> ->].
    split_and!; try done; try lia. unfold status_of. by repeat case_if.
Qed.

Lemma modify_keeps n q ids e id new_price new_qty :
  engine_ok n q ids e -> is_u64 new_price -> is_u64 new_qty -> 0 <= q -> n < U32_MAX -> q + new_qty <= U64_MAX ->
  exists e' out, modify e id new_price new_qty = Ret (e', out) /\ engine_ok (n + 1) (q + new_qty) ids e' /\
    stp e' = stp e.
Proof.
  intros He Hpr Hqt Hq0 Hn Hq. pose proof (eo_book _ _ _ _ He) as Hb. pose proof (modify_ok e id new_price new_qty Hb Hqt) as H.
  unfold is_u64 in Hqt.
  destruct (resting (book e) id) as [o|] eqn:Ho.
  2:{ eexists _, _. split; [exact H|]. split; [|done]. eapply engine_ok_mono; [exact He|lia..|done]. }
  destruct ((new_price =? o_price o) && (new_qty <=? o_remaining o)) eqn:Hfast.
  - destruct H as (b' & Hb' & Hu & E & Hed). eexists _, _. split; [exact E|]. split; [|done].
    eapply engine_ok_mono; [apply with_book_keeps; try done|lia..|done].
    apply andb_true_iff in Hfast as [_ Hle%Z.leb_le]. by apply (edited_origin _ _ o id new_qty).
  - destruct H as (b1 & Hb1 & Hu & Hr1 & Hed & E).
    apply (resting_queue _ _ _ Hb) in Ho as Hin. destruct Hin as [Hid Hin].
    destruct (queue_order _ _ _ _ Hb Hin) as (_ & _ & Hok & Hrem & _).
    assert (engine_ok n q ids (with_book e b1)) as He1.
    { apply with_book_keeps; try done. apply (edited_origin _ _ o id 0); try done. lia. }
    set (o' := Order.with_tif _ Gtc) in E.
    assert (order_ok o') as Hok'.
    { destruct Hok as (? & ? & ? & ? & ? & ? & ?). unfold order_ok, o'. cbn. unfold is_u64 in *. split_and!; done || lia. }
    destruct (submit_keeps n q ids (with_book e b1) o' [] He1 Hok') as (e' & ts & [[[i st] fl] rs] & Es & Hp & He');
      [cbn; by rewrite Hid | done | cbn; lia |].
    rewrite E. unfold submit. rewrite Es. cbn [obind fst snd]. eexists _, _. split; [done|]. split.
    + eapply engine_ok_mono; [exact He' | lia | cbn; lia |]. cbn. apply (eo_ids _ _ _ _ He) in Hin. set_solver.
    + destruct Hp as (_ & -> & _). done.
Qed.
