(* ===== verification/EngineOutcome.v ===== *)
(** * What a submission leaves behind

    The end of [MatchingEngine.submit] ([src/src/engine.rs]) read off the book it
    started from: when an order is refused, when its remainder rests, and which
    resting orders self-trade prevention cancelled. *)

From S2P Require Import Prelude Types Strategy LevelIndex Book Engine BookProps EngineInv.
Import BookFacts EngineFacts MatchingEngine.

(** ** The crossing *)

(** The view [submit] starts the crossing loop from. *)
Lemma start_wf e order trades budget : book_inv (book e) ->
  ladder_wf order (v_ladder (start_view e order trades budget)).
Proof. intros Hb. by apply ladder_book_wf. Qed.

Lemma crossed_ladder e e' order o trades ts budget v v' stopped res :
  book_inv (book e') -> submit_crossed e e' order o trades ts budget v v' stopped res ->
  v_ladder v' = ladder (book e') (opposite (o_side order)).
Proof.
  intros Hb H. destruct (sc_same _ _ _ _ _ _ _ _ _ _ _ H) as (_ & _ & _ & Hs & _). cbn in Hs.
  apply (ladder_unique (opposite (o_side order))).
  - destruct (run_wf _ _ _ _ _ (sc_run _ _ _ _ _ _ _ _ _ _ _ H)) as [Hw _]. by rewrite Hs in Hw.
  - destruct Hb as [m Hbk]. by apply (ladder_sorted _ m).
  - intros [p q]. rewrite (ladder_queue _ _ _ _ Hb). apply (sc_makers _ _ _ _ _ _ _ _ _ _ _ H).
Qed.

Lemma crossed_filled e e' order o trades ts budget v v' stopped res :
  order_ok order -> submit_crossed e e' order o trades ts budget v v' stopped res ->
  sumZ t_quantity ts = o_quantity order - v_rem v' /\ 0 <= v_rem v' <= o_quantity order /\
  Forall (fun t => 0 < t_quantity t) ts.
Proof.
  intros Hok H. pose proof (sc_run _ _ _ _ _ _ _ _ _ _ _ H) as Hr.
  pose proof (run_qty _ _ _ _ _ Hr) as Hq. cbn in Hq.
  assert (Forall (fun t => 0 < t_quantity t) ts) as Hp.
  { eapply Forall_impl; [apply (run_ok _ _ _ _ _ Hr)|]. unfold trade_ok. naive_solver. }
  assert (0 <= sumZ t_quantity ts).
  { apply sumZ_nonneg. eapply Forall_impl; [exact Hp|]. simpl. lia. }
  pose proof (run_rem _ _ _ _ _ Hr). split_and!; done || lia.
Qed.

(** An order that rested on the maker side and still rests is still there. *)
Lemma crossed_side e e' order o trades ts budget v v' stopped res mk x :
  book_inv (book e) -> book_inv (book e') -> resting (book e) (o_id order) = None ->
  submit_crossed e e' order o trades ts budget v v' stopped res ->
  resting (book e) (o_id mk) = Some mk -> o_side mk = opposite (o_side order) ->
  resting (book e') (o_id mk) = Some x -> o_side x = opposite (o_side order).
Proof.
  intros Hb Hb' Hf Hc Hmk Hs Hx. apply (resting_queue _ _ _ Hb') in Hx as [Hid Hx].
  destruct (side_cases (o_side order) (o_side x)) as [Hsx|Hsx]; [|done].
  rewrite Hsx, (sc_own _ _ _ _ _ _ _ _ _ _ _ Hc) in Hx. apply elem_of_app in Hx as [Hx|Hx].
  - destruct (queue_order _ _ _ _ Hb Hx) as (H1 & _ & _ & _ & H2). congruence.
  - revert Hx. case_if; [|set_solver]. intros ->%list_elem_of_singleton.
    destruct (sc_same _ _ _ _ _ _ _ _ _ _ _ Hc) as (H1 & _). cbn in Hid, H1. congruence.
Qed.

(** ** Refusals *)

(** Fill-or-kill: whether the opposite side cannot fill the order within its limit,
    or a budget buy within its budget.  A budget sell has the least price at which
    its quantity earns the budget as its limit. *)
Definition unfillable (b : OrderBook) (order : Order) : bool :=
  match o_tif order with
  | Fok => reachable_qty b order <? o_quantity order
  | FokBudget =>
      match o_side order with
      | Buy =>
          let c := ladder_cost (o_quantity order) (ladder b Sell) in
          (0 <? c.1) || (o_price order <? c.2)
      | Sell =>
          let q := Z.max (o_quantity order) 1 in
          reachable_qty b (Order.set_price order (wrap64 (wrap64 (o_price order + q) - 1) / q)) <? o_quantity order
      end
  | _ => false
  end.

Lemma budget_sell b order o budget : o_tif order = FokBudget -> o_side order = Sell ->
  apply_budget b order = Ret (Some (o, budget)) ->
  o_tif o = Fok /\ forall b', reachable_qty b' o = reachable_qty b' (Order.set_price order
    (wrap64 (wrap64 (o_price order + Z.max (o_quantity order) 1) - 1) / Z.max (o_quantity order) 1)).
Proof. unfold apply_budget. intros -> -> [= <- _]. done. Qed.

Lemma reachable_ext b o o' : o_side o' = o_side o -> o_price o' = o_price o -> reachable_qty b o' = reachable_qty b o.
Proof. unfold reachable_qty. by intros -> ->. Qed.

(** A submission is refused exactly when its order is unfillable. *)
Lemma submit_refuses e e' order trades ts id status filled rests : book_inv (book e) -> order_ok order ->
  submit_post e e' order trades ts (id, status, filled, rests) -> status = Rejected <-> unfillable (book e) order = true.
Proof.
  intros Hb Hok (_ & _ & _ & _ & _ & Hcase).
  destruct (apply_budget_ok (book e) (stamped e order) Hb) as (r & Hr & HR); [by apply stamped_ok|].
  destruct Hcase as [Hrej|(o & bud & v & v' & st & Hc)].
  - destruct Hrej as ([= _ -> _ _] & _ & _ & Hwhy). split; [intros _|done]. unfold unfillable.
    destruct Hwhy as [(-> & -> & Hw)|(o & bud & Hbd & HS & Ht & Hq)].
    { apply orb_true_iff. destruct Hw; [left|right]; by apply Z.ltb_lt. }
    pose proof HS as (_ & _ & _ & S4 & _). unfold apply_budget in Hbd. cbn in Hbd, S4.
    destruct (o_tif order) eqn:Htif.
    + injection Hbd as <- _. cbn in Ht. congruence.
    + injection Hbd as <- _. cbn in Ht. congruence.
    + injection Hbd as <- _. apply Z.ltb_lt. exact Hq.
    + destruct (o_side order); injection Hbd as <- _; cbn in Ht; congruence.
    + destruct (o_side order) eqn:Hsd.
      * apply obind_ret in Hbd as (c & _ & Hbd). revert Hbd. case_if; [done|]. intros [= <- _]. cbn in Ht. congruence.
      * injection Hbd as <- _. apply Z.ltb_lt. cbn [opposite] in *. unfold reachable_qty in *. cbn in Hq |- *. by rewrite Hsd in *.
  - pose proof (sc_result _ _ _ _ _ _ _ _ _ _ _ Hc) as [= _ -> _ _]. split; [unfold status_of; by repeat case_if|].
    rewrite (sc_budget _ _ _ _ _ _ _ _ _ _ _ Hc) in Hr. injection Hr as <-. destruct HR as (_ & _ & _ & Hnbd & _ & _ & _ & Hfb).
    pose proof (sc_fok _ _ _ _ _ _ _ _ _ _ _ Hc) as Hfok. pose proof (sc_budget _ _ _ _ _ _ _ _ _ _ _ Hc) as Hbd.
    unfold unfillable. destruct (o_tif order) eqn:Htif; try done; cbn in Hnbd, Hfb; rewrite Htif in Hnbd, Hfb.
    + destruct (Hnbd eq_refl) as [-> _]. specialize (Hfok Htif). intros Hlt%Z.ltb_lt.
      unfold reachable_qty in *. cbn in Hfok. lia.
    + destruct (o_side order) eqn:Hsd.
      * specialize (Hfb eq_refl eq_refl). change (ladder_asc (book e) Sell) with (ladder (book e) Sell) in Hfb. intros [Hx%Z.ltb_lt|Hx%Z.ltb_lt]%orb_true_iff; lia.
      * destruct (budget_sell _ (stamped e order) _ _ Htif Hsd Hbd) as [Ht Hre]. specialize (Hfok Ht). intros Hlt%Z.ltb_lt.
        rewrite Hre in Hfok. cbn in Hfok. unfold reachable_qty in *. cbn in Hfok, Hlt. lia.
Qed.

(** ** Self-trade prevention *)
Lemma taker_policy_pulls_nothing e o v0 v v' stopped : stp e = CancelTaker ->
  rtc (cstep e o) v0 v -> cexit e o v v' stopped -> v_stp v' = v_stp v0.
Proof.
  intros Hp Hr Hex. transitivity (v_stp v).
  - by destruct Hex; try done; congruence.
  - clear Hex. induction Hr as [|v1 v2 v3 Hst Hr IH]; [done|]. rewrite IH. destruct Hst; [done|congruence].
Qed.

Lemma unstopped_pulls_nothing e o v0 v v' : stp e <> CancelMaker ->
  rtc (cstep e o) v0 v -> cexit e o v v' false -> v_stp v' = v_stp v0.
Proof.
  intros Hp Hr Hex. transitivity (v_stp v).
  - remember false as stopped. by destruct Hex.
  - clear Hex. induction Hr as [|v1 v2 v3 Hst Hr IH]; [done|]. rewrite IH. by destruct Hst.
Qed.

Section crossed.
Context (e e' : MatchingEngine) (order o : Order) (ts : list Trade) (budget : Z) (v v' : mview) (stopped : bool).
Context (res : OrderId * OrderStatus * Qty * bool).
Hypothesis (Hb : book_inv (book e)) (Hb' : book_inv (book e')) (Hok : order_ok order).
Hypothesis Hfresh : resting (book e) (o_id order) = None.
Hypothesis Hc : submit_crossed e e' order o [] ts budget v v' stopped res.

Let v0 : mview := start_view e order [] budget.

(** An order of the ladder the loop ends with rested in the book before, with the
    same id, user and price. *)
Lemma crossed_came_from w tr p q x : run (advanced e) o v0 w tr -> (p, q) ∈ v_ladder w -> x ∈ q ->
  exists mk, resting (book e) (o_id x) = Some mk /\ o_id mk = o_id x /\ o_user mk = o_user x /\
    o_side mk = opposite (o_side order) /\ o_price mk = p.
Proof.
  intros Hrun Hin Hx. destruct (run_from _ _ _ _ _ Hrun p q x Hin Hx) as (q0 & x0 & I1 & I2 & I3 & _).
  cbn [v0 start_view v_ladder] in I1. apply (ladder_queue _ _ _ _ Hb) in I1 as [-> _].
  destruct (queue_order _ _ _ _ Hb I2) as (M1 & M2 & _ & _ & M3). exists x0. rewrite I3. destruct x0; done.
Qed.

(** The order a maker has become, where it still rests. *)
Lemma crossed_same mk x : resting (book e) (o_id mk) = Some mk -> o_side mk = opposite (o_side order) ->
  resting (book e') (o_id mk) = Some x -> o_side x = opposite (o_side order) /\ o_price x = o_price mk /\ o_user x = o_user mk.
Proof.
  intros Hmk Hs Hx. assert (o_side x = opposite (o_side order)) as Hsx by (eapply (crossed_side e e' order) with (mk := mk) (x := x); done).
  pose proof Hx as Hx0. apply (resting_queue _ _ _ Hb') in Hx as [Hid Hx]. rewrite Hsx in Hx.
  destruct (crossed_came_from v' ts (o_price x) (queue (book e') (opposite (o_side order)) (o_price x)) x) as (mk' & R & R1 & R2 & _ & R4).
  - apply (sc_run _ _ _ _ _ _ _ _ _ _ _ Hc).
  - apply (sc_makers _ _ _ _ _ _ _ _ _ _ _ Hc). split; [done|]. intros Hq. rewrite Hq in Hx. by apply elem_of_nil in Hx.
  - done.
  - rewrite Hid, Hmk in R. injection R as <-. done.
Qed.

Lemma crossed_user : o_user o = o_user order /\ o_side o = o_side order.
Proof. destruct (sc_same _ _ _ _ _ _ _ _ _ _ _ Hc) as (_ & _ & S3 & S4 & _). done. Qed.

Lemma crossed_wf : ladder_wf o (v_ladder v0).
Proof. cbn. destruct crossed_user as [_ <-]. by apply ladder_book_wf. Qed.

(** Own makers never trade, so one that self-trade prevention left still rests. *)
Lemma own_stays mk : stp_on (advanced e) o = true -> resting (book e) (o_id mk) = Some mk ->
  o_side mk = opposite (o_side order) -> o_user mk = o_user order -> o_id mk ∉ stp_cancelled e' ->
  is_Some (resting (book e') (o_id mk)).
Proof.
  intros Hon Hmk Hs Hu Hn. pose proof (sc_run _ _ _ _ _ _ _ _ _ _ _ Hc) as Hrun.
  rewrite (sc_stp _ _ _ _ _ _ _ _ _ _ _ Hc) in Hn. pose proof (run_maker _ _ _ _ _ Hrun (o_id mk) Hn) as Hm.
  rewrite (crossed_ladder _ _ _ _ _ _ _ _ _ _ _ Hb' Hc) in Hm. cbn [start_view v_ladder] in Hm.
  rewrite !ladder_rem_resting, Hmk, decide_True in Hm by done.
  assert (traded (o_id mk) ts = 0) as Ht.
  { unfold traded. apply sumZ_zero. intros t Ht. pose proof (run_ok _ _ _ _ _ Hrun) as Hf. rewrite Forall_forall in Hf.
    destruct (Hf t Ht) as (_ & _ & _ & _ & _ & _ & Hou & q & x & Hin & Hx & Hid & Hux). case_if; [|done]. exfalso. zbool.
    apply (Hou Hon). cbn [start_view v_ladder] in Hin. apply (ladder_queue _ _ _ _ Hb) in Hin as [-> _].
    destruct (queue_order _ _ _ _ Hb Hx) as (_ & _ & _ & _ & R). rewrite Hid in R.
    destruct crossed_user as [-> _]. congruence. }
  assert (0 < o_remaining mk).
  { apply (resting_queue _ _ _ Hb) in Hmk as [_ Hq]. by apply (queue_order _ _ _ _ Hb) in Hq as (_ & _ & _ & ? & _). }
  destruct (resting (book e') (o_id mk)) as [x|]; [by eexists|lia].
Qed.

Lemma crossed_pulled id : id ∈ stp_cancelled e' ->
  (exists mk, resting (book e) id = Some mk /\ o_user mk = o_user order /\ o_side mk = opposite (o_side order)) /\
  resting (book e') id = None.
Proof.
  intros Hin. rewrite (sc_stp _ _ _ _ _ _ _ _ _ _ _ Hc) in Hin.
  pose proof (sc_run0 _ _ _ _ _ _ _ _ _ _ _ Hc) as Hrun0.
  assert (NoDup (o_id <$> (v_ladder v0 ≫= snd))) as Hnd by (by apply ladder_ids).
  assert (pulled_ok o v0 v') as Hp.
  { eapply (pulled_exit (advanced e) o v0 Hnd); [exact Hrun0 | | apply (sc_exit _ _ _ _ _ _ _ _ _ _ _ Hc)].
    apply (pulled_steps (advanced e) o v0 Hnd); [apply (sc_steps _ _ _ _ _ _ _ _ _ _ _ Hc) | apply crossed_wf | |].
    - cbn. pose proof Hok as (_ & _ & _ & _ & Oq & _). unfold is_u64 in Oq. lia.
    - pose proof (run_cost _ _ _ _ _ Hrun0) as Hcost. pose proof (run_budget _ _ _ _ _ Hrun0) as Hbn.
      assert (0 <= sumZ (fun t => t_price t * t_quantity t) ts); [|cbn in *; lia].
      apply sumZ_nonneg. apply Forall_forall. intros t Ht.
      pose proof (run_ok _ _ _ _ _ Hrun0) as Hf. rewrite Forall_forall in Hf.
      destruct (trade_price_u64 (advanced e) o v0 crossed_wf t) as [H1 H2]; [by apply Hf|]. unfold is_u64 in H1. nia. }
  destruct (Hp id Hin) as [Hbad|[(p & q & mk & I1 & I2 & I3 & I4) Hgone]]; [by apply elem_of_nil in Hbad|].
  destruct crossed_user as [Hu _]. rewrite Hu in I4.
  cbn [v0 start_view v_ladder] in I1. apply (ladder_queue _ _ _ _ Hb) in I1 as [-> _].
  destruct (queue_order _ _ _ _ Hb I2) as (M1 & _ & _ & _ & M2). rewrite I3 in M2. split; [by exists mk|].
  destruct (resting (book e') id) as [x|] eqn:Hx; [|done]. exfalso.
  assert (o_side x = opposite (o_side order)) as Hsx.
  { eapply (crossed_side e e' order) with (mk := mk) (x := x); try done; by rewrite I3. }
  apply (resting_queue _ _ _ Hb') in Hx as [Hxi Hx]. rewrite Hsx in Hx.
  apply (Hgone (o_price x) (queue (book e') (opposite (o_side order)) (o_price x)) x); try done.
  apply (sc_makers _ _ _ _ _ _ _ _ _ _ _ Hc). split; [done|]. intros Hq. rewrite Hq in Hx. by apply elem_of_nil in Hx.
Qed.

(** The loop stops the taker only at an own order it would have traded with. *)
Lemma stopped_own : stopped = true -> (stp e = CancelTaker \/ stp e = CancelBoth) /\ o_user order <> 0 /\
  exists id mk, resting (book e) id = Some mk /\ o_user mk = o_user order /\ o_side mk = opposite (o_side order) /\
    crossable o (o_price mk) = true.
Proof.
  intros Hst. pose proof crossed_user as [Hu _]. pose proof crossed_came_from as Hco. pose proof (sc_exit _ _ _ _ _ _ _ _ _ _ _ Hc) as Hex. pose proof (sc_run0 _ _ _ _ _ _ _ _ _ _ _ Hc) as Hrun0.
  assert (stp_on (advanced e) o = true -> o_user order <> 0) as Hon.
  { unfold stp_on. rewrite Hu. intros [_ H]%andb_true_iff. by zbool. }
  assert (forall p q rest x, v_ladder v = (p, q) :: rest -> x ∈ q -> own o x = true -> exists id mk, resting (book e) id = Some mk /\
    o_user mk = o_user order /\ o_side mk = opposite (o_side order) /\ o_price mk = p) as Horigin.
  { intros p q rest x Hl Hx Hown. destruct (Hco v ts p q x Hrun0) as (mk & R & _ & R2 & R3 & R4); [rewrite Hl; by left|done|].
    exists (o_id x), mk. split_and!; try done. unfold own in Hown. zbool. congruence. }
  clear Hc Hco Hrun0. destruct Hex as [w H|w H H0|w px q rest H H0 H1|w px q rest H H0 H1 H2|w px q rest H H0 H1 H2 H3 H4|
    px q rest rem tr bd pulled aff H H0 H1 H2 H3 H4 H5]; try done.
  - destruct (own_ids o q) as [|id ids] eqn:Eo; [done|].
    assert (id ∈ own_ids o q) as Hid by (rewrite Eo; by left). apply own_ids_elem in Hid as (x & Hx & _ & Hown).
    destruct (Horigin px q rest x H0 Hx Hown) as (i & mk & R & R1 & R2 & R3).
    split; [by left|]. split; [by apply Hon|]. exists i, mk. split_and!; try done. by rewrite R3.
  - destruct (own_ids o (shown (advanced e) aff q)) as [|id ids] eqn:Eo; [done|].
    assert (id ∈ own_ids o (shown (advanced e) aff q)) as Hid by (rewrite Eo; by left).
    apply own_ids_elem in Hid as (x & Hx & _ & Hown). apply shown_subset in Hx.
    destruct (Horigin px q rest x eq_refl Hx Hown) as (i & mk & R & R1 & R2 & R3).
    split; [by right|]. split; [by apply Hon|]. exists i, mk. split_and!; try done. by rewrite R3.
Qed.

End crossed.

(** ** Each order once *)

(** The ids of a ladder's orders. *)
Definition ladder_names (l : list (Price * list Order)) : list OrderId := o_id <$> (l ≫= snd).

Lemma names_push px q rest : ladder_names (push_level px q rest) = (o_id <$> q) ++ ladder_names rest.
Proof. unfold ladder_names, push_level. destruct q as [|x q]; [done|]. rewrite bind_cons, fmap_app. done. Qed.

Lemma names_fill fill q : (o_id <$> q_fill fill q) `sublist_of` (o_id <$> q).
Proof.
  unfold q_fill. induction q as [|x q IH]; [done|]. rewrite q_edit_cons, fmap_app, fmap_cons. change (o_id x :: ?l) with ([o_id x] ++ l).
  apply sublist_app; [|exact IH]. case_if; [|done]. unfold refill. case_if; [apply sublist_nil_l|done].
Qed.

Lemma names_fills fills q : (o_id <$> q_fills fills q) `sublist_of` (o_id <$> q).
Proof.
  revert q. induction fills as [|f fills IH]; intros q; [done|]. change (q_fills (f :: fills) q) with (q_fills fills (q_fill f q)).
  etrans; [apply IH|apply names_fill].
Qed.

Lemma names_shown e aff q : (o_id <$> shown e aff q) `sublist_of` (o_id <$> q).
Proof.
  unfold shown. case_if; [done|]. destruct (q_cap_prefix aff 0 q) as (rest & Eq & _). rewrite Eq at 2. rewrite fmap_app.
  by apply sublist_inserts_r.
Qed.

Lemma names_sublist (l k : list Order) : l `sublist_of` k -> (o_id <$> l) `sublist_of` (o_id <$> k).
Proof. induction 1; cbn; by constructor. Qed.

Lemma own_ids_sublist e o aff q : own_ids o (shown e aff q) `sublist_of` (o_id <$> q).
Proof. etrans; [|apply (names_shown e aff)]. unfold own_ids. apply names_sublist, sublist_filter. Qed.

(** What is pulled and what is left of the ladder are different orders. *)
Definition apart (v : mview) : Prop := NoDup (v_stp v ++ ladder_names (v_ladder v)).

Lemma apart_pull e o px q rest rem ts budget pulled aff : apart (mkView ((px, q) :: rest) rem ts budget pulled) ->
  apart (mkView (push_level px (q_drop (own_ids o (shown e aff q)) q) rest) rem ts budget (pulled ++ own_ids o (shown e aff q))).
Proof.
  unfold apart. cbn [v_stp v_ladder]. rewrite names_push. unfold ladder_names at 1. rewrite bind_cons, fmap_app. fold (ladder_names rest).
  set (ids := own_ids o (shown e aff q)). assert (ids `sublist_of` (o_id <$> q)) as Hids by apply own_ids_sublist.
  assert ((o_id <$> q_drop ids q) `sublist_of` (o_id <$> q)) as Hd by apply names_sublist, sublist_filter.
  intros (N1 & N2 & (N3 & N4 & N5)%NoDup_app)%NoDup_app. cbn [snd] in *. rewrite <-(assoc_L (++)).
  assert (forall x, x ∈ ids -> x ∈ o_id <$> q) as M1 by (intros x Hx; by eapply elem_of_sublist).
  assert (forall x, x ∈ o_id <$> q_drop ids q -> x ∈ o_id <$> q) as M2 by (intros x Hx; by eapply elem_of_sublist).
  apply NoDup_app. split; [done|]. split.
  { intros x Hx. specialize (N2 x Hx). rewrite !elem_of_app in *. intros [H|[H|H]]; apply N2; eauto. }
  apply NoDup_app. split; [exact (sublist_NoDup _ _ N3 Hids)|]. split.
  { intros x Hx. rewrite elem_of_app. intros [H|H]; [|by apply (N4 x (M1 x Hx))].
    apply list_elem_of_fmap in H as (y & -> & [Hy _]%list_elem_of_filter). done. }
  apply NoDup_app. split; [exact (sublist_NoDup _ _ N3 Hd)|]. split; [|done]. intros x Hx. apply N4, M2, Hx.
Qed.

Lemma apart_step e o v v' : apart v -> cstep e o v v' -> apart v'.
Proof.
  intros Ha Hst. destruct Hst; [|by apply apart_pull]. unfold apart in *. cbn [v_stp v_ladder] in *. rewrite names_push.
  unfold ladder_names at 1 in Ha. rewrite bind_cons, fmap_app in Ha. fold (ladder_names rest) in Ha.
  eapply sublist_NoDup; [exact Ha|]. apply sublist_app; [done|]. apply sublist_app; [apply names_fills|done].
Qed.

Lemma apart_run e o v0 v v' stopped : apart v0 -> rtc (cstep e o) v0 v -> cexit e o v v' stopped -> apart v'.
Proof.
  intros Ha Hr Hex. assert (apart v) as Hv by (clear Hex; induction Hr; eauto using apart_step). destruct Hex; try done. by apply apart_pull.
Qed.

Lemma submit_pulled_once e e' order ts res : submit_pre e order -> submit_post e e' order [] ts res -> NoDup (stp_cancelled e').
Proof.
  intros Hpre (_ & _ & _ & _ & _ & [(_ & _ & -> & _)|(o & bud & v & v' & st & Hc)]); [constructor|].
  rewrite (sc_stp _ _ _ _ _ _ _ _ _ _ _ Hc).
  assert (apart (start_view e order [] bud)) as H0 by exact (ladder_ids (book e) (opposite (o_side order)) (pre_book _ _ Hpre)).
  pose proof (apart_run _ _ _ _ _ _ H0 (sc_steps _ _ _ _ _ _ _ _ _ _ _ Hc) (sc_exit _ _ _ _ _ _ _ _ _ _ _ Hc)) as Hn.
  by apply NoDup_app in Hn as [? _].
Qed.

(** Without an attributed user, or with the policy [Allow], nothing is cancelled. *)
Lemma submit_pulls_nothing e e' order ts res : submit_post e e' order [] ts res -> stp e = Allow \/ o_user order = 0 ->
  stp_cancelled e' = [].
Proof.
  intros (_ & _ & _ & _ & _ & [(_ & _ & -> & _)|(o & bud & v & v' & st & Hc)]) Hoff; [done|].
  rewrite (sc_stp _ _ _ _ _ _ _ _ _ _ _ Hc).
  assert (stp_on (advanced e) o = false) as Hs.
  { unfold stp_on. destruct (crossed_user _ _ _ _ _ _ _ _ _ _ Hc) as [-> _]. cbn. destruct Hoff as [-> | ->]; [done|]. by rewrite andb_false_r. }
  transitivity (v_stp v); [destruct (sc_exit _ _ _ _ _ _ _ _ _ _ _ Hc); congruence|].
  pose proof (sc_steps _ _ _ _ _ _ _ _ _ _ _ Hc) as Hr. clear Hc.
  change [] with (v_stp (start_view e order [] bud)). induction Hr as [|w1 w2 w3 Hst Hr IH]; [done|]. rewrite IH. destruct Hst; [done|congruence].
Qed.

(** With self-trade prevention on, the reported cancellations are exactly the
    taker's own orders that left the opposite side. *)
Lemma submit_pulled e e' order ts res : submit_pre e order -> submit_post e e' order [] ts res ->
  stp e <> Allow -> o_user order <> 0 -> forall id, id ∈ stp_cancelled e' <->
    exists mk, resting (book e) id = Some mk /\ o_user mk = o_user order /\ o_side mk = opposite (o_side order) /\
      resting (book e') id = None.
Proof.
  intros Hpre (_ & _ & _ & Hb' & _ & Hcase) Hstp Hu id. pose proof (pre_book _ _ Hpre) as Hb.
  destruct Hcase as [(_ & _ & -> & _)|(o & bud & v & v' & st & Hc)].
  { cbn. split; [by intros ?%elem_of_nil|]. intros (mk & H1 & _ & _ & H2). congruence. }
  split.
  - intros Hin. destruct (crossed_pulled _ _ _ _ _ _ _ _ _ _ Hb Hb' (pre_order _ _ Hpre) (pre_fresh _ _ Hpre) Hc id Hin)
      as [(mk & M1 & M2 & M3) M4]. by exists mk.
  - intros (mk & M1 & M2 & M3 & M4). destruct (decide (id ∈ stp_cancelled e')) as [|Hn]; [done|exfalso].
    assert (o_id mk = id) as Hid by (by apply (resting_queue _ _ _ Hb) in M1 as [? _]). subst id.
    destruct (own_stays _ _ _ _ _ _ _ _ _ _ Hb Hb' Hc mk) as [x Hx]; try done; [|congruence].
    unfold stp_on. destruct (crossed_user _ _ _ _ _ _ _ _ _ _ Hc) as [-> _]. cbn. rewrite bool_decide_false by done.
    by apply Z.eqb_neq in Hu as ->.
Qed.

(** ** The remainder *)

(** Self-trade prevention stops the taker when it meets an order of its own. *)
Definition meets_own (e : MatchingEngine) (order : Order) : Prop :=
  (stp e = CancelTaker \/ stp e = CancelBoth) /\ o_user order <> 0 /\
  exists id mk, resting (book e) id = Some mk /\ o_user mk = o_user order /\ o_side mk = opposite (o_side order) /\
    crossable order (o_price mk) = true.

Lemma plain_budget e order : is_budget (o_tif order) = false ->
  apply_budget (book e) (stamped e order) = Ret (Some (stamped e order, U128_MAX)).
Proof. intros H. unfold apply_budget. cbn. by destruct (o_tif order). Qed.

(** An unstopped taker that is not filled has no own order left to meet. *)
Lemma rested_meets_none e e' order ts v v' res : submit_pre e order -> book_inv (book e') ->
  submit_crossed e e' order (stamped e order) [] ts U128_MAX v v' false res -> 0 < v_rem v' -> ~ meets_own e order.
Proof.
  intros Hpre Hb' Hc Hrem (Hpol & Hu & id & mk & M1 & M2 & M3 & M4). pose proof (pre_book _ _ Hpre) as Hb.
  pose proof (pre_order _ _ Hpre) as (_ & _ & _ & _ & Oq & _). unfold is_u64 in Oq.
  destruct (exit_exhausted (advanced e) (stamped e order) (start_view e order [] U128_MAX)) with (v := v) (v' := v') (ts := ts) as [-> Hd];
    [by apply (start_wf e (stamped e order))|done|apply (sc_run0 _ _ _ _ _ _ _ _ _ _ _ Hc)|done|apply (sc_exit _ _ _ _ _ _ _ _ _ _ _ Hc)|].
  destruct Hd as [Hd|Hd]; [lia|].
  assert (o_id mk = id) as <- by (by apply (resting_queue _ _ _ Hb) in M1 as [? _]).
  assert (stp_cancelled e' = []) as Hnone.
  { rewrite (sc_stp _ _ _ _ _ _ _ _ _ _ _ Hc).
    rewrite (unstopped_pulls_nothing (advanced e) (stamped e order) (start_view e order [] U128_MAX) v v); [done| |
      apply (sc_steps _ _ _ _ _ _ _ _ _ _ _ Hc)|apply (sc_exit _ _ _ _ _ _ _ _ _ _ _ Hc)].
    cbn. destruct Hpol; congruence. }
  destruct (own_stays _ _ _ _ _ _ _ _ _ _ Hb Hb' Hc mk) as [x Hx]; try done.
  { unfold stp_on. cbn. rewrite bool_decide_false by (destruct Hpol; congruence). by apply Z.eqb_neq in Hu as ->. }
  { rewrite Hnone. apply not_elem_of_nil. }
  destruct (crossed_same _ _ _ _ _ _ _ _ _ _ Hb Hb' (pre_fresh _ _ Hpre) Hc mk x M1 M3 Hx) as (X1 & X2 & _).
  apply (resting_queue _ _ _ Hb') in Hx as [_ Hx]. rewrite X1, X2 in Hx.
  change (crossable order) with (crossable (stamped e order)) in M4.
  rewrite (Hd (o_price mk) (queue (book e') (opposite (o_side order)) (o_price mk))) in M4; [done|].
  apply (sc_makers _ _ _ _ _ _ _ _ _ _ _ Hc). split; [done|]. intros Hq. rewrite Hq in Hx. by apply elem_of_nil in Hx.
Qed.

(** The remainder of a good-till-cancelled limit order rests, and no other, unless
    self-trade prevention stopped it. *)
Lemma submit_rests e e' order ts id status filled rs : submit_pre e order ->
  submit_post e e' order [] ts (id, status, filled, rs) ->
  rs = true <-> o_type order = Limit /\ o_tif order = Gtc /\ filled < o_quantity order /\ ~ meets_own e order.
Proof.
  intros Hpre Hpost. pose proof Hpost as (_ & _ & _ & Hb' & _ & Hcase). pose proof (pre_book _ _ Hpre) as Hb.
  pose proof (submit_refuses _ _ _ _ _ _ _ _ _ Hb (pre_order _ _ Hpre) Hpost) as Href.
  destruct Hcase as [([= _ -> _ ->] & _)|(o & bud & v & v' & st & Hc)].
  { split; [done|]. intros (_ & Ht & _). destruct Href as [Href _]. specialize (Href eq_refl). unfold unfillable in Href. by rewrite Ht in Href. }
  pose proof (sc_result _ _ _ _ _ _ _ _ _ _ _ Hc) as [= _ _ -> ->].
  destruct (sc_same _ _ _ _ _ _ _ _ _ _ _ Hc) as (_ & _ & _ & _ & S5 & _). cbn in S5.
  assert (o_tif order = Gtc -> o = stamped e order /\ bud = U128_MAX) as Hplain.
  { intros Ht. pose proof (sc_budget _ _ _ _ _ _ _ _ _ _ _ Hc) as E. rewrite plain_budget in E by by rewrite Ht. by injection E as <- <-. }
  unfold rests. rewrite S5. split.
  - intros [[Hst Hrem]%andb_true_iff Hg]%andb_true_iff. destruct (o_type order) eqn:Hty; [|done]. destruct (o_tif o) eqn:Hto; try done.
    assert (o_tif order = Gtc) as Ht.
    { destruct (apply_budget_ok (book e) (stamped e order) Hb) as (r & Hr & HR); [apply stamped_ok, Hpre|].
      rewrite (sc_budget _ _ _ _ _ _ _ _ _ _ _ Hc) in Hr. injection Hr as <-. destruct HR as (_ & _ & _ & Hnbd & Hbt & _).
      cbn in Hnbd, Hbt. destruct (is_budget (o_tif order)); [by destruct Hbt|]. destruct Hnbd as [-> _]; done. }
    destruct (Hplain Ht) as [-> ->]. destruct st; [done|]. zbool. split_and!; try done; [lia|]. apply (rested_meets_none _ _ _ _ _ _ _ Hpre Hb' Hc). lia.
  - intros (Hty & Ht & Hlt & Hm). destruct (Hplain Ht) as [-> ->]. rewrite Hty. cbn. rewrite Ht.
    destruct st; [|apply andb_true_iff; split; [|done]; by apply Z.ltb_lt; lia].
    destruct Hm. exact (stopped_own _ _ _ _ _ _ _ _ _ _ Hb Hc eq_refl).
Qed.
