(* ===== verification/EngineProps.v ===== *)
(** * Correctness of the matching engine

    The properties of [MatchingEngine.submit], [modify], [cancel], [restore] and
    [export_orders] ([src/src/engine.rs]) for every strategy that meets the
    allocation contract. *)

From S2P Require Import Prelude Types Strategy LevelIndex Book Engine BookProps EngineInv EngineOutcome.
Import BookFacts EngineFacts MatchingEngine.

(** ** Conservation *)

(** C2: [submit] returns (it neither panics nor loops) and keeps the book
    invariant; the quantity reported filled is exactly the sum of the trades and
    at most the order's quantity; every maker on the opposite side that
    self-trade prevention did not cancel loses exactly what the trades took from
    it; and a rejected order leaves no trade. *)
Theorem submit_conserves (e : MatchingEngine) (order : Order) (Hpre : submit_pre e order) :
  exists e' rep, submit e order = Ret (e', rep) /\ book_inv (book e') /\
    sumZ t_quantity (sr_trades rep) = sr_filled rep /\
    Forall (fun t => 0 < t_quantity t) (sr_trades rep) /\
    0 <= sr_filled rep <= o_quantity order /\
    (forall maker, resting (book e) (o_id maker) = Some maker -> o_side maker = opposite (o_side order) ->
       o_id maker ∉ stp_cancelled e' ->
       rem_at (book e') (o_id maker) = o_remaining maker - traded (o_id maker) (sr_trades rep)) /\
    (sr_status rep = Rejected -> sr_trades rep = []).
Proof.
  destruct (submit_ok e order Hpre) as (e' & rep & E & _ & _ & _ & Hb' & _ & Hcase).
  pose proof (pre_book _ _ Hpre) as Hb. pose proof (pre_order _ _ Hpre) as Hok.
  exists e', rep. split; [done|]. split; [done|]. destruct Hcase as [Hrej|(o & bud & v & v' & st & Hc)].
  - destruct Hrej as ([= H1 H2 H3 H4] & Hts & -> & _). rewrite Hts, H3, sumZ_nil.
    pose proof Hok as (_ & _ & _ & _ & Hq & _). unfold is_u64 in Hq. split_and!; try done; try lia.
    intros mk Hmk _ _. unfold rem_at. cbn [advanced book]. rewrite Hmk. unfold traded. rewrite sumZ_nil. lia.
  - destruct (crossed_filled _ _ _ _ _ _ _ _ _ _ _ Hok Hc) as (Hs & Hr & Hp).
    pose proof (sc_result _ _ _ _ _ _ _ _ _ _ _ Hc) as [= H1 H2 H3 H4].
    split_and!; try done; try lia.
    + intros mk Hmk Hsd Hn. pose proof (sc_run _ _ _ _ _ _ _ _ _ _ _ Hc) as Hrun.
      pose proof (run_maker _ _ _ _ _ Hrun (o_id mk)) as Hm.
      rewrite <-(sc_stp _ _ _ _ _ _ _ _ _ _ _ Hc) in Hm. specialize (Hm Hn).
      rewrite (crossed_ladder _ _ _ _ _ _ _ _ _ _ _ Hb' Hc) in Hm. cbn [start_view v_ladder] in Hm.
      rewrite !ladder_rem_resting, Hmk, decide_True in Hm by done.
      unfold rem_at. destruct (resting (book e') (o_id mk)) as [x|] eqn:Hx; [|lia].
      rewrite decide_True in Hm; [lia|].
      eapply (crossed_side e e' order) with (x := x) (mk := mk); try done. apply Hpre.
    + rewrite H2. unfold status_of. by repeat case_if.
Qed.

(** ** Prices *)

(** every trade is at the resting price of a maker of the opposite side, and
    within the taker's limit if it has one; prices get no better along the
    trades, and no order left on the opposite side has a better price than any
    trade (no trade-through). *)
Theorem submit_best_price (e : MatchingEngine) (order : Order) (Hpre : submit_pre e order) :
  exists e' rep, submit e order = Ret (e', rep) /\
    (forall t, t ∈ sr_trades rep -> exists maker, resting (book e) (t_maker t) = Some maker /\
       o_side maker = opposite (o_side order) /\ o_price maker = t_price t /\
       o_user maker = t_maker_user t /\
       (o_type order = Limit -> is_budget (o_tif order) = false ->
        reaches (o_side order) (o_price order) (t_price t) = true)) /\
    StronglySorted (fun t t' => ~ better (opposite (o_side order)) (t_price t') (t_price t)) (sr_trades rep) /\
    (forall t p, t ∈ sr_trades rep -> queue (book e') (opposite (o_side order)) p <> [] ->
       ~ better (opposite (o_side order)) p (t_price t)).
Proof.
  destruct (submit_ok e order Hpre) as (e' & rep & E & _ & _ & _ & Hb' & _ & Hcase).
  pose proof (pre_book _ _ Hpre) as Hb.
  exists e', rep. split; [done|]. destruct Hcase as [Hrej|(o & bud & v & v' & st & Hc)].
  { destruct Hrej as (_ & -> & _). split_and!; [set_solver | constructor | set_solver]. }
  pose proof (sc_run _ _ _ _ _ _ _ _ _ _ _ Hc) as Hrun.
  pose proof (sc_same _ _ _ _ _ _ _ _ _ _ _ Hc) as (S1 & S2 & S3 & S4 & S5 & _). cbn in S1, S2, S3, S4, S5.
  split_and!.
  - intros t Ht. pose proof (run_ok _ _ _ _ _ Hrun) as Hf. rewrite Forall_forall in Hf.
    destruct (Hf t Ht) as (_ & _ & _ & _ & _ & Hx & _ & q & mk & Hin & Hmk & Hid & Hu).
    cbn [start_view v_ladder] in Hin. apply (ladder_queue _ _ _ _ Hb) in Hin as [-> _].
    destruct (queue_order _ _ _ _ Hb Hmk) as (M1 & M2 & _ & _ & M3). exists mk.
    rewrite <-Hid. split_and!; try done. intros Hl Hnb. unfold crossable in Hx. rewrite S5, Hl, S4 in Hx.
    destruct (apply_budget_ok (book e) (stamped e order) Hb) as (r & Hr & HR); [apply stamped_ok, Hpre|].
    rewrite (sc_budget _ _ _ _ _ _ _ _ _ _ _ Hc) in Hr. injection Hr as <-.
    destruct HR as (_ & _ & _ & Hnbd & _). destruct (Hnbd Hnb) as [-> _]. by cbn in Hx.
  - pose proof (run_order _ _ _ _ _ Hrun) as Ho. by rewrite S4 in Ho.
  - intros t p Ht Hq. rewrite <-S4. apply (run_best _ _ _ _ _ Hrun t p (queue (book e') (opposite (o_side order)) p) Ht).
    by apply (sc_makers _ _ _ _ _ _ _ _ _ _ _ Hc).
Qed.

(** ** Time in force and the taker's own side *)


(** ** Fill or kill *)

Lemma reachable_xsum e order b : book_inv b -> o_side order = o_side e ->
  o_price order = o_price e -> o_type order = o_type e ->
  reachable_qty b e <= xsum order (ladder b (opposite (o_side order))).
Proof.
  intros Hb Hs Hp Ht. unfold reachable_qty, depth_sum, xsum. rewrite <-Hs, <-Hp. apply sumZ_le, Forall_forall.
  intros [p q] Hin. apply (ladder_queue _ _ _ _ Hb) in Hin as [-> _]. cbn [fst snd].
  assert (0 <= sumZ o_remaining (queue b (opposite (o_side order)) p)).
  { apply sumZ_nonneg. eapply Forall_impl; [apply (queue_positive b _ p Hb)|]. simpl. lia. }
  unfold crossable, reaches. destruct (o_type order), (o_side order); repeat case_if; lia.
Qed.

(** with self-trade prevention off (or an unattributed taker), a fill-or-kill
    order is all or nothing: it is filled completely exactly when the quantity
    within its limit suffices, and otherwise it is rejected, without a trade and
    without a change to the book. *)
Theorem fok_all_or_nothing (e : MatchingEngine) (order : Order) (Hpre : submit_pre e order)
    (Hfok : o_tif order = Fok) (Hstp : stp e = Allow \/ o_user order = 0) :
  exists e' rep, submit e order = Ret (e', rep) /\
    if o_quantity order <=? reachable_qty (book e) order
    then sr_status rep = Filled /\ sr_filled rep = o_quantity order /\
         sumZ t_quantity (sr_trades rep) = o_quantity order
    else sr_status rep = Rejected /\ sr_trades rep = [] /\ book e' = book e.
Proof.
  destruct (submit_ok e order Hpre) as (e' & rep & E & _ & _ & Hseq & Hb' & _ & Hcase).
  pose proof (pre_book _ _ Hpre) as Hb. pose proof (pre_order _ _ Hpre) as Hok.
  assert (apply_budget (book e) (stamped e order) = Ret (Some (stamped e order, U128_MAX))) as Hab.
  { unfold apply_budget. cbn. by rewrite Hfok. }
  assert (reachable_qty (book e) (stamped e order) = reachable_qty (book e) order) as Hre by done.
  exists e', rep. split; [done|]. destruct Hcase as [Hrej|(o & bud & v & v' & st & Hc)].
  - destruct Hrej as ([= H1 H2 H3 H4] & Hts & -> & [(Ht & _)|(o & bud & Hbd & _ & _ & Hlt)]); [congruence|].
    rewrite Hab in Hbd. injection Hbd as <- <-. rewrite Hre in Hlt. case_if; [lia|]. done.
  - rewrite (sc_budget _ _ _ _ _ _ _ _ _ _ _ Hc) in Hab. injection Hab as -> ->.
    destruct (crossed_filled _ _ _ _ _ _ _ _ _ _ _ Hok Hc) as (Hs & Hr & Hp).
    pose proof (sc_result _ _ _ _ _ _ _ _ _ _ _ Hc) as [= H1 H2 H3 H4].
    assert (stp_on (advanced e) (stamped e order) = false) as Hoff.
    { unfold stp_on. cbn. destruct Hstp as [-> | ->]; [done|]. by rewrite andb_false_r. }
    pose proof (sc_exit _ _ _ _ _ _ _ _ _ _ _ Hc) as Hex.
    pose proof (not_stopped _ _ _ _ _ Hoff Hex) as ->.
    pose proof (sc_fok _ _ _ _ _ _ _ _ _ _ _ Hc Hfok) as Henough.
    pose proof (xsum_steps _ _ _ _ Hoff (sc_steps _ _ _ _ _ _ _ _ _ _ _ Hc)) as Hx. cbn [start_view v_ladder v_rem] in Hx.
    pose proof (reachable_xsum (stamped e order) (stamped e order) (book e) Hb eq_refl eq_refl eq_refl) as Hge.
    change (o_side (stamped e order)) with (o_side order) in Hge.
    pose proof Hok as (_ & _ & _ & _ & Oq & _). unfold is_u64 in Oq.
    destruct (exit_exhausted (advanced e) (stamped e order) (start_view e order [] U128_MAX))
      with (v := v) (v' := v') (ts := sr_trades rep) as [-> Hd]; try done.
    { by apply (start_wf e (stamped e order)). }
    { apply (sc_run0 _ _ _ _ _ _ _ _ _ _ _ Hc). }
    assert (v_rem v = 0) as Hz.
    { destruct Hd as [|Hd]; [done|]. rewrite (xsum_none _ _ Hd) in Hx. lia. }
    rewrite Hre in Henough. case_if; [|lia]. rewrite H2, H3, Hs, Hz, Z.sub_0_r.
    unfold status_of. rewrite Z.eqb_refl. done.
Qed.

(** ** The book stays uncrossed *)
Definition uncrossed (b : OrderBook) : Prop :=
  forall bid ask, queue b Buy bid <> [] -> queue b Sell ask <> [] -> bid < ask.

Lemma uncrossed_sides b sd : uncrossed b <->
  forall p p', queue b sd p <> [] -> queue b (opposite sd) p' <> [] ->
    match sd with Buy => p < p' | Sell => p' < p end.
Proof. unfold uncrossed. destruct sd; simpl; split; intros H p p'; auto. Qed.

(** C36: matching never leaves a crossed book: if every bid was below every ask
    before [submit], so it is afterwards, whatever the order, the strategy and
    the self-trade policy. *)
Theorem submit_uncrossed (e : MatchingEngine) (order : Order) (Hpre : submit_pre e order)
    (Hun : uncrossed (book e)) :
  exists e' rep, submit e order = Ret (e', rep) /\ uncrossed (book e').
Proof.
  destruct (submit_ok e order Hpre) as (e' & rep & E & _ & _ & Hseq & Hb' & _ & Hcase).
  pose proof (pre_book _ _ Hpre) as Hb. pose proof (pre_order _ _ Hpre) as Hok.
  exists e', rep. split; [done|]. destruct Hcase as [(_ & _ & -> & _)|(o & bud & v & v' & st & Hc)]; [done|].
  rewrite (uncrossed_sides (book e) (o_side order)) in Hun.
  apply (uncrossed_sides (book e') (o_side order)). intros p p' Hp Hp'.
  pose proof (sc_run _ _ _ _ _ _ _ _ _ _ _ Hc) as Hrun.
  pose proof (sc_same _ _ _ _ _ _ _ _ _ _ _ Hc) as (S1 & S2 & S3 & S4 & S5 & _). cbn in S1, S2, S3, S4, S5.
  assert ((p', queue (book e') (opposite (o_side order)) p') ∈ v_ladder v') as Hin
    by (by apply (sc_makers _ _ _ _ _ _ _ _ _ _ _ Hc)).
  assert (queue (book e) (opposite (o_side order)) p' <> []) as Hold.
  { destruct (run_price _ _ _ _ _ _ _ Hrun Hin) as (q0 & Hq0).
    cbn [start_view v_ladder] in Hq0. by apply (ladder_queue _ _ _ _ Hb) in Hq0 as [-> ?]. }
  rewrite (sc_own _ _ _ _ _ _ _ _ _ _ _ Hc) in Hp.
  destruct (rests o (v_rem v') st && (p =? o_price o)) eqn:Hrest; [|rewrite app_nil_r in Hp; by apply Hun].
  apply andb_true_iff in Hrest as [Hrest ->%Z.eqb_eq].
  unfold rests in Hrest. apply andb_true_iff in Hrest as [Hx Hty]. apply andb_true_iff in Hx as [Hst Hrem].
  apply negb_true_iff in Hst as ->. apply Z.ltb_lt in Hrem.
  destruct (o_type o) eqn:Ho; [|done]. destruct (o_tif o) eqn:Ht; try done.
  destruct (apply_budget_ok (book e) (stamped e order) Hb) as (r & Hr' & HR); [apply stamped_ok, Hpre|].
  rewrite (sc_budget _ _ _ _ _ _ _ _ _ _ _ Hc) in Hr'. injection Hr' as <-.
  destruct HR as (_ & _ & _ & Hnbd & Hbt & _).
  destruct (is_budget (o_tif (stamped e order))) eqn:Hbg; [by specialize (Hbt eq_refl)|].
  destruct (Hnbd eq_refl) as [-> ->].
  destruct (exit_exhausted (advanced e) (stamped e order) (start_view e order [] U128_MAX))
    with (v := v) (v' := v') (ts := sr_trades rep) as [-> Hd]; try done.
  { by apply (start_wf e (stamped e order)). }
  { cbn. pose proof Hok as (_ & _ & _ & _ & Oq & _). unfold is_u64 in Oq. lia. }
  { apply (sc_run0 _ _ _ _ _ _ _ _ _ _ _ Hc). }
  { apply (sc_exit _ _ _ _ _ _ _ _ _ _ _ Hc). }
  destruct Hd as [Hd|Hd]; [lia|]. specialize (Hd _ _ Hin). unfold crossable in Hd. rewrite Ho in Hd.
  change (o_side (stamped e order)) with (o_side order) in Hd.
  destruct (o_side order); apply Z.leb_gt in Hd; done.
Qed.

(** ** Strict price-time priority *)

(** C3: with the price-time strategy and no self-trade prevention (it is off, or the
    order has no user), on a well-formed book with room for the order, matching an
    order without a budget (good-till-cancelled, immediate-or-cancel or
    fill-or-kill) is the textbook algorithm: walk the eligible resting orders of the
    opposite side, best price first and oldest first within a price, filling each as
    far as possible until the taker is exhausted; a fill-or-kill order that the
    opposite side cannot fill within its limit trades nothing.  The level index, the
    tombstones, the capped level views and the per-level loop do not show in the
    trades. *)
Theorem submit_price_time (e : MatchingEngine) (order : Order) (Hpre : submit_pre e order)
    (Hstrat : strategy e = PriceTimePriority.strategy) (Hplain : is_budget (o_tif order) = false)
    (Hstp : stp e = Allow \/ o_user order = 0) :
  exists e' rep, submit e order = Ret (e', rep) /\
    sr_trades rep =
      if unfillable (book e) order then []
      else trade_at (advanced e) (stamped e order) <$>
        match_fifo (o_quantity order) (eligible order (ladder (book e) (opposite (o_side order)))).
Proof.
  destruct (submit_ok e order Hpre) as (e' & rep & E & Hpost). pose proof Hpost as (_ & _ & Hseq & Hb' & _ & Hcase).
  pose proof (pre_book _ _ Hpre) as Hb. pose proof (pre_order _ _ Hpre) as Hok.
  pose proof (plain_budget e order Hplain) as Hab. pose proof (submit_refuses _ _ _ _ _ _ _ _ _ Hb Hok Hpost) as Href.
  exists e', rep. split; [done|]. destruct Hcase as [Hrej|(o & bud & v & v' & st & Hc)].
  { destruct Hrej as ([= _ Hst _ _] & -> & _). by rewrite (proj1 Href Hst). }
  assert (unfillable (book e) order = false) as ->.
  { destruct (unfillable (book e) order); [|done]. pose proof (sc_result _ _ _ _ _ _ _ _ _ _ _ Hc) as [= _ H2 _ _].
    rewrite (proj2 Href eq_refl) in H2. revert H2. unfold status_of. by repeat case_if. }
  rewrite (sc_budget _ _ _ _ _ _ _ _ _ _ _ Hc) in Hab. injection Hab as -> ->.
  assert (stp_on (advanced e) (stamped e order) = false) as Hoff.
  { unfold stp_on. cbn. destruct Hstp as [-> | ->]; [done|]. by rewrite andb_false_r. }
  pose proof Hok as (_ & _ & _ & _ & Oq & _). unfold is_u64 in Oq.
  assert (ladder_wf (stamped e order) (v_ladder (start_view e order [] U128_MAX))) as Hwf
    by (by apply (start_wf e (stamped e order))).
  pose proof (not_stopped _ _ _ _ _ Hoff (sc_exit _ _ _ _ _ _ _ _ _ _ _ Hc)) as ->.
  destruct (exit_exhausted (advanced e) (stamped e order) _ Hwf Oq v v' (sr_trades rep)) as [-> Hd];
    [apply (sc_run0 _ _ _ _ _ _ _ _ _ _ _ Hc) | done | apply (sc_exit _ _ _ _ _ _ _ _ _ _ _ Hc) |].
  destruct (fifo_steps (advanced e) (stamped e order) (start_view e order [] U128_MAX)) with (v := v) as (Hf & _);
    try done.
  - intros p q x Hin Hx. cbn [start_view v_ladder] in Hin. apply (ladder_queue _ _ _ _ Hb) in Hin as [-> _].
    by apply (queue_order _ _ _ _ Hb Hx).
  - apply Forall_forall. intros [p q] Hin. cbn [start_view v_ladder] in Hin.
    apply (ladder_queue _ _ _ _ Hb) in Hin as [-> _]. cbn [snd].
    destruct (queue_total (book e) (opposite (o_side order)) p Hb) as (_ & _ & H1 & H2). lia.
  - apply (sc_steps _ _ _ _ _ _ _ _ _ _ _ Hc).
  - cbn [start_view v_trades v_rem v_ladder app] in Hf.
    rewrite (run_trades _ _ _ _ _ (sc_run0 _ _ _ _ _ _ _ _ _ _ _ Hc)) in Hf. cbn [start_view v_trades app] in Hf.
    change (eligible order) with (eligible (stamped e order)). rewrite <-Hf. clear Hf.
    assert (match_fifo (v_rem v) (eligible (stamped e order) (v_ladder v)) = []) as ->; [|by rewrite app_nil_r].
    destruct Hd as [-> | Hd]; [apply match_fifo_zero|].
    unfold eligible. assert (filter (fun a => crossable (stamped e order) a.1 = true) (v_ladder v) = []) as ->; [|done].
    induction (v_ladder v) as [|[p q] l IH]; [done|]. rewrite filter_cons, decide_False.
    + apply IH. intros p' q' Hin. apply (Hd p' q'). set_solver.
    + cbn [fst]. by rewrite (Hd p q) by set_solver.
Qed.

(** ** Budget orders *)

(** The loop does not end early once the walk of [cost_to_fill] found enough
    quantity within the budget. *)
Lemma budget_exit e o v0 v v' ts :
  run e o v0 v ts -> ladder_wf o (v_ladder v0) -> cexit e o v v' false -> o_side o = Buy -> o_price o = U64_MAX ->
  0 < v_budget v0 -> (ladder_cost (v_rem v) (v_ladder v)).1 <= 0 ->
  (ladder_cost (v_rem v) (v_ladder v)).2 <= v_budget v -> v_rem v' = 0.
Proof.
  intros Hrun Hwf0 Hex Hs Hp Hb0 Hleft Hcost. pose proof (run_wf _ _ _ _ _ Hrun) as Hwf.
  remember false as stopped eqn:Hst.
  destruct Hex as [v H|v H H0|v px q rest H H0 H1|v px q rest H H0 H1 H2|v|]; try done.
  - rewrite H0 in Hleft. cbn in Hleft. lia.
  - exfalso. rewrite H0 in Hwf. destruct Hwf as [_ Hw]. apply Forall_cons in Hw as [(_ & _ & Hpx) _].
    unfold crossable in H1. rewrite Hs, Hp in H1. unfold is_u64 in Hpx. cbn in Hpx.
    destruct (o_type o); [|done]. apply Z.leb_gt in H1. lia.
  - exfalso. rewrite H0 in Hwf, Hcost. pose proof (wf_sums _ _ Hwf) as Hsums. destruct Hwf as [_ Hw].
    apply Forall_cons in Hw as [(Hq & Hne & Hpx) Hw]. apply Forall_cons in Hsums as [_ Hsums]. cbn [fst snd] in *.
    pose proof (positive_sum q Hq Hne) as Hqs. unfold is_u64 in Hpx. cbn [ladder_cost snd] in Hcost.
    assert (0 <= (if 0 <? v_rem v - Z.min (v_rem v) (sumZ o_remaining q)
                  then ladder_cost (v_rem v - Z.min (v_rem v) (sumZ o_remaining q)) rest
                  else (v_rem v - Z.min (v_rem v) (sumZ o_remaining q), 0)).2) as Hrest.
    { case_if; [|done]. apply ladder_cost_bound; [lia|]. rewrite Forall_forall in Hw, Hsums |- *.
      intros a Ha. split; [by apply Hw|by apply Hsums]. }
    assert (1 <= Z.min (v_rem v) (sumZ o_remaining q)) as Ht by lia.
    pose proof (run_budget _ _ _ _ _ Hrun) as Hbn. unfold affordable in H2.
    assert (v_budget v < Z.max px 1) as Hlt.
    { destruct (Z.lt_ge_cases (v_budget v) (Z.max px 1)) as [|Hge]; [done|].
      assert (1 <= v_budget v / Z.max px 1) as Hdiv by (apply Z.div_le_lower_bound; lia).
      revert H2 Hdiv. generalize (v_budget v / Z.max px 1). lia. }
    destruct (decide (1 <= px)) as [Hp1|Hp0]; [nia|].
    assert (sumZ (fun t => t_price t * t_quantity t) ts = 0) as Hz.
    { apply sumZ_zero. intros t Ht'. pose proof (run_best _ _ _ _ _ Hrun t px q Ht') as Hbest.
      rewrite H0, Hs in Hbest. cbn in Hbest. specialize (Hbest ltac:(set_solver)).
      pose proof (run_ok _ _ _ _ _ Hrun) as Hok. rewrite Forall_forall in Hok.
      destruct (trade_price_u64 e o v0 Hwf0 t (Hok t Ht')) as [Htp _]. unfold is_u64 in Htp.
      assert (t_price t = 0) as -> by (clear - Hbest Htp Hp0; lia). done. }
    pose proof (run_cost _ _ _ _ _ Hrun) as Hc. lia.
Qed.

(** a buy order with a total notional budget never spends more than the
    budget, never rests, and, as a fill-or-kill order with a non-zero budget and
    self-trade prevention off, is filled completely or rejected without a trade. *)
Theorem budget_respected (e : MatchingEngine) (order : Order) (Hpre : submit_pre e order)
    (Hbudget : is_budget (o_tif order) = true) (Hbuy : o_side order = Buy) :
  exists e' rep, submit e order = Ret (e', rep) /\
    sumZ (fun t => t_price t * t_quantity t) (sr_trades rep) <= o_price order /\
    sr_resting rep = false /\
    (o_tif order = FokBudget -> stp e = Allow \/ o_user order = 0 -> 0 < o_price order ->
     (sr_status rep = Filled /\ sr_filled rep = o_quantity order) \/
     (sr_status rep = Rejected /\ sr_trades rep = [])).
Proof.
  destruct (submit_ok e order Hpre) as (e' & rep & E & _ & _ & Hseq & Hb' & _ & Hcase).
  pose proof (pre_book _ _ Hpre) as Hb. pose proof (pre_order _ _ Hpre) as Hok.
  pose proof Hok as (_ & _ & _ & Op & Oq & _). unfold is_u64 in Op, Oq.
  exists e', rep. split; [done|]. destruct Hcase as [Hrej|(o & bud & v & v' & st & Hc)].
  { destruct Hrej as ([= H1 H2 H3 H4] & -> & _ & _). rewrite sumZ_nil, H2, H4. split_and!; auto; lia. }
  destruct (apply_budget_ok (book e) (stamped e order) Hb) as (r & Hr & HR); [apply stamped_ok, Hpre|].
  rewrite (sc_budget _ _ _ _ _ _ _ _ _ _ _ Hc) in Hr. injection Hr as <-.
  destruct HR as (HS & _ & _ & _ & Hng & Hbb & _ & Hfok).
  destruct (Hbb Hbudget Hbuy) as (-> & Hpx & Htif). change (o_price (stamped e order)) with (o_price order) in *.
  pose proof HS as (S1 & _ & S3 & S4 & S5 & _). cbn in S1, S3, S4, S5.
  pose proof (sc_result _ _ _ _ _ _ _ _ _ _ _ Hc) as [= H1 H2 H3 H4].
  pose proof (sc_run _ _ _ _ _ _ _ _ _ _ _ Hc) as Hrun.
  split_and!.
  - pose proof (run_cost _ _ _ _ _ Hrun) as Hcost. pose proof (run_budget _ _ _ _ _ Hrun). cbn in Hcost. lia.
  - rewrite H4. unfold rests. rewrite Htif. destruct (o_type o); by rewrite andb_false_r.
  - intros Hf Hstp Hpos. left. rewrite H2, H3.
    assert (v_rem v' = 0) as ->; [|unfold status_of; by rewrite Z.sub_0_r, Z.eqb_refl].
    assert (stp_on (advanced e) o = false) as Hoff.
    { unfold stp_on. cbn. rewrite S3. destruct Hstp as [-> | ->]; [done|]. by rewrite andb_false_r. }
    pose proof (sc_exit _ _ _ _ _ _ _ _ _ _ _ Hc) as Hex.
    pose proof (not_stopped _ _ _ _ _ Hoff Hex) as ->.
    set (v0 := start_view e order [] (o_price order)) in *.
    assert (ladder_wf o (v_ladder v0)) as Hwf.
    { unfold v0. cbn. rewrite <-S4. by apply ladder_book_wf. }
    destruct (cost_steps_inv (advanced e) o v0 v Hoff Hwf) as [C1 C2]; [cbn; lia | cbn; lia | apply (sc_steps _ _ _ _ _ _ _ _ _ _ _ Hc) |].
    destruct (Hfok Hf Hbuy) as [F1 F2]. cbn [v0 start_view v_rem v_ladder v_budget] in C1, C2.
    rewrite Hbuy in C1, C2. cbn [opposite] in C1, C2.
    change (o_quantity (stamped e order)) with (o_quantity order) in F1, F2.
    change (o_price (stamped e order)) with (o_price order) in F2.
    pose proof (sc_run0 _ _ _ _ _ _ _ _ _ _ _ Hc) as Hrun0.
    apply (budget_exit (advanced e) o v0 v v' (sr_trades rep)); try done;
      [by rewrite S4 | by rewrite C1 | clear - C2 F2; lia].
Qed.

(** ** Self-trade prevention *)

(** C38: with self-trade prevention on, an attributed taker never trades with
    itself; every maker reported as cancelled was a resting order of the same
    user on the opposite side and no longer rests; and the cancel-taker policy
    cancels no maker. *)
Theorem stp_no_self_trade (e : MatchingEngine) (order : Order) (Hpre : submit_pre e order)
    (Hstp : stp e <> Allow) (Huser : o_user order <> 0) :
  exists e' rep, submit e order = Ret (e', rep) /\
    Forall (fun t => t_taker_user t = o_user order /\ t_maker_user t <> o_user order) (sr_trades rep) /\
    (forall id, id ∈ stp_cancelled e' ->
       (exists maker, resting (book e) id = Some maker /\ o_user maker = o_user order /\
          o_side maker = opposite (o_side order)) /\ resting (book e') id = None) /\
    (stp e = CancelTaker -> stp_cancelled e' = []).
Proof.
  destruct (submit_ok e order Hpre) as (e' & rep & E & Hpost). pose proof Hpost as (_ & _ & Hseq & Hb' & _ & Hcase).
  exists e', rep. split; [done|]. split; [|split].
  - destruct Hcase as [(_ & -> & _)|(o & bud & v & v' & st & Hc)]; [constructor|].
    destruct (crossed_user _ _ _ _ _ _ _ _ _ _ Hc) as [Hu _].
    eapply Forall_impl; [apply (run_ok _ _ _ _ _ (sc_run _ _ _ _ _ _ _ _ _ _ _ Hc))|]. intros t (_ & _ & Ht & _ & _ & _ & Hs & _).
    rewrite Hu in *. split; [done|]. apply Hs. unfold stp_on. rewrite Hu. cbn. rewrite bool_decide_false by done.
    by apply Z.eqb_neq in Huser as ->.
  - intros id Hin. apply (submit_pulled e e' order (sr_trades rep) _ Hpre Hpost Hstp Huser) in Hin as (mk & M1 & M2 & M3 & M4).
    split; [by exists mk|done].
  - intros Hp. destruct Hcase as [(_ & _ & -> & _)|(o & bud & v & v' & st & Hc)]; [done|].
    rewrite (sc_stp _ _ _ _ _ _ _ _ _ _ _ Hc).
    by rewrite (taker_policy_pulls_nothing (advanced e) _ _ _ _ _ Hp (sc_steps _ _ _ _ _ _ _ _ _ _ _ Hc)
                  (sc_exit _ _ _ _ _ _ _ _ _ _ _ Hc)).
Qed.

(** ** Time priority *)

(** Every queue is in arrival order, stamps are at most [seq] and identify the
    orders. *)
Record time_ok (e : MatchingEngine) : Prop := {
  time_sorted : forall sd p, StronglySorted Z.lt (o_timestamp <$> queue (book e) sd p);
  time_seq : forall sd p o, o ∈ queue (book e) sd p -> o_timestamp o <= seq e;
  time_unique : forall sd p o sd' p' o', o ∈ queue (book e) sd p -> o' ∈ queue (book e) sd' p' ->
    o_timestamp o = o_timestamp o' -> o = o'
}.

Lemma sublist_sorted {A} (R : relation A) (l1 l2 : list A) :
  sublist l1 l2 -> StronglySorted R l2 -> StronglySorted R l1.
Proof.
  induction 1 as [|x l1 l2 Hs IH|x l1 l2 Hs IH]; intros H; [done| |].
  - apply StronglySorted_inv in H as [H Hf]. constructor; [by apply IH|].
    rewrite Forall_forall in Hf |- *. intros y Hy. apply Hf. by eapply elem_of_sublist.
  - apply StronglySorted_inv in H as [H _]. by apply IH.
Qed.

(** Every order of the book after [submit] is the incoming one or stems from an
    order that rested before. *)
Lemma crossed_origin e e' order o trades ts budget v v' stopped res sd p x :
  book_inv (book e) -> book_inv (book e') ->
  submit_crossed e e' order o trades ts budget v v' stopped res -> x ∈ queue (book e') sd p ->
  (o_id x = o_id order /\ o_timestamp x = wrap64 (seq e + 1)) \/
  exists x0, x0 ∈ queue (book e) sd p /\ o_id x = o_id x0 /\ o_timestamp x = o_timestamp x0.
Proof.
  intros Hb Hb' Hc Hx.
  pose proof (sc_same _ _ _ _ _ _ _ _ _ _ _ Hc) as (S1 & _ & _ & S4 & _ & _ & _ & S8). cbn in S1, S4, S8.
  destruct (side_cases (o_side order) sd) as [-> | ->].
  - rewrite (sc_own _ _ _ _ _ _ _ _ _ _ _ Hc) in Hx. apply elem_of_app in Hx as [Hx|Hx]; [eauto|].
    revert Hx. case_if; [|set_solver]. intros ->%list_elem_of_singleton. left. done.
  - right. destruct (run_from _ _ _ _ _ (sc_run _ _ _ _ _ _ _ _ _ _ _ Hc) p
      (queue (book e') (opposite (o_side order)) p) x) as (q0 & x0 & I1 & I2 & I3 & _); [|done|].
    + apply (sc_makers _ _ _ _ _ _ _ _ _ _ _ Hc). split; [done|]. intros Hq. rewrite Hq in Hx. set_solver.
    + cbn [start_view v_ladder] in I1. apply (ladder_queue _ _ _ _ Hb) in I1 as [-> _].
      exists x0. rewrite I3. done.
Qed.

(** matching keeps time priority: if every queue was in arrival order with
    stamps that identify the orders, it still is after [submit], and the incoming
    order, if it rests, is the youngest. *)
Theorem submit_keeps_time_priority (e : MatchingEngine) (order : Order) (Hpre : submit_pre e order)
    (Htime : time_ok e) : exists e' rep, submit e order = Ret (e', rep) /\ time_ok e'.
Proof.
  destruct (submit_ok e order Hpre) as (e' & rep & E & _ & _ & Hseq & Hb' & _ & Hcase).
  pose proof (pre_book _ _ Hpre) as Hb. pose proof (pre_seq _ _ Hpre) as Hsq.
  assert (wrap64 (seq e + 1) = seq e + 1) as Hw by (apply wrap64_small; unfold_width; lia).
  exists e', rep. split; [done|]. destruct Htime as [T1 T2 T3].
  destruct Hcase as [(_ & _ & -> & _)|(o & bud & v & v' & st & Hc)].
  { split; [done| |done]. intros sd p x Hx. cbn. specialize (T2 sd p x Hx). lia. }
  pose proof (fun sd p x => crossed_origin _ _ _ _ _ _ _ _ _ _ _ sd p x Hb Hb' Hc) as Hor.
  split.
  - intros sd p. destruct (side_cases (o_side order) sd) as [-> | ->].
    + rewrite (sc_own _ _ _ _ _ _ _ _ _ _ _ Hc), fmap_app. case_if; [|by rewrite app_nil_r].
      apply StronglySorted_app_2; [|done|repeat constructor].
      intros a b (x & -> & Hx)%list_elem_of_fmap ->%list_elem_of_singleton.
      pose proof (sc_same _ _ _ _ _ _ _ _ _ _ _ Hc) as (_ & _ & _ & _ & _ & _ & _ & S8). cbn in S8 |- *.
      specialize (T2 _ _ _ Hx). lia.
    + destruct (decide (queue (book e') (opposite (o_side order)) p = [])) as [->|Hne]; [constructor|].
      destruct (times_steps _ _ _ _ _ _ (sc_steps _ _ _ _ _ _ _ _ _ _ _ Hc) (sc_exit _ _ _ _ _ _ _ _ _ _ _ Hc)
        p (queue (book e') (opposite (o_side order)) p)) as (q0 & H1 & H2).
      { by apply (sc_makers _ _ _ _ _ _ _ _ _ _ _ Hc). }
      cbn [start_view v_ladder] in H1. apply (ladder_queue _ _ _ _ Hb) in H1 as [-> _].
      eapply sublist_sorted; [exact H2|apply T1].
  - intros sd p x Hx. destruct (Hor sd p x Hx) as [[_ ->]|(x0 & H1 & _ & ->)]; [lia|].
    specialize (T2 _ _ _ H1). lia.
  - intros sd p x sd' p' y Hx Hy Hxy.
    assert (o_id x = o_id y) as Hid.
    { destruct (Hor _ _ _ Hx) as [[I1 I2]|(x0 & I1 & I2 & I3)], (Hor _ _ _ Hy) as [[J1 J2]|(y0 & J1 & J2 & J3)].
      - congruence.
      - specialize (T2 _ _ _ J1). lia.
      - specialize (T2 _ _ _ I1). lia.
      - rewrite I2, J2. f_equal. eapply T3; [exact I1 | exact J1 | congruence]. }
    destruct (queue_order _ _ _ _ Hb' Hx) as (_ & _ & _ & _ & R1).
    destruct (queue_order _ _ _ _ Hb' Hy) as (_ & _ & _ & _ & R2). congruence.
Qed.

(** forced liquidation cancels exactly the user's orders: whatever the
    iteration order of the id index, the returned ids are the user's resting
    orders and every queue keeps the other orders in order. *)
Theorem cancel_all_exact (e : MatchingEngine) (entries : list (Z * nat)) (user : UserId)
    (Hb : book_inv (book e)) (Horder : hash_order (book e) entries) :
  exists e' ids, cancel_all_for_user entries e user = Ret (e', ids) /\ book_inv (book e') /\ NoDup ids /\
    (forall id, id ∈ ids <-> exists o, resting (book e) id = Some o /\ o_user o = user) /\
    forall sd p, queue (book e') sd p = filter (fun o => o_user o <> user) (queue (book e) sd p).
Proof.
  destruct (cancel_all_ok e entries user Hb Horder) as (b' & ids & E & Hb' & _ & Hnd & Hin & Hq).
  exists (with_book e b'), ids. done.
Qed.

(** ** Export and restore *)

Lemma sorted_by_time (l : list Order) :
  (forall o o', o ∈ l -> o' ∈ l -> o_timestamp o = o_timestamp o' -> o = o') -> NoDup l ->
  StronglySorted by_timestamp l -> StronglySorted (fun a b => o_timestamp a < o_timestamp b) l.
Proof.
  intros Hu Hnd Hs. induction Hs as [|o l Hs IH Hf]; constructor.
  - apply IH; [intros; apply Hu; set_solver|]. by apply NoDup_cons in Hnd as [_ ?].
  - apply NoDup_cons in Hnd as [Hni _]. rewrite Forall_forall in Hf |- *. intros o' Ho'.
    specialize (Hf o' Ho'). unfold by_timestamp in Hf.
    assert (o_timestamp o <> o_timestamp o'); [|lia]. intros He. apply Hni.
    rewrite (Hu o o'); [done | set_solver | set_solver | done].
Qed.

Lemma time_sorted_queue (q : list Order) : StronglySorted Z.lt (o_timestamp <$> q) ->
  StronglySorted (fun a b => o_timestamp a < o_timestamp b) q.
Proof.
  induction q as [|o q IH]; [constructor|]. rewrite fmap_cons. intros [Hs Hf]%StronglySorted_inv.
  constructor; [by apply IH|]. rewrite Forall_fmap in Hf. exact Hf.
Qed.

(** The exported list is the strictly time-ordered list of the resting orders. *)
Lemma export_spec e entries : book_inv (book e) -> time_ok e -> hash_order (book e) entries ->
  exists os, export_orders entries e = Ret os /\
    NoDup (o_id <$> os) /\ Z.of_nat (length os) <= used (book e) /\
    (forall o, o ∈ os <-> o ∈ queue (book e) (o_side o) (o_price o)) /\
    StronglySorted (fun a b => o_timestamp a < o_timestamp b) os.
Proof.
  intros Hb Htime Hes. destruct (iter_orders_ok (book e) entries Hb Hes) as (os & E & Hnd & Hl & _ & Hin).
  exists (merge_sort by_timestamp os). unfold export_orders. rewrite E. cbn [obind].
  assert (forall o, o ∈ merge_sort by_timestamp os <-> o ∈ queue (book e) (o_side o) (o_price o)) as Hin'
    by (intros o; rewrite merge_sort_Permutation; apply Hin).
  assert (NoDup (o_id <$> merge_sort by_timestamp os)) as Hnd'.
  { rewrite merge_sort_Permutation. done. }
  split_and!; try done; [by rewrite merge_sort_Permutation|]. apply sorted_by_time.
  - intros o o' Ho Ho' Heq. apply Hin' in Ho, Ho'. by eapply (time_unique _ Htime).
  - by eapply NoDup_fmap_1.
  - apply StronglySorted_merge_sort; [intros a b c; unfold by_timestamp; lia | intros a b; unfold by_timestamp; lia].
Qed.

(** It depends on the queues only. *)
Lemma export_unique e entries e' entries' os : book_inv (book e) -> time_ok e -> hash_order (book e) entries ->
  book_inv (book e') -> time_ok e' -> hash_order (book e') entries' ->
  (forall sd p, queue (book e') sd p = queue (book e) sd p) ->
  export_orders entries e = Ret os -> export_orders entries' e' = Ret os.
Proof.
  intros Hb Ht Ho Hb' Ht' Ho' Hq E. destruct (export_spec e entries Hb Ht Ho) as (os1 & E1 & _ & _ & Hin & Hs).
  destruct (export_spec e' entries' Hb' Ht' Ho') as (os2 & E2 & _ & _ & Hin' & Hs').
  rewrite E1 in E. injection E as <-. rewrite E2. f_equal.
  apply (sorted_unique (fun a b => o_timestamp a < o_timestamp b)); [lia | done | done |].
  intros o. by rewrite Hin, Hin', Hq.
Qed.

(** Restoring an exported list reproduces the queues and the counter. *)
Lemma restore_ok e entries s pol os : book_inv (book e) -> time_ok e -> hash_order (book e) entries ->
  export_orders entries e = Ret os ->
  exists e', restore (with_stp (new s) pol) (seq e) os = Ret e' /\ book_inv (book e') /\ seq e' = seq e /\
    strategy e' = s /\ stp e' = pol /\ forall sd p, queue (book e') sd p = queue (book e) sd p.
Proof.
  intros Hb Htime Horder E. destruct (export_spec e entries Hb Htime Horder) as (os' & E0 & Hnd & Hl & Hin & Hsorted).
  rewrite E in E0. injection E0 as <-.
  assert (forall sd p, filter (at_level sd p) os = queue (book e) sd p) as Hlevel.
  { intros sd p. apply (sorted_unique (fun a b => o_timestamp a < o_timestamp b)); [lia | | |].
    - eapply sublist_sorted; [apply sublist_filter|done].
    - apply time_sorted_queue, Htime.
    - intros o. rewrite list_elem_of_filter, Hin. split; [by intros [[<- <-] ?]|].
      intros Ho. destruct (queue_order _ _ _ _ Hb Ho) as (<- & <- & _). done. }
  assert (Z.of_nat (length os) <= U32_MAX) as Hlen.
  { pose proof (queue_total (book e) Buy 0 Hb). lia. }
  destruct (insert_all os OrderBook.new new_inv) as (b' & E' & Hb' & Hq & _).
  - apply Forall_forall. intros o Ho. apply Hin in Ho. by destruct (queue_order _ _ _ _ Hb Ho) as (_ & _ & ? & ? & _).
  - done.
  - intros o _. done.
  - intros sd p. rewrite Hlevel, queue_new. apply (queue_total (book e) sd p Hb).
  - change (used OrderBook.new) with 0. lia.
  - eexists. split; [unfold restore; cbn [book new with_stp]; rewrite E'; reflexivity|].
    split_and!; try done. intros sd p. cbn [book]. by rewrite Hq, Hlevel, queue_new.
Qed.

(** exporting the resting orders by time stamp and restoring them into a
    fresh engine reproduces every queue, order by order, and the sequence
    counter; the exported list does not depend on the iteration order of the id
    index. *)
Theorem export_restore (e : MatchingEngine) (entries : list (Z * nat)) (s : MatchingStrategy)
    (Hb : book_inv (book e)) (Htime : time_ok e) (Horder : hash_order (book e) entries) :
  exists os e', export_orders entries e = Ret os /\ restore (with_stp (new s) (stp e)) (seq e) os = Ret e' /\
    book_inv (book e') /\ seq e' = seq e /\
    (forall sd p, queue (book e') sd p = queue (book e) sd p) /\
    (forall entries', hash_order (book e) entries' -> export_orders entries' e = Ret os).
Proof.
  destruct (export_spec e entries Hb Htime Horder) as (os & E & _).
  destruct (restore_ok e entries s (stp e) os Hb Htime Horder E) as (e' & E' & Hb' & Hs & _ & _ & Hq).
  exists os, e'. split_and!; try done. intros es Hes. by apply (export_unique e entries e es).
Qed.

(** ** Amendment *)

(** amending a resting order: reducing its quantity at the same price keeps
    its place in the queue (to zero it is cancelled), any other change cancels it
    and submits it again, as a GTC order with the new price and quantity, behind
    the orders already there; an unknown id changes nothing. *)
Theorem modify_semantics (e : MatchingEngine) (id : OrderId) (new_price : Price) (new_qty : Qty)
    (Hb : book_inv (book e)) (Hqty : is_u64 new_qty) :
  match resting (book e) id with
  | None => modify e id new_price new_qty = Ret (e, MNotFound)
  | Some o =>
      if (new_price =? o_price o) && (new_qty <=? o_remaining o) then
        exists b', book_inv b' /\
          modify e id new_price new_qty =
            Ret (with_book e b', if new_qty =? 0 then MCancelled id else MReduced id new_qty) /\
          edited (book e) b' (o_side o) (o_price o) (q_set id new_qty)
      else
        exists b1, book_inv b1 /\ resting b1 id = None /\
          edited (book e) b1 (o_side o) (o_price o) (q_set id 0) /\
          modify e id new_price new_qty =
            (let! s := submit (with_book e b1)
               (Order.with_tif (Order.set_remaining (Order.set_quantity (Order.set_price o new_price) new_qty)
                  new_qty) Gtc) in
             Ret (s.1, MRequoted s.2))
  end.
Proof.
  pose proof (modify_ok e id new_price new_qty Hb Hqty) as H.
  destruct (resting (book e) id) as [o|]; [|done]. destruct ((new_price =? o_price o) && (new_qty <=? o_remaining o)).
  - destruct H as (b' & ? & _ & ? & ?). by exists b'.
  - destruct H as (b1 & ? & _ & ? & ? & ?). by exists b1.
Qed.

(** ** Examples: a small book on which the hypotheses hold *)
Definition example_engine : MatchingEngine := mkEngine example_book PriceTimePriority.strategy 4 Allow [].

Definition example_taker : Order := Order.by_user (Order.limit 9 Buy 101 10) 7.

Ltac prove_pre :=
  split; [apply _ | apply example_book_ok | unfold order_ok; unfold_width; cbn; lia | cbn; lia
         | vm_compute; reflexivity | vm_compute; discriminate | vm_compute; discriminate
         | vm_compute; reflexivity].

Lemma example_pre : submit_pre example_engine example_taker.
Proof. prove_pre. Qed.

Lemma submit_conserves_witness :
  exists e' rep, submit example_engine example_taker = Ret (e', rep) /\
    sumZ t_quantity (sr_trades rep) = sr_filled rep /\ sr_filled rep <= 10.
Proof.
  destruct (submit_conserves example_engine example_taker example_pre)
    as (e' & rep & H & _ & H1 & _ & H2 & _).
  exists e', rep. split; [exact H | split; [exact H1 | exact (proj2 H2)]].
Defined.

Lemma submit_best_price_witness :
  exists e' rep, submit example_engine example_taker = Ret (e', rep) /\
    StronglySorted (fun t t' => ~ better Sell (t_price t') (t_price t)) (sr_trades rep).
Proof.
  destruct (submit_best_price example_engine example_taker example_pre) as (e' & rep & H & _ & H1 & _).
  exists e', rep. split; [exact H | exact H1].
Defined.




Definition example_fok : Order := Order.with_tif example_taker Fok.

Lemma example_fok_pre : submit_pre example_engine example_fok.
Proof. prove_pre. Qed.

Lemma fok_all_or_nothing_witness :
  exists e' rep, submit example_engine example_fok = Ret (e', rep) /\ sr_status rep = Filled.
Proof.
  destruct (fok_all_or_nothing example_engine example_fok example_fok_pre eq_refl (or_introl eq_refl))
    as (e' & rep & H & H1).
  exists e', rep. split; [exact H|]. vm_compute (_ <=? _) in H1. exact (proj1 H1).
Defined.

Lemma example_uncrossed : uncrossed example_book.
Proof.
  intros bid ask Hb Ha.
  apply example_queue_ne in Hb as (x & H1 & H2 & <-). apply example_queue_ne in Ha as (y & H3 & H4 & <-).
  example_cases H1; example_cases H3; done.
Qed.

Lemma submit_uncrossed_witness :
  exists e' rep, submit example_engine example_taker = Ret (e', rep) /\ uncrossed (book e').
Proof. exact (submit_uncrossed example_engine example_taker example_pre example_uncrossed). Defined.

Lemma submit_price_time_witness :
  exists e' rep, submit example_engine example_taker = Ret (e', rep) /\
    (t_maker <$> sr_trades rep) = [1; 2; 3] /\ (t_quantity <$> sr_trades rep) = [5; 3; 2].
Proof.
  destruct (submit_price_time example_engine example_taker example_pre eq_refl eq_refl (or_introl eq_refl)) as (e' & rep & H & H1).
  exists e', rep. split; [exact H|]. rewrite H1. vm_compute. split; reflexivity.
Defined.

Definition example_budget : Order := Order.with_tif (Order.limit 9 Buy 901 9) FokBudget.

Lemma example_budget_pre : submit_pre example_engine example_budget.
Proof. prove_pre. Qed.

Lemma budget_respected_witness :
  exists e' rep, submit example_engine example_budget = Ret (e', rep) /\
    sumZ (fun t => t_price t * t_quantity t) (sr_trades rep) <= 901 /\ sr_resting rep = false.
Proof.
  destruct (budget_respected example_engine example_budget example_budget_pre eq_refl eq_refl)
    as (e' & rep & H & H1 & H2 & _).
  exists e', rep. split; [exact H | split; [exact H1 | exact H2]].
Defined.

Definition example_stp : MatchingEngine := with_stp example_engine CancelMaker.
Definition example_self : Order := Order.by_user (Order.limit 9 Buy 101 10) 1.

Lemma example_stp_pre : submit_pre example_stp example_self.
Proof. prove_pre. Qed.

Lemma stp_no_self_trade_witness :
  exists e' rep, submit example_stp example_self = Ret (e', rep) /\
    Forall (fun t => t_taker_user t = 1 /\ t_maker_user t <> 1) (sr_trades rep).
Proof.
  destruct (stp_no_self_trade example_stp example_self example_stp_pre ltac:(discriminate) ltac:(discriminate))
    as (e' & rep & H & H1 & _).
  exists e', rep. split; [exact H | exact H1].
Defined.

Lemma example_time : time_ok example_engine.
Proof.
  split.
  - intros sd p. cbn [example_engine book]. destruct example_book_ok as [_ Hq]. rewrite Hq.
    eapply sublist_sorted; [apply fmap_sublist, sublist_filter|]. vm_compute. repeat constructor.
  - intros sd p o Ho. apply example_queue in Ho as (Ho & _).
    example_cases Ho; vm_compute; done.
  - intros sd p o sd' p' o' Ho Ho' Heq. apply example_queue in Ho as (Ho & _), Ho' as (Ho' & _).
    example_cases Ho; example_cases Ho'; done.
Qed.

Lemma submit_keeps_time_priority_witness :
  exists e' rep, submit example_engine example_taker = Ret (e', rep) /\ time_ok e'.
Proof. exact (submit_keeps_time_priority example_engine example_taker example_pre example_time). Defined.

Lemma example_inv : book_inv (book example_engine).
Proof. apply example_book_ok. Qed.

Lemma example_hash : hash_order (book example_engine) (map_to_list (locate (book example_engine))).
Proof. unfold hash_order. apply Permutation_refl. Qed.

Lemma cancel_all_exact_witness :
  exists e' ids, cancel_all_for_user (map_to_list (locate (book example_engine))) example_engine 1 = Ret (e', ids) /\
    forall sd p, queue (book e') sd p = filter (fun o => o_user o <> 1) (queue (book example_engine) sd p).
Proof.
  destruct (cancel_all_exact example_engine (map_to_list (locate (book example_engine))) 1 example_inv
              example_hash) as (e' & ids & H & _ & _ & _ & H1).
  exists e', ids. split; [exact H | exact H1].
Defined.

Lemma export_restore_witness :
  exists os e', export_orders (map_to_list (locate (book example_engine))) example_engine = Ret os /\
    restore (with_stp (new PriceTimePriority.strategy) (stp example_engine)) 4 os = Ret e' /\
    forall sd p, queue (book e') sd p = queue (book example_engine) sd p.
Proof.
  destruct (export_restore example_engine (map_to_list (locate (book example_engine))) PriceTimePriority.strategy
              example_inv example_time example_hash) as (os & e' & H & H1 & _ & _ & H2 & _).
  exists os, e'. split; [exact H | split; [exact H1 | exact H2]].
Defined.

Lemma modify_semantics_witness :
  exists b', modify example_engine 1 100 2 = Ret (with_book example_engine b', MReduced 1 2) /\
    queue b' Sell 100 = [Order.set_remaining (resting_order 1 1 Sell 100 5 1) 2; resting_order 2 2 Sell 100 3 2].
Proof.
  pose proof (modify_semantics example_engine 1 100 2 example_inv ltac:(unfold_width; lia)) as H.
  assert (resting (book example_engine) 1 = Some (resting_order 1 1 Sell 100 5 1)) as E by (vm_compute; reflexivity).
  rewrite E in H. cbn [resting_order Order.set_timestamp Order.by_user Order.limit o_price o_remaining] in H.
  change ((100 =? 100) && (2 <=? 5)) with true in H. cbn match in H.
  destruct H as (b' & _ & H1 & H2 & _). exists b'. split; [exact H1|].
  transitivity (q_set 1 2 (queue (book example_engine) Sell 100)); [exact H2 | vm_compute; reflexivity].
Defined.
