(* ===== verification/Protocol.v ===== *)
(** * Commands and execution reports

    [src/src/exchange.rs]: the messages between the order system and the
    matching side, and the routing data they carry.  Constructors are prefixed
    with [C] (commands) and [R] (reports) where the source qualifies them with
    the enum's name. *)

From S2P Require Import Prelude Types.

Inductive Command :=
| CNew (order : Order)
| CCancel (instrument : InstrumentId) (order_id : OrderId) (cmd_id : Z)
| CModify (instrument : InstrumentId) (order_id : OrderId) (new_price : Price) (new_qty : Qty)
    (cmd_id : Z)
| CForceClose (instrument : InstrumentId) (user : UserId) (close_order_id : OrderId)
    (close_side : Side) (close_qty : Qty)
| CHalt (instrument : InstrumentId) (cmd_id : Z)
| CResume (instrument : InstrumentId) (cmd_id : Z)
| CHaltUser (instrument : InstrumentId) (user : UserId) (cmd_id : Z)
| CResumeUser (instrument : InstrumentId) (user : UserId) (cmd_id : Z)
| CBatch (cmds : list Command).

Module Command.

(** [Command::id]: the id used for exact retry suppression. *)
Fixpoint id (c : Command) : Z :=
  match c with
  | CNew order => o_id order
  | CCancel _ _ cmd_id | CModify _ _ _ _ cmd_id | CHalt _ cmd_id | CResume _ cmd_id
  | CHaltUser _ _ cmd_id | CResumeUser _ _ cmd_id => cmd_id
  | CForceClose _ _ close_order_id _ _ => close_order_id
  | CBatch [] => 0
  | CBatch (c :: _) => id c
  end.

(** [Command::instrument]: the routing key. *)
Fixpoint instrument (c : Command) : InstrumentId :=
  match c with
  | CNew order => o_instrument order
  | CCancel i _ _ | CModify i _ _ _ _ | CForceClose i _ _ _ _ | CHalt i _ | CResume i _
  | CHaltUser i _ _ | CResumeUser i _ _ => i
  | CBatch [] => 0
  | CBatch (c :: _) => instrument c
  end.

Definition is_high_priority (c : Command) : bool :=
  match c with CNew _ => false | _ => true end.

(** A command that is not a batch: what journals, wires and shards carry one by one. *)
Definition is_flat (c : Command) : bool :=
  match c with CBatch _ => false | _ => true end.

End Command.

Inductive ExecReport :=
| RAccepted (instrument : InstrumentId) (order_id : OrderId)
| RTrade (instrument : InstrumentId) (taker maker : OrderId) (aggressor : Side) (price : Price)
    (qty : Qty) (maker_fee taker_fee : Z)
| RFilled (instrument : InstrumentId) (order_id : OrderId)
| RPartiallyFilled (instrument : InstrumentId) (order_id : OrderId) (filled : Qty)
| RResting (instrument : InstrumentId) (order_id : OrderId)
| RCancelled (instrument : InstrumentId) (order_id : OrderId)
| RRejected (instrument : InstrumentId) (order_id : OrderId) (reason : string)
| RModified (instrument : InstrumentId) (order_id : OrderId) (remaining : Qty)
| RNotFound (instrument : InstrumentId) (order_id : OrderId)
| RDepthLevel (instrument : InstrumentId) (side : Side) (level : Z) (price : Price) (qty : Qty)
| RDepthEnd (instrument : InstrumentId) (bid_levels ask_levels : Z)
| RHalted (instrument : InstrumentId)
| RResumed (instrument : InstrumentId)
| RUserHalted (instrument : InstrumentId) (user : UserId)
| RUserResumed (instrument : InstrumentId) (user : UserId).

#[export] Instance ExecReport_eq_dec : EqDecision ExecReport.
Proof. solve_decision. Defined.

(** Every field is in the range of its Rust type. *)
Definition flat_ok (c : Command) : Prop :=
  match c with
  | CNew o => order_ok o
  | CCancel i o c => is_u32 i /\ is_u64 o /\ is_u64 c
  | CModify i o p q c => is_u32 i /\ is_u64 o /\ is_u64 p /\ is_u64 q /\ is_u64 c
  | CForceClose i u o _ q => is_u32 i /\ is_u64 u /\ is_u64 o /\ is_u64 q
  | CHalt i c | CResume i c => is_u32 i /\ is_u64 c
  | CHaltUser i u c | CResumeUser i u c => is_u32 i /\ is_u64 u /\ is_u64 c
  | CBatch _ => False
  end.
