(* ===== verification/Risk.v ===== *)
(** * Risk controls

    [src/src/risk.rs]: the price guard ([PriceGuard]), the static pre-trade
    limits ([RiskLimits]) and the margin monitor ([MarginMonitor]).  The guard's
    reference prices are atomics that the price feed writes while shards read
    them; the model keeps them in a map and the feed's write is
    [PriceGuard.set_reference]. *)

From S2P Require Import Prelude Types Protocol.

(** [Result<(), &'static str>] with the order [vet] may have changed. *)
Inductive verdict :=
| Pass (order : Order)
| Refuse (reason : string).

Record PriceGuard := mkGuard { band_bps : Z; refs : gmap Z Z }.

Module PriceGuard.

Definition new (bps : Z) (instruments : list InstrumentId) : PriceGuard :=
  mkGuard bps (list_to_map ((fun i => (i, 0)) <$> instruments)).

Definition set_reference (g : PriceGuard) (instrument : InstrumentId) (price : Price) : PriceGuard :=
  match refs g !! instrument with
  | Some _ => mkGuard (band_bps g) (<[instrument := price]> (refs g))
  | None => g
  end.

Definition reference (g : PriceGuard) (instrument : InstrumentId) : Price :=
  default 0 (refs g !! instrument).

Definition band (g : PriceGuard) (reference : Price) : Price * Price :=
  let delta := saturating_mul U64_MAX reference (band_bps g) / 10000 in
  (saturating_sub reference delta, saturating_add U64_MAX reference delta).

Definition vet (g : PriceGuard) (order : Order) : verdict :=
  match o_tif order with
  | IocBudget | FokBudget => Pass order
  | _ =>
      let r := reference g (o_instrument order) in
      if r =? 0 then Pass order
      else
        let '(lo, hi) := band g r in
        match o_type order with
        | Limit =>
            match o_side order with
            | Buy => if hi <? o_price order then Refuse "price-band" else Pass order
            | Sell => if o_price order <? lo then Refuse "price-band" else Pass order
            end
        | Market =>
            let order := Order.set_type order Limit in
            let order := Order.set_price order (match o_side order with Buy => hi | Sell => lo end) in
            Pass (match o_tif order with Gtc => Order.with_tif order Ioc | _ => order end)
        end
  end.

(** [SyncRiskCheck::check]: the verdict without the converted order. *)
Definition check (g : PriceGuard) (order : Order) : option string :=
  match vet g order with Pass _ => None | Refuse reason => Some reason end.

End PriceGuard.

Record RiskLimits := mkLimits { max_order_qty : Qty; max_notional : Z; max_user_orders : Z }.

Module RiskLimits.

(** [None] passes. *)
Definition check_static (l : RiskLimits) (order : Order) : option string :=
  if (0 <? max_order_qty l) && (max_order_qty l <? o_quantity order) then Some "max-qty"%string
  else if (0 <? max_notional l) && bool_decide (o_type order = Limit) &&
          (max_notional l <? wrap128 (o_price order * o_quantity order))
  then Some "max-notional"%string
  else None.

End RiskLimits.

Module MarginMonitor.

(** [(user, signed position, entry price, margin)]. *)
Definition account : Type := UserId * Z * Price * Z.

(** [i128] arithmetic: the two subtractions and the product of two [u64]s and an
    [i64] stay in range, see [pnl_exact]. *)
Definition wrap_i128 (z : Z) : Z :=
  (z + 170141183460469231731687303715884105728) mod 340282366920938463463374607431768211456
  - 170141183460469231731687303715884105728.

Definition pnl (mark : Price) (a : account) : Z :=
  let '(_, pos, entry, _) := a in wrap_i128 (wrap_i128 (mark - entry) * pos).

Definition underwater (mark : Price) (a : account) : bool :=
  let '(_, pos, _, margin) := a in negb (pos =? 0) && (pnl mark a <? - margin).

Definition close_side (pos : Z) : Side := if 0 <? pos then Sell else Buy.

(** [evaluate]: [next] is the caller-supplied id allocator, [ids] the state it
    captures. *)
Fixpoint evaluate {I : Type} (next : I -> OrderId * I) (instrument : InstrumentId) (mark : Price)
    (accounts : list account) (ids : I) : list Command * I :=
  match accounts with
  | [] => ([], ids)
  | a :: rest =>
      if underwater mark a then
        let '(user, pos, _, _) := a in
        let '(id, ids) := next ids in
        let '(out, ids) := evaluate next instrument mark rest ids in
        (CForceClose instrument user id (close_side pos) (Z.abs pos) :: out, ids)
      else evaluate next instrument mark rest ids
  end.

(** An account as the source types it. *)
Definition account_ok (a : account) : Prop :=
  let '(_, pos, entry, margin) := a in is_i64 pos /\ is_u64 entry /\ is_u64 margin.

(** The loss, in integers without bound. *)
Definition loss (mark : Price) (a : account) : Z := let '(_, pos, entry, _) := a in (entry - mark) * pos.
Definition margin_of (a : account) : Z := let '(_, _, _, margin) := a in margin.

(** [n] ids from the allocator. *)
Fixpoint draw {I : Type} (next : I -> OrderId * I) (n : nat) (ids : I) : list OrderId * I :=
  match n with
  | O => ([], ids)
  | S n => let '(id, ids) := next ids in let '(rest, ids) := draw next n ids in (id :: rest, ids)
  end.

Definition close_command (instrument : InstrumentId) (a : account) (id : OrderId) : Command :=
  let '(user, pos, _, _) := a in CForceClose instrument user id (close_side pos) (Z.abs pos).

Lemma wrap_i128_small z :
  -170141183460469231731687303715884105728 <= z < 170141183460469231731687303715884105728 -> wrap_i128 z = z.
Proof. unfold wrap_i128. intros. rewrite Z.mod_small; lia. Qed.

Lemma pnl_exact mark a : is_u64 mark -> account_ok a -> pnl mark a = - loss mark a.
Proof.
  destruct a as [[[user pos] entry] margin]. unfold account_ok, pnl, loss. unfold_width. intros Hm (Hp & He & Hg).
  rewrite (wrap_i128_small (mark - entry)) by lia. rewrite wrap_i128_small; [lia | nia].
Qed.

Lemma underwater_loss mark a : is_u64 mark -> account_ok a -> underwater mark a = (margin_of a <? loss mark a).
Proof.
  intros Hm Ha. pose proof (pnl_exact _ _ Hm Ha) as Hp. destruct a as [[[user pos] entry] margin].
  unfold underwater. rewrite Hp. unfold account_ok, margin_of, loss in *. unfold_width.
  destruct (Z.eqb_spec pos 0) as [->|]; cbn [negb andb]; [symmetry; apply Z.ltb_ge; lia |].
  apply eq_true_iff_eq. rewrite !Z.ltb_lt. lia.
Qed.

(** The monitor closes out exactly the accounts whose loss at the mark price
    exceeds their margin, each once and in order, with the side and size that
    flatten the position and an id of its own from the allocator; no product of
    the arithmetic overflows. *)
Theorem margin_calls_exact {I : Type} (next : I -> OrderId * I) (instrument : InstrumentId) (mark : Price)
    (accounts : list account) (ids : I) (Hmark : is_u64 mark) (Hok : Forall account_ok accounts) :
  let called := filter (fun a => margin_of a < loss mark a) accounts in
  let drawn := draw next (length called) ids in
  evaluate next instrument mark accounts ids = (zip_with (close_command instrument) called drawn.1, drawn.2).
Proof.
  cbv zeta. revert ids. induction Hok as [|a rest Ha Hrest IH]; intros ids; [done|].
  cbn [evaluate]. rewrite (underwater_loss mark a Hmark Ha), filter_cons.
  destruct (Z.ltb_spec (margin_of a) (loss mark a)); [rewrite decide_True by done | rewrite decide_False by lia; apply IH].
  cbn [length draw]. destruct (next ids) as [id ids']. rewrite IH.
  destruct (draw next _ ids') as [drawn ids'']. by destruct a as [[[user pos] entry] margin].
Qed.

End MarginMonitor.
