(* ===== verification/Sharding.v ===== *)
(** * Order placement

    [src/src/sharding.rs]: the routing record, the consistent hash that places
    order rows on virtual and physical databases and tables, the partitions of
    execution events, and the category rules of instruments and Raft groups. *)

From S2P Require Import Prelude Types.

Abbreviation DB_COUNT := 10.
Abbreviation TABLES_PER_DB := 100.
Abbreviation SLOTS := 1000.
Abbreviation VIRTUAL_DB_COUNT := 1000.
Abbreviation VIRTUAL_TABLE_COUNT := 10000.
Abbreviation DEFAULT_ASSET_CATEGORY_SIZE := 1000.
Abbreviation DEFAULT_ROUTE_VERSION := 1.

Record ShardRoute := mkRoute { sh_db : Z; sh_table : Z }.

Record ConsistentRoute := mkConsistent {
  cr_virtual_db : Z;
  cr_virtual_table : Z;
  cr_physical : ShardRoute
}.

(** SplitMix64's finalizer. *)
Definition mix64 (value : Z) : Z :=
  let value := wrap64 (Z.lxor value (Z.shiftr value 30) * 13787848793156543929) in
  let value := wrap64 (Z.lxor value (Z.shiftr value 27) * 10723151780598845931) in
  Z.lxor value (Z.shiftr value 31).

(** The loop of [jump_consistent_hash]: state [(key, current, next)]. *)
Definition jump_key (key : Z) : Z := wrap64 (wrap64 (key * 2862933555777941757) + 1).
Definition jump_next (key current : Z) : Z :=
  wrap_i64 (wrap128 (wrap128 (current + 1) * 2147483648) / (Z.shiftr key 33 + 1)).

Definition jump_body (buckets : Z) (s : Z * Z * Z) : outcome (Z * Z * Z + Z) :=
  let '(key, current, next) := s in
  if next <? buckets then
    let current := next in
    let key := jump_key key in
    Ret (inl (key, current, jump_next key current))
  else Ret (inr current).

Definition jump_consistent_hash (key buckets : Z) : outcome Z :=
  assert_that (0 <? buckets) "consistent hash needs at least one bucket" (
    let! current := loop 4294967296 (jump_body buckets) (key, -1, 0) in
    Ret (wrap32 current)).

Record RouteConfig := mkConfig {
  db_count : Z;
  tables_per_db : Z;
  virtual_db_count : Z;
  virtual_table_count : Z;
  rc_route_version : Z
}.

Module RouteConfig.

Definition default_config : RouteConfig :=
  mkConfig DB_COUNT TABLES_PER_DB VIRTUAL_DB_COUNT VIRTUAL_TABLE_COUNT DEFAULT_ROUTE_VERSION.

Definition with_virtual (db_count tables_per_db virtual_db_count virtual_table_count route_version : Z)
    : outcome RouteConfig :=
  assert_that (0 <? db_count) "at least one physical database is required" (
  assert_that (0 <? tables_per_db) "at least one table per database is required" (
  assert_that (0 <? virtual_db_count) "at least one virtual database is required" (
  assert_that ((virtual_db_count <=? virtual_table_count) && (virtual_table_count mod virtual_db_count =? 0))
    "virtual table count must be a multiple of virtual database count" (
  Ret (mkConfig db_count tables_per_db virtual_db_count virtual_table_count route_version))))).

Definition new (db_count tables_per_db route_version : Z) : outcome RouteConfig :=
  with_virtual db_count tables_per_db VIRTUAL_DB_COUNT VIRTUAL_TABLE_COUNT route_version.

Definition slots (c : RouteConfig) : Z := saturating_mul U64_MAX (db_count c) (tables_per_db c).

Definition route_slot (c : RouteConfig) (slot : Z) : ShardRoute :=
  mkRoute (wrap32 (slot mod db_count c)) (wrap32 (slot / db_count c)).

Definition route_category (c : RouteConfig) (category_id : Z) : ShardRoute :=
  route_slot c (category_id mod slots c).

Definition route_order_id_full (c : RouteConfig) (order_id : OrderId) : outcome ConsistentRoute :=
  let primary := mix64 order_id in
  let! virtual_db := jump_consistent_hash primary (wrap32 (virtual_db_count c)) in
  let virtual_tables_per_db := virtual_table_count c / virtual_db_count c in
  let! virtual_table_local :=
    jump_consistent_hash (mix64 (Z.lxor primary 11400714819323198485)) (wrap32 virtual_tables_per_db) in
  let virtual_table := wrap64 (wrap64 (virtual_db * virtual_tables_per_db) + virtual_table_local) in
  let! db := jump_consistent_hash (mix64 (Z.lxor virtual_db 11562461410679940143)) (wrap32 (db_count c)) in
  let! table :=
    jump_consistent_hash (mix64 (Z.lxor (Z.lxor primary virtual_table) 16646288086500911323))
      (wrap32 (tables_per_db c)) in
  Ret (mkConsistent virtual_db (wrap32 virtual_table) (mkRoute db table)).

Definition route_order_id (c : RouteConfig) (order_id : OrderId) : outcome ShardRoute :=
  let! r := route_order_id_full c order_id in Ret (cr_physical r).

Definition execution_partition (c : RouteConfig) (order_id : OrderId) (partition_count : Z) : outcome Z :=
  assert_that (wrap32 (db_count c) <=? partition_count) "execution partition count must cover every physical DB" (
    let! route := route_order_id_full c order_id in
    let lanes := Z.max (partition_count / db_count c) 1 in
    let lane := cr_virtual_table route mod lanes in
    Ret (wrap32 (wrap64 (sh_db (cr_physical route) + wrap64 (lane * db_count c))))).

(** [all_tables], as routes; [db_name] and [table_name] print them. *)
Definition all_routes (c : RouteConfig) : list ShardRoute :=
  seqZ 0 (db_count c) ≫= fun db => (fun table => mkRoute (wrap32 db) (wrap32 table)) <$> seqZ 0 (tables_per_db c).

End RouteConfig.

(** The free functions, for the default parameters. *)
Definition route_category (category_id : Z) : ShardRoute :=
  let slot := category_id mod SLOTS in mkRoute (slot mod DB_COUNT) (slot / DB_COUNT).

Definition asset_category (i : InstrumentId) (category_size : Z) : Z :=
  saturating_sub i 1 / Z.max category_size 1.

Definition raft_group_for_category (category_id group_count : Z) : outcome Z :=
  assert_that (0 <? group_count) "at least one Raft group is required" (Ret (category_id mod group_count)).

Definition raft_group_for_category_pinned (category_id group_count : Z) (pinned : gmap Z Z) : outcome Z :=
  match pinned !! category_id with
  | Some group => if group <? group_count then Ret group else raft_group_for_category category_id group_count
  | None => raft_group_for_category category_id group_count
  end.

(** ** The jump sequence

    [jump_seq key k] is the state after [k] iterations; the hash of [buckets]
    is the last [next] below it. *)
Fixpoint jump_seq (key : Z) (k : nat) : Z * Z * Z :=
  match k with
  | O => (key, -1, 0)
  | S k => let '(key, _, next) := jump_seq key k in (jump_key key, next, jump_next (jump_key key) next)
  end.

Definition jumps (key : Z) (k : nat) : Z := (jump_seq key k).2.

Lemma jump_next_grows key current : is_u64 key -> 0 <= current < U32_MAX -> current < jump_next key current.
Proof.
  intros Hk Hc. unfold jump_next. rewrite Z.shiftr_div_pow2 by lia. change (2 ^ 33) with 8589934592.
  assert (0 <= key / 8589934592 < 2147483648) as [Hd1 Hd2].
  { unfold is_u64 in Hk. split; [apply Z.div_pos; lia|apply Z.div_lt_upper_bound; lia]. }
  set (d := key / 8589934592 + 1). rewrite (wrap128_small (current + 1)) by (unfold_width; lia).
  rewrite wrap128_small by (unfold_width; lia).
  assert (current + 1 <= (current + 1) * 2147483648 / d) by (apply Z.div_le_lower_bound; unfold d; nia).
  assert ((current + 1) * 2147483648 / d <= (current + 1) * 2147483648).
  { apply Z.div_le_upper_bound; unfold d; nia. }
  rewrite wrap_i64_small by (unfold_width; lia). lia.
Qed.

Lemma jump_seq_key key k : is_u64 key -> is_u64 (jump_seq key k).1.1.
Proof.
  intros Hk. destruct k as [|k]; [done|]. cbn [jump_seq]. destruct (jump_seq key k) as [[key' c] n]. apply wrap64_range.
Qed.

Lemma jumps_step key k : is_u64 key -> 0 <= jumps key k < U32_MAX -> jumps key k < jumps key (S k).
Proof.
  intros Hk. unfold jumps. pose proof (jump_seq_key key (S k) Hk) as H. cbn [jump_seq] in *.
  destruct (jump_seq key k) as [[key' c] n]. cbn in *. intros Hn. by apply jump_next_grows.
Qed.

(** The values visited below [U32_MAX] are strictly increasing. *)
Lemma jumps_mono key j k : is_u64 key -> (j < k)%nat ->
  (forall i, (i < k)%nat -> jumps key i < U32_MAX) -> 0 <= jumps key j /\ jumps key j < jumps key k.
Proof.
  intros Hk Hjk Hb.
  assert (Hpos : forall i, (i < k)%nat -> 0 <= jumps key i).
  { induction i as [|i IH]; intros Hi; [done|].
    pose proof (jumps_step key i Hk). pose proof (IH ltac:(lia)). pose proof (Hb i ltac:(lia)). lia. }
  split; [by apply Hpos|].
  assert (forall d, (j + d < k)%nat -> jumps key j < jumps key (j + S d)) as Hd.
  { induction d as [|d IH]; intros Hd.
    - rewrite Nat.add_1_r. apply jumps_step; [done|]. split; [apply Hpos|apply Hb]; lia.
    - pose proof (IH ltac:(lia)). pose proof (jumps_step key (j + S d) Hk) as Hs.
      rewrite <-(Nat.add_succ_r j (S d)) in Hs. pose proof (Hpos (j + S d)%nat ltac:(lia)).
      pose proof (Hb (j + S d)%nat ltac:(lia)). lia. }
  specialize (Hd (k - j - 1)%nat ltac:(lia)). by replace (j + S (k - j - 1))%nat with k in Hd by lia.
Qed.

(** The loop ends at the last visited value below [buckets]. *)
Lemma jump_hash_spec key buckets : is_u64 key -> 0 < buckets <= U32_MAX ->
  exists k, jump_consistent_hash key buckets = Ret (jumps key k) /\
    (forall i, (i <= k)%nat -> 0 <= jumps key i < buckets) /\ buckets <= jumps key (S k).
Proof.
  intros Hk Hb. unfold jump_consistent_hash, assert_that. rewrite (proj2 (Z.ltb_lt _ _)) by lia.
  pose (I := fun s => exists k, s = jump_seq key k /\ forall i, (i < k)%nat -> 0 <= jumps key i < buckets).
  destruct (loop_total (jump_body buckets) I
    (fun r => exists k, r = jumps key k /\ (forall i, (i <= k)%nat -> 0 <= jumps key i < buckets) /\
                buckets <= jumps key (S k)) (fun s => Z.max 0 (buckets - s.2)) 4294967296 (key, -1, 0))
    as (r & E & k & -> & Hlt & Hge).
  - intros s _. lia.
  - intros s (k & -> & Hi). unfold jump_body. destruct (jump_seq key k) as [[key' c] n] eqn:Es.
    assert (En : jumps key k = n) by (unfold jumps; by rewrite Es).
    destruct (Z.ltb_spec n buckets) as [Hn|Hn].
    + assert (Hn0 : 0 <= n).
      { destruct k as [|k]; [cbn in Es; inversion Es; lia|].
        pose proof (jumps_step key k Hk). pose proof (Hi k ltac:(lia)). lia. }
      eexists. split; [reflexivity|]. cbn beta iota. split.
      * exists (S k). cbn [jump_seq]. rewrite Es. split; [done|]. intros i Hik.
        destruct (decide (i = k)) as [->|]; [lia|apply Hi; lia].
      * assert (jumps key (S k) = jump_next (jump_key key') n) by (unfold jumps; cbn [jump_seq]; by rewrite Es).
        pose proof (jumps_step key k Hk). cbn [snd]. lia.
    + eexists. split; [reflexivity|]. cbn beta iota. destruct k as [|k]; [cbn in Es; inversion Es; lia|].
      exists k. assert (c = jumps key k) as ->.
      { cbn [jump_seq] in Es. unfold jumps. destruct (jump_seq key k) as [[? ?] ?]. by inversion Es. }
      split_and!; [done| |by rewrite En]. intros i Hik. apply Hi. lia.
  - exists 0%nat. split; [done|]. intros i Hi. lia.
  - cbn. lia.
  - exists k. rewrite E. cbn [obind]. pose proof (Hlt k ltac:(lia)). split; [|done].
    unfold wrap32. by rewrite Z.mod_small by lia.
Qed.

(** ** Routes *)

(** A usable configuration: what [with_virtual] accepts, with counts that fit
    the 32-bit bucket numbers. *)
Definition config_ok (c : RouteConfig) : Prop :=
  0 < db_count c <= U32_MAX /\ 0 < tables_per_db c <= U32_MAX /\
  0 < virtual_db_count c /\ virtual_db_count c <= virtual_table_count c <= U32_MAX /\
  virtual_table_count c mod virtual_db_count c = 0.

Lemma jump_hash_range key buckets : is_u64 key -> 0 < buckets <= U32_MAX ->
  exists r, jump_consistent_hash key buckets = Ret r /\ 0 <= r < buckets.
Proof.
  intros Hk Hb. destruct (jump_hash_spec key buckets Hk Hb) as (k & -> & Hlt & _).
  exists (jumps key k). split; [done|]. apply Hlt. lia.
Qed.

Lemma lxor_u64 x y : is_u64 x -> is_u64 y -> is_u64 (Z.lxor x y).
Proof.
  intros Hx Hy. assert (0 <= Z.lxor x y) as H0 by (apply Z.lxor_nonneg; unfold is_u64 in *; lia).
  assert (forall z, is_u64 z <-> 0 <= z /\ Z.shiftr z 64 = 0) as Hw.
  { intros z. unfold is_u64. split; intros [H1 H2]; (split; [done|]).
    - rewrite Z.shiftr_div_pow2 by lia. apply Z.div_small. change (2 ^ 64) with 18446744073709551616. lia.
    - rewrite Z.shiftr_div_pow2 in H2 by lia. change (2 ^ 64) with 18446744073709551616 in H2.
      apply Z.div_small_iff in H2; lia. }
  rewrite Hw in *. split; [done|]. rewrite Z.shiftr_lxor. destruct Hx as [_ ->], Hy as [_ ->]. done.
Qed.

Lemma mix64_u64 v : is_u64 (mix64 v).
Proof.
  unfold mix64. apply lxor_u64; [apply wrap64_range|]. rewrite Z.shiftr_div_pow2 by lia.
  pose proof (wrap64_range (Z.lxor (wrap64 (Z.lxor v (Z.shiftr v 30) * 13787848793156543929))
    (Z.shiftr (wrap64 (Z.lxor v (Z.shiftr v 30) * 13787848793156543929)) 27) * 10723151780598845931)) as H.
  unfold is_u64 in *. split; [apply Z.div_pos; lia|]. apply Z.div_le_upper_bound; lia.
Qed.

Section routes.
Context (c : RouteConfig) (Hc : config_ok c).

Let per_db : Z := virtual_table_count c / virtual_db_count c.

Lemma per_db_spec : 0 < per_db <= U32_MAX /\ virtual_table_count c = virtual_db_count c * per_db.
Proof.
  destruct Hc as (_ & _ & Hv & Hvt & Hm). unfold per_db.
  pose proof (Z.div_mod (virtual_table_count c) (virtual_db_count c) ltac:(lia)) as E. rewrite Hm in E. split; [|lia].
  split; [apply Z.div_str_pos; lia|]. apply Z.div_le_upper_bound; nia.
Qed.

Lemma route_full_ok order_id : exists v local db table,
  RouteConfig.route_order_id_full c order_id =
    Ret (mkConsistent v (v * per_db + local) (mkRoute db table)) /\
  0 <= v < virtual_db_count c /\ 0 <= local < per_db /\
  0 <= v * per_db + local < virtual_table_count c /\
  0 <= db < db_count c /\ 0 <= table < tables_per_db c /\
  jump_consistent_hash (mix64 (Z.lxor v 11562461410679940143)) (db_count c) = Ret db.
Proof.
  pose proof per_db_spec as [Hp Ep]. destruct Hc as (Hd & Ht & Hv & Hvt & Hm).
  unfold RouteConfig.route_order_id_full. fold per_db.
  rewrite !wrap32_small by (unfold_width; lia).
  destruct (jump_hash_range (mix64 order_id) (virtual_db_count c)) as (v & -> & Hvr);
    [apply mix64_u64|lia|]. cbn [obind].
  destruct (jump_hash_range (mix64 (Z.lxor (mix64 order_id) 11400714819323198485)) per_db) as (l & -> & Hl);
    [apply mix64_u64|lia|]. cbn [obind].
  assert (0 <= v * per_db + l < virtual_table_count c) by nia.
  destruct (jump_hash_range (mix64 (Z.lxor v 11562461410679940143)) (db_count c)) as (db & Edb & Hdb);
    [apply mix64_u64|lia|]. rewrite Edb. cbn [obind].
  rewrite (wrap64_small (v * per_db)) by (unfold_width; nia).
  rewrite (wrap64_small (v * per_db + l)) by (unfold_width; nia).
  destruct (jump_hash_range (mix64 (Z.lxor (Z.lxor (mix64 order_id) (v * per_db + l)) 16646288086500911323))
    (tables_per_db c)) as (table & -> & Htab); [apply mix64_u64|lia|]. cbn [obind].
  rewrite wrap32_small by (unfold_width; lia). exists v, l, db, table. split_and!; done || lia.
Qed.
End routes.

(** Adding buckets moves a key only onto the added ones. *)
Lemma jump_hash_stable key b b' : is_u64 key -> 0 < b <= b' -> b' <= U32_MAX ->
  exists r r', jump_consistent_hash key b = Ret r /\ jump_consistent_hash key b' = Ret r' /\
    0 <= r < b /\ 0 <= r' < b' /\ (r' = r \/ b <= r').
Proof.
  intros Hk Hb Hb'. destruct (jump_hash_spec key b Hk ltac:(lia)) as (k & -> & Hlt & Hge).
  destruct (jump_hash_spec key b' Hk ltac:(lia)) as (k' & -> & Hlt' & Hge').
  exists (jumps key k), (jumps key k'). pose proof (Hlt k ltac:(lia)). pose proof (Hlt' k' ltac:(lia)).
  split_and!; try lia; try done. destruct (Nat.lt_total k k') as [H'|[->|H']]; [right| |].
  - destruct (decide (S k = k')) as [<-|]; [lia|].
    destruct (jumps_mono key (S k) k' Hk) as [_ Hm]; [lia| |lia].
    intros i Hi. pose proof (Hlt' i ltac:(lia)). lia.
  - by left.
  - pose proof (Hlt (S k') ltac:(lia)). lia.
Qed.

Definition with_dbs (c : RouteConfig) (n : Z) : RouteConfig :=
  mkConfig n (tables_per_db c) (virtual_db_count c) (virtual_table_count c) (rc_route_version c).

Lemma execution_partition_ok c order_id v vt db table n :
  0 < db_count c <= n -> n <= U32_MAX -> 0 <= db < db_count c ->
  RouteConfig.route_order_id_full c order_id = Ret (mkConsistent v vt (mkRoute db table)) ->
  exists p, RouteConfig.execution_partition c order_id n = Ret p /\ 0 <= p < n /\ p mod db_count c = db.
Proof.
  intros Hd Hn Hdb E. unfold RouteConfig.execution_partition, assert_that.
  rewrite wrap32_small by (unfold_width; lia). rewrite (proj2 (Z.leb_le _ _)) by lia. rewrite E. cbn [obind].
  cbn [cr_virtual_table cr_physical sh_db].
  assert (1 <= n / db_count c) by (apply Z.div_le_lower_bound; lia).
  rewrite Z.max_l by lia. set (lanes := n / db_count c) in *.
  pose proof (Z.mod_pos_bound vt lanes ltac:(lia)). set (lane := vt mod lanes) in *.
  assert (lanes * db_count c <= n) by (unfold lanes; rewrite Z.mul_comm; apply Z.mul_div_le; lia).
  rewrite (wrap64_small (lane * _)) by (unfold_width; nia). rewrite wrap64_small by (unfold_width; nia).
  rewrite wrap32_small by (unfold_width; nia). eexists. split; [done|]. split; [nia|].
  rewrite Z_mod_plus_full. apply Z.mod_small. lia.
Qed.

(** Only the physical database depends on how many there are. *)
Lemma route_with_dbs c order_id n v vt db table db' :
  RouteConfig.route_order_id_full c order_id = Ret (mkConsistent v vt (mkRoute db table)) ->
  jump_consistent_hash (mix64 (Z.lxor v 11562461410679940143)) (wrap32 n) = Ret db' ->
  RouteConfig.route_order_id_full (with_dbs c n) order_id = Ret (mkConsistent v vt (mkRoute db' table)).
Proof.
  unfold RouteConfig.route_order_id_full. cbn [with_dbs virtual_db_count virtual_table_count db_count tables_per_db].
  intros E E'. apply obind_ret in E as (v0 & -> & E). cbn [obind].
  apply obind_ret in E as (l & -> & E). cbn [obind]. apply obind_ret in E as (d0 & _ & E).
  apply obind_ret in E as (t0 & Et & E). inversion E. subst. rewrite E'. cbn [obind]. by rewrite Et.
Qed.

(** Order placement.  With a configuration the constructor accepts, every
    order id has a virtual and a physical place within the configured counts;
    its execution events go to a partition that belongs to its database
    ([partition mod db_count = db]) within the partition count; and adding
    databases keeps its virtual place and its table, and keeps its database or
    moves it to one of the added ones. *)
Theorem order_placement (c : RouteConfig) (order_id : OrderId) (partition_count more : Z) :
  config_ok c -> db_count c <= partition_count <= U32_MAX -> 0 <= more -> db_count c + more <= U32_MAX ->
  exists r db', RouteConfig.route_order_id_full c order_id = Ret r /\
    0 <= cr_virtual_db r < virtual_db_count c /\ 0 <= cr_virtual_table r < virtual_table_count c /\
    0 <= sh_db (cr_physical r) < db_count c /\ 0 <= sh_table (cr_physical r) < tables_per_db c /\
    (exists p, RouteConfig.execution_partition c order_id partition_count = Ret p /\
       0 <= p < partition_count /\ p mod db_count c = sh_db (cr_physical r)) /\
    RouteConfig.route_order_id_full (with_dbs c (db_count c + more)) order_id =
      Ret (mkConsistent (cr_virtual_db r) (cr_virtual_table r) (mkRoute db' (sh_table (cr_physical r)))) /\
    (db' = sh_db (cr_physical r) \/ db_count c <= db' < db_count c + more).
Proof.
  intros Hc Hp Hm Hmax. destruct (route_full_ok c Hc order_id) as (v & l & db & table & E & Hv & Hl & Hvt & Hdb & Ht & Ej).
  destruct (jump_hash_stable (mix64 (Z.lxor v 11562461410679940143)) (db_count c) (db_count c + more))
    as (r & db' & Er & Er' & Hr & Hr' & Hs); [apply mix64_u64|destruct Hc; lia|done|].
  rewrite Ej in Er. injection Er as <-. set (vt := v * _ + l) in *.
  exists (mkConsistent v vt (mkRoute db table)), db'.
  split; [exact E|]. cbn [cr_virtual_db cr_virtual_table cr_physical sh_db sh_table]. destruct Hc as (Hd & _).
  split_and!; try lia.
  - apply (execution_partition_ok c order_id v vt db table); done || lia.
  - apply (route_with_dbs c order_id _ v vt db); [done|]. by rewrite wrap32_small by (unfold_width; lia).
Qed.

Lemma order_placement_witness :
  exists r db', RouteConfig.route_order_id_full RouteConfig.default_config 12345 = Ret r /\
    RouteConfig.route_order_id_full (with_dbs RouteConfig.default_config 16) 12345 =
      Ret (mkConsistent (cr_virtual_db r) (cr_virtual_table r) (mkRoute db' (sh_table (cr_physical r)))) /\
    (db' = sh_db (cr_physical r) \/ 10 <= db' < 16).
Proof.
  destruct (order_placement RouteConfig.default_config 12345 64 6) as (r & db' & E & _ & _ & _ & _ & _ & E' & H).
  - unfold config_ok, RouteConfig.default_config. cbn [db_count tables_per_db virtual_db_count virtual_table_count].
    split_and!; lia || done.
  - cbn. lia.
  - lia.
  - cbn. lia.
  - exists r, db'. split; [exact E|]. split; [exact E'|]. cbn in H. lia.
Defined.
