(* ===== verification/Ring.v ===== *)
(** * The SPSC ring

    [src/src/lockfree.rs]: the bounded single-producer single-consumer queue.
    A [push] or [pop] is a sequence of steps, one per access to shared memory
    (the load of the other end's index, the slot access, the store of the own
    index), and the two threads interleave freely between them.  The model is
    sequentially consistent: the acquire/release pairs of the source order the
    slot accesses the same way.  Indices are 64-bit and wrap; a slot that holds
    no live item ([MaybeUninit]) is [None]. *)

From S2P Require Import Prelude.

Section ring.
Context {T : Type}.

Record Ring := mkRing {
  slots : list (option T);
  head : Z;
  tail : Z
}.

(** [usize::next_power_of_two], 0 when it does not fit. *)
Definition next_power_of_two (n : Z) : Z := wrap64 (2 ^ Z.log2_up n).

Definition with_capacity (capacity : Z) : Ring :=
  let cap := Z.max (next_power_of_two capacity) 2 in
  mkRing (replicate (Z.to_nat cap) None) 0 0.

Definition capacity_of (r : Ring) : Z := Z.of_nat (length (slots r)).
Definition mask (r : Ring) : Z := capacity_of r - 1.
Definition index (r : Ring) (i : Z) : nat := Z.to_nat (Z.land i (mask r)).

(** [slots[i & mask]]: panics out of range. *)
Definition slot (r : Ring) (i : Z) : option (option T) := slots r !! index r i.
Definition set_slot (r : Ring) (i : Z) (x : option T) : Ring :=
  mkRing (<[index r i := x]> (slots r)) (head r) (tail r).
Definition set_head (r : Ring) (h : Z) : Ring := mkRing (slots r) h (tail r).
Definition set_tail (r : Ring) (t : Z) : Ring := mkRing (slots r) (head r) t.

(** ** The two ends *)

(** Where a thread stands in [push] and in [pop]. *)
Inductive producer_pc :=
| PIdle
| PReload (item : T)     (* looks full against the cached head *)
| PWrite (item : T)      (* about to write the slot *)
| PPublish (item : T).   (* about to store the tail *)

Inductive consumer_pc :=
| CIdle
| CReload
| CRead
| CPublish (item : T).

Record State := mkState {
  ring : Ring;
  cached_head : Z;
  ppc : producer_pc;
  cached_tail : Z;
  cpc : consumer_pc
}.

Definition channel (capacity : Z) : State := mkState (with_capacity capacity) 0 PIdle 0 CIdle.

(** What the callers observe. *)
Inductive event :=
| Pushed (item : T)      (* [push] returns [Ok] *)
| Full (item : T)        (* [push] returns [Err(item)] *)
| Popped (item : T)      (* [pop] returns [Some(item)] *)
| Empty                  (* [pop] returns [None] *)
| Silent.

(** The fullness test against a given head. *)
Definition looks_full (r : Ring) (h : Z) : bool := wrap64 (tail r - h) =? capacity_of r.

(** A thread that is idle may call [push] with any item. *)
Inductive prod_step : State -> event -> State -> Prop :=
| push_call r ch ct c item : prod_step (mkState r ch PIdle ct c) Silent
    (mkState r ch (if looks_full r ch then PReload item else PWrite item) ct c)
| push_reload r ch ct c item : looks_full r (head r) = false ->
    prod_step (mkState r ch (PReload item) ct c) Silent (mkState r (head r) (PWrite item) ct c)
| push_full r ch ct c item : looks_full r (head r) = true ->
    prod_step (mkState r ch (PReload item) ct c) (Full item) (mkState r (head r) PIdle ct c)
| push_write r ch ct c item :
    prod_step (mkState r ch (PWrite item) ct c) Silent
      (mkState (set_slot r (tail r) (Some item)) ch (PPublish item) ct c)
| push_publish r ch ct c item :
    prod_step (mkState r ch (PPublish item) ct c) (Pushed item)
      (mkState (set_tail r (wrap64 (tail r + 1))) ch PIdle ct c).

Inductive cons_step : State -> event -> State -> Prop :=
| pop_call r ch p ct : cons_step (mkState r ch p ct CIdle) Silent
    (mkState r ch p ct (if head r =? ct then CReload else CRead))
| pop_reload r ch p ct : head r <> tail r ->
    cons_step (mkState r ch p ct CReload) Silent (mkState r ch p (tail r) CRead)
| pop_empty r ch p ct : head r = tail r ->
    cons_step (mkState r ch p ct CReload) Empty (mkState r ch p (tail r) CIdle)
| pop_read r ch p ct item : slot r (head r) = Some (Some item) ->
    cons_step (mkState r ch p ct CRead) Silent (mkState (set_slot r (head r) None) ch p ct (CPublish item))
| pop_publish r ch p ct item :
    cons_step (mkState r ch p ct (CPublish item)) (Popped item)
      (mkState (set_head r (wrap64 (head r + 1))) ch p ct CIdle).

Definition step (s : State) (e : event) (s' : State) : Prop := prod_step s e s' \/ cons_step s e s'.

Inductive steps : State -> list event -> State -> Prop :=
| steps_refl s : steps s [] s
| steps_snoc s s' s'' es e : steps s es s' -> step s' e s'' -> steps s (es ++ [e]) s''.

(** [Producer::len], [Consumer::is_empty]. *)
Definition len (r : Ring) : Z := wrap64 (tail r - head r).
Definition is_empty (r : Ring) : bool := head r =? tail r.

(** [Ring::drop]: the items it releases, [None] for a slot with no item. *)
Fixpoint drop_loop (fuel : nat) (r : Ring) (i : Z) : list (option T) :=
  match fuel with
  | O => []
  | S fuel => if i =? tail r then [] else default None (slot r i) :: drop_loop fuel r (wrap64 (i + 1))
  end.

Definition drop_ring (r : Ring) : list (option T) := drop_loop (length (slots r)) r (head r).

(** ** The specification: an atomic bounded queue *)
Definition spec_step (cap : Z) (q : list T) (e : event) (q' : list T) : Prop :=
  match e with
  | Pushed x => Z.of_nat (length q) < cap /\ q' = q ++ [x]
  | Full _ => Z.of_nat (length q) = cap /\ q' = q
  | Popped x => q = x :: q'
  | Empty => q = [] /\ q' = []
  | Silent => q' = q
  end.

Inductive spec_run (cap : Z) : list event -> list T -> Prop :=
| spec_nil : spec_run cap [] []
| spec_snoc es e q q' : spec_run cap es q -> spec_step cap q e q' -> spec_run cap (es ++ [e]) q'.

(** ** The invariant

    [h] and [t] are the unbounded counterparts of the two indices. *)
Record ring_ok (cap : Z) (q : list T) (h t ch ct : Z) (s : State) : Prop := {
  ok_cap : capacity_of (ring s) = cap;
  ok_pow : exists k, 1 <= k <= 63 /\ cap = 2 ^ k;
  ok_range : 0 <= h /\ t = h + Z.of_nat (length q) /\ Z.of_nat (length q) <= cap;
  ok_head : head (ring s) = wrap64 h;
  ok_tail : tail (ring s) = wrap64 t;
  ok_ch : cached_head s = wrap64 ch /\ 0 <= ch <= h /\ t - ch <= cap;
  ok_ct : cached_tail s = wrap64 ct /\ h <= ct <= t;
  ok_ppc : match ppc s with PWrite _ | PPublish _ => Z.of_nat (length q) < cap /\ t - ch < cap | _ => True end;
  ok_cpc : match cpc s with
           | CRead => h < ct
           | CPublish x => h < ct /\ exists q', q = x :: q'
           | _ => True
           end;
  ok_slots : forall i, 0 <= i < cap ->
    slots (ring s) !! Z.to_nat ((h + i) mod cap) =
      Some (match q !! Z.to_nat i with
            | Some x => match cpc s with CPublish _ => if i =? 0 then None else Some x | _ => Some x end
            | None => match ppc s with
                      | PPublish y => if i =? Z.of_nat (length q) then Some y else None
                      | _ => None
                      end
            end)
}.

Lemma index_mod (r : Ring) k i : 1 <= k <= 63 -> capacity_of r = 2 ^ k -> 0 <= i ->
  index r (wrap64 i) = Z.to_nat (i mod capacity_of r).
Proof.
  intros Hk Hc Hi. unfold index, mask. rewrite Hc. f_equal.
  replace (2 ^ k - 1) with (Z.ones k) by (rewrite Z.ones_equiv; lia).
  rewrite Z.land_ones by lia. unfold wrap64. change 18446744073709551616 with (2 ^ 64).
  symmetry. apply Znumtheory.Zmod_div_mod; [lia|lia|]. exists (2 ^ (64 - k)). rewrite <-Z.pow_add_r by lia.
  f_equal. lia.
Qed.

Lemma mod_inj cap h i j : 0 <= i < cap -> 0 <= j < cap -> (h + i) mod cap = (h + j) mod cap -> i = j.
Proof.
  intros Hi Hj E. pose proof (Z.div_mod (h + i) cap ltac:(lia)). pose proof (Z.div_mod (h + j) cap ltac:(lia)).
  set (a := (h + i) / cap) in *. set (b := (h + j) / cap) in *. destruct (Z.lt_total a b) as [?|[?|?]]; nia.
Qed.

Lemma wrap64_sub a b : wrap64 (wrap64 a - wrap64 b) = wrap64 (a - b).
Proof. unfold wrap64. by rewrite Zminus_mod_idemp_l, Zminus_mod_idemp_r. Qed.

Lemma wrap64_inj a b : 0 <= b - a <= U64_MAX -> wrap64 a = wrap64 b -> a = b.
Proof.
  intros H E. unfold wrap64 in E. pose proof (Z.div_mod a 18446744073709551616 ltac:(lia)).
  pose proof (Z.div_mod b 18446744073709551616 ltac:(lia)). lia.
Qed.

Lemma pow_bound cap k : 1 <= k <= 63 -> cap = 2 ^ k -> 2 <= cap <= 9223372036854775808.
Proof.
  intros Hk ->. change 9223372036854775808 with (2 ^ 63). change 2 with (2 ^ 1) at 1.
  split; apply Z.pow_le_mono_r; lia.
Qed.

(** Writing the slot of position [j] of the window. *)
Lemma set_slot_lookup (r : Ring) cap h j x i : capacity_of r = cap -> 0 <= i < cap -> 0 <= j < cap ->
  index r (wrap64 (h + j)) = Z.to_nat ((h + j) mod cap) ->
  slots (set_slot r (wrap64 (h + j)) x) !! Z.to_nat ((h + i) mod cap) =
    if i =? j then Some x else slots r !! Z.to_nat ((h + i) mod cap).
Proof.
  intros Hc Hi Hj Hx. cbn [set_slot slots]. rewrite Hx. unfold capacity_of in Hc.
  pose proof (Z.mod_pos_bound (h + j) cap ltac:(lia)). pose proof (Z.mod_pos_bound (h + i) cap ltac:(lia)).
  destruct (Z.eqb_spec i j) as [->|Hne].
  - apply list_lookup_insert_eq. lia.
  - apply list_lookup_insert_ne. intros E. apply Hne. apply (mod_inj cap h); lia.
Qed.

Section preservation.
Context (cap : Z) (q : list T) (h t ch ct : Z).

Lemma full_test s : ring_ok cap q h t ch ct s ->
  looks_full (ring s) (cached_head s) = (t - ch =? cap) /\
  looks_full (ring s) (head (ring s)) = (Z.of_nat (length q) =? cap).
Proof.
  intros [Hc [k [Hk Hp]] (H1 & H2 & H3) Hh Ht (Hch & Hch' & Hch'') _ _ _ _]. pose proof (pow_bound cap k Hk Hp).
  unfold looks_full. rewrite Hc, Ht, Hch, Hh, !wrap64_sub, !wrap64_small by (unfold_width; lia).
  split; [done|]. f_equal. lia.
Qed.

Lemma empty_test s : ring_ok cap q h t ch ct s ->
  (head (ring s) = cached_tail s <-> h = ct) /\ (head (ring s) = tail (ring s) <-> q = []).
Proof.
  intros [Hc [k [Hk Hp]] (H1 & H2 & H3) Hh Ht _ (Hct & Hct') _ _ _]. pose proof (pow_bound cap k Hk Hp).
  rewrite Hh, Ht, Hct. split; split.
  - apply wrap64_inj. lia.
  - by intros ->.
  - intros E. apply wrap64_inj in E; [|lia]. apply length_zero_iff_nil. lia.
  - intros ->. f_equal. cbn in H2. lia.
Qed.

Lemma slot_at s i : ring_ok cap q h t ch ct s -> 0 <= i < cap ->
  index (ring s) (wrap64 (h + i)) = Z.to_nat ((h + i) mod cap).
Proof.
  intros [Hc [k [Hk Hp]] (H1 & _) _ _ _ _ _ _ _] Hi. rewrite <-Hc. apply (index_mod _ k); lia || congruence.
Qed.

Lemma prod_ok s e s' : ring_ok cap q h t ch ct s -> prod_step s e s' ->
  exists q' t' ch', spec_step cap q e q' /\ ring_ok cap q' h t' ch' ct s'.
Proof.
  intros Hok Hs. pose proof (full_test s Hok) as [Hf1 Hf2]. pose proof (slot_at s) as Hslot.
  destruct Hs as [r ch0 ct0 c item|r ch0 ct0 c item Hff|r ch0 ct0 c item Hff|r ch0 ct0 c item|r ch0 ct0 c item];
    cbn [ring cached_head] in *.
  - exists q, t, ch. split; [done|]. rewrite Hf1. destruct Hok. split; try done. cbn in *.
    + destruct (Z.eqb_spec (t - ch) cap); [done|]. lia.
    + cbn in *. by destruct (t - ch =? cap).
  - exists q, t, h. split; [done|]. rewrite Hf2 in Hff. apply Z.eqb_neq in Hff. destruct Hok. split; cbn in *; try done; lia.
  - exists q, t, h. rewrite Hf2 in Hff. apply Z.eqb_eq in Hff. split; [done|]. destruct Hok. split; cbn in *; try done; lia.
  - exists q, t, ch. split; [done|]. assert (Hok' := Hok). destruct Hok' as [Hc Hp Hr Hh Ht Hch Hct Hpp Hcp Hsl].
    cbn [ring ppc cpc cached_head cached_tail] in *. destruct Hr as (H1 & H2 & H3).
    split; cbn [ring ppc cpc cached_head cached_tail set_slot head tail] in *; try done.
    + unfold capacity_of. cbn. rewrite length_insert. exact Hc.
    + intros i Hi. rewrite Ht. replace t with (h + Z.of_nat (length q)) by lia.
      rewrite (set_slot_lookup r cap) by (done || lia || (apply (Hslot (Z.of_nat (length q)) Hok); lia)).
      rewrite (Hsl i Hi). destruct (Z.eqb_spec i (Z.of_nat (length q))) as [->|Hne]; [|done].
      by rewrite Nat2Z.id, (lookup_ge_None_2 q) by lia.
  - exists (q ++ [item]), (t + 1), ch. assert (Hok' := Hok). destruct Hok' as [Hc Hp Hr Hh Ht Hch Hct Hpp Hcp Hsl].
    cbn [ring ppc cpc cached_head cached_tail] in *. destruct Hr as (H1 & H2 & H3). split; [split; [lia|done]|].
    split; cbn [ring ppc cpc cached_head cached_tail set_tail head tail slots] in *; rewrite ?length_app; cbn [length];
      try done; try lia.
    + by rewrite Ht, wrap64_succ.
    + destruct c as [| | |x]; try done. destruct Hcp as [? [q' ->]]. split; [done|]. by exists (q' ++ [item]).
    + intros i Hi. rewrite (Hsl i Hi). f_equal. destruct (Z.lt_total i (Z.of_nat (length q))) as [Hlt|[->|Hgt]].
      * destruct (lookup_lt_is_Some_2 q (Z.to_nat i) ltac:(lia)) as [x Hx]. by rewrite lookup_app_l, Hx by lia.
      * rewrite Nat2Z.id, (lookup_ge_None_2 q), lookup_app_r, Nat.sub_diag, Z.eqb_refl by lia. cbn.
        destruct c as [| | |x]; try done. destruct Hcp as [_ [q' ->]]. cbn. done.
      * rewrite (lookup_ge_None_2 q), lookup_ge_None_2 by (rewrite ?length_app; cbn; lia).
        by rewrite (proj2 (Z.eqb_neq _ _)) by lia.
Qed.

Lemma cons_ok s e s' : ring_ok cap q h t ch ct s -> cons_step s e s' ->
  exists q' h' ct', spec_step cap q e q' /\ ring_ok cap q' h' t ch ct' s'.
Proof.
  intros Hok Hs. pose proof (empty_test s Hok) as [He1 He2]. pose proof (slot_at s) as Hslot.
  destruct Hs as [r ch0 p ct0|r ch0 p ct0 Hne|r ch0 p ct0 Heq|r ch0 p ct0 item Hit|r ch0 p ct0 item];
    cbn [ring cached_tail] in *; assert (Hok' := Hok); destruct Hok' as [Hc Hp Hr Hh Ht Hch Hct Hpp Hcp Hsl];
    cbn [ring ppc cpc cached_head cached_tail] in *; destruct Hr as (H1 & H2 & H3).
  - exists q, h, ct. split; [done|]. split; cbn [ring ppc cpc cached_head cached_tail]; try done.
    + destruct (Z.eqb_spec (head r) ct0) as [E|E]; [done|]. assert (h <> ct) by (intros Eh; by apply E, He1). lia.
    + by destruct (head r =? ct0).
  - exists q, h, t. split; [done|]. assert (q <> []) by (intros Eq; by apply Hne, He2).
    split; cbn [ring ppc cpc cached_head cached_tail]; try done; try lia. destruct q; [done|]. cbn [length] in *. lia.
  - exists q, h, t. apply He2 in Heq as ->. split; [done|].
    split; cbn [ring ppc cpc cached_head cached_tail] in *; try done; lia.
  - exists q, h, ct. split; [done|]. destruct q as [|x q'] eqn:Eq; [cbn [length] in *; lia|].
    assert (Hx : item = x).
    { unfold slot in Hit. rewrite Hh in Hit. specialize (Hslot 0 Hok ltac:(cbn [length] in *; lia)).
      rewrite Z.add_0_r in Hslot. rewrite Hslot in Hit. specialize (Hsl 0 ltac:(cbn [length] in *; lia)).
      rewrite Z.add_0_r, Hit in Hsl. by injection Hsl. }
    subst x. split; cbn [ring ppc cpc cached_head cached_tail set_slot head tail] in *; try done.
    + unfold capacity_of. cbn. rewrite length_insert. exact Hc.
    + split; [done|]. by exists q'.
    + intros i Hi. pose proof (set_slot_lookup r cap h 0 None i Hc Hi ltac:(lia) (Hslot 0 Hok ltac:(lia))) as E.
      rewrite Z.add_0_r, <-Hh in E. etransitivity; [exact E|]. rewrite (Hsl i Hi). destruct (Z.eqb_spec i 0) as [->|Hne]; [done|]. by destruct ((item :: q') !! Z.to_nat i).
  - destruct Hcp as [Hlt [q' ->]]. exists q', (h + 1), ct. split; [done|]. cbn [length] in *.
    split; cbn [ring ppc cpc cached_head cached_tail set_head head tail slots] in *; try done; try lia.
    + by rewrite Hh, wrap64_succ.
    + destruct p; try done; lia.
    + intros i Hi. replace (h + 1 + i) with (h + (i + 1)) by lia.
      destruct (decide (i + 1 = cap)) as [Ei|Ei].
      * rewrite Ei. replace ((h + cap) mod cap) with ((h + 0) mod cap).
        2: { rewrite Z.add_0_r. replace (h + cap) with (h + 1 * cap) by lia. by rewrite Z_mod_plus_full. }
        rewrite (Hsl 0) by lia. change ((item :: q') !! Z.to_nat 0) with (Some item). cbn match.
        rewrite (lookup_ge_None_2 q') by lia. f_equal. destruct p; try done.
        by rewrite (proj2 (Z.eqb_neq i _)) by lia.
      * rewrite (Hsl (i + 1)) by lia. f_equal. replace (Z.to_nat (i + 1)) with (S (Z.to_nat i)) by lia. cbn [lookup list_lookup].
        destruct (q' !! Z.to_nat i); [by rewrite (proj2 (Z.eqb_neq _ _)) by lia|].
        destruct p; try done. replace (Z.of_nat (S (length q'))) with (Z.of_nat (length q') + 1) by lia.
        destruct (Z.eqb_spec i (Z.of_nat (length q'))), (Z.eqb_spec (i + 1) (Z.of_nat (length q') + 1)); done || lia.
Qed.

(** What the invariant gives: no slot is read before it is written or written
    before it is read, and the queries are exact. *)
Lemma ring_safe s : ring_ok cap q h t ch ct s ->
  (cpc s = CRead -> exists x, slot (ring s) (head (ring s)) = Some (Some x)) /\
  (forall x, ppc s = PWrite x -> slot (ring s) (tail (ring s)) = Some None) /\
  len (ring s) = Z.of_nat (length q) /\ is_empty (ring s) = bool_decide (q = []).
Proof.
  intros Hok. pose proof (slot_at s) as Hslot. pose proof (empty_test s Hok) as [_ He].
  assert (Hok' := Hok). destruct Hok' as [Hc [k [Hk Hp]] (H1 & H2 & H3) Hh Ht Hch Hct Hpp Hcp Hsl].
  pose proof (pow_bound cap k Hk Hp). split_and!.
  - intros E. rewrite E in Hcp, Hsl. destruct q as [|x q']; [cbn [length] in *; lia|]. exists x.
    unfold slot. rewrite Hh. specialize (Hslot 0 Hok ltac:(lia)). specialize (Hsl 0 ltac:(lia)).
    rewrite Z.add_0_r in Hslot, Hsl. by rewrite Hslot, Hsl.
  - intros x E. rewrite E in Hpp, Hsl. unfold slot. rewrite Ht, H2.
    rewrite (Hslot (Z.of_nat (length q)) Hok) by lia. rewrite Hsl by lia.
    by rewrite Nat2Z.id, lookup_ge_None_2 by lia.
  - unfold len. rewrite Hh, Ht, wrap64_sub, wrap64_small by (unfold_width; lia). lia.
  - unfold is_empty. destruct (Z.eqb_spec (head (ring s)) (tail (ring s))) as [E|E].
    + by rewrite bool_decide_true by by apply He.
    + rewrite bool_decide_false; [done|]. intros Eq. by apply E, He.
Qed.
End preservation.

Lemma next_pow n : 0 <= n <= 9223372036854775808 ->
  exists k, 1 <= k <= 63 /\ Z.max (next_power_of_two n) 2 = 2 ^ k /\ n <= 2 ^ k.
Proof.
  intros Hn. unfold next_power_of_two.
  assert (Hl : 0 <= Z.log2_up n <= 63).
  { split; [apply Z.log2_up_nonneg|]. apply (Z.log2_up_le_mono _ 9223372036854775808). lia. }
  assert (2 ^ Z.log2_up n <= 2 ^ 63) by (apply Z.pow_le_mono_r; lia).
  assert (0 < 2 ^ Z.log2_up n) by (apply Z.pow_pos_nonneg; lia).
  change (2 ^ 63) with 9223372036854775808 in *. rewrite wrap64_small by (unfold_width; lia).
  destruct (decide (Z.log2_up n = 0)) as [E|E].
  - rewrite E. exists 1. cbn. split_and!; try lia. apply Z.log2_up_null in E. lia.
  - exists (Z.log2_up n). assert (2 ^ 1 <= 2 ^ Z.log2_up n) by (apply Z.pow_le_mono_r; lia).
    split_and!; try lia. destruct (Z.le_gt_cases n 1); [lia|]. by apply Z.log2_up_spec.
Qed.

Lemma channel_ok capacity : 0 <= capacity <= 9223372036854775808 ->
  exists cap, capacity <= cap /\ ring_ok cap [] 0 0 0 0 (channel capacity).
Proof.
  intros Hc. destruct (next_pow capacity Hc) as (k & Hk & E & Hle). exists (2 ^ k). split; [done|].
  pose proof (pow_bound _ k Hk eq_refl).
  split; cbn [channel ring ppc cpc cached_head cached_tail with_capacity head tail]; try done; try (cbn; lia).
  - unfold capacity_of, with_capacity. cbn [slots]. rewrite length_replicate, E. lia.
  - by exists k.
  - split; [done|]. lia.
  - intros i Hi. unfold with_capacity. cbn [slots]. rewrite E, lookup_nil.
    apply lookup_replicate_2. pose proof (Z.mod_pos_bound (0 + i) (2 ^ k) ltac:(lia)). lia.
Qed.

Lemma steps_ok s es s' cap h t ch ct : steps s es s' -> ring_ok cap [] h t ch ct s ->
  exists q h' t' ch' ct', spec_run cap es q /\ ring_ok cap q h' t' ch' ct' s'.
Proof.
  intros Hs Hok. induction Hs as [s|s s1 s2 es e Hs IH Hstep].
  - exists [], h, t, ch, ct. split; [constructor|done].
  - destruct (IH Hok) as (q & h1 & t1 & ch1 & ct1 & Hrun & Hok1). destruct Hstep as [Hstep|Hstep].
    + destruct (prod_ok _ _ _ _ _ _ _ _ _ Hok1 Hstep) as (q' & t' & ch' & Hsp & Hok2).
      exists q', h1, t', ch', ct1. split; [by econstructor|done].
    + destruct (cons_ok _ _ _ _ _ _ _ _ _ Hok1 Hstep) as (q' & h' & ct' & Hsp & Hok2).
      exists q', h', t1, ch1, ct'. split; [by econstructor|done].
Qed.

(** Pushed items come out in order, and the queue holds the rest. *)
Definition pushed (es : list event) : list T := es ≫= fun e => match e with Pushed x => [x] | _ => [] end.
Definition popped (es : list event) : list T := es ≫= fun e => match e with Popped x => [x] | _ => [] end.

Lemma spec_fifo cap es q : spec_run cap es q -> pushed es = popped es ++ q.
Proof.
  induction 1 as [|es e q q' Hrun IH Hstep]; [done|]. unfold pushed, popped in *. rewrite !bind_app, IH.
  destruct e as [x|x|x| |]; cbn in *; rewrite ?app_nil_r.
  - destruct Hstep as [_ ->]. by rewrite (assoc_L (++)).
  - by destruct Hstep as [_ ->].
  - subst q. by rewrite <-(assoc_L (++)).
  - by destruct Hstep as [-> ->].
  - by subst q'.
Qed.

(** [Ring::drop] releases exactly the queued items (the two ends are idle). *)
Lemma drop_loop_ok cap q h t ch ct s fuel : ring_ok cap q h t ch ct s -> ppc s = PIdle -> cpc s = CIdle ->
  (length q <= fuel)%nat -> forall j, (j <= length q)%nat -> (length q - j <= fuel)%nat ->
  drop_loop fuel (ring s) (wrap64 (h + Z.of_nat j)) = Some <$> drop j q.
Proof.
  intros Hok Hp Hc Hf. pose proof (slot_at cap q h t ch ct s) as Hslot.
  assert (Hok' := Hok). destruct Hok' as [Hcap [k [Hk Hpow]] (H1 & H2 & H3) Hh Ht _ _ _ _ Hsl].
  rewrite Hp, Hc in Hsl. pose proof (pow_bound cap k Hk Hpow). clear Hf.
  induction fuel as [|fuel IH]; intros j Hj Hfuel.
  - by rewrite drop_ge by lia.
  - cbn [drop_loop]. rewrite Ht. destruct (Z.eqb_spec (wrap64 (h + Z.of_nat j)) (wrap64 t)) as [E|E].
    + apply wrap64_inj in E; [|lia]. by rewrite drop_ge by lia.
    + assert (j < length q)%nat as Hlt by (destruct (decide (j = length q)) as [->|]; [by rewrite H2 in E|lia]).
      destruct (lookup_lt_is_Some_2 q j Hlt) as [x Hx]. rewrite (drop_S q x j Hx). cbn. f_equal.
      * unfold slot. rewrite Hslot by (done || lia). rewrite Hsl by lia. by rewrite Nat2Z.id, Hx.
      * rewrite wrap64_succ, <-Z.add_assoc. replace (Z.of_nat j + 1) with (Z.of_nat (S j)) by lia. apply IH; lia.
Qed.

Lemma drop_ring_ok cap q h t ch ct s : ring_ok cap q h t ch ct s -> ppc s = PIdle -> cpc s = CIdle ->
  drop_ring (ring s) = Some <$> q.
Proof.
  intros Hok Hp Hc. assert (Hok' := Hok). destruct Hok' as [Hcap _ (H1 & H2 & H3) Hh _ _ _ _ _ _].
  unfold capacity_of in Hcap. unfold drop_ring. rewrite Hh, <-(Z.add_0_r h).
  apply (drop_loop_ok cap q h t ch ct s (length (slots (ring s))) Hok Hp Hc ltac:(lia) 0); lia.
Qed.
End ring.

Arguments Ring : clear implicits.
Arguments State : clear implicits.
Arguments event : clear implicits.

(** C33: The ring is a bounded FIFO queue.  Whatever way the two threads
    interleave, the results their calls return are those of an atomic queue of
    the rounded-up capacity: [push] refuses only when it holds that many items,
    [pop] finds it empty only when it is, items come out in the order they went
    in.  A slot is never read before it was written nor overwritten before it
    was read, across any number of wrap-arounds of the 64-bit indices, and
    dropping the ring releases exactly the items left in it. *)
Theorem ring_refines_queue {T : Type} (capacity : Z) (es : list (event T)) (s : State T) :
  0 <= capacity <= 9223372036854775808 -> steps (channel capacity) es s ->
  exists cap q, capacity <= cap /\ capacity_of (ring s) = cap /\ spec_run cap es q /\
    pushed es = popped es ++ q /\ len (ring s) = Z.of_nat (length q) /\
    is_empty (ring s) = bool_decide (q = []) /\
    (cpc s = CRead -> exists x, slot (ring s) (head (ring s)) = Some (Some x)) /\
    (forall x, ppc s = PWrite x -> slot (ring s) (tail (ring s)) = Some None) /\
    (ppc s = PIdle -> cpc s = CIdle -> drop_ring (ring s) = Some <$> q).
Proof.
  intros Hc Hs. destruct (channel_ok (T := T) capacity Hc) as (cap & Hle & Hok).
  destruct (steps_ok _ _ _ _ _ _ _ _ Hs Hok) as (q & h & t & ch & ct & Hrun & Hok').
  destruct (ring_safe _ _ _ _ _ _ _ Hok') as (H1 & H2 & H3 & H4). exists cap, q.
  split_and!; try done; [apply Hok'|by apply (spec_fifo cap)|by apply (drop_ring_ok cap q h t ch ct)].
Qed.

Lemma steps_cons {T : Type} (s s1 s2 : State T) e es : step s e s1 -> steps s1 es s2 -> steps s (e :: es) s2.
Proof.
  intros H Hs. induction Hs as [s1|s1 s2 s3 es e' Hs IH Hstep].
  - apply (steps_snoc s s s1 [] e); [constructor|done].
  - rewrite app_comm_cons. by eapply steps_snoc; [apply IH|].
Qed.

(** A push and a pop, and a pop on the empty queue. *)
Definition example_events : list (event Z) :=
  [Silent; Silent; Pushed 7; Silent; Silent; Silent; Popped 7; Silent; Empty].

Lemma example_trace : exists s, steps (channel 2) example_events s.
Proof.
  eexists. unfold example_events.
  eapply steps_cons; [left; apply (push_call _ _ _ _ 7)|].
  eapply steps_cons; [left; apply push_write|].
  eapply steps_cons; [left; apply push_publish|].
  eapply steps_cons; [right; apply pop_call|].
  eapply steps_cons; [right; apply pop_reload; vm_compute; discriminate|].
  eapply steps_cons; [right; apply (pop_read _ _ _ _ 7); vm_compute; reflexivity|].
  eapply steps_cons; [right; apply pop_publish|].
  eapply steps_cons; [right; apply pop_call|].
  eapply steps_cons; [right; apply pop_empty; vm_compute; reflexivity|].
  constructor.
Qed.

Lemma ring_refines_queue_witness : exists cap q, 2 <= cap /\ spec_run cap example_events q /\ [7] = [7] ++ q.
Proof.
  destruct example_trace as [s Hs].
  destruct (ring_refines_queue 2 example_events s) as (cap & q & Hc & _ & Hr & Hq & _); [lia|exact Hs|].
  exists cap, q. split; [exact Hc|]. split; [exact Hr|exact Hq].
Defined.
