(* ===== verification/IdGen.v ===== *)
(** * Id generation

    [src/src/idgen.rs]: the Leaf-style generator.  [next_id] is a sequence of
    steps, one per access to shared memory, and any number of threads of the
    process interleave between them; the segment mutex makes [stage_next] one
    step and [install_next] two (the cursor and the end are stored apart).
    The allocator is shared with other processes, which may reserve segments
    at any point.  A schedule is a list of choices, executed by [exec]. *)

From S2P Require Import Prelude.

(** [MemorySegmentProvider]: the database row. *)
Module SegmentProvider.
Definition next_segment (max_id step : Z) : Z * Z := (max_id, wrap64 (max_id + step)).
End SegmentProvider.

Module LeafIdGen.

Record LeafIdGen := mkGen {
  step : Z;
  cursor : Z;
  end_ : Z;              (* exclusive end of the current segment *)
  next : option Z;       (* the staged segment *)
  locked : bool          (* its mutex *)
}.

Inductive pc :=
| Idle
| Loading (id : Z)       (* has its id, about to load [end] *)
| Staging (id : Z)       (* about to stage the next segment *)
| Installing (e : Z)     (* found the segment exhausted at [e] *)
| Storing (start : Z).   (* holds the mutex, about to store [end] *)

(** The process, the allocator and what was handed out: the ids returned, the
    segments of this process and those of the others. *)
Record System := mkSys {
  gen : LeafIdGen;
  threads : list pc;
  max_id : Z;
  returned : list Z;
  own : list (Z * Z);
  foreign : list (Z * Z)
}.

Definition segment (start step : Z) : Z * Z := (start, start + step).

(** [LeafIdGen::new] over an allocator at [max_id], with [n] threads. *)
Definition new (max_id step : Z) (n : nat) : outcome System :=
  assert_that (2 <=? step) "step must be >= 2" (
    let '(start, max_id) := SegmentProvider.next_segment max_id step in
    Ret (mkSys (mkGen step start (wrap64 (start + step)) None false) (replicate n Idle) max_id []
           [segment start step] [])).

(** [stage_next]: nothing when the mutex is held or a segment is staged. *)
Definition stage_next (s : System) : System :=
  let g := gen s in
  if locked g then s
  else
    match next g with
    | Some _ => s
    | None =>
        let '(start, max_id) := SegmentProvider.next_segment (max_id s) (step g) in
        mkSys (mkGen (step g) (cursor g) (end_ g) (Some start) false) (threads s) max_id (returned s)
          (segment start (step g) :: own s) (foreign s)
    end.

(** [install_next] up to the store of the cursor: the start it installs. *)
Definition install_start (s : System) : Z * System :=
  let g := gen s in
  let '(start, s) :=
    match next g with
    | Some start => (start, s)
    | None =>
        let '(start, max_id) := SegmentProvider.next_segment (max_id s) (step g) in
        (start, mkSys g (threads s) max_id (returned s) (segment start (step g) :: own s) (foreign s))
    end in
  (start, mkSys (mkGen (step g) (Z.max (cursor g) start) (end_ g) None true) (threads s) (max_id s) (returned s)
            (own s) (foreign s)).

Definition at_pc (s : System) (i : nat) (p : pc) : System :=
  mkSys (gen s) (<[i := p]> (threads s)) (max_id s) (returned s) (own s) (foreign s).

Definition return_id (s : System) (i : nat) (id : Z) : System :=
  mkSys (gen s) (<[i := Idle]> (threads s)) (max_id s) (returned s ++ [id]) (own s) (foreign s).

(** One step of thread [i] inside [next_id]. *)
Definition advance (s : System) (i : nat) : System :=
  let g := gen s in
  match threads s !! i with
  | Some Idle =>
      let g := mkGen (step g) (wrap64 (cursor g + 1)) (end_ g) (next g) (locked g) in
      at_pc (mkSys g (threads s) (max_id s) (returned s) (own s) (foreign s)) i (Loading (cursor (gen s)))
  | Some (Loading id) =>
      if id <? end_ g then
        if end_ g <=? wrap64 (id + step g / 2) then at_pc s i (Staging id) else return_id s i id
      else at_pc s i (Installing (end_ g))
  | Some (Staging id) => return_id (stage_next s) i id
  | Some (Installing e) =>
      if locked g then s
      else if negb (end_ g =? e) then at_pc s i Idle
      else let '(start, s) := install_start s in at_pc s i (Storing start)
  | Some (Storing start) =>
      let g := mkGen (step g) (cursor g) (wrap64 (start + step g)) (next g) false in
      at_pc (mkSys g (threads s) (max_id s) (returned s) (own s) (foreign s)) i Idle
  | None => s
  end.

(** Another process reserves a segment. *)
Definition reserve (s : System) : System :=
  let '(start, m) := SegmentProvider.next_segment (max_id s) (step (gen s)) in
  mkSys (gen s) (threads s) m (returned s) (own s) (segment start (step (gen s)) :: foreign s).

Inductive choice := Thread (i : nat) | Reserve.

Definition exec (s : System) (c : choice) : System :=
  match c with Thread i => advance s i | Reserve => reserve s end.

Definition run (s : System) (cs : list choice) : System := foldl exec s cs.

End LeafIdGen.
Import LeafIdGen.

(** ** Uniqueness *)

(** The ids taken from the cursor and not yet returned. *)
Definition held (p : pc) : list Z := match p with Loading id | Staging id => [id] | _ => [] end.
Definition taken (s : System) : list Z := (threads s ≫= held) ++ returned s.

Record gen_ok (s : System) : Prop := {
  go_nodup : NoDup (taken s);
  go_below : forall id, id ∈ taken s -> id < cursor (gen s);
  go_start : 0 <= cursor (gen s)
}.

Lemma held_insert l i p0 p : l !! i = Some p0 -> (<[i := p]> l ≫= held) ++ held p0 ≡ₚ (l ≫= held) ++ held p.
Proof.
  intros Hi. rewrite <-(take_drop_middle l i p0 Hi) at 2. rewrite insert_take_drop by by eapply lookup_lt_Some.
  rewrite !bind_app. cbn. rewrite <-!(assoc_L (++)). apply Permutation_app_head.
  rewrite (assoc_L (++)), (comm (++) (held p) (drop _ _ ≫= held)), <-(assoc_L (++)), (comm (++) (held p) (held p0)).
  rewrite !(assoc_L (++)). apply Permutation_app_tail. apply Permutation_app_comm.
Qed.

(** Nothing taken is added, and the cursor does not go back. *)
Lemma gen_ok_less s s' rest : gen_ok s -> taken s ≡ₚ taken s' ++ rest -> cursor (gen s) <= cursor (gen s') -> gen_ok s'.
Proof.
  intros [H1 H2 H3] Hp Hc. rewrite Hp in H1. apply NoDup_app in H1 as (H1 & _ & _). split; [done| |lia].
  intros id Hid. assert (id ∈ taken s) as Hin by (rewrite Hp; apply elem_of_app; by left). specialize (H2 id Hin). lia.
Qed.

Lemma taken_at s i p0 p : threads s !! i = Some p0 -> taken (at_pc s i p) ++ held p0 ≡ₚ taken s ++ held p.
Proof.
  intros Hi. unfold taken. cbn [at_pc threads returned]. pose proof (held_insert _ _ p0 p Hi) as H.
  rewrite <-!(assoc_L (++)), (comm (++) (returned s) (held p0)), (comm (++) (returned s) (held p)).
  rewrite !(assoc_L (++)). by rewrite H.
Qed.

Lemma taken_return s i p0 id : threads s !! i = Some p0 -> held p0 = [id] -> taken (return_id s i id) ≡ₚ taken s.
Proof.
  intros Hi Hh. pose proof (taken_at s i p0 Idle Hi) as H. rewrite Hh, app_nil_r in H. rewrite <-H.
  unfold taken. cbn [return_id at_pc threads returned]. by rewrite (assoc_L (++)).
Qed.

Lemma stage_next_same s : threads (stage_next s) = threads s /\ returned (stage_next s) = returned s /\
  cursor (gen (stage_next s)) = cursor (gen s).
Proof. unfold stage_next. destruct (locked (gen s)), (LeafIdGen.next (gen s)); done. Qed.

Lemma install_start_same s : threads (install_start s).2 = threads s /\ returned (install_start s).2 = returned s /\
  cursor (gen (install_start s).2) = Z.max (cursor (gen s)) (install_start s).1.
Proof. unfold install_start. destruct (LeafIdGen.next (gen s)); done. Qed.

Lemma advance_ok s i : gen_ok s -> cursor (gen s) < U64_MAX -> gen_ok (advance s i).
Proof.
  intros Hok Hlt. assert (Hok' := Hok). destruct Hok' as [H1 H2 H3]. unfold advance.
  destruct (threads s !! i) as [[|id|id|e|start]|] eqn:Ei; [| | | | |done].
  - set (s0 := mkSys _ (threads s) _ _ _ _). pose proof (taken_at s0 i Idle (Loading (cursor (gen s))) Ei) as Hp.
    cbn [held] in Hp. rewrite app_nil_r in Hp. change (taken s0) with (taken s) in Hp.
    assert (Hw : cursor (gen (at_pc s0 i (Loading (cursor (gen s))))) = cursor (gen s) + 1).
    { cbn. apply wrap64_small. unfold_width. lia. }
    split.
    + rewrite Hp. apply NoDup_app. split_and!; [done| |apply NoDup_singleton].
      intros id Hid ->%list_elem_of_singleton. specialize (H2 _ Hid). lia.
    + intros id. rewrite Hw, Hp, elem_of_app, list_elem_of_singleton. intros [Hid| ->]; [specialize (H2 _ Hid)|]; lia.
    + lia.
  - destruct (id <? end_ (gen s)).
    + destruct (_ <=? _).
      * apply (gen_ok_less s _ []); [done| |cbn; lia]. pose proof (taken_at s i _ (Staging id) Ei) as Hp. cbn [held] in Hp.
        rewrite app_nil_r. by apply Permutation_app_inv_r in Hp.
      * apply (gen_ok_less s _ []); [done| |cbn; lia]. rewrite app_nil_r. by rewrite (taken_return s i _ id Ei).
    + apply (gen_ok_less s _ [id]); [done| |cbn; lia].
      pose proof (taken_at s i _ (Installing (end_ (gen s))) Ei) as Hp. cbn [held] in Hp. by rewrite Hp, app_nil_r.
  - destruct (stage_next_same s) as (E1 & E2 & E3). apply (gen_ok_less s _ []); [done| |cbn; lia].
    rewrite app_nil_r, (taken_return (stage_next s) i (Staging id) id) by (done || by rewrite E1).
    unfold taken. by rewrite E1, E2.
  - destruct (locked _); [done|]. destruct (negb _).
    + apply (gen_ok_less s _ []); [done| |cbn; lia]. pose proof (taken_at s i _ Idle Ei) as Hp. cbn [held] in Hp.
      by rewrite !app_nil_r in *.
    + destruct (install_start_same s) as (E1 & E2 & E3). destruct (install_start s) as [start s1]. cbn [fst snd] in *.
      apply (gen_ok_less s _ []); [done| |cbn; lia].
      pose proof (taken_at s1 i (Installing e) (Storing start) ltac:(by rewrite E1)) as Hp. cbn [held] in Hp.
      rewrite !app_nil_r in *. rewrite Hp. unfold taken. by rewrite E1, E2.
  - set (s0 := mkSys _ (threads s) _ _ _ _). pose proof (taken_at s0 i (Storing start) Idle Ei) as Hp. cbn [held] in Hp.
    apply (gen_ok_less s _ []); [done| |cbn; lia]. rewrite !app_nil_r in *. by rewrite Hp.
Qed.

Lemma new_ok m st n s : LeafIdGen.new m st n = Ret s -> 0 <= m -> gen_ok s.
Proof.
  unfold LeafIdGen.new, assert_that. destruct (2 <=? st); [|done]. intros [= <-] Hm.
  assert (E : replicate n Idle ≫= held = []) by (induction n as [|n IH]; [done|exact IH]).
  split; unfold taken; cbn [threads returned gen cursor]; rewrite ?E; [constructor| |done].
  by intros id ?%elem_of_nil.
Qed.

(** The counters have not reached the end of their 64 bits. *)
Definition in_range (s : System) : Prop := cursor (gen s) < U64_MAX /\ 0 <= max_id s /\ max_id s + step (gen s) <= U64_MAX.

Lemma run_inv (P : System -> Prop) s cs :
  (forall s c, P s -> in_range s -> P (exec s c)) -> P s ->
  (forall k, in_range (run s (take k cs))) -> P (run s cs).
Proof.
  intros Hstep. revert s. induction cs as [|c cs IH]; intros s Hs Hr; [done|].
  change (run s (c :: cs)) with (run (exec s c) cs). apply IH.
  - apply Hstep; [done|]. apply (Hr 0%nat).
  - intros k. apply (Hr (S k)).
Qed.

(** ** One thread stays within its segments *)
Definition owned (s : System) (id : Z) : Prop := exists a b, (a, b) ∈ own s /\ a <= id < b.

Definition whole (s : System) (start : Z) : Prop :=
  segment start (step (gen s)) ∈ own s /\ start + step (gen s) <= U64_MAX /\ 0 <= start.

(** The current segment starts at or below what the thread has or will take. *)
Definition solo_pc (s : System) (start : Z) (p : pc) : Prop :=
  match p with
  | Idle | Installing _ => start <= cursor (gen s)
  | Loading id => start <= id < cursor (gen s)
  | Staging id => start <= id < cursor (gen s) /\ id < end_ (gen s)
  | Storing start' => whole s start' /\ start' <= cursor (gen s)
  end.

Record solo_ok (s : System) : Prop := {
  so_pc : exists p start, threads s = [p] /\ (start, end_ (gen s)) ∈ own s /\ solo_pc s start p;
  so_next : forall start, LeafIdGen.next (gen s) = Some start -> whole s start;
  so_step : 2 <= step (gen s);
  so_cursor : 0 <= cursor (gen s);
  so_returned : forall id, id ∈ returned s -> owned s id
}.

(** The staged or freshly reserved segment is ours. *)
Lemma install_whole s : in_range s -> 2 <= step (gen s) ->
  (forall start, LeafIdGen.next (gen s) = Some start -> whole s start) ->
  let '(start, s1) := install_start s in
  whole s1 start /\ (forall x, x ∈ own s -> x ∈ own s1) /\ end_ (gen s1) = end_ (gen s) /\
  step (gen s1) = step (gen s) /\ LeafIdGen.next (gen s1) = None.
Proof.
  intros (_ & Hm & Hr) Hst Hn. unfold install_start, whole. destruct (LeafIdGen.next (gen s)) as [start|]; cbn.
  - specialize (Hn start eq_refl) as (H1 & H2 & H3). done.
  - split_and!; try done; [by left|by right].
Qed.

Lemma owned_mono s s' id : (forall x, x ∈ own s -> x ∈ own s') -> owned s id -> owned s' id.
Proof. intros H (a & b & Hin & Hab). exists a, b. split; [by apply H|done]. Qed.

Lemma stage_solo s : in_range s -> 2 <= step (gen s) ->
  (forall start, LeafIdGen.next (gen s) = Some start -> whole s start) ->
  let s1 := stage_next s in
  (forall start, LeafIdGen.next (gen s1) = Some start -> whole s1 start) /\
  (forall x, x ∈ own s -> x ∈ own s1) /\ end_ (gen s1) = end_ (gen s) /\ step (gen s1) = step (gen s).
Proof.
  intros (_ & Hm & Hr) Hst Hn. unfold stage_next, whole in *. destruct (locked (gen s)); [by split_and!; auto|].
  destruct (LeafIdGen.next (gen s)) as [st|] eqn:E; [by rewrite E; split_and!; auto|]. cbn.
  split_and!; try done; [|by right]. intros st [= <-]. split_and!; [by left|done|done].
Qed.

Lemma advance_solo s i : solo_ok s -> in_range s -> solo_ok (advance s i).
Proof.
  intros Hok Hr. assert (Hok' := Hok). destruct Hok' as [(p & start & Et & Hown & Hpc) Hn Hst Hcur Hret].
  destruct Hr as (Hc & Hm). assert (Hr : in_range s) by done.
  unfold advance. rewrite Et. destruct i as [|i]; [|done]. cbn [lookup list_lookup].
  destruct p as [|id|id|e|st]; cbn [solo_pc] in Hpc.
  - split; cbn; try done.
    + exists (Loading (cursor (gen s))), start. rewrite ?Et. cbn. rewrite wrap64_small by (unfold_width; lia).
      split_and!; try done; lia.
    + rewrite wrap64_small by (unfold_width; lia). lia.
  - destruct (Z.ltb_spec id (end_ (gen s))) as [Hid|Hid].
    + destruct (_ <=? _).
      * split; cbn; try done. exists (Staging id), start. by rewrite ?Et.
      * split; cbn; try done.
        -- exists Idle, start. rewrite ?Et. cbn. split_and!; try done. lia.
        -- intros x [Hx|Hx%list_elem_of_singleton]%elem_of_app; [by apply Hret|]. subst x.
           exists start, (end_ (gen s)). split; [done|lia].
    + split; cbn; try done. exists (Installing (end_ (gen s))), start. rewrite ?Et. cbn. split_and!; try done. lia.
  - destruct (stage_next_same s) as (E1 & E2 & E3).
    destruct (stage_solo s Hr Hst Hn) as (N1 & N2 & N3 & N4).
    split; cbn [return_id gen threads returned own]; rewrite ?E2, ?E3, ?N4; try done.
    + exists Idle, start. rewrite E1, ?Et, N3. split_and!; [done|by apply N2|]. cbn. rewrite E3. lia.
    + intros x [Hx|Hx%list_elem_of_singleton]%elem_of_app.
      * apply (owned_mono s); [exact N2|by apply Hret].
      * subst x. exists start, (end_ (gen s)). split; [by apply N2|lia].
  - destruct (locked (gen s)); [done|]. destruct (negb _).
    + split; cbn; try done. exists Idle, start. by rewrite ?Et.
    + pose proof (install_whole s Hr Hst Hn) as Hi. destruct (install_start_same s) as (E1 & E2 & E3).
      destruct (install_start s) as [start' s1]. cbn [fst snd] in *. destruct Hi as (W & N2 & N3 & N4 & N5).
      split; cbn [at_pc gen threads returned own]; rewrite ?E2, ?E3, ?N4; try done.
      * exists (Storing start'), start. rewrite E1, ?Et, N3. split_and!; [done|by apply N2|]. cbn [solo_pc].
        split; [exact W|]. cbn. lia.
      * intros st' Est. rewrite N5 in Est. done.
      * lia.
      * intros x Hx. apply (owned_mono s); [exact N2|by apply Hret].
  - destruct Hpc as [(W1 & W2 & W3) Hle]. split; cbn; try done.
    exists Idle, st. rewrite ?Et. cbn. split_and!; [done| |lia].
    rewrite wrap64_small by (unfold_width; lia). exact W1.
Qed.

Lemma exec_ok s c : gen_ok s -> in_range s -> gen_ok (exec s c).
Proof. intros Hok Hr. destruct c as [i|]; [apply advance_ok; [done|apply Hr]|]. destruct Hok. by split. Qed.

Lemma exec_solo s c : solo_ok s -> in_range s -> solo_ok (exec s c).
Proof.
  intros Hok Hr. destruct c as [i|]; [by apply advance_solo|]. destruct Hok as [H1 H2 H3 H4 H5]. by split.
Qed.

Lemma new_solo m st s : LeafIdGen.new m st 1 = Ret s -> 0 <= m -> m + st <= U64_MAX -> solo_ok s.
Proof.
  unfold LeafIdGen.new, assert_that. destruct (Z.leb_spec 2 st); [|done]. intros [= <-] Hm Hw.
  split; cbn; try done; [|by intros id ?%elem_of_nil].
  exists Idle, m. split_and!; try done. rewrite wrap64_small by (unfold_width; lia). by left. all: try (cbn; lia).
Qed.

(** ** The segments of the processes are apart *)
Definition apart (s : System) : Prop :=
  2 <= step (gen s) /\
  (forall a b, (a, b) ∈ own s \/ (a, b) ∈ foreign s -> b <= max_id s) /\
  (forall a b c d, (a, b) ∈ own s -> (c, d) ∈ foreign s -> b <= c \/ d <= a).

(** A step reserves nothing, or one segment for this process. *)
Definition reserves (s s' : System) : Prop :=
  step (gen s') = step (gen s) /\ foreign s' = foreign s /\
  (own s' = own s /\ max_id s' = max_id s \/
   own s' = segment (max_id s) (step (gen s)) :: own s /\ max_id s' = max_id s + step (gen s)).

Lemma reserves_apart s s' : apart s -> reserves s s' -> apart s'.
Proof.
  intros (H1 & H2 & H3) (Est & Ef & [[Eo Em]|[Eo Em]]); unfold apart; rewrite Est, Ef, Eo, Em; [done|].
  split; [done|]. split.
  - intros a b [[[= -> ->]|Hin]%elem_of_cons|Hin]; [lia|..]; [pose proof (H2 a b (or_introl Hin))|pose proof (H2 a b (or_intror Hin))]; lia.
  - intros a b c d [[= -> ->]|Hin]%elem_of_cons Hf; [|by apply H3]. right. by apply (H2 c d (or_intror Hf)).
Qed.

Lemma reserved_next s : in_range s -> 2 <= step (gen s) -> wrap64 (max_id s + step (gen s)) = max_id s + step (gen s).
Proof. intros (_ & Hm & Hr) Hst. apply wrap64_small. unfold_width. lia. Qed.

Lemma advance_reserves s i : in_range s -> 2 <= step (gen s) -> reserves s (advance s i).
Proof.
  intros Hr Hst. pose proof (reserved_next s Hr Hst) as Hw. unfold advance. destruct (threads s !! i) as [[|id|id|e|st]|];
    try (by unfold reserves; auto).
  - case_if; [case_if|]; by unfold reserves; auto.
  - unfold reserves, stage_next. destruct (locked (gen s)); [by auto|]. destruct (LeafIdGen.next (gen s)); [by auto|]. cbn. by auto.
  - case_if; [by unfold reserves; auto|]. case_if; [by unfold reserves; auto|].
    unfold reserves, install_start. destruct (LeafIdGen.next (gen s)); cbn; by auto.
Qed.

Lemma exec_apart s c : apart s -> in_range s -> apart (exec s c).
Proof.
  intros Ha Hr. pose proof Ha as (H1 & H2 & H3). destruct c as [i|]; cbn [exec].
  - by apply (reserves_apart s); [|apply advance_reserves].
  - unfold apart, reserve. cbn. rewrite (reserved_next s Hr H1). split; [done|]. split.
    + intros a b [Hin|[[= -> ->]|Hin]%elem_of_cons]; [|lia|]; [pose proof (H2 a b (or_introl Hin))|pose proof (H2 a b (or_intror Hin))]; lia.
    + intros a b c d Ho [[= -> ->]|Hin]%elem_of_cons; [left; by apply (H2 a b (or_introl Ho))|by apply H3].
Qed.

Lemma new_apart m st n s : LeafIdGen.new m st n = Ret s -> 0 <= m -> m + st <= U64_MAX -> apart s.
Proof.
  unfold LeafIdGen.new, assert_that. destruct (Z.leb_spec 2 st); [|done]. intros [= <-] Hm Hw.
  unfold apart. cbn. rewrite wrap64_small by (unfold_width; lia). split; [done|]. split.
  - intros a b [[= -> ->]%list_elem_of_singleton|?%not_elem_of_nil]; [lia|done].
  - by intros a b c d _ ?%not_elem_of_nil.
Qed.

(** C35: Id generation.  However the threads of a process interleave, and
    whatever segments other processes reserve in between, no id is returned
    twice by the process (while the 64-bit counters last).  The segments of
    this process and those of the others never overlap.  With a single calling
    thread every id lies in a segment reserved by the process itself, so in none
    that another process reserved; with several threads this last part fails
    ([stale_id_escapes_segment]). *)
Theorem ids_unique (m st : Z) (n : nat) (s : System) (cs : list choice) :
  LeafIdGen.new m st n = Ret s -> 0 <= m -> m + st <= U64_MAX ->
  (forall k, in_range (run s (take k cs))) ->
  let s' := run s cs in
  NoDup (returned s') /\
  (forall a b c d, (a, b) ∈ own s' -> (c, d) ∈ foreign s' -> b <= c \/ d <= a) /\
  (n = 1%nat -> forall id, id ∈ returned s' ->
     owned s' id /\ forall a b, (a, b) ∈ foreign s' -> ~ a <= id < b).
Proof.
  intros Hnew Hm Hw Hr s'.
  pose proof (run_inv apart s cs exec_apart (new_apart _ _ _ _ Hnew Hm Hw) Hr) as (_ & _ & Hap). fold s' in Hap.
  split; [|split; [done|]].
  - pose proof (run_inv gen_ok s cs exec_ok (new_ok _ _ _ _ Hnew Hm) Hr) as [H _ _].
    apply NoDup_app in H as (_ & _ & H). exact H.
  - intros ->. intros id Hid.
    pose proof (run_inv solo_ok s cs exec_solo (new_solo _ _ _ Hnew Hm Hw) Hr) as Hsolo.
    pose proof (so_returned _ Hsolo id Hid) as Ho. split; [exact Ho|]. intros a b Hf.
    destruct Ho as (x & y & Ho & Hxy). pose proof (Hap x y a b Ho Hf). lia.
Qed.

Definition example_sys : System :=
  mkSys (mkGen 10 0 10 None false) [Idle] 10 [] [(0, 10)] [].

Lemma ids_unique_witness :
  let s := run example_sys [Thread 0; Reserve; Thread 0; Thread 0; Thread 0] in
  returned s = [0; 1] /\ NoDup (returned s) /\ owned s 1 /\ foreign s = [(10, 20)] /\ forall a b, (a, b) ∈ foreign s -> ~ a <= 1 < b.
Proof.
  intros s. split; [reflexivity|].
  destruct (ids_unique 0 10 1 example_sys [Thread 0; Reserve; Thread 0; Thread 0; Thread 0]) as (H1 & _ & H2).
  - reflexivity.
  - lia.
  - lia.
  - intros [|[|[|[|[|[|k]]]]]]; split_and!; vm_compute; congruence.
  - split; [exact H1|]. destruct (H2 eq_refl 1) as [H3 H4]; [right; left|]. split; [exact H3|]. split; [reflexivity|exact H4].
Defined.

(** With two threads it may not: one takes an id past the end of the segment,
    the other installs the next segment, and the first finds its id below the
    new end.  The id belongs to a segment of another process, which returns it
    too. *)
Theorem stale_id_escapes_segment :
  exists s cs id, LeafIdGen.new 0 10 2 = Ret s /\
    id ∈ returned (run s cs) /\ ~ owned (run s cs) id /\ exists a b, (a, b) ∈ foreign (run s cs) /\ a <= id < b.
Proof.
  exists (mkSys (mkGen 10 0 10 None false) [Idle; Idle] 10 [] [(0, 10)] []),
    (Reserve :: replicate 25 (Thread 0) ++ [Thread 1] ++ replicate 4 (Thread 0) ++ [Thread 1]), 10.
  set (s := run _ _). vm_compute in s. split; [reflexivity|]. split_and!.
  - apply (list_elem_of_lookup_2 _ 10). reflexivity.
  - intros (a & b & Hin & Hab). cbn [s own] in Hin.
    apply elem_of_cons in Hin as [[= -> ->]|Hin]; [lia|]. apply list_elem_of_singleton in Hin as [= -> ->]. lia.
  - exists 10, 20. split; [by left|lia].
Qed.
