(* ===== verification/Cluster.v ===== *)
(** * Routing instruments and categories to machines

    [src/src/cluster.rs]: the static instrument map, its replaceable router and
    the fenced migration of a category between Raft groups.  [usize] group and
    node numbers are integers; each operation holds its locks throughout,
    except [begin], which reads the current group before it takes the lock on
    the migrations and is therefore two steps. *)

From S2P Require Import Prelude Types.

Record ClusterMap := mkMap {
  nodes : list string;
  pinned : list (InstrumentId * Z);
  ranges : list (InstrumentId * InstrumentId * Z)
}.

Module ClusterMap.

Definition new (nodes : list string) : outcome ClusterMap :=
  assert_that (negb (bool_decide (nodes = []))) "cluster needs at least one node" (Ret (mkMap nodes [] [])).

Definition len (m : ClusterMap) : Z := Z.of_nat (length (nodes m)).

Definition pin (m : ClusterMap) (i : InstrumentId) (node : Z) : outcome ClusterMap :=
  assert_that (node <? len m) "node out of range" (Ret (mkMap (nodes m) (pinned m ++ [(i, node)]) (ranges m))).

Definition overlaps (start stop : InstrumentId) (r : InstrumentId * InstrumentId * Z) : bool :=
  (start <=? r.1.2) && (r.1.1 <=? stop).

Definition pin_range (m : ClusterMap) (start stop : InstrumentId) (node : Z) : outcome ClusterMap :=
  assert_that (start <=? stop) "instrument range start must not exceed end" (
  assert_that (node <? len m) "node out of range" (
  assert_that (negb (existsb (overlaps start stop) (ranges m))) "instrument ranges must not overlap" (
  Ret (mkMap (nodes m) (pinned m) (ranges m ++ [(start, stop, node)]))))).

Definition covers (i : InstrumentId) (r : InstrumentId * InstrumentId * Z) : bool :=
  (r.1.1 <=? i) && (i <=? r.1.2).

Definition node_for (m : ClusterMap) (i : InstrumentId) : Z :=
  match List.find (fun p => p.1 =? i) (pinned m) with
  | Some p => p.2
  | None =>
      match List.find (covers i) (ranges m) with
      | Some r => r.2
      | None => i mod len m
      end
  end.

Definition addr_for (m : ClusterMap) (i : InstrumentId) : outcome string :=
  expect (nodes m !! Z.to_nat (node_for m i)) "index out of bounds".

(** How a map is built. *)
Inductive build_op := Pin (i : InstrumentId) (node : Z) | PinRange (start stop : InstrumentId) (node : Z).

Definition build_step (m : ClusterMap) (op : build_op) : outcome ClusterMap :=
  match op with Pin i n => pin m i n | PinRange a b n => pin_range m a b n end.

Definition build (ns : list string) (ops : list build_op) : outcome ClusterMap :=
  let! m := new ns in ofold build_step m ops.

End ClusterMap.

(** [ClusterRouter]: the map and its version. *)
Record ClusterRouter := mkRouter { r_map : ClusterMap; r_version : Z }.

Module ClusterRouter.
Definition new (m : ClusterMap) : ClusterRouter := mkRouter m 1.
Definition version (r : ClusterRouter) : Z := r_version r.
Definition node_for (r : ClusterRouter) (i : InstrumentId) : Z * Z := (ClusterMap.node_for (r_map r) i, r_version r).
Definition replace (r : ClusterRouter) (m : ClusterMap) : ClusterRouter * Z :=
  (mkRouter m (wrap64 (r_version r + 1)), wrap64 (r_version r + 1)).
End ClusterRouter.

(** ** Category migration *)
Inductive MigrationState := Freezing | CatchingUp | Verified.

#[export] Instance MigrationState_eq_dec : EqDecision MigrationState.
Proof. solve_decision. Defined.

Record CategoryMigration := mkMig {
  category_id : Z;
  route_version : Z;
  from_group : Z;
  to_group : Z;
  m_state : MigrationState;
  frozen_index : Z;
  target_index : Z;
  m_fingerprint : Z
}.

Record RouteControlPlane := mkPlane {
  group_count : Z;
  pins : gmap Z Z;
  migrations : gmap Z CategoryMigration;
  p_version : Z
}.

Module RouteControlPlane.

Definition new (group_count : Z) (pins : gmap Z Z) : outcome RouteControlPlane :=
  assert_that (0 <? group_count) "route control plane needs a Raft group" (
  assert_that (forallb (fun p => p.2 <? group_count) (map_to_list pins)) "assertion failed" (
  Ret (mkPlane group_count pins ∅ 1))).

Definition version (s : RouteControlPlane) : Z := p_version s.

Definition group_for (s : RouteControlPlane) (c : Z) : Z := default (c mod group_count s) (pins s !! c).

Definition accepts (s : RouteControlPlane) (c : Z) : bool := bool_decide (migrations s !! c = None).

Definition active (s : RouteControlPlane) (c : Z) : option CategoryMigration := migrations s !! c.

Definition set_migration (s : RouteControlPlane) (c : Z) (m : CategoryMigration) : RouteControlPlane :=
  mkPlane (group_count s) (pins s) (<[c := m]> (migrations s)) (p_version s).

(** [begin] before the lock: the checks and the current group. *)
Definition begin_read (s : RouteControlPlane) (c to_group : Z) : io_result Z :=
  if group_count s <=? to_group then Err "target group is out of range"
  else
    let from_group := group_for s c in
    if from_group =? to_group then Err "category already belongs to target group" else Ok from_group.

(** [begin] under the lock. *)
Definition begin_commit (s : RouteControlPlane) (c from_group to_group : Z)
    : RouteControlPlane * io_result CategoryMigration :=
  match migrations s !! c with
  | Some _ => (s, Err "category migration already active")
  | None =>
      let v := wrap64 (p_version s + 1) in
      let m := mkMig c v from_group to_group Freezing 0 0 0 in
      (mkPlane (group_count s) (pins s) (<[c := m]> (migrations s)) v, Ok m)
  end.

Definition begin (s : RouteControlPlane) (c to_group : Z) : RouteControlPlane * io_result CategoryMigration :=
  match begin_read s c to_group with
  | Err why => (s, Err why)
  | Ok from_group => begin_commit s c from_group to_group
  end.

Definition frozen (s : RouteControlPlane) (c index : Z) : RouteControlPlane * io_result CategoryMigration :=
  match migrations s !! c with
  | None => (s, Err "category migration is not active")
  | Some m =>
      if negb (bool_decide (m_state m = Freezing)) || (index =? 0) then
        (s, Err "migration is not waiting for a valid freeze index")
      else
        let m := mkMig (category_id m) (route_version m) (from_group m) (to_group m) CatchingUp index
                   (target_index m) (m_fingerprint m) in
        (set_migration s c m, Ok m)
  end.

Definition caught_up (s : RouteControlPlane) (c target_index source_fingerprint target_fingerprint : Z)
    : RouteControlPlane * io_result CategoryMigration :=
  match migrations s !! c with
  | None => (s, Err "category migration is not active")
  | Some m =>
      if negb (bool_decide (m_state m = CatchingUp)) || (target_index <? frozen_index m) then
        (s, Err "target has not caught up to the freeze index")
      else if negb (source_fingerprint =? target_fingerprint) then
        (s, Err "source/target matching fingerprints differ")
      else
        let m := mkMig (category_id m) (route_version m) (from_group m) (to_group m) Verified (frozen_index m)
                   target_index source_fingerprint in
        (set_migration s c m, Ok m)
  end.

Definition activate (s : RouteControlPlane) (c : Z) : RouteControlPlane * io_result Z :=
  match migrations s !! c with
  | None => (s, Err "category migration is not active")
  | Some m =>
      if negb (bool_decide (m_state m = Verified)) then (s, Err "migration fingerprint is not verified")
      else
        let v := wrap64 (p_version s + 1) in
        (mkPlane (group_count s) (<[c := to_group m]> (pins s)) (delete c (migrations s)) v, Ok v)
  end.

Definition abort (s : RouteControlPlane) (c : Z) : RouteControlPlane * bool :=
  (mkPlane (group_count s) (pins s) (delete c (migrations s)) (p_version s), negb (accepts s c)).

End RouteControlPlane.
Import RouteControlPlane.

(** The calls of a migration driver. *)
Inductive call :=
| CallBegin (c to : Z)
| CallFrozen (c index : Z)
| CallCaughtUp (c index source target : Z)
| CallActivate (c : Z)
| CallAbort (c : Z).

Definition call_category (x : call) : Z :=
  match x with
  | CallBegin c _ | CallFrozen c _ | CallCaughtUp c _ _ _ | CallActivate c | CallAbort c => c
  end.

(** The new state, and whether the call succeeded. *)
Definition perform (s : RouteControlPlane) (x : call) : RouteControlPlane * bool :=
  let ok {A} (r : io_result A) := match r with Ok _ => true | Err _ => false end in
  match x with
  | CallBegin c to => let r := begin s c to in (r.1, ok r.2)
  | CallFrozen c i => let r := frozen s c i in (r.1, ok r.2)
  | CallCaughtUp c i a b => let r := caught_up s c i a b in (r.1, ok r.2)
  | CallActivate c => let r := activate s c in (r.1, ok r.2)
  | CallAbort c => abort s c
  end.

(** The successful calls, oldest first. *)
Definition perform_logged (st : RouteControlPlane * list call) (x : call) : RouteControlPlane * list call :=
  let r := perform st.1 x in (r.1, if r.2 then st.2 ++ [x] else st.2).

Definition drive (s : RouteControlPlane) (xs : list call) : RouteControlPlane * list call :=
  foldl perform_logged (s, []) xs.

(** ** Concurrent use of the router

    A reader loads the version and then the map; a replacement writes the map
    and then bumps the version.  [installed] records the maps in the order they
    were written, [bumping] counts the replacements between their two steps, and
    [answers] collects what the readers returned. *)
Record router_run := mkRun {
  rr_router : ClusterRouter;
  installed : list ClusterMap;
  bumping : nat;
  reading : gmap nat Z;
  answers : list (InstrumentId * Z * Z)
}.

Inductive router_event :=
| WriteMap (m : ClusterMap)
| BumpVersion
| LoadVersion (reader : nat)
| LoadMap (reader : nat) (i : InstrumentId).

Definition router_step (st : router_run) (ev : router_event) : router_run :=
  match ev with
  | WriteMap m =>
      mkRun (mkRouter m (r_version (rr_router st))) (installed st ++ [m]) (S (bumping st)) (reading st) (answers st)
  | BumpVersion =>
      match bumping st with
      | O => st
      | S n => mkRun (mkRouter (r_map (rr_router st)) (wrap64 (r_version (rr_router st) + 1))) (installed st) n
                 (reading st) (answers st)
      end
  | LoadVersion t =>
      mkRun (rr_router st) (installed st) (bumping st) (<[t := r_version (rr_router st)]> (reading st)) (answers st)
  | LoadMap t i =>
      match reading st !! t with
      | None => st
      | Some v => mkRun (rr_router st) (installed st) (bumping st) (delete t (reading st))
                    (answers st ++ [(i, ClusterMap.node_for (r_map (rr_router st)) i, v)])
      end
  end.

Definition router_start (m : ClusterMap) : router_run := mkRun (ClusterRouter.new m) [m] 0 ∅ [].

(** ** Static map lemmas *)
(** What [build] keeps: every target is a node, and ranges are disjoint. *)
Definition map_ok (m : ClusterMap) : Prop :=
  nodes m <> [] /\
  Forall (fun p => p.2 < ClusterMap.len m) (pinned m) /\
  Forall (fun r => r.1.1 <= r.1.2 /\ r.2 < ClusterMap.len m) (ranges m) /\
  (forall j k a b i, ranges m !! j = Some a -> ranges m !! k = Some b ->
     ClusterMap.covers i a = true -> ClusterMap.covers i b = true -> j = k).

Lemma build_step_ok m op m' : map_ok m -> ClusterMap.build_step m op = Ret m' -> map_ok m' /\ nodes m' = nodes m.
Proof.
  intros (Hn & Hp & Hr & Hd) H. destruct op as [i n | a b n]; cbn in H.
  - unfold ClusterMap.pin, assert_that in H. destruct (_ <? _) eqn:E; [|done]. zbool.
    injection H as <-. split; [|done]. split_and!; cbn; try done.
    apply Forall_app. split; [done|]. by apply Forall_singleton.
  - unfold ClusterMap.pin_range, assert_that in H.
    destruct (a <=? b) eqn:E1; [|done]. destruct (n <? _) eqn:E2; [|done].
    destruct (existsb _ _) eqn:E3; [done|]. zbool. injection H as <-. split; [|done].
    assert (Hnew : forall k r i, ranges m !! k = Some r -> ClusterMap.covers i r = true ->
                     ClusterMap.covers i (a, b, n) = true -> False).
    { intros k r i Hk Hr1 Hr2. apply not_true_iff_false in E3. apply E3, existsb_exists.
      exists r. split; [by eapply list_elem_of_In, list_elem_of_lookup_2|].
      unfold ClusterMap.covers, ClusterMap.overlaps in *. cbn in *. zbool. lia. }
    split_and!; cbn; try done.
    + apply Forall_app. split; [done|]. by apply Forall_singleton.
    + intros j k r r' i Hj Hk Hc Hc'.
      apply lookup_app_Some in Hj as [Hj | [Hlj Hj]]; apply lookup_app_Some in Hk as [Hk | [Hlk Hk]].
      * by eapply Hd.
      * apply list_lookup_singleton_Some in Hk as [_ <-]. by destruct (Hnew _ _ _ Hj Hc Hc').
      * apply list_lookup_singleton_Some in Hj as [_ <-]. by destruct (Hnew _ _ _ Hk Hc' Hc).
      * apply list_lookup_singleton_Some in Hj as [? _]. apply list_lookup_singleton_Some in Hk as [? _]. lia.
Qed.

Lemma new_map_ok ns m : ClusterMap.new ns = Ret m -> map_ok m /\ nodes m = ns.
Proof.
  unfold ClusterMap.new, assert_that. case_bool_decide; [done|]. cbn. intros [= <-].
  split; [|done]. split_and!; cbn; try done; by apply Forall_nil_2.
Qed.

Lemma build_ok ns ops m : ClusterMap.build ns ops = Ret m -> map_ok m /\ nodes m = ns.
Proof.
  unfold ClusterMap.build. destruct (ClusterMap.new ns) as [m0 |] eqn:E; [|done]. cbn.
  apply new_map_ok in E as [H0 <-]. revert m0 H0. induction ops as [|op ops IH]; intros m0 H0; cbn.
  - by intros [= <-].
  - destruct (ClusterMap.build_step m0 op) as [m1 |] eqn:E1; [|done]. cbn. intros H.
    destruct (build_step_ok _ _ _ H0 E1) as [H1 Hn]. rewrite <- Hn. by apply IH.
Qed.

Lemma node_for_lt m i : map_ok m -> ClusterMap.node_for m i < ClusterMap.len m.
Proof.
  intros (Hn & Hp & Hr & _). unfold ClusterMap.node_for.
  destruct (List.find _ (pinned m)) as [p |] eqn:E1.
  { apply find_some in E1 as [E1 _]. apply list_elem_of_In in E1. rewrite Forall_forall in Hp. by apply Hp. }
  destruct (List.find _ (ranges m)) as [r |] eqn:E2.
  { apply find_some in E2 as [E2 _]. apply list_elem_of_In in E2. rewrite Forall_forall in Hr. by apply Hr. }
  apply Z.mod_pos_bound. unfold ClusterMap.len. destruct (nodes m); [done|]. cbn. lia.
Qed.

Lemma node_for_range m i r :
  map_ok m -> i ∉ (pinned m).*1 -> r ∈ ranges m -> ClusterMap.covers i r = true -> ClusterMap.node_for m i = r.2.
Proof.
  intros (_ & _ & _ & Hd) Hi Hr Hc. unfold ClusterMap.node_for.
  destruct (List.find _ (pinned m)) as [p |] eqn:E1.
  { apply find_some in E1 as [E1 E]. zbool. destruct Hi. rewrite <- E.
    by apply list_elem_of_fmap_2, list_elem_of_In. }
  destruct (List.find _ (ranges m)) as [r' |] eqn:E2.
  - apply find_some in E2 as [E2 E]. apply list_elem_of_In in E2.
    apply list_elem_of_lookup in Hr as [j Hj], E2 as [k Hk].
    assert (j = k) as <- by by eapply (Hd j k r r' i). congruence.
  - apply list_elem_of_In in Hr. by rewrite (find_none _ _ E2 r Hr) in Hc.
Qed.

(** Every map that can be built sends every instrument to the address of one of
    its nodes; an instrument that is not pinned and lies in a range goes to that
    range's node, whichever range that is, and outside every range to the node
    its number selects. *)
Theorem cluster_map_routes ns ops m i :
  ClusterMap.build ns ops = Ret m ->
  (exists a, ClusterMap.addr_for m i = Ret a /\ a ∈ ns) /\
  (i ∉ (pinned m).*1 ->
     (forall r, r ∈ ranges m -> ClusterMap.covers i r = true -> ClusterMap.node_for m i = r.2) /\
     ((forall r, r ∈ ranges m -> ClusterMap.covers i r = false) ->
        ClusterMap.node_for m i = i mod Z.of_nat (length ns))).
Proof.
  intros H. apply build_ok in H as [H <-]. pose proof (node_for_lt m i H) as Hlt. split; [|split].
  - unfold ClusterMap.addr_for. unfold ClusterMap.len in Hlt.
    destruct (lookup_lt_is_Some_2 (nodes m) (Z.to_nat (ClusterMap.node_for m i))) as [a Ha].
    { destruct H as [Hn _]. destruct (nodes m); [done|]. cbn in *. lia. }
    rewrite Ha. exists a. split; [done|]. by eapply list_elem_of_lookup_2.
  - intros r. by apply node_for_range.
  - intros Hnone. unfold ClusterMap.node_for. destruct (List.find _ (pinned m)) as [p |] eqn:E1.
    { apply find_some in E1 as [E1 E]. zbool. exfalso. match goal with Hi : _ ∉ _ |- _ => apply Hi end.
      rewrite <- E. by apply list_elem_of_fmap_2, list_elem_of_In. }
    destruct (List.find _ (ranges m)) as [r |] eqn:E2; [|done].
    apply find_some in E2 as [E2 E]. apply list_elem_of_In in E2. by rewrite (Hnone r E2) in E.
Qed.

Lemma cluster_map_routes_witness :
  exists m, ClusterMap.build ["a"; "b"]%string [ClusterMap.PinRange 1 5000 0; ClusterMap.PinRange 5001 9000 1] = Ret m /\
            ClusterMap.node_for m 5001 = 1.
Proof.
  eexists. split; [reflexivity|].
  apply (proj2 (cluster_map_routes ["a"; "b"]%string
           [ClusterMap.PinRange 1 5000 0; ClusterMap.PinRange 5001 9000 1] _ 5001 eq_refl)
           ltac:(apply not_elem_of_nil)) with (r := (5001, 9000, 1)).
  - cbn. set_solver.
  - reflexivity.
Defined.

(** ** Router lemmas *)
Record router_ok (st : router_run) : Prop := {
  ro_installed : last (installed st) = Some (r_map (rr_router st));
  ro_version : 0 <= r_version (rr_router st) /\
               r_version (rr_router st) + Z.of_nat (bumping st) <= Z.of_nat (length (installed st));
  ro_reading : forall t v, reading st !! t = Some v -> v <= Z.of_nat (length (installed st));
  ro_answers : forall i n v, (i, n, v) ∈ answers st ->
                 exists k m, installed st !! k = Some m /\ n = ClusterMap.node_for m i /\ v <= Z.of_nat k + 1
}.

Lemma router_step_ok st ev : router_ok st -> router_ok (router_step st ev).
Proof.
  intros [Hi [Hv0 Hv] Hr Ha]. destruct ev as [m | | t | t i]; cbn.
  - constructor; cbn; rewrite ?length_app; cbn.
    + by rewrite last_snoc.
    + lia.
    + intros t v Ht. specialize (Hr t v Ht). lia.
    + intros i n v Hin. destruct (Ha i n v Hin) as (k & m' & Hk & ? & ?). exists k, m'.
      split_and!; [by apply lookup_app_l_Some | done | done].
  - destruct (bumping st) as [|n] eqn:E; [by constructor; rewrite ?E|].
    pose proof (wrap64_le (r_version (rr_router st) + 1) ltac:(lia)). constructor; cbn; try done. lia.
  - constructor; cbn; try done. intros t' v Ht.
    apply lookup_insert_Some in Ht as [[_ <-] | [_ Ht]]; [lia | by eapply Hr].
  - destruct (reading st !! t) as [v |] eqn:E; [|by constructor]. constructor; cbn; try done.
    + intros t' v' Ht. apply lookup_delete_Some in Ht as [_ Ht]. by eapply Hr.
    + intros i' n' v' Hin. apply elem_of_app in Hin as [Hin | Hin]; [by apply Ha|].
      apply list_elem_of_singleton in Hin as [= -> -> ->].
      exists (pred (length (installed st))), (r_map (rr_router st)). rewrite last_lookup in Hi.
      split_and!; [done | done |]. specialize (Hr t v E).
      destruct (installed st); [done|]. cbn in *. lia.
Qed.

(** Whatever readers and replacements interleave, a node returned with a version
    comes from the map that version names or from a newer one: a router never
    tags a stale route with the version of its replacement. *)
Theorem router_never_stale m evs i n v :
  (i, n, v) ∈ answers (foldl router_step (router_start m) evs) ->
  exists k m', installed (foldl router_step (router_start m) evs) !! k = Some m' /\
    n = ClusterMap.node_for m' i /\ v <= Z.of_nat k + 1.
Proof.
  assert (Hinv : forall st, router_ok st -> router_ok (foldl router_step st evs)).
  { induction evs as [|ev evs IH]; intros st H; cbn; [done|]. by apply IH, router_step_ok. }
  apply Hinv. constructor; cbn; try done. intros ? ? ? Hin. by apply not_elem_of_nil in Hin.
Qed.

Lemma router_never_stale_witness :
  exists k m', installed (foldl router_step (router_start (mkMap ["a"; "b"]%string [] []))
      [LoadVersion 0; WriteMap (mkMap ["a"; "b"]%string [(1, 0)] []); LoadMap 0 1; BumpVersion]) !! k = Some m' /\
    0 = ClusterMap.node_for m' 1 /\ 1 <= Z.of_nat k + 1.
Proof.
  apply (router_never_stale (mkMap ["a"; "b"]%string [] [])
    [LoadVersion 0; WriteMap (mkMap ["a"; "b"]%string [(1, 0)] []); LoadMap 0 1; BumpVersion] 1 0 1).
  vm_compute. left.
Defined.

(** ** Migration lemmas *)

(** The successful calls a migration in its present state has behind it. *)
Definition trail (m : CategoryMigration) : list call :=
  let c := category_id m in
  CallBegin c (to_group m) ::
  match m_state m with
  | Freezing => []
  | CatchingUp => [CallFrozen c (frozen_index m)]
  | Verified => [CallFrozen c (frozen_index m);
                 CallCaughtUp c (target_index m) (m_fingerprint m) (m_fingerprint m)]
  end.

Definition about (c : Z) (log : list call) : list call := filter (fun x => call_category x = c) log.

Record migration_ok (s : RouteControlPlane) (log : list call) (c : Z) (m : CategoryMigration) : Prop := {
  mo_category : category_id m = c;
  mo_from : from_group m = group_for s c;
  mo_to : to_group m < group_count s;
  mo_moves : from_group m <> to_group m;
  mo_frozen : m_state m <> Freezing -> frozen_index m <> 0;
  mo_target : m_state m = Verified -> frozen_index m <= target_index m;
  mo_trail : exists before, about c log = before ++ trail m
}.

Record plane_ok (s : RouteControlPlane) (log : list call) : Prop := {
  po_count : 0 < group_count s;
  po_pins : forall c g, pins s !! c = Some g -> g < group_count s;
  po_migrations : forall c m, migrations s !! c = Some m -> migration_ok s log c m
}.

Lemma about_snoc c log x :
  about c (log ++ [x]) = about c log ++ (if decide (call_category x = c) then [x] else []).
Proof. unfold about. rewrite filter_app, filter_cons. by case_decide. Qed.

(** A migration of another category is untouched. *)
Lemma migration_ok_other s s' log x c m :
  migration_ok s log c m -> group_count s' = group_count s -> group_for s' c = group_for s c ->
  call_category x <> c -> migration_ok s' (log ++ [x]) c m.
Proof.
  intros [] Hg Hf Hx. constructor; try done; [congruence | congruence |].
  rewrite about_snoc, decide_False, app_nil_r by done. done.
Qed.

Lemma new_plane_ok n ps s : new n ps = Ret s -> plane_ok s [].
Proof.
  unfold new, assert_that. destruct (0 <? n) eqn:E1; [|done].
  destruct (forallb _ _) eqn:E2; [|done]. zbool. intros [= <-]. constructor; cbn; [done | | done].
  intros c g Hc. apply elem_of_map_to_list in Hc. apply list_elem_of_In in Hc.
  rewrite forallb_forall in E2. specialize (E2 _ Hc). cbn in E2. zbool. done.
Qed.

(** Replacing the migration of [c] by its next stage. *)
Lemma set_migration_ok s log x m' :
  plane_ok s log ->
  migration_ok (set_migration s (call_category x) m') (log ++ [x]) (call_category x) m' ->
  plane_ok (set_migration s (call_category x) m') (log ++ [x]).
Proof.
  intros [Hc Hp Hm] Hnew. constructor; cbn; try done.
  intros c m0 H. apply lookup_insert_Some in H as [[<- <-] | [Hne H]]; [done|].
  eapply migration_ok_other; [by apply Hm | done | done | done].
Qed.

Lemma begin_ok s log c to s' m :
  plane_ok s log -> begin s c to = (s', Ok m) -> plane_ok s' (log ++ [CallBegin c to]).
Proof.
  intros [Hc Hp Hm]. unfold begin, begin_read, begin_commit.
  destruct (_ <=? to) eqn:E1; [done|]. destruct (_ =? to) eqn:E2; [done|]. zbool.
  destruct (migrations s !! c) eqn:E3; [done|]. intros [= <- <-]. constructor; cbn; try done.
  intros c' m' H. apply lookup_insert_Some in H as [[<- <-] | [Hne H]].
  - constructor; cbn; try done. exists (about c log). rewrite about_snoc. by rewrite decide_True.
  - eapply migration_ok_other; [by apply Hm | done | done | done].
Qed.

Lemma frozen_ok s log c i s' m :
  plane_ok s log -> frozen s c i = (s', Ok m) -> plane_ok s' (log ++ [CallFrozen c i]).
Proof.
  intros Hs. unfold frozen. destruct (migrations s !! c) as [m0 |] eqn:E; [|done].
  destruct (_ || _) eqn:E1; [done|]. zbool.
  match goal with Hf : bool_decide _ = true |- _ => apply bool_decide_eq_true in Hf end. intros [= <- <-].
  destruct (po_migrations _ _ Hs _ _ E) as [<- ? ? ? _ _ [before Ht]].
  apply (set_migration_ok _ _ (CallFrozen (category_id m0) i)); [done|]. constructor; cbn; try done.
  exists before. rewrite about_snoc, decide_True, Ht by done. unfold trail.
  match goal with Hf : m_state m0 = Freezing |- _ => rewrite Hf end. cbn. by rewrite <- app_assoc.
Qed.

Lemma caught_up_ok s log c i a b s' m :
  plane_ok s log -> caught_up s c i a b = (s', Ok m) -> plane_ok s' (log ++ [CallCaughtUp c i a b]).
Proof.
  intros Hs. unfold caught_up. destruct (migrations s !! c) as [m0 |] eqn:E; [|done].
  destruct (_ || _) eqn:E1; [done|]. destruct (negb (_ =? _)) eqn:E2; [done|]. zbool.
  match goal with Hf : bool_decide _ = true |- _ => apply bool_decide_eq_true in Hf end. intros [= <- <-].
  destruct (po_migrations _ _ Hs _ _ E) as [<- ? ? ? Hf _ [before Ht]].
  apply (set_migration_ok _ _ (CallCaughtUp (category_id m0) i a b)); [done|]. constructor; cbn; try done.
  - intros _. apply Hf. congruence.
  - exists before. rewrite about_snoc, decide_True, Ht by done. unfold trail.
    match goal with Hf : m_state m0 = CatchingUp |- _ => rewrite Hf end. cbn. subst. by rewrite <- app_assoc.
Qed.

Lemma activate_ok s log c s' v :
  plane_ok s log -> activate s c = (s', Ok v) -> plane_ok s' (log ++ [CallActivate c]).
Proof.
  intros [Hc Hp Hm]. unfold activate. destruct (migrations s !! c) as [m0 |] eqn:E; [|done].
  destruct (negb _) eqn:E1; [done|]. intros [= <- <-]. constructor; cbn; try done.
  - intros c' g H. apply lookup_insert_Some in H as [[<- <-] | [Hne H]]; [by apply (mo_to _ _ _ _ (Hm _ _ E)) | by eapply Hp].
  - intros c' m' H. apply lookup_delete_Some in H as [Hne H].
    eapply migration_ok_other; [by apply Hm | done | | done].
    unfold group_for. cbn. by rewrite lookup_insert_ne.
Qed.

Lemma abort_ok s log c : plane_ok s log -> plane_ok (abort s c).1 (log ++ [CallAbort c]).
Proof.
  intros [Hc Hp Hm]. constructor; cbn; try done.
  intros c' m' H. apply lookup_delete_Some in H as [Hne H].
  eapply migration_ok_other; [by apply Hm | done | done | done].
Qed.

(** A refused call leaves the control plane as it was. *)
Lemma perform_refused s x : (perform s x).2 = false -> (perform s x).1 = s.
Proof.
  destruct x as [c to | c i | c i a b | c | c]; cbn.
  - unfold begin, begin_commit. destruct (begin_read s c to); [|done]. by destruct (migrations s !! c).
  - unfold frozen. destruct (migrations s !! c); [|done]. by destruct (_ || _).
  - unfold caught_up. destruct (migrations s !! c); [|done]. destruct (_ || _); [done|]. by destruct (negb _).
  - unfold activate. destruct (migrations s !! c); [|done]. by destruct (negb _).
  - unfold accepts. case_bool_decide; [|done]. intros _. rewrite delete_id by done. by destruct s.
Qed.

Lemma perform_ok s log x :
  plane_ok s log -> (perform s x).2 = true -> plane_ok (perform s x).1 (log ++ [x]).
Proof.
  intros Hs. destruct x as [c to | c i | c i a b | c | c]; cbn.
  - destruct (begin s c to) as [s' [m | ?]] eqn:E; [|done]. intros _. by eapply begin_ok.
  - destruct (frozen s c i) as [s' [m | ?]] eqn:E; [|done]. intros _. by eapply frozen_ok.
  - destruct (caught_up s c i a b) as [s' [m | ?]] eqn:E; [|done]. intros _. by eapply caught_up_ok.
  - destruct (activate s c) as [s' [v | ?]] eqn:E; [|done]. intros _. by eapply activate_ok.
  - intros _. by apply abort_ok.
Qed.

Lemma drive_ok s xs : plane_ok s [] -> plane_ok (drive s xs).1 (drive s xs).2.
Proof.
  unfold drive. generalize (@nil call) as log. revert s.
  induction xs as [|x xs IH]; intros s log H; cbn; [done|].
  unfold perform_logged at 2 4. cbn. destruct (perform s x).2 eqn:E.
  - by apply IH, perform_ok.
  - rewrite perform_refused by done. by apply IH.
Qed.

(** Only an activation moves a category. *)
Lemma perform_group s x c :
  group_for (perform s x).1 c <> group_for s c ->
  exists m, x = CallActivate c /\ migrations s !! c = Some m /\ m_state m = Verified /\
    perform s x = (mkPlane (group_count s) (<[c := to_group m]> (pins s)) (delete c (migrations s))
                     (wrap64 (p_version s + 1)), true).
Proof.
  destruct (perform s x).2 eqn:Eok; [|by rewrite perform_refused].
  destruct x as [c' to | c' i | c' i a b | c' | c']; cbn in *.
  - unfold begin, begin_commit in *. destruct (begin_read s c' to); [|done]. by destruct (migrations s !! c').
  - unfold frozen in *. destruct (migrations s !! c'); [|done]. by destruct (_ || _).
  - unfold caught_up in *. destruct (migrations s !! c'); [|done]. destruct (_ || _); [done|]. by destruct (negb _).
  - unfold activate in *. destruct (migrations s !! c') as [m |] eqn:E; [|done].
    destruct (negb _) eqn:E1; [done|]. zbool. apply bool_decide_eq_true in E1. cbn. destruct (decide (c' = c)) as [-> | Hne].
    + intros _. by exists m.
    + unfold group_for. cbn. by rewrite lookup_insert_ne.
  - done.
Qed.

(** C32: The migration fence.  From a fresh control plane, after any calls in any
    order, accepted or refused, a call changes the group of a category only if
    it is the activation of that category, and then the category's accepted
    calls end in exactly one migration: a begin towards the new group, a freeze
    at a non-zero index, and a catch-up of the target to at least that index
    with equal fingerprints on both sides.  Until that call the category
    accepts no orders, afterwards it does, its group is a group of the cluster
    and differs from the old one, and the version has moved on. *)
Theorem migration_fence n ps s0 xs x c :
  new n ps = Ret s0 ->
  let s := (drive s0 xs).1 in
  let s' := (perform s x).1 in
  group_for s' c <> group_for s c ->
  x = CallActivate c /\
  (exists before freeze target fingerprint,
     about c (drive s0 xs).2 =
       before ++ [CallBegin c (group_for s' c); CallFrozen c freeze; CallCaughtUp c target fingerprint fingerprint] /\
     freeze <> 0 /\ freeze <= target) /\
  accepts s c = false /\ accepts s' c = true /\
  group_for s' c < group_count s' /\
  p_version s' = wrap64 (p_version s + 1).
Proof.
  intros Hnew s s' Hmove. pose proof (drive_ok s0 xs (new_plane_ok _ _ _ Hnew)) as Hok. fold s in Hok.
  destruct (perform_group s x c Hmove) as (m & -> & Hm & Hv & Hp).
  destruct (po_migrations _ _ Hok _ _ Hm) as [<- Hfrom Hto _ Hf Ht [before Htrail]].
  assert (Hg : group_for s' (category_id m) = to_group m).
  { unfold s'. rewrite Hp. unfold group_for. cbn. by rewrite lookup_insert_eq. }
  rewrite Hg. split; [done|]. split.
  { exists before, (frozen_index m), (target_index m), (m_fingerprint m). unfold trail in Htrail.
    rewrite Hv in Htrail. split_and!; [done | apply Hf; congruence | by apply Ht]. }
  unfold s', accepts. rewrite Hp. cbn. rewrite Hm, lookup_delete_eq. split_and!; done.
Qed.

Lemma migration_fence_witness :
  exists s0, new 4 ∅ = Ret s0 /\
    let log := (drive s0 [CallBegin 1 3; CallActivate 1; CallFrozen 1 90; CallCaughtUp 1 89 7 7;
                          CallCaughtUp 1 90 7 8; CallCaughtUp 1 90 7 7]).2 in
    exists before freeze target fingerprint,
      about 1 log = before ++ [CallBegin 1 3; CallFrozen 1 freeze; CallCaughtUp 1 target fingerprint fingerprint] /\
      freeze <> 0 /\ freeze <= target.
Proof.
  exists (mkPlane 4 ∅ ∅ 1). split; [by vm_compute|].
  destruct (migration_fence 4 ∅ (mkPlane 4 ∅ ∅ 1) [CallBegin 1 3; CallActivate 1; CallFrozen 1 90;
    CallCaughtUp 1 89 7 7; CallCaughtUp 1 90 7 8; CallCaughtUp 1 90 7 7] (CallActivate 1) 1)
    as (_ & (before & freeze & target & fingerprint & H & Hrest) & _); [by vm_compute | by vm_compute |].
  exists before, freeze, target, fingerprint. split; [|exact Hrest]. cbv zeta. rewrite H. f_equal.
Defined.

(** [begin] reads the current group before it takes the lock.  When another
    driver completes a migration in between, the migration that is then recorded
    starts from a group that no longer owns the category, and here even moves
    it to the group it already belongs to, which [begin] otherwise refuses. *)
Theorem stale_begin :
  exists s0, new 4 ∅ = Ret s0 /\
    begin_read s0 1 3 = Ok 1 /\
    let s := (drive s0 [CallBegin 1 3; CallFrozen 1 90; CallCaughtUp 1 90 7 7; CallActivate 1]).1 in
    group_for s 1 = 3 /\ begin s 1 3 = (s, Err "category already belongs to target group") /\
    exists m, (begin_commit s 1 1 3).2 = Ok m /\ from_group m = 1 /\ to_group m = 3 /\
      accepts (begin_commit s 1 1 3).1 1 = false.
Proof.
  exists (mkPlane 4 ∅ ∅ 1). cbv zeta. split_and!; try by vm_compute.
  exists (mkMig 1 4 1 3 Freezing 0 0 0). split_and!; by vm_compute.
Qed.
