(* ===== verification/Bytes.v ===== *)
(** * Byte buffers

    Byte strings are lists of integers in [0, 256); fixed-size buffers are
    written with [copy_from_slice] ([splice]) and read with [&buf[a..b]]
    ([slice]).  [fnv1a] of [src/src/journal.rs] is here because wires,
    journals and snapshots share it. *)

From S2P Require Import Prelude.

Abbreviation bytes := (list Z) (only parsing).

Definition is_byte (b : Z) : Prop := 0 <= b < 256.

(** [to_le_bytes] and [from_le_bytes]. *)
Fixpoint le_bytes (n : nat) (z : Z) : bytes :=
  match n with
  | O => []
  | S n => z mod 256 :: le_bytes n (z / 256)
  end.

Fixpoint le_value (bs : bytes) : Z :=
  match bs with
  | [] => 0
  | b :: rest => b + 256 * le_value rest
  end.

Definition slice (off len : nat) (buf : bytes) : bytes := take len (drop off buf).

Definition splice (off : nat) (bs : bytes) (buf : bytes) : bytes :=
  take off buf ++ bs ++ drop (off + length bs) buf.

Definition byte_at (off : nat) (buf : bytes) : Z := default 0 (buf !! off).
Definition u32_at (off : nat) (buf : bytes) : Z := le_value (slice off 4 buf).
Definition u64_at (off : nat) (buf : bytes) : Z := le_value (slice off 8 buf).

(** [&buf[a..b]] of a dynamically sized buffer: panics past the end. *)
Definition slice_at (off len : nat) (buf : bytes) : outcome bytes :=
  if (off + len <=? length buf)%nat then Ret (slice off len buf) else Panic "range end index out of range".

(** FNV-1a, 64 bits. *)
Definition fnv_step (h b : Z) : Z := wrap64 (Z.lxor h b * 1099511628211).
Definition fnv_from (h : Z) (bs : bytes) : Z := foldl fnv_step h bs.
Definition fnv1a (bs : bytes) : Z := fnv_from 14695981039346656037 bs.

(** ** Lemmas *)
Lemma length_le_bytes n z : length (le_bytes n z) = n.
Proof. revert z. induction n as [|n IH]; intros z; [done|]. cbn. by rewrite IH. Qed.

Lemma le_bytes_byte n z : Forall is_byte (le_bytes n z).
Proof.
  revert z. induction n as [|n IH]; intros z; constructor; [|apply IH]. unfold is_byte.
  apply Z.mod_pos_bound. lia.
Qed.

Lemma le_value_bytes n z : 0 <= z < 256 ^ Z.of_nat n -> le_value (le_bytes n z) = z.
Proof.
  revert z. induction n as [|n IH]; intros z Hz; [cbn in *; lia|]. cbn [le_bytes le_value].
  rewrite IH; [pose proof (Z.div_mod z 256); lia|].
  rewrite Nat2Z.inj_succ, Z.pow_succ_r in Hz by lia. split; [apply Z.div_pos; lia|].
  apply Z.div_lt_upper_bound; lia.
Qed.

Lemma le_value_range bs : Forall is_byte bs -> 0 <= le_value bs < 256 ^ Z.of_nat (length bs).
Proof.
  induction 1 as [|b bs Hb Hbs IH]; [cbn; lia|]. cbn [le_value length]. unfold is_byte in Hb.
  rewrite Nat2Z.inj_succ, Z.pow_succ_r by lia. lia.
Qed.

Lemma le_bytes_value bs : Forall is_byte bs -> le_bytes (length bs) (le_value bs) = bs.
Proof.
  induction 1 as [|b bs Hb Hbs IH]; [done|]. cbn [le_value length le_bytes]. unfold is_byte in Hb.
  rewrite (Z.mul_comm 256), Z_mod_plus_full, Z.mod_small by lia.
  rewrite Z_div_plus_full, Z.div_small, Z.add_0_l by lia. by rewrite IH.
Qed.

Lemma le_value_u32 z : is_u32 z -> le_value (le_bytes 4 z) = z.
Proof. intros H. apply le_value_bytes. unfold is_u32 in H. cbn. lia. Qed.

Lemma le_value_u64 z : is_u64 z -> le_value (le_bytes 8 z) = z.
Proof. intros H. apply le_value_bytes. unfold is_u64 in H. cbn. lia. Qed.

Lemma le_value_mod n z : le_value (le_bytes n z) = z mod 256 ^ Z.of_nat n.
Proof.
  revert z. induction n as [|n IH]; intros z; [by rewrite Z.mod_1_r|]. cbn [le_bytes le_value]. rewrite IH.
  rewrite Nat2Z.inj_succ, Z.pow_succ_r, Z.rem_mul_r by lia. done.
Qed.

Lemma le_value_mod64 z : le_value (le_bytes 8 z) = wrap64 z.
Proof. apply le_value_mod. Qed.

Lemma le_bytes_inj n x y : 0 <= x < 256 ^ Z.of_nat n -> 0 <= y < 256 ^ Z.of_nat n ->
  le_bytes n x = le_bytes n y -> x = y.
Proof. intros Hx Hy E. by rewrite <-(le_value_bytes n x), <-(le_value_bytes n y), E. Qed.

Lemma length_slice off len buf : (off + len <= length buf)%nat -> length (slice off len buf) = len.
Proof. intros H. unfold slice. rewrite length_take, length_drop. lia. Qed.

Lemma slice_app_l off len b1 b2 : (off + len <= length b1)%nat -> slice off len (b1 ++ b2) = slice off len b1.
Proof.
  intros H. unfold slice. rewrite drop_app_le by lia. rewrite take_app_le; [done|]. rewrite length_drop. lia.
Qed.

Lemma slice_app_r off len b1 b2 : slice (length b1 + off) len (b1 ++ b2) = slice off len b2.
Proof. unfold slice. by rewrite drop_app_add. Qed.

Lemma slice_here bs rest : slice 0 (length bs) (bs ++ rest) = bs.
Proof. unfold slice. rewrite drop_0. apply take_app_length. Qed.

(** *** Sequences of fixed-size records *)
Lemma length_frames (n : nat) (frames : list bytes) : Forall (fun f : bytes => length f = n) frames ->
  length (concat frames) = (n * length frames)%nat.
Proof. induction 1 as [|f fs Hf Hfs IH]; [cbn; lia|]. cbn [concat length]. rewrite length_app, IH. lia. Qed.

Lemma prefix_frames (n : nat) (frames : list bytes) img : (0 < n)%nat ->
  Forall (fun f : bytes => length f = n) frames -> img `prefix_of` concat frames ->
  exists k torn, img = concat (take k frames) ++ torn /\ (length torn < n)%nat /\ (k <= length frames)%nat.
Proof.
  intros Hn Hf. revert img. induction Hf as [|f fs Hl Hfs IH]; intros img Hp.
  - apply prefix_nil_inv in Hp as ->. exists 0%nat, []. split_and!; [done|cbn; lia|cbn; lia].
  - destruct (decide (length img < n)%nat) as [Hs|Hs].
    { exists 0%nat, img. cbn. split_and!; [done|done|lia]. }
    destruct Hp as [rest Hp]. cbn in Hp.
    assert (Ht : take n img = f).
    { transitivity (take n (f ++ concat fs)); [|by apply take_app_length'].
      by rewrite Hp, take_app_le by lia. }
    destruct (IH (drop n img)) as (k & torn & E & Ht' & Hk).
    { exists rest. transitivity (drop n (f ++ concat fs)); [by rewrite drop_app_length'|].
      by rewrite Hp, drop_app_le by lia. }
    exists (S k), torn. cbn. rewrite <-Ht, <-(assoc_L (++)), <-E, take_drop. split_and!; [done|done|lia].
Qed.

(** The same for frames of any length: whole frames, then a proper part of the
    next one. *)
Lemma prefix_concat (frames : list bytes) img : img `prefix_of` concat frames ->
  exists k torn, img = concat (take k frames) ++ torn /\ (k <= length frames)%nat /\
    (torn = [] \/ exists f, frames !! k = Some f /\ torn `prefix_of` f /\ torn <> [] /\ (length torn < length f)%nat).
Proof.
  revert img. induction frames as [|f frames IH]; intros img Hp; cbn [concat] in Hp.
  - apply prefix_nil_inv in Hp as ->. exists O, []. split_and!; [done..|by left].
  - destruct (decide (length img < length f)%nat) as [Hl|Hl].
    + exists O, img. split_and!; [done|cbn; lia|]. destruct (decide (img = [])); [by left|right].
      exists f. split_and!; [done| |done|done]. destruct (prefix_weak_total img f (f ++ concat frames)) as [?|Hf];
        [done|by apply prefix_app_r|done|]. apply prefix_length in Hf. lia.
    + destruct Hp as [z Hz]. assert (E : img = f ++ drop (length f) img).
      { rewrite <-(take_drop (length f) img) at 1. f_equal. apply (f_equal (take (length f))) in Hz.
        rewrite take_app_length, take_app_le in Hz by lia. done. }
      rewrite E in Hz. rewrite <-(assoc_L (++)) in Hz. apply (inj (app f)) in Hz.
      destruct (IH (drop (length f) img)) as (k & torn & E' & Hk & Ht); [by exists z|].
      exists (S k), torn. split_and!; [|cbn; lia|done]. cbn [take concat]. by rewrite <-(assoc_L (++)), <- E'.
Qed.

(** A prefix of a header followed by frames of one size: whole frames and a
    torn one. *)
Lemma framed_prefix (n : nat) (hdr : bytes) (frames : list bytes) img : (0 < n)%nat ->
  Forall (fun f : bytes => length f = n) frames -> img `prefix_of` hdr ++ concat frames ->
  (length hdr <= length img)%nat ->
  exists k torn, img = hdr ++ concat (take k frames) ++ torn /\ (length torn < n)%nat /\ (k <= length frames)%nat.
Proof.
  intros Hn Hf [rest Hp] Hl.
  assert (Hh : take (length hdr) img = hdr).
  { transitivity (take (length hdr) (hdr ++ concat frames)); [by rewrite Hp, take_app_le by lia | by rewrite take_app_length]. }
  destruct (prefix_frames n frames (drop (length hdr) img)) as (k & torn & E & Ht & Hk); [done | done | |].
  - exists rest. rewrite <- drop_app_le by lia. by rewrite <- Hp, drop_app_length.
  - exists k, torn. split_and!; [|done | done]. by rewrite <- E, <- Hh, take_drop at 1.
Qed.

(** Filling a zeroed buffer from left to right. *)
Lemma splice_zeros off a bs n : length a = off -> (length bs <= n)%nat ->
  splice off bs (a ++ replicate n 0) = (a ++ bs) ++ replicate (n - length bs) 0.
Proof.
  intros <- H. unfold splice. rewrite take_app_length, drop_app_add, drop_replicate. by rewrite (assoc_L (++)).
Qed.

Lemma splice_bytes off bs buf :
  Forall is_byte bs -> Forall is_byte buf -> Forall is_byte (splice off bs buf).
Proof. intros H1 H2. unfold splice. auto using Forall_app_2, Forall_take, Forall_drop. Qed.

Lemma zeros_bytes n : Forall is_byte (replicate n 0).
Proof. apply Forall_replicate. by unfold is_byte. Qed.

Lemma one_byte b : is_byte b -> Forall is_byte [b].
Proof. intros H. constructor; [done|constructor]. Qed.

Create HintDb bytes.
#[export] Hint Resolve splice_bytes zeros_bytes one_byte le_bytes_byte Forall_app_2 : bytes.
#[export] Hint Extern 5 (is_byte _) => (unfold is_byte; lia) : bytes.

Lemma fnv_range bs h : is_u64 h -> is_u64 (fnv_from h bs).
Proof.
  revert h. induction bs as [|b bs IH]; intros h Hh; [done|]. cbn. apply IH. apply wrap64_range.
Qed.

Lemma fnv1a_u64 bs : is_u64 (fnv1a bs).
Proof. apply fnv_range. by vm_compute. Qed.

(** ** Reading at a position *)
Section reading.
Context (buf : bytes).

Lemma slice_at_here pos bs rest : bs <> [] -> drop pos buf = bs ++ rest ->
  slice_at pos (length bs) buf = Ret bs.
Proof.
  intros Hb H. unfold slice_at, slice. rewrite H, take_app_length.
  assert (L : length (drop pos buf) = (length bs + length rest)%nat) by (rewrite H; apply length_app).
  rewrite length_drop in L. destruct bs; [done|]. cbn [length] in *.
  by rewrite (proj2 (Nat.leb_le _ _)) by lia.
Qed.

Lemma drop_here pos bs rest : drop pos buf = bs ++ rest -> drop (pos + length bs) buf = rest.
Proof. intros H. by rewrite <-drop_drop, H, drop_app_length. Qed.

Lemma drop_u32 pos z rest : drop pos buf = le_bytes 4 z ++ rest -> drop (pos + 4) buf = rest.
Proof. intros H. by apply drop_here in H. Qed.

Lemma drop_u64 pos z rest : drop pos buf = le_bytes 8 z ++ rest -> drop (pos + 8) buf = rest.
Proof. intros H. by apply drop_here in H. Qed.

Lemma u32_here pos z rest : is_u32 z -> drop pos buf = le_bytes 4 z ++ rest -> u32_at pos buf = z.
Proof.
  intros Hz H. unfold u32_at, slice. rewrite H, take_app_length' by by rewrite length_le_bytes. by apply le_value_u32.
Qed.

Lemma u64_here pos z rest : is_u64 z -> drop pos buf = le_bytes 8 z ++ rest -> u64_at pos buf = z.
Proof.
  intros Hz H. unfold u64_at, slice. rewrite H, take_app_length' by by rewrite length_le_bytes. by apply le_value_u64.
Qed.

End reading.
