(* ===== verification/Text.v ===== *)
(** * Text

    What the sources use of Rust's [str]: decimal printing and parsing of
    unsigned integers, prefixes, splitting and trimming.  A text is a list of
    characters, each given by its code; where file names are kept as UTF-8 bytes
    the same functions apply, because all patterns are ASCII. *)

From S2P Require Import Prelude.

Abbreviation text := (list Z) (only parsing).

(** A string literal. *)
Definition lit (s : string) : text := (fun c => Z.of_N (Ascii.N_of_ascii c)) <$> String.list_ascii_of_string s.

(** ** Numbers *)
Definition is_ascii_digit (c : Z) : bool := (48 <=? c) && (c <=? 57).

(** [{n}] of an unsigned integer: the digits, most significant first. *)
Fixpoint digits (fuel : nat) (n : Z) : text :=
  match fuel with
  | O => []
  | S fuel => if n <? 10 then [48 + n] else digits fuel (n / 10) ++ [48 + n mod 10]
  end.

Definition show (n : Z) : text := digits (S (Z.to_nat (Z.log2 n))) n.

(** [{n:0width}] *)
Definition show_padded (width : nat) (n : Z) : text :=
  let s := show n in replicate (width - length s) 48 ++ s.

(** [from_str_radix(_, 10)] of an unsigned type whose greatest value is [max]. *)
Fixpoint parse_digits (max acc : Z) (s : text) : option Z :=
  match s with
  | [] => Some acc
  | c :: s =>
      if is_ascii_digit c then
        let acc := acc * 10 + (c - 48) in
        if max <? acc then None else parse_digits max acc s
      else None
  end.

Definition parse_uint (max : Z) (s : text) : option Z :=
  match s with
  | [] => None
  | c :: rest => if c =? 43 then match rest with [] => None | _ => parse_digits max 0 rest end else parse_digits max 0 s
  end.

(** ** Prefixes and splitting *)
Fixpoint strip_prefix (p s : text) : option text :=
  match p, s with
  | [], _ => Some s
  | _ :: _, [] => None
  | a :: p, b :: s => if a =? b then strip_prefix p s else None
  end.

Definition starts_with (p s : text) : bool := bool_decide (is_Some (strip_prefix p s)).

(** Before and after the first occurrence of a non-empty pattern. *)
Fixpoint split_once (p s : text) : option (text * text) :=
  match strip_prefix p s with
  | Some rest => Some ([], rest)
  | None =>
      match s with
      | [] => None
      | c :: s => (fun ab => (c :: ab.1, ab.2)) <$> split_once p s
      end
  end.

(** [s.split(c)] *)
Fixpoint split_on (c : Z) (s : text) : list text :=
  match s with
  | [] => [[]]
  | x :: s =>
      if x =? c then [] :: split_on c s
      else match split_on c s with [] => [[x]] | f :: fs => (x :: f) :: fs end
  end.

(** [char::is_whitespace] *)
Definition is_whitespace (c : Z) : bool :=
  (9 <=? c) && (c <=? 13) || (c =? 32) || (c =? 133) || (c =? 160) || (c =? 5760) || (8192 <=? c) && (c <=? 8202) ||
  (c =? 8232) || (c =? 8233) || (c =? 8239) || (c =? 8287) || (c =? 12288).

Fixpoint drop_while (f : Z -> bool) (s : text) : text :=
  match s with
  | c :: rest => if f c then drop_while f rest else s
  | [] => []
  end.

Fixpoint take_while (f : Z -> bool) (s : text) : text :=
  match s with
  | c :: rest => if f c then c :: take_while f rest else []
  | [] => []
  end.

Definition trim (s : text) : text := rev (drop_while is_whitespace (rev (drop_while is_whitespace s))).

(** The words of [s.split_whitespace()]. *)
Fixpoint words (s : text) : list text :=
  match s with
  | [] => []
  | c :: rest =>
      if is_whitespace c then words rest
      else
        match rest with
        | [] => [[c]]
        | d :: _ =>
            if is_whitespace d then [c] :: words rest
            else match words rest with [] => [[c]] | w :: ws => (c :: w) :: ws end
        end
  end.

(** ** Lemmas *)
Definition all_digits (s : text) : Prop := Forall (fun c => is_ascii_digit c = true) s.

Lemma digit_range c : is_ascii_digit c = true <-> 48 <= c <= 57.
Proof. unfold is_ascii_digit. rewrite andb_true_iff, !Z.leb_le. done. Qed.

Lemma digits_all fuel n : 0 <= n -> all_digits (digits fuel n).
Proof.
  revert n. induction fuel as [|fuel IH]; intros n Hn; [constructor|]. cbn [digits]. case_if.
  - apply Forall_singleton, digit_range. lia.
  - apply Forall_app. split; [apply IH, Z.div_pos; lia|]. apply Forall_singleton, digit_range.
    pose proof (Z.mod_pos_bound n 10). lia.
Qed.

Lemma digits_nonempty fuel n : digits (S fuel) n <> [].
Proof. cbn [digits]. case_if; [done|]. by destruct (digits fuel (n / 10)). Qed.

(** The value read so far, when it never passes [max]. *)
Lemma parse_digits_app max acc s t : all_digits s ->
  parse_digits max acc (s ++ t) = parse_digits max acc s ≫= (fun acc => parse_digits max acc t).
Proof.
  intros Hs. revert acc. induction Hs as [|c s Hc Hs IH]; intros acc; [done|]. cbn [app parse_digits]. rewrite Hc.
  case_if; [done|]. apply IH.
Qed.

Lemma parse_digits_show max fuel n : 0 <= n <= max -> n < 2 ^ Z.of_nat fuel -> parse_digits max 0 (digits fuel n) = Some n.
Proof.
  revert n. induction fuel as [|fuel IH]; intros n Hn Hf; [cbn in *; f_equal; lia|]. cbn [digits]. case_if.
  - cbn [parse_digits]. rewrite (proj2 (digit_range _)) by lia. replace (0 * 10 + (48 + n - 48)) with n by lia.
    by rewrite (proj2 (Z.ltb_ge _ _)) by lia.
  - pose proof (Z.div_mod n 10 ltac:(lia)). pose proof (Z.mod_pos_bound n 10 ltac:(lia)).
    rewrite parse_digits_app by (apply digits_all; lia). rewrite IH; [|lia|].
    2: { rewrite Nat2Z.inj_succ, Z.pow_succ_r in Hf by lia. lia. }
    cbn [mbind option_bind parse_digits]. rewrite (proj2 (digit_range _)) by lia.
    replace (n / 10 * 10 + (48 + n mod 10 - 48)) with n by lia. by rewrite (proj2 (Z.ltb_ge _ _)) by lia.
Qed.

Lemma show_all n : 0 <= n -> all_digits (show n).
Proof. apply digits_all. Qed.

Lemma show_nonempty n : show n <> [].
Proof. apply digits_nonempty. Qed.

Lemma parse_digits_of_show max n : 0 <= n <= max -> parse_digits max 0 (show n) = Some n.
Proof.
  intros Hn. apply parse_digits_show; [done|]. rewrite Nat2Z.inj_succ, Z2Nat.id by apply Z.log2_nonneg.
  destruct (decide (n = 0)) as [->|]; [done|]. apply Z.log2_spec. lia.
Qed.

Lemma parse_digits_zeros max k s : 0 <= max -> parse_digits max 0 (replicate k 48 ++ s) = parse_digits max 0 s.
Proof.
  intros Hm. induction k as [|k IH]; [done|]. cbn [replicate app parse_digits].
  change (is_ascii_digit 48) with true. cbn [Z.mul Z.add Z.sub]. by rewrite (proj2 (Z.ltb_ge _ _)) by lia.
Qed.

Lemma parse_uint_digits max s : all_digits s -> s <> [] -> parse_uint max s = parse_digits max 0 s.
Proof.
  intros Hs Hn. destruct s as [|c s]; [done|]. cbn [parse_uint].
  apply Forall_cons_1 in Hs as [Hc _]. apply digit_range in Hc. by rewrite (proj2 (Z.eqb_neq _ _)) by lia.
Qed.

Lemma parse_show max n : 0 <= n <= max -> parse_uint max (show n) = Some n.
Proof.
  intros Hn. rewrite parse_uint_digits; [by apply parse_digits_of_show|apply show_all; lia|apply show_nonempty].
Qed.

Lemma padded_all width n : 0 <= n -> all_digits (show_padded width n).
Proof. intros Hn. apply Forall_app. split; [|by apply show_all]. by apply Forall_replicate. Qed.

Lemma padded_nonempty width n : show_padded width n <> [].
Proof. unfold show_padded. intros H. apply app_eq_nil in H as [_ H]. by apply show_nonempty in H. Qed.

Lemma parse_padded max width n : 0 <= n <= max -> parse_uint max (show_padded width n) = Some n.
Proof.
  intros Hn. rewrite parse_uint_digits; [|apply padded_all; lia|apply padded_nonempty].
  unfold show_padded. rewrite parse_digits_zeros by lia. by apply parse_digits_of_show.
Qed.

Lemma strip_prefix_app p s : strip_prefix p (p ++ s) = Some s.
Proof. induction p as [|c p IH]; [done|]. cbn. by rewrite Z.eqb_refl. Qed.

Lemma strip_prefix_Some p s r : strip_prefix p s = Some r -> s = p ++ r.
Proof.
  revert s. induction p as [|a p IH]; intros [|b s] E; cbn in E |- *; try congruence.
  destruct (a =? b) eqn:Hab; [|done]. zbool. subst b. cbn. f_equal. by apply IH.
Qed.

(** A pattern is found where its first character first occurs. *)
Lemma split_once_first c p a b : Forall (fun x => x <> c) a -> split_once (c :: p) (a ++ (c :: p) ++ b) = Some (a, b).
Proof.
  induction 1 as [|x a Hx Ha IH].
  - cbn [app split_once]. by rewrite (strip_prefix_app (c :: p) b : strip_prefix _ (c :: p ++ b) = _).
  - cbn [app split_once]. cbn [strip_prefix]. rewrite (proj2 (Z.eqb_neq c x)) by done.
    change ((c :: p) ++ b) with (c :: p ++ b) in IH. rewrite IH. done.
Qed.

Lemma split_once_none c p s : Forall (fun x => x <> c) s -> split_once (c :: p) s = None.
Proof.
  induction 1 as [|x s Hx Hs IH]; [done|]. cbn [split_once strip_prefix]. rewrite (proj2 (Z.eqb_neq c x)) by done. by rewrite IH.
Qed.

Lemma digits_avoid s c : all_digits s -> is_ascii_digit c = false -> Forall (fun x => x <> c) s.
Proof. intros Hs Hc. eapply Forall_impl; [exact Hs|]. cbn. intros x Hx ->. congruence. Qed.

Lemma take_while_app f s t : Forall (fun c => f c = true) s -> match t with [] => True | c :: _ => f c = false end ->
  take_while f (s ++ t) = s.
Proof.
  intros Hs Ht. induction Hs as [|c s Hc Hs IH]; cbn; [|by rewrite Hc, IH]. destruct t as [|c t]; [done|]. cbn. by rewrite Ht.
Qed.

(** A pattern is looked for past text that avoids its first character. *)
Lemma split_once_avoid c p a s : Forall (fun x => x <> c) a ->
  split_once (c :: p) (a ++ s) = (fun ab => (a ++ ab.1, ab.2)) <$> split_once (c :: p) s.
Proof.
  induction 1 as [|x a Hx Ha IH]; [cbn [app]; by destruct (split_once (c :: p) s) as [[? ?]|]|].
  cbn [app split_once strip_prefix]. rewrite (proj2 (Z.eqb_neq c x)) by done. rewrite IH.
  by destruct (split_once (c :: p) s) as [[? ?]|].
Qed.

(** A position where the pattern does not match is passed. *)
Lemma split_once_skip p c s : strip_prefix p (c :: s) = None ->
  split_once p (c :: s) = (fun ab => (c :: ab.1, ab.2)) <$> split_once p s.
Proof. intros E. cbn [split_once]. by rewrite E. Qed.

Lemma split_once_here p s : split_once p (p ++ s) = Some ([], s).
Proof. destruct p as [|c p]; [by destruct s|]. cbn [app split_once]. by rewrite (strip_prefix_app (c :: p) s : strip_prefix _ (c :: p ++ s) = _). Qed.

Lemma split_on_avoid c s : Forall (fun x => x <> c) s -> split_on c s = [s].
Proof. induction 1 as [|x s Hx Hs IH]; [done|]. cbn. rewrite (proj2 (Z.eqb_neq x c)) by done. by rewrite IH. Qed.

Lemma split_on_first c a b : Forall (fun x => x <> c) a -> split_on c (a ++ c :: b) = a :: split_on c b.
Proof.
  induction 1 as [|x a Hx Ha IH]; [cbn; by rewrite Z.eqb_refl|]. cbn. rewrite (proj2 (Z.eqb_neq x c)) by done. by rewrite IH.
Qed.

Definition is_word (w : text) : Prop := w <> [] /\ Forall (fun c => is_whitespace c = false) w.

Lemma words_word w s : is_word w -> match s with [] => True | c :: _ => is_whitespace c = true end ->
  words (w ++ s) = w :: words s.
Proof.
  intros [Hn Hw] Hs. induction Hw as [|c w Hc Hw IH]; [done|]. destruct w as [|d w].
  - cbn [app words]. rewrite Hc. destruct s as [|d s]; [done|]. cbn [app]. by rewrite Hs.
  - specialize (IH ltac:(done)). apply Forall_cons_1 in Hw as [Hd _]. cbn [app] in *. cbn [words]. rewrite Hc, Hd.
    change (words (d :: w ++ s)) with (words (d :: w ++ s)) in IH. cbn [words] in IH. rewrite Hd in IH. by rewrite IH.
Qed.

Lemma words_space s : words (32 :: s) = words s.
Proof. done. Qed.

Lemma digits_word s : all_digits s -> s <> [] -> is_word s.
Proof.
  intros Hs Hn. split; [done|]. eapply Forall_impl; [exact Hs|]. cbn. intros c Hc. apply digit_range in Hc. unfold is_whitespace.
  rewrite !orb_false_iff, !andb_false_iff, !Z.leb_gt, !Z.eqb_neq. lia.
Qed.

Lemma length_digits fuel n : (length (digits fuel n) <= fuel)%nat.
Proof.
  revert n. induction fuel as [|fuel IH]; intros n; [done|]. cbn [digits]. case_if; [cbn; lia|]. rewrite length_app. specialize (IH (n / 10)).
  cbn. lia.
Qed.

Lemma length_show n k : 0 <= n < 2 ^ Z.of_nat k -> (length (show n) <= S k)%nat.
Proof.
  intros Hn. unfold show. pose proof (length_digits (S (Z.to_nat (Z.log2 n))) n). 
  assert (Z.log2 n <= Z.of_nat k); [|pose proof (Z.log2_nonneg n); lia].
  destruct (decide (n = 0)) as [->|]; [cbn; lia|]. pose proof (Z.log2_spec n ltac:(lia)).
  apply Z.lt_le_incl. apply (Z.pow_lt_mono_r_iff 2); [lia|lia|]. lia.
Qed.

(** Literals as lists of codes. *)
Ltac lits := repeat match goal with |- context [lit ?s] => let v := eval vm_compute in (lit s) in change (lit s) with v end.

(** Whether a closed text avoids a character, by evaluation. *)
Lemma avoids_b c s : forallb (fun x => negb (x =? c)) s = true -> Forall (fun x => x <> c) s.
Proof. intros H. apply Forall_forall. intros x Hx. rewrite forallb_forall in H. apply list_elem_of_In, H in Hx. by zbool. Qed.

Lemma word_b s : negb (bool_decide (s = [])) && forallb (fun x => negb (is_whitespace x)) s = true -> is_word s.
Proof.
  rewrite andb_true_iff, negb_true_iff, bool_decide_eq_false. intros [Hn H]. split; [done|]. apply Forall_forall. intros x Hx.
  rewrite forallb_forall in H. apply list_elem_of_In, H in Hx. by zbool.
Qed.

Lemma word_app w v : is_word w -> Forall (fun c => is_whitespace c = false) v -> is_word (w ++ v).
Proof. intros [Hn Hw] Hv. split; [by destruct w|]. by apply Forall_app_2. Qed.

Lemma trim_word w : is_word w -> trim w = w.
Proof.
  intros [Hn Hw]. unfold trim. assert (H : forall w, Forall (fun c => is_whitespace c = false) w -> drop_while is_whitespace w = w).
  { intros [|c l] H; [done|]. apply Forall_cons_1 in H as [Hc _]. cbn. by rewrite Hc. }
  rewrite (H w) by done. rewrite H; [apply rev_involutive|]. by apply Forall_rev.
Qed.
