(* ===== verification/Kline.v ===== *)
(** * Candles

    [src/src/kline.rs]: interval buckets with their civil-date arithmetic, the
    rolling OHLCV aggregation and its file format.  Timestamps are [u64] seconds;
    for those no intermediate value of the date arithmetic leaves its 64 bits, so
    it is done in [Z], with [/] on signed values rounding towards zero. *)

From S2P Require Import Prelude Types Bytes.

Record Candle := mkCandle {
  start : Z;
  open : Price;
  high : Price;
  low : Price;
  close : Price;
  volume : Qty;
  trades : Z
}.

Inductive Interval := Fixed (n : Z) | Week | Month.

Definition INTERVALS : list (string * Interval) :=
  [("1s", Fixed 1); ("1m", Fixed 60); ("3m", Fixed 180); ("5m", Fixed 300); ("10m", Fixed 600);
   ("15m", Fixed 900); ("30m", Fixed 1800); ("1d", Fixed 86400); ("1w", Week); ("1mo", Month)]%string.

Definition interval_by_name (name : string) : option (nat * Interval) :=
  p ← list_find (fun p => p.1 = name) INTERVALS; Some (p.1, p.2.2).

(** ** Civil dates *)
Definition civil_from_days (z : Z) : Z * Z * Z :=
  let z := z + 719468 in
  let era := Z.quot (if 0 <=? z then z else z - 146096) 146097 in
  let doe := z - era * 146097 in
  let yoe := (doe - doe / 1460 + doe / 36524 - doe / 146096) / 365 in
  let y := yoe + era * 400 in
  let doy := doe - (365 * yoe + yoe / 4 - yoe / 100) in
  let mp := (5 * doy + 2) / 153 in
  let d := doy - (153 * mp + 2) / 5 + 1 in
  let m := if mp <? 10 then mp + 3 else mp - 9 in
  (if m <=? 2 then y + 1 else y, m, d).

Definition days_from_civil (y m d : Z) : Z :=
  let y := if m <=? 2 then y - 1 else y in
  let era := Z.quot (if 0 <=? y then y else y - 399) 400 in
  let yoe := y - era * 400 in
  let mp := if 2 <? m then m - 3 else m + 9 in
  let doy := (153 * mp + 2) / 5 + d - 1 in
  let doe := yoe * 365 + yoe / 4 - yoe / 100 + doy in
  era * 146097 + doe - 719468.

Definition bucket_start (interval : Interval) (ts_sec : Z) : Z :=
  match interval with
  | Fixed n => ts_sec - ts_sec mod n
  | Week =>
      let days := ts_sec / 86400 in
      let dow := (days + 3) mod 7 in
      Z.max 0 (days - dow) * 86400
  | Month =>
      let days := ts_sec / 86400 in
      let '(y, m, _) := civil_from_days days in
      wrap64 (wrap64 (days_from_civil y m 1) * 86400)
  end.

(** ** Aggregation *)
Record KlineAggregator := mkAgg {
  series : gmap InstrumentId (list (list Candle));
  cap : Z
}.

Module KlineAggregator.

Definition new (cap : Z) : KlineAggregator := mkAgg ∅ cap.

(** One print into one deque. *)
Definition push_trade (cap bucket : Z) (price : Price) (qty : Qty) (dq : list Candle) : list Candle :=
  let fresh :=
    let dq := dq ++ [mkCandle bucket price price price price qty 1] in
    if cap <? Z.of_nat (length dq) then tail dq else dq in
  match last dq with
  | Some c =>
      if start c =? bucket then
        take (length dq - 1) dq ++
          [mkCandle (start c) (open c) (Z.max (high c) price) (Z.min (low c) price) price
             (wrap64 (volume c + qty)) (wrap32 (trades c + 1))]
      else fresh
  | None => fresh
  end.

Definition on_trade (a : KlineAggregator) (i : InstrumentId) (ts_sec : Z) (price : Price) (qty : Qty)
    : outcome KlineAggregator :=
  let s := default (replicate (length INTERVALS) []) (series a !! i) in
  let! s := ofold (fun s (e : nat * Interval) =>
              let bucket := bucket_start e.2 ts_sec in
              let! dq := expect (s !! e.1) "index out of bounds" in
              Ret (<[e.1 := push_trade (cap a) bucket price qty dq]> s))
            s (imap (fun idx e => (idx, e.2)) INTERVALS) in
  Ret (mkAgg (<[i := s]> (series a)) (cap a)).

Definition candles (a : KlineAggregator) (i : InstrumentId) (interval : string) (limit : nat)
    : outcome (list Candle) :=
  match interval_by_name interval with
  | None => Ret []
  | Some (idx, _) =>
      match series a !! i with
      | None => Ret []
      | Some s => let! dq := expect (s !! idx) "index out of bounds" in Ret (drop (length dq - limit) dq)
      end
  end.

Definition instruments (a : KlineAggregator) : list InstrumentId := merge_sort Z.le (map_to_list (series a)).*1.

(** ** The file *)
Definition KLINE_MAGIC : bytes := [84; 67; 75; 49].

Definition encode_candle (c : Candle) : bytes :=
  concat (le_bytes 8 <$> [start c; open c; high c; low c; close c; volume c; trades c]).

Definition encode_deque (dq : list Candle) : bytes :=
  le_bytes 4 (Z.of_nat (length dq)) ++ concat (encode_candle <$> dq).

Definition encode_instrument (a : KlineAggregator) (i : InstrumentId) : bytes :=
  le_bytes 4 i ++ concat (encode_deque <$> default [] (series a !! i)).

(** [save]: the bytes of the file. *)
Definition save (a : KlineAggregator) : bytes :=
  let buf := KLINE_MAGIC ++ le_bytes 8 (cap a) ++ le_bytes 4 (Z.of_nat (size (series a))) ++
             concat (encode_instrument a <$> instruments a) in
  buf ++ le_bytes 8 (fnv1a buf).

Definition read_candle (buf : bytes) (pos : nat) : Candle :=
  let u k := u64_at (pos + k * 8) buf in
  mkCandle (u 0%nat) (u 1%nat) (u 2%nat) (u 3%nat) (u 4%nat) (u 5%nat) (wrap32 (u 6%nat)).

(** The closure [take] of [load]: every read is guarded by it. *)
Definition guard_take (body pos n : nat) : io_result unit :=
  if (body <? pos + n)%nat then Err "truncated" else Ok tt.

Definition read_deque (buf : bytes) (body pos : nat) : io_result (list Candle * nat) :=
  let? _ := guard_take body pos 4 in
  let n := Z.to_nat (u32_at pos buf) in
  let pos := (pos + 4)%nat in
  let? _ := guard_take body pos (n * 56) in
  Ok ((fun k => read_candle buf (pos + k * 56)) <$> seq 0 n, (pos + n * 56)%nat).

Fixpoint read_series (n : nat) (buf : bytes) (body pos : nat) : io_result (list (list Candle) * nat) :=
  match n with
  | O => Ok ([], pos)
  | S n =>
      let? r := read_deque buf body pos in
      let? rest := read_series n buf body r.2 in
      Ok (r.1 :: rest.1, rest.2)
  end.

Fixpoint read_instruments (n : nat) (buf : bytes) (body pos : nat) (a : KlineAggregator) : io_result KlineAggregator :=
  match n with
  | O => Ok a
  | S n =>
      let? _ := guard_take body pos 4 in
      let inst := u32_at pos buf in
      let? r := read_series (length INTERVALS) buf body (pos + 4) in
      read_instruments n buf body r.2 (mkAgg (<[inst := r.1]> (series a)) (cap a))
  end.

Definition load (buf : bytes) : io_result KlineAggregator :=
  if (length buf <? 24)%nat || negb (bool_decide (take 4 buf = KLINE_MAGIC)) then Err "bad magic"
  else
    let body := (length buf - 8)%nat in
    let stored := le_value (drop body buf) in
    if negb (fnv1a (take body buf) =? stored) then Err "checksum mismatch"
    else read_instruments (Z.to_nat (u32_at 12 buf)) buf body 16 (new (u64_at 4 buf)).

End KlineAggregator.
Import KlineAggregator.

(** ** The calendar

    The Gregorian calendar as its rules state it. *)
Definition is_leap (y : Z) : bool := (y mod 4 =? 0) && (negb (y mod 100 =? 0) || (y mod 400 =? 0)).

Definition month_length (leap : bool) (m : Z) : Z :=
  if m =? 2 then if leap then 29 else 28
  else if (m =? 4) || (m =? 6) || (m =? 9) || (m =? 11) then 30 else 31.

Definition days_in_month (y m : Z) : Z := month_length (is_leap y) m.

Definition next_day (date : Z * Z * Z) : Z * Z * Z :=
  let '(y, m, d) := date in
  if d <? days_in_month y m then (y, m, d + 1)
  else if m <? 12 then (y, m + 1, 1)
  else (y + 1, 1, 1).

(** Years that start in March: the days before year [k] of an era, and its length. *)
Definition before_year (k : Z) : Z := 365 * k + k / 4 - k / 100.
Definition year_length (k : Z) : Z := if is_leap (k + 1) then 366 else 365.

(** The year of an era, and month and day of such a year, as the code finds them. *)
Definition year_of (doe : Z) : Z := (doe - doe / 1460 + doe / 36524 - doe / 146096) / 365.
Definition month_of (doy : Z) : Z := let mp := (5 * doy + 2) / 153 in if mp <? 10 then mp + 3 else mp - 9.
Definition day_of (doy : Z) : Z := doy - (153 * ((5 * doy + 2) / 153) + 2) / 5 + 1.

Lemma is_leap_period y era : is_leap (y + era * 400) = is_leap y.
Proof.
  unfold is_leap. replace (y + era * 400) with (y + (era * 100) * 4) at 1 by lia.
  replace (y + era * 400) with (y + (era * 4) * 100) at 1 by lia. by rewrite !Z_mod_plus_full.
Qed.

(** The adjusted day count whose quotient by 365 is the year. *)
Definition adjusted (doe : Z) : Z := doe - doe / 1460 + doe / 36524 - doe / 146096.

Lemma adjusted_step x : 0 <= x < 146096 -> adjusted x <= adjusted (x + 1).
Proof. intros H. unfold adjusted. Z.to_euclidean_division_equations. lia. Qed.

Lemma adjusted_mono x n : 0 <= x -> x + Z.of_nat n < 146097 -> adjusted x <= adjusted (x + Z.of_nat n).
Proof.
  intros Hx. induction n as [|n IH]; intros Hn; [by rewrite Z.add_0_r|].
  rewrite Nat2Z.inj_succ in *. transitivity (adjusted (x + Z.of_nat n)); [apply IH; lia|].
  replace (x + Z.succ (Z.of_nat n)) with (x + Z.of_nat n + 1) by lia. apply adjusted_step. lia.
Qed.

(** What holds of each year of an era, by inspection. *)
Definition year_check (k : Z) : bool :=
  (365 * k <=? adjusted (before_year k)) &&
  (adjusted (before_year k + year_length k - 1) <? 365 * (k + 1)) &&
  (before_year k + year_length k =? (if k =? 399 then 146097 else before_year (k + 1))) &&
  (0 <=? before_year k) && (before_year k + year_length k <=? 146097).

Lemma year_table k : 0 <= k < 400 -> year_check k = true.
Proof.
  intros H. assert (Hall : forallb year_check (seqZ 0 400) = true) by by vm_compute.
  rewrite forallb_forall in Hall. apply Hall, list_elem_of_In, elem_of_seqZ. lia.
Qed.

(** The code finds the year a day of an era lies in. *)
Lemma year_of_unique k doe : 0 <= k < 400 ->
  before_year k <= doe < before_year k + year_length k -> year_of doe = k.
Proof.
  intros Hk Hd. pose proof (year_table k Hk) as H. unfold year_check in H. zbool.
  pose proof (adjusted_mono (before_year k) (Z.to_nat (doe - before_year k)) ltac:(lia) ltac:(lia)) as M1.
  pose proof (adjusted_mono doe (Z.to_nat (before_year k + year_length k - 1 - doe)) ltac:(lia) ltac:(lia)) as M2.
  rewrite Z2Nat.id in M1, M2 by lia.
  replace (before_year k + (doe - before_year k)) with doe in M1 by lia.
  replace (doe + (before_year k + year_length k - 1 - doe)) with (before_year k + year_length k - 1) in M2 by lia.
  unfold year_of. change (doe - _ + _ - _) with (adjusted doe).
  symmetry. apply (Z.div_unique _ _ _ (adjusted doe - 365 * k)); lia.
Qed.

Lemma year_exists n doe : (n <= 400)%nat -> 0 <= doe ->
  doe < (if decide (n = 400)%nat then 146097 else before_year (Z.of_nat n)) ->
  exists k, 0 <= k < Z.of_nat n /\ before_year k <= doe < before_year k + year_length k.
Proof.
  intros Hn Hd. induction n as [|n IH]; intros Hlt.
  - rewrite decide_False in Hlt by lia. change (before_year (Z.of_nat 0)) with 0 in Hlt. lia.
  - destruct (Z.lt_ge_cases doe (before_year (Z.of_nat n))) as [Hl | Hg].
    + destruct IH as (k & Hk & Hk'); [lia | by rewrite decide_False by lia |]. exists k. split; [lia | done].
    + exists (Z.of_nat n). split; [lia|]. split; [done|].
      pose proof (year_table (Z.of_nat n) ltac:(lia)) as H. unfold year_check in H. zbool.
      match goal with E : before_year _ + _ = _ |- _ => rewrite E end.
      destruct (Z.eqb_spec (Z.of_nat n) 399); case_decide; try lia.
      rewrite Nat2Z.inj_succ in Hlt. exact Hlt.
Qed.

Lemma year_of_bounds doe : 0 <= doe < 146097 ->
  0 <= year_of doe < 400 /\
  before_year (year_of doe) <= doe < before_year (year_of doe) + year_length (year_of doe).
Proof.
  intros H. destruct (year_exists 400 doe) as (k & Hk & Hd); [lia | lia | by rewrite decide_True; lia |].
  by rewrite (year_of_unique k doe) by done.
Qed.

(** Days of a March year, by inspection: the date found is a date and has the
    right offset, and the next day is the next date, up to the end of February. *)
Definition next_in_year (leap : bool) (date : Z * Z * Z) : Z * Z * Z :=
  let '(s, m, d) := date in
  if d <? month_length leap m then (s, m, d + 1) else if m <? 12 then (s, m + 1, 1) else (s + 1, 1, 1).

Definition relative (doy : Z) : Z * Z * Z := (if month_of doy <=? 2 then 1 else 0, month_of doy, day_of doy).

Definition doy_check (doy : Z) : bool :=
  let m := month_of doy in
  let d := day_of doy in
  let follows leap len :=
    (len <=? doy) ||
    (d <=? month_length leap m) &&
    bool_decide (next_in_year leap (relative doy) = if doy + 1 <? len then relative (doy + 1) else (1, 3, 1)) in
  (1 <=? m) && (m <=? 12) && (1 <=? d) &&
  ((153 * (if 2 <? m then m - 3 else m + 9) + 2) / 5 + d - 1 =? doy) &&
  follows true 366 && follows false 365.

Lemma doy_table doy : 0 <= doy < 366 -> doy_check doy = true.
Proof.
  intros H. assert (Hall : forallb doy_check (seqZ 0 366) = true) by by vm_compute.
  rewrite forallb_forall in Hall. apply Hall, list_elem_of_In, elem_of_seqZ. lia.
Qed.

(** The date of day [doy] of March year [yoe] of an era. *)
Definition date_at (era yoe doy : Z) : Z * Z * Z :=
  let m := month_of doy in
  (if m <=? 2 then yoe + era * 400 + 1 else yoe + era * 400, m, day_of doy).

Definition day_number (era yoe doy : Z) : Z := era * 146097 + before_year yoe + doy - 719468.

Definition in_year (yoe doy : Z) : Prop := 0 <= yoe < 400 /\ 0 <= doy < year_length yoe.

Lemma year_length_cases k : year_length k = 365 \/ year_length k = 366.
Proof. unfold year_length. destruct (is_leap _); auto. Qed.

Lemma split_day z : exists era yoe doy, in_year yoe doy /\ z = day_number era yoe doy.
Proof.
  pose proof (Z.mod_pos_bound (z + 719468) 146097 ltac:(lia)) as Hm.
  pose proof (Z.div_mod (z + 719468) 146097 ltac:(lia)) as Hz.
  destruct (year_of_bounds _ Hm) as [Hy Hd]. set (doe := (z + 719468) mod 146097) in *.
  exists ((z + 719468) / 146097), (year_of doe), (doe - before_year (year_of doe)).
  unfold in_year, day_number. split; [|lia]. split; [done | lia].
Qed.

Lemma era_of z : Z.quot (if 0 <=? z then z else z - 146096) 146097 = z / 146097.
Proof. destruct (0 <=? z) eqn:E; zbool; Z.to_euclidean_division_equations; lia. Qed.

Lemma civil_at era yoe doy : in_year yoe doy -> civil_from_days (day_number era yoe doy) = date_at era yoe doy.
Proof.
  intros [Hy Hd]. pose proof (year_table yoe Hy) as H. unfold year_check in H. zbool.
  unfold civil_from_days, day_number. rewrite Z.sub_add, era_of.
  assert (E : (era * 146097 + before_year yoe + doy) / 146097 = era).
  { symmetry. apply (Z.div_unique _ _ _ (before_year yoe + doy)); lia. }
  rewrite E. replace (era * 146097 + before_year yoe + doy - era * 146097) with (before_year yoe + doy) by lia.
  cbv zeta. fold (year_of (before_year yoe + doy)).
  rewrite (year_of_unique yoe (before_year yoe + doy)) by lia. fold (before_year yoe).
  replace (before_year yoe + doy - before_year yoe) with doy by lia. reflexivity.
Qed.

Lemma days_at era yoe doy : in_year yoe doy ->
  let '(y, m, d) := date_at era yoe doy in days_from_civil y m d = day_number era yoe doy.
Proof.
  intros [Hy Hd]. pose proof (year_length_cases yoe) as Hl.
  pose proof (doy_table doy ltac:(lia)) as H. unfold doy_check in H. zbool. unfold date_at, days_from_civil.
  replace (if month_of doy <=? 2 then (if month_of doy <=? 2 then yoe + era * 400 + 1 else yoe + era * 400) - 1
           else if month_of doy <=? 2 then yoe + era * 400 + 1 else yoe + era * 400) with (yoe + era * 400)
    by (destruct (month_of doy <=? 2); lia).
  assert (Hq : Z.quot (if 0 <=? yoe + era * 400 then yoe + era * 400 else yoe + era * 400 - 399) 400 = era).
  { destruct (0 <=? _) eqn:E; zbool; Z.to_euclidean_division_equations; lia. }
  rewrite Hq. replace (yoe + era * 400 - era * 400) with yoe by lia.
  match goal with E : _ + _ - 1 = doy |- _ => rewrite E end. unfold day_number, before_year. lia.
Qed.

Lemma date_at_relative era yoe doy :
  date_at era yoe doy = (yoe + era * 400 + (relative doy).1.1, (relative doy).1.2, (relative doy).2).
Proof. unfold date_at, relative. cbn. destruct (_ <=? 2); do 2 f_equal; lia. Qed.

(** The date found is a date, and the next day has the next date. *)
Lemma date_at_next era yoe doy : in_year yoe doy ->
  let '(y, m, d) := date_at era yoe doy in
  (1 <= m <= 12 /\ 1 <= d <= days_in_month y m) /\
  next_day (y, m, d) = if doy + 1 <? year_length yoe then date_at era yoe (doy + 1) else (yoe + era * 400 + 1, 3, 1).
Proof.
  intros [Hy Hd]. pose proof (year_length_cases yoe) as Hl.
  pose proof (doy_table doy ltac:(lia)) as H. unfold doy_check in H. zbool.
  assert (Hf : day_of doy <= month_length (is_leap (yoe + 1)) (month_of doy) /\
               next_in_year (is_leap (yoe + 1)) (relative doy) =
                 if doy + 1 <? year_length yoe then relative (doy + 1) else (1, 3, 1)).
  { unfold year_length in *. destruct (is_leap (yoe + 1));
      match goal with E : (?n <=? doy) || _ = true |- context [?n] =>
        rewrite (proj2 (Z.leb_gt n doy)) in E by lia; cbn [orb] in E; zbool end;
      (split; [done | by apply (bool_decide_eq_true_1 _)]). }
  destruct Hf as [Hdim Hnext]. unfold date_at.
  assert (Hleap : month_length (is_leap (if month_of doy <=? 2 then yoe + era * 400 + 1 else yoe + era * 400)) (month_of doy) =
                  month_length (is_leap (yoe + 1)) (month_of doy)).
  { unfold month_length. destruct (month_of doy =? 2) eqn:E; [|done]. zbool. rewrite E. cbn [Z.leb Z.compare Pos.compare Pos.compare_cont].
    replace (yoe + era * 400 + 1) with (yoe + 1 + era * 400) by lia. by rewrite is_leap_period. }
  cbv zeta. unfold days_in_month. rewrite Hleap. split; [lia|].
  unfold next_day, days_in_month. rewrite Hleap. fold (date_at era yoe (doy + 1)). rewrite date_at_relative.
  unfold next_in_year, relative at 1 in Hnext.
  destruct (doy + 1 <? year_length yoe); [destruct (relative (doy + 1)) as [[s m] d]; cbn|].
  all: destruct (day_of doy <? _); [|destruct (month_of doy <? 12)];
       injection Hnext; intros; destruct (month_of doy <=? 2); apply (f_equal3 (fun a b c => (a, b, c))); lia.
Qed.

Lemma calendar_step z :
  next_day (civil_from_days z) = civil_from_days (z + 1) /\
  let '(y, m, d) := civil_from_days z in 1 <= m <= 12 /\ 1 <= d <= days_in_month y m.
Proof.
  destruct (split_day z) as (era & yoe & doy & Hin & ->). rewrite civil_at by done.
  pose proof (date_at_next era yoe doy Hin) as H. destruct (date_at era yoe doy) as [[y m] d] eqn:E.
  destruct H as [Hv ->]. split; [|done]. destruct Hin as [Hy Hd].
  destruct (doy + 1 <? year_length yoe) eqn:El; zbool.
  { rewrite <- (civil_at era yoe (doy + 1)) by (split; lia). f_equal. unfold day_number. lia. }
  pose proof (year_table yoe Hy) as H. unfold year_check in H. zbool.
  pose proof (year_length_cases (yoe + 1)). pose proof (year_length_cases 0).
  destruct (Z.eqb_spec yoe 399) as [-> | Hne].
  - transitivity (civil_from_days (day_number (era + 1) 0 0)).
    + rewrite civil_at by (split; lia). unfold date_at. change (month_of 0) with 3. change (day_of 0) with 1.
      cbn [Z.leb Z.compare Pos.compare Pos.compare_cont]. do 2 f_equal. lia.
    + f_equal. unfold day_number. change (before_year 0) with 0. lia.
  - transitivity (civil_from_days (day_number era (yoe + 1) 0)).
    + rewrite civil_at by (split; lia). unfold date_at. change (month_of 0) with 3. change (day_of 0) with 1.
      cbn [Z.leb Z.compare Pos.compare Pos.compare_cont]. do 2 f_equal. lia.
    + f_equal. unfold day_number. lia.
Qed.

Lemma civil_inverse z : let '(y, m, d) := civil_from_days z in days_from_civil y m d = z.
Proof.
  destruct (split_day z) as (era & yoe & doy & Hin & ->). rewrite civil_at by done. by apply days_at.
Qed.

(** The date arithmetic is the Gregorian calendar.  Day 0 is 1970-01-01, the
    date of the next day is the next date by the calendar's rules, every date
    produced is a date, and [days_from_civil] inverts [civil_from_days]; this
    for all days, before the epoch too. *)
Theorem civil_calendar (z : Z) :
  civil_from_days 0 = (1970, 1, 1) /\
  civil_from_days (z + 1) = next_day (civil_from_days z) /\
  let '(y, m, d) := civil_from_days z in
  1 <= m <= 12 /\ 1 <= d <= days_in_month y m /\ days_from_civil y m d = z.
Proof.
  pose proof (calendar_step z) as [H1 H2]. pose proof (civil_inverse z) as H3.
  split; [done|]. split; [done|]. destruct (civil_from_days z) as [[y m] d]. tauto.
Qed.

(** ** Buckets *)

(** The first day of the month a day lies in. *)
Definition month_start (days : Z) : Z := let '(_, _, d) := civil_from_days days in days - (d - 1).

Lemma month_start_code days :
  let '(y, m, _) := civil_from_days days in days_from_civil y m 1 = month_start days.
Proof.
  pose proof (civil_inverse days) as H. unfold month_start.
  destruct (civil_from_days days) as [[y m] d]. unfold days_from_civil in *. lia.
Qed.

(** Going back within a month. *)
Lemma month_back (k : nat) days y m d : civil_from_days days = (y, m, d) -> Z.of_nat k < d ->
  civil_from_days (days - Z.of_nat k) = (y, m, d - Z.of_nat k).
Proof.
  intros Hd. induction k as [|k IH]; intros Hk; [by rewrite !Z.sub_0_r|].
  specialize (IH ltac:(lia)). destruct (calendar_step (days - Z.of_nat (S k))) as [Hn Hv].
  replace (days - Z.of_nat (S k) + 1) with (days - Z.of_nat k) in Hn by lia. rewrite IH in Hn.
  destruct (civil_from_days (days - Z.of_nat (S k))) as [[y' m'] d']. unfold next_day in Hn.
  destruct (d' <? _); [|destruct (m' <? 12)]; injection Hn as <- <- E; try lia.
  apply (f_equal3 (fun a b c => (a, b, c))); lia.
Qed.

Lemma month_start_date days y m d : civil_from_days days = (y, m, d) ->
  civil_from_days (month_start days) = (y, m, 1) /\ month_start days <= days.
Proof.
  intros H. destruct (calendar_step days) as [_ Hv]. unfold month_start. rewrite H in *.
  pose proof (month_back (Z.to_nat (d - 1)) days y m d H ltac:(lia)) as Hb.
  rewrite Z2Nat.id in Hb by lia. rewrite Hb. split; [f_equal; lia | lia].
Qed.

(** A month has no other first day. *)
Lemma month_start_unique days x y m :
  civil_from_days x = (y, m, 1) -> month_start days <= x <= days -> x = month_start days.
Proof.
  intros Hx Hr. destruct (civil_from_days days) as [[y' m'] d'] eqn:E. unfold month_start in *. rewrite E in *.
  pose proof (month_back (Z.to_nat (days - x)) days y' m' d' E ltac:(lia)) as Hb.
  rewrite Z2Nat.id in Hb by lia. replace (days - (days - x)) with x in Hb by lia. rewrite Hx in Hb.
  injection Hb. lia.
Qed.

Lemma month_start_mono days days' : days <= days' -> month_start days <= month_start days'.
Proof.
  intros H. destruct (civil_from_days days) as [[y m] d] eqn:E.
  destruct (month_start_date days y m d E) as [Hd Hle].
  destruct (Z.le_gt_cases (month_start days) (month_start days')) as [| Hgt]; [done|].
  pose proof (month_start_unique days' (month_start days) y m Hd ltac:(lia)). lia.
Qed.

Lemma month_start_idem days : month_start (month_start days) = month_start days.
Proof.
  destruct (civil_from_days days) as [[y m] d] eqn:E. destruct (month_start_date days y m d E) as [Hd _].
  unfold month_start at 1. rewrite Hd. lia.
Qed.

Lemma month_start_nonneg days : 0 <= days -> 0 <= month_start days.
Proof. intros H. change 0 with (month_start 0). by apply month_start_mono. Qed.

Lemma days_bound ts : is_u64 ts -> 0 <= ts / 86400 /\ ts / 86400 * 86400 <= ts.
Proof. unfold is_u64. intros H. split; Z.to_euclidean_division_equations; lia. Qed.

Lemma bucket_month ts : is_u64 ts -> bucket_start Month ts = month_start (ts / 86400) * 86400.
Proof.
  intros H. destruct (days_bound ts H) as [H1 H2]. unfold bucket_start.
  pose proof (month_start_code (ts / 86400)) as Hc. pose proof (month_start_nonneg _ H1).
  destruct (civil_from_days (ts / 86400)) as [[y m] d] eqn:E.
  destruct (month_start_date _ _ _ _ E) as [_ Hle]. rewrite Hc. unfold is_u64 in H.
  rewrite (wrap64_small (month_start _)) by (unfold is_u64; lia). by rewrite wrap64_small by (unfold is_u64; lia).
Qed.

Definition interval_ok (iv : Interval) : Prop := match iv with Fixed n => 0 < n | _ => True end.

Lemma bucket_le iv ts : interval_ok iv -> is_u64 ts -> 0 <= bucket_start iv ts <= ts.
Proof.
  intros Hiv H. destruct (days_bound ts H) as [H1 H2]. destruct iv as [n | |].
  - cbn in *. unfold is_u64 in H. pose proof (Z.mod_pos_bound ts n Hiv). pose proof (Z.mod_le ts n). lia.
  - cbn. pose proof (Z.mod_pos_bound (ts / 86400 + 3) 7 ltac:(lia)). unfold is_u64 in H. lia.
  - rewrite bucket_month by done. pose proof (month_start_nonneg _ H1).
    destruct (civil_from_days (ts / 86400)) as [[y m] d] eqn:E. destruct (month_start_date _ _ _ _ E). lia.
Qed.

Lemma bucket_mono iv ts ts' : interval_ok iv -> is_u64 ts -> is_u64 ts' -> ts <= ts' ->
  bucket_start iv ts <= bucket_start iv ts'.
Proof.
  intros Hiv H H' Hle. destruct iv as [n | |].
  - cbn in *. rewrite !Z.mod_eq by lia. pose proof (Z.div_le_mono ts ts' n Hiv Hle). nia.
  - cbn. apply Z.mul_le_mono_nonneg_r; [lia|]. Z.to_euclidean_division_equations. lia.
  - rewrite !bucket_month by done. apply Z.mul_le_mono_nonneg_r; [lia|].
    apply month_start_mono, Z.div_le_mono; lia.
Qed.

Lemma bucket_idem iv ts : interval_ok iv -> is_u64 ts -> bucket_start iv (bucket_start iv ts) = bucket_start iv ts.
Proof.
  intros Hiv H. pose proof (bucket_le iv ts Hiv H) as Hb.
  assert (is_u64 (bucket_start iv ts)) by (unfold is_u64 in *; lia). destruct iv as [n | |].
  - cbn in *. rewrite Zminus_mod_idemp_r, Z.sub_diag, Zmod_0_l. lia.
  - cbn. rewrite Z.div_mul by lia. Z.to_euclidean_division_equations. lia.
  - rewrite bucket_month by done. rewrite bucket_month by done. by rewrite Z.div_mul, month_start_idem by lia.
Qed.

(** The opening time of a bucket never lies after the timestamp, opens its own
    bucket and grows with time, so the buckets of an interval tile the time
    line; two timestamps share a month bucket exactly when they share year and
    month, and a month bucket opens at midnight on the first; a week bucket opens
    at midnight on a Monday within the last seven days, or at the epoch. *)
Theorem buckets_tile (iv : Interval) (ts ts' : Z) :
  interval_ok iv -> is_u64 ts -> is_u64 ts' ->
  0 <= bucket_start iv ts <= ts /\
  bucket_start iv (bucket_start iv ts) = bucket_start iv ts /\
  (ts <= ts' -> bucket_start iv ts <= bucket_start iv ts') /\
  (bucket_start iv ts <= ts' <= ts -> bucket_start iv ts' = bucket_start iv ts) /\
  match iv with
  | Fixed n => (n | bucket_start iv ts) /\ ts < bucket_start iv ts + n
  | Week => exists days, bucket_start iv ts = days * 86400 /\ ts < (days + 7) * 86400 /\
      (days = 0 \/ (days + 3) mod 7 = 0)
  | Month => exists days, bucket_start iv ts = days * 86400 /\
      civil_from_days days = ((civil_from_days (ts / 86400)).1, 1) /\
      (bucket_start iv ts = bucket_start iv ts' <->
       (civil_from_days (ts / 86400)).1 = (civil_from_days (ts' / 86400)).1)
  end.
Proof.
  intros Hiv H H'. pose proof (bucket_le iv ts Hiv H) as Hle. pose proof (bucket_idem iv ts Hiv H) as Hid.
  assert (Hb : is_u64 (bucket_start iv ts)) by (unfold is_u64 in *; lia).
  split_and!; [lia | lia | done | by apply bucket_mono | |].
  - intros [H1 H2]. pose proof (bucket_mono iv ts' ts Hiv H' H H2).
    pose proof (bucket_mono iv _ ts' Hiv Hb H' H1). lia.
  - destruct iv as [n | |].
    + cbn in *. pose proof (Z.mod_pos_bound ts n Hiv). split; [|lia].
      exists (ts / n). rewrite Z.mod_eq by lia. lia.
    + exists (Z.max 0 (ts / 86400 - (ts / 86400 + 3) mod 7)). split; [done|]. unfold is_u64 in H.
      pose proof (Z.mod_pos_bound (ts / 86400 + 3) 7 ltac:(lia)). pose proof (Z.div_mod (ts / 86400 + 3) 7 ltac:(lia)).
      pose proof (Z.mul_succ_div_gt ts 86400 ltac:(lia)). split; [lia|].
      destruct (Z.le_gt_cases (ts / 86400) ((ts / 86400 + 3) mod 7)); [left; lia | right].
      rewrite Z.max_r by lia. symmetry. apply Z.mod_unique_pos with ((ts / 86400 + 3) / 7); lia.
    + exists (month_start (ts / 86400)). rewrite !bucket_month by done.
      destruct (civil_from_days (ts / 86400)) as [[y m] d] eqn:E.
      destruct (civil_from_days (ts' / 86400)) as [[y' m'] d'] eqn:E'.
      destruct (month_start_date _ _ _ _ E) as [M _]. destruct (month_start_date _ _ _ _ E') as [M' _].
      cbn [fst]. split_and!; [done | done |]. split.
      * intros Eq. assert (Eq' : month_start (ts / 86400) = month_start (ts' / 86400)) by lia. congruence.
      * intros [= -> ->]. pose proof (civil_inverse (month_start (ts / 86400))) as I.
        pose proof (civil_inverse (month_start (ts' / 86400))) as I'. rewrite M in I. rewrite M' in I'. lia.
Qed.

Lemma buckets_tile_witness :
  exists days, bucket_start Month 1700000000 = days * 86400 /\ civil_from_days days = (2023, 11, 1).
Proof.
  destruct (buckets_tile Month 1700000000 1700000001) as (_ & _ & _ & _ & days & E & H & _);
    [exact I | unfold_width; lia | unfold_width; lia |].
  exists days. split; [exact E|]. rewrite H. vm_compute. reflexivity.
Defined.

(** ** Aggregation *)
Record print := mkPrint { at_sec : Z; p_price : Price; p_qty : Qty }.

(** The candle of a group of prints, from its definition. *)
Definition candle_of (bucket : Z) (g : list print) : Candle :=
  let prices := p_price <$> g in
  let first := default 0 (head prices) in
  mkCandle bucket first (foldl Z.max first prices) (foldl Z.min first prices) (default 0 (last prices))
    (foldl (fun v p => wrap64 (v + p_qty p)) 0 g) (wrap32 (Z.of_nat (length g))).

(** The prints cut into the maximal runs that share a bucket. *)
Inductive runs (iv : Interval) : list print -> list (Z * list print) -> Prop :=
| runs_nil : runs iv [] []
| runs_join ps gs b g p : runs iv ps (gs ++ [(b, g)]) -> bucket_start iv (at_sec p) = b ->
    runs iv (ps ++ [p]) (gs ++ [(b, g ++ [p])])
| runs_open ps gs p : runs iv ps gs ->
    (forall b g, last gs = Some (b, g) -> bucket_start iv (at_sec p) <> b) ->
    runs iv (ps ++ [p]) (gs ++ [(bucket_start iv (at_sec p), [p])]).

Definition last_n {A : Type} (n : nat) (l : list A) : list A := drop (length l - n) l.

Definition retained (cap : Z) (gs : list (Z * list print)) : list Candle :=
  last_n (Z.to_nat cap) ((fun bg => candle_of bg.1 bg.2) <$> gs).

Definition print_ok (p : print) : Prop := is_u64 (p_price p) /\ is_u64 (p_qty p).

Lemma runs_nonempty iv ps gs : runs iv ps gs -> Forall (fun bg => bg.2 <> []) gs.
Proof.
  induction 1 as [|ps gs b g p _ IH _|ps gs p _ IH _].
  - apply Forall_nil_2.
  - apply Forall_app in IH as [IH _]. apply Forall_app_2; [done|]. apply Forall_singleton. cbn. by destruct g.
  - apply Forall_app_2; [done|]. by apply Forall_singleton.
Qed.

Lemma last_n_length_le {A} (n : nat) (l : list A) : length (last_n n l) = Nat.min n (length l).
Proof. unfold last_n. rewrite length_drop. lia. Qed.

Lemma last_n_snoc {A} (n : nat) (l : list A) (x : A) : (0 < n)%nat ->
  last_n n (l ++ [x]) = drop (length l + 1 - n) l ++ [x].
Proof. intros H. unfold last_n. rewrite length_app. cbn [length]. by rewrite drop_app_le by lia. Qed.

Lemma tail_drop {A} (l : list A) : tail l = drop 1 l.
Proof. by destruct l. Qed.

(** Opening a candle. *)
Lemma push_fresh cap (l : list Candle) c : 0 <= cap ->
  (let dq := last_n (Z.to_nat cap) l ++ [c] in if cap <? Z.of_nat (length dq) then tail dq else dq) =
  last_n (Z.to_nat cap) (l ++ [c]).
Proof.
  intros Hcap. cbv zeta. set (n := Z.to_nat cap). rewrite length_app, last_n_length_le. cbn [length].
  assert (E : last_n n l ++ [c] = drop (length l - n) (l ++ [c])) by (unfold last_n; by rewrite drop_app_le by lia).
  rewrite E. unfold last_n. rewrite length_app. cbn [length]. destruct (cap <? _) eqn:El; zbool.
  - rewrite tail_drop, drop_drop. f_equal. lia.
  - f_equal. lia.
Qed.

Lemma candle_first b p : print_ok p ->
  candle_of b [p] = mkCandle b (p_price p) (p_price p) (p_price p) (p_price p) (p_qty p) 1.
Proof.
  intros [_ Hq]. unfold candle_of. cbn. rewrite Z.max_id, Z.min_id. by rewrite wrap64_small by done.
Qed.

Lemma candle_next b g p : g <> [] ->
  let c := candle_of b g in
  candle_of b (g ++ [p]) =
    mkCandle (start c) (open c) (Z.max (high c) (p_price p)) (Z.min (low c) (p_price p)) (p_price p)
      (wrap64 (volume c + p_qty p)) (wrap32 (trades c + 1)).
Proof.
  intros Hg. unfold candle_of. cbn [start open high low close volume trades].
  rewrite fmap_app. change (p_price <$> [p]) with [p_price p].
  rewrite last_snoc, !foldl_app, length_app. destruct g as [|q g]; [done|]. cbn [fmap list_fmap app head default foldl length].
  f_equal. unfold wrap32. rewrite Zplus_mod_idemp_l. f_equal. lia.
Qed.

(** One print into a deque that holds the last candles of the runs so far. *)
Lemma push_trade_runs iv cap ps gs p : 0 <= cap -> print_ok p -> runs iv ps gs ->
  exists gs', runs iv (ps ++ [p]) gs' /\
    push_trade cap (bucket_start iv (at_sec p)) (p_price p) (p_qty p) (retained cap gs) = retained cap gs'.
Proof.
  intros Hcap Hp Hr. set (b := bucket_start iv (at_sec p)). unfold push_trade. cbv zeta.
  assert (Hopen : forall c, c = candle_of b [p] ->
    (if cap <? Z.of_nat (length (retained cap gs ++ [c])) then tail (retained cap gs ++ [c])
     else retained cap gs ++ [c]) = retained cap (gs ++ [(b, [p])])).
  { intros c ->. unfold retained. rewrite fmap_app. exact (push_fresh cap _ _ Hcap). }
  specialize (Hopen _ (eq_sym (candle_first b p Hp))).
  destruct gs as [|[b' g] gs _] using rev_ind.
  { exists [(b, [p])]. split; [|exact Hopen]. apply (runs_open iv ps [] p Hr). by intros. }
  pose proof (runs_nonempty _ _ _ Hr) as Hne. apply Forall_app in Hne as [_ Hne].
  apply Forall_cons_1 in Hne as [Hne _]. cbn in Hne. destruct (decide (b' = b)) as [-> | Hb].
  - exists (gs ++ [(b, g ++ [p])]). split; [by apply runs_join|].
    destruct (decide (cap = 0)) as [-> | Hc].
    { unfold retained, last_n. rewrite !fmap_app, !Nat.sub_0_r, !drop_all. done. }
    unfold retained. rewrite !fmap_app. cbn [fmap list_fmap fst snd].
    rewrite !last_n_snoc by lia. rewrite last_snoc. cbn [start candle_of]. rewrite Z.eqb_refl.
    rewrite length_app, take_app_length' by (cbn; lia). by rewrite (candle_next b g p Hne).
  - exists ((gs ++ [(b', g)]) ++ [(b, [p])]). split.
    { apply runs_open; [done|]. intros b0 g0. rewrite last_snoc. intros [= <- <-]. fold b. by intros E. }
    rewrite <- Hopen. destruct (last (retained cap (gs ++ [(b', g)]))) as [c |] eqn:El; [|done].
    assert (start c = b') as ->.
    { revert El. unfold retained. rewrite fmap_app. cbn [fmap list_fmap fst snd].
      destruct (decide (Z.to_nat cap = 0)%nat) as [E0 |].
      - unfold last_n. rewrite E0, Nat.sub_0_r, drop_all. done.
      - rewrite last_n_snoc, last_snoc by lia. by intros [= <-]. }
    by rewrite (proj2 (Z.eqb_neq _ _)) by done.
Qed.

(** A print reaches the ten deques of its instrument. *)
Lemma on_trade_series a i ts price qty s :
  default (replicate (length INTERVALS) []) (series a !! i) = s -> length s = length INTERVALS ->
  on_trade a i ts price qty =
    Ret (mkAgg (<[i := zip_with (fun iv dq => push_trade (cap a) (bucket_start iv ts) price qty dq) INTERVALS.*2 s]>
           (series a)) (cap a)).
Proof.
  intros Hs Hl. unfold on_trade. rewrite Hs.
  do 10 (destruct s as [|? s]; [done|]). destruct s; [|done]. reflexivity.
Qed.

(** The prints of one instrument. *)
Definition prints_of (i : InstrumentId) (tape : list (InstrumentId * print)) : list print :=
  (filter (fun e => e.1 = i) tape).*2.

Definition feed (a : KlineAggregator) (e : InstrumentId * print) : outcome KlineAggregator :=
  on_trade a e.1 (at_sec e.2) (p_price e.2) (p_qty e.2).

(** What the aggregator holds after a tape. *)
Definition holds_tape (a : KlineAggregator) (tape : list (InstrumentId * print)) : Prop :=
  forall i,
    match series a !! i with
    | None => prints_of i tape = []
    | Some s => prints_of i tape <> [] /\
        Forall2 (fun iv dq => exists gs, runs iv (prints_of i tape) gs /\ dq = retained (cap a) gs) INTERVALS.*2 s
    end.

Lemma feed_holds a tape e : 0 <= cap a -> print_ok e.2 -> holds_tape a tape ->
  exists a', feed a e = Ret a' /\ cap a' = cap a /\ holds_tape a' (tape ++ [e]).
Proof.
  intros Hcap Hp Ha. destruct e as [i p]. cbn in Hp.
  set (s := default (replicate (length INTERVALS) []) (series a !! i)).
  assert (Hs : Forall2 (fun iv dq => exists gs, runs iv (prints_of i tape) gs /\ dq = retained (cap a) gs) INTERVALS.*2 s).
  { specialize (Ha i). unfold s. destruct (series a !! i) as [s' |]; [apply Ha|]. cbn [default]. rewrite Ha.
    apply Forall2_same_length_lookup_2; [done|]. intros k iv dq _ Hdq. apply lookup_replicate in Hdq as [-> _].
    exists []. split; [constructor|done]. }
  unfold feed. cbn [fst snd].
  rewrite (on_trade_series a i _ _ _ s eq_refl) by (by rewrite <- (Forall2_length _ _ _ Hs)).
  eexists. split; [done|]. split; [done|]. intros j. cbn [series cap].
  assert (Hsnoc : forall j, prints_of j (tape ++ [(i, p)]) = prints_of j tape ++ (if decide (i = j) then [p] else [])).
  { intros k. unfold prints_of. rewrite filter_app, fmap_app. f_equal. rewrite filter_cons. cbn. by case_decide. }
  rewrite Hsnoc. destruct (decide (i = j)) as [<- | Hne].
  - rewrite lookup_insert_eq. split; [by destruct (prints_of i tape)|].
    revert Hs. generalize INTERVALS.*2 s. induction 1 as [|iv dq ivs dqs (gs & Hgs & ->) _ IH]; cbn; [constructor|].
    constructor; [|done]. destruct (push_trade_runs iv (cap a) _ gs p Hcap Hp Hgs) as (gs' & ? & E). by exists gs'.
  - rewrite lookup_insert_ne, app_nil_r by done. apply Ha.
Qed.

(** Candles are what their definition says.  Feed any tape of prints, over
    any instruments and in any time order, to an aggregator of capacity [c].
    It never panics, and asking for the candles of an instrument and a named
    interval returns the most recent [limit] of the last [c] candles of the
    maximal runs of that instrument's prints sharing a bucket: opened at the
    bucket with the first price, closed at the last, with the highest, the
    lowest, the (64-bit) volume and the number of prints of the run. *)
Theorem candles_exact (c : Z) (tape : list (InstrumentId * print)) (i : InstrumentId) (name : string)
    (idx : nat) (iv : Interval) (limit : nat) :
  0 <= c -> Forall (fun e => print_ok e.2) tape -> interval_by_name name = Some (idx, iv) ->
  exists a gs, ofold feed (new c) tape = Ret a /\ runs iv (prints_of i tape) gs /\
    candles a i name limit = Ret (last_n limit (retained c gs)).
Proof.
  intros Hc Htape Hname.
  assert (Hrun : exists a, ofold feed (new c) tape = Ret a /\ cap a = c /\ holds_tape a tape).
  { induction tape as [|e tape IH] using rev_ind.
    - exists (new c). split_and!; [done | done |]. intros j. cbn [series new]. by rewrite lookup_empty.
    - apply Forall_app in Htape as [Ht He]. apply Forall_cons_1 in He as [He _].
      destruct (IH Ht) as (a & Ha & Hca & Hh). rewrite ofold_app, Ha. cbn [obind].
      destruct (feed_holds a tape e ltac:(lia) He Hh) as (a' & Hf & Hca' & Hh').
      exists a'. cbn [ofold]. rewrite Hf. split_and!; [done | congruence | done]. }
  destruct Hrun as (a & Ha & Hca & Hh). exists a. unfold candles. rewrite Hname. specialize (Hh i).
  destruct (series a !! i) as [s |].
  - destruct Hh as [_ Hh]. assert (Hiv : INTERVALS.*2 !! idx = Some iv).
    { unfold interval_by_name in Hname. destruct (list_find _ _) as [[k [nm v]] |] eqn:E; [|done].
      injection Hname as <- <-. apply list_find_Some in E as [E _]. by rewrite list_lookup_fmap, E. }
    destruct (Forall2_lookup_l _ _ _ _ _ Hh Hiv) as (dq & Hdq & gs & Hgs & ->). exists gs.
    rewrite Hdq. cbn [expect obind]. rewrite Hca. by split_and!.
  - exists []. rewrite Hh. split_and!; [done | constructor |]. unfold retained, last_n. cbn [fmap list_fmap]. by rewrite !drop_nil.
Qed.

Lemma candles_exact_witness :
  exists a gs, ofold feed (new 100) [(1, mkPrint 60 10 5); (2, mkPrint 61 7 1); (1, mkPrint 119 8 4); (1, mkPrint 120 9 1)] = Ret a /\
    runs (Fixed 60) [mkPrint 60 10 5; mkPrint 119 8 4; mkPrint 120 9 1] gs /\
    candles a 1 "1m" 10 = Ret (last_n 10 (retained 100 gs)).
Proof.
  apply (candles_exact 100 [(1, mkPrint 60 10 5); (2, mkPrint 61 7 1); (1, mkPrint 119 8 4); (1, mkPrint 120 9 1)]
           1 "1m" 1 (Fixed 60) 10).
  - lia.
  - repeat apply Forall_cons_2; [split; unfold_width; cbn; lia.. | apply Forall_nil_2].
  - reflexivity.
Defined.

(** ** The file round trip *)
Definition candle_ok (c : Candle) : Prop :=
  is_u64 (start c) /\ is_u64 (open c) /\ is_u64 (high c) /\ is_u64 (low c) /\ is_u64 (close c) /\
  is_u64 (volume c) /\ is_u32 (trades c).

Definition deque_ok (dq : list Candle) : Prop := is_u32 (Z.of_nat (length dq)) /\ Forall candle_ok dq.

Definition agg_ok (a : KlineAggregator) : Prop :=
  is_u64 (cap a) /\ is_u32 (Z.of_nat (size (series a))) /\
  forall i s, series a !! i = Some s -> is_u32 i /\ length s = length INTERVALS /\ Forall deque_ok s.

Lemma length_encode_candle c : length (encode_candle c) = 56%nat.
Proof. reflexivity. Qed.

Section loading.
Context (buf : bytes) (foot : bytes) (Hfoot : length foot = 8%nat).

Lemma guard_here pos bs rest : drop pos buf = bs ++ rest ++ foot -> (0 < length bs)%nat ->
  guard_take (length buf - 8) pos (length bs) = Ok tt.
Proof using Hfoot.
  intros H Hb. assert (L : length (drop pos buf) = length (bs ++ rest ++ foot)) by by rewrite H.
  rewrite length_drop, !length_app in L. unfold guard_take. by rewrite (proj2 (Nat.ltb_ge _ _)) by lia.
Qed.

Lemma read_candle_here pos c rest : candle_ok c -> drop pos buf = encode_candle c ++ rest -> read_candle buf pos = c.
Proof.
  intros (H1 & H2 & H3 & H4 & H5 & H6 & H7) H. unfold encode_candle in H. cbn [fmap list_fmap concat] in H.
  rewrite <- !(assoc_L (++)) in H. unfold read_candle.
  pose proof (drop_u64 _ _ _ _ H) as E1. pose proof (drop_u64 _ _ _ _ E1) as E2. pose proof (drop_u64 _ _ _ _ E2) as E3.
  pose proof (drop_u64 _ _ _ _ E3) as E4. pose proof (drop_u64 _ _ _ _ E4) as E5. pose proof (drop_u64 _ _ _ _ E5) as E6.
  rewrite <- !Nat.add_assoc in *. cbn [Nat.add Nat.mul] in *. rewrite Nat.add_0_r.
  assert (is_u64 (trades c)) by (unfold is_u32, is_u64 in *; lia).
  rewrite (u64_here _ _ _ _ H1 H), (u64_here _ _ _ _ H2 E1), (u64_here _ _ _ _ H3 E2), (u64_here _ _ _ _ H4 E3),
    (u64_here _ _ _ _ H5 E4), (u64_here _ _ _ _ H6 E5), (u64_here _ _ (trades c) _ ltac:(done) E6).
  rewrite wrap32_small by done. by destruct c.
Qed.

Lemma read_candles_here dq pos rest : Forall candle_ok dq -> drop pos buf = concat (encode_candle <$> dq) ++ rest ->
  (fun k => read_candle buf (pos + k * 56)) <$> seq 0 (length dq) = dq.
Proof.
  intros Hok. revert pos. induction Hok as [|c dq Hc _ IH]; intros pos H; [done|].
  cbn [length seq fmap list_fmap concat] in *. rewrite <- (assoc_L (++)) in H. f_equal.
  - rewrite Nat.mul_0_l, Nat.add_0_r. by eapply read_candle_here.
  - apply drop_here in H. rewrite length_encode_candle in H. rewrite <- (IH _ H) at 2.
    rewrite <- fmap_S_seq, <- list_fmap_compose. apply list_fmap_ext. intros _ k _. cbn. f_equal. lia.
Qed.

Lemma read_deque_here dq pos rest : deque_ok dq -> drop pos buf = encode_deque dq ++ rest ++ foot ->
  exists pos', read_deque buf (length buf - 8) pos = Ok (dq, pos') /\ drop pos' buf = rest ++ foot.
Proof using Hfoot.
  intros [Hn Hok] H. unfold encode_deque in H. rewrite <- (assoc_L (++)) in H. unfold read_deque.
  pose proof (guard_here pos (le_bytes 4 (Z.of_nat (length dq))) (concat (encode_candle <$> dq) ++ rest)) as G.
  rewrite length_le_bytes in G. rewrite G by (lia || by rewrite <- (assoc_L (++))). cbn [try_bind].
  rewrite (u32_here _ _ _ _ Hn H), Nat2Z.id. apply drop_u32 in H.
  assert (Hl : length (concat (encode_candle <$> dq)) = (length dq * 56)%nat).
  { clear. induction dq as [|c dq IH]; [done|]. cbn [fmap list_fmap concat length].
    rewrite length_app, length_encode_candle. fold (encode_candle <$> dq). lia. }
  assert (G' : guard_take (length buf - 8) (pos + 4) (length dq * 56) = Ok tt).
  { destruct dq as [|c dq]; [|rewrite <- Hl; apply (guard_here _ _ rest H); rewrite Hl; cbn; lia].
    apply (f_equal length) in H. rewrite length_drop, !length_app, Hfoot in H. unfold guard_take.
    by rewrite (proj2 (Nat.ltb_ge _ _)) by (cbn in *; lia). }
  rewrite G'. cbn [try_bind]. eexists. split; [by rewrite (read_candles_here dq _ _ Hok H)|].
  rewrite <- Hl. by apply drop_here.
Qed.

Lemma read_series_here s pos rest : Forall deque_ok s -> drop pos buf = concat (encode_deque <$> s) ++ rest ++ foot ->
  exists pos', read_series (length s) buf (length buf - 8) pos = Ok (s, pos') /\ drop pos' buf = rest ++ foot.
Proof using Hfoot.
  intros Hok. revert pos. induction Hok as [|dq s Hdq _ IH]; intros pos H; [by exists pos|].
  cbn [length read_series fmap list_fmap concat] in *. rewrite <- (assoc_L (++)) in H.
  rewrite (assoc_L (++) (concat _)) in H. destruct (read_deque_here dq pos _ Hdq H) as (p1 & -> & H1).
  cbn [try_bind fst snd]. rewrite <- (assoc_L (++)) in H1. destruct (IH p1 H1) as (p2 & E & H2).
  unfold fmap in E. rewrite E. cbn [try_bind fst snd]. by exists p2.
Qed.

(** Instruments are read back one after the other into the map. *)
Lemma read_instruments_here a ids pos acc rest : agg_ok a -> Forall (fun i => is_Some (series a !! i)) ids ->
  drop pos buf = concat (encode_instrument a <$> ids) ++ rest ++ foot ->
  read_instruments (length ids) buf (length buf - 8) pos acc =
    Ok (mkAgg (foldl (fun m i => <[i := default [] (series a !! i)]> m) (series acc) ids) (cap acc)).
Proof using Hfoot.
  intros (_ & _ & Ha) Hids. revert pos acc. induction Hids as [|i ids [s Hs] _ IH]; intros pos acc H; [by destruct acc|].
  destruct (Ha i s Hs) as (Hi & Hl & Hok).
  cbn [length read_instruments fmap list_fmap concat foldl] in *. unfold encode_instrument in H at 1. rewrite Hs in *.
  cbn [default] in *. rewrite <- !(assoc_L (++)) in H.
  pose proof (guard_here pos (le_bytes 4 i) (concat (encode_deque <$> s) ++ concat (encode_instrument a <$> ids) ++ rest)) as G.
  rewrite length_le_bytes in G. rewrite G by (lia || by rewrite <- !(assoc_L (++))). cbn [try_bind].
  rewrite (u32_here _ _ _ _ Hi H). apply drop_u32 in H. rewrite (assoc_L (++) (concat (_ <$> ids))) in H.
  destruct (read_series_here s _ _ Hok H) as (p1 & E & H1). rewrite <- Hl, E. cbn [try_bind fst snd].
  rewrite <- (assoc_L (++)) in H1. by rewrite (IH p1 _ H1).
Qed.

End loading.

Lemma fold_inserts (m acc : gmap InstrumentId (list (list Candle))) (ids : list InstrumentId) (i : InstrumentId) :
  foldl (fun m' j => <[j := default [] (m !! j)]> m') acc ids !! i =
    if decide (i ∈ ids) then Some (default [] (m !! i)) else acc !! i.
Proof.
  induction ids as [|j ids IH] using rev_ind; [by rewrite decide_False by apply not_elem_of_nil|].
  rewrite foldl_app. cbn [foldl]. destruct (decide (j = i)) as [-> | Hne].
  - rewrite lookup_insert_eq, decide_True; [done|]. set_solver.
  - rewrite lookup_insert_ne, IH by done. destruct (decide (i ∈ ids)); [rewrite decide_True | rewrite decide_False]; set_solver.
Qed.

Lemma elem_of_instruments a i : i ∈ instruments a <-> is_Some (series a !! i).
Proof.
  unfold instruments. rewrite merge_sort_Permutation, list_elem_of_fmap. split.
  - intros ([j s] & -> & H). apply elem_of_map_to_list in H. by exists s.
  - intros [s H]. exists (i, s). split; [done|]. by apply elem_of_map_to_list.
Qed.

Lemma length_instruments a : length (instruments a) = size (series a).
Proof. unfold instruments. by rewrite merge_sort_Permutation, length_fmap, length_map_to_list. Qed.

(** The candle file.  Loading what was saved returns the aggregator: its
    capacity and, for every instrument, every candle of every interval. *)
Theorem kline_round_trip (a : KlineAggregator) : agg_ok a -> load (save a) = Ok a.
Proof.
  intros Hok. pose proof Hok as (Hcap & Hsize & Ha).
  set (bodies := concat (encode_instrument a <$> instruments a)).
  set (head := KLINE_MAGIC ++ le_bytes 8 (cap a) ++ le_bytes 4 (Z.of_nat (size (series a))) ++ bodies).
  set (foot := le_bytes 8 (fnv1a head)). assert (Hfoot : length foot = 8%nat) by apply length_le_bytes.
  assert (Hs : save a = head ++ foot) by done. rewrite Hs. unfold load.
  assert (Hl : length (head ++ foot) = (16 + length bodies + 8)%nat).
  { unfold head. rewrite !length_app, !length_le_bytes, Hfoot. cbn. lia. }
  rewrite (proj2 (Nat.ltb_ge _ _)) by lia. rewrite bool_decide_true by done. cbn [orb negb].
  assert (Hd : (length (head ++ foot) - 8)%nat = length head) by (rewrite length_app; lia).
  rewrite Hd, drop_app_length, take_app_length. unfold foot at 1. rewrite le_value_u64 by apply fnv1a_u64.
  rewrite Z.eqb_refl. cbn [negb]. rewrite <- Hd.
  assert (D4 : drop 4 (head ++ foot) = le_bytes 8 (cap a) ++ le_bytes 4 (Z.of_nat (size (series a))) ++ bodies ++ foot).
  { unfold head. rewrite <- !(assoc_L (++)). done. }
  pose proof (drop_u64 _ _ _ _ D4) as D12. pose proof (drop_u32 _ _ _ _ D12) as D16. cbn [Nat.add] in D12, D16.
  rewrite (u64_here _ _ _ _ Hcap D4), (u32_here _ _ _ _ Hsize D12), Nat2Z.id, <- length_instruments.
  rewrite (read_instruments_here (head ++ foot) foot Hfoot a (instruments a) 16 (new (cap a)) [] Hok).
  - cbn [series new cap]. destruct a as [m c]. f_equal. f_equal. apply map_eq. intros i. rewrite fold_inserts.
    destruct (decide _) as [Hi | Hi]; rewrite elem_of_instruments in Hi; cbn [series] in *.
    + destruct Hi as [s ->]. done.
    + rewrite lookup_empty. symmetry. by apply eq_None_not_Some.
  - apply Forall_forall. intros i. by rewrite elem_of_instruments.
  - done.
Qed.

Lemma kline_round_trip_witness :
  load (save (mkAgg {[7 := replicate 10 [mkCandle 60 1 2 1 2 5 2]]} 3)) = Ok (mkAgg {[7 := replicate 10 [mkCandle 60 1 2 1 2 5 2]]} 3).
Proof.
  apply kline_round_trip. split_and!.
  - unfold_width. cbn. lia.
  - cbn [series]. rewrite map_size_singleton. unfold_width. lia.
  - intros i s. cbn [series]. intros H. apply lookup_singleton_Some in H as [<- <-]. split_and!.
    + unfold_width. lia.
    + reflexivity.
    + apply Forall_replicate. split; [unfold_width; cbn; lia|]. apply Forall_cons_2; [|apply Forall_nil_2].
      unfold candle_ok. cbn. unfold_width. lia.
Defined.
