(* ===== verification/RaftLog.v ===== *)
(** * The durable Raft log

    The storage half of [src/src/raft_log.rs]: the cluster configuration, the
    record format of a member's state file, its recovery ([DurableRaftLog::open])
    and the operations that write it ([persist], [compact], [install_snapshot]).

    [Entry], [HardState] and [Snapshot] belong to the [raft] crate and their byte
    representation to the [protobuf] crate, neither of which is part of the
    sources.  The fields this code reads are records; the two conversions of
    [protobuf::Message] are the operations of a class, and that parsing inverts
    writing is its law.

    The file system: a crash leaves of the file what was synced and any part of
    what was written since, and [rename] replaces a file in one step that is durable
    when [rewrite] returns.  The last is an assumption on the file system: the code
    syncs the file that took the name, not its directory, which POSIX requires for
    the name itself ([rename_needs_directory_sync]). *)

From S2P Require Import Prelude Bytes.

(** ** Cluster configuration *)
Definition MAX_CLUSTER_SIZE : Z := 9.

Record ClusterConfig := mkConfig {
  node_id : Z;
  voters : list Z;
  election_tick : Z;
  heartbeat_tick : Z
}.

Module ClusterConfig.

(** [windows(2).any(|w| w[0] == w[1])] *)
Fixpoint has_repeat (sorted : list Z) : bool :=
  match sorted with
  | a :: ((b :: _) as rest) => (a =? b) || has_repeat rest
  | _ => false
  end.

Definition new (node_id : Z) (voters : list Z) : io_result ClusterConfig :=
  if (node_id =? 0) || negb (bool_decide (node_id ∈ voters)) then Err "node id must be a member of the cluster"
  else if bool_decide (voters = []) || (MAX_CLUSTER_SIZE <? Z.of_nat (length voters)) then
    Err "raft voters must number between 1 and MAX_CLUSTER_SIZE"
  else
    let sorted := merge_sort Z.le voters in
    if bool_decide (head sorted = Some 0) || has_repeat sorted then Err "raft voters must be distinct non-zero ids"
    else Ok (mkConfig node_id voters 10 2).

Definition quorum (c : ClusterConfig) : Z := Z.of_nat (length (voters c)) / 2 + 1.

End ClusterConfig.

(** ** Messages of the [raft] crate *)
Inductive EntryType := EntryNormal | EntryConfChange | EntryConfChangeV2.

Record Entry := mkEntry { entry_type : EntryType; term : Z; index : Z; data : bytes }.

Record HardState := mkHard { hs_term : Z; vote : Z; commit : Z }.

(** [HardState::default()]. *)
Definition no_hard_state : HardState := mkHard 0 0 0.

Record RaftSnapshot := mkRaftSnap { s_index : Z; s_term : Z; conf_voters : list Z; s_data : bytes }.

#[export] Instance EntryType_eq_dec : EqDecision EntryType.
Proof. solve_decision. Defined.
#[export] Instance Entry_eq_dec : EqDecision Entry.
Proof. solve_decision. Defined.
#[export] Instance HardState_eq_dec : EqDecision HardState.
Proof. solve_decision. Defined.
#[export] Instance RaftSnapshot_eq_dec : EqDecision RaftSnapshot.
Proof. solve_decision. Defined.

(** [protobuf::Message]. *)
Class Message (A : Type) := {
  write_to_bytes : A -> bytes;
  parse_from_bytes : bytes -> option A
}.

Class MessageLaws (A : Type) `{!Message A} : Prop :=
  parse_write : forall a : A, parse_from_bytes (write_to_bytes a) = Some a.

(** ** Records *)
Definition STORAGE_HEADER : bytes := [84; 67; 82; 70; 1; 0; 0; 0].
Definition HARD_STATE_RECORD : Z := 1.
Definition ENTRY_RECORD : Z := 2.
Definition SNAPSHOT_RECORD : Z := 3.

Definition protected (kind : Z) (payload : bytes) : bytes :=
  kind :: le_bytes 4 (Z.of_nat (length payload)) ++ payload.

Definition record_image (kind : Z) (payload : bytes) : bytes :=
  protected kind payload ++ le_bytes 8 (fnv1a (protected kind payload)).

(** [Writer::write_record]: the file after it. *)
Definition write_record (file : bytes) (kind : Z) (payload : bytes) : io_result bytes :=
  if U32_MAX <? Z.of_nat (length payload) then Err "raft record too large"
  else Ok (file ++ record_image kind payload).

(** The largest record [open] accepts. *)
Definition MAX_RECORD : Z := 16777216.

(** The next record of the file: none left, cut short, unacceptable, or there. *)
Inductive piece :=
| Done
| Torn
| Bad (why : string)
| Piece (kind : Z) (payload rest : bytes).

Definition read_record (rest : bytes) : piece :=
  match rest with
  | [] => Done
  | kind :: r =>
      if (length r <? 4)%nat then Torn
      else
        let length_bytes := take 4 r in
        let len := le_value length_bytes in
        if MAX_RECORD <? len then Bad "raft state record is too large"
        else
          let r := drop 4 r in
          if Z.of_nat (length r) <? len then Torn
          else
            let payload := take (Z.to_nat len) r in
            let r := drop (Z.to_nat len) r in
            if (length r <? 8)%nat then Torn
            else if negb (fnv1a (kind :: length_bytes ++ payload) =? le_value (take 8 r)) then
              Bad "raft state checksum mismatch"
            else Piece kind payload (drop 8 r)
  end.

(** ** Recovery *)
Record Recovered := mkRecovered {
  entries : list Entry;
  hard_state : HardState;
  snapshot : option RaftSnapshot
}.

Definition nothing_recovered : Recovered := mkRecovered [] no_hard_state None.

(** [iter().position(..)] then [truncate]. *)
Fixpoint cut_at (i : Z) (es : list Entry) : list Entry :=
  match es with
  | [] => []
  | e :: es => if i <=? index e then [] else e :: cut_at i es
  end.

Definition append_recovered_entry (es : list Entry) (e : Entry) : io_result (list Entry) :=
  if index e =? 0 then Err "raft log contains index zero"
  else
    let es := cut_at (index e) es in
    match last es with
    | Some previous =>
        if negb (index e =? wrap64 (index previous + 1)) then Err "raft log contains an index gap" else Ok (es ++ [e])
    | None => Ok (es ++ [e])
    end.

(** [entries.retain(|entry| entry.index > index)] *)
Definition retain_after (i : Z) (es : list Entry) : list Entry := filter (fun e => i < index e) es.

Definition snapshot_index (s : option RaftSnapshot) : Z := match s with Some s => s_index s | None => 0 end.

Section log.
Context `{!Message Entry, !Message HardState, !Message RaftSnapshot}.

Definition parse {A : Type} `{!Message A} (payload : bytes) : io_result A :=
  match parse_from_bytes payload with Some a => Ok a | None => Err "invalid protobuf message" end.

(** The [match] on the kind of a record. *)
Definition apply_record (st : Recovered) (kind : Z) (payload : bytes) : io_result Recovered :=
  if kind =? HARD_STATE_RECORD then
    let? h := parse payload in Ok (mkRecovered (entries st) h (snapshot st))
  else if kind =? ENTRY_RECORD then
    let? e := parse payload in
    let? es := append_recovered_entry (entries st) e in
    Ok (mkRecovered es (hard_state st) (snapshot st))
  else if kind =? SNAPSHOT_RECORD then
    let? s := parse payload in
    Ok (mkRecovered (retain_after (s_index s) (entries st)) (hard_state st) (Some s))
  else Err "unknown raft state record".

(** The loop of [open]: what was recovered and how much of the file is kept
    ([read_or_truncate_torn_tail]).  Every turn consumes a record. *)
Fixpoint read_records (fuel : nat) (rest : bytes) (pos : nat) (st : Recovered) : io_result (Recovered * nat) :=
  match fuel with
  | O => Ok (st, pos)
  | S fuel =>
      match read_record rest with
      | Done | Torn => Ok (st, pos)
      | Bad why => Err why
      | Piece kind payload rest' =>
          let? st := apply_record st kind payload in
          read_records fuel rest' (pos + (length rest - length rest')) st
      end
  end.

Definition durable_last (st : Recovered) : Z :=
  match last (entries st) with Some e => index e | None => snapshot_index (snapshot st) end.

(** [DurableRaftLog::open] on a file with these contents: the file it leaves and
    the state. *)
Definition open (contents : bytes) : io_result (bytes * Recovered) :=
  let file := if (length contents <? 8)%nat then STORAGE_HEADER else contents in
  if negb (bool_decide (take 8 file = STORAGE_HEADER)) then Err "raft state header/version mismatch"
  else
    let? r := read_records (length file) (drop 8 file) 8 nothing_recovered in
    let '(st, keep) := r in
    let st :=
      match snapshot st with
      | Some s => mkRecovered (retain_after (s_index s) (entries st)) (hard_state st) (snapshot st)
      | None => st
      end in
    if durable_last st <? commit (hard_state st) then Err "raft commit index is ahead of the durable log"
    else Ok (take keep file, st).

(** ** Writing *)
Record DurableRaftLog := mkDurable {
  file : bytes;
  synced : nat          (* how much of it a completed sync covers *)
}.

Fixpoint write_records (f : bytes) (recs : list (Z * bytes)) : io_result bytes :=
  match recs with
  | [] => Ok f
  | (kind, payload) :: recs => let? f := write_record f kind payload in write_records f recs
  end.

Definition entry_record (e : Entry) : Z * bytes := (ENTRY_RECORD, write_to_bytes e).
Definition hard_record (h : HardState) : Z * bytes := (HARD_STATE_RECORD, write_to_bytes h).
Definition snapshot_record (s : RaftSnapshot) : Z * bytes := (SNAPSHOT_RECORD, write_to_bytes s).

(** The records of [persist], in the order they are written. *)
Definition persist_records (es : list Entry) (hs : option HardState) : list (Z * bytes) :=
  (entry_record <$> es) ++ match hs with Some h => [hard_record h] | None => [] end.

Definition persist (d : DurableRaftLog) (es : list Entry) (hs : option HardState) : io_result DurableRaftLog :=
  let? f := write_records (file d) (persist_records es hs) in
  Ok (mkDurable f (if bool_decide (is_Some hs) || negb (bool_decide (es = [])) then length f else synced d)).

(** The records [rewrite] puts in the temporary file. *)
Definition rewrite_records (snapshot : option RaftSnapshot) (es : list Entry) (hs : HardState) : list (Z * bytes) :=
  match snapshot with Some s => [snapshot_record s] | None => [] end ++
  (entry_record <$> es) ++ (if bool_decide (hs = no_hard_state) then [] else [hard_record hs]).

(** The temporary file is written and synced, then takes the log's name. *)
Definition rewrite (d : DurableRaftLog) (snapshot : option RaftSnapshot) (es : list Entry) (hs : HardState)
    : io_result DurableRaftLog :=
  let? f := write_records STORAGE_HEADER (rewrite_records snapshot es hs) in Ok (mkDurable f (length f)).

Definition install_snapshot (d : DurableRaftLog) (snapshot : RaftSnapshot) (hs : HardState)
    : io_result DurableRaftLog := rewrite d (Some snapshot) [] hs.

Definition compact (d : DurableRaftLog) (snapshot : RaftSnapshot) (tail : list Entry) (hs : HardState)
    : io_result DurableRaftLog := rewrite d (Some snapshot) tail hs.

(** ** Operations and crashes *)
Inductive log_op :=
| Persist (es : list Entry) (hs : option HardState)
| Compact (s : RaftSnapshot) (tail : list Entry) (hs : HardState)
| Install (s : RaftSnapshot) (hs : HardState).

Definition run_op (d : DurableRaftLog) (op : log_op) : io_result DurableRaftLog :=
  match op with
  | Persist es hs => persist d es hs
  | Compact s tail hs => compact d s tail hs
  | Install s hs => install_snapshot d s hs
  end.

(** What a crash during an operation, or right after it, may leave. *)
Definition crash_during (d : DurableRaftLog) (op : log_op) (img : bytes) : Prop :=
  match op with
  | Persist es hs =>
      exists f, write_records (file d) (persist_records es hs) = Ok f /\ img `prefix_of` f /\ (synced d <= length img)%nat
  | _ => img = file d \/ exists d', run_op d op = Ok d' /\ img = file d'
  end.

End log.

(** ** Specification *)

(** Consecutive indices, from [i]. *)
Fixpoint contiguous (i : Z) (es : list Entry) : Prop :=
  match es with
  | [] => True
  | e :: es => index e = i /\ contiguous (i + 1) es
  end.

(** An entry replaces the suffix of the log from its index on. *)
Definition put (st : Recovered) (e : Entry) : Recovered :=
  mkRecovered (filter (fun x => index x < index e) (entries st) ++ [e]) (hard_state st) (snapshot st).

Definition set_hard (st : Recovered) (hs : option HardState) : Recovered :=
  mkRecovered (entries st) (default (hard_state st) hs) (snapshot st).

(** The state after an operation. *)
Definition after (st : Recovered) (op : log_op) : Recovered :=
  match op with
  | Persist es hs => set_hard (foldl put st es) hs
  | Compact s tail hs => mkRecovered tail hs (Some s)
  | Install s hs => mkRecovered [] hs (Some s)
  end.

(** The states an interrupted operation may leave: some of the entries, all of
    them, or all and the hard state; a rewrite happens or does not. *)
Definition interrupted (st : Recovered) (op : log_op) (st' : Recovered) : Prop :=
  st' = after st op \/
  match op with
  | Persist es _ => exists k, (k <= length es)%nat /\ st' = foldl put st (take k es)
  | _ => st' = st
  end.

(** The log of a member: its entries follow its snapshot, its commit index does
    not pass them. *)
Definition log_ok (st : Recovered) : Prop :=
  0 <= snapshot_index (snapshot st) /\
  contiguous (snapshot_index (snapshot st) + 1) (entries st) /\
  durable_last st < U64_MAX /\ commit (hard_state st) <= durable_last st.

Section spec.
Context `{!Message Entry, !Message HardState, !Message RaftSnapshot}.

Definition fits {A : Type} `{!Message A} (a : A) : Prop := Z.of_nat (length (write_to_bytes a)) <= MAX_RECORD.

(** What the [raft] crate asks its storage to do: entries that continue the log
    or replace an uncommitted suffix of it, a commit index within the log, a
    snapshot that the remaining entries follow; and no record above the 16 MiB that
    [open] accepts ([large_snapshot_blocks_open]). *)
Definition op_ok (st : Recovered) (op : log_op) : Prop :=
  match op with
  | Persist es hs =>
      Forall fits es /\
      (forall h, hs = Some h -> fits h /\ commit h <= durable_last (foldl put st es)) /\
      match es with
      | [] => True
      | e :: _ => Z.max (snapshot_index (snapshot st)) (commit (hard_state st)) < index e <= durable_last st + 1 /\
                  contiguous (index e) es /\ index e + Z.of_nat (length es) <= U64_MAX
      end
  | Compact s tail hs =>
      log_ok (after st op) /\ fits s /\ fits hs /\ Forall fits tail
  | Install s hs => log_ok (after st op) /\ fits s /\ fits hs
  end.

End spec.

(** ** Contiguous logs *)
Lemma contiguous_app i l1 l2 : contiguous i (l1 ++ l2) <-> contiguous i l1 /\ contiguous (i + Z.of_nat (length l1)) l2.
Proof.
  revert i. induction l1 as [|e l1 IH]; intros i; cbn [app contiguous length].
  - replace (i + Z.of_nat 0) with i by lia. tauto.
  - rewrite IH. replace (i + 1 + Z.of_nat (length l1)) with (i + Z.of_nat (S (length l1))) by lia. tauto.
Qed.

Lemma contiguous_take i es k : contiguous i es -> contiguous i (take k es).
Proof. intros H. rewrite <-(take_drop k es) in H. by apply contiguous_app in H as [? _]. Qed.

Lemma contiguous_last i es e : contiguous i es -> last es = Some e -> index e = i + Z.of_nat (length es) - 1.
Proof.
  intros H Hl. apply last_Some in Hl as [l ->]. apply contiguous_app in H as [_ [H _]]. rewrite length_app. cbn. lia.
Qed.

Lemma contiguous_ge i es e : contiguous i es -> e ∈ es -> i <= index e.
Proof.
  revert i. induction es as [|a es IH]; intros i H He; [by apply not_elem_of_nil in He|].
  destruct H as [Ha H]. apply elem_of_cons in He as [->|He]; [lia|]. specialize (IH _ H He). lia.
Qed.

Lemma contiguous_lookup i es k e : contiguous i es -> es !! k = Some e -> index e = i + Z.of_nat k.
Proof.
  revert i k. induction es as [|a es IH]; intros i k H E; [done|]. destruct H as [Ha H]. destruct k as [|k].
  - injection E as <-. lia.
  - specialize (IH _ k H E). lia.
Qed.

Lemma contiguous_max i es e : contiguous i es -> e ∈ es -> index e <= i + Z.of_nat (length es) - 1.
Proof.
  intros H He. apply list_elem_of_lookup in He as [k Hk]. pose proof (contiguous_lookup _ _ _ _ H Hk).
  apply lookup_lt_Some in Hk. lia.
Qed.

Lemma filter_below i j es : contiguous i es ->
  filter (fun x => index x < j) es = take (Z.to_nat (j - i)) es /\ cut_at j es = take (Z.to_nat (j - i)) es.
Proof.
  revert i. induction es as [|a es IH]; intros i H; [by rewrite take_nil|]. destruct H as [Ha H].
  destruct (IH _ H) as [IH1 IH2]. rewrite filter_cons. cbn [cut_at]. rewrite Ha. destruct (decide (i < j)).
  - rewrite IH1, (proj2 (Z.leb_gt j i)), IH2 by lia. by replace (Z.to_nat (j - i)) with (S (Z.to_nat (j - (i + 1)))) by lia.
  - rewrite IH1, (proj2 (Z.leb_le j i)) by lia. replace (Z.to_nat (j - i)) with O by lia.
    by replace (Z.to_nat (j - (i + 1))) with O by lia.
Qed.

Lemma contiguous_drop i es k : contiguous i es -> (k <= length es)%nat -> contiguous (i + Z.of_nat k) (drop k es).
Proof.
  intros H Hk. rewrite <-(take_drop k es) in H. apply contiguous_app in H as [_ H].
  by rewrite length_take_le in H.
Qed.

Lemma filter_above i j es : contiguous i es -> filter (fun x => j <= index x) es = drop (Z.to_nat (j - i)) es.
Proof.
  revert i. induction es as [|a es IH]; intros i H; [by rewrite drop_nil|]. destruct H as [Ha H].
  rewrite filter_cons, (IH _ H), Ha. destruct (decide (j <= i)).
  - replace (Z.to_nat (j - (i + 1))) with O by lia. by replace (Z.to_nat (j - i)) with O by lia.
  - by replace (Z.to_nat (j - i)) with (S (Z.to_nat (j - (i + 1)))) by lia.
Qed.

Lemma retain_above j es : retain_after j es = filter (fun x => j + 1 <= index x) es.
Proof. apply filter_ext_in. intros x _. lia. Qed.

Lemma retain_all i j es : contiguous i es -> j < i -> retain_after j es = es.
Proof.
  intros H Hj. unfold retain_after. apply filter_all. intros e He. pose proof (contiguous_ge _ _ _ H He). lia.
Qed.

Definition follows (st : Recovered) : Prop :=
  0 <= snapshot_index (snapshot st) /\ contiguous (snapshot_index (snapshot st) + 1) (entries st).

Lemma follows_last st : follows st -> snapshot_index (snapshot st) <= durable_last st.
Proof.
  intros [H0 Hc]. unfold durable_last. destruct (last (entries st)) as [e|] eqn:E; [|lia].
  pose proof (contiguous_ge _ _ e Hc (last_Some_elem_of _ _ E)). lia.
Qed.

(** Appending one entry that continues or overlaps the log. *)
Lemma put_follows st e : follows st -> snapshot_index (snapshot st) < index e <= durable_last st + 1 -> index e <= U64_MAX ->
  append_recovered_entry (entries st) e = Ok (entries (put st e)) /\ follows (put st e) /\
  durable_last (put st e) = index e.
Proof.
  intros [H0 Hc] He Hu. set (i := snapshot_index (snapshot st) + 1) in *.
  destruct (filter_below i (index e) (entries st) Hc) as [Hf Hcut].
  unfold append_recovered_entry, put, follows, durable_last in *. cbn [entries snapshot]. rewrite Hcut, Hf, last_snoc.
  fold i. rewrite (proj2 (Z.eqb_neq (index e) 0)) by lia.
  assert (Hlen : (Z.to_nat (index e - i) <= length (entries st))%nat).
  { destruct (last (entries st)) as [z|] eqn:Ez; [pose proof (contiguous_last i _ _ Hc Ez); lia|]. lia. }
  split_and!; [| lia | | done].
  - destruct (last (take _ _)) as [q|] eqn:El; [|done].
    pose proof (contiguous_last i _ _ (contiguous_take i _ _ Hc) El) as Hq. rewrite length_take in Hq.
    assert (0 < Z.to_nat (index e - i))%nat by (destruct (Z.to_nat (index e - i)); [done|lia]).
    rewrite wrap64_small by (unfold is_u64; lia). rewrite (proj2 (Z.eqb_eq (index e) _)) by lia. done.
  - apply contiguous_app. split; [by apply contiguous_take|]. cbn. split; [|done]. rewrite length_take. lia.
Qed.

(** Entries put in order, one after the other, onto a snapshot. *)
Lemma put_from s h pre es : contiguous (snapshot_index s + 1) (pre ++ es) ->
  foldl put (mkRecovered pre h s) es = mkRecovered (pre ++ es) h s.
Proof.
  revert pre. induction es as [|e es IH]; intros pre Hc; [by rewrite app_nil_r|]. cbn [foldl].
  apply contiguous_app in Hc as Hc'. destruct Hc' as [Hpre [He _]].
  unfold put at 2. cbn [entries hard_state snapshot]. destruct (filter_below _ (index e) _ Hpre) as [-> _].
  rewrite take_ge by lia. rewrite (cons_middle e pre es), (assoc_L (++)). apply IH.
  by rewrite <-(assoc_L (++)).
Qed.

(** ** Records in a file *)
Definition small (r : Z * bytes) : Prop := Z.of_nat (length r.2) <= MAX_RECORD.

Definition image (r : Z * bytes) : bytes := record_image r.1 r.2.

Definition log_file (recs : list (Z * bytes)) : bytes := STORAGE_HEADER ++ concat (image <$> recs).

Lemma log_file_app r1 r2 : log_file (r1 ++ r2) = log_file r1 ++ concat (image <$> r2).
Proof. unfold log_file. by rewrite fmap_app, concat_app, (assoc_L (++)). Qed.

Lemma length_log_record kind payload : length (record_image kind payload) = (13 + length payload)%nat.
Proof. unfold record_image, protected. cbn [app length]. rewrite !length_app, !length_le_bytes. lia. Qed.

Lemma small_u32 r : small r -> is_u32 (Z.of_nat (length r.2)).
Proof. unfold small, MAX_RECORD, is_u32. lia. Qed.

Lemma read_log_record r rest : small r -> read_record (image r ++ rest) = Piece r.1 r.2 rest.
Proof.
  intros Hs. destruct r as [kind payload]. unfold image, record_image, protected. cbn [fst snd app read_record].
  rewrite <-!(assoc_L (++)). rewrite (proj2 (Nat.ltb_ge _ _)) by (rewrite length_app, length_le_bytes; lia).
  rewrite take_app_length', drop_app_length' by (by rewrite length_le_bytes).
  rewrite le_value_u32 by (apply (small_u32 _ Hs)). unfold small in Hs. cbn [snd] in Hs.
  rewrite (proj2 (Z.ltb_ge _ _)) by done. rewrite (proj2 (Z.ltb_ge _ _)) by (rewrite length_app; lia).
  rewrite Nat2Z.id, take_app_length, drop_app_length.
  rewrite (proj2 (Nat.ltb_ge _ _)) by (rewrite length_app, length_le_bytes; lia).
  rewrite take_app_length', drop_app_length' by (by rewrite length_le_bytes).
  rewrite le_value_u64 by apply fnv1a_u64. by rewrite Z.eqb_refl.
Qed.

Lemma read_torn_record r t : small r -> t `prefix_of` image r -> t <> [] -> (length t < length (image r))%nat ->
  read_record t = Torn.
Proof.
  intros Hs [z Hz] Hne Hl. destruct r as [kind payload]. unfold image in *. cbn [fst snd] in *.
  rewrite length_log_record in Hl. destruct t as [|b t]; [done|]. cbn [length] in Hl.
  unfold record_image, protected in Hz. set (body := le_bytes 4 _ ++ payload) in Hz. set (sum := le_bytes 8 _) in Hz.
  assert (kind = b) as -> by exact (f_equal (hd 0) Hz).
  assert (body ++ sum = t ++ z) as Hz' by exact (f_equal tail Hz). clear Hz. rename Hz' into Hz.
  assert (length sum = 8%nat) by apply length_le_bytes. unfold body in Hz. rewrite <-(assoc_L (++)) in Hz.
  cbn [read_record]. destruct (_ <? 4)%nat eqn:E4; [done|]. apply Nat.ltb_ge in E4.
  assert (Ht : t = le_bytes 4 (Z.of_nat (length payload)) ++ drop 4 t).
  { rewrite <-(take_drop 4 t) at 1. f_equal. apply (f_equal (take 4)) in Hz.
    rewrite take_app_length', take_app_le in Hz by (done || by rewrite length_le_bytes). done. }
  rewrite Ht in Hz |- *. rewrite <-(assoc_L (++)) in Hz. apply (inj (app _)) in Hz.
  rewrite take_app_length', drop_app_length' by (by rewrite length_le_bytes).
  rewrite le_value_u32 by (apply (small_u32 _ Hs)). unfold small in Hs. cbn [snd] in Hs.
  rewrite (proj2 (Z.ltb_ge _ _)) by done. destruct (_ <? _) eqn:Ep; [done|]. apply Z.ltb_ge in Ep.
  rewrite Nat2Z.id. rewrite (proj2 (Nat.ltb_lt _ _)); [done|]. rewrite !length_drop. lia.
Qed.

Lemma write_records_ok f recs : Forall small recs -> write_records f recs = Ok (f ++ concat (image <$> recs)).
Proof.
  intros H. revert f. induction H as [|[kind payload] recs Hs H IH]; intros f; cbn [write_records fmap list_fmap concat].
  - by rewrite app_nil_r.
  - apply small_u32 in Hs. unfold is_u32 in Hs. cbn [snd] in Hs. unfold write_record.
    rewrite (proj2 (Z.ltb_ge _ _)) by lia. cbn [try_bind]. by rewrite IH, (assoc_L (++)).
Qed.

(** What a crash leaves of a file that is being appended to. *)
Lemma torn_file recs new img : Forall small new -> img `prefix_of` log_file (recs ++ new) ->
  (length (log_file recs) <= length img)%nat ->
  exists k torn, img = log_file (recs ++ take k new) ++ torn /\ (k <= length new)%nat /\
    (read_record torn = Done \/ read_record torn = Torn).
Proof.
  intros Hs Hp Hl. rewrite log_file_app in Hp. destruct Hp as [z Hz].
  assert (E : img = log_file recs ++ drop (length (log_file recs)) img).
  { rewrite <-(take_drop (length (log_file recs)) img) at 1. f_equal. apply (f_equal (take (length (log_file recs)))) in Hz.
    rewrite take_app_length, take_app_le in Hz by lia. done. }
  rewrite E in Hz. rewrite <-(assoc_L (++)) in Hz. apply (inj (app (log_file recs))) in Hz.
  destruct (prefix_concat (image <$> new) (drop (length (log_file recs)) img)) as (k & torn & E' & Hk & Ht);
    [by exists z|]. rewrite length_fmap in Hk. exists k, torn.
  split_and!; [by rewrite E, E', log_file_app, fmap_take, (assoc_L (++)) | done |].
  destruct Ht as [-> | (f & Hf & Hpf & Hne & Hlt)]; [by left | right].
  rewrite list_lookup_fmap in Hf. destruct (new !! k) as [r|] eqn:Er; [|done]. injection Hf as <-.
  eapply read_torn_record; [|done..]. by apply (Forall_lookup_1 _ _ _ _ Hs Er).
Qed.

(** ** Durability *)
Section durable.
Context `{!Message Entry, !Message HardState, !Message RaftSnapshot}.
Context `{!MessageLaws Entry, !MessageLaws HardState, !MessageLaws RaftSnapshot}.

Fixpoint apply_records (st : Recovered) (recs : list (Z * bytes)) : io_result Recovered :=
  match recs with
  | [] => Ok st
  | (kind, payload) :: recs => let? st := apply_record st kind payload in apply_records st recs
  end.

Lemma apply_records_app st r1 r2 :
  apply_records st (r1 ++ r2) = let? st := apply_records st r1 in apply_records st r2.
Proof.
  revert st. induction r1 as [|[kind payload] r1 IH]; intros st; [done|]. cbn [app apply_records].
  destruct (apply_record st kind payload); [apply IH|done].
Qed.

Lemma read_records_ok recs torn fuel pos st st' : Forall small recs -> apply_records st recs = Ok st' ->
  read_record torn = Done \/ read_record torn = Torn -> (length recs <= fuel)%nat ->
  read_records fuel (concat (image <$> recs) ++ torn) pos st = Ok (st', (pos + length (concat (image <$> recs)))%nat).
Proof.
  intros Hs. revert fuel pos st. induction Hs as [|[kind payload] recs Hr Hs IH]; intros fuel pos st Ha Ht Hf.
  - cbn in Ha. injection Ha as ->. cbn [fmap list_fmap concat app]. replace (pos + length [])%nat with pos by (cbn; lia).
    destruct fuel; [done|]. cbn [read_records]. by destruct Ht as [-> | ->].
  - destruct fuel as [|fuel]; cbn [length] in Hf; [lia|]. cbn [fmap list_fmap concat read_records].
    rewrite <-(assoc_L (++)), read_log_record by done. cbn [apply_records fst snd] in *.
    destruct (apply_record st kind payload) as [st1|]; [|done]. cbn [try_bind] in *.
    rewrite (IH fuel) by (done || lia). do 2 f_equal. rewrite !length_app. lia.
Qed.

Lemma length_images recs : (length recs <= length (concat (image <$> recs)))%nat.
Proof.
  induction recs as [|r recs IH]; [done|]. cbn [fmap list_fmap concat length]. rewrite length_app. unfold image at 1.
  rewrite length_log_record. lia.
Qed.

(** Whole records and a torn tail are read as the records, and the tail is cut. *)
Lemma open_records recs torn st : Forall small recs -> apply_records nothing_recovered recs = Ok st -> log_ok st ->
  read_record torn = Done \/ read_record torn = Torn -> open (log_file recs ++ torn) = Ok (log_file recs, st).
Proof.
  intros Hs Ha (H0 & Hc & Hu & Hm) Ht. unfold open.
  rewrite (proj2 (Nat.ltb_ge _ _)) by (unfold log_file; rewrite !length_app; cbn [length STORAGE_HEADER]; lia).
  unfold log_file. rewrite <-(assoc_L (++)), take_app_length', drop_app_length', bool_decide_true by done. cbn [negb].
  rewrite (read_records_ok recs torn _ 8 _ st Hs Ha Ht)
    by (rewrite !length_app; pose proof (length_images recs); lia).
  cbn [try_bind].
  replace (match snapshot st with Some s => _ | None => st end) with st.
  - rewrite (proj2 (Z.ltb_ge _ _)) by done. do 2 f_equal. rewrite (assoc_L (++)), take_app_le, take_ge; [done|..];
      rewrite length_app; cbn [length STORAGE_HEADER]; lia.
  - destruct st as [es hs [s|]]; [|done]. cbn [snapshot snapshot_index entries hard_state] in *. by rewrite (retain_all (s_index s + 1)) by (done || lia).
Qed.

(** A log on disk, all of it synced. *)
Definition holds (d : DurableRaftLog) (st : Recovered) : Prop :=
  exists recs, file d = log_file recs /\ synced d = length (file d) /\ Forall small recs /\
    apply_records nothing_recovered recs = Ok st /\ log_ok st.

Lemma apply_hard st h : apply_record st HARD_STATE_RECORD (write_to_bytes h) = Ok (set_hard st (Some h)).
Proof. unfold apply_record, parse. cbn [Z.eqb HARD_STATE_RECORD Pos.eqb]. by rewrite parse_write. Qed.

Lemma apply_entry st e es : append_recovered_entry (entries st) e = Ok es ->
  apply_record st ENTRY_RECORD (write_to_bytes e) = Ok (mkRecovered es (hard_state st) (snapshot st)).
Proof. intros H. unfold apply_record, parse. cbn [Z.eqb ENTRY_RECORD HARD_STATE_RECORD Pos.eqb]. rewrite parse_write. cbn [try_bind]. by rewrite H. Qed.

(** Contiguous entries that continue or overlap the log. *)
Lemma apply_entries st es i : follows st -> contiguous i es -> snapshot_index (snapshot st) < i <= durable_last st + 1 ->
  i + Z.of_nat (length es) <= U64_MAX + 1 ->
  apply_records st (entry_record <$> es) = Ok (foldl put st es) /\ follows (foldl put st es) /\
  hard_state (foldl put st es) = hard_state st /\ snapshot (foldl put st es) = snapshot st /\
  (es <> [] -> durable_last (foldl put st es) = i + Z.of_nat (length es) - 1).
Proof.
  revert st i. induction es as [|e es IH]; intros st i Hf Hc Hi Hu; [done|]. destruct Hc as [He Hc].
  cbn [length] in Hu. destruct (put_follows st e Hf) as (Ha & Hf' & Hl); [lia..|].
  cbn [fmap list_fmap apply_records foldl entry_record].
  rewrite (apply_entry _ _ _ Ha). cbn [try_bind]. change (mkRecovered _ _ _) with (put st e).
  destruct (IH (put st e) (i + 1) Hf' Hc) as (E1 & E2 & E3 & E4 & E5); [cbn [snapshot put]; lia..|].
  split_and!; [done..|]. intros _. destruct es as [|e' es]; [cbn; lia|].
  rewrite E5 by done. cbn [length]. lia.
Qed.

Lemma log_ok_intro st : follows st -> durable_last st < U64_MAX -> commit (hard_state st) <= durable_last st -> log_ok st.
Proof. intros [? ?] ? ?. by split_and!. Qed.

(** A persist that stops after some of its entries. *)
Lemma some_entries st es hs k : log_ok st -> op_ok st (Persist es hs) -> (k <= length es)%nat ->
  apply_records st (entry_record <$> take k es) = Ok (foldl put st (take k es)) /\ log_ok (foldl put st (take k es)).
Proof.
  intros (H0 & Hex & Hu & Hm) (_ & _ & Hes) Hk.
  destruct es as [|e es]; [rewrite take_nil; split; [done|by apply log_ok_intro]|].
  destruct k as [|k]; [split; [done|by apply log_ok_intro]|]. destruct Hes as (Hi & Hc & Hb).
  destruct (apply_entries st (take (S k) (e :: es)) (index e) (conj H0 Hex) (contiguous_take _ _ _ Hc))
    as (E1 & E2 & E3 & E4 & E5); [lia| rewrite length_take; lia |].
  split; [done|]. specialize (E5 ltac:(done)). rewrite length_take in E5. cbn [length] in *.
  apply log_ok_intro; [done | lia | rewrite E3; lia].
Qed.

(** Any number of the records of a persist. *)
Lemma some_records st es hs k : log_ok st -> op_ok st (Persist es hs) -> (k <= length (persist_records es hs))%nat ->
  exists st', apply_records st (take k (persist_records es hs)) = Ok st' /\ log_ok st' /\
    interrupted st (Persist es hs) st' /\ (k = length (persist_records es hs) -> st' = after st (Persist es hs)).
Proof.
  intros Hst Hop Hk. unfold persist_records in *. rewrite length_app, length_fmap in Hk |- *.
  destruct (decide (k <= length es)%nat) as [Hke|Hke].
  - destruct (some_entries st es hs k Hst Hop Hke) as [E1 E2]. exists (foldl put st (take k es)).
    rewrite take_app_le, <- fmap_take by (rewrite length_fmap; lia). split_and!; [done|done|right; by exists k|].
    intros ->. destruct hs as [h|]; cbn [length] in Hke; [lia|]. rewrite Nat.add_0_r, take_ge by lia.
    unfold after, set_hard. by destruct (foldl put st es).
  - destruct (some_entries st es hs (length es) Hst Hop) as [E1 E2]; [done|]. rewrite take_ge in E1, E2 by done.
    destruct hs as [h|]; cbn [length] in Hk; [|lia]. rewrite take_ge by (rewrite length_app, length_fmap; cbn; lia).
    exists (after st (Persist es (Some h))). split_and!; [|..|by left|done].
    + rewrite apply_records_app, E1. cbn [try_bind apply_records hard_record]. by rewrite apply_hard.
    + destruct E2 as (F1 & F2 & F3 & _). destruct Hop as (_ & Hh & _). destruct (Hh h eq_refl) as [_ Hc].
      by split_and!.
Qed.

Lemma records_small st es hs : op_ok st (Persist es hs) -> Forall small (persist_records es hs).
Proof.
  intros (Hf & Hh & _). unfold persist_records. apply Forall_app. split; [by apply Forall_fmap|].
  destruct hs as [h|]; [|apply Forall_nil_2]. apply Forall_singleton. by destruct (Hh h eq_refl).
Qed.

(** A rewritten file holds the snapshot, the tail and the hard state. *)
Lemma rewrite_ok d s tail hs : log_ok (mkRecovered tail hs (Some s)) ->
  fits s -> fits hs -> Forall fits tail ->
  exists d', rewrite d (Some s) tail hs = Ok d' /\ holds d' (mkRecovered tail hs (Some s)).
Proof.
  intros Hok Hs Hh Ht. set (recs := rewrite_records (Some s) tail hs).
  assert (Hsm : Forall small recs).
  { unfold recs, rewrite_records. repeat apply Forall_app_2; [by apply Forall_singleton | by apply Forall_fmap |].
    case_bool_decide; [apply Forall_nil_2 | by apply Forall_singleton]. }
  unfold rewrite. fold recs. rewrite (write_records_ok _ _ Hsm). cbn [try_bind]. eexists. split; [done|].
  exists recs. split_and!; [done..| |done]. unfold recs, rewrite_records. cbn [app apply_records snapshot_record].
  unfold apply_record at 1, parse. cbn [Z.eqb ENTRY_RECORD HARD_STATE_RECORD SNAPSHOT_RECORD Pos.eqb].
  rewrite parse_write. cbn [try_bind nothing_recovered entries hard_state retain_after filter list_filter].
  set (st1 := mkRecovered [] no_hard_state (Some s)).
  destruct Hok as (H0 & Hc & Hu & Hm). cbn [snapshot snapshot_index hard_state entries] in H0, Hc, Hm. unfold durable_last in Hu, Hm.
  cbn [entries snapshot snapshot_index] in Hu, Hm.
  assert (Hlen : s_index s + 1 + Z.of_nat (length tail) <= U64_MAX).
  { destruct (last tail) as [e|] eqn:E; [pose proof (contiguous_last _ _ _ Hc E); lia|].
    apply last_None in E as ->. cbn. lia. }
  assert (Hf1 : follows st1) by by split.
  destruct (apply_entries st1 tail (s_index s + 1) Hf1 Hc) as (E1 & _); [cbn; lia | lia |].
  assert (Hput : foldl put st1 tail = mkRecovered tail no_hard_state (Some s))
    by by apply (put_from (Some s) no_hard_state []).
  rewrite apply_records_app, E1, Hput. cbn [try_bind]. case_bool_decide as Ehs; [by rewrite Ehs|].
  cbn [apply_records hard_record]. by rewrite apply_hard.
Qed.

Lemma holds_open d st : holds d st -> open (file d) = Ok (file d, st).
Proof.
  intros (recs & Hf & _ & Hs & Ha & Hok). rewrite Hf. rewrite <-(app_nil_r (log_file recs)) at 1.
  by apply open_records; [..|left].
Qed.

Lemma run_holds d st op : holds d st -> op_ok st op -> exists d', run_op d op = Ok d' /\ holds d' (after st op).
Proof.
  intros (recs & Hf & Hsy & Hs & Ha & Hok) Hop. destruct op as [es hs|s tail hs|s hs]; cbn [run_op].
  - pose proof (records_small st es hs Hop) as Hsm. unfold persist. rewrite (write_records_ok _ _ Hsm).
    cbn [try_bind]. eexists. split; [done|]. exists (recs ++ persist_records es hs).
    destruct (some_records st es hs (length (persist_records es hs)) Hok Hop) as (st' & E & Hok' & _ & Hst'); [done|].
    rewrite (Hst' eq_refl) in *. rewrite take_ge in E by done. cbn [file synced].
    split_and!; [by rewrite Hf, log_file_app| |by apply Forall_app|by rewrite apply_records_app, Ha|done].
    case_bool_decide as Eh; [done|]. case_bool_decide as Ee; [|done]. cbn [orb negb]. subst es.
    destruct hs as [h|]; [by contradict Eh|]. cbn. by rewrite app_nil_r.
  - destruct Hop as (H1 & H2 & H3 & H4). by apply rewrite_ok.
  - destruct Hop as (H1 & H2 & H3). by apply rewrite_ok; [..|apply Forall_nil_2].
Qed.

Lemma crash_holds d st op img : holds d st -> op_ok st op -> crash_during d op img ->
  exists recs st', open img = Ok (log_file recs, st') /\ interrupted st op st' /\
    holds (mkDurable (log_file recs) (length (log_file recs))) st'.
Proof.
  intros Hh Hop Hc. pose proof Hh as (recs & Hf & Hsy & Hs & Ha & Hok).
  assert (Hrw : img = file d \/ (exists d', run_op d op = Ok d' /\ img = file d') -> interrupted st op st ->
    exists recs st', open img = Ok (log_file recs, st') /\ interrupted st op st' /\
      holds (mkDurable (log_file recs) (length (log_file recs))) st').
  { intros Hcase Hint. destruct Hcase as [-> | (d' & E & ->)].
    - exists recs, st. rewrite (holds_open d st Hh), Hf. split_and!; [done|done|]. exists recs. by split_and!.
    - destruct (run_holds d st op Hh Hop) as (d'' & E' & Hd). assert (d'' = d') as -> by congruence.
      pose proof (holds_open _ _ Hd) as Ho. destruct Hd as (recs' & Hf' & _ & Hs' & Ha' & Hok').
      exists recs', (after st op). rewrite Ho, Hf'. split_and!; [done|by left|]. exists recs'. by split_and!. }
  destruct op as [es hs|s tail hs|s hs]; cbn [crash_during] in Hc; [|apply Hrw; [done|by right]..]. clear Hrw.
  destruct Hc as (f & Ef & Hp & Hl). pose proof (records_small st es hs Hop) as Hsm.
  rewrite (write_records_ok _ _ Hsm) in Ef. injection Ef as <-. rewrite Hf, <- log_file_app in Hp. rewrite Hsy, Hf in Hl.
  destruct (torn_file recs _ img Hsm Hp Hl) as (k & torn & -> & Hk & Ht).
  destruct (some_records st es hs k Hok Hop Hk) as (st' & E & Hok' & Hint & _).
  assert (Hall : Forall small (recs ++ take k (persist_records es hs))) by (apply Forall_app; split; [done|by apply Forall_take]).
  assert (Happ : apply_records nothing_recovered (recs ++ take k (persist_records es hs)) = Ok st')
    by by rewrite apply_records_app, Ha.
  exists (recs ++ take k (persist_records es hs)), st'. split_and!; [by apply open_records|done|].
  eexists. by split_and!.
Qed.

(** The life of a member's log: it is created, written by operations, and
    reopened after crashes. *)
Inductive life : DurableRaftLog -> Recovered -> Prop :=
| life_new f st : open [] = Ok (f, st) -> life (mkDurable f (length f)) st
| life_op d st op d' : life d st -> op_ok st op -> run_op d op = Ok d' -> life d' (after st op)
| life_crash d st op img f st' : life d st -> op_ok st op -> crash_during d op img -> open img = Ok (f, st') ->
    life (mkDurable f (length f)) st'.

Lemma life_holds d st : life d st -> holds d st.
Proof.
  induction 1 as [f st Ho|d st op d' _ IH Hop E|d st op img f st' _ IH Hop Hc Ho].
  - injection Ho as <- <-. exists []. split_and!; [done|done|apply Forall_nil_2|done|].
    by apply log_ok_intro; [split|cbn; lia|cbn; lia].
  - destruct (run_holds d st op IH Hop) as (d'' & E' & Hd). by assert (d'' = d') as <- by congruence.
  - destruct (crash_holds d st op img IH Hop Hc) as (recs & st'' & Ho' & _ & Hd).
    rewrite Ho' in Ho. by injection Ho as <- <-.
Qed.

End durable.

(** C11: A member never forgets what it made durable.  Through any history of
    persists, compactions, snapshot installations, crashes and restarts, in which
    the [raft] crate keeps its contract with its storage ([op_ok]): reopening the
    file recovers exactly the state of the completed operations; each operation
    succeeds and takes the state to the one it describes; and a crash in the
    middle of an operation is always recovered from, into a state in which the
    operation took effect, did not, or (a persist) its entries arrived in order up
    to some point, the hard state never before the entries it commits.  Besides the
    contract, [op_ok] asks that no record exceeds the 16 MiB recovery accepts (a
    larger one is written and blocks the next start,
    [large_snapshot_blocks_open]); and the file system is one whose renames are
    durable without a sync of the directory, which the code does not do
    ([rename_needs_directory_sync]). *)
Theorem raft_log_durable `{!Message Entry, !Message HardState, !Message RaftSnapshot}
    `{!MessageLaws Entry, !MessageLaws HardState, !MessageLaws RaftSnapshot} (d : DurableRaftLog) (st : Recovered)
    (Hlife : life d st) :
  open (file d) = Ok (file d, st) /\ synced d = length (file d) /\
  forall op, op_ok st op ->
    (exists d', run_op d op = Ok d' /\ open (file d') = Ok (file d', after st op)) /\
    (forall img, crash_during d op img -> exists f st', open img = Ok (f, st') /\ interrupted st op st').
Proof.
  apply life_holds in Hlife. split; [by apply holds_open|]. split; [by destruct Hlife as (? & ? & ? & _)|].
  intros op Hop. split.
  - destruct (run_holds d st op Hlife Hop) as (d' & E & Hd). exists d'. split; [done|by apply holds_open].
  - intros img Hc. destruct (crash_holds d st op img Hlife Hop Hc) as (recs & st' & Ho & Hi & _). by eexists _, st'.
Qed.

(** A byte representation that satisfies the laws: the bits of [encode]. *)
Fixpoint bits (p : positive) : bytes :=
  match p with xH => [] | xO p => 0 :: bits p | xI p => 1 :: bits p end.

Fixpoint unbits (bs : bytes) : positive :=
  match bs with [] => xH | b :: bs => if b =? 0 then xO (unbits bs) else xI (unbits bs) end.

Lemma unbits_bits p : unbits (bits p) = p.
Proof. induction p as [p IH|p IH|]; cbn; by rewrite ?IH. Qed.

#[local] Instance bits_message (A : Type) `{Countable A} : Message A :=
  {| write_to_bytes a := bits (encode a); parse_from_bytes bs := decode (unbits bs) |}.

#[local] Instance bits_laws (A : Type) `{Countable A} : MessageLaws A.
Proof. intros a. cbn. by rewrite unbits_bits, decode_encode. Qed.

#[export] Instance EntryType_countable : Countable EntryType.
Proof.
  refine (inj_countable' (fun t => match t with EntryNormal => 0 | EntryConfChange => 1 | EntryConfChangeV2 => 2 end)
    (fun n => if n =? 0 then EntryNormal else if n =? 1 then EntryConfChange else EntryConfChangeV2) _).
  by intros [].
Defined.

#[export] Instance Entry_countable : Countable Entry.
Proof.
  refine (inj_countable' (fun e => (entry_type e, term e, index e, data e))
    (fun t => let '(a, b, c, d) := t in mkEntry a b c d) _). by intros [].
Defined.

#[export] Instance HardState_countable : Countable HardState.
Proof.
  refine (inj_countable' (fun h => (hs_term h, vote h, commit h)) (fun t => let '(a, b, c) := t in mkHard a b c) _).
  by intros [].
Defined.

#[export] Instance RaftSnapshot_countable : Countable RaftSnapshot.
Proof.
  refine (inj_countable' (fun s => (s_index s, s_term s, conf_voters s, s_data s))
    (fun t => let '(a, b, c, d) := t in mkRaftSnap a b c d) _). by intros [].
Defined.

Lemma raft_log_durable_witness :
  let op := Persist [mkEntry EntryNormal 1 1 [7; 8]] (Some (mkHard 1 2 1)) in
  exists d', run_op (mkDurable STORAGE_HEADER 8) op = Ok d' /\
    open (file d') = Ok (file d', mkRecovered [mkEntry EntryNormal 1 1 [7; 8]] (mkHard 1 2 1) None).
Proof.
  cbv zeta.
  destruct (raft_log_durable (mkDurable STORAGE_HEADER 8) nothing_recovered) as (_ & _ & Hop).
  - exact (life_new STORAGE_HEADER nothing_recovered eq_refl).
  - destruct (Hop (Persist [mkEntry EntryNormal 1 1 [7; 8]] (Some (mkHard 1 2 1)))) as [(d' & E & Ho) _].
    + split; [apply Forall_singleton; vm_compute; discriminate|]. split.
      * intros h Hh. injection Hh as <-. split; vm_compute; discriminate.
      * cbn. lia.
    + exists d'. split; [exact E | exact Ho].
Defined.

(** ** Limits *)

(** The writer accepts records up to 4 GiB, recovery refuses any above 16 MiB: a
    compaction with a larger snapshot succeeds and the member cannot start again. *)
Theorem large_snapshot_blocks_open `{!Message Entry, !Message HardState, !Message RaftSnapshot}
    (d : DurableRaftLog) (s : RaftSnapshot) (tail : list Entry) (hs : HardState)
    (Hlarge : MAX_RECORD < Z.of_nat (length (write_to_bytes s)) <= U32_MAX)
    (Hrest : Forall fits tail) (Hhs : fits hs) :
  exists d', compact d s tail hs = Ok d' /\ open (file d') = Err "raft state record is too large".
Proof.
  set (rest := (entry_record <$> tail) ++ (if bool_decide (hs = no_hard_state) then [] else [hard_record hs])).
  assert (Hsm : Forall small rest).
  { apply Forall_app_2; [by apply Forall_fmap|]. case_bool_decide; [apply Forall_nil_2 | by apply Forall_singleton]. }
  unfold compact, rewrite, rewrite_records. cbn [app write_records snapshot_record]. fold rest. unfold write_record.
  rewrite (proj2 (Z.ltb_ge _ _)) by lia. cbn [try_bind]. rewrite (write_records_ok _ _ Hsm). cbn [try_bind].
  eexists. split; [done|]. cbn [file]. unfold open. set (more := concat (image <$> rest)).
  rewrite (proj2 (Nat.ltb_ge _ _)) by (rewrite !length_app; cbn [length STORAGE_HEADER]; lia).
  rewrite <-!(assoc_L (++)), take_app_length', drop_app_length', bool_decide_true by done. cbn [negb].
  set (f := length _). destruct f as [|n] eqn:Ef; [unfold f in Ef; rewrite length_app in Ef; cbn in Ef; lia|].
  cbn [read_records]. unfold record_image, protected. cbn [app read_record]. rewrite <-!(assoc_L (++)).
  rewrite (proj2 (Nat.ltb_ge _ _)) by (rewrite length_app, length_le_bytes; lia).
  rewrite take_app_length' by (by rewrite length_le_bytes). rewrite le_value_u32 by (unfold is_u32; unfold MAX_RECORD in *; lia).
  by rewrite (proj2 (Z.ltb_lt _ _)) by lia.
Qed.

(** ** Quorums *)
Lemma has_repeat_NoDup l : StronglySorted Z.le l -> ClusterConfig.has_repeat l = false -> NoDup l.
Proof.
  induction 1 as [|a l Hs IH Ha]; intros Hr; [apply NoDup_nil_2|]. destruct l as [|b l]; [apply NoDup_singleton|].
  cbn [ClusterConfig.has_repeat] in Hr. apply orb_false_iff in Hr as [Hab Hr]. zbool. apply NoDup_cons. split; [|by apply IH].
  intros Hin. apply StronglySorted_inv in Hs as [_ Hb]. rewrite Forall_forall in Ha, Hb.
  pose proof (Ha b ltac:(by left)). apply elem_of_cons in Hin as [->|Hin]; [done|]. specialize (Hb a Hin). lia.
Qed.

(** A configuration that [new] accepts has distinct non-zero voters, among them
    the node, and any two of its quorums share a voter. *)
Theorem quorums_intersect (node : Z) (vs : list Z) (c : ClusterConfig) (q1 q2 : list Z)
    (Hnew : ClusterConfig.new node vs = Ok c) (Hd1 : NoDup q1) (Hd2 : NoDup q2) (H1 : q1 ⊆ vs) (H2 : q2 ⊆ vs)
    (Hq1 : ClusterConfig.quorum c <= Z.of_nat (length q1)) (Hq2 : ClusterConfig.quorum c <= Z.of_nat (length q2)) :
  NoDup (voters c) /\ node_id c ∈ voters c /\ node_id c <> 0 /\ exists v, v ∈ q1 /\ v ∈ q2.
Proof.
  unfold ClusterConfig.new in Hnew. destruct (node =? 0) eqn:E0; [done|]. cbn [orb] in Hnew. zbool.
  case_bool_decide as Hin; [cbn [negb] in Hnew|done]. destruct (bool_decide (vs = []) || _); [done|].
  destruct (bool_decide (head _ = _)); [done|]. cbn [orb] in Hnew.
  destruct (ClusterConfig.has_repeat _) eqn:Er; [done|]. injection Hnew as <-. cbn [voters node_id].
  assert (Hnd : NoDup vs).
  { rewrite <- (merge_sort_Permutation Z.le). apply has_repeat_NoDup; [apply StronglySorted_merge_sort; apply _ | done]. }
  split_and!; [done..|]. unfold ClusterConfig.quorum in *. cbn [voters] in *.
  destruct (decide (Exists (fun v => v ∈ q2) q1)) as [Hex|Hex].
  { apply Exists_exists in Hex as (v & ? & ?). by exists v. }
  exfalso. rewrite <-Forall_Exists_neg, Forall_forall in Hex.
  assert (Hnd' : NoDup (q1 ++ q2)) by (apply NoDup_app; by split_and!).
  assert (Hsub : q1 ++ q2 ⊆ vs) by (intros v Hv; apply elem_of_app in Hv as [?|?]; [by apply H1|by apply H2]).
  pose proof (submseteq_length _ _ (NoDup_submseteq _ _ Hnd' Hsub)) as Hlen. rewrite length_app in Hlen.
  pose proof (Z.div_mod (Z.of_nat (length vs)) 2 ltac:(lia)). pose proof (Z.mod_pos_bound (Z.of_nat (length vs)) 2 ltac:(lia)). lia.
Qed.

(** Were the rename of a compaction not durable, everything synced after it would
    be: the old file comes back and opens, without the vote or the entries
    persisted since. *)
Theorem rename_needs_directory_sync `{!Message Entry, !Message HardState, !Message RaftSnapshot}
    `{!MessageLaws Entry, !MessageLaws HardState, !MessageLaws RaftSnapshot} (d : DurableRaftLog) (st : Recovered)
    (s : RaftSnapshot) (tail es : list Entry) (hs : HardState) (hs' : option HardState) :
  let compacted := after st (Compact s tail hs) in
  life d st -> op_ok st (Compact s tail hs) -> op_ok compacted (Persist es hs') ->
  exists d1 d2, compact d s tail hs = Ok d1 /\ persist d1 es hs' = Ok d2 /\ synced d2 = length (file d2) /\
    open (file d2) = Ok (file d2, after compacted (Persist es hs')) /\ open (file d) = Ok (file d, st).
Proof.
  intros compacted Hl H1 H2. apply life_holds in Hl.
  destruct (run_holds d st (Compact s tail hs) Hl H1) as (d1 & E1 & Hd1).
  destruct (run_holds d1 compacted (Persist es hs') Hd1 H2) as (d2 & E2 & Hd2).
  exists d1, d2. split; [done|]. split; [done|]. split; [by destruct Hd2 as (? & _ & ? & _)|].
  split; by apply holds_open.
Qed.

(** ** Committed entries *)

(** What Raft adds to [op_ok]: the commit index never goes back, a compaction
    keeps the entries past its snapshot, and a received snapshot covers what was
    committed. *)
Definition monotone (st : Recovered) (op : log_op) : Prop :=
  match op with
  | Persist _ hs => forall h, hs = Some h -> commit (hard_state st) <= commit h
  | Compact s tail hs => tail = retain_after (s_index s) (entries st) /\ commit (hard_state st) <= commit hs
  | Install s _ => commit (hard_state st) <= s_index s
  end.

Definition is_committed (st : Recovered) (e : Entry) : Prop :=
  e ∈ entries st /\ index e <= commit (hard_state st).

Lemma put_keeps st es e : Forall (fun x => index e < index x) es -> e ∈ entries st -> e ∈ entries (foldl put st es).
Proof.
  intros H. revert st. induction H as [|x es Hx H IH]; intros st He; [done|]. cbn [foldl]. apply IH.
  unfold put. cbn [entries]. apply elem_of_app. left. by apply list_elem_of_filter.
Qed.

Lemma put_hard st es : hard_state (foldl put st es) = hard_state st /\ snapshot (foldl put st es) = snapshot st.
Proof. revert st. induction es as [|e es IH]; intros st; [done|]. cbn [foldl]. by destruct (IH (put st e)) as [-> ->]. Qed.

Lemma interrupted_keeps `{!Message Entry, !Message HardState, !Message RaftSnapshot} st op st' e :
  op_ok st op -> monotone st op -> is_committed st e -> interrupted st op st' ->
  is_committed st' e \/ index e <= snapshot_index (snapshot st').
Proof.
  intros Hop Hm [He Hc] Hi. destruct op as [es hs|s tail hs|s hs]; cbn [monotone op_ok interrupted after] in *.
  - assert (Hk : forall k, is_committed (foldl put st (take k es)) e).
    { intros k. destruct (put_hard st (take k es)) as [Hh _]. split; [|by rewrite Hh]. apply put_keeps; [|done].
      apply Forall_take. destruct es as [|x es]; [apply Forall_nil_2|]. destruct Hop as (_ & _ & Hx & Hct & _).
      apply Forall_forall. intros y Hy. pose proof (contiguous_ge _ _ _ Hct Hy). lia. }
    left. destruct Hi as [-> | (k & _ & ->)]; [|by apply Hk].
    specialize (Hk (length es)). rewrite take_ge in Hk by done. destruct Hk as [Hk1 Hk2]. split; [done|].
    destruct (put_hard st es) as [Hh _]. rewrite Hh in Hk2. destruct hs as [h|]; cbn [after set_hard hard_state default].
    + specialize (Hm h eq_refl). change (index e <= commit h). lia.
    + by rewrite Hh.
  - destruct Hi as [-> | ->]; [|by left]. destruct Hm as [-> Hm]. cbn [snapshot snapshot_index].
    destruct (decide (index e <= s_index s)); [by right|left]. split; [|cbn; lia].
    cbn [after entries]. apply list_elem_of_filter. split; [lia|done].
  - destruct Hi as [-> | ->]; [right; cbn; lia | by left].
Qed.

(** C12: A committed entry is never lost: whatever operation is in progress when a
    member crashes, after the restart the entry is in the log and committed, or
    covered by the member's snapshot.  The operation keeps the contract of [op_ok]
    (with records of at most 16 MiB, and durable renames) and what Raft adds to it
    ([monotone]): the commit index never goes back, a compaction keeps the entries
    past its snapshot, and a received snapshot covers what was committed. *)
Theorem commits_survive `{!Message Entry, !Message HardState, !Message RaftSnapshot}
    `{!MessageLaws Entry, !MessageLaws HardState, !MessageLaws RaftSnapshot} (d : DurableRaftLog) (st : Recovered)
    (op : log_op) (img : bytes) (e : Entry)
    (Hlife : life d st) (Hop : op_ok st op) (Hmono : monotone st op) (Hcrash : crash_during d op img)
    (He : is_committed st e) :
  exists f st', open img = Ok (f, st') /\ (is_committed st' e \/ index e <= snapshot_index (snapshot st')).
Proof.
  destruct (crash_holds d st op img (life_holds d st Hlife) Hop Hcrash) as (recs & st' & Ho & Hi & _).
  eexists _, st'. split; [exact Ho|]. by eapply interrupted_keeps.
Qed.

Lemma commits_survive_witness :
  let e := mkEntry EntryNormal 1 1 [7; 8] in
  let op := Persist [mkEntry EntryNormal 2 2 [9]] (Some (mkHard 2 2 2)) in
  exists d img f st', crash_during d op img /\ open img = Ok (f, st') /\
    (is_committed st' e \/ 1 <= snapshot_index (snapshot st')).
Proof.
  cbv zeta.
  set (op0 := Persist [mkEntry EntryNormal 1 1 [7; 8]] (Some (mkHard 1 2 1))).
  set (op := Persist [mkEntry EntryNormal 2 2 [9]] (Some (mkHard 2 2 2))).
  set (d0 := mkDurable STORAGE_HEADER 8).
  assert (H0 : life d0 nothing_recovered) by exact (life_new STORAGE_HEADER nothing_recovered eq_refl).
  assert (Hop0 : op_ok nothing_recovered op0).
  { split; [apply Forall_singleton; vm_compute; discriminate|]. split; [|cbn; lia].
    intros h Hh. injection Hh as <-. split; vm_compute; discriminate. }
  destruct (run_holds d0 nothing_recovered op0 (life_holds _ _ H0) Hop0) as (d1 & E1 & _).
  pose proof (life_op d0 nothing_recovered op0 d1 H0 Hop0 E1) as H1.
  assert (Hop : op_ok (after nothing_recovered op0) op).
  { split; [apply Forall_singleton; vm_compute; discriminate|]. split; [|cbn; lia].
    intros h Hh. injection Hh as <-. split; vm_compute; discriminate. }
  assert (Hsy : synced d1 = length (file d1)) by (destruct (life_holds _ _ H1) as (? & _ & ? & _); done).
  assert (Hc : crash_during d1 op (file d1)).
  { unfold crash_during, op. rewrite (write_records_ok _ _ (records_small _ _ _ Hop)). eexists.
    split; [reflexivity|]. split; [by apply prefix_app_r | by rewrite Hsy]. }
  destruct (commits_survive d1 (after nothing_recovered op0) op (file d1) (mkEntry EntryNormal 1 1 [7; 8])) as (f & st' & Ho & Hk).
  - exact H1.
  - exact Hop.
  - intros h Hh. injection Hh as <-. cbn. lia.
  - exact Hc.
  - split; [apply list_elem_of_singleton; reflexivity | cbn; lia].
  - exists d1, (file d1), f, st'. split; [exact Hc|]. split; [exact Ho|]. exact Hk.
Defined.
