(* ===== verification/RaftNode.v ===== *)
(** * The Raft node

    The consensus half of [src/src/raft_log.rs]: what [RaftNode] does with the
    [Ready] values its [RawNode] hands out ([drive]), the entries it delivers to
    the state machine, compaction, and the start from a state file ([open]).

    [RawNode] and [MemStorage] belong to the [raft] crate.  A turn of [drive] is
    given the [Ready] and the [LightReady] that [RawNode] returned in it;
    [MemStorage] is a class of operations, with the contract its documentation
    states as laws over the log it represents. *)

From S2P Require Import Prelude Bytes RaftLog.

(** ** The crate's side *)
Class MemStorage (M : Type) := {
  mem_new : list Z -> M;                                   (* [new_with_conf_state] *)
  mem_hard_state : M -> HardState;
  mem_set_hard_state : M -> HardState -> M;
  mem_set_commit : M -> Z -> M;                            (* [mut_hard_state().set_commit] *)
  mem_conf_state : M -> list Z;
  mem_set_conf_state : M -> list Z -> M;
  mem_apply_snapshot : M -> RaftSnapshot -> option M;
  mem_append : M -> list Entry -> option M;
  mem_compact : M -> Z -> option M;
  mem_term : M -> Z -> option Z;
  mem_entries : M -> Z -> Z -> option (list Entry)
}.

(** A [Ready], with the messages of type [Msg]. *)
Record Ready (Msg : Type) := mkReady {
  r_entries : list Entry;
  r_hs : option HardState;
  r_snapshot : option RaftSnapshot;
  r_messages : list Msg;
  r_committed : list Entry;
  r_persisted_messages : list Msg
}.
Arguments mkReady {Msg}.
Arguments r_entries {Msg}.
Arguments r_hs {Msg}.
Arguments r_snapshot {Msg}.
Arguments r_messages {Msg}.
Arguments r_committed {Msg}.
Arguments r_persisted_messages {Msg}.

Record LightReady (Msg : Type) := mkLight {
  l_commit : option Z;
  l_messages : list Msg;
  l_committed : list Entry
}.
Arguments mkLight {Msg}.
Arguments l_commit {Msg}.
Arguments l_messages {Msg}.
Arguments l_committed {Msg}.

(** ** The node *)
Record Committed := mkCommitted {
  c_index : Z;
  c_term : Z;
  c_leader : Z;
  c_route_version : Z;
  c_data : bytes
}.

Record RaftNode (M Msg : Type) := mkNode {
  mem : M;
  app_snapshot : option RaftSnapshot;                (* [SnapStorage::app] *)
  outbound : list Msg;
  committed : list Committed;
  durable : option DurableRaftLog;
  installed_snapshot : option RaftSnapshot
}.
Arguments mkNode {M Msg}.
Arguments mem {M Msg}.
Arguments app_snapshot {M Msg}.
Arguments outbound {M Msg}.
Arguments committed {M Msg}.
Arguments durable {M Msg}.
Arguments installed_snapshot {M Msg}.

Section node.
Context {M Msg : Type} `{!MemStorage M}.
Context `{!Message Entry, !Message HardState, !Message RaftSnapshot}.
(** [ConfChange] and what [RawNode::apply_conf_change] makes of the voters. *)
Context {ConfChange : Type} (parse_conf : bytes -> option ConfChange).
Context (apply_conf_change : list Z -> ConfChange -> option (list Z)).
Local Abbreviation node := (RaftNode M Msg).

Definition with_mem (n : node) (m : M) : node :=
  mkNode m (app_snapshot n) (outbound n) (committed n) (durable n) (installed_snapshot n).
Definition with_durable (n : node) (d : DurableRaftLog) : node :=
  mkNode (mem n) (app_snapshot n) (outbound n) (committed n) (Some d) (installed_snapshot n).
Definition push_outbound (n : node) (ms : list Msg) : node :=
  mkNode (mem n) (app_snapshot n) (outbound n ++ ms) (committed n) (durable n) (installed_snapshot n).
Definition push_committed (n : node) (cs : list Committed) : node :=
  mkNode (mem n) (app_snapshot n) (outbound n) (committed n ++ cs) (durable n) (installed_snapshot n).

Definition decode_conf_change (e : Entry) : option ConfChange :=
  match data e with
  | [] => None
  | _ => match entry_type e with EntryConfChange => parse_conf (data e) | _ => None end
  end.

Definition committed_of (leader_id : Z) (e : Entry) : Committed :=
  mkCommitted (index e) (term e) leader_id 0 (data e).

(** One entry of [apply_entries]. *)
Definition apply_entry (leader_id : Z) (n : node) (e : Entry) : outcome node :=
  match entry_type e with
  | EntryConfChange | EntryConfChangeV2 =>
      match decode_conf_change e with
      | None => Ret n
      | Some cc =>
          let! voters := expect (apply_conf_change (mem_conf_state (mem n)) cc) "apply committed conf change" in
          Ret (with_mem n (mem_set_conf_state (mem n) voters))
      end
  | EntryNormal =>
      match data e with [] => Ret n | _ => Ret (push_committed n [committed_of leader_id e]) end
  end.

Definition apply_entries (leader_id : Z) (n : node) (es : list Entry) : outcome node :=
  ofold (apply_entry leader_id) n es.

(** An [io::Result] that must be [Ok]. *)
Definition expect_ok {A : Type} (r : io_result A) (why : string) : outcome A :=
  match r with Ok a => Ret a | Err _ => Panic why end.

(** The snapshot of a turn: it supersedes the log, in memory and on disk. *)
Definition receive_snapshot (n : node) (s : RaftSnapshot) : outcome node :=
  let! m := expect (mem_apply_snapshot (mem n) s) "install received raft snapshot" in
  let! d :=
    match durable n with
    | None => Ret None
    | Some d =>
        let! d := expect_ok (install_snapshot d s (mem_hard_state m)) "persist installed raft snapshot" in Ret (Some d)
    end in
  Ret (mkNode m (Some s) (outbound n) (filter (fun c => s_index s < c_index c) (committed n)) d (Some s)).

Definition store_entries (n : node) (es : list Entry) : outcome node :=
  if bool_decide (es = []) then Ret n
  else let! m := expect (mem_append (mem n) es) "raft entries stay contiguous" in Ret (with_mem n m).

(** One turn of the loop of [drive]. *)
Definition drive_turn (n : node) (turn : Ready Msg * LightReady Msg * Z) : outcome node :=
  let '(ready, light, leader_id) := turn in
  let! n :=
    match durable n with
    | None => Ret n
    | Some d =>
        let! d := expect_ok (persist d (r_entries ready) (r_hs ready)) "persist raft Ready before transport" in
        Ret (with_durable n d)
    end in
  let! n := match r_snapshot ready with Some s => receive_snapshot n s | None => Ret n end in
  let! n := store_entries n (r_entries ready) in
  let n := match r_hs ready with Some h => with_mem n (mem_set_hard_state (mem n) h) | None => n end in
  let n := push_outbound n (r_messages ready) in
  let! n := apply_entries leader_id n (r_committed ready) in
  let n := push_outbound n (r_persisted_messages ready) in
  let n := match l_commit light with Some c => with_mem n (mem_set_commit (mem n) c) | None => n end in
  let n := push_outbound n (l_messages light) in
  apply_entries leader_id n (l_committed light).

(** [drive]: the turns until [RawNode] has nothing ready. *)
Definition drive (n : node) (turns : list (Ready Msg * LightReady Msg * Z)) : outcome node := ofold drive_turn n turns.

Definition take_outbound (n : node) : list Msg * node :=
  (outbound n, mkNode (mem n) (app_snapshot n) [] (committed n) (durable n) (installed_snapshot n)).
Definition take_committed (n : node) : list Committed * node :=
  (committed n, mkNode (mem n) (app_snapshot n) (outbound n) [] (durable n) (installed_snapshot n)).
Definition take_installed_snapshot_with_index (n : node) : option (Z * bytes) * node :=
  ((fun s => (s_index s, s_data s)) <$> installed_snapshot n,
   mkNode (mem n) (app_snapshot n) (outbound n) (committed n) (durable n) None).

Definition served_index (n : node) : Z := snapshot_index (app_snapshot n).

(** [RaftNode::compact]; [applied] and [last] are the indices of [RawNode].  The
    node is changed even when a step after [set_app_snapshot] fails. *)
Definition compact_node (n : node) (applied last i : Z) (app_data : bytes) : node * io_result bool :=
  let i := Z.min i applied in
  if (i <=? served_index n) || (i =? 0) then (n, Ok false)
  else
    match mem_term (mem n) i with
    | None => (n, Err "term")
    | Some t =>
        let s := mkRaftSnap i t (mem_conf_state (mem n)) app_data in
        let n := mkNode (mem n) (Some s) (outbound n) (committed n) (durable n) (installed_snapshot n) in
        match mem_compact (mem n) i with
        | None => (n, Err "compact")
        | Some m =>
            let n := with_mem n m in
            match durable n with
            | None => (n, Ok true)
            | Some d =>
                match (if i <? last then mem_entries m (i + 1) (last + 1) else Some []) with
                | None => (n, Err "entries")
                | Some tail =>
                    match compact d s tail (mem_hard_state m) with
                    | Err why => (n, Err why)
                    | Ok d => (with_durable n d, Ok true)
                    end
                end
            end
        end
    end.

(** The committed prefix that [open] exposes again. *)
Definition replayable (st : Recovered) (e : Entry) : bool :=
  (index e <=? commit (hard_state st)) && (snapshot_index (snapshot st) <? index e) &&
  bool_decide (entry_type e = EntryNormal) && negb (bool_decide (data e = [])).

Definition recovered_committed (st : Recovered) : list Committed :=
  committed_of 0 <$> filter (fun e => replayable st e = true) (entries st).

(** [with_storage] and [restore_membership]. *)
Definition restore_membership (st : Recovered) (m : M) : M :=
  foldl (fun m e =>
    if (index e <=? snapshot_index (snapshot st)) || (commit (hard_state st) <? index e) then m
    else
      match decode_conf_change e with
      | None => m
      | Some cc =>
          match apply_conf_change (mem_conf_state m) cc with Some voters => mem_set_conf_state m voters | None => m end
      end) m (entries st).

Definition with_storage (c : ClusterConfig) (d : option DurableRaftLog) (st : Recovered) : io_result node :=
  let m := mem_new (voters c) in
  let? m := match snapshot st with
            | None => Ok m
            | Some s => match mem_apply_snapshot m s with Some m => Ok m | None => Err "snapshot out of date" end
            end in
  let? m := match entries st with
            | [] => Ok m
            | es => match mem_append m es with Some m => Ok m | None => Err "append" end
            end in
  let m := if bool_decide (hard_state st = no_hard_state) then m else mem_set_hard_state m (hard_state st) in
  Ok (mkNode (restore_membership st m) (snapshot st) [] [] d None).

Definition open_node (c : ClusterConfig) (contents : bytes) : io_result node :=
  let? r := open contents in
  let '(f, st) := r in
  let? n := with_storage c (Some (mkDurable f (length f))) st in
  Ok (mkNode (mem n) (app_snapshot n) (outbound n) (recovered_committed st) (durable n) (snapshot st)).

End node.

(** ** The storage's contract

    [view] is the log a [MemStorage] represents; entries that continue or
    overlap it are accepted. *)
Class MemStorageLaws (M : Type) `{!MemStorage M} := {
  view : M -> Recovered;
  view_new vs : view (mem_new vs) = nothing_recovered;
  view_hard m : mem_hard_state m = hard_state (view m);
  view_set_hard m h : view (mem_set_hard_state m h) = set_hard (view m) (Some h);
  view_set_commit m c : entries (view (mem_set_commit m c)) = entries (view m) /\
    snapshot (view (mem_set_commit m c)) = snapshot (view m);
  view_set_conf m vs : view (mem_set_conf_state m vs) = view m;
  view_append m e es : contiguous (index e) (e :: es) ->
    snapshot_index (snapshot (view m)) < index e <= durable_last (view m) + 1 ->
    exists m', mem_append m (e :: es) = Some m' /\ view m' = foldl put (view m) (e :: es);
  view_snapshot m s : durable_last (view m) <= s_index s ->
    exists m', mem_apply_snapshot m s = Some m' /\ entries (view m') = [] /\ snapshot (view m') = Some s;
  view_term m i e : contiguous i (entries (view m)) -> e ∈ entries (view m) -> mem_term m (index e) = Some (term e);
  view_compact m i e : contiguous i (entries (view m)) -> e ∈ entries (view m) ->
    exists m', mem_compact m (index e) = Some m' /\ entries (view m') = filter (fun x => index e <= index x) (entries (view m)) /\
      hard_state (view m') = hard_state (view m) /\ snapshot (view m') = snapshot (view m);
  view_entries m i e : contiguous i (entries (view m)) -> e ∈ entries (view m) ->
    mem_entries m (index e) (durable_last (view m) + 1) = Some (filter (fun x => index e <= index x) (entries (view m)))
}.

(** What a turn hands to the application. *)
Definition delivered (leader_id : Z) (es : list Entry) : list Committed :=
  committed_of leader_id <$> filter (fun e => entry_type e = EntryNormal /\ data e <> []) es.

Definition turn_delivered {Msg : Type} (turn : Ready Msg * LightReady Msg * Z) : list Committed :=
  let '(ready, light, leader_id) := turn in delivered leader_id (r_committed ready ++ l_committed light).

Definition turn_messages {Msg : Type} (turn : Ready Msg * LightReady Msg * Z) : list Msg :=
  let '(ready, light, _) := turn in r_messages ready ++ r_persisted_messages ready ++ l_messages light.

Definition turn_op {Msg : Type} (turn : Ready Msg * LightReady Msg * Z) : log_op :=
  let '(ready, _, _) := turn in Persist (r_entries ready) (r_hs ready).

Lemma delivered_app l es1 es2 : delivered l (es1 ++ es2) = delivered l es1 ++ delivered l es2.
Proof. unfold delivered. by rewrite filter_app, fmap_app. Qed.

Section driving.
Context {M Msg : Type} `{!MemStorage M, !MemStorageLaws M}.
Context `{!Message Entry, !Message HardState, !Message RaftSnapshot}.
Context `{!MessageLaws Entry, !MessageLaws HardState, !MessageLaws RaftSnapshot}.
Context {ConfChange : Type} (parse_conf : bytes -> option ConfChange).
Context (apply_conf_change : list Z -> ConfChange -> option (list Z)).
(** [RawNode] applies the changes it committed. *)
Hypothesis Hconf : forall vs cc, is_Some (apply_conf_change vs cc).
Local Abbreviation node := (RaftNode M Msg).

(** Memory and disk hold the same log; memory may still have entries that the
    snapshot on disk covers. *)
Definition same_log (a st : Recovered) : Prop :=
  (exists i pre, entries a = pre ++ entries st /\ Forall (fun e => index e <= snapshot_index (snapshot st)) pre /\
     contiguous i (entries a) /\ i <= snapshot_index (snapshot st) + 1) /\
  durable_last a = durable_last st /\ snapshot_index (snapshot a) <= snapshot_index (snapshot st).

Definition mirrors (n : node) (st : Recovered) : Prop := same_log (view (mem n)) st.

Lemma apply_entries_ok leader (n : node) es : exists n', apply_entries parse_conf apply_conf_change leader n es = Ret n' /\
  view (mem n') = view (mem n) /\ committed n' = committed n ++ delivered leader es /\
  outbound n' = outbound n /\ durable n' = durable n.
Proof.
  unfold apply_entries. revert n. induction es as [|e es IH]; intros n.
  - exists n. split_and!; try done. by rewrite app_nil_r.
  - cbn [ofold]. assert (Hstep : exists n1, apply_entry parse_conf apply_conf_change leader n e = Ret n1 /\
      view (mem n1) = view (mem n) /\ committed n1 = committed n ++ delivered leader [e] /\
      outbound n1 = outbound n /\ durable n1 = durable n).
    { unfold apply_entry, delivered. rewrite filter_cons, filter_nil. destruct (entry_type e) eqn:Et.
      - destruct (data e) as [|b bs] eqn:Ed.
        + exists n. rewrite decide_False by naive_solver. split_and!; try done. by rewrite app_nil_r.
        + rewrite decide_True by done. eexists. split; [done|]. by split_and!.
      - rewrite decide_False by naive_solver. rewrite app_nil_r. destruct (decode_conf_change parse_conf e) as [cc|].
        + destruct (Hconf (mem_conf_state (mem n)) cc) as [vs ->]. eexists. split; [done|].
          split_and!; try done. apply view_set_conf.
        + exists n. by split_and!.
      - rewrite decide_False by naive_solver. rewrite app_nil_r. destruct (decode_conf_change parse_conf e) as [cc|].
        + destruct (Hconf (mem_conf_state (mem n)) cc) as [vs ->]. eexists. split; [done|].
          split_and!; try done. apply view_set_conf.
        + exists n. by split_and!. }
    destruct Hstep as (n1 & -> & V1 & C1 & O1 & D1). cbn [obind]. destruct (IH n1) as (n' & -> & V & C & O & D).
    exists n'. split_and!; try congruence. rewrite C, C1, <-(assoc_L (++)). f_equal.
    by rewrite <-delivered_app.
Qed.
Lemma same_log_put a st e : same_log a st -> snapshot_index (snapshot st) < index e <= durable_last st + 1 ->
  same_log (put a e) (put st e).
Proof.
  intros ((i & pre & Ep & Hp & Hc & Hi) & Hl & Hsi) He. split; [|split].
  - assert (Hput : entries (put a e) = pre ++ entries (put st e)).
    { unfold put. cbn [entries]. rewrite Ep, filter_app, (assoc_L (++)). do 2 f_equal.
      apply filter_all. intros x Hx. rewrite Forall_forall in Hp. specialize (Hp x Hx). lia. }
    destruct (filter_below i (index e) (entries a) Hc) as [Hf _]. unfold put in Hput |- *. cbn [entries snapshot] in *.
    rewrite <- Hl in He. unfold durable_last in He. destruct (last (entries a)) as [z|] eqn:Ez.
    + exists i, pre. split_and!; [done|done| |done]. rewrite Hf. apply contiguous_app.
      pose proof (contiguous_last i _ _ Hc Ez). split; [by apply contiguous_take|]. cbn. rewrite length_take. split; [lia|done].
    + exists (index e), pre. apply last_None in Ez. split_and!; [done|done| |].
      * by rewrite Ez.
      * unfold durable_last in Hl. rewrite Ez in Ep, Hl. symmetry in Ep. apply app_nil in Ep as [-> Ep]. rewrite Ep in Hl.
        cbn [last] in Hl. lia.
  - unfold durable_last, put. cbn [entries]. by rewrite !last_snoc.
  - done.
Qed.

Lemma same_log_puts a st j es : same_log a st -> contiguous j es -> snapshot_index (snapshot st) < j <= durable_last st + 1 ->
  same_log (foldl put a es) (foldl put st es).
Proof.
  revert a st j. induction es as [|e es IH]; intros a st j Hs Hc Hj; [done|]. destruct Hc as [He Hc]. cbn [foldl].
  apply (IH _ _ (j + 1)); [apply same_log_put; [done|lia] | done |].
  unfold durable_last, put. cbn [entries snapshot]. rewrite last_snoc. lia.
Qed.

Lemma same_log_hard a a' st st' : same_log a st -> entries a' = entries a -> snapshot a' = snapshot a ->
  entries st' = entries st -> snapshot st' = snapshot st -> same_log a' st'.
Proof. unfold same_log, durable_last. intros H -> -> -> ->. done. Qed.

Lemma mirrors_append (n : node) st es : mirrors n st ->
  (forall e rest, es = e :: rest -> contiguous (index e) es /\
     snapshot_index (snapshot st) < index e <= durable_last st + 1) ->
  exists m, store_entries n es = Ret (with_mem n m) /\ same_log (view m) (foldl put st es).
Proof.
  intros Hm Hes. destruct es as [|e es].
  - exists (mem n). split; [by destruct n|]. done.
  - destruct (Hes e es eq_refl) as [Hc Hi]. pose proof Hm as (_ & Hl & Hsi).
    destruct (view_append (mem n) e es Hc) as (m & E & Hv); [lia|].
    exists m. unfold store_entries. rewrite bool_decide_false, E by done. split; [done|]. rewrite Hv.
    by apply (same_log_puts _ _ (index e)).
Qed.

Lemma drive_turn_ok (n : node) d st turn : durable n = Some d -> life d st -> mirrors n st ->
  r_snapshot turn.1.1 = None -> op_ok st (turn_op turn) ->
  exists n' d', drive_turn parse_conf apply_conf_change n turn = Ret n' /\ durable n' = Some d' /\
    life d' (after st (turn_op turn)) /\ mirrors n' (after st (turn_op turn)) /\
    outbound n' = outbound n ++ turn_messages turn /\ committed n' = committed n ++ turn_delivered turn.
Proof.
  destruct turn as [[ready light] leader]. intros Hd Hl Hm Hs Hop. cbn [turn_op fst] in *.
  destruct (run_holds d st _ (life_holds d st Hl) Hop) as (d' & E & _). cbn [run_op] in E.
  pose proof (life_op d st _ d' Hl Hop E) as Hl'. unfold drive_turn. rewrite Hd, E. cbn [expect_ok obind]. rewrite Hs. cbn [obind].
  set (n1 := with_durable n d').
  destruct (mirrors_append n1 st (r_entries ready) Hm) as (m & -> & Hme).
  { intros e rest Ee. destruct Hop as (_ & _ & Hr). rewrite Ee in *. destruct Hr as (? & ? & _). split; [done|lia]. }
  cbn [obind]. set (n2 := match r_hs ready with Some h => _ | None => _ end).
  assert (Hn2 : mirrors n2 (after st (Persist (r_entries ready) (r_hs ready))) /\ durable n2 = Some d' /\
    outbound n2 = outbound n /\ committed n2 = committed n).
  { split; [|by unfold n2; destruct (r_hs ready)]. unfold n2, mirrors.
    destruct (r_hs ready); cbn [mem with_mem]; rewrite ?view_set_hard; by eapply same_log_hard. }
  destruct Hn2 as (V2 & D2 & O2 & C2).
  destruct (apply_entries_ok leader (push_outbound n2 (r_messages ready)) (r_committed ready))
    as (n3 & -> & V3 & C3 & O3 & D3). cbn [obind push_outbound mem committed outbound durable] in *.
  set (n4 := match l_commit light with Some c => _ | None => _ end).
  assert (Hn4 : entries (view (mem n4)) = entries (view (mem n3)) /\ snapshot (view (mem n4)) = snapshot (view (mem n3)) /\
    durable n4 = durable n3 /\ outbound n4 = outbound n3 ++ r_persisted_messages ready /\ committed n4 = committed n3).
  { unfold n4. destruct (l_commit light) as [c|]; [|by split_and!]. cbn [with_mem push_outbound mem durable outbound committed].
    destruct (view_set_commit (mem n3) c) as [-> ->]. by split_and!. }
  destruct Hn4 as (V4e & V4s & D4 & O4 & C4).
  destruct (apply_entries_ok leader (push_outbound n4 (l_messages light)) (l_committed light))
    as (n5 & -> & V5 & C5 & O5 & D5). cbn [push_outbound mem committed outbound durable] in *.
  exists n5, d'. split_and!; [done|congruence|done| | |].
  - unfold mirrors. rewrite V5. eapply same_log_hard; [|exact V4e|exact V4s|done|done]. by rewrite V3.
  - cbn [turn_messages]. rewrite O5, O4, O3, O2. by rewrite <-!(assoc_L (++)).
  - cbn [turn_delivered]. rewrite C5, C4, C3, C2, delivered_app. by rewrite <-!(assoc_L (++)).
Qed.

(** Turns without snapshots, each within the contract of [RaftLog.op_ok]. *)
Fixpoint turns_ok (st : Recovered) (turns : list (Ready Msg * LightReady Msg * Z)) : Prop :=
  match turns with
  | [] => True
  | turn :: turns => r_snapshot turn.1.1 = None /\ op_ok st (turn_op turn) /\ turns_ok (after st (turn_op turn)) turns
  end.

Lemma turns_drive turns (n : node) d st : durable n = Some d -> life d st -> mirrors n st -> turns_ok st turns ->
  exists n' d', drive parse_conf apply_conf_change n turns = Ret n' /\ durable n' = Some d' /\
    life d' (foldl after st (turn_op <$> turns)) /\ mirrors n' (foldl after st (turn_op <$> turns)) /\
    outbound n' = outbound n ++ concat (turn_messages <$> turns) /\
    committed n' = committed n ++ concat (turn_delivered <$> turns).
Proof.
  unfold drive. revert n d st. induction turns as [|turn turns IH]; intros n d st Hd Hl Hm Hok.
  - exists n, d. cbn. rewrite !app_nil_r. by split_and!.
  - destruct Hok as (Hs & Hop & Hok). destruct (drive_turn_ok n d st turn Hd Hl Hm Hs Hop) as (n1 & d1 & E & D1 & L1 & M1 & O1 & C1).
    cbn [ofold fmap list_fmap foldl concat]. rewrite E. cbn [obind].
    destruct (IH n1 d1 _ D1 L1 M1 Hok) as (n' & d' & -> & D & L & Mi & O & C). exists n', d'.
    split_and!; try done; [rewrite O, O1 | rewrite C, C1]; by rewrite <-(assoc_L (++)).
Qed.

(** Opening a member: memory, disk and the stream of committed entries. *)
Lemma open_node_ok c d st : life d st ->
  exists n : node, open_node parse_conf apply_conf_change c (file d) = Ok n /\ durable n = Some d /\
    mirrors n st /\ outbound n = [] /\ committed n = recovered_committed st.
Proof.
  intros Hl. pose proof (life_holds d st Hl) as Hh. unfold open_node. rewrite (holds_open d st Hh). cbn [try_bind].
  destruct Hh as (recs & _ & Hsy & _ & _ & (H0 & Hc & Hu & _)). unfold with_storage.
  assert (H1 : exists m, match snapshot st with
      | None => Ok (mem_new (voters c))
      | Some s => match mem_apply_snapshot (mem_new (voters c)) s with Some m => Ok m | None => Err "snapshot out of date" end
      end = Ok m /\ entries (view m) = [] /\ snapshot (view m) = snapshot st).
  { destruct (snapshot st) as [s|].
    - destruct (view_snapshot (mem_new (voters c)) s) as (m & -> & ? & ?); [rewrite view_new; done|]. by exists m.
    - exists (mem_new (voters c)). by rewrite view_new. }
  destruct H1 as (m1 & -> & E1 & S1). cbn [try_bind].
  assert (Hsl : same_log (view m1) (mkRecovered [] no_hard_state (snapshot st)))
    by (unfold same_log, durable_last; rewrite E1, S1; split; [by exists (snapshot_index (snapshot st) + 1), []|done]).
  assert (H2 : exists m, match entries st with
      | [] => Ok m1
      | es => match mem_append m1 es with Some m => Ok m | None => Err "append" end
      end = Ok m /\ same_log (view m) st).
  { destruct (entries st) as [|e es] eqn:Ee; [exists m1; split; [done|by eapply same_log_hard]|].
    pose proof Hc as [Hi _]. rewrite <- Hi in Hc. destruct (view_append m1 e es Hc) as (m & -> & Hv).
    - unfold durable_last. rewrite E1, S1. cbn [last]. lia.
    - exists m. split; [done|]. rewrite Hv. apply (same_log_puts _ _ (index e) (e :: es)) in Hsl.
      + rewrite put_from in Hsl by (cbn [app]; by rewrite <- Hi). by eapply same_log_hard.
      + done.
      + unfold durable_last. cbn [snapshot entries last]. lia. }
  destruct H2 as (m2 & -> & E2). cbn [try_bind]. set (m3 := if bool_decide _ then _ else _).
  assert (H3 : same_log (view m3) st).
  { unfold m3. case_bool_decide; [done|]. rewrite view_set_hard. by eapply same_log_hard. }
  eexists. split; [done|]. cbn [durable outbound committed mem]. split_and!; [destruct d; cbn in *; by subst | | done | done].
  unfold mirrors, restore_membership. cbn [mem]. match goal with |- context [foldl ?f m3 _] => set (step := f) end.
  assert (Hf : forall es m, same_log (view m) st -> same_log (view (foldl step m es)) st); [|by apply Hf].
  induction es as [|e es IH]; intros m Hm; [done|]. cbn [foldl]. apply IH. unfold step.
  destruct (_ || _); [done|]. destruct (decode_conf_change parse_conf e) as [cc|]; [|done].
  destruct (apply_conf_change _ cc); [|done]. by rewrite view_set_conf.
Qed.

End driving.



(** A storage that keeps the contract: the log it represents, and the voters. *)
#[local] Instance plain_storage : MemStorage (Recovered * list Z) := {|
  mem_new vs := (nothing_recovered, vs);
  mem_hard_state m := hard_state m.1;
  mem_set_hard_state m h := (set_hard m.1 (Some h), m.2);
  mem_set_commit m c := (set_hard m.1 (Some (mkHard (hs_term (hard_state m.1)) (vote (hard_state m.1)) c)), m.2);
  mem_conf_state m := m.2;
  mem_set_conf_state m vs := (m.1, vs);
  mem_apply_snapshot m s :=
    let h := hard_state m.1 in Some (mkRecovered [] (mkHard (Z.max (hs_term h) (s_term s)) (vote h) (s_index s)) (Some s), conf_voters s);
  mem_append m es := Some (foldl put m.1 es, m.2);
  mem_compact m i := Some (mkRecovered (filter (fun x => i <= index x) (entries m.1)) (hard_state m.1) (snapshot m.1), m.2);
  mem_term m i := (fun p => term p.2) <$> list_find (fun e => index e = i) (entries m.1);
  mem_entries m lo hi := Some (filter (fun e => lo <= index e < hi) (entries m.1))
|}.

#[local] Instance plain_laws : MemStorageLaws (Recovered * list Z).
Proof.
  refine {| view := fst : Recovered * list Z -> Recovered |}; try done; try (intros; by eexists).
  - intros m i e Hc He. cbn. destruct (list_find _ _) as [[k x]|] eqn:Ef.
    + apply list_find_Some in Ef as (Hk & Hx & _). cbn. f_equal. f_equal.
      apply list_elem_of_lookup in He as [k' He]. pose proof (contiguous_lookup _ _ _ _ Hc Hk) as H1.
      pose proof (contiguous_lookup _ _ _ _ Hc He) as H2. assert (k = k') as -> by lia. congruence.
    + apply list_find_None in Ef. rewrite Forall_forall in Ef. by destruct (Ef e He).
  - intros m i e Hc He. cbn. f_equal. apply filter_ext_in. intros x Hx.
    pose proof (contiguous_max _ _ _ Hc Hx). unfold durable_last.
    destruct (last (entries m.1)) as [z|] eqn:Ez; [pose proof (contiguous_last _ _ _ Hc Ez); lia|].
    apply last_None in Ez. rewrite Ez in Hx. by apply not_elem_of_nil in Hx.
Defined.

#[local] Existing Instance bits_message.
#[local] Existing Instance bits_laws.


(** ** What falls outside *)

Lemma apply_entries_durable {M Msg : Type} `{!MemStorage M} {CC : Type} parse_conf (apply_cc : list Z -> CC -> option (list Z))
    leader (n n' : RaftNode M Msg) es : apply_entries parse_conf apply_cc leader n es = Ret n' -> durable n' = durable n.
Proof.
  unfold apply_entries. revert n. induction es as [|e es IH]; intros n E; [by injection E as <-|].
  cbn [ofold] in E. apply obind_ret in E as (n1 & E1 & E). rewrite (IH n1 E). clear -E1. unfold apply_entry in E1.
  destruct (entry_type e); [destruct (data e); by injection E1 as <-|..];
    (destruct (decode_conf_change parse_conf e); [|by injection E1 as <-]);
    apply obind_ret in E1 as (vs & _ & E1); by injection E1 as <-.
Qed.

(** A commit index that arrives with the [LightReady] (the group has a single
    voter) is kept in memory only: the entries it commits are delivered, and the
    state file does not say they are committed, so the member does not offer them
    among its recovered entries after a restart. *)
Theorem light_commit_not_durable {M Msg : Type} `{!MemStorage M, !MemStorageLaws M}
    `{!Message Entry, !Message HardState, !Message RaftSnapshot}
    `{!MessageLaws Entry, !MessageLaws HardState, !MessageLaws RaftSnapshot}
    {ConfChange : Type} (parse_conf : bytes -> option ConfChange)
    (apply_conf_change : list Z -> ConfChange -> option (list Z))
    (Hconf : forall vs cc, is_Some (apply_conf_change vs cc))
    (c : ClusterConfig) (n : RaftNode M Msg) (d : DurableRaftLog) (st : Recovered)
    (ready : Ready Msg) (light : LightReady Msg) (leader : Z) (e : Entry)
    (Hd : durable n = Some d) (Hlife : life d st) (Hm : mirrors n st) (Hturn : turns_ok st [(ready, light, leader)])
    (He : e ∈ l_committed light) (Hn : entry_type e = EntryNormal) (Hne : data e <> [])
    (Hlag : commit (default (hard_state st) (r_hs ready)) < index e) :
  exists n' d' (n'' : RaftNode M Msg), drive parse_conf apply_conf_change n [(ready, light, leader)] = Ret n' /\
    committed_of leader e ∈ committed n' /\ durable n' = Some d' /\
    open_node parse_conf apply_conf_change c (file d') = Ok n'' /\ Forall (fun x => c_index x <> index e) (committed n'').
Proof.
  destruct (turns_drive parse_conf apply_conf_change Hconf [(ready, light, leader)] n d st Hd Hlife Hm Hturn)
    as (n' & d' & E & D & L & _ & _ & C).
  destruct (open_node_ok (Msg := Msg) parse_conf apply_conf_change c d' _ L) as (n'' & Eo & _ & _ & _ & Co).
  exists n', d', n''. split_and!; [done| |done|done|].
  - rewrite C. cbn. rewrite app_nil_r, delivered_app. rewrite !elem_of_app. do 2 right. unfold delivered.
    apply list_elem_of_fmap. exists e. split; [done|]. by apply list_elem_of_filter.
  - rewrite Co. unfold recovered_committed. apply Forall_fmap, Forall_forall. intros x Hx.
    apply list_elem_of_filter in Hx as [Hr _]. unfold replayable in Hr. apply andb_true_iff in Hr as [Hr _].
    apply andb_true_iff in Hr as [Hr _]. apply andb_true_iff in Hr as [Hr _]. zbool. intros Hi. cbn in Hi.
    cbn [fmap list_fmap foldl turn_op after set_hard hard_state] in Hr. rewrite Hi in Hr.
    destruct (r_hs ready); cbn [default] in Hr, Hlag; [change (index e <= commit h) in Hr; unfold id in Hlag; lia|].
    destruct (put_hard st (r_entries ready)) as [Hh _]. rewrite Hh in Hr. lia.
Qed.

(** A turn that installs a snapshot rewrites the state file with the hard state
    the storage had before it: the hard state of the turn itself, persisted at its
    start, is dropped from the file, whatever it was. *)
Theorem snapshot_turn_drops_hard_state {M Msg : Type} `{!MemStorage M}
    `{!Message Entry, !Message HardState, !Message RaftSnapshot}
    {ConfChange : Type} (parse_conf : bytes -> option ConfChange)
    (apply_conf_change : list Z -> ConfChange -> option (list Z))
    (n n1 n2 : RaftNode M Msg) (s : RaftSnapshot) (es cs : list Entry) (ms ps : list Msg) (light : LightReady Msg)
    (leader : Z) (h1 h2 : HardState)
    (E1 : drive_turn parse_conf apply_conf_change n (mkReady es (Some h1) (Some s) ms cs ps, light, leader) = Ret n1)
    (E2 : drive_turn parse_conf apply_conf_change n (mkReady es (Some h2) (Some s) ms cs ps, light, leader) = Ret n2) :
  durable n1 = durable n2.
Proof.
  assert (Hone : forall h n', drive_turn parse_conf apply_conf_change n (mkReady es (Some h) (Some s) ms cs ps, light, leader) = Ret n' ->
    exists m, mem_apply_snapshot (mem n) s = Some m /\
      durable n' = match durable n with None => None | Some d => match install_snapshot d s (mem_hard_state m) with Ok d => Some d | Err _ => None end end).
  { clear. intros h n' E. unfold drive_turn in E. cbn [r_entries r_hs r_snapshot r_messages r_committed r_persisted_messages] in E.
    apply obind_ret in E as (na & Ea & E). apply obind_ret in E as (nb & Eb & E). apply obind_ret in E as (nc & Ec & E).
    apply obind_ret in E as (nd & Ed & E). apply apply_entries_durable in E. apply apply_entries_durable in Ed.
    assert (Hn' : durable n' = durable nb).
    { rewrite E. destruct (l_commit light); cbn [with_mem push_outbound durable]; rewrite Ed; cbn [with_mem push_outbound durable];
        (unfold store_entries in Ec; case_bool_decide; [by injection Ec as <-|]);
        apply obind_ret in Ec as (? & _ & Ec); by injection Ec as <-. }
    unfold receive_snapshot in Eb. apply obind_ret in Eb as (m & Em & Eb). apply expect_ret in Em.
    apply obind_ret in Eb as (d' & Ed' & Eb). injection Eb as <-. cbn [durable] in Hn'. exists m.
    destruct (durable n) as [d|] eqn:Dn.
    - apply obind_ret in Ea as (d1 & _ & Ea). injection Ea as <-. split; [done|]. cbn [with_durable durable] in Ed'.
      apply obind_ret in Ed' as (d2 & E2 & Ed'). injection Ed' as <-. rewrite Hn'. unfold install_snapshot, rewrite in *.
      destruct (write_records _ _); [|done]. cbn in E2 |- *. by injection E2 as <-.
    - injection Ea as <-. rewrite Dn in Ed'. injection Ed' as <-. done. }
  destruct (Hone h1 n1 E1) as (m & Hm & ->). destruct (Hone h2 n2 E2) as (m' & Hm' & ->).
  by assert (m = m') as <- by congruence.
Qed.

(** ** Compaction *)

(** The log in memory once its prefix is dropped: the entry at the snapshot's
    index, which [MemStorage] keeps, and the tail. *)
Lemma compacted_log a st j e s h : same_log a st -> follows st -> e ∈ entries st -> index e = j -> s_index s = j ->
  let tail := retain_after j (entries st) in
  filter (fun x => j <= index x) (entries a) = e :: tail /\ contiguous (j + 1) tail /\
  durable_last (mkRecovered tail h (Some s)) = durable_last st /\
  forall b, entries b = e :: tail -> snapshot_index (snapshot b) <= j -> same_log b (mkRecovered tail h (Some s)).
Proof.
  intros ((k & pre & Ep & Hp & Hc & Hk) & Hl & Hsi) [H0 Hct] He Hj Hs tail.
  pose proof (contiguous_ge _ _ _ Hct He) as Hge.
  assert (Htail : tail = filter (fun x => j + 1 <= index x) (entries a)).
  { unfold tail. rewrite retain_above, Ep, filter_app. rewrite (filter_none _ pre); [done|].
    intros x Hx. rewrite Forall_forall in Hp. specialize (Hp x Hx). lia. }
  assert (Hev : e ∈ entries a) by (rewrite Ep; apply elem_of_app; by right).
  apply list_elem_of_lookup in Hev as [q Hq]. pose proof (contiguous_lookup _ _ _ _ Hc Hq) as Hiq.
  assert (Hcut : filter (fun x => j <= index x) (entries a) = e :: tail).
  { rewrite Htail, !(filter_above k) by done. replace (Z.to_nat (j + 1 - k)) with (S q) by lia.
    replace (Z.to_nat (j - k)) with q by lia. by apply drop_S. }
  assert (Hct' : contiguous (j + 1) tail).
  { rewrite Htail, (filter_above k) by done. pose proof (lookup_lt_Some _ _ _ Hq).
    replace (Z.to_nat (j + 1 - k)) with (S q) by lia.
    replace (j + 1) with (k + Z.of_nat (S q)) by lia. apply contiguous_drop; [done|lia]. }
  assert (Hlast : last (entries a) = last (e :: tail)).
  { rewrite <- Hcut, (filter_above k) by done. replace (Z.to_nat (j - k)) with q by lia.
    rewrite <-(take_drop q (entries a)) at 1. rewrite (drop_S _ _ _ Hq). by rewrite last_app_cons. }
  split_and!; [done|done| |].
  { rewrite <- Hl. unfold durable_last at 2. rewrite Hlast. unfold durable_last. cbn [entries snapshot snapshot_index].
    destruct tail as [|x tail']; [cbn; lia|]. rewrite last_cons_cons.
    by destruct (last (x :: tail')) eqn:Ez; [|apply last_None in Ez]. }
  intros b Eb Hb. split; [|split].
  - exists j, [e]. cbn [entries snapshot snapshot_index]. split_and!; [done| |by rewrite Eb|lia].
    apply Forall_singleton. lia.
  - unfold durable_last. rewrite Eb. cbn [entries snapshot snapshot_index]. destruct tail as [|x tail']; [cbn; lia|].
    rewrite last_cons_cons. by destruct (last (x :: tail')) eqn:Ez; [|apply last_None in Ez].
  - cbn. lia.
Qed.

(** Compaction at a committed index folds the prefix into a snapshot and keeps
    the rest: the log of the member, in memory and on disk, is the one it had
    without that prefix, and its hard state is the one in memory. *)
Theorem compaction_keeps_log {M Msg : Type} `{!MemStorage M, !MemStorageLaws M}
    `{!Message Entry, !Message HardState, !Message RaftSnapshot}
    `{!MessageLaws Entry, !MessageLaws HardState, !MessageLaws RaftSnapshot}
    (n : RaftNode M Msg) (d : DurableRaftLog) (st : Recovered) (i applied : Z) (app_data : bytes)
    (Hd : durable n = Some d) (Hlife : life d st) (Hm : mirrors n st) (Happ : served_index n = snapshot_index (snapshot st))
    (Hi : snapshot_index (snapshot st) < Z.min i applied <= durable_last st)
    (Hh : commit (hard_state st) <= commit (mem_hard_state (mem n)) <= durable_last st)
    (Hfs : forall s : RaftSnapshot, s_index s = Z.min i applied -> s_data s = app_data -> fits s)
    (Hfh : fits (mem_hard_state (mem n))) (Hfe : Forall fits (entries st)) :
  let j := Z.min i applied in
  exists n' d' s, compact_node n applied (durable_last st) i app_data = (n', Ok true) /\ durable n' = Some d' /\
    s_index s = j /\ s_data s = app_data /\
    let op := Compact s (retain_after j (entries st)) (mem_hard_state (mem n)) in
    op_ok st op /\ monotone st op /\ life d' (after st op) /\ mirrors n' (after st op) /\ served_index n' = j.
Proof.
  cbv zeta. set (j := Z.min i applied) in *. pose proof (life_holds d st Hlife) as Hholds.
  pose proof Hholds as (_ & _ & _ & _ & _ & (H0 & Hct & Hu & Hcm)). pose proof Hm as ((k & pre & Ep & _ & Hc & _) & Hl & Hsi).
  assert (He : exists e, e ∈ entries st /\ index e = j).
  { unfold durable_last in Hi. destruct (last (entries st)) as [z|] eqn:Ez; [|lia]. pose proof (contiguous_last _ _ _ Hct Ez).
    destruct (entries st !! Z.to_nat (j - snapshot_index (snapshot st) - 1)) as [e|] eqn:Ee.
    - exists e. split; [by apply (list_elem_of_lookup_2 _ _ _ Ee)|]. pose proof (contiguous_lookup _ _ _ _ Hct Ee). lia.
    - apply lookup_ge_None in Ee. lia. }
  destruct He as (e & He & Hej). assert (Hev : e ∈ entries (view (mem n))) by (rewrite Ep; apply elem_of_app; by right).
  set (s := mkRaftSnap j (term e) (mem_conf_state (mem n)) app_data). set (h := mem_hard_state (mem n)) in *.
  set (tail := retain_after j (entries st)).
  destruct (compacted_log (view (mem n)) st j e s h Hm (conj H0 Hct) He Hej eq_refl) as (Hcut & Hct' & Hlast & Hsame).
  fold tail in Hcut, Hct', Hlast, Hsame.
  destruct (view_compact (mem n) k e Hc Hev) as (m & Em & Eme & Emh & Ems). rewrite Hej in Em, Eme. rewrite Hcut in Eme.
  specialize (Hsame (view m) Eme ltac:(rewrite Ems; lia)).
  assert (Hop : op_ok st (Compact s tail h)).
  { split; [|split; [by apply Hfs | split; [done|]]].
    - apply log_ok_intro; [split; [cbn; lia | done] | cbn [after]; rewrite Hlast; lia | cbn [after]; rewrite Hlast; cbn; lia].
    - apply Forall_forall. intros x Hx. apply list_elem_of_filter in Hx as [_ Hx]. by apply (proj1 (Forall_forall _ _) Hfe). }
  destruct (run_holds d st _ Hholds Hop) as (d' & Ed & _). pose proof (life_op d st _ d' Hlife Hop Ed) as Hlife'.
  cbn [run_op] in Ed.
  assert (Htail : (if j <? durable_last st then mem_entries m (j + 1) (durable_last st + 1) else Some []) = Some tail).
  { destruct Hsame as (_ & Hlm & _). rewrite Hlast in Hlm. destruct tail as [|x tail'] eqn:Et.
    - cbn in Hlast. rewrite <- Hlast. by rewrite Z.ltb_irrefl.
    - destruct Hct' as [Hx Hct']. assert (Hxm : x ∈ entries (view m)) by (rewrite Eme; right; by left).
      assert (Hcm' : contiguous j (entries (view m))) by (rewrite Eme; by split_and!).
      assert (j < durable_last st).
      { rewrite <- Hlm. unfold durable_last. rewrite Eme, last_cons_cons. destruct (last (x :: tail')) as [z|] eqn:Ez; [|by apply last_None in Ez].
        pose proof (contiguous_ge (j + 1) (x :: tail') z (conj Hx Hct') (last_Some_elem_of _ _ Ez)). lia. }
      rewrite (proj2 (Z.ltb_lt _ _)) by done. rewrite <- Hx, <- Hlm, (view_entries m j x Hcm' Hxm), Eme. f_equal.
      rewrite filter_cons_False by lia. apply filter_all. intros y Hy.
      pose proof (contiguous_ge (j + 1) (x :: tail') y (conj Hx Hct') Hy). lia. }
  exists (with_durable (with_mem (mkNode (mem n) (Some s) (outbound n) (committed n) (durable n) (installed_snapshot n)) m) d'), d', s.
  split_and!; [|done..|by split; [|apply Hh]|done|exact Hsame|done].
  unfold compact_node. fold j. rewrite Happ. rewrite (proj2 (Z.leb_gt j _)), (proj2 (Z.eqb_neq j 0)) by lia. cbn [orb].
  rewrite <- Hej at 1. rewrite (view_term (mem n) k e Hc Hev). fold s. cbn [mem]. rewrite Em. cbn [with_mem durable]. rewrite Hd, Htail.
  rewrite view_hard, Emh, <- view_hard. fold h. by rewrite Ed.
Qed.
