(* ===== verification/Wire.v ===== *)
(** * The wire protocol

    [src/src/wire.rs]: the 40-byte command frame, the 56-byte report frame, the
    execution event envelope and the Raft batch entry, encoders and decoders.
    A fixed-size array [[u8; N]] is a list of [N] bytes. *)

From S2P Require Import Prelude Types Protocol Bytes.

Abbreviation MSG_LEN := 40%nat.
Abbreviation RAFT_BATCH_HEADER_LEN := 12%nat.
Abbreviation RAFT_BATCH_MAX_COMMANDS := 10000.
Abbreviation REPORT_LEN := 56%nat.
Abbreviation EXECUTION_EVENT_V1_LEN := 88%nat.
Abbreviation EXECUTION_EVENT_LEN := 96%nat.

(** [b"RB01"] and [b"EX01"]. *)
Definition RAFT_BATCH_MAGIC : bytes := [82; 66; 48; 49].
Definition EXECUTION_EVENT_MAGIC : bytes := [69; 88; 48; 49].

Definition side_code (s : Side) : Z := match s with Buy => 0 | Sell => 1 end.
Definition type_code (t : OrderType) : Z := match t with Limit => 0 | Market => 1 end.
Definition tif_code (t : TimeInForce) : Z :=
  match t with Gtc => 0 | Ioc => 1 | Fok => 2 | IocBudget => 3 | FokBudget => 4 end.

Module WireView.

(** [parse]: the first 40 bytes, if there are that many. *)
Definition parse (buf : bytes) : option bytes :=
  if (MSG_LEN <=? length buf)%nat then Some (take MSG_LEN buf) else None.

Definition msg_type (f : bytes) : Z := byte_at 0 f.
Definition instrument (f : bytes) : InstrumentId := u32_at 4 f.
Definition order_id (f : bytes) : OrderId := u64_at 8 f.
Definition price (f : bytes) : Price := u64_at 16 f.
Definition qty (f : bytes) : Qty := u64_at 24 f.
Definition user (f : bytes) : UserId := u64_at 32 f.

Definition side (f : bytes) : Side := match byte_at 1 f with 0 => Buy | _ => Sell end.
Definition order_type (f : bytes) : OrderType := match byte_at 2 f with 1 => Market | _ => Limit end.
Definition tif (f : bytes) : TimeInForce :=
  match byte_at 3 f with
  | 1 => Ioc
  | 2 => Fok
  | 3 => IocBudget
  | 4 => FokBudget
  | _ => Gtc
  end.

Definition to_command (f : bytes) : option Command :=
  match msg_type f with
  | 1 =>
      let order :=
        match order_type f with
        | Market => Order.market (order_id f) (side f) (qty f)
        | Limit => Order.limit (order_id f) (side f) (price f) (qty f)
        end in
      Some (CNew (Order.with_tif (Order.by_user (Order.on order (instrument f)) (user f)) (tif f)))
  | 2 => Some (CCancel (instrument f) (order_id f) (price f))
  | 3 => Some (CModify (instrument f) (order_id f) (price f) (qty f) (user f))
  | 4 => Some (CForceClose (instrument f) (user f) (order_id f) (side f) (qty f))
  | 5 => Some (CHalt (instrument f) (order_id f))
  | 6 => Some (CResume (instrument f) (order_id f))
  | 7 => Some (CHaltUser (instrument f) (user f) (order_id f))
  | 8 => Some (CResumeUser (instrument f) (user f) (order_id f))
  | _ => None
  end.

End WireView.

(** ** Encoders; [out.fill(0)] starts each of them. *)
Definition zeros (n : nat) : bytes := replicate n 0.

Definition encode_new (o : Order) : bytes :=
  let out := splice 0 [1] (zeros MSG_LEN) in
  let out := splice 1 [side_code (o_side o)] out in
  let out := splice 2 [type_code (o_type o)] out in
  let out := splice 3 [tif_code (o_tif o)] out in
  let out := splice 4 (le_bytes 4 (o_instrument o)) out in
  let out := splice 8 (le_bytes 8 (o_id o)) out in
  let out := splice 16 (le_bytes 8 (o_price o)) out in
  let out := splice 24 (le_bytes 8 (o_quantity o)) out in
  splice 32 (le_bytes 8 (o_user o)) out.

Definition encode_cancel (i : InstrumentId) (order_id : OrderId) (cmd_id : Z) : bytes :=
  let out := splice 0 [2] (zeros MSG_LEN) in
  let out := splice 4 (le_bytes 4 i) out in
  let out := splice 8 (le_bytes 8 order_id) out in
  splice 16 (le_bytes 8 cmd_id) out.

Definition encode_modify (i : InstrumentId) (order_id : OrderId) (new_price : Price) (new_qty : Qty)
    (cmd_id : Z) : bytes :=
  let out := splice 0 [3] (zeros MSG_LEN) in
  let out := splice 4 (le_bytes 4 i) out in
  let out := splice 8 (le_bytes 8 order_id) out in
  let out := splice 16 (le_bytes 8 new_price) out in
  let out := splice 24 (le_bytes 8 new_qty) out in
  splice 32 (le_bytes 8 cmd_id) out.

Definition encode_force_close (i : InstrumentId) (user : UserId) (close_order_id : OrderId)
    (close_side : Side) (close_qty : Qty) : bytes :=
  let out := splice 0 [4] (zeros MSG_LEN) in
  let out := splice 1 [side_code close_side] out in
  let out := splice 4 (le_bytes 4 i) out in
  let out := splice 8 (le_bytes 8 close_order_id) out in
  let out := splice 24 (le_bytes 8 close_qty) out in
  splice 32 (le_bytes 8 user) out.

Definition encode_admin (halt : bool) (i : InstrumentId) (cmd_id : Z) : bytes :=
  let out := splice 0 [if halt then 5 else 6] (zeros MSG_LEN) in
  let out := splice 4 (le_bytes 4 i) out in
  splice 8 (le_bytes 8 cmd_id) out.

Definition encode_user_admin (halt : bool) (i : InstrumentId) (user : UserId) (cmd_id : Z) : bytes :=
  let out := splice 0 [if halt then 7 else 8] (zeros MSG_LEN) in
  let out := splice 4 (le_bytes 4 i) out in
  let out := splice 8 (le_bytes 8 cmd_id) out in
  splice 32 (le_bytes 8 user) out.

Definition encode_command (c : Command) : bytes :=
  match c with
  | CNew o => encode_new o
  | CCancel i o c => encode_cancel i o c
  | CModify i o p q c => encode_modify i o p q c
  | CForceClose i u o s q => encode_force_close i u o s q
  | CHalt i c => encode_admin true i c
  | CResume i c => encode_admin false i c
  | CHaltUser i u c => encode_user_admin true i u c
  | CResumeUser i u c => encode_user_admin false i u c
  | CBatch _ => zeros MSG_LEN
  end.

(** ** Raft entries *)
Definition encode_raft_batch (frames : list bytes) : option bytes :=
  if bool_decide (frames = []) || (RAFT_BATCH_MAX_COMMANDS <? Z.of_nat (length frames)) then None
  else
    let header := RAFT_BATCH_MAGIC ++ le_bytes 4 1 ++ le_bytes 4 (wrap32 (Z.of_nat (length frames))) in
    foldl (fun out f => out ≫= fun out => WireView.parse f ≫= fun _ => Some (out ++ f)) (Some header) frames.

(** [chunks_exact]: whole chunks only. *)
Fixpoint chunks_exact (fuel n : nat) (buf : bytes) : list bytes :=
  match fuel with
  | O => []
  | S fuel => if (n <=? length buf)%nat then take n buf :: chunks_exact fuel n (drop n buf) else []
  end.

Definition decode_frame (f : bytes) : option Command := WireView.parse f ≫= WireView.to_command.

Definition decode_raft_entry (payload : bytes) : option (list Command) :=
  if (length payload =? MSG_LEN)%nat then
    WireView.parse payload ≫= fun f => WireView.to_command f ≫= fun c => Some [c]
  else if (length payload <? RAFT_BATCH_HEADER_LEN)%nat ||
          negb (bool_decide (take 4 payload = RAFT_BATCH_MAGIC)) then None
  else
    let version := u32_at 4 payload in
    let count := u32_at 8 payload in
    if negb (version =? 1) || (count =? 0) || (RAFT_BATCH_MAX_COMMANDS <? count) ||
       negb (Z.of_nat (length payload) =? 12 + count * 40) then None
    else
      mapM decode_frame
        (chunks_exact (length payload) MSG_LEN (drop RAFT_BATCH_HEADER_LEN payload)).

(** ** Reports *)

(** The closure [put] of [encode_report]. *)
Definition put_report (ty : Z) (i : InstrumentId) (oid : OrderId) (aux price qty : Z) (side : Z) : bytes :=
  let out := splice 0 [ty] (zeros REPORT_LEN) in
  let out := splice 1 [side] out in
  let out := splice 4 (le_bytes 4 i) out in
  let out := splice 8 (le_bytes 8 oid) out in
  let out := splice 16 (le_bytes 8 aux) out in
  let out := splice 24 (le_bytes 8 price) out in
  splice 32 (le_bytes 8 qty) out.

Definition encode_report (r : ExecReport) : bytes :=
  match r with
  | RAccepted i o => put_report 1 i o 0 0 0 0
  | RTrade i taker maker aggressor price qty maker_fee taker_fee =>
      splice 48 (le_bytes 8 taker_fee) (splice 40 (le_bytes 8 maker_fee)
        (put_report 2 i taker maker price qty (side_code aggressor)))
  | RFilled i o => put_report 3 i o 0 0 0 0
  | RPartiallyFilled i o filled => put_report 4 i o 0 0 filled 0
  | RResting i o => put_report 5 i o 0 0 0 0
  | RCancelled i o => put_report 6 i o 0 0 0 0
  | RRejected i o _ => put_report 7 i o 0 0 0 0
  | RModified i o remaining => put_report 8 i o 0 0 remaining 0
  | RNotFound i o => put_report 9 i o 0 0 0 0
  | RDepthLevel i side level price qty => put_report 10 i 0 level price qty (side_code side)
  | RDepthEnd i bids asks => put_report 11 i 0 (Z.lor bids (Z.shiftl asks 8)) 0 0 0
  | RHalted i => put_report 12 i 0 0 0 0 0
  | RResumed i => put_report 13 i 0 0 0 0 0
  | RUserHalted i user => put_report 14 i 0 user 0 0 0
  | RUserResumed i user => put_report 15 i 0 user 0 0 0
  end.

Record DecodedReport := mkDecoded {
  d_type_code : Z;
  d_maker_fee : Z;
  d_taker_fee : Z;
  d_instrument : InstrumentId;
  d_order_id : OrderId;
  d_aux_id : Z;
  d_price : Price;
  d_qty : Qty;
  d_side : Side
}.

Definition decode_report (buf : bytes) : option DecodedReport :=
  if (REPORT_LEN <=? length buf)%nat then
    let b := take REPORT_LEN buf in
    Some (mkDecoded (byte_at 0 b) (u64_at 40 b) (u64_at 48 b) (u32_at 4 b) (u64_at 8 b) (u64_at 16 b)
            (u64_at 24 b) (u64_at 32 b) (if byte_at 1 b =? 0 then Buy else Sell))
  else None.

(** ** Execution events *)
Record ExecutionEvent := mkEvent {
  ev_raft_group : Z;
  ev_raft_index : Z;
  ev_ordinal : Z;
  ev_target_order_id : OrderId;
  ev_report : DecodedReport
}.

Definition encode_execution_event_for_target (raft_group raft_index ordinal : Z) (target : OrderId)
    (r : ExecReport) : bytes :=
  let out := splice 0 EXECUTION_EVENT_MAGIC (zeros EXECUTION_EVENT_LEN) in
  let out := splice 4 (le_bytes 4 2) out in
  let out := splice 8 (le_bytes 4 raft_group) out in
  let out := splice 16 (le_bytes 8 raft_index) out in
  let out := splice 24 (le_bytes 4 ordinal) out in
  let out := splice 32 (le_bytes 8 target) out in
  splice 40 (encode_report r) out.

Definition target_of (r : ExecReport) : OrderId :=
  match r with
  | RTrade _ taker _ _ _ _ _ _ => taker
  | _ => match decode_report (encode_report r) with Some d => d_order_id d | None => 0 end
  end.

Definition encode_execution_event (raft_group raft_index ordinal : Z) (r : ExecReport) : bytes :=
  encode_execution_event_for_target raft_group raft_index ordinal (target_of r) r.

Definition decode_execution_event (buf : bytes) : option ExecutionEvent :=
  if (EXECUTION_EVENT_V1_LEN <=? length buf)%nat && bool_decide (take 4 buf = EXECUTION_EVENT_MAGIC) then
    let version := u32_at 4 buf in
    let group := u32_at 8 buf in
    let index := u64_at 16 buf in
    let ordinal := u32_at 24 buf in
    match version with
    | 1 => decode_report (slice 32 REPORT_LEN buf) ≫= fun r =>
             Some (mkEvent group index ordinal (d_order_id r) r)
    | 2 => if (EXECUTION_EVENT_LEN <=? length buf)%nat then
             decode_report (slice 40 REPORT_LEN buf) ≫= fun r =>
               Some (mkEvent group index ordinal (u64_at 32 buf) r)
           else None
    | _ => None
    end
  else decode_report buf ≫= fun r => Some (mkEvent 0 0 0 (d_order_id r) r).

(** ** Fingerprints ([src/src/exchange.rs]) *)
Definition fingerprint_reports (rs : list ExecReport) : Z :=
  foldl (fun h r => fnv_from h (encode_report r)) 14695981039346656037 rs.

(** ** What survives the wire *)

(** A new order loses its fill state and its timestamp, and a market order its
    price field: the decoder sets the sentinel price. *)
Definition on_wire (c : Command) : Command :=
  match c with
  | CNew o =>
      CNew (mkOrder (o_id o) (o_instrument o) (o_user o) (o_side o) (o_type o) (o_tif o)
              (match o_type o, o_side o with
               | Limit, _ => o_price o
               | Market, Buy => U64_MAX
               | Market, Sell => 0
               end) (o_quantity o) (o_quantity o) 0)
  | _ => c
  end.

(** A command as the order system builds it with [Order::limit] or [Order::market]. *)
Definition pristine (c : Command) : Prop :=
  match c with
  | CNew o => o_remaining o = o_quantity o /\ o_timestamp o = 0 /\
      (o_type o = Market -> o_price o = match o_side o with Buy => U64_MAX | Sell => 0 end)
  | _ => True
  end.

Definition report_ok (r : ExecReport) : Prop :=
  match r with
  | RAccepted i o | RFilled i o | RResting i o | RCancelled i o | RRejected i o _ | RNotFound i o =>
      is_u32 i /\ is_u64 o
  | RTrade i t m _ p q mf tf =>
      is_u32 i /\ is_u64 t /\ is_u64 m /\ is_u64 p /\ is_u64 q /\ is_u64 mf /\ is_u64 tf
  | RPartiallyFilled i o q | RModified i o q => is_u32 i /\ is_u64 o /\ is_u64 q
  | RDepthLevel i _ l p q => is_u32 i /\ is_u8 l /\ is_u64 p /\ is_u64 q
  | RDepthEnd i b a => is_u32 i /\ is_u8 b /\ is_u8 a
  | RHalted i | RResumed i => is_u32 i
  | RUserHalted i u | RUserResumed i u => is_u32 i /\ is_u64 u
  end.

(** The order a report is addressed to (0 when it is about no order). *)
Definition subject (r : ExecReport) : OrderId :=
  match r with
  | RAccepted _ o | RTrade _ o _ _ _ _ _ _ | RFilled _ o | RPartiallyFilled _ o _ | RResting _ o
  | RCancelled _ o | RRejected _ o _ | RModified _ o _ | RNotFound _ o => o
  | _ => 0
  end.

(** A reject's reason text is not carried. *)
Definition without_reason (r : ExecReport) : ExecReport :=
  match r with RRejected i o _ => RRejected i o EmptyString | _ => r end.

(** Reading the report back from the decoded fields. *)
Definition as_report (d : DecodedReport) : option ExecReport :=
  let i := d_instrument d in
  let o := d_order_id d in
  match d_type_code d with
  | 1 => Some (RAccepted i o)
  | 2 => Some (RTrade i o (d_aux_id d) (d_side d) (d_price d) (d_qty d) (d_maker_fee d) (d_taker_fee d))
  | 3 => Some (RFilled i o)
  | 4 => Some (RPartiallyFilled i o (d_qty d))
  | 5 => Some (RResting i o)
  | 6 => Some (RCancelled i o)
  | 7 => Some (RRejected i o EmptyString)
  | 8 => Some (RModified i o (d_qty d))
  | 9 => Some (RNotFound i o)
  | 10 => Some (RDepthLevel i (d_side d) (d_aux_id d) (d_price d) (d_qty d))
  | 11 => Some (RDepthEnd i (Z.land (d_aux_id d) 255) (Z.shiftr (d_aux_id d) 8))
  | 12 => Some (RHalted i)
  | 13 => Some (RResumed i)
  | 14 => Some (RUserHalted i (d_aux_id d))
  | 15 => Some (RUserResumed i (d_aux_id d))
  | _ => None
  end.

(** ** Lemmas *)
Lemma on_wire_pristine c : pristine c -> on_wire c = c.
Proof.
  destruct c as [o| | | | | | | |]; try done. destruct o as [a b c d t e p q r ts]. unfold pristine, on_wire. cbn.
  intros (-> & -> & Hp). destruct t; [done|]. by rewrite Hp by done.
Qed.

Lemma length_encode_command c : length (encode_command c) = MSG_LEN.
Proof. by destruct c. Qed.

Lemma length_encode_report r : length (encode_report r) = REPORT_LEN.
Proof. by destruct r. Qed.

Lemma code_bytes s t f : is_byte (side_code s) /\ is_byte (type_code t) /\ is_byte (tif_code f).
Proof. unfold is_byte. by destruct s, t, f. Qed.

Lemma flag_byte (b : bool) x y : is_byte x -> is_byte y -> is_byte (if b then x else y).
Proof. by destruct b. Qed.

#[export] Hint Extern 1 (is_byte (side_code _)) => apply (code_bytes _ Limit Gtc) : bytes.
#[export] Hint Extern 1 (is_byte (type_code _)) => apply (code_bytes Buy _ Gtc) : bytes.
#[export] Hint Extern 1 (is_byte (tif_code _)) => apply (code_bytes Buy Limit _) : bytes.
#[export] Hint Resolve flag_byte : bytes.

Lemma encode_command_bytes c : Forall is_byte (encode_command c).
Proof.
  destruct c as [[]| | | | | | | |]; unfold encode_command, encode_new, encode_cancel, encode_modify,
    encode_force_close, encode_admin, encode_user_admin, zeros; cbv zeta; auto 20 with bytes.
Qed.

(** The slices of a frame are the fields' bytes, by computation. *)
Ltac frame_fields :=
  unfold u32_at, u64_at;
  repeat match goal with
  | |- context [le_value (slice ?o ?n ?f)] =>
      let bs := eval cbv beta iota zeta delta -[Z.modulo Z.div Z.add Z.mul le_value] in (slice o n f) in
      lazymatch bs with
      | [?x mod 256; _; _; _] => change (slice o n f) with (le_bytes 4 x)
      | [0; 0; 0; 0; 0; 0; 0; 0] => change (slice o n f) with (le_bytes 8 0)
      | [?x mod 256; _; _; _; _; _; _; _] => change (slice o n f) with (le_bytes 8 x)
      end
  end.

Ltac widths := repeat match goal with H : _ /\ _ |- _ => destruct H end.

Ltac decode_fields :=
  frame_fields; widths;
  rewrite ?le_value_u64, ?le_value_u32 by (first [assumption | unfold_width; lia]).

Lemma to_command_encode c : flat_ok c -> WireView.to_command (encode_command c) = Some (on_wire c).
Proof.
  intros Hok. destruct c as [o|i o c|i o p q c|i u o s q|i c|i c|i u c|i u c|]; cbn [flat_ok] in Hok; try done;
    unfold encode_command, WireView.to_command, WireView.instrument, WireView.order_id, WireView.price,
      WireView.qty, WireView.user.
  - unfold order_ok in Hok. destruct o as [id inst u s t f p q r ts]. cbn in Hok.
    decode_fields. by destruct s, t, f.
  - by decode_fields.
  - by decode_fields.
  - decode_fields. by destruct s.
  - by decode_fields.
  - by decode_fields.
  - by decode_fields.
  - by decode_fields.
Qed.

Lemma parse_app f rest : length f = MSG_LEN -> WireView.parse (f ++ rest) = Some f.
Proof.
  intros H. unfold WireView.parse. rewrite (proj2 (Nat.leb_le _ _)) by (rewrite length_app; lia).
  by rewrite <-H, take_app_length.
Qed.

Lemma parse_exact f : length f = MSG_LEN -> WireView.parse f = Some f.
Proof. intros H. rewrite <-(app_nil_r f) at 1. by apply parse_app. Qed.

Lemma decode_frame_encode c : flat_ok c -> decode_frame (encode_command c) = Some (on_wire c).
Proof.
  intros Hok. unfold decode_frame. rewrite parse_exact by apply length_encode_command. by apply to_command_encode.
Qed.

(** The decoded fields of an encoded report. *)
Definition fields (r : ExecReport) : DecodedReport :=
  let plain ty i o q := mkDecoded ty 0 0 i o 0 0 q Buy in
  match r with
  | RAccepted i o => plain 1 i o 0
  | RTrade i t m s p q mf tf => mkDecoded 2 mf tf i t m p q s
  | RFilled i o => plain 3 i o 0
  | RPartiallyFilled i o q => plain 4 i o q
  | RResting i o => plain 5 i o 0
  | RCancelled i o => plain 6 i o 0
  | RRejected i o _ => plain 7 i o 0
  | RModified i o q => plain 8 i o q
  | RNotFound i o => plain 9 i o 0
  | RDepthLevel i s l p q => mkDecoded 10 0 0 i 0 l p q s
  | RDepthEnd i b a => mkDecoded 11 0 0 i 0 (b + 256 * a) 0 0 Buy
  | RHalted i => plain 12 i 0 0
  | RResumed i => plain 13 i 0 0
  | RUserHalted i u => mkDecoded 14 0 0 i 0 u 0 0 Buy
  | RUserResumed i u => mkDecoded 15 0 0 i 0 u 0 0 Buy
  end.

Lemma depth_disjoint b a : is_u8 b -> Z.land b (256 * a) = 0.
Proof.
  intros Hb. apply Z.bits_inj'. intros n Hn. rewrite Z.land_spec, Z.bits_0.
  destruct (Z.lt_ge_cases n 8) as [H|H].
  - change 256 with (2 ^ 8). rewrite (Z.mul_comm (2 ^ 8)), Z.mul_pow2_bits_low by lia. apply andb_false_r.
  - rewrite <-(Z.mod_small b 256) by (unfold is_u8 in Hb; lia). change 256 with (2 ^ 8).
    by rewrite Z.mod_pow2_bits_high by lia.
Qed.

Lemma depth_aux b a : is_u8 b -> Z.lor b (Z.shiftl a 8) = b + 256 * a.
Proof.
  intros Hb. rewrite Z.shiftl_mul_pow2 by lia. change (2 ^ 8) with 256. rewrite (Z.mul_comm a).
  by rewrite <-Z.lxor_lor, <-Z.add_nocarry_lxor by (by apply depth_disjoint).
Qed.

Lemma decode_report_app r rest : decode_report (encode_report r ++ rest) = decode_report (encode_report r).
Proof.
  pose proof (length_encode_report r) as L. unfold decode_report.
  rewrite length_app, L. rewrite !(proj2 (Nat.leb_le _ _)) by lia.
  by rewrite (take_ge (encode_report r)), <-L, take_app_length by lia.
Qed.

Lemma decode_report_encode r : report_ok r -> decode_report (encode_report r) = Some (fields r).
Proof.
  intros Hok. unfold decode_report. rewrite (take_ge (encode_report r)) by (by rewrite length_encode_report).
  rewrite length_encode_report. cbn [Nat.leb].
  destruct r as [| | | | | | | | |i s| | | | |]; cbn [report_ok] in Hok; unfold encode_report, put_report, fields;
    rewrite ?depth_aux by tauto; decode_fields; try done.
  - by destruct aggressor.
  - by destruct s.
Qed.

Lemma as_report_fields r : report_ok r -> as_report (fields r) = Some (without_reason r).
Proof.
  intros Hok. destruct r as [| | | | | | | | | |i b a| | | |]; try done. cbn in Hok. unfold as_report, fields. cbn.
  unfold_width. change 255 with (Z.ones 8). rewrite Z.land_ones, Z.shiftr_div_pow2 by lia.
  change (2 ^ 8) with 256. rewrite (Z.mul_comm 256), Z_mod_plus_full, Z_div_plus_full, Z.mod_small, Z.div_small by lia.
  done.
Qed.

Lemma target_of_subject r : report_ok r -> target_of r = subject r.
Proof.
  intros Hok. destruct r; try done; unfold target_of; by rewrite decode_report_encode by done.
Qed.

Lemma event_frame g idx ord t r :
  let e := encode_execution_event_for_target g idx ord t r in
  length e = EXECUTION_EVENT_LEN /\ take 4 e = EXECUTION_EVENT_MAGIC /\
  slice 4 4 e = le_bytes 4 2 /\ slice 8 4 e = le_bytes 4 g /\ slice 16 8 e = le_bytes 8 idx /\
  slice 24 4 e = le_bytes 4 ord /\ slice 32 8 e = le_bytes 8 t /\
  slice 40 REPORT_LEN e = encode_report r.
Proof. destruct r; repeat split. Qed.

Lemma decode_event_encode g idx ord t r :
  is_u32 g -> is_u64 idx -> is_u32 ord -> is_u64 t -> report_ok r ->
  decode_execution_event (encode_execution_event_for_target g idx ord t r) =
    Some (mkEvent g idx ord t (fields r)).
Proof.
  intros Hg Hi Ho Ht Hr. destruct (event_frame g idx ord t r) as (L & M & E4 & E8 & E16 & E24 & E32 & E40).
  unfold decode_execution_event, u32_at, u64_at. rewrite L, M, E4, E8, E16, E24, E32, E40.
  rewrite decode_report_encode by done. rewrite !le_value_u32, !le_value_u64 by (done || unfold_width; lia). done.
Qed.

(** ** Raft entries *)
Lemma encode_frames out frames : Forall (fun f => length f = MSG_LEN) frames ->
  foldl (fun out f => out ≫= fun out => WireView.parse f ≫= fun _ => Some (out ++ f)) (Some out) frames =
    Some (out ++ concat frames).
Proof.
  intros H. revert out. induction H as [|f fs Hf Hfs IH]; intros out; cbn; [by rewrite app_nil_r|].
  rewrite parse_exact by done. cbn. by rewrite IH, (assoc_L (++)).
Qed.

Lemma chunks_frames frames fuel : Forall (fun f => length f = MSG_LEN) frames ->
  (length frames < fuel)%nat -> chunks_exact fuel MSG_LEN (concat frames) = frames.
Proof.
  intros H. revert fuel. induction H as [|f fs Hf Hfs IH]; intros [|fuel] Hl; cbn [length] in Hl; try lia; [done|].
  cbn [concat chunks_exact]. rewrite (proj2 (Nat.leb_le _ _)) by (rewrite length_app; lia).
  by rewrite take_app_length', drop_app_length', IH by lia.
Qed.

Lemma decode_frames cs : Forall flat_ok cs -> mapM decode_frame (encode_command <$> cs) = Some (on_wire <$> cs).
Proof.
  induction 1 as [|c cs Hc Hcs IH]; [done|]. cbn. rewrite decode_frame_encode by done. cbn. by rewrite IH.
Qed.


Lemma raft_batch_bytes cs : Forall flat_ok cs -> 1 <= Z.of_nat (length cs) <= RAFT_BATCH_MAX_COMMANDS ->
  encode_raft_batch (encode_command <$> cs) =
    Some (RAFT_BATCH_MAGIC ++ le_bytes 4 1 ++ le_bytes 4 (Z.of_nat (length cs)) ++ concat (encode_command <$> cs)).
Proof.
  intros Hcs Hlen. unfold encode_raft_batch. rewrite length_fmap, bool_decide_false.
  2: { destruct cs; [cbn in Hlen; lia|done]. }
  rewrite (proj2 (Z.ltb_ge _ _)) by lia. cbn [orb].
  rewrite encode_frames by (apply Forall_fmap, Forall_true; intros c; apply length_encode_command).
  unfold wrap32. by rewrite Z.mod_small, <-!(assoc_L (++)) by lia.
Qed.

Lemma decode_raft_payload n body frames : 1 <= Z.of_nat n <= RAFT_BATCH_MAX_COMMANDS ->
  body = concat frames -> length frames = n -> Forall (fun f : bytes => length f = MSG_LEN) frames ->
  decode_raft_entry (RAFT_BATCH_MAGIC ++ le_bytes 4 1 ++ le_bytes 4 (Z.of_nat n) ++ body) =
    mapM decode_frame frames.
Proof.
  intros Hn -> Hl Hf. pose proof (length_frames _ _ Hf) as HL. unfold decode_raft_entry.
  set (p := _ ++ _) at 1. assert (Hp : length p = (12 + 40 * n)%nat).
  { unfold p. rewrite !length_app, !length_le_bytes, HL, Hl. cbn. lia. }
  fold p. rewrite Hp. rewrite (proj2 (Nat.eqb_neq _ _)) by lia. rewrite (proj2 (Nat.ltb_ge _ _)) by lia.
  change (take 4 p) with RAFT_BATCH_MAGIC. rewrite bool_decide_true by done. cbn [orb negb].
  change (u32_at 4 p) with 1. unfold u32_at. change (slice 8 4 p) with (le_bytes 4 (Z.of_nat n)).
  rewrite le_value_u32 by (unfold_width; lia). change (drop RAFT_BATCH_HEADER_LEN p) with (concat frames).
  rewrite chunks_frames; [|exact Hf|lia].
  rewrite (proj2 (Z.eqb_neq _ 0)) by lia. rewrite (proj2 (Z.ltb_ge _ _)) by lia.
  by rewrite (proj2 (Z.eqb_eq (Z.of_nat (12 + 40 * n)) _)) by lia.
Qed.

Lemma chunks_length k buf fuel : length buf = (MSG_LEN * k)%nat -> (k <= fuel)%nat ->
  length (chunks_exact fuel MSG_LEN buf) = k.
Proof.
  revert buf fuel. induction k as [|k IH]; intros buf fuel Hb Hk.
  - apply nil_length_inv in Hb as ->. by destruct fuel.
  - destruct fuel as [|fuel]; [lia|]. cbn [chunks_exact]. rewrite (proj2 (Nat.leb_le _ _)) by lia.
    cbn [length]. f_equal. apply IH; [rewrite length_drop|]; lia.
Qed.

Lemma decode_raft_size payload cs : decode_raft_entry payload = Some cs ->
  1 <= Z.of_nat (length cs) <= RAFT_BATCH_MAX_COMMANDS.
Proof.
  unfold decode_raft_entry. repeat case_if; intros Hd; try done.
  - destruct (WireView.parse payload); [|done]. cbn in Hd. destruct (WireView.to_command _); [|done].
    injection Hd as <-. cbn. lia.
  - apply length_mapM in Hd. apply Nat.ltb_ge in H. rewrite (chunks_length (Z.to_nat (u32_at 8 payload))) in Hd; [lia| |].
    + rewrite length_drop. lia.
    + lia.
Qed.

(** C40: Wire round trip.  The frame of any single command, at the head of any
    receive buffer, decodes to that command with its id and routing key; a new
    order comes back whole when it is as [Order::limit]/[Order::market] build
    it (what is lost otherwise is exactly [on_wire]).  A legacy one-command
    Raft entry is read the same way. *)
Theorem command_round_trip (c : Command) (rest : bytes) :
  flat_ok c ->
  decode_frame (encode_command c ++ rest) = Some (on_wire c) /\
  decode_raft_entry (encode_command c) = Some [on_wire c] /\
  (pristine c -> on_wire c = c) /\
  Command.id (on_wire c) = Command.id c /\ Command.instrument (on_wire c) = Command.instrument c.
Proof.
  intros Hok. pose proof (length_encode_command c) as L. split_and!.
  - unfold decode_frame. rewrite parse_app by done. by apply to_command_encode.
  - unfold decode_raft_entry. rewrite L, parse_exact by done. cbn. by rewrite to_command_encode.
  - apply on_wire_pristine.
  - by destruct c.
  - by destruct c.
Qed.

Lemma command_round_trip_witness :
  decode_frame (encode_command (CNew (Order.limit 7 Sell 100 3)) ++ [1; 2]) =
    Some (CNew (Order.limit 7 Sell 100 3)).
Proof.
  destruct (command_round_trip (CNew (Order.limit 7 Sell 100 3)) [1; 2]) as (-> & _ & -> & _); [|done|done].
  unfold flat_ok, order_ok. cbn. unfold_width. lia.
Defined.

(** Event round trip.  The 96-byte event envelope of a report, with any
    Raft position and target order, decodes to that position, target and
    report; the default target is the order the report is addressed to; a bare
    report frame decodes as an event of position 0; and the decoded fields
    determine the report up to the text of a reject reason. *)
Theorem event_round_trip (g idx ord target : Z) (r : ExecReport) :
  is_u32 g -> is_u64 idx -> is_u32 ord -> is_u64 target -> report_ok r ->
  exists d, decode_report (encode_report r) = Some d /\
    decode_execution_event (encode_execution_event_for_target g idx ord target r) =
      Some (mkEvent g idx ord target d) /\
    encode_execution_event g idx ord r = encode_execution_event_for_target g idx ord (subject r) r /\
    decode_execution_event (encode_report r) = Some (mkEvent 0 0 0 (subject r) d) /\
    as_report d = Some (without_reason r).
Proof.
  intros Hg Hi Ho Ht Hr. exists (fields r). split_and!.
  - by apply decode_report_encode.
  - by apply decode_event_encode.
  - unfold encode_execution_event. by rewrite target_of_subject.
  - unfold decode_execution_event. rewrite length_encode_report. cbn [Nat.leb andb].
    rewrite decode_report_encode by done. cbn. do 2 f_equal. by destruct r.
  - by apply as_report_fields.
Qed.

Lemma event_round_trip_witness :
  exists d, decode_execution_event (encode_execution_event_for_target 3 99 1 12 (RTrade 2 11 12 Buy 100 5 1 2)) =
    Some (mkEvent 3 99 1 12 d) /\ as_report d = Some (RTrade 2 11 12 Buy 100 5 1 2).
Proof.
  destruct (event_round_trip 3 99 1 12 (RTrade 2 11 12 Buy 100 5 1 2)) as (d & _ & E & _ & _ & A);
    [unfold_width; lia..|cbn; unfold_width; lia|].
  exists d. by split.
Defined.

(** Raft batches.  One to 10,000 command frames are encoded into one entry
    and decoded to exactly these commands, in order; an empty or an oversized
    batch is refused by the encoder, and whatever entry the decoder accepts
    has between one and 10,000 commands. *)
Theorem raft_batch_round_trip (cs : list Command) :
  Forall flat_ok cs ->
  match encode_raft_batch (encode_command <$> cs) with
  | Some payload => 1 <= Z.of_nat (length cs) <= RAFT_BATCH_MAX_COMMANDS /\
      decode_raft_entry payload = Some (on_wire <$> cs)
  | None => cs = [] \/ RAFT_BATCH_MAX_COMMANDS < Z.of_nat (length cs)
  end /\
  (forall payload cs', decode_raft_entry payload = Some cs' ->
     1 <= Z.of_nat (length cs') <= RAFT_BATCH_MAX_COMMANDS).
Proof.
  intros Hcs. split; [|apply decode_raft_size]. destruct (decide (1 <= Z.of_nat (length cs) <= RAFT_BATCH_MAX_COMMANDS)) as [Hl|Hl].
  - rewrite raft_batch_bytes by done. split; [done|].
    rewrite (decode_raft_payload _ _ (encode_command <$> cs)); rewrite ?length_fmap; try done.
    + by apply decode_frames.
    + apply Forall_fmap, Forall_true. intros c. apply length_encode_command.
  - unfold encode_raft_batch. rewrite length_fmap. destruct cs as [|c cs]; [by left|].
    rewrite (proj2 (Z.ltb_lt _ _)) by (cbn [length] in *; lia). rewrite orb_true_r. right. cbn [length] in *. lia.
Qed.

Lemma raft_batch_round_trip_witness :
  (encode_raft_batch (encode_command <$> [CHalt 1 7; CCancel 1 5 8]) ≫= decode_raft_entry) =
    Some [CHalt 1 7; CCancel 1 5 8].
Proof.
  destruct (raft_batch_round_trip [CHalt 1 7; CCancel 1 5 8]) as [H _].
  - repeat constructor; unfold_width; lia.
  - destruct (encode_raft_batch _) as [p|]; [apply H|exfalso; destruct H as [H|H]; [done|cbn in H; lia]].
Defined.
