(* ===== verification/Queue.v ===== *)
(** * Order ingress queues

    [src/src/order_queue.rs]: the route of a category to a Kafka topic and
    partition, and the envelope that carries a wire frame through a topic.
    [usize] is 64 bits, [u32] and [i32] are kept at their width. *)

From S2P Require Import Prelude Types Bytes Protocol Wire.

Definition QUEUE_MAGIC : bytes := [84; 81; 48; 49].
Abbreviation ENVELOPE_LEN := 56%nat.

Record QueueRoute := mkRoute { topic : string; partition : Z; q_version : Z }.

Record QueueRouter := mkQueue { topics : list string; partitions_per_topic : Z; router_version : Z }.

Module QueueRouter.

Definition new (topics : list string) (partitions_per_topic version : Z) : outcome QueueRouter :=
  assert_that (negb (bool_decide (topics = []))) "at least one Kafka queue topic is required" (
  assert_that (0 <? partitions_per_topic) "Kafka topics need partitions" (
  Ret (mkQueue topics partitions_per_topic version))).

Definition partition_count (r : QueueRouter) : Z :=
  wrap64 (Z.of_nat (length (topics r)) * partitions_per_topic r).

(** [self.topics.len() as u32] *)
Definition topic_count (r : QueueRouter) : Z := wrap32 (Z.of_nat (length (topics r))).

(** [partition as i32] *)
Definition as_i32 (z : Z) : Z := let w := wrap32 z in if w <? 2 ^ 31 then w else w - 2 ^ 32.

(** Remainder by a topic count of zero panics. *)
Definition route (r : QueueRouter) (category_id : Z) : outcome QueueRoute :=
  let n := topic_count r in
  assert_that (negb (n =? 0)) "attempt to calculate the remainder with a divisor of zero" (
  let t := category_id mod n in
  let p := (category_id / n) mod partitions_per_topic r in
  let! name := expect (topics r !! Z.to_nat t) "index out of bounds" in
  Ret (mkRoute name (as_i32 p) (router_version r))).

Definition partition_index (r : QueueRouter) (category_id : Z) : outcome Z :=
  let n := topic_count r in
  assert_that (negb (n =? 0)) "attempt to calculate the remainder with a divisor of zero" (
  let t := category_id mod n in
  let p := (category_id / n) mod partitions_per_topic r in
  Ret (wrap64 (wrap64 (t * partitions_per_topic r) + p))).

End QueueRouter.

(** ** Envelopes *)
Definition encode_envelope (user route_version : Z) (frame : bytes) : bytes :=
  let out := zeros ENVELOPE_LEN in
  let out := splice 0 QUEUE_MAGIC out in
  let out := splice 4 (le_bytes 4 route_version) out in
  let out := splice 8 (le_bytes 8 user) out in
  splice 16 frame out.

Record QueueEnvelope := mkEnvelope { e_user : Z; e_route_version : Z; e_frame : bytes }.

Module QueueEnvelope.

Definition decode (bs : bytes) : option QueueEnvelope :=
  if negb (length bs =? ENVELOPE_LEN)%nat then None
  else if negb (bool_decide (take 4 bs = QUEUE_MAGIC)) then None
  else
    let frame := drop 16 bs in
    match WireView.parse frame with
    | None => None
    | Some _ => Some (mkEnvelope (u64_at 8 bs) (u32_at 4 bs) frame)
    end.

Definition instrument (e : QueueEnvelope) : InstrumentId :=
  match WireView.parse (e_frame e) with Some f => WireView.instrument f | None => 0 end.

End QueueEnvelope.

(** ** Lemmas *)
Lemma new_fields ts n v r : QueueRouter.new ts n v = Ret r ->
  r = mkQueue ts n v /\ 0 < Z.of_nat (length ts) /\ 0 < n.
Proof.
  unfold QueueRouter.new, assert_that. case_bool_decide; [done|]. cbn.
  destruct (0 <? n) eqn:E; [|done]. zbool. intros [= <-]. destruct ts; [done|]. cbn. split_and!; [done | lia | done].
Qed.

Section routes.

Context (ts : list string) (n v : Z) (r : QueueRouter).
Context (Hnew : QueueRouter.new ts n v = Ret r) (Hts : Z.of_nat (length ts) < 2 ^ 32) (Hn : n <= 2 ^ 31).

Lemma topic_count_len : QueueRouter.topic_count r = Z.of_nat (length ts).
Proof using Hnew Hts.
  destruct (new_fields _ _ _ _ Hnew) as (-> & ? & _). apply wrap32_small. unfold is_u32. cbn in *. lia.
Qed.

Lemma as_i32_small z : 0 <= z < 2 ^ 31 -> QueueRouter.as_i32 z = z.
Proof using.
  intros H. clear -H. unfold QueueRouter.as_i32. rewrite wrap32_small by (unfold is_u32; lia). cbv zeta.
  destruct (z <? 2 ^ 31) eqn:E; zbool; lia.
Qed.

(** Both routines reduce to one division. *)
Lemma route_cases c : exists t p name,
  c mod Z.of_nat (length ts) = t /\ (c / Z.of_nat (length ts)) mod n = p /\
  0 <= t < Z.of_nat (length ts) /\ 0 <= p < n /\ ts !! Z.to_nat t = Some name /\
  QueueRouter.route r c = Ret (mkRoute name p v) /\ QueueRouter.partition_index r c = Ret (t * n + p).
Proof using Hnew Hts Hn.
  destruct (new_fields _ _ _ _ Hnew) as (E & Hl & Hpos).
  pose proof (Z.mod_pos_bound c _ Hl). pose proof (Z.mod_pos_bound (c / Z.of_nat (length ts)) n Hpos).
  destruct (lookup_lt_is_Some_2 ts (Z.to_nat (c mod Z.of_nat (length ts)))) as [name Hname]; [lia|].
  exists (c mod Z.of_nat (length ts)), ((c / Z.of_nat (length ts)) mod n), name.
  unfold QueueRouter.route, QueueRouter.partition_index. rewrite topic_count_len. subst r. cbn [topics partitions_per_topic router_version].
  rewrite (proj2 (Z.eqb_neq _ _)) by lia. cbn [negb assert_that]. rewrite Hname. cbn [expect obind].
  rewrite as_i32_small by lia. split_and!; try done; try lia.
  set (t := c mod _) in *. set (p := _ mod n) in *.
  assert (0 <= t * n <= 4294967295 * 2147483648) by nia.
  rewrite (wrap64_small (t * n)) by (unfold is_u64; nia). by rewrite wrap64_small by (unfold is_u64; nia).
Qed.

End routes.

(** A category has one topic of the router and one partition of it, the flat
    partition index stays below the partition count, and two categories share
    an index exactly when they share topic position and partition. *)
Theorem queue_routes (ts : list string) (n v : Z) (r : QueueRouter) (c : Z) :
  QueueRouter.new ts n v = Ret r -> Z.of_nat (length ts) < 2 ^ 32 -> n <= 2 ^ 31 ->
  exists q t i, QueueRouter.route r c = Ret q /\ QueueRouter.partition_index r c = Ret i /\
    ts !! t = Some (topic q) /\ 0 <= partition q < n /\ q_version q = v /\
    i = Z.of_nat t * n + partition q /\ 0 <= i < QueueRouter.partition_count r /\
    (forall c' q', QueueRouter.route r c' = Ret q' ->
       QueueRouter.partition_index r c' = Ret i <->
       c' mod Z.of_nat (length ts) = Z.of_nat t /\ partition q' = partition q).
Proof.
  intros Hnew Hts Hn. destruct (new_fields _ _ _ _ Hnew) as (Er & Hl & Hpos).
  destruct (route_cases ts n v r Hnew Hts Hn c) as (t & p & name & _ & _ & Ht & Hp & Hname & -> & ->).
  exists (mkRoute name p v), (Z.to_nat t), (t * n + p). cbn [topic partition q_version].
  rewrite Z2Nat.id by lia. split_and!; try done; try nia.
  - subst r. unfold QueueRouter.partition_count. cbn [topics partitions_per_topic].
    rewrite wrap64_small by (unfold is_u64; nia). nia.
  - intros c' q'. destruct (route_cases ts n v r Hnew Hts Hn c') as (t' & p' & name' & -> & _ & Ht' & Hp' & _ & -> & ->).
    intros [= <-]. cbn [partition]. split; [|by intros [-> ->]]. intros [= E].
    assert (t' = t) as -> by nia. split; [done | lia].
Qed.

Lemma queue_routes_witness :
  exists r q t i, QueueRouter.new ["g0"; "g1"; "g2"]%string 64 7 = Ret r /\ QueueRouter.route r 3 = Ret q /\
    QueueRouter.partition_index r 3 = Ret i /\ i = Z.of_nat t * 64 + partition q.
Proof.
  destruct (queue_routes ["g0"; "g1"; "g2"]%string 64 7 (mkQueue ["g0"; "g1"; "g2"]%string 64 7) 3 eq_refl)
    as (q & t & i & H1 & H2 & _ & _ & _ & H3 & _); [done | done |].
  exists (mkQueue ["g0"; "g1"; "g2"]%string 64 7), q, t, i. by split_and!.
Defined.

Lemma encode_envelope_bytes user version frame : length frame = MSG_LEN ->
  encode_envelope user version frame = QUEUE_MAGIC ++ le_bytes 4 version ++ le_bytes 8 user ++ frame.
Proof.
  intros Hf. unfold encode_envelope, zeros.
  change (replicate 56 0) with ([] ++ replicate 56 0).
  rewrite (splice_zeros 0 [] QUEUE_MAGIC) by (done || (cbn; lia)). rewrite app_nil_l.
  rewrite (splice_zeros 4 QUEUE_MAGIC) by (rewrite ?length_le_bytes; done || (cbn; lia)).
  rewrite (splice_zeros 8 (QUEUE_MAGIC ++ le_bytes 4 version)) by (rewrite ?length_app, ?length_le_bytes; done || (cbn; lia)).
  rewrite (splice_zeros 16 ((QUEUE_MAGIC ++ le_bytes 4 version) ++ le_bytes 8 user))
    by (rewrite ?length_app, ?length_le_bytes, ?Hf; done || (cbn; lia)).
  rewrite !length_le_bytes, Hf. cbn [length QUEUE_MAGIC Nat.sub replicate]. by rewrite app_nil_r, <- !(assoc_L (++)).
Qed.

(** The envelope codec is exact both ways: decoding an encoded envelope
    returns its user, route version and frame and the frame's instrument, and
    whatever bytes decode are the encoding of what they decode to. *)
Theorem envelope_round_trip (user version : Z) (frame bs : bytes) (e : QueueEnvelope) :
  is_u64 user -> is_u32 version -> length frame = MSG_LEN -> Forall is_byte bs ->
  QueueEnvelope.decode (encode_envelope user version frame) = Some (mkEnvelope user version frame) /\
  QueueEnvelope.instrument (mkEnvelope user version frame) = WireView.instrument frame /\
  (QueueEnvelope.decode bs = Some e -> encode_envelope (e_user e) (e_route_version e) (e_frame e) = bs).
Proof.
  intros Hu Hv Hf Hbs.
  assert (Hparse : forall f : bytes, length f = MSG_LEN -> WireView.parse f = Some f).
  { intros f Ef. unfold WireView.parse. rewrite Ef. cbn [Nat.leb]. by rewrite take_ge by lia. }
  split_and!.
  - rewrite encode_envelope_bytes by done. unfold QueueEnvelope.decode.
    rewrite !length_app, !length_le_bytes, Hf. cbn [length QUEUE_MAGIC Nat.add Nat.eqb negb].
    rewrite bool_decide_true by done. cbn [negb].
    change (drop 16 _) with (drop 12 (le_bytes 4 version ++ le_bytes 8 user ++ frame)).
    change (u64_at 8 _) with (u64_at 4 (le_bytes 4 version ++ le_bytes 8 user ++ frame)).
    change (u32_at 4 _) with (u32_at 0 (le_bytes 4 version ++ le_bytes 8 user ++ frame)).
    rewrite (assoc_L (++)), drop_app_length', Hparse by (rewrite ?length_app, ?length_le_bytes; done).
    rewrite <- (assoc_L (++)). unfold u64_at, u32_at. do 2 f_equal.
    + pose proof (slice_app_r 0 8 (le_bytes 4 version) (le_bytes 8 user ++ frame)) as E.
      pose proof (slice_here (le_bytes 8 user) frame) as E'. rewrite length_le_bytes in E, E'.
      rewrite Nat.add_0_r in E. rewrite E, E'. by apply le_value_u64.
    + pose proof (slice_here (le_bytes 4 version) (le_bytes 8 user ++ frame)) as E.
      rewrite length_le_bytes in E. rewrite E. by apply le_value_u32.
  - unfold QueueEnvelope.instrument. cbn [e_frame]. by rewrite Hparse.
  - unfold QueueEnvelope.decode. destruct (negb (_ =? _)%nat) eqn:E1; [done|].
    destruct (negb (bool_decide _)) eqn:E2; [done|]. apply negb_false_iff, Nat.eqb_eq in E1.
    apply negb_false_iff, bool_decide_eq_true in E2.
    rewrite Hparse by (rewrite length_drop; lia). intros [= <-]. cbn [e_user e_route_version e_frame].
    rewrite encode_envelope_bytes by (rewrite length_drop; lia). rewrite <- E2. unfold u32_at, u64_at.
    pose proof (le_bytes_value (slice 4 4 bs)) as H4. pose proof (le_bytes_value (slice 8 8 bs)) as H8.
    rewrite length_slice in H4, H8 by lia. rewrite H4, H8 by (by apply Forall_take, Forall_drop).
    unfold slice. rewrite <- (take_drop 4 bs) at 5. f_equal. rewrite <- (take_drop 4 (drop 4 bs)) at 2.
    rewrite drop_drop. f_equal. change (4 + 4)%nat with 8%nat. rewrite <- (take_drop 8 (drop 8 bs)) at 2.
    by rewrite drop_drop.
Qed.

Lemma envelope_round_trip_witness :
  QueueEnvelope.decode (encode_envelope 100000 11 (zeros MSG_LEN)) = Some (mkEnvelope 100000 11 (zeros MSG_LEN)).
Proof.
  apply (envelope_round_trip 100000 11 (zeros MSG_LEN) [] (mkEnvelope 0 0 [])).
  - unfold_width; lia.
  - unfold_width; lia.
  - reflexivity.
  - apply Forall_nil_2.
Defined.
