(* ===== verification/Outbox.v ===== *)
(** * The execution outbox

    [src/src/execution_outbox.rs]: the append-only log of execution reports
    that the publisher forwards to the broker, its rotation into segments, the
    trimming of its tail on recovery and the publisher's cursor.  A segment file
    is named by its number (segment 0 is the base path): file names themselves
    are not modelled.  I/O errors of the operating system are not modelled, the
    errors the code itself raises are.  Whether the flush interval has elapsed
    is an argument ([due]). *)

From S2P Require Import Prelude Types Bytes Protocol Wire.

Definition OUTBOX_HEADER : bytes := [84; 67; 69; 88; 1; 0; 0; 0].
Definition CURSOR_HEADER : bytes := [84; 67; 69; 67; 1; 0; 0; 0].
Abbreviation OUTBOX_RECORD_LEN := 80%nat.
Abbreviation CURSOR_LEN := 24%nat.

Record OutboxRecord := mkOut {
  raft_group : Z;
  raft_index : Z;
  ordinal : Z;
  report_frame : bytes
}.

Module OutboxRecord.

(** [decode_report] never fails on a frame of its length. *)
Definition target_order_ids (r : OutboxRecord) : outcome (list OrderId) :=
  let! report := expect (decode_report (report_frame r)) "valid outbox report" in
  Ret (if (d_type_code report =? 2) && negb (d_aux_id report =? d_order_id report) then
         [d_order_id report; d_aux_id report]
       else [d_order_id report]).

Definition kafka_payload_for (r : OutboxRecord) (target_order_id : OrderId) : bytes :=
  let payload := splice 0 EXECUTION_EVENT_MAGIC (zeros EXECUTION_EVENT_LEN) in
  let payload := splice 4 (le_bytes 4 2) payload in
  let payload := splice 8 (le_bytes 4 (raft_group r)) payload in
  let payload := splice 16 (le_bytes 8 (raft_index r)) payload in
  let payload := splice 24 (le_bytes 4 (ordinal r)) payload in
  let payload := splice 32 (le_bytes 8 target_order_id) payload in
  splice 40 (report_frame r) payload.

(** [target_order_ids()[0]] *)
Definition first_target (r : OutboxRecord) : outcome OrderId :=
  let! ids := target_order_ids r in expect (head ids) "index out of bounds".

Definition kafka_payload (r : OutboxRecord) : outcome bytes :=
  let! t := first_target r in Ret (kafka_payload_for r t).

(** [to_be_bytes] of the target. *)
Definition kafka_key (r : OutboxRecord) : outcome bytes :=
  let! t := first_target r in Ret (rev (le_bytes 8 t)).

End OutboxRecord.

(** ** Records on disk *)
Definition record_image (r : OutboxRecord) : bytes :=
  let bs := splice 0 (le_bytes 4 (raft_group r)) (zeros OUTBOX_RECORD_LEN) in
  let bs := splice 4 (le_bytes 8 (raft_index r)) bs in
  let bs := splice 12 (le_bytes 4 (ordinal r)) bs in
  let bs := splice 16 (report_frame r) bs in
  splice 72 (le_bytes 8 (fnv1a (take 72 bs))) bs.

(** One record, or the end: too few bytes or a wrong checksum. *)
Definition read_record (rest : bytes) : option (OutboxRecord * bytes) :=
  if (length rest <? OUTBOX_RECORD_LEN)%nat then None
  else
    let bs := take OUTBOX_RECORD_LEN rest in
    if negb (fnv1a (take 72 bs) =? u64_at 72 bs) then None
    else Some (mkOut (u32_at 0 bs) (u64_at 4 bs) (u32_at 12 bs) (slice 16 REPORT_LEN bs),
               drop OUTBOX_RECORD_LEN rest).

(** The cursor file. *)
Definition cursor_image (offset : Z) : bytes :=
  let bs := CURSOR_HEADER ++ le_bytes 8 offset in bs ++ le_bytes 8 (fnv1a bs).

Definition read_cursor_offset (file : option bytes) : option Z :=
  match file with
  | None => None
  | Some bs =>
      if negb (length bs =? CURSOR_LEN)%nat || negb (bool_decide (take 8 bs = CURSOR_HEADER)) then None
      else if negb (fnv1a (take 16 bs) =? le_value (drop 16 bs)) then None
      else Some (u64_at 8 bs)
  end.

(** ** The directory and the writer *)

(** The segment files and their cursor files. *)
Record Dir := mkDir { segments : gmap Z bytes; cursor_files : gmap Z bytes }.

Definition latest_segment (d : Dir) : Z := foldr Z.max 0 (map_to_list (segments d)).*1.

(** [open_segment]: what the file then holds; a new file gets its header, synced. *)
Definition open_segment (file : option bytes) : io_result bytes :=
  let contents := default [] file in
  if (length contents =? 0)%nat then Ok OUTBOX_HEADER
  else if (length contents <? 8)%nat then Err "failed to fill whole buffer"
  else if bool_decide (take 8 contents = OUTBOX_HEADER) then Ok contents
  else Err "execution outbox header/version mismatch".

Module Writer.

Record Writer := mkWriter {
  dir : Dir;                 (* the other segments, and all cursors *)
  seg : Z;                   (* number of the current segment *)
  file : bytes;              (* its file *)
  synced : nat;              (* how much of the file a completed sync covers *)
  buf : bytes;               (* [BufWriter]'s buffer, 64 KiB *)
  next_segment_seq : Z;
  segment_bytes : Z;
  rotate_bytes : option Z;
  written_since_flush : Z;
  sync_every : Z
}.

Definition set_file (w : Writer) (f : bytes) (s : nat) (b : bytes) : Writer :=
  mkWriter (dir w) (seg w) f s b (next_segment_seq w) (segment_bytes w) (rotate_bytes w)
    (written_since_flush w) (sync_every w).

(** What a start finds in the files is what the disk holds. *)
Definition open (d : Dir) (sync_every : Z) : io_result Writer :=
  let current := latest_segment d in
  let? f := open_segment (segments d !! current) in
  Ok (mkWriter (mkDir (delete current (segments d)) (cursor_files d)) current f (length f) []
        (wrap64 (current + 1)) (Z.of_nat (length f)) None 0 (Z.max sync_every 1)).

Definition with_rotate_bytes (w : Writer) (rotate_bytes : option Z) : Writer :=
  mkWriter (dir w) (seg w) (file w) (synced w) (buf w) (next_segment_seq w) (segment_bytes w)
    (r ← rotate_bytes; if 0 <? r then Some r else None) (written_since_flush w) (sync_every w).

Definition flush_to_os (w : Writer) : Writer := set_file w (file w ++ buf w) (synced w) [].

(** [BufWriter::write_all]. *)
Definition write_all (w : Writer) (bs : bytes) : Writer :=
  let w := if (65536 <? Z.of_nat (length (buf w) + length bs)) then flush_to_os w else w in
  if 65536 <=? Z.of_nat (length bs) then set_file w (file w ++ bs) (synced w) (buf w)
  else set_file w (file w) (synced w) (buf w ++ bs).

Definition mark_synced (w : Writer) : Writer :=
  mkWriter (dir w) (seg w) (file w) (synced w) (buf w) (next_segment_seq w) (segment_bytes w) (rotate_bytes w)
    0 (sync_every w).

(** The file system's barrier: everything written is on disk. *)
Definition barrier (w : Writer) : Writer := set_file w (file w) (length (file w)) (buf w).

Definition sync_data (w : Writer) : Writer := mark_synced (barrier (flush_to_os w)).

Definition append_deferred (w : Writer) (group index ordinal : Z) (report : ExecReport) : Writer :=
  let w := write_all w (record_image (mkOut group index ordinal (encode_report report))) in
  mkWriter (dir w) (seg w) (file w) (synced w) (buf w) (next_segment_seq w)
    (wrap64 (segment_bytes w + 80)) (rotate_bytes w) (wrap64 (written_since_flush w + 1)) (sync_every w).

Definition append (w : Writer) (group index ordinal : Z) (report : ExecReport) (due : bool) : Writer :=
  let w := append_deferred w group index ordinal report in
  if (sync_every w <=? written_since_flush w) || due then sync_data w else w.

(** A sealed segment is removed when its cursor covers it. *)
Definition published (d : Dir) (s : Z) (contents : bytes) : bool :=
  match read_cursor_offset (cursor_files d !! s) with
  | None => false
  | Some cursor => Z.of_nat (length contents) <=? cursor
  end.

Definition kept (d : Dir) (s : Z) : bool :=
  match segments d !! s with Some f => negb (published d s f) | None => true end.

Definition remove_published_segments (d : Dir) : Dir :=
  mkDir (filter (fun p => kept d p.1 = true) (segments d)) (filter (fun p => kept d p.1 = true) (cursor_files d)).

(** The old writer flushes when it is dropped. *)
Definition maybe_rotate (w : Writer) : io_result (Writer * bool) :=
  match rotate_bytes w with
  | None => Ok (w, false)
  | Some limit =>
      if segment_bytes w <? limit then Ok (w, false)
      else
        let w := if 0 <? written_since_flush w then sync_data w else w in
        let next := next_segment_seq w in
        let? f := open_segment (segments (dir w) !! next) in
        let d := mkDir (<[seg w := file w ++ buf w]> (delete next (segments (dir w)))) (cursor_files (dir w)) in
        Ok (mkWriter (remove_published_segments d) next f 8 [] (wrap64 (next + 1)) (Z.of_nat (length f))
              (rotate_bytes w) (written_since_flush w) (sync_every w), true)
  end.

End Writer.

(** ** Recovery *)

(** How many bytes [truncate_after_applied] keeps. *)
Fixpoint keep_records (fuel : nat) (rest : bytes) (keep : nat) (max_applied_index : option Z) : nat :=
  match fuel with
  | O => keep
  | S fuel =>
      match read_record rest with
      | None => keep
      | Some (r, rest) =>
          match max_applied_index with
          | Some max =>
              if raft_index r <=? max then keep_records fuel rest (keep + OUTBOX_RECORD_LEN) max_applied_index
              else keep
          | None => keep
          end
      end
  end.

(** What the file then holds. *)
Definition truncate_after_applied (file : option bytes) (max_applied_index : option Z) : io_result (option bytes) :=
  match file with
  | None => Ok None
  | Some f =>
      if (length f <? 8)%nat then Ok (Some f)
      else if negb (bool_decide (take 8 f = OUTBOX_HEADER)) then Err "execution outbox header/version mismatch"
      else Ok (Some (take (keep_records (length f) (drop 8 f) 8 max_applied_index) f))
  end.

(** ** The publisher's reader *)
Module Reader.

Record Reader := mkReader { offset : Z; has_cursor : bool }.

Definition open (file : bytes) : io_result Reader :=
  if (length file <? 8)%nat then Err "failed to fill whole buffer"
  else if negb (bool_decide (take 8 file = OUTBOX_HEADER)) then Err "execution outbox header/version mismatch"
  else Ok (mkReader 8 false).

(** An offset a reader may resume at. *)
Definition valid_offset (file : bytes) (offset : Z) : bool :=
  negb (offset <? 8) && ((offset - 8) mod 80 =? 0) && negb (Z.of_nat (length file) <? offset).

Definition open_with_cursor (file : bytes) (cursor : option bytes) : io_result Reader :=
  let? r := open file in
  match cursor with
  | None => Ok (mkReader (offset r) true)
  | Some _ =>
      match read_cursor_offset cursor with
      | None => Err "execution outbox cursor header/version mismatch"
      | Some o =>
          if valid_offset file o then Ok (mkReader o true)
          else Err "execution outbox cursor is corrupt or ahead of WAL"
      end
  end.

Fixpoint read_loop (max : nat) (rest : bytes) : list OutboxRecord :=
  match max with
  | O => []
  | S max => match read_record rest with Some (r, rest) => r :: read_loop max rest | None => [] end
  end.

(** A collected segment reads as empty. *)
Definition read_batch (r : Reader) (file : option bytes) (max_records : nat) : list OutboxRecord :=
  match file with None => [] | Some f => read_loop max_records (drop (Z.to_nat (offset r)) f) end.

(** The new reader, and the cursor file it leaves, if it writes one. *)
Definition acknowledge (r : Reader) (file : bytes) (records : Z) : io_result (Reader * option bytes) :=
  if records =? 0 then Ok (r, None)
  else
    let next := offset r + records * 80 in
    if U64_MAX <? next then Err "cursor overflow"
    else if Z.of_nat (length file) <? next then Err "cannot acknowledge records beyond outbox end"
    else Ok (mkReader next (has_cursor r), if has_cursor r then Some (cursor_image next) else None).

Definition acknowledge_to (r : Reader) (file : bytes) (to : Z) : io_result (Reader * option bytes) :=
  if to <=? offset r then Ok (r, None)
  else if negb (valid_offset file to) then Err "shared execution outbox cursor is invalid or ahead of local WAL"
  else Ok (mkReader to (has_cursor r), if has_cursor r then Some (cursor_image to) else None).

Definition pending_records (r : Reader) (file : option bytes) : Z :=
  match file with None => 0 | Some f => Z.max 0 (Z.of_nat (length f) - offset r) / 80 end.

(** Everything readable, then acknowledged. *)
Definition read_available (r : Reader) (file : bytes)
    : io_result (list OutboxRecord * Reader * option bytes) :=
  let records := read_batch r (Some file) (length file) in
  let? a := acknowledge r file (Z.of_nat (length records)) in
  Ok (records, a.1, a.2).

End Reader.

(** ** Lemmas *)
Definition out_ok (r : OutboxRecord) : Prop :=
  is_u32 (raft_group r) /\ is_u64 (raft_index r) /\ is_u32 (ordinal r) /\ length (report_frame r) = REPORT_LEN.

Definition out_body (r : OutboxRecord) : bytes :=
  le_bytes 4 (raft_group r) ++ le_bytes 8 (raft_index r) ++ le_bytes 4 (ordinal r) ++ report_frame r.

(** A segment that holds exactly the given records. *)
Definition outbox_file (recs : list OutboxRecord) : bytes := OUTBOX_HEADER ++ concat (record_image <$> recs).

Lemma length_out_body r : out_ok r -> length (out_body r) = 72%nat.
Proof. intros (_ & _ & _ & Hf). unfold out_body. rewrite !length_app, !length_le_bytes, Hf. done. Qed.

Lemma record_image_bytes r : out_ok r -> record_image r = out_body r ++ le_bytes 8 (fnv1a (out_body r)).
Proof.
  intros (_ & _ & _ & Hf). unfold record_image, zeros. rewrite <- (app_nil_l (replicate OUTBOX_RECORD_LEN 0)).
  rewrite (splice_zeros 0), (splice_zeros 4), (splice_zeros 12), (splice_zeros 16), (splice_zeros 72)
    by (rewrite ?length_app, ?length_le_bytes, ?Hf; cbn; lia).
  rewrite !length_le_bytes, Hf. cbn [Nat.sub replicate app]. rewrite app_nil_r.
  rewrite take_app_length' by (rewrite !length_app, !length_le_bytes, Hf; done).
  unfold out_body. by rewrite <- !(assoc_L (++)).
Qed.

Lemma length_record_image r : out_ok r -> length (record_image r) = OUTBOX_RECORD_LEN.
Proof. intros Hr. rewrite record_image_bytes, length_app, length_out_body, length_le_bytes by done. done. Qed.

Lemma read_record_image r rest : out_ok r -> read_record (record_image r ++ rest) = Some (r, rest).
Proof.
  intros Hr. unfold read_record. pose proof (length_record_image r Hr) as L.
  rewrite (proj2 (Nat.ltb_ge _ _)) by (rewrite length_app; lia).
  rewrite take_app_length', drop_app_length', record_image_bytes by done.
  pose proof (length_out_body r Hr) as Lb. set (h := le_bytes 8 (fnv1a (out_body r))).
  rewrite take_app_length' by done.
  rewrite (u64_here _ 72 (fnv1a (out_body r)) []) by
    (apply fnv1a_u64 || (rewrite drop_app_length', app_nil_r by done; done)).
  rewrite Z.eqb_refl. cbn [negb]. destruct Hr as (Hg & Hi & Ho & Hf).
  assert (D0 : drop 0 (out_body r ++ h) = le_bytes 4 (raft_group r) ++ le_bytes 8 (raft_index r) ++
                 le_bytes 4 (ordinal r) ++ report_frame r ++ h).
  { unfold out_body. by rewrite <- !(assoc_L (++)). }
  pose proof (drop_u32 _ _ _ _ D0) as D4. pose proof (drop_u64 _ _ _ _ D4) as D12. pose proof (drop_u32 _ _ _ _ D12) as D16.
  cbn [Nat.add] in *.
  rewrite (u32_here _ _ _ _ Hg D0), (u64_here _ _ _ _ Hi D4), (u32_here _ _ _ _ Ho D12).
  unfold slice. rewrite D16, take_app_length' by done. by destruct r.
Qed.

Lemma read_record_short rest : (length rest < OUTBOX_RECORD_LEN)%nat -> read_record rest = None.
Proof. intros H. unfold read_record. by rewrite (proj2 (Nat.ltb_lt _ _)) by done. Qed.

Lemma image_lengths recs : Forall out_ok recs ->
  Forall (fun f : bytes => length f = OUTBOX_RECORD_LEN) (record_image <$> recs).
Proof. intros H. apply Forall_fmap. eapply Forall_impl; [done|]. intros r. apply length_record_image. Qed.

Lemma length_outbox_file recs : Forall out_ok recs ->
  length (outbox_file recs) = (8 + OUTBOX_RECORD_LEN * length recs)%nat.
Proof.
  intros H. unfold outbox_file. by rewrite length_app, (length_frames OUTBOX_RECORD_LEN), length_fmap by by apply image_lengths.
Qed.

(** What a prefix of a segment holds: whole records and a torn one. *)
Lemma outbox_image recs img : Forall out_ok recs -> img `prefix_of` outbox_file recs -> (8 <= length img)%nat ->
  exists k torn, img = outbox_file (take k recs) ++ torn /\ (length torn < OUTBOX_RECORD_LEN)%nat /\ (k <= length recs)%nat.
Proof.
  intros Hr Hp H8. destruct (framed_prefix OUTBOX_RECORD_LEN OUTBOX_HEADER (record_image <$> recs) img)
    as (k & torn & E & Ht & Hk); [lia | by apply image_lengths | done | done |].
  rewrite length_fmap in Hk. exists k, torn. split_and!; [|done | done].
  rewrite E. unfold outbox_file. by rewrite <- fmap_take, <- (assoc_L (++)).
Qed.

(** Records stand in the order of their Raft index. *)
Definition ordered (recs : list OutboxRecord) : Prop := StronglySorted (fun a b => raft_index a <= raft_index b) recs.

Definition upto (max : Z) (recs : list OutboxRecord) : list OutboxRecord := filter (fun r => raft_index r <= max) recs.
Definition beyond (max : Z) (recs : list OutboxRecord) : list OutboxRecord := filter (fun r => max < raft_index r) recs.

Lemma ordered_split max recs : ordered recs -> recs = upto max recs ++ beyond max recs.
Proof.
  unfold upto, beyond. induction 1 as [|r recs _ IH Hall]; [done|]. rewrite !filter_cons.
  destruct (decide (raft_index r <= max)) as [Hle | Hgt].
  - rewrite (decide_False (P := max < raft_index r)) by lia. cbn. congruence.
  - rewrite decide_True by lia.
    assert (Hf : Forall (fun a => ~ raft_index a <= max) recs) by (eapply Forall_impl; [done|]; intros a Ha; cbn in *; lia).
    assert (Hn : filter (fun a => raft_index a <= max) recs = []).
    { clear IH. induction Hf as [|a l Ha _ IHl]; [done|]. apply Forall_cons in Hall as [_ Hall].
      rewrite filter_cons, decide_False by done. by apply IHl. }
    rewrite Hn in *. cbn in *. congruence.
Qed.

Lemma keep_records_stop kept t fuel keep max : Forall out_ok kept -> Forall (fun r => raft_index r <= max) kept ->
  (length kept < fuel)%nat ->
  (forall r rest, read_record t = Some (r, rest) -> max < raft_index r) ->
  keep_records fuel (concat (record_image <$> kept) ++ t) keep (Some max) =
    (keep + OUTBOX_RECORD_LEN * length kept)%nat.
Proof.
  intros Hr Hm Hf Ht. revert fuel keep Hf. induction Hr as [|r kept Ho Hr IH]; intros [|fuel] keep Hf; cbn [length] in Hf; try lia.
  - cbn. destruct (read_record t) as [[r rest] |]; [|lia]. specialize (Ht r rest eq_refl).
    rewrite (proj2 (Z.leb_gt _ _)) by lia. lia.
  - apply Forall_cons in Hm as [Hm1 Hm]. cbn [fmap list_fmap concat keep_records].
    rewrite <- (assoc_L (++)), read_record_image by done. rewrite (proj2 (Z.leb_le _ _)) by done.
    rewrite IH by (done || lia). cbn [length]. lia.
Qed.

(** What follows the kept records in a crash image. *)
Lemma read_record_torn recs torn max : Forall out_ok recs -> Forall (fun r => max < raft_index r) recs ->
  (length torn < OUTBOX_RECORD_LEN)%nat ->
  forall r rest, read_record (concat (record_image <$> recs) ++ torn) = Some (r, rest) -> max < raft_index r.
Proof.
  intros Hok Hm Ht r rest. destruct Hok as [|a recs Ha _]; [by rewrite read_record_short|].
  apply Forall_cons in Hm as [Hm _]. cbn [fmap list_fmap concat]. rewrite <- (assoc_L (++)), read_record_image by done.
  by intros [= <- <-].
Qed.

Lemma outbox_file_app a b : outbox_file (a ++ b) = outbox_file a ++ concat (record_image <$> b).
Proof. unfold outbox_file. by rewrite fmap_app, concat_app, (assoc_L (++)). Qed.

(** Trimming a crashed segment that holds at least the records up to the index
    leaves exactly those. *)
Lemma truncate_image recs img max : Forall out_ok recs -> ordered recs -> img `prefix_of` outbox_file recs ->
  (8 + OUTBOX_RECORD_LEN * length (upto max recs) <= length img)%nat ->
  truncate_after_applied (Some img) (Some max) = Ok (Some (outbox_file (upto max recs))).
Proof.
  intros Hr Hs Hp Hl. destruct (outbox_image recs img Hr Hp) as (k & torn & E & Ht & Hk); [lia|].
  assert (Hlen : length img = (8 + OUTBOX_RECORD_LEN * k + length torn)%nat).
  { rewrite E, length_app, length_outbox_file, length_take by by apply Forall_take. lia. }
  pose proof (ordered_split max recs Hs) as Hsp. rewrite Hsp in E, Hr.
  apply Forall_app in Hr as [Hru Hrb]. rewrite take_app_ge, outbox_file_app in E by lia.
  set (tl := take (k - length (upto max recs)) (beyond max recs)) in *.
  pose proof (length_outbox_file _ Hru) as Lu. rewrite <- (assoc_L (++)) in E.
  unfold truncate_after_applied. rewrite (proj2 (Nat.ltb_ge _ _)) by lia.
  rewrite bool_decide_true by (rewrite E; done). cbn [negb].
  assert (Hd : drop 8 img = concat (record_image <$> upto max recs) ++ concat (record_image <$> tl) ++ torn) by by rewrite E.
  rewrite Hd, keep_records_stop.
  - rewrite <- Lu, E, take_app_length. done.
  - done.
  - apply Forall_forall. intros r Hin. by apply list_elem_of_filter in Hin as [? _].
  - lia.
  - apply (read_record_torn tl torn max); [by apply Forall_take | | done].
    apply Forall_take, Forall_forall. intros r Hin. by apply list_elem_of_filter in Hin as [? _].
Qed.

(** ** The writer's invariant *)
Import Writer.

Definition out_holds (w : Writer) (recs : list OutboxRecord) : Prop :=
  file w ++ buf w = outbox_file recs /\ Forall out_ok recs /\ (8 <= synced w <= length (file w))%nat.

(** What a crash may leave of the current segment. *)
Definition segment_image (w : Writer) (img : bytes) : Prop :=
  img `prefix_of` file w /\ (synced w <= length img)%nat.

(** Everything but the current segment's bytes. *)
Definition same_place (w w' : Writer) : Prop :=
  dir w' = dir w /\ seg w' = seg w /\ next_segment_seq w' = next_segment_seq w /\ rotate_bytes w' = rotate_bytes w /\
  sync_every w' = sync_every w.

Lemma same_place_trans w1 w2 w3 : same_place w1 w2 -> same_place w2 w3 -> same_place w1 w3.
Proof. unfold same_place. intuition congruence. Qed.

Lemma holds_flush_to_os w recs : out_holds w recs -> out_holds (flush_to_os w) recs /\ same_place w (flush_to_os w).
Proof.
  intros (Hf & Hok & Hs). split; [|done]. unfold out_holds. cbn. rewrite app_nil_r, length_app. split_and!; [done | done | lia..].
Qed.

Lemma holds_sync_data w recs : out_holds w recs ->
  out_holds (sync_data w) recs /\ same_place w (sync_data w) /\ file (sync_data w) = outbox_file recs /\
  synced (sync_data w) = length (outbox_file recs) /\ buf (sync_data w) = [] /\ written_since_flush (sync_data w) = 0.
Proof.
  intros (Hf & Hok & Hs). unfold out_holds, sync_data. cbn. rewrite app_nil_r, Hf.
  pose proof (length_outbox_file recs Hok). split_and!; done || lia.
Qed.

Lemma write_all_bytes w bs : file (write_all w bs) ++ buf (write_all w bs) = file w ++ buf w ++ bs /\
  file w `prefix_of` file (write_all w bs) /\ synced (write_all w bs) = synced w /\ same_place w (write_all w bs).
Proof.
  unfold write_all. destruct (65536 <? _) eqn:E1; destruct (65536 <=? _) eqn:E2; cbn; zbool;
    (split_and!; [| | done | done]); rewrite ?app_nil_r, <- ?(assoc_L (++)); try done; try (by apply prefix_app_r).
  destruct (buf w); [by rewrite app_nil_r|]. cbn in *. lia.
Qed.

Lemma holds_append_deferred w recs g i o r : out_holds w recs -> is_u32 g -> is_u64 i -> is_u32 o ->
  out_holds (append_deferred w g i o r) (recs ++ [mkOut g i o (encode_report r)]) /\
  same_place w (append_deferred w g i o r) /\ synced (append_deferred w g i o r) = synced w.
Proof.
  intros (Hf & Hok & Hs) Hg Hi Ho. set (rec := mkOut g i o (encode_report r)).
  assert (Hrec : out_ok rec) by (split_and!; try done; apply length_encode_report).
  destruct (write_all_bytes w (record_image rec)) as (Hb & Hp & Hsy & Hsame). unfold append_deferred. fold rec.
  cbn [dir seg file synced buf]. split_and!; [|done | done]. unfold out_holds. cbn [file buf synced].
  apply prefix_length in Hp. rewrite Hb, Hsy. split_and!.
  - rewrite (assoc_L (++)), Hf, outbox_file_app. cbn. by rewrite app_nil_r.
  - apply Forall_app_2; [done|]. by apply Forall_singleton.
  - lia.
  - lia.
Qed.
