(* ===== verification/Segments.v ===== *)
(** * Names of outbox segments and of their shared cursors

    [src/src/execution_outbox.rs] names the segments of a shard's outbox
    ([segment_path], [segment_seq_of]); [src/src/bin/raft_node.rs] finds and orders
    them by these names ([is_execution_outbox_file], [outbox_segment_order]) and
    puts a group's cursors on a Kafka topic under a key made from group and name
    ([outbox_checkpoint_key], [decode_outbox_checkpoint]).  A name is a file name
    within the one outbox directory, as bytes. *)

From S2P Require Import Prelude Bytes Text.

(** ** Parts of a file name *)

(** [str::from_utf8] accepts these bytes. *)
Definition cont (b : Z) : bool := (128 <=? b) && (b <=? 191).

Fixpoint valid_utf8 (s : bytes) : bool :=
  match s with
  | [] => true
  | a :: rest =>
      if a <? 128 then valid_utf8 rest
      else if (194 <=? a) && (a <=? 223) then match rest with b :: rest => cont b && valid_utf8 rest | _ => false end
      else if (224 <=? a) && (a <=? 239) then
        match rest with
        | b :: c :: rest =>
            cont b && negb ((a =? 224) && (b <? 160)) && negb ((a =? 237) && (159 <? b)) && cont c && valid_utf8 rest
        | _ => false
        end
      else if (240 <=? a) && (a <=? 244) then
        match rest with
        | b :: c :: d :: rest =>
            cont b && negb ((a =? 240) && (b <? 144)) && negb ((a =? 244) && (143 <? b)) && cont c && cont d && valid_utf8 rest
        | _ => false
        end
      else false
  end.

Definition to_str (s : bytes) : option bytes := if valid_utf8 s then Some s else None.

(** [Path]'s split of a name at its last dot; a leading dot does not count. *)
Definition rsplit_dot (name : bytes) : option (bytes * bytes) :=
  if bool_decide (name = lit "..") then None
  else
    match split_once (lit ".") (rev name) with
    | Some (after, before) => if bool_decide (before = []) then None else Some (rev before, rev after)
    | None => None
    end.

Definition file_stem (name : bytes) : bytes := match rsplit_dot name with Some (before, _) => before | None => name end.
Definition extension (name : bytes) : option bytes := snd <$> rsplit_dot name.

(** ** Segments *)

(** [outbox-shard-{shard_id}.bin] *)
Definition base_name (shard_id : Z) : bytes := lit "outbox-shard-" ++ show shard_id ++ lit ".bin".

Definition segment_path (base : bytes) (seq : Z) : outcome bytes :=
  if seq =? 0 then Ret base
  else
    let! stem := expect (to_str (file_stem base)) "outbox base path has a utf-8 file stem" in
    Ret (stem ++ lit "-seg-" ++ show_padded 10 seq ++ lit ".bin").

Definition segment_seq_of (base path : bytes) : option Z :=
  if bool_decide (path = base) then Some 0
  else
    base_stem ← to_str (file_stem base);
    stem ← to_str (file_stem path);
    ext ← extension path ≫= to_str;
    if negb (bool_decide (ext = lit "bin")) then None
    else rest ← strip_prefix base_stem stem; digits ← strip_prefix (lit "-seg-") rest; parse_uint U64_MAX digits.

Definition is_execution_outbox_file (path : bytes) : bool :=
  bool_decide (extension path ≫= to_str = Some (lit "bin")) &&
  match to_str (file_stem path) with Some name => starts_with (lit "outbox-shard-") name | None => false end.

Definition outbox_checkpoint_name (path : bytes) : option bytes := to_str path.

Definition outbox_segment_order (path : bytes) : option (Z * Z) :=
  stem ← to_str (file_stem path) ≫= strip_prefix (lit "outbox-shard-");
  match split_once (lit "-seg-") stem with
  | Some (shard, segment) => s ← parse_uint U32_MAX shard; n ← parse_uint U64_MAX segment; Some (s, n)
  | None => s ← parse_uint U32_MAX stem; Some (s, 0)
  end.

(** ** Cursors on the topic *)
Definition be_bytes (n : nat) (z : Z) : bytes := rev (le_bytes n z).
Definition be_value (bs : bytes) : Z := le_value (rev bs).

Definition outbox_checkpoint_key (raft_group : Z) (name : bytes) : bytes := be_bytes 4 raft_group ++ name.

Definition decode_outbox_checkpoint (expected_group : Z) (key payload : option bytes) : option (bytes * Z) :=
  key ← key;
  payload ← payload;
  if (length key <=? 4)%nat || negb (length payload =? 8)%nat then None
  else if negb (be_value (take 4 key) =? expected_group) then None
  else name ← to_str (drop 4 key); Some (name, le_value payload).

(** ** Lemmas *)
Definition ascii (s : bytes) : Prop := Forall (fun c => 0 <= c < 128) s.

Lemma ascii_utf8 s : ascii s -> valid_utf8 s = true.
Proof. induction 1 as [|c s Hc Hs IH]; [done|]. cbn. by rewrite (proj2 (Z.ltb_lt _ _)) by lia. Qed.

Lemma ascii_str s : ascii s -> to_str s = Some s.
Proof. intros H. unfold to_str. by rewrite ascii_utf8. Qed.

Lemma digits_ascii s : all_digits s -> ascii s.
Proof. intros H. eapply Forall_impl; [exact H|]. intros c Hc. apply digit_range in Hc. lia. Qed.

Lemma ascii_app s t : ascii s -> ascii t -> ascii (s ++ t).
Proof. apply Forall_app_2. Qed.

Lemma lit_ascii l : Forall (fun c => (0 <=? c) && (c <? 128) = true) (lit l) -> ascii (lit l).
Proof. intros H. eapply Forall_impl; [exact H|]. cbn. intros c Hc. zbool. lia. Qed.

Ltac lit_ok := repeat constructor; cbn; lia.

(** A stem and [.bin]. *)
Lemma bin_name stem : stem <> [] ->
  file_stem (stem ++ lit ".bin") = stem /\ extension (stem ++ lit ".bin") = Some (lit "bin").
Proof.
  intros Hn. assert (E : rsplit_dot (stem ++ lit ".bin") = Some (stem, lit "bin")).
  { unfold rsplit_dot. rewrite bool_decide_false.
    2: { intros E. apply (f_equal length) in E. rewrite length_app in E. cbn in E. lia. }
    rewrite rev_app_distr. change (rev (lit ".bin") ++ rev stem) with (lit "nib" ++ (46 :: []) ++ rev stem).
    change (lit ".") with [46]. rewrite split_once_first by lit_ok.
    rewrite bool_decide_false by (intros E; apply Hn; rewrite <- (rev_involutive stem), E; done).
    by rewrite rev_involutive. }
  unfold file_stem, extension. by rewrite E.
Qed.

Definition stem_of (shard seq : Z) : bytes :=
  lit "outbox-shard-" ++ show shard ++ (if seq =? 0 then [] else lit "-seg-" ++ show_padded 10 seq).

Lemma stem_ascii shard seq : 0 <= shard -> 0 <= seq -> ascii (stem_of shard seq).
Proof.
  intros Hs Hq. unfold stem_of. apply ascii_app; [lit_ok|]. apply ascii_app; [by apply digits_ascii, show_all|].
  case_if; [constructor|]. apply ascii_app; [lit_ok|]. by apply digits_ascii, padded_all.
Qed.

Lemma stem_nonempty shard seq : stem_of shard seq <> [].
Proof. done. Qed.

Lemma base_stem shard : base_name shard = stem_of shard 0 ++ lit ".bin".
Proof. unfold base_name, stem_of. cbn [Z.eqb]. by rewrite app_nil_r, <- !(assoc_L (++)). Qed.

Lemma segment_path_ok shard seq : 0 <= shard -> 0 <= seq ->
  segment_path (base_name shard) seq = Ret (stem_of shard seq ++ lit ".bin").
Proof.
  intros Hs Hq. unfold segment_path. destruct (seq =? 0) eqn:E; zbool; [subst; by rewrite base_stem|].
  rewrite base_stem. rewrite (proj1 (bin_name (stem_of shard 0) (stem_nonempty _ _))).
  rewrite ascii_str by (apply stem_ascii; lia). cbn [expect obind]. unfold stem_of. rewrite (proj2 (Z.eqb_neq seq 0)) by done.
  cbn [Z.eqb]. by rewrite app_nil_r, <- !(assoc_L (++)).
Qed.

(** Digits end where the two names differ. *)
Lemma digits_split a b s t : all_digits a -> all_digits b ->
  (match s with c :: _ => is_ascii_digit c = false | [] => True end) ->
  (match t with c :: _ => is_ascii_digit c = false | [] => True end) -> a ++ s = b ++ t -> a = b /\ s = t.
Proof.
  intros Ha Hb Hs Ht E. assert (Hab : a = b).
  { rewrite <- (take_while_app is_ascii_digit a s) by (done || by destruct s). rewrite E. by apply take_while_app; [|destruct t]. }
  subst b. split; [done|]. by apply app_inv_head in E.
Qed.

Lemma show_inj a b : 0 <= a -> 0 <= b -> show a = show b -> a = b.
Proof.
  intros Ha Hb E. pose proof (parse_show (Z.max a b) a ltac:(lia)) as H1. pose proof (parse_show (Z.max a b) b ltac:(lia)) as H2.
  rewrite E in H1. congruence.
Qed.

Lemma order_of_stem shard seq : is_u32 shard -> is_u64 seq ->
  outbox_segment_order (stem_of shard seq ++ lit ".bin") = Some (shard, seq).
Proof.
  unfold_width. intros Hs Hq. unfold outbox_segment_order. rewrite (proj1 (bin_name _ (stem_nonempty shard seq))).
  rewrite ascii_str by (apply stem_ascii; lia). cbn [mbind option_bind]. unfold stem_of. rewrite strip_prefix_app.
  cbn [mbind option_bind]. change (lit "-seg-") with (45 :: lit "seg-"). destruct (seq =? 0) eqn:E; zbool.
  - subst. rewrite app_nil_r, split_once_none by (apply digits_avoid; [apply show_all; lia|done]). by rewrite parse_show by lia.
  - rewrite split_once_first by (apply digits_avoid; [apply show_all; lia|done]). rewrite parse_show by lia. cbn [mbind option_bind].
    by rewrite parse_padded by lia.
Qed.

Lemma be_value_bytes n z : 0 <= z < 256 ^ Z.of_nat n -> be_value (be_bytes n z) = z.
Proof. intros H. unfold be_value, be_bytes. by rewrite rev_involutive, le_value_bytes. Qed.

(** The name of a segment tells which shard and which segment it is. *)
Lemma seq_of_other shard seq shard' k : 0 <= shard -> 0 <= shard' -> is_u64 seq ->
  segment_seq_of (base_name shard') (stem_of shard seq ++ lit ".bin") = Some k -> shard' = shard /\ k = seq.
Proof.
  unfold_width. intros Hs Hs' Hq. unfold segment_seq_of. case_bool_decide as E.
  - rewrite base_stem in E. apply app_inv_tail in E. unfold stem_of in E. cbn [Z.eqb] in E. rewrite app_nil_r in E.
    apply app_inv_head in E. intros [= <-].
    rewrite <- (app_nil_r (show shard')) in E. apply digits_split in E as [E1 E2]; [|by apply show_all..| |done].
    2: { by destruct (seq =? 0). }
    split; [by apply show_inj|]. destruct (seq =? 0) eqn:E0; zbool; [done|discriminate].
  - rewrite base_stem, !(proj1 (bin_name _ (stem_nonempty _ _))), (proj2 (bin_name _ (stem_nonempty _ _))).
    rewrite !ascii_str by (apply stem_ascii; lia). cbn [mbind option_bind].
    rewrite (ascii_str (lit "bin")) by lit_ok. cbn [mbind option_bind]. rewrite bool_decide_true by done. cbn [negb].
    destruct (strip_prefix (stem_of shard' 0) _) as [rest|] eqn:E1; [cbn [mbind option_bind]|done].
    destruct (strip_prefix (lit "-seg-") rest) as [ds|] eqn:E2; [cbn [mbind option_bind]|done]. intros Hp.
    apply strip_prefix_Some in E1, E2. subst rest. unfold stem_of in E1. cbn [Z.eqb] in E1. rewrite app_nil_r, <- (assoc_L (++)) in E1.
    apply app_inv_head in E1. apply digits_split in E1 as [E1 E2]; [|by apply show_all..| |done].
    2: { by destruct (seq =? 0). }
    split; [symmetry; by apply show_inj|]. destruct (seq =? 0) eqn:E0; zbool; [done|].
    apply app_inv_head in E2. subst ds. rewrite parse_padded in Hp by lia. congruence.
Qed.

Lemma seq_of_own shard seq : 0 <= shard -> is_u64 seq ->
  segment_seq_of (base_name shard) (stem_of shard seq ++ lit ".bin") = Some seq.
Proof.
  unfold_width. intros Hs Hq. unfold segment_seq_of. case_bool_decide as E.
  - rewrite base_stem in E. apply app_inv_tail in E. unfold stem_of in E. cbn [Z.eqb] in E. rewrite app_nil_r in E.
    apply app_inv_head in E. rewrite <- (app_nil_r (show shard)) in E at 2. apply app_inv_head in E.
    destruct (seq =? 0) eqn:E0; zbool; [by subst|discriminate].
  - rewrite base_stem, !(proj1 (bin_name _ (stem_nonempty _ _))), (proj2 (bin_name _ (stem_nonempty _ _))).
    rewrite !ascii_str by (apply stem_ascii; lia). cbn [mbind option_bind].
    rewrite (ascii_str (lit "bin")) by lit_ok. cbn [mbind option_bind]. rewrite bool_decide_true by done. cbn [negb].
    unfold stem_of at 1 2. cbn [Z.eqb]. rewrite app_nil_r. destruct (seq =? 0) eqn:E0; zbool.
    + subst. by rewrite base_stem in E.
    + rewrite (assoc_L (++)), strip_prefix_app. cbn [mbind option_bind]. rewrite strip_prefix_app. cbn [mbind option_bind].
      by apply parse_padded.
Qed.

(** The segments of an outbox are found and ordered by their names.  For every
    shard and every segment number the name [segment_path] makes is one the
    publisher's scan accepts; the publisher reads the shard and the number back
    from it; and the writer of a shard takes the name for segment [k] of its own
    outbox exactly when it is its own segment [k]. *)
Theorem segment_names (shard seq : Z) : is_u32 shard -> is_u64 seq ->
  exists name, segment_path (base_name shard) seq = Ret name /\ is_execution_outbox_file name = true /\
    outbox_segment_order name = Some (shard, seq) /\
    (forall shard' k, is_u32 shard' -> segment_seq_of (base_name shard') name = Some k <-> shard' = shard /\ k = seq).
Proof.
  intros Hs Hq. pose proof Hs as Hs'. pose proof Hq as Hq'. unfold_width.
  exists (stem_of shard seq ++ lit ".bin"). split; [apply segment_path_ok; lia|]. split; [|split; [by apply order_of_stem|]].
  - unfold is_execution_outbox_file. rewrite (proj2 (bin_name _ (stem_nonempty _ _))), (proj1 (bin_name _ (stem_nonempty _ _))).
    cbn [mbind option_bind]. rewrite bool_decide_true by (apply ascii_str; lit_ok). rewrite ascii_str by (apply stem_ascii; lia).
    unfold starts_with, stem_of. rewrite strip_prefix_app. by apply bool_decide_true.
  - intros shard' k Hsh. split; [by apply seq_of_other; [lia|lia|]|]. intros [-> ->]. apply seq_of_own; [lia|done].
Qed.

Lemma segment_names_witness :
  exists name, segment_path (base_name 12) 3 = Ret name /\ outbox_segment_order name = Some (12, 3) /\
    segment_seq_of (base_name 1) name = None.
Proof.
  destruct (segment_names 12 3) as (name & E & _ & Ho & Hq); [unfold_width; lia..|].
  exists name. split; [exact E|]. split; [exact Ho|].
  destruct (segment_seq_of (base_name 1) name) as [k|] eqn:Ek; [|reflexivity].
  apply (Hq 1 k) in Ek as [? _]; [discriminate | unfold_width; lia].
Defined.

(** A group's cursor comes back from the topic as it was put there; another
    group's is passed over. *)
Lemma checkpoint_round_trip group name offset : is_u32 group -> is_u64 offset -> name <> [] -> valid_utf8 name = true ->
  forall reader, is_u32 reader ->
    decode_outbox_checkpoint reader (Some (outbox_checkpoint_key group name)) (Some (le_bytes 8 offset)) =
      if reader =? group then Some (name, offset) else None.
Proof.
  intros Hg Ho Hn Hu reader Hr. unfold decode_outbox_checkpoint, outbox_checkpoint_key. cbn [mbind option_bind].
  assert (Hl : length (be_bytes 4 group) = 4%nat) by (unfold be_bytes; by rewrite length_rev, length_le_bytes).
  rewrite (proj2 (Nat.leb_gt _ _)) by (rewrite length_app, Hl; destruct name; [done|cbn; lia]).
  rewrite length_le_bytes. cbn [Nat.eqb negb orb]. rewrite take_app_length', drop_app_length' by done.
  rewrite be_value_bytes by (unfold_width; cbn; lia). rewrite (Z.eqb_sym group). destruct (reader =? group); cbn [negb]; [|done].
  unfold to_str. rewrite Hu. cbn [mbind option_bind]. by rewrite le_value_u64.
Qed.
