(* ===== verification/Publisher.v ===== *)
(** * The outbox publisher

    [spawn_execution_outbox_publisher] of [src/src/bin/raft_node.rs]: the thread
    that sends the records of a node's outbox segments to Kafka.  One turn of its
    loop ([pass]) takes in the group's cursors from the checkpoint topic, sends the
    cursors that are due, opens readers for new segments, follows the group's
    cursors, and, when the node leads, sends one batch of the oldest segment of
    each shard.

    What the turn meets is an argument: the messages polled, which sends the broker
    acknowledged, and whether the node was the leader at each look.  Writers run in
    other threads; the files are read as they stand at the start of the turn.  The
    order in which Rust's hash tables are walked is a parameter. *)

From S2P Require Import Prelude Types Bytes Text Protocol Wire Sharding Queue Outbox Segments.
Import Reader.

(** ** State *)
Record Config := mkPublisherConfig {
  p_group : Z;
  checkpoint_every_batches : Z;
  batch_size : nat;
  execution_partitions : Z;
  routing : RouteConfig
}.

Record Event := mkSend { ev_key : bytes; ev_partition : Z; ev_payload : bytes }.

Record Publisher := mkPublisher {
  readers : gmap bytes Reader;
  shared_offsets : gmap bytes Z;
  pending_checkpoints : gmap bytes Z;
  batches_since_checkpoint : gmap bytes Z;
  publish_healthy : bool;
  outbox_pending : Z
}.

Definition fresh_publisher : Publisher := mkPublisher ∅ ∅ ∅ ∅ false 0.

(** The outbox directory: segments and cursor files, by the segment's name. *)
Record Store := mkStore { seg_files : gmap bytes bytes; cursors : gmap bytes bytes }.

(** What the broker has acknowledged: execution events and cursors. *)
Record Broker := mkBroker { acked : list Event; checkpoints : list (bytes * bytes) }.

Record Site := mkSite { pub : Publisher; store : Store; broker : Broker }.

(** What one turn meets. *)
Record Weather := mkWeather {
  polled : list (option (option bytes * option bytes));  (* [None]: an error *)
  checkpoint_sent : bytes -> bool;
  leads : bool;                                          (* at the first look *)
  leads_at : bytes -> bool;                              (* before a segment's batch *)
  sent : bytes -> nat -> bool                            (* the [n]th event of a segment's batch *)
}.

(** Field updates. *)
Definition set_readers (p : Publisher) (r : gmap bytes Reader) : Publisher :=
  mkPublisher r (shared_offsets p) (pending_checkpoints p) (batches_since_checkpoint p) (publish_healthy p) (outbox_pending p).
Definition set_shared (p : Publisher) (s : gmap bytes Z) : Publisher :=
  mkPublisher (readers p) s (pending_checkpoints p) (batches_since_checkpoint p) (publish_healthy p) (outbox_pending p).
Definition set_due (p : Publisher) (c b : gmap bytes Z) : Publisher :=
  mkPublisher (readers p) (shared_offsets p) c b (publish_healthy p) (outbox_pending p).
Definition set_healthy (p : Publisher) (h : bool) : Publisher :=
  mkPublisher (readers p) (shared_offsets p) (pending_checkpoints p) (batches_since_checkpoint p) h (outbox_pending p).
Definition set_pending (p : Publisher) (n : Z) : Publisher :=
  mkPublisher (readers p) (shared_offsets p) (pending_checkpoints p) (batches_since_checkpoint p) (publish_healthy p) n.

Section publisher.
Context (cfg : Config) (order : forall A : Type, gmap bytes A -> list (bytes * A)).

(** ** The checkpoint topic *)
Definition absorb (p : Publisher) (message : option (option bytes * option bytes)) : Publisher :=
  match message with
  | None => set_healthy p false
  | Some (key, payload) =>
      match decode_outbox_checkpoint (p_group cfg) key payload with
      | None => p
      | Some (name, offset) =>
          set_shared p (<[name := match shared_offsets p !! name with Some o => Z.max o offset | None => offset end]> (shared_offsets p))
      end
  end.

Definition send_checkpoint (w : Weather) (s : Site) (due : bytes * Z) : Site :=
  let '(name, offset) := due in
  let p := pub s in
  if checkpoint_sent w name then
    mkSite (set_shared (set_due p (delete name (pending_checkpoints p)) (batches_since_checkpoint p))
              (<[name := offset]> (shared_offsets p)))
      (store s)
      (mkBroker (acked (broker s))
         (checkpoints (broker s) ++ [(outbox_checkpoint_key (p_group cfg) name, le_bytes 8 offset)]))
  else mkSite (set_healthy p false) (store s) (broker s).

(** ** Readers *)
Definition open_reader (st : Store) (p : Publisher) (file : bytes * bytes) : Publisher :=
  let '(path, contents) := file in
  if negb (is_execution_outbox_file path) || bool_decide (is_Some (readers p !! path)) then p
  else
    match open_with_cursor contents (cursors st !! path) with
    | Ok reader => set_readers p (<[path := reader]> (readers p))
    | Err _ => p
    end.

Definition retain_existing (st : Store) (p : Publisher) : Publisher :=
  set_readers p (filter (fun pr => is_Some (seg_files st !! pr.1)) (readers p)).

(** A reader that moved: its new state, and the cursor file it wrote. *)
Definition moved (s : Site) (path : bytes) (r : Reader * option bytes) : Site :=
  let p := pub s in
  mkSite (set_readers p (<[path := r.1]> (readers p)))
    (match r.2 with Some c => mkStore (seg_files (store s)) (<[path := c]> (cursors (store s))) | None => store s end) (broker s).

Definition follow (s : Site) (pr : bytes * Reader) : Site :=
  let '(path, reader) := pr in
  match outbox_checkpoint_name path ≫= fun name => shared_offsets (pub s) !! name with
  | None => s
  | Some offset =>
      match seg_files (store s) !! path with
      | None => s
      | Some f => match acknowledge_to reader f offset with Ok r => moved s path r | Err _ => s end
      end
  end.

Definition count_pending (s : Site) : Site :=
  let total := foldl (fun n pr => wrap64 (n + pending_records pr.2 (seg_files (store s) !! pr.1))) 0 (order _ (readers (pub s))) in
  mkSite (set_pending (pub s) total) (store s) (broker s).

(** ** Sending *)
Definition event_for (r : OutboxRecord) (target : OrderId) : outcome Event :=
  let! partition := RouteConfig.execution_partition (routing cfg) target (execution_partitions cfg) in
  Ret (mkSend (be_bytes 8 target) (QueueRouter.as_i32 partition) (OutboxRecord.kafka_payload_for r target)).

Definition prepare_record (acc : list Event) (r : OutboxRecord) : outcome (list Event) :=
  let! ids := OutboxRecord.target_order_ids r in
  ofold (fun acc t => let! e := event_for r t in Ret (acc ++ [e])) acc ids.

Definition prepare (records : list OutboxRecord) : outcome (list Event) := ofold prepare_record [] records.

(** The events that got through. *)
Definition delivered (ok : nat -> bool) (events : list Event) : list Event :=
  (filter (fun ie => ok ie.1 = true) (zip (List.seq 0 (length events)) events)).*2.

Definition send_batch (w : Weather) (s : Site) (path : bytes) (reader : Reader) : outcome Site :=
  let p := pub s in
  let file := seg_files (store s) !! path in
  let pending_in_segment := pending_records reader file in
  let records := read_batch reader file (batch_size cfg) in
  let n := Z.of_nat (length records) in
  if bool_decide (records = []) then
    Ret (mkSite (set_healthy p (bool_decide (pending_checkpoints p = ∅))) (store s) (broker s))
  else
    let! prepared := prepare records in
    let b := mkBroker (acked (broker s) ++ delivered (sent w path) prepared) (checkpoints (broker s)) in
    if negb (forallb (sent w path) (List.seq 0 (length prepared))) then Ret (mkSite (set_healthy p false) (store s) b)
    else
      match outbox_checkpoint_name path with
      | None => Ret (mkSite p (store s) b)
      | Some name =>
          let next_offset := wrap64 (offset reader + n * 80) in
          let batch_count := match batches_since_checkpoint p !! name with Some c => wrap64 (c + 1) | None => 1 end in
          let due := (checkpoint_every_batches cfg <=? batch_count) || (pending_in_segment <=? n) in
          let p := set_due p (if due then <[name := next_offset]> (pending_checkpoints p) else pending_checkpoints p)
                     (<[name := if due then 0 else batch_count]> (batches_since_checkpoint p)) in
          match file with
          | None => Ret (mkSite (set_healthy p false) (store s) b)
          | Some f =>
              match acknowledge reader f n with
              | Err _ => Ret (mkSite (set_healthy p false) (store s) b)
              | Ok r => Ret (moved (mkSite (set_healthy p (bool_decide (pending_checkpoints p = ∅))) (store s) b) path r)
              end
          end
      end.

(** One segment per shard and turn. *)
Definition visit (w : Weather) (st : Site * list Z) (path : bytes) : outcome (Site * list Z) :=
  let '(s, visited_shards) := st in
  match outbox_segment_order path with
  | None => Ret st
  | Some (shard, _) =>
      if bool_decide (shard ∈ visited_shards) then Ret st
      else
        let visited := shard :: visited_shards in
        match readers (pub s) !! path with
        | None => Ret (s, visited)
        | Some reader =>
            if negb (leads_at w path) then Ret (s, visited)
            else let! s := send_batch w s path reader in Ret (s, visited)
        end
  end.

Definition segment_key (path : bytes) : Z * Z := default (U32_MAX, U64_MAX) (outbox_segment_order path).

Definition key_le (a b : bytes) : Prop :=
  (segment_key a).1 < (segment_key b).1 \/ ((segment_key a).1 = (segment_key b).1 /\ (segment_key a).2 <= (segment_key b).2).

#[global] Instance key_le_dec : RelDecision key_le.
Proof. intros a b. unfold key_le. apply _. Defined.

Definition publish_paths (p : Publisher) : list bytes := merge_sort key_le (order _ (readers p)).*1.

(** The turn up to the publishing. *)
Definition gather (w : Weather) (s : Site) : Site :=
  let s := mkSite (foldl absorb (pub s) (polled w)) (store s) (broker s) in
  let s := foldl (send_checkpoint w) s (order _ (pending_checkpoints (pub s))) in
  let p := foldl (open_reader (store s)) (pub s) (order _ (seg_files (store s))) in
  let s := mkSite (retain_existing (store s) p) (store s) (broker s) in
  let s := foldl follow s (order _ (readers (pub s))) in
  let s := if leads w then s else mkSite (set_healthy (pub s) true) (store s) (broker s) in
  count_pending s.

Definition pass (w : Weather) (s : Site) : outcome Site :=
  let s := gather w s in
  let! r := ofold (visit w) (s, []) (publish_paths (pub s)) in
  Ret (count_pending r.1).

End publisher.

(** ** What a cursor promises

    [seg name] is what the segment [name] will hold when it is complete, the same
    on every member of the group; a file holds a prefix of it. *)
Section promise.
Context (cfg : Config) (order : forall A : Type, gmap bytes A -> list (bytes * A)) (seg : bytes -> list OutboxRecord).
Context (Horder : forall A (m : gmap bytes A), order A m ≡ₚ map_to_list m) (Hseg : forall name, Forall out_ok (seg name)).

(** Every event of the record has been acknowledged. *)
Definition reached (a : list Event) (r : OutboxRecord) : Prop :=
  forall ids t, OutboxRecord.target_order_ids r = Ret ids -> t ∈ ids -> exists e, event_for cfg r t = Ret e /\ e ∈ a.

Definition covered (a : list Event) (name : bytes) (o : Z) : Prop :=
  forall k r, seg name !! k = Some r -> 8 + 80 * Z.of_nat k < o -> reached a r.

Definition aligned (o : Z) : Prop := exists j : nat, o = 8 + 80 * Z.of_nat j.

Definition store_ok (st : Store) : Prop :=
  forall name f, seg_files st !! name = Some f -> f `prefix_of` outbox_file (seg name).

Definition cursors_ok (a : list Event) (st : Store) : Prop :=
  forall name o, read_cursor_offset (cursors st !! name) = Some o -> covered a name o.

Definition broker_ok (b : Broker) : Prop :=
  forall k v name o, (k, v) ∈ checkpoints b -> decode_outbox_checkpoint (p_group cfg) (Some k) (Some v) = Some (name, o) ->
    covered (acked b) name o.

Record publisher_ok (a : list Event) (p : Publisher) : Prop := {
  po_readers name rd : readers p !! name = Some rd -> aligned (offset rd) /\ covered a name (offset rd);
  po_shared name o : shared_offsets p !! name = Some o -> covered a name o;
  po_due name o : pending_checkpoints p !! name = Some o -> 0 <= o /\ covered a name o
}.

Record site_ok (s : Site) : Prop := {
  so_store : store_ok (store s);
  so_cursors : cursors_ok (acked (broker s)) (store s);
  so_pub : publisher_ok (acked (broker s)) (pub s);
  so_broker : broker_ok (broker s)
}.

Lemma covered_le a name o o' : covered a name o -> o' <= o -> covered a name o'.
Proof. intros H Ho k r Hk Hr. apply (H k r Hk). lia. Qed.

Lemma covered_start a name o : o <= 8 -> covered a name o.
Proof. intros Ho k r _ Hr. lia. Qed.

Lemma reached_app a b r : reached a r -> reached (a ++ b) r.
Proof. intros H ids t Hi Ht. destruct (H ids t Hi Ht) as (e & E & He). exists e. split; [done|]. apply elem_of_app. by left. Qed.

Lemma reached_app_r a b r : reached b r -> reached (a ++ b) r.
Proof. intros H ids t Hi Ht. destruct (H ids t Hi Ht) as (e & E & He). exists e. split; [done|]. apply elem_of_app. by right. Qed.

Lemma covered_app a b name o : covered a name o -> covered (a ++ b) name o.
Proof. intros H k r Hk Hr. apply reached_app, (H k r Hk Hr). Qed.

Lemma publisher_ok_app a b p : publisher_ok a p -> publisher_ok (a ++ b) p.
Proof.
  intros [H1 H2 H3]. split.
  - intros name rd E. destruct (H1 name rd E). split; [done|by apply covered_app].
  - intros name o E. by apply covered_app, H2.
  - intros name o E. destruct (H3 name o E). split; [done|by apply covered_app].
Qed.

(** *** Cursor files *)
Lemma read_cursor_image o : read_cursor_offset (Some (cursor_image o)) = Some (wrap64 o).
Proof.
  unfold read_cursor_offset, cursor_image. set (bs := CURSOR_HEADER ++ le_bytes 8 o).
  assert (Hb : length bs = 16%nat) by (unfold bs; by rewrite length_app, length_le_bytes).
  rewrite length_app, length_le_bytes, Hb. cbn [Nat.add Nat.eqb negb orb].
  rewrite take_app_le by lia. assert (Ht : take 8 bs = CURSOR_HEADER) by by apply take_app_length'.
  rewrite Ht, bool_decide_true by done. cbn [negb]. rewrite take_app_length', drop_app_length' by done.
  rewrite le_value_u64 by apply fnv1a_u64. rewrite Z.eqb_refl. cbn [negb]. f_equal.
  unfold u64_at. rewrite slice_app_l by lia. unfold bs. change 8%nat with (length CURSOR_HEADER + 0)%nat at 1.
  rewrite slice_app_r. unfold slice. rewrite drop_0, take_ge by by rewrite length_le_bytes. apply le_value_mod64.
Qed.

(** *** Batches *)
Lemma read_loop_prefix n recs torn : Forall out_ok recs -> (length torn < OUTBOX_RECORD_LEN)%nat ->
  read_loop n (concat (record_image <$> recs) ++ torn) = take n recs.
Proof.
  intros Hr Ht. revert n. induction Hr as [|r recs Hok Hr IH]; intros [|n]; [done| |done|]; cbn [fmap list_fmap concat read_loop].
  - by rewrite read_record_short.
  - rewrite <- (assoc_L (++)), read_record_image by done. cbn [take]. by rewrite IH.
Qed.

Lemma drop_file j recs torn : Forall out_ok recs -> (j <= length recs)%nat ->
  drop (8 + 80 * j) (outbox_file recs ++ torn) = concat (record_image <$> drop j recs) ++ torn.
Proof.
  intros Hr Hj. rewrite <- (take_drop j recs) at 1. rewrite outbox_file_app, <- (assoc_L (++)).
  apply drop_app_length'. rewrite length_outbox_file by by apply Forall_take. by rewrite length_take, Nat.min_l by lia.
Qed.

(** A batch is the records that follow the cursor, as far as the file holds them. *)
Lemma read_batch_next recs f j n rd : Forall out_ok recs -> f `prefix_of` outbox_file recs ->
  offset rd = 8 + 80 * Z.of_nat j -> exists m, read_batch rd (Some f) n = take m (drop j recs) /\ (m <= n)%nat /\
    (read_batch rd (Some f) n <> [] -> (8 + 80 * (j + m) <= length f)%nat).
Proof.
  intros Hr Hp Ho. unfold read_batch. rewrite Ho. replace (Z.to_nat (8 + 80 * Z.of_nat j)) with (8 + 80 * j)%nat by lia.
  destruct (decide (length f < 8)%nat) as [Hs|Hs].
  { exists 0%nat. rewrite drop_ge by lia. split_and!; [by destruct n|lia|by destruct n]. }
  destruct (outbox_image recs f Hr Hp ltac:(lia)) as (k & torn & -> & Ht & Hk).
  pose proof (length_outbox_file (take k recs) ltac:(by apply Forall_take)) as L. rewrite length_take, Nat.min_l in L by lia.
  destruct (decide (j <= k)%nat) as [Hj|Hj].
  - rewrite drop_file by (try apply Forall_take; rewrite ?length_take; done || lia).
    rewrite read_loop_prefix by (try apply Forall_drop, Forall_take; done).
    exists (Nat.min n (k - j)). rewrite skipn_firstn_comm, take_take. split_and!; [done|lia|].
    rewrite length_app, L. lia.
  - exists 0%nat. assert (Hsh : (length (drop (8 + 80 * j) (outbox_file (take k recs) ++ torn)) < 80)%nat)
      by (rewrite length_drop, length_app, L; lia).
    destruct n as [|n]; cbn [read_loop]; [|rewrite read_record_short by done]; split_and!; done || lia.
Qed.

Lemma prepare_record_ok acc r evs : prepare_record cfg acc r = Ret evs -> exists more, evs = acc ++ more /\ reached more r.
Proof.
  unfold prepare_record. intros E. apply obind_ret in E as (ids & Ei & E).
  assert (H : forall ids0 acc evs, ofold (fun acc t => let! e := event_for cfg r t in Ret (acc ++ [e])) acc ids0 = Ret evs ->
    exists more, evs = acc ++ more /\ forall t, t ∈ ids0 -> exists e, event_for cfg r t = Ret e /\ e ∈ more).
  { clear. induction ids0 as [|t ids0 IH]; intros acc evs E; cbn in E.
    - injection E as <-. exists []. split; [by rewrite app_nil_r|]. intros t Ht. by apply not_elem_of_nil in Ht.
    - apply obind_ret in E as (acc' & E1 & E). apply obind_ret in E1 as (e & Ee & E1). injection E1 as <-.
      destruct (IH _ _ E) as (more & -> & Hm). exists (e :: more). split; [by rewrite <- (assoc_L (++))|].
      intros t' [-> | Ht]%elem_of_cons; [exists e; split; [done|by apply elem_of_cons; left]|].
      destruct (Hm t' Ht) as (e' & E' & He'). exists e'. split; [done|]. apply elem_of_cons. by right. }
  destruct (H _ _ _ E) as (more & -> & Hm). exists more. split; [done|]. intros ids' t Hi Ht.
  assert (ids' = ids) as -> by congruence. by apply Hm.
Qed.

Lemma prepare_ok records evs : prepare cfg records = Ret evs -> Forall (reached evs) records.
Proof.
  unfold prepare. assert (H : forall records acc evs, ofold (prepare_record cfg) acc records = Ret evs ->
    exists more, evs = acc ++ more /\ Forall (reached more) records).
  { clear. induction records as [|r records IH]; intros acc evs E; cbn in E.
    - injection E as <-. exists []. by rewrite app_nil_r.
    - apply obind_ret in E as (acc' & E1 & E). destruct (prepare_record_ok acc r acc' E1) as (m1 & -> & H1).
      destruct (IH _ _ E) as (m2 & -> & H2). exists (m1 ++ m2). split; [by rewrite (assoc_L (++))|]. constructor.
      + by apply reached_app.
      + eapply Forall_impl; [exact H2|]. intros r'. apply reached_app_r. }
  intros E. destruct (H _ _ _ E) as (more & -> & Hm). done.
Qed.

Lemma delivered_all ok events : forallb ok (List.seq 0 (length events)) = true -> delivered ok events = events.
Proof.
  intros H. unfold delivered. rewrite filter_all; [by rewrite snd_zip by by rewrite length_seq|].
  intros [i e] Hi. apply elem_of_zip_l in Hi. rewrite forallb_forall in H. apply H.
  by apply list_elem_of_In.
Qed.

Lemma forallb_seq_forall ok n : (forall i, ok i = true) -> forallb ok (List.seq 0 n) = true.
Proof. intros H. apply forallb_forall. intros i _. apply H. Qed.

Definition polled_ok (w : Weather) (b : Broker) : Prop := forall k v, Some (Some k, Some v) ∈ polled w -> (k, v) ∈ checkpoints b.

(** *** A turn keeps the promise *)
Lemma absorb_ok b p m : broker_ok b -> publisher_ok (acked b) p ->
  (forall k v, m = Some (Some k, Some v) -> (k, v) ∈ checkpoints b) -> publisher_ok (acked b) (absorb cfg p m).
Proof.
  intros Hb [H1 H2 H3] Hm. unfold absorb. destruct m as [[key payload]|]; [|by split].
  destruct (decode_outbox_checkpoint _ key payload) as [[name o]|] eqn:E; [|by split].
  destruct key as [k|]; [|done]. destruct payload as [v|]; [|done].
  pose proof (Hb k v name o (Hm k v eq_refl) E) as Hc. split; [done| |done]. intros n o'. cbn.
  rewrite lookup_insert_Some. intros [[<- <-]|[_ Hn]]; [|by apply H2].
  destruct (shared_offsets p !! name) as [o0|] eqn:E0; [|done]. destruct (Z.max_spec o0 o) as [[_ ->]|[_ ->]]; [done|by apply H2].
Qed.

Lemma absorb_all_ok b w p : broker_ok b -> publisher_ok (acked b) p -> polled_ok w b ->
  publisher_ok (acked b) (foldl (absorb cfg) p (polled w)).
Proof.
  intros Hb Hp Hw. assert (H : forall ms p, publisher_ok (acked b) p -> (forall k v, Some (Some k, Some v) ∈ ms -> (k, v) ∈ checkpoints b) ->
    publisher_ok (acked b) (foldl (absorb cfg) p ms)); [|by apply H].
  clear Hp Hw p. induction ms as [|m ms IH]; intros p Hp Hm; [done|]. cbn. apply IH.
  - apply absorb_ok; [done|done|]. intros k v ->. apply Hm. by left.
  - intros k v Hk. apply Hm. by right.
Qed.

Lemma decode_own name offset name' o : 0 <= offset ->
  decode_outbox_checkpoint (p_group cfg) (Some (outbox_checkpoint_key (p_group cfg) name)) (Some (le_bytes 8 offset)) = Some (name', o) ->
  name' = name /\ o <= offset.
Proof.
  intros Ho. unfold decode_outbox_checkpoint, outbox_checkpoint_key. cbn [mbind option_bind].
  assert (Hl : length (be_bytes 4 (p_group cfg)) = 4%nat) by (unfold be_bytes; by rewrite length_rev, length_le_bytes).
  rewrite drop_app_length' by done. case_if; [done|]. case_if; [done|]. unfold to_str. case_if; [|done].
  cbn [mbind option_bind]. intros Hd. apply (inj Some) in Hd. apply pair_eq in Hd as [<- <-]. split; [done|]. rewrite le_value_mod64. by apply wrap64_le.
Qed.

Lemma send_checkpoint_ok w s name o : site_ok s -> pending_checkpoints (pub s) !! name = Some o ->
  site_ok (send_checkpoint cfg w s (name, o)).
Proof.
  intros [H1 H2 [P1 P2 P3] H4] Hn. destruct (P3 name o Hn) as [Ho Hc]. unfold send_checkpoint. destruct (checkpoint_sent w name); [|by split].
  split; [done|done| |].
  - split; [done| |].
    + intros n o'. cbn. rewrite lookup_insert_Some. intros [[<- <-]|[_ Hs]]; [done|by apply P2].
    + intros n o'. cbn. rewrite lookup_delete_Some. intros [_ Hs]. by apply P3.
  - intros k v n o' Hk Hd. cbn in *. apply elem_of_app in Hk as [Hk|Hk]; [by eapply H4|].
    apply list_elem_of_singleton in Hk. injection Hk as -> ->. destruct (decode_own _ _ _ _ Ho Hd) as [-> Hle]. by eapply covered_le.
Qed.

Lemma order_lookup {A : Type} (m : gmap bytes A) k a : (k, a) ∈ order A m <-> m !! k = Some a.
Proof. rewrite (Horder A m). apply elem_of_map_to_list. Qed.

Lemma order_nodup {A : Type} (m : gmap bytes A) : NoDup (order A m).*1.
Proof. rewrite (Horder A m). apply NoDup_fst_map_to_list. Qed.

Lemma send_checkpoints_ok w l s : site_ok s -> NoDup l.*1 -> (forall n o, (n, o) ∈ l -> pending_checkpoints (pub s) !! n = Some o) ->
  site_ok (foldl (send_checkpoint cfg w) s l) /\ store (foldl (send_checkpoint cfg w) s l) = store s.
Proof.
  revert s. induction l as [|[n o] l IH]; intros s Hs Hd Hl; [done|]. cbn [foldl]. apply NoDup_cons in Hd as [Hn Hd].
  destruct (IH (send_checkpoint cfg w s (n, o))) as [H1 H2].
  - apply send_checkpoint_ok; [done|]. apply Hl. by left.
  - done.
  - intros n' o' Hin. assert (n' <> n) by (intros ->; apply Hn, list_elem_of_fmap; by exists (n, o')).
    pose proof (Hl n' o' ltac:(by right)). unfold send_checkpoint. destruct (checkpoint_sent w n); cbn; [|done].
    by rewrite lookup_delete_ne.
  - split; [done|]. rewrite H2. unfold send_checkpoint. by destruct (checkpoint_sent w n).
Qed.

Lemma send_checkpoints_acked w l s : acked (broker (foldl (send_checkpoint cfg w) s l)) = acked (broker s).
Proof.
  revert s. induction l as [|[n o] l IH]; intros s; [done|]. cbn [foldl]. rewrite IH. unfold send_checkpoint.
  by destruct (checkpoint_sent w n).
Qed.

Lemma valid_aligned f o : valid_offset f o = true -> aligned o /\ 8 <= o <= Z.of_nat (length f).
Proof.
  unfold valid_offset. intros H. zbool. split; [|lia]. exists (Z.to_nat ((o - 8) / 80)).
  pose proof (Z.div_mod (o - 8) 80 ltac:(lia)). assert (0 <= (o - 8) / 80) by (apply Z.div_pos; lia). lia.
Qed.

Lemma open_reader_ok a st p file : cursors_ok a st -> publisher_ok a p -> publisher_ok a (open_reader st p file).
Proof.
  intros Hc Hp. destruct file as [path f]. unfold open_reader. case_if; [done|].
  destruct (open_with_cursor f (cursors st !! path)) as [rd|] eqn:Eo; [|done]. destruct Hp as [H1 H2 H3].
  split; [|done|done]. intros name r. cbn. rewrite lookup_insert_Some. intros [[<- <-]|[_ Hr]]; [|by apply H1].
  unfold open_with_cursor, open in Eo. destruct (length f <? 8)%nat; [done|]. destruct (negb _); [done|]. cbn [try_bind offset] in Eo.
  destruct (cursors st !! path) as [c|] eqn:Ec.
  - destruct (read_cursor_offset (Some c)) as [o|] eqn:Er; [|done]. destruct (valid_offset f o) eqn:Ev; [|done].
    injection Eo as <-. cbn. split; [by apply valid_aligned in Ev as [? _]|]. apply Hc. by rewrite Ec.
  - injection Eo as <-. cbn. split; [by exists 0%nat|]. by apply covered_start.
Qed.

Lemma open_readers_ok a st l p : cursors_ok a st -> publisher_ok a p -> publisher_ok a (foldl (open_reader st) p l).
Proof. intros Hc. revert p. induction l as [|f l IH]; intros p Hp; [done|]. cbn. by apply IH, open_reader_ok. Qed.

Lemma moved_ok s path rd c : site_ok s -> aligned (offset rd) -> covered (acked (broker s)) path (offset rd) ->
  (c = None \/ c = Some (cursor_image (offset rd))) -> site_ok (moved s path (rd, c)).
Proof.
  intros [H1 H2 [P1 P2 P3] H4] Ha Hc Hx. split.
  - destruct c; done.
  - assert (Hpos : 0 <= offset rd) by (destruct Ha; lia). destruct Hx as [-> | ->]; [done|]. intros name o. cbn [moved store cursors snd].
    destruct (decide (path = name)) as [<-|Hn]; [|rewrite lookup_insert_ne by done; apply H2].
    rewrite lookup_insert_eq, read_cursor_image. intros [= <-]. eapply covered_le; [exact Hc|]. by apply wrap64_le.
  - split; [|done|done]. intros name r. cbn. rewrite lookup_insert_Some. intros [[<- <-]|[_ Hr]]; [done|by apply P1].
  - done.
Qed.

Lemma follow_ok s path rd : site_ok s -> aligned (offset rd) -> covered (acked (broker s)) path (offset rd) -> site_ok (follow s (path, rd)).
Proof.
  intros Hs Ha Hc. unfold follow, outbox_checkpoint_name, to_str. destruct (valid_utf8 path); [cbn [mbind option_bind]|done].
  destruct (shared_offsets (pub s) !! path) as [o|] eqn:Eo; [|done]. destruct (seg_files (store s) !! path) as [f|]; [|done].
  unfold acknowledge_to. destruct (o <=? offset rd); [apply moved_ok; auto|]. destruct (valid_offset f o) eqn:Ev; cbn [negb]; [|done].
  apply moved_ok; cbn; [done| |by eapply po_shared; [eapply so_pub|]|destruct (has_cursor rd); auto].
  by apply valid_aligned in Ev as [? _].
Qed.

Lemma follow_same s pr : seg_files (store (follow s pr)) = seg_files (store s) /\ broker (follow s pr) = broker s.
Proof.
  destruct pr as [path rd]. unfold follow. destruct (_ ≫= _); [|done]. destruct (seg_files (store s) !! path); [|done].
  destruct (acknowledge_to _ _ _) as [[r [c|]]|]; done.
Qed.

Lemma follow_all_ok l s : site_ok s -> Forall (fun pr => aligned (offset pr.2) /\ covered (acked (broker s)) pr.1 (offset pr.2)) l ->
  site_ok (foldl follow s l) /\ broker (foldl follow s l) = broker s /\ seg_files (store (foldl follow s l)) = seg_files (store s).
Proof.
  intros Hs Hl. revert s Hs Hl. induction l as [|[path rd] l IH]; intros s Hs Hl; [done|]. cbn [foldl].
  apply Forall_cons_1 in Hl as [[Ha Hc] Hl]. destruct (follow_same s (path, rd)) as [E1 E2].
  destruct (IH (follow s (path, rd))) as (I1 & I2 & I3); [by apply follow_ok|by rewrite E2|]. by rewrite I2, I3, E1, E2.
Qed.

Lemma gather_ok w s : site_ok s -> polled_ok w (broker s) -> site_ok (gather cfg order w s) /\
  seg_files (store (gather cfg order w s)) = seg_files (store s) /\ acked (broker (gather cfg order w s)) = acked (broker s).
Proof.
  intros Hs Hw. unfold gather. set (s1 := mkSite (foldl _ _ _) _ _).
  assert (H1 : site_ok s1) by (destruct Hs; split; [done|done| |done]; by apply absorb_all_ok).
  set (l := order _ (pending_checkpoints (pub s1))). destruct (send_checkpoints_ok w l s1 H1) as [H2 E2].
  { apply order_nodup. } { intros n o. by apply order_lookup. }
  assert (Ea : acked (broker (foldl (send_checkpoint cfg w) s1 l)) = acked (broker s)).
  { by rewrite send_checkpoints_acked. }
  set (s2 := foldl (send_checkpoint cfg w) s1 l) in *. set (p3 := foldl (open_reader _) _ _). set (s3 := mkSite _ (store s2) (broker s2)).
  assert (H3 : site_ok s3).
  { destruct H2 as [A1 A2 A3 A4]. split; [done|done| |done]. destruct (open_readers_ok _ _ (order _ (seg_files (store s2))) _ A2 A3) as [B1 B2 B3].
    split; [|done|done]. intros name rd. cbn. rewrite map_lookup_filter_Some. intros [Hr _]. by apply B1. }
  destruct (follow_all_ok (order _ (readers (pub s3))) s3 H3) as (H4 & E4 & E5).
  { apply Forall_forall. intros [n rd] Hin. apply order_lookup in Hin. by apply (po_readers _ _ (so_pub _ H3)). }
  set (s4 := foldl follow _ _) in *. cbv zeta.
  assert (H5 : site_ok (if leads w then s4 else mkSite (set_healthy (pub s4) true) (store s4) (broker s4)) /\
    store (if leads w then s4 else mkSite (set_healthy (pub s4) true) (store s4) (broker s4)) = store s4 /\
    broker (if leads w then s4 else mkSite (set_healthy (pub s4) true) (store s4) (broker s4)) = broker s4).
  { destruct (leads w); [done|]. split; [|done]. destruct H4 as [? ? [? ? ?] ?]. by split. }
  destruct H5 as (H5 & E6 & E7). split; [|cbn; split].
  - destruct H5 as [? ? [? ? ?] ?]. by split.
  - rewrite E6, E5. cbn. by rewrite E2.
  - rewrite E7, E4. cbn. exact Ea.
Qed.

Lemma batch_covered a path f rd n evs : f `prefix_of` outbox_file (seg path) -> aligned (offset rd) -> covered a path (offset rd) ->
  prepare cfg (read_batch rd (Some f) n) = Ret evs ->
  covered (a ++ evs) path (offset rd + Z.of_nat (length (read_batch rd (Some f) n)) * 80).
Proof.
  intros Hf [j Hj] Hc He k r Hk Hlt. destruct (decide (k < j)%nat) as [Hkj|Hkj]; [apply reached_app, (Hc k r Hk); lia|].
  apply reached_app_r. pose proof (prepare_ok _ _ He) as Hall.
  destruct (read_batch_next (seg path) f j n rd (Hseg path) Hf Hj) as (m & Em & _). rewrite Em in *.
  rewrite Forall_forall in Hall. apply Hall. apply (list_elem_of_lookup_2 _ (k - j)). rewrite lookup_take_lt.
  - rewrite lookup_drop. by replace (j + (k - j))%nat with k by lia.
  - rewrite length_take in Hlt. lia.
Qed.

Lemma send_batch_ok w s path rd s' : site_ok s -> readers (pub s) !! path = Some rd -> send_batch cfg w s path rd = Ret s' ->
  site_ok s' /\ seg_files (store s') = seg_files (store s) /\ acked (broker s) `prefix_of` acked (broker s').
Proof.
  intros Hs Hr E. pose proof (po_readers _ _ (so_pub _ Hs) path rd Hr) as [Ha Hc]. destruct Hs as [S1 S2 S3 S4].
  unfold send_batch in E. case_bool_decide as He.
  { injection E as <-. split; [|done]. destruct S3. by split. }
  destruct (seg_files (store s) !! path) as [f|] eqn:Ef; [|done]. apply obind_ret in E as (evs & Ep & E).
  pose proof (batch_covered _ path f rd _ evs (S1 path f Ef) Ha Hc Ep) as Hnew.
  assert (Hmore : forall more h, site_ok (mkSite (set_healthy (pub s) h) (store s) (mkBroker (acked (broker s) ++ more) (checkpoints (broker s))))).
  { intros more h. split; [done| | |]; cbn.
    - intros name o Ho. by apply covered_app, S2.
    - destruct (publisher_ok_app _ more _ S3). by split.
    - intros k v name o Hk Hd. apply covered_app. by eapply S4. }
  destruct (forallb _ _) eqn:Eall; cbn [negb] in E.
  2: { injection E as <-. split; [apply Hmore|]. split; [done|]. by apply prefix_app_r. }
  rewrite (delivered_all _ _ Eall) in E. unfold outbox_checkpoint_name, to_str in E. destruct (valid_utf8 path).
  2: { injection E as <-. split; [|split; [done|by apply prefix_app_r]]. specialize (Hmore evs (publish_healthy (pub s))). by destruct (pub s). }
  cbv zeta in E. set (n := Z.of_nat _) in *. set (next := wrap64 _) in *.
  set (due := _ || _) in *. set (count := if due then _ else _) in *.
  set (p := set_due _ _ _) in *.
  assert (Hnext : 0 <= next /\ covered (acked (broker s) ++ evs) path next).
  { assert (0 <= offset rd + n * 80) by (destruct Ha; lia). unfold next. split; [apply wrap64_range|].
    eapply covered_le; [exact Hnew|]. by apply wrap64_le. }
  assert (Hp : forall h, site_ok (mkSite (set_healthy p h) (store s) (mkBroker (acked (broker s) ++ evs) (checkpoints (broker s))))).
  { intros h. destruct (Hmore evs h) as [? ? [M1 M2 M3] ?]. split; [done|done| |done]. split; [done|done|].
    intros name o. change (pending_checkpoints _) with (if due then <[path := next]> (pending_checkpoints (pub s)) else pending_checkpoints (pub s)).
    destruct due; [|apply M3]. rewrite lookup_insert_Some. intros [[<- <-]|[_ Hd]]; [done|by apply M3]. }
  destruct (acknowledge rd f n) as [[r c]|] eqn:Ek.
  - injection E as <-. split; [|split; [by destruct c|by apply prefix_app_r]].
    unfold acknowledge in Ek. destruct (n =? 0) eqn:En; zbool.
    { destruct (read_batch rd (Some f) (batch_size cfg)); [done|]. cbn in n. lia. }
    destruct (U64_MAX <? _); [done|]. destruct (_ <? _); [done|]. injection Ek as <- <-.
    apply moved_ok; cbn; [apply Hp| |exact Hnew|destruct (has_cursor rd); auto].
    destruct Ha as [j Hj]. exists (j + Z.to_nat n)%nat. lia.
  - injection E as <-. split; [apply Hp|]. split; [done|by apply prefix_app_r].
Qed.

Definition kept_by (s s' : Site) : Prop :=
  site_ok s' /\ seg_files (store s') = seg_files (store s) /\ acked (broker s) `prefix_of` acked (broker s').

Lemma visit_ok w s v path s' v' : site_ok s -> visit cfg w (s, v) path = Ret (s', v') -> kept_by s s'.
Proof.
  intros Hs. unfold visit. destruct (outbox_segment_order path) as [[shard n]|]; [|by intros [= <- <-]].
  case_bool_decide; [by intros [= <- <-]|]. destruct (readers (pub s) !! path) as [rd|] eqn:Er; [|by intros [= <- <-]].
  destruct (leads_at w path); cbn [negb]; [|by intros [= <- <-]]. intros E. apply obind_ret in E as (s1 & E1 & E).
  injection E as <- <-. by apply (send_batch_ok w s path rd).
Qed.

Lemma visits_ok w paths s v r : site_ok s -> ofold (visit cfg w) (s, v) paths = Ret r -> kept_by s r.1.
Proof.
  revert s v. induction paths as [|path paths IH]; intros s v Hs E; cbn in E; [by injection E as <-|].
  apply obind_ret in E as ([s1 v1] & E1 & E). destruct (visit_ok w s v path s1 v1 Hs E1) as (H1 & F1 & A1).
  destruct (IH s1 v1 H1 E) as (H2 & F2 & A2). split; [done|]. split; [congruence|]. by etransitivity.
Qed.

Lemma pass_ok w s s' : site_ok s -> polled_ok w (broker s) -> pass cfg order w s = Ret s' -> kept_by s s'.
Proof.
  intros Hs Hw E. destruct (gather_ok w s Hs Hw) as (H1 & F1 & A1). unfold pass in E. apply obind_ret in E as (r & E1 & E).
  injection E as <-. destruct (visits_ok w _ _ _ r H1 E1) as ([? ? [? ? ?] ?] & F2 & A2). split; [by split|]. cbn.
  split; [congruence|]. by rewrite <- A1.
Qed.

(** With a routing configuration that has a partition for every order no turn panics. *)
Hypothesis (Hrouting : config_ok (routing cfg)) (Hparts : db_count (routing cfg) <= execution_partitions cfg <= U32_MAX).

Lemma event_for_total r target : exists e, event_for cfg r target = Ret e.
Proof using Hrouting Hparts.
  destruct (route_full_ok (routing cfg) Hrouting target) as (v & l & db & table & E & _ & _ & _ & Hdb & _).
  destruct Hrouting as (Hd & _).
  eapply (execution_partition_ok _ _ _ _ _ _ (execution_partitions cfg)) in E as (p & Ep & _); [|lia..]. unfold event_for. rewrite Ep. by eexists.
Qed.

Lemma prepare_total records : Forall out_ok records -> exists evs, prepare cfg records = Ret evs.
Proof using Hrouting Hparts.
  intros Hr. unfold prepare. generalize (@nil Event). induction Hr as [|r records Hok Hr IH]; intros acc; [by eexists|]. cbn [ofold].
  assert (exists acc', prepare_record cfg acc r = Ret acc') as [acc' ->]; [|apply IH]. unfold prepare_record, OutboxRecord.target_order_ids.
  destruct Hok as (_ & _ & _ & Hl). unfold decode_report. rewrite Hl, Nat.leb_refl. cbn [expect obind]. clear IH.
  match goal with |- context [ofold _ _ ?l] => generalize l; intros ids end.
  generalize acc. induction ids as [|t ids IHi]; intros acc0; [by eexists|]. cbn [ofold].
  destruct (event_for_total r t) as [e ->]. cbn [obind]. apply IHi.
Qed.

Lemma send_batch_total w s path rd : site_ok s -> readers (pub s) !! path = Some rd -> exists s', send_batch cfg w s path rd = Ret s'.
Proof using Hrouting Hparts Hseg.
  intros Hs Hr. destruct (po_readers _ _ (so_pub _ Hs) path rd Hr) as [[j Hj] _]. unfold send_batch. case_bool_decide as He; [by eexists|].
  destruct (seg_files (store s) !! path) as [f|] eqn:Ef; [|done].
  destruct (read_batch_next (seg path) f j (batch_size cfg) rd (Hseg path) (so_store _ Hs _ _ Ef) Hj) as (m & Em & _).
  destruct (prepare_total (read_batch rd (Some f) (batch_size cfg))) as [evs ->].
  { rewrite Em. apply Forall_take, Forall_drop, Hseg. }
  cbn [obind]. case_if; [by eexists|]. destruct (outbox_checkpoint_name path); [|by eexists].
  destruct (acknowledge _ _ _); by eexists.
Qed.

Lemma visits_total w paths s v : site_ok s -> exists r, ofold (visit cfg w) (s, v) paths = Ret r.
Proof using Hrouting Hparts Hseg.
  revert s v. induction paths as [|path paths IH]; intros s v Hs; [by eexists|]. cbn [ofold].
  assert (exists s1 v1, visit cfg w (s, v) path = Ret (s1, v1)) as (s1 & v1 & E).
  { unfold visit. destruct (outbox_segment_order path) as [[shard n]|]; [|by eexists _, _]. case_bool_decide; [by eexists _, _|].
    destruct (readers (pub s) !! path) as [rd|] eqn:Er; [|by eexists _, _]. destruct (leads_at w path); cbn [negb]; [|by eexists _, _].
    destruct (send_batch_total w s path rd Hs Er) as [s1 ->]. by eexists _, _. }
  rewrite E. cbn [obind]. apply IH. by apply (visit_ok w s v path s1 v1).
Qed.

Lemma pass_total w s : site_ok s -> polled_ok w (broker s) -> exists s', pass cfg order w s = Ret s'.
Proof using Hrouting Hparts Hseg Horder.
  intros Hs Hw. unfold pass. destruct (visits_total w (publish_paths order (pub (gather cfg order w s))) (gather cfg order w s) []) as [r ->].
  - by apply gather_ok.
  - by eexists.
Qed.
End promise.

(** ** Progress

    The cursor of one segment across a turn: the reader, if there is one, and the
    cursor file agree. *)
Section progress.
Context (cfg : Config) (order : forall A : Type, gmap bytes A -> list (bytes * A)).
Context (Horder : forall A (m : gmap bytes A), order A m ≡ₚ map_to_list m).
Context (path : bytes) (recs : list OutboxRecord) (Hrecs : Forall out_ok recs).
Context (Hlen : Z.of_nat (length (outbox_file recs)) <= U64_MAX).

Definition has_reader (p : Publisher) (o : Z) : Prop := readers p !! path = Some (mkReader o true).

Definition cursor_at (st : Store) (o : Z) : Prop :=
  (cursors st !! path = None /\ o = 8) \/ read_cursor_offset (cursors st !! path) = Some o.

Definition place (j : nat) : Z := 8 + 80 * Z.of_nat j.

(** At the [j]th record of the segment. *)
Record stands (s : Site) (j : nat) : Prop := {
  st_reader : readers (pub s) !! path = None \/ has_reader (pub s) (place j);
  st_cursor : cursor_at (store s) (place j);
  st_file : seg_files (store s) !! path = Some (outbox_file recs);
  st_range : (j <= length recs)%nat
}.

Definition reads (s : Site) (j : nat) : Prop := has_reader (pub s) (place j) /\ stands s j.

Lemma file_length : Z.of_nat (length (outbox_file recs)) = place (length recs).
Proof. rewrite length_outbox_file by done. unfold place. lia. Qed.

Lemma place_valid o : valid_offset (outbox_file recs) o = true <-> exists j, o = place j /\ (j <= length recs)%nat.
Proof.
  unfold valid_offset. rewrite !andb_true_iff, !negb_true_iff, Z.eqb_eq, !Z.ltb_ge, file_length. unfold place. split.
  - intros [[H1 H2] H3]. exists (Z.to_nat ((o - 8) / 80)). pose proof (Z.div_mod (o - 8) 80 ltac:(lia)).
    assert (0 <= (o - 8) / 80) by (apply Z.div_pos; lia). lia.
  - intros (j & -> & Hj). split_and!; [lia| |lia]. replace (8 + 80 * Z.of_nat j - 8) with (Z.of_nat j * 80) by lia. apply Z_mod_mult.
Qed.

(** *** Opening *)
Lemma open_other st p file : file.1 <> path -> readers (open_reader st p file) !! path = readers p !! path.
Proof.
  intros Hn. destruct file as [q f]. cbn in Hn. unfold open_reader. case_if; [done|]. destruct (open_with_cursor _ _); [|done].
  cbn. by rewrite lookup_insert_ne.
Qed.

Lemma open_others st l p : path ∉ l.*1 -> readers (foldl (open_reader st) p l) !! path = readers p !! path.
Proof.
  revert p. induction l as [|file l IH]; intros p Hn; [done|]. cbn [foldl]. rewrite fmap_cons, not_elem_of_cons in Hn.
  rewrite IH, open_other by naive_solver. done.
Qed.

Lemma open_here s p j : stands s j -> is_execution_outbox_file path = true ->
  readers p !! path = None \/ has_reader p (place j) -> has_reader (open_reader (store s) p (path, outbox_file recs)) (place j).
Proof.
  intros [_ Hc _ Hj] Hf Hp. unfold open_reader. rewrite Hf. cbn [negb orb]. destruct Hp as [Hp|Hp].
  2: { by rewrite bool_decide_true by (rewrite Hp; by eexists). }
  rewrite bool_decide_false by (rewrite Hp; by intros [? ?]).
  assert (open_with_cursor (outbox_file recs) (cursors (store s) !! path) = Ok (mkReader (place j) true)) as ->.
  { unfold open_with_cursor, open. rewrite (proj2 (Nat.ltb_ge _ _)) by (rewrite length_outbox_file by done; lia).
    assert (Ht : take 8 (outbox_file recs) = OUTBOX_HEADER) by by apply take_app_length'. rewrite Ht, bool_decide_true by done.
    cbn [negb try_bind offset]. destruct Hc as [[Hc Hz]|Hc].
    - rewrite Hc. by rewrite Hz.
    - destruct (cursors (store s) !! path) as [c|]; [|done]. rewrite Hc.
      by rewrite (proj2 (place_valid _)) by by eexists. }
  apply lookup_insert_eq.
Qed.

Lemma open_all s p j : stands s j -> is_execution_outbox_file path = true ->
  readers p !! path = None \/ has_reader p (place j) ->
  has_reader (foldl (open_reader (store s)) p (order _ (seg_files (store s)))) (place j).
Proof.
  intros Hs Hf Hp. assert (Hin : (path, outbox_file recs) ∈ order _ (seg_files (store s))).
  { apply order_lookup; [done|]. apply Hs. }
  pose proof (order_nodup order Horder (seg_files (store s))) as Hnd.
  apply list_elem_of_split in Hin as (l1 & l2 & El). rewrite El in *. rewrite fmap_app, fmap_cons in Hnd.
  apply NoDup_app in Hnd as (_ & Hd1 & Hd2). apply NoDup_cons in Hd2 as [Hd2 _].
  rewrite foldl_app. cbn [foldl]. unfold has_reader. rewrite open_others by done. apply open_here; [done|done|].
  unfold has_reader. rewrite open_others; [done|]. intros H. apply (Hd1 path H). by left.
Qed.

(** *** Following the group's cursor *)
Lemma follow_other s q rd : q <> path ->
  readers (pub (follow s (q, rd))) !! path = readers (pub s) !! path /\
  cursors (store (follow s (q, rd))) !! path = cursors (store s) !! path.
Proof.
  intros Hn. unfold follow. destruct (_ ≫= _); [|done]. destruct (seg_files (store s) !! q); [|done].
  destruct (acknowledge_to _ _ _) as [[r [c|]]|]; cbn; rewrite ?lookup_insert_ne by done; done.
Qed.

Lemma stands_same s s' j : stands s j -> readers (pub s') !! path = readers (pub s) !! path ->
  cursors (store s') !! path = cursors (store s) !! path -> seg_files (store s') = seg_files (store s) -> stands s' j.
Proof. intros [H1 H2 H3 H4] E1 E2 E3. unfold cursor_at, has_reader in *. split; unfold cursor_at, has_reader; by rewrite ?E1, ?E2, ?E3. Qed.

Lemma follow_here s j : reads s j -> exists j', (j <= j')%nat /\ reads (follow s (path, mkReader (place j) true)) j'.
Proof.
  intros [Hr Hs]. pose proof Hs as [H1 H2 H3 H4]. unfold follow. destruct (_ ≫= _) as [o|]; [|by exists j]. rewrite H3.
  unfold acknowledge_to. cbn [offset has_cursor]. destruct (o <=? place j) eqn:Eo.
  - exists j. split; [done|]. split; [apply lookup_insert_eq|]. eapply stands_same; [done|..]; cbn; [|done|done].
    by rewrite lookup_insert_eq, Hr.
  - zbool. destruct (valid_offset (outbox_file recs) o) eqn:Ev; cbn [negb]; [|by exists j].
    apply place_valid in Ev as (j' & -> & Hj'). exists j'. unfold place in Eo. split; [lia|].
    split; [apply lookup_insert_eq|]. split; [right; apply lookup_insert_eq| |done|done]. right. cbn [moved store cursors snd].
    rewrite lookup_insert_eq, read_cursor_image. f_equal. apply wrap64_small. rewrite file_length in Hlen. unfold place in *. unfold_width. lia.
Qed.

Lemma follow_others l s j : reads s j -> path ∉ l.*1 -> reads (foldl follow s l) j.
Proof.
  revert s. induction l as [|[q rd] l IH]; intros s Hs Hn; [done|]. cbn [foldl]. rewrite fmap_cons, not_elem_of_cons in Hn.
  destruct Hn as [Hq Hn]. cbn in Hq. apply IH; [|done]. destruct (follow_other s q rd) as [E1 E2]; [done|].
  destruct (follow_same s (q, rd)) as [E3 _]. destruct Hs as [Hr Hs]. split; [by unfold has_reader; rewrite E1|by eapply stands_same].
Qed.

Lemma follow_all s j : reads s j -> exists j', (j <= j')%nat /\ reads (foldl follow s (order _ (readers (pub s)))) j'.
Proof.
  intros Hs. assert (Hin : (path, mkReader (place j) true) ∈ order _ (readers (pub s))) by (apply order_lookup; [done|apply Hs]).
  pose proof (order_nodup order Horder (readers (pub s))) as Hnd. apply list_elem_of_split in Hin as (l1 & l2 & El). rewrite El in *.
  rewrite fmap_app, fmap_cons in Hnd. apply NoDup_app in Hnd as (_ & Hd1 & Hd2). apply NoDup_cons in Hd2 as [Hd2 _].
  rewrite foldl_app. cbn [foldl]. assert (H1 : reads (foldl follow s l1) j).
  { apply follow_others; [done|]. intros H. apply (Hd1 path H). by left. }
  destruct (follow_here _ _ H1) as (j' & Hj & H2). exists j'. split; [done|]. by apply follow_others.
Qed.

Lemma follow_dom l s : (forall q, q ∈ l.*1 -> is_Some (seg_files (store s) !! q)) ->
  (forall q, is_Some (readers (pub s) !! q) -> is_Some (seg_files (store s) !! q)) ->
  forall q, is_Some (readers (pub (foldl follow s l)) !! q) -> is_Some (seg_files (store s) !! q).
Proof.
  revert s. induction l as [|[q0 rd] l IH]; intros s Hl Hs; [done|]. cbn [foldl].
  destruct (follow_same s (q0, rd)) as [E3 _]. specialize (IH (follow s (q0, rd))). rewrite E3 in IH. apply IH.
  { intros q Hq. apply Hl. by right. }
  intros q. unfold follow. destruct (_ ≫= _); [|by apply Hs]. destruct (seg_files (store s) !! q0) eqn:E0; [|by apply Hs].
  destruct (acknowledge_to _ _ _) as [[r c]|]; [|by apply Hs]. cbn. destruct (decide (q0 = q)) as [<-|Hn].
  - intros _. rewrite E0. by eexists.
  - rewrite lookup_insert_ne by done. apply Hs.
Qed.

Lemma absorbs_readers ms p : readers (foldl (absorb cfg) p ms) = readers p.
Proof.
  revert p. induction ms as [|m ms IH]; intros p; [done|]. cbn [foldl]. rewrite IH. unfold absorb.
  destruct m as [[k v]|]; [|done]. by destruct (decode_outbox_checkpoint _ k v) as [[? ?]|].
Qed.

Lemma send_checkpoints_same w l s : readers (pub (foldl (send_checkpoint cfg w) s l)) = readers (pub s) /\
  store (foldl (send_checkpoint cfg w) s l) = store s.
Proof.
  revert s. induction l as [|[n o] l IH]; intros s; [done|]. cbn [foldl]. destruct (IH (send_checkpoint cfg w s (n, o))) as [-> ->].
  unfold send_checkpoint. by destruct (checkpoint_sent w n).
Qed.

(** After the first half of a turn the segment has its reader, no earlier than
    before, and every reader has its file. *)
Lemma gather_reads w s j : stands s j -> is_execution_outbox_file path = true ->
  (exists j', (j <= j')%nat /\ reads (gather cfg order w s) j') /\
  (forall q, is_Some (readers (pub (gather cfg order w s)) !! q) -> is_Some (seg_files (store s) !! q)).
Proof.
  intros Hs Hf. unfold gather. set (s1 := mkSite (foldl _ _ _) _ _). set (l := order _ (pending_checkpoints (pub s1))).
  destruct (send_checkpoints_same w l s1) as [R2 S2]. set (s2 := foldl (send_checkpoint cfg w) s1 l) in *. cbn [pub s1] in R2.
  rewrite absorbs_readers in R2. change (store s1) with (store s) in S2.
  set (p3 := foldl (open_reader _) _ _). set (s3 := mkSite _ (store s2) (broker s2)).
  assert (H3 : has_reader p3 (place j)).
  { unfold p3. rewrite S2. apply open_all; [done|done|]. unfold has_reader. rewrite R2. apply Hs. }
  assert (H4 : reads s3 j).
  { split.
    - unfold has_reader. cbn. apply map_lookup_filter_Some. split; [done|]. cbn. rewrite S2, (st_file _ _ Hs). by eexists.
    - destruct Hs as [A1 A2 A3 A4]. split; cbn; [|by rewrite S2..|done]. right. apply map_lookup_filter_Some. split; [done|].
      cbn. rewrite S2, A3. by eexists. }
  assert (H5 : forall q, is_Some (readers (pub s3) !! q) -> is_Some (seg_files (store s3) !! q)).
  { intros q [rd Hq]. cbn in Hq. by apply map_lookup_filter_Some in Hq as [_ Hq]. }
  pose proof (follow_all s3 j H4) as (j' & Hj & H6).
  pose proof (follow_dom (order _ (readers (pub s3))) s3) as H7. set (s4 := foldl follow s3 _) in *.
  split.
  - exists j'. split; [done|]. cbv zeta. destruct H6 as [B1 [B2 B3 B4 B5]].
    destruct (leads w); split; try done; by split.
  - assert (H8 : forall q, is_Some (readers (pub s4) !! q) -> is_Some (seg_files (store s) !! q)).
    { intros q Hq. change (store s3) with (store s2) in H7. rewrite S2 in H7. apply H7; [| |done].
      - intros q' Hq'. apply list_elem_of_fmap in Hq' as ([q0 rd] & -> & Hq'). apply order_lookup in Hq'; [|done].
        pose proof (H5 q0 (ltac:(by eexists))) as Hq''. change (store s3) with (store s2) in Hq''. by rewrite S2 in Hq''.
      - intros q' Hq'. apply H5 in Hq'. change (store s3) with (store s2) in Hq'. by rewrite S2 in Hq'. }
    cbv zeta. by destruct (leads w).
Qed.

(** *** Sending *)
Lemma send_other w s q rd s' : q <> path -> send_batch cfg w s q rd = Ret s' ->
  readers (pub s') !! path = readers (pub s) !! path /\ cursors (store s') !! path = cursors (store s) !! path /\
  seg_files (store s') = seg_files (store s).
Proof.
  intros Hn E. unfold send_batch in E. case_bool_decide; [by injection E as <-|]. apply obind_ret in E as (evs & _ & E).
  destruct (forallb _ _); cbn [negb] in E; [|by injection E as <-]. destruct (outbox_checkpoint_name q); [|by injection E as <-].
  cbv zeta in E. destruct (seg_files (store s) !! q); [|by injection E as <-].
  destruct (acknowledge _ _ _) as [[r [c|]]|]; injection E as <-; cbn; rewrite ?lookup_insert_ne by done; done.
Qed.

Lemma read_batch_here n j : (j <= length recs)%nat ->
  read_batch (mkReader (place j) true) (Some (outbox_file recs)) n = take n (drop j recs).
Proof.
  intros Hj. unfold read_batch, place. cbn [offset]. replace (Z.to_nat (8 + 80 * Z.of_nat j)) with (8 + 80 * j)%nat by lia.
  rewrite <- (app_nil_r (outbox_file recs)), drop_file by done. apply read_loop_prefix; [by apply Forall_drop|cbn; lia].
Qed.

Lemma send_here w s j s' : reads s j -> (forall i, sent w path i = true) -> valid_utf8 path = true -> (0 < batch_size cfg)%nat ->
  send_batch cfg w s path (mkReader (place j) true) = Ret s' -> reads s' (Nat.min (j + batch_size cfg) (length recs)).
Proof.
  intros [Hr [H1 H2 H3 H4]] Hsent Hu Hb E. unfold send_batch in E. rewrite H3, read_batch_here in E by done.
  case_bool_decide as He.
  { injection E as <-. assert (j = length recs) as ->.
    { apply (f_equal length) in He. rewrite length_take, length_drop in He. cbn in He. lia. }
    rewrite Nat.min_r by lia. split; [done|by split]. }
  apply obind_ret in E as (evs & _ & E). rewrite forallb_seq_forall in E by done. cbn [negb] in E.
  unfold outbox_checkpoint_name, to_str in E. rewrite Hu in E. cbv zeta in E.
  set (n := Z.of_nat (length (take _ _))) in *. assert (Hn : n = Z.of_nat (Nat.min (batch_size cfg) (length recs - j))).
  { unfold n. by rewrite length_take, length_drop. }
  assert (Hn0 : 0 < n).
  { destruct (take (batch_size cfg) (drop j recs)); [done|]. unfold n. cbn. lia. }
  set (j' := Nat.min _ _). assert (Hplace : place j + n * 80 = place j') by (unfold place, j'; lia).
  assert (Hle : place j' <= place (length recs)) by (unfold place, j'; lia). rewrite file_length in Hlen.
  unfold acknowledge in E. cbn [offset has_cursor] in E. rewrite Hplace, file_length in E.
  rewrite (proj2 (Z.eqb_neq n 0)), (proj2 (Z.ltb_ge U64_MAX _)), (proj2 (Z.ltb_ge (place (length recs)) _)) in E by lia.
  injection E as <-. split; [apply lookup_insert_eq|].
  split; [right; apply lookup_insert_eq| |done|unfold j'; lia]. right. cbn [moved store cursors snd].
  rewrite lookup_insert_eq, read_cursor_image. f_equal. apply wrap64_small. unfold place in *. unfold_width. lia.
Qed.

(** *** The walk over the segments *)
Lemma visit_other w s v q r j : reads s j -> q <> path -> visit cfg w (s, v) q = Ret r -> reads r.1 j.
Proof.
  intros Hs Hq. unfold visit. destruct (outbox_segment_order q) as [[shard n]|]; [|by intros [= <-]].
  case_bool_decide; [by intros [= <-]|]. destruct (readers (pub s) !! q) as [rd|]; [|by intros [= <-]].
  destruct (leads_at w q); cbn [negb]; [|by intros [= <-]]. intros E. apply obind_ret in E as (s1 & E1 & E). injection E as <-. cbn.
  destruct (send_other w s q rd s1 Hq E1) as (A & B & C). destruct Hs as [Hr Hs]. split; [by unfold has_reader; rewrite A|by eapply stands_same].
Qed.

Lemma visits_others w l s v r j : reads s j -> path ∉ l -> ofold (visit cfg w) (s, v) l = Ret r -> reads r.1 j.
Proof.
  revert s v. induction l as [|q l IH]; intros s v Hs Hn E; cbn in E; [by injection E as <-|]. apply not_elem_of_cons in Hn as [Hq Hn].
  apply obind_ret in E as ([s1 v1] & E1 & E). eapply (IH s1 v1); [|done|done]. by apply (visit_other w s v q _ j Hs ltac:(done) E1).
Qed.

Lemma visits_shards w l s v r shard : shard ∉ v -> (forall q n, q ∈ l -> outbox_segment_order q = Some (shard, n) -> False) ->
  ofold (visit cfg w) (s, v) l = Ret r -> shard ∉ r.2.
Proof.
  revert s v. induction l as [|q l IH]; intros s v Hv Hl E; cbn in E; [by injection E as <-|].
  apply obind_ret in E as ([s1 v1] & E1 & E). eapply (IH s1 v1); [| |done].
  - unfold visit in E1. destruct (outbox_segment_order q) as [[sh n]|] eqn:Eq; [|by injection E1 as <- <-].
    assert (sh <> shard) by (intros ->; apply (Hl q n); [by left|done]).
    case_bool_decide; [by injection E1 as <- <-|]. assert (shard ∉ sh :: v) by (apply not_elem_of_cons; naive_solver).
    destruct (readers (pub s) !! q) as [rd|]; [|by injection E1 as <- <-]. destruct (leads_at w q); cbn [negb] in E1; [|by injection E1 as <- <-].
    apply obind_ret in E1 as (s2 & _ & E1). by injection E1 as <- <-.
  - intros q' n Hq'. apply Hl. by right.
Qed.
End progress.

#[global] Instance key_le_trans : Transitive key_le.
Proof. intros a b c. unfold key_le. lia. Qed.

#[global] Instance key_le_total : Total key_le.
Proof. intros a b. unfold key_le. lia. Qed.

(** The segment a turn visits in its shard. *)
Definition oldest (files : gmap bytes bytes) (path : bytes) : Prop :=
  exists shard n, outbox_segment_order path = Some (shard, n) /\
    forall q n', q <> path -> is_Some (files !! q) -> outbox_segment_order q = Some (shard, n') -> n < n'.

Definition run_passes (cfg : Config) (order : forall A : Type, gmap bytes A -> list (bytes * A)) (ws : list Weather) (s : Site)
    : outcome Site := ofold (fun s w => pass cfg order w s) s ws.

(** The node leads and the broker takes what it is sent. *)
Definition fair (path : bytes) (w : Weather) : Prop := leads_at w path = true /\ forall i, sent w path i = true.

Section drain.
Context (cfg : Config) (order : forall A : Type, gmap bytes A -> list (bytes * A)).
Context (Horder : forall A (m : gmap bytes A), order A m ≡ₚ map_to_list m) (Hbatch : (0 < batch_size cfg)%nat).

Lemma pass_progress path recs w s s' j : Forall out_ok recs -> Z.of_nat (length (outbox_file recs)) <= U64_MAX ->
  is_execution_outbox_file path = true -> valid_utf8 path = true -> oldest (seg_files (store s)) path -> fair path w ->
  stands path recs s j -> pass cfg order w s = Ret s' ->
  exists j', (Nat.min (j + batch_size cfg) (length recs) <= j')%nat /\ stands path recs s' j'.
Proof.
  intros Hrecs Hlen Hf Hu (shard & n & Ho & Hold) [Hlead Hsent] Hs E. unfold pass in E. apply obind_ret in E as (r & E & E').
  injection E' as <-. destruct (gather_reads cfg order Horder path recs Hrecs Hlen w s j Hs Hf) as [(j1 & Hj1 & H1) Hdom].
  set (s1 := gather cfg order w s) in *. set (paths := publish_paths order (pub s1)) in *.
  assert (Hperm : paths ≡ₚ (order _ (readers (pub s1))).*1) by apply merge_sort_Permutation.
  assert (Hsort : StronglySorted key_le paths) by (apply StronglySorted_merge_sort; apply _).
  assert (Hnd : NoDup paths) by (rewrite Hperm; by apply order_nodup).
  assert (Hin : path ∈ paths).
  { rewrite Hperm. apply list_elem_of_fmap. exists (path, mkReader (place j1) true). split; [done|]. apply order_lookup; [done|]. apply H1. }
  assert (Hex : forall q, q ∈ paths -> is_Some (seg_files (store s) !! q)).
  { intros q Hq. rewrite Hperm in Hq. apply list_elem_of_fmap in Hq as ([q' rd] & -> & Hq). apply order_lookup in Hq; [|done].
    apply Hdom. by eexists. }
  apply list_elem_of_split in Hin as (l1 & l2 & El). rewrite El in *. apply NoDup_app in Hnd as (_ & Hd1 & Hd2).
  apply NoDup_cons in Hd2 as [Hd2 _]. assert (Hnin : path ∉ l1) by (intros H; apply (Hd1 path H); by left).
  rewrite ofold_app in E. apply obind_ret in E as ([s2 v2] & E1 & E).
  pose proof (visits_others cfg path recs w l1 s1 [] _ j1 H1 Hnin E1) as H2. cbn [fst] in H2.
  assert (Hv : shard ∉ v2).
  { apply (visits_shards cfg w l1 s1 [] (s2, v2) shard); [apply not_elem_of_nil| |done]. intros q n' Hq Hqo.
    assert (n < n').
    { apply (Hold q n'); [by intros -> |apply Hex, elem_of_app; by left|done]. }
    assert (Hk : key_le q path) by (eapply StronglySorted_app_1_elem_of; [exact Hsort|done|by left]).
    unfold key_le, segment_key in Hk. rewrite Ho, Hqo in Hk. cbn in Hk. lia. }
  cbn [ofold] in E. apply obind_ret in E as ([s3 v3] & E2 & E). unfold visit in E2. rewrite Ho, bool_decide_false in E2 by done.
  rewrite (proj1 H2), Hlead in E2. cbn [negb] in E2. apply obind_ret in E2 as (s4 & E2 & E3). injection E3 as <- <-.
  pose proof (send_here cfg path recs Hrecs Hlen w s2 j1 s4 H2 Hsent Hu Hbatch E2) as H3.
  pose proof (visits_others cfg path recs w l2 s4 _ r _ H3 Hd2 E) as H4.
  exists (Nat.min (j1 + batch_size cfg) (length recs)). split; [lia|]. destruct H4 as [_ [? ? ? ?]]. by split.
Qed.

Lemma visits_topic w l s v r : ofold (visit cfg w) (s, v) l = Ret r -> checkpoints (broker r.1) = checkpoints (broker s).
Proof.
  revert s v. induction l as [|q l IH]; intros s v E; cbn in E; [by injection E as <-|]. apply obind_ret in E as ([s1 v1] & E1 & E).
  rewrite (IH _ _ E). unfold visit in E1. destruct (outbox_segment_order q) as [[? ?]|]; [|by injection E1 as <- <-].
  case_bool_decide; [by injection E1 as <- <-|]. destruct (readers (pub s) !! q); [|by injection E1 as <- <-].
  destruct (leads_at w q); cbn [negb] in E1; [|by injection E1 as <- <-]. apply obind_ret in E1 as (s2 & E1 & E2). injection E2 as <- <-.
  unfold send_batch in E1. case_bool_decide; [by injection E1 as <-|]. apply obind_ret in E1 as (evs & _ & E1).
  destruct (forallb _ _); cbn [negb] in E1; [|by injection E1 as <-]. destruct (outbox_checkpoint_name q); [|by injection E1 as <-].
  cbv zeta in E1. destruct (seg_files (store s) !! q); [|by injection E1 as <-]. destruct (acknowledge _ _ _) as [[? ?]|]; by injection E1 as <-.
Qed.

Lemma follow_broker l s : broker (foldl follow s l) = broker s.
Proof. revert s. induction l as [|pr l IH]; intros s; [done|]. cbn [foldl]. rewrite IH. apply follow_same. Qed.

Lemma send_checkpoints_grow w l s : checkpoints (broker s) `prefix_of` checkpoints (broker (foldl (send_checkpoint cfg w) s l)).
Proof.
  revert s. induction l as [|[n o] l IH]; intros s; [done|]. cbn [foldl]. etransitivity; [|apply IH].
  unfold send_checkpoint. destruct (checkpoint_sent w n); [|done]. cbn. by apply prefix_app_r.
Qed.

Lemma pass_topic w s s' : pass cfg order w s = Ret s' -> checkpoints (broker s) `prefix_of` checkpoints (broker s').
Proof.
  intros E. unfold pass in E. apply obind_ret in E as (r & E & E'). injection E' as <-. cbn [count_pending broker].
  rewrite (visits_topic _ _ _ _ _ E). unfold gather. cbv zeta. cbn [count_pending broker].
  destruct (leads w); cbn [broker]; rewrite follow_broker; cbn [broker]; apply (send_checkpoints_grow w _ (mkSite _ _ (broker s))).
Qed.
End drain.

(** A configuration [main] can produce, with a partition for every database. *)
Definition publisher_config_ok (cfg : Config) : Prop :=
  config_ok (routing cfg) /\ db_count (routing cfg) <= execution_partitions cfg <= U32_MAX /\ (0 < batch_size cfg)%nat.

Lemma drain_loop cfg order seg path ws s j :
  (forall A (m : gmap bytes A), order A m ≡ₚ map_to_list m) -> (forall name, Forall out_ok (seg name)) ->
  publisher_config_ok cfg -> Z.of_nat (length (outbox_file (seg path))) <= U64_MAX ->
  is_execution_outbox_file path = true -> valid_utf8 path = true -> oldest (seg_files (store s)) path ->
  Forall (fair path) ws -> Forall (fun w => polled_ok w (broker s)) ws -> site_ok cfg seg s -> stands path (seg path) s j ->
  exists s' j', run_passes cfg order ws s = Ret s' /\ site_ok cfg seg s' /\ stands path (seg path) s' j' /\
    (Nat.min (j + length ws * batch_size cfg) (length (seg path)) <= j')%nat.
Proof.
  intros Horder Hseg (Hr & Hp & Hb) Hlen Hf Hu Hold Hfair. revert s j Hold.
  induction Hfair as [|w ws Hw Hfair IH]; intros s j Hold Hpolled Hs Hst.
  - exists s, j. split_and!; [done|done|done|]. pose proof (st_range _ _ _ _ Hst). cbn. lia.
  - apply Forall_cons_1 in Hpolled as [Hpw Hpolled].
    destruct (pass_total cfg order seg Horder Hseg Hr Hp w s Hs Hpw) as [s1 E1].
    destruct (pass_ok cfg order seg Horder Hseg w s s1 Hs Hpw E1) as (H1 & F1 & _).
    destruct (pass_progress cfg order Horder Hb path (seg path) w s s1 j (Hseg path) Hlen Hf Hu Hold Hw Hst E1) as (j1 & Hj1 & Hst1).
    destruct (IH s1 j1) as (s' & j' & E & Hs' & Hst' & Hj').
    + by rewrite F1.
    + pose proof (pass_topic cfg order w s s1 E1) as Ht. eapply Forall_impl; [exact Hpolled|]. intros w' Hw' k v Hk.
      eapply elem_of_prefix; [by apply Hw'|done].
    + done.
    + done.
    + exists s', j'. split_and!; [|done|done|].
      * unfold run_passes in *. cbn [ofold]. by rewrite E1.
      * cbn [length]. lia.
Qed.

(** C27: The oldest segment is published.  Let a node lead and the broker take what
    it is sent, for as many turns as the pending records of the oldest segment of
    a shard make batches.  Then no turn panics, and at the end every event of every
    record of the segment has been acknowledged by the broker, its reader has nothing
    left to send, and the cursor on disk covers the whole file, which is
    the condition for the writer to remove it. *)
Theorem oldest_segment_drains (cfg : Config) (order : forall A : Type, gmap bytes A -> list (bytes * A))
    (seg : bytes -> list OutboxRecord) (path : bytes) (ws : list Weather) (s : Site) (j : nat)
    (Horder : forall A (m : gmap bytes A), order A m ≡ₚ map_to_list m) (Hseg : forall name, Forall out_ok (seg name))
    (Hcfg : publisher_config_ok cfg) (Hlen : Z.of_nat (length (outbox_file (seg path))) <= U64_MAX)
    (Hname : is_execution_outbox_file path = true) (Hutf8 : valid_utf8 path = true)
    (Hold : oldest (seg_files (store s)) path) (Hfair : Forall (fair path) ws)
    (Hpolled : Forall (fun w => polled_ok w (broker s)) ws) (Hsite : site_ok cfg seg s) (Hstands : stands path (seg path) s j)
    (Hturns : (length (seg path) - j <= length ws * batch_size cfg)%nat) :
  exists s', run_passes cfg order ws s = Ret s' /\ Forall (reached cfg (acked (broker s'))) (seg path) /\
    (forall rd, readers (pub s') !! path = Some rd -> pending_records rd (seg_files (store s') !! path) = 0) /\
    (seg path <> [] -> read_cursor_offset (cursors (store s') !! path) = Some (Z.of_nat (length (outbox_file (seg path))))).
Proof.
  destruct (drain_loop cfg order seg path ws s j Horder Hseg Hcfg Hlen Hname Hutf8 Hold Hfair Hpolled Hsite Hstands)
    as (s' & j' & E & Hs' & Hst & Hj). exists s'. split; [done|].
  pose proof (st_range _ _ _ _ Hst) as Hr. pose proof (st_range _ _ _ _ Hstands).
  assert (j' = length (seg path)) as -> by lia. clear Hj Hr. destruct Hst as [S1 S2 S3 _]. split_and!.
  - apply Forall_forall. intros r Hin. apply list_elem_of_lookup in Hin as [k Hk]. apply lookup_lt_Some in Hk as Hlt.
    destruct S2 as [[_ Hz]|Hc]; [unfold place in Hz; lia|].
    apply (so_cursors _ _ _ Hs' path _ Hc k r Hk). unfold place. lia.
  - intros rd Hrd. destruct S1 as [S1|S1]; [congruence|]. unfold has_reader in S1. rewrite S1 in Hrd. injection Hrd as <-.
    rewrite S3. unfold pending_records. cbn [offset]. by rewrite file_length, Z.sub_diag by done.
  - intros Hne. rewrite file_length by done. destruct S2 as [[_ Hz]|Hc]; [|done]. unfold place in Hz.
    destruct (seg path); [done|cbn in Hz; lia].
Qed.

(** ** The publishers of a group

    Every member of the group runs a publisher over its own outbox; they share the
    broker.  Writers change files at any time, within what the segment will hold, and
    may remove cursors with their segments; members restart; other groups use the
    same checkpoint topic. *)
Record Group := mkGroup { members : gmap Z (Publisher * Store); g_broker : Broker }.

Inductive served (cfg : Config) (seg : bytes -> list OutboxRecord) : Group -> Prop :=
| served_start ms : (forall i p st, ms !! i = Some (p, st) -> p = fresh_publisher /\ cursors st = ∅ /\ store_ok seg st) ->
    served cfg seg (mkGroup ms (mkBroker [] []))
| served_pass g i p st order w s' : served cfg seg g -> members g !! i = Some (p, st) ->
    (forall A (m : gmap bytes A), order A m ≡ₚ map_to_list m) -> polled_ok w (g_broker g) ->
    pass cfg order w (mkSite p st (g_broker g)) = Ret s' ->
    served cfg seg (mkGroup (<[i := (pub s', store s')]> (members g)) (broker s'))
| served_write g i p st st' : served cfg seg g -> members g !! i = Some (p, st) -> store_ok seg st' ->
    cursors st' ⊆ cursors st -> served cfg seg (mkGroup (<[i := (p, st')]> (members g)) (g_broker g))
| served_restart g i p st : served cfg seg g -> members g !! i = Some (p, st) ->
    served cfg seg (mkGroup (<[i := (fresh_publisher, st)]> (members g)) (g_broker g))
| served_foreign g k v : served cfg seg g -> decode_outbox_checkpoint (p_group cfg) (Some k) (Some v) = None ->
    served cfg seg (mkGroup (members g) (mkBroker (acked (g_broker g)) (checkpoints (g_broker g) ++ [(k, v)]))).

Definition group_ok (cfg : Config) (seg : bytes -> list OutboxRecord) (g : Group) : Prop :=
  broker_ok cfg seg (g_broker g) /\
  forall i p st, members g !! i = Some (p, st) -> site_ok cfg seg (mkSite p st (g_broker g)).

Lemma fresh_ok cfg seg a : publisher_ok cfg seg a fresh_publisher.
Proof. split; intros name o H; cbn in H; by rewrite lookup_empty in H. Qed.

(** The others' promises outlive what one member adds to the broker. *)
Lemma site_later cfg seg p st b b' : site_ok cfg seg (mkSite p st b) -> acked b `prefix_of` acked b' -> broker_ok cfg seg b' ->
  site_ok cfg seg (mkSite p st b').
Proof.
  intros [H1 H2 H3 H4] [more Ha] Hb. split; [done| | |done]; cbn in *; rewrite Ha.
  - intros name o Ho. by apply covered_app, H2.
  - by apply publisher_ok_app.
Qed.

Lemma served_ok cfg seg g : (forall name, Forall out_ok (seg name)) -> served cfg seg g -> group_ok cfg seg g.
Proof.
  intros Hseg. induction 1 as [ms Hms|g i p st order w s' _ [IHb IH] Hi Ho Hw E|g i p st st' _ [IHb IH] Hi Hst Hc|g i p st _ [IHb IH] Hi|g k v _ [IHb IH] Hd].
  - assert (Hb : broker_ok cfg seg (mkBroker [] [])) by (intros k v name o Hk; by apply not_elem_of_nil in Hk).
    split; [done|]. intros i p st Hi. cbn in Hi. destruct (Hms i p st Hi) as (-> & Hc & Hs). split; [done| |apply fresh_ok|done].
    intros name o. cbn [store]. rewrite Hc, lookup_empty. done.
  - destruct (pass_ok cfg order seg Ho Hseg w _ s' (IH i p st Hi) Hw E) as (Hs & _ & Ha). cbn [broker] in Ha.
    split; [apply Hs|]. intros i' p' st'. cbn [members]. rewrite lookup_insert_Some. intros [[<- [= <- <-]]|[_ Hi']]; [by destruct s'|].
    eapply site_later; [by eapply IH|done|apply Hs].
  - split; [done|]. intros i' p' st''. cbn [members]. rewrite lookup_insert_Some. intros [[<- [= <- <-]]|[_ Hi']]; [|by eapply IH].
    destruct (IH i p st Hi) as [H1 H2 H3 H4]. split; [done| |done|done]. intros name o Ho. apply (H2 name o). cbn [store] in *.
    destruct (cursors st' !! name) as [c|] eqn:Ec; [|done]. by rewrite (lookup_weaken _ _ _ _ Ec Hc).
  - split; [done|]. intros i' p' st'. cbn [members]. rewrite lookup_insert_Some. intros [[<- [= <- <-]]|[_ Hi']]; [|by eapply IH].
    destruct (IH i p st Hi) as [H1 H2 H3 H4]. split; [done|done|apply fresh_ok|done].
  - assert (Hb : broker_ok cfg seg (mkBroker (acked (g_broker g)) (checkpoints (g_broker g) ++ [(k, v)]))).
    { intros k' v' name o Hk. cbn in *. apply elem_of_app in Hk as [Hk|Hk]; [by eapply IHb|].
      apply list_elem_of_singleton in Hk. injection Hk as -> ->. congruence. }
    split; [done|]. intros i p st Hi. eapply site_later; [by eapply IH|done|done].
Qed.

(** C8: Every execution event reaches the broker.  Take a group whose members write
    the same records to the same segments, with publishers that take turns in any
    order, lead or follow, meet failing sends, miss or reread the group's cursors,
    and are restarted, while writers append, trim and remove.  Then no member ever
    skips a record: whatever lies before a reader, or before a cursor on disk, has
    had all its events acknowledged by the broker, so that a segment whose cursor
    covers its file, which is the writer's condition for removing it, holds nothing
    unpublished.  And no turn panics, whatever it meets. *)
Theorem published_at_least_once (cfg : Config) (seg : bytes -> list OutboxRecord) (g : Group) (i : Z) (p : Publisher) (st : Store) :
  (forall name, Forall out_ok (seg name)) -> publisher_config_ok cfg -> served cfg seg g -> members g !! i = Some (p, st) ->
  (forall name rd, readers p !! name = Some rd -> covered cfg seg (acked (g_broker g)) name (offset rd)) /\
  (forall name f c, seg_files st !! name = Some f -> read_cursor_offset (cursors st !! name) = Some c ->
     Z.of_nat (length f) <= c -> Forall (reached cfg (acked (g_broker g))) (read_batch (mkReader 8 true) (Some f) (length f))) /\
  (forall order w, (forall A (m : gmap bytes A), order A m ≡ₚ map_to_list m) -> polled_ok w (g_broker g) ->
     exists s', pass cfg order w (mkSite p st (g_broker g)) = Ret s').
Proof.
  intros Hseg (Hr & Hp & _) Hg Hi. destruct (served_ok cfg seg g Hseg Hg) as [_ Hall]. pose proof (Hall i p st Hi) as Hs.
  destruct Hs as [H1 H2 H3 H4]. split_and!.
  - intros name rd Hrd. by apply (po_readers _ _ _ _ H3).
  - intros name f c Hf Hc Hle.
    destruct (read_batch_next (seg name) f 0 (length f) (mkReader 8 true) (Hseg name) (H1 name f Hf) eq_refl) as (m & Em & _ & Hfit).
    apply Forall_forall. intros r Hin. pose proof Hin as Hin'. rewrite Em, drop_0 in Hin'. apply list_elem_of_lookup in Hin' as [k Hk].
    apply lookup_take_Some in Hk as [Hk Hkm]. apply (H2 name c Hc k r Hk).
    assert (8 + 80 * (0 + m) <= length f)%nat by (apply Hfit; intros H0; rewrite H0 in Hin; by apply not_elem_of_nil in Hin). lia.
  - intros order w Ho Hw. by apply (pass_total cfg order seg Ho Hseg Hr Hp w).
Qed.

(** ** Examples and limits *)
Definition list_order (A : Type) (m : gmap bytes A) : list (bytes * A) := map_to_list m.

Definition example_config : Config := mkPublisherConfig 7 16 1 4 (mkConfig 2 2 4 8 0).

Definition out_record (i : Z) : OutboxRecord := mkOut 7 i 0 (encode_report (RHalted i)).

Definition first_name : bytes := base_name 0.
Definition second_name : bytes := stem_of 0 1 ++ lit ".bin".

Definition example_seg (name : bytes) : list OutboxRecord :=
  if decide (name = first_name) then [out_record 1; out_record 2] else [].

(** The node leads, and every send succeeds. *)
Definition fine : Weather := mkWeather [] (fun _ => true) true (fun _ => true) (fun _ _ => true).

Definition example_store : Store := mkStore {[first_name := outbox_file [out_record 1; out_record 2]]} ∅.

Lemma out_record_ok i : is_u64 i -> out_ok (out_record i).
Proof. intros Hi. split_and!; [cbn; unfold_width; lia|done|cbn; unfold_width; lia|apply length_encode_report]. Qed.

Lemma example_seg_ok name : Forall out_ok (example_seg name).
Proof.
  unfold example_seg. case_decide; [|apply Forall_nil_2].
  repeat apply Forall_cons_2; [apply out_record_ok; unfold_width; lia..|apply Forall_nil_2].
Qed.

Lemma example_config_ok : publisher_config_ok example_config.
Proof. split; [|split; cbn; lia]. split_and!; cbn; done || lia. Qed.

Lemma example_store_ok : store_ok example_seg example_store.
Proof.
  intros name f. cbn [example_store seg_files]. rewrite lookup_singleton_Some. intros [<- <-]. unfold example_seg.
  by rewrite decide_True by done.
Qed.

Lemma published_at_least_once_witness :
  exists s', pass example_config list_order fine (mkSite fresh_publisher example_store (mkBroker [] [])) = Ret s' /\
    forall name rd, readers (pub s') !! name = Some rd -> covered example_config example_seg (acked (broker s')) name (offset rd).
Proof.
  set (g0 := mkGroup {[1 := (fresh_publisher, example_store)]} (mkBroker [] [])).
  assert (H0 : served example_config example_seg g0).
  { apply served_start. intros i p st Hi. apply lookup_singleton_Some in Hi as [_ [= <- <-]]. split; [done|]. split; [done|].
    apply example_store_ok. }
  destruct (published_at_least_once example_config example_seg g0 1 fresh_publisher example_store) as (_ & _ & Hpass).
  - exact example_seg_ok.
  - exact example_config_ok.
  - exact H0.
  - apply lookup_singleton_eq.
  - destruct (Hpass list_order fine) as [s' E]; [intros A m; reflexivity | intros k v Hk; by apply not_elem_of_nil in Hk |].
    assert (H1 : served example_config example_seg (mkGroup (<[1 := (pub s', store s')]> (members g0)) (broker s'))).
    { apply (served_pass _ _ g0 1 fresh_publisher example_store list_order fine s'); [exact H0 | apply lookup_singleton_eq | intros A m; reflexivity | |exact E].
      intros k v Hk. exact (False_ind _ (not_elem_of_nil _ Hk)). }
    exists s'. split; [exact E|].
    destruct (published_at_least_once example_config example_seg _ 1 (pub s') (store s') example_seg_ok example_config_ok H1)
      as (Hc & _); [apply lookup_insert_eq | exact Hc].
Defined.

Lemma oldest_segment_drains_witness :
  exists s', run_passes example_config list_order [fine; fine] (mkSite fresh_publisher example_store (mkBroker [] [])) = Ret s' /\
    Forall (reached example_config (acked (broker s'))) [out_record 1; out_record 2] /\
    read_cursor_offset (cursors (store s') !! first_name) = Some 168.
Proof.
  set (s0 := mkSite fresh_publisher example_store (mkBroker [] [])).
  assert (Hsite : site_ok example_config example_seg s0).
  { split; [exact example_store_ok | intros name o Ho; cbn in Ho; by rewrite lookup_empty in Ho | apply fresh_ok |
      intros k v name o Hk; by apply not_elem_of_nil in Hk]. }
  assert (Eseg : example_seg first_name = [out_record 1; out_record 2]) by (unfold example_seg; by rewrite decide_True).
  destruct (oldest_segment_drains example_config list_order example_seg first_name [fine; fine] s0 0) as (s' & E & Hr & _ & Hc).
  - intros A m. reflexivity.
  - exact example_seg_ok.
  - exact example_config_ok.
  - rewrite Eseg. vm_compute. discriminate.
  - vm_compute. reflexivity.
  - vm_compute. reflexivity.
  - exists 0, 0. split; [vm_compute; reflexivity|]. intros q n' Hq [f Hf]. cbn [s0 store example_store seg_files] in Hf. apply lookup_singleton_Some in Hf as [<- _]. by contradict Hq.
  - repeat constructor.
  - repeat apply Forall_cons_2; [intros k v Hk; by apply not_elem_of_nil in Hk..|apply Forall_nil_2].
  - exact Hsite.
  - rewrite Eseg. split; [left; reflexivity | left; split; reflexivity | reflexivity | cbn; lia].
  - rewrite Eseg. cbn. lia.
  - exists s'. rewrite Eseg in Hr, Hc. split; [exact E|]. split; [exact Hr|]. rewrite (Hc ltac:(discriminate)). vm_compute. reflexivity.
Defined.

(** A turn visits only the oldest segment of a shard, and a segment is removed only
    when the writer next rotates: between the two, the records of the newer
    segment wait, however long the broker is well.  Here the first segment is fully
    published and the second holds a record: no number of turns sends it. *)
Definition stalled_store : Store :=
  mkStore {[first_name := outbox_file [out_record 1]; second_name := outbox_file [out_record 2]]} {[first_name := cursor_image 88]}.

Definition stalled : Site := mkSite fresh_publisher stalled_store (mkBroker [] []).

Definition stalled_forever : Site :=
  mkSite (mkPublisher {[first_name := mkReader 88 true; second_name := mkReader 8 true]} ∅ ∅ ∅ true 1) stalled_store (mkBroker [] []).

Theorem published_segment_blocks_next (n : nat) :
  run_passes example_config list_order (replicate (S n) fine) stalled = Ret stalled_forever /\
  pending_records (mkReader 8 true) (seg_files (store stalled_forever) !! second_name) = 1 /\ acked (broker stalled_forever) = [].
Proof.
  split; [|split; vm_compute; reflexivity]. unfold run_passes.
  assert (E1 : pass example_config list_order fine stalled = Ret stalled_forever) by (vm_compute; reflexivity).
  assert (E2 : pass example_config list_order fine stalled_forever = Ret stalled_forever) by (vm_compute; reflexivity).
  cbn [replicate ofold]. rewrite E1. cbn [obind]. induction n as [|n IH]; [reflexivity|]. cbn [replicate ofold]. rewrite E2. exact IH.
Qed.

(** The group's cursor is a file name and an offset, and a member that started from
    a snapshot has written fewer records to the file of that name.  Here the
    leader has published the records of entries 1 and 2; the member that joined
    after entry 1 holds those of entries 2 and 3, takes over the leader's cursor and
    will never send the last. *)
Definition late_store : Store := mkStore {[first_name := outbox_file [out_record 2; out_record 3]]} ∅.

Definition leader_topic : list (bytes * bytes) := [(outbox_checkpoint_key 7 first_name, le_bytes 8 168)].

Definition informed : Weather :=
  mkWeather [Some (Some (outbox_checkpoint_key 7 first_name), Some (le_bytes 8 168))] (fun _ => true) true (fun _ => true) (fun _ _ => true).

Definition payloads_and_topic (c : outcome Site) : option (nat * list (bytes * bytes) * option Reader) :=
  match c with
  | Ret s => Some (length (acked (broker s)), checkpoints (broker s), readers (pub s) !! first_name)
  | Panic _ => None
  end.

Theorem shared_cursor_skips_records :
  let led := run_passes example_config list_order [fine; fine; fine] (mkSite fresh_publisher example_store (mkBroker [] [])) in
  payloads_and_topic led = Some (2%nat, leader_topic, Some (mkReader 168 true)) /\
  forall b, checkpoints b = leader_topic ->
    payloads_and_topic (pass example_config list_order informed (mkSite fresh_publisher late_store b)) =
      Some (length (acked b), leader_topic, Some (mkReader 168 true)) /\
    pending_records (mkReader 168 true) (seg_files late_store !! first_name) = 0.
Proof.
  cbv zeta. split; [vm_compute; reflexivity|]. intros [a topic] Ht. cbn in Ht. subst topic. split; [|vm_compute; reflexivity].
  vm_compute. reflexivity.
Qed.
