(* ===== verification/Applied.v ===== *)
(** * Application proofs

    The part of [src/src/asset_log.rs] that records which committed Raft
    entries have been applied: the exact proofs ([raft-batches.applied.v2]), the
    older watermark file ([raft-batches.applied]) and the per-asset index.  A
    file that does not exist is [None]. *)

From S2P Require Import Prelude Types Bytes.

Definition APPLIED_PROOF_HEADER : bytes := [84; 67; 65; 80; 1; 0; 0; 0].
Abbreviation APPLIED_PROOF_RECORD_LEN := 32%nat.

Record AppliedBatchProof := mkProof {
  proof_index : Z;
  report_count : Z;
  report_fingerprint : Z
}.

#[export] Instance AppliedBatchProof_eq_dec : EqDecision AppliedBatchProof.
Proof. solve_decision. Defined.

(** The record that [mark_applied_batch] appends. *)
Definition proof_image (p : AppliedBatchProof) : bytes :=
  let rec := splice 0 (le_bytes 8 (proof_index p)) (replicate APPLIED_PROOF_RECORD_LEN 0) in
  let rec := splice 8 (le_bytes 4 (report_count p)) rec in
  let rec := splice 16 (le_bytes 8 (report_fingerprint p)) rec in
  splice 24 (le_bytes 8 (fnv1a (take 24 rec))) rec.

(** What [mark_applied_batch] makes of the file, before its sync. *)
Definition mark_applied_batch (file : option bytes) (raft_index report_count report_fingerprint : Z) : bytes :=
  default APPLIED_PROOF_HEADER file ++ proof_image (mkProof raft_index report_count report_fingerprint).

(** The loop of [load_applied_batch_proofs]; every turn consumes a record. *)
Fixpoint read_proofs (fuel : nat) (rest : bytes) (proofs : gmap Z AppliedBatchProof)
    : io_result (gmap Z AppliedBatchProof) :=
  match fuel with
  | O => Ok proofs
  | S fuel =>
      if (length rest <? APPLIED_PROOF_RECORD_LEN)%nat then Ok proofs
      else
        let rec := take APPLIED_PROOF_RECORD_LEN rest in
        if negb (fnv1a (take 24 rec) =? u64_at 24 rec) then Err "applied Raft proof checksum mismatch"
        else
          let proof := mkProof (u64_at 0 rec) (u32_at 8 rec) (u64_at 16 rec) in
          match proofs !! proof_index proof with
          | Some previous =>
              if negb (bool_decide (previous = proof)) then Err "conflicting applied Raft proofs for one index"
              else read_proofs fuel (drop APPLIED_PROOF_RECORD_LEN rest) (<[proof_index proof := proof]> proofs)
          | None => read_proofs fuel (drop APPLIED_PROOF_RECORD_LEN rest) (<[proof_index proof := proof]> proofs)
          end
  end.

Definition load_applied_batch_proofs (file : option bytes) : io_result (gmap Z AppliedBatchProof) :=
  match file with
  | None => Ok ∅
  | Some f =>
      if (length f <? 8)%nat then Err "failed to fill whole buffer"
      else if negb (bool_decide (take 8 f = APPLIED_PROOF_HEADER)) then Err "applied Raft proof header/version mismatch"
      else read_proofs (length f) (drop 8 f) ∅
  end.

(** The watermark file of multi-command entries. *)
Definition append_applied_batch (file : option bytes) (raft_index : Z) : bytes :=
  let bs := le_bytes 8 raft_index in default [] file ++ bs ++ le_bytes 8 (fnv1a bs).

Fixpoint read_applied (fuel : nat) (rest : bytes) (applied : gset Z) : io_result (gset Z) :=
  match fuel with
  | O => Ok applied
  | S fuel =>
      if (length rest <? 16)%nat then Ok applied
      else
        let rec := take 16 rest in
        if negb (fnv1a (take 8 rec) =? u64_at 8 rec) then Err "applied Raft batch watermark checksum mismatch"
        else read_applied fuel (drop 16 rest) ({[u64_at 0 rec]} ∪ applied)
  end.

Definition load_applied_batches (watermarks proofs : option bytes) : io_result (gset Z) :=
  let? applied := match watermarks with None => Ok ∅ | Some f => read_applied (length f) f ∅ end in
  let? ps := load_applied_batch_proofs proofs in
  Ok (applied ∪ dom ps).

Definition verify_applied_batch (p : AppliedBatchProof) (count fingerprint : Z) : io_result unit :=
  if negb (report_count p =? count) || negb (report_fingerprint p =? fingerprint) then Err "Raft replay mismatch"
  else Ok tt.

(** The per-asset index, replaced by a rename. *)
Definition applied_raft_index (file : option bytes) : io_result Z :=
  match file with
  | None => Ok 0
  | Some f => if (length f <? 8)%nat then Err "failed to fill whole buffer" else Ok (u64_at 0 f)
  end.

Definition write_applied_index (file : option bytes) (raft_index : Z) : io_result (option bytes) :=
  let? current := applied_raft_index file in
  if raft_index <=? current then Ok file else Ok (Some (le_bytes 8 raft_index)).

(** ** Lemmas *)
Definition proof_ok (p : AppliedBatchProof) : Prop :=
  is_u64 (proof_index p) /\ is_u32 (report_count p) /\ is_u64 (report_fingerprint p).

Definition proof_body (p : AppliedBatchProof) : bytes :=
  le_bytes 8 (proof_index p) ++ le_bytes 4 (report_count p) ++ replicate 4 0 ++ le_bytes 8 (report_fingerprint p).

Definition proof_file (ps : list AppliedBatchProof) : bytes := APPLIED_PROOF_HEADER ++ concat (proof_image <$> ps).

Lemma proof_image_bytes p : proof_image p = proof_body p ++ le_bytes 8 (fnv1a (proof_body p)).
Proof. reflexivity. Qed.

Lemma length_proof_image p : length (proof_image p) = APPLIED_PROOF_RECORD_LEN.
Proof. reflexivity. Qed.

Lemma read_proof p fuel rest proofs : proof_ok p ->
  read_proofs (S fuel) (proof_image p ++ rest) proofs =
    match proofs !! proof_index p with
    | Some previous => if negb (bool_decide (previous = p)) then Err "conflicting applied Raft proofs for one index"
                       else read_proofs fuel rest (<[proof_index p := p]> proofs)
    | None => read_proofs fuel rest (<[proof_index p := p]> proofs)
    end.
Proof.
  intros (Hi & Hc & Hf). cbn [read_proofs]. pose proof (length_proof_image p) as L.
  rewrite (proj2 (Nat.ltb_ge _ _)) by (rewrite length_app; lia).
  rewrite take_app_length', drop_app_length', proof_image_bytes by done.
  assert (Lb : length (proof_body p) = 24%nat) by done. set (h := le_bytes 8 (fnv1a (proof_body p))).
  rewrite (take_app_length' _ _ _ (eq_sym Lb)).
  rewrite (u64_here _ 24 (fnv1a (proof_body p)) []) by
    (apply fnv1a_u64 || (rewrite (drop_app_length' _ _ _ (eq_sym Lb)), app_nil_r; done)).
  rewrite Z.eqb_refl. cbn [negb].
  assert (D0 : drop 0 (proof_body p ++ h) = le_bytes 8 (proof_index p) ++ le_bytes 4 (report_count p) ++
                 replicate 4 0 ++ le_bytes 8 (report_fingerprint p) ++ h).
  { unfold proof_body. by rewrite <- !(assoc_L (++)). }
  pose proof (drop_u64 _ _ _ _ D0) as D8. pose proof (drop_u32 _ _ _ _ D8) as D12. pose proof (drop_here _ _ _ _ D12) as D16.
  change (length (replicate 4 0)) with 4%nat in D16. cbn [Nat.add] in *.
  rewrite (u64_here _ _ _ _ Hi D0), (u32_here _ _ _ _ Hc D8), (u64_here _ _ _ _ Hf D16). by destruct p.
Qed.

Definition proofs_map (m : gmap Z AppliedBatchProof) (ps : list AppliedBatchProof) : gmap Z AppliedBatchProof :=
  foldl (fun m p => <[proof_index p := p]> m) m ps.

Lemma read_proofs_torn ps torn fuel m : Forall proof_ok ps -> NoDup (proof_index <$> ps) ->
  (forall p, p ∈ ps -> m !! proof_index p = None) -> (length torn < APPLIED_PROOF_RECORD_LEN)%nat ->
  (length ps < fuel)%nat -> read_proofs fuel (concat (proof_image <$> ps) ++ torn) m = Ok (proofs_map m ps).
Proof.
  intros Hok. revert fuel m. induction Hok as [|p ps Hp Hok IH]; intros [|fuel] m Hnd Hm Ht Hf; cbn [length] in Hf; try lia.
  - cbn [fmap list_fmap concat app read_proofs]. by rewrite (proj2 (Nat.ltb_lt _ _)) by done.
  - apply NoDup_cons in Hnd as [Hnin Hnd]. cbn [fmap list_fmap concat]. rewrite <- (assoc_L (++)), read_proof by done.
    rewrite (Hm p) by set_solver. unfold fmap in IH. rewrite IH; try done; [| lia].
    intros q Hq. rewrite lookup_insert_ne; [apply Hm; set_solver|].
    intros E. apply Hnin. rewrite E. by apply list_elem_of_fmap_2.
Qed.

(** Proofs with distinct indices are read back, a torn last record is ignored. *)
Lemma load_proof_file ps torn : Forall proof_ok ps -> NoDup (proof_index <$> ps) ->
  (length torn < APPLIED_PROOF_RECORD_LEN)%nat ->
  load_applied_batch_proofs (Some (proof_file ps ++ torn)) = Ok (proofs_map ∅ ps).
Proof.
  intros Hok Hnd Ht. unfold load_applied_batch_proofs, proof_file. rewrite <- (assoc_L (++)).
  rewrite (proj2 (Nat.ltb_ge _ _)) by (rewrite length_app; cbn; lia).
  rewrite take_app_length', drop_app_length', bool_decide_true by done. cbn [negb].
  apply read_proofs_torn; try done. rewrite !length_app, (length_frames APPLIED_PROOF_RECORD_LEN).
  - rewrite length_fmap. cbn [length APPLIED_PROOF_HEADER]. lia.
  - apply Forall_fmap, Forall_forall. intros p _. apply length_proof_image.
Qed.

Lemma proofs_map_lookup ps m i : NoDup (proof_index <$> ps) ->
  proofs_map m ps !! i = match list_find (fun p => proof_index p = i) ps with Some (_, p) => Some p | None => m !! i end.
Proof.
  revert m. induction ps as [|p ps IH]; intros m Hnd; [done|]. apply NoDup_cons in Hnd as [Hnin Hnd].
  cbn [proofs_map foldl list_find]. change (foldl _ ?x ps) with (proofs_map x ps). rewrite IH by done.
  destruct (decide (proof_index p = i)) as [<- | Hne].
  - rewrite lookup_insert_eq. destruct (list_find _ ps) as [[k q] |] eqn:E; [|done].
    apply list_find_Some in E as (Hq & Hi & _). destruct Hnin. rewrite <- Hi. apply list_elem_of_fmap_2.
    by eapply list_elem_of_lookup_2.
  - rewrite lookup_insert_ne by done. by destruct (list_find _ ps) as [[k q] |].
Qed.

Lemma proofs_map_elem ps p : NoDup (proof_index <$> ps) -> p ∈ ps -> proofs_map ∅ ps !! proof_index p = Some p.
Proof.
  intros Hnd Hp. rewrite proofs_map_lookup by done.
  destruct (list_find_elem_of (fun q => proof_index q = proof_index p) ps p Hp eq_refl) as [[k q] E].
  rewrite E. apply list_find_Some in E as (Hq & Hi & _). apply list_elem_of_lookup in Hp as [j Hj]. f_equal.
  assert (k = j) as ->.
  { eapply NoDup_lookup; [done|..]; rewrite list_lookup_fmap; [by rewrite Hq | by rewrite Hj; cbn; rewrite Hi]. }
  congruence.
Qed.

Lemma proofs_map_dom ps i : NoDup (proof_index <$> ps) -> i ∈ dom (proofs_map ∅ ps) <-> i ∈ proof_index <$> ps.
Proof.
  intros Hnd. rewrite elem_of_dom, proofs_map_lookup, list_elem_of_fmap by done. split.
  - destruct (list_find _ ps) as [[k q] |] eqn:E; [|intros [? H]; by rewrite lookup_empty in H].
    apply list_find_Some in E as (Hq & Hi & _). intros _. exists q. split; [done|]. by eapply list_elem_of_lookup_2.
  - intros (q & -> & Hq). destruct (list_find_elem_of (fun r => proof_index r = proof_index q) ps q Hq eq_refl) as [[k r] ->].
    by eexists.
Qed.

(** A torn proof is not trimmed when the next one is appended: the file is then
    out of step and the next load fails, although no complete record was
    damaged. *)
Theorem torn_proof_blocks_load :
  let ps := [mkProof 1 2 3; mkProof 2 2 3] in
  let torn := take (8 + 32 + 10) (proof_file ps) in
  load_applied_batch_proofs (Some torn) = Ok (proofs_map ∅ [mkProof 1 2 3]) /\
  load_applied_batch_proofs (Some (mark_applied_batch (Some torn) 2 2 3)) = Err "applied Raft proof checksum mismatch".
Proof. split; by vm_compute. Qed.
