(* ===== verification/Journal.v ===== *)
(** * The write-ahead journal

    [src/src/journal.rs]: the record format, the buffered writer and the
    reader.  A writer's state is the file as the operating system has it, how
    much of it is known to be on disk, and the [BufWriter] buffer in front of
    it.  Elapsed-time tests ([last_flush.elapsed() >= flush_interval]) are
    boolean arguments; writes to the file system succeed. *)

From S2P Require Import Prelude Bytes Wire.

Abbreviation RECORD_LEN := 64%nat.

(** [TCJR], version 2. *)
Definition JOURNAL_HEADER : bytes := [84; 67; 74; 82; 2; 0; 0; 0].

(** One record read back. *)
Record JRecord := mkRec {
  r_seq : Z;
  r_ts_nanos : Z;
  r_frame : bytes
}.

Module JournalWriter.

Record JournalWriter := mkWriter {
  file : bytes;       (* what has been written to the file *)
  synced : nat;       (* how much of it a completed fsync covers *)
  buf : bytes;        (* [BufWriter]'s buffer *)
  cap : nat;          (* its capacity *)
  seq : Z;
  written_since_flush : Z
}.

Definition mismatch : string := "journal header/version mismatch (migration required)".

(** [open_with_capacity] on a file with the given contents; only the header,
    synced when the file is created, is known to be on disk. *)
Definition open_with_capacity (contents : bytes) (buffer_bytes : nat) : io_result JournalWriter :=
  let opened f := Ok (mkWriter f 8 [] (Nat.max buffer_bytes RECORD_LEN) 0 0) in
  if (length contents =? 0)%nat then opened JOURNAL_HEADER
  else if (length contents <? 8)%nat then Err "failed to fill whole buffer"
  else if bool_decide (take 8 contents = JOURNAL_HEADER) then opened contents
  else Err mismatch.

Definition resume_from (w : JournalWriter) (s : Z) : JournalWriter :=
  mkWriter (file w) (synced w) (buf w) (cap w) (Z.max (seq w) s) (written_since_flush w).

(** [BufWriter::flush]. *)
Definition flush_buf (w : JournalWriter) : JournalWriter :=
  mkWriter (file w ++ buf w) (synced w) [] (cap w) (seq w) (written_since_flush w).

(** [BufWriter::write_all]: make room, then buffer or write through. *)
Definition write_all (w : JournalWriter) (bs : bytes) : JournalWriter :=
  let w := if (cap w <? length (buf w) + length bs)%nat then flush_buf w else w in
  if (cap w <=? length bs)%nat then
    mkWriter (file w ++ bs) (synced w) (buf w) (cap w) (seq w) (written_since_flush w)
  else mkWriter (file w) (synced w) (buf w ++ bs) (cap w) (seq w) (written_since_flush w).

Definition flush (w : JournalWriter) : JournalWriter :=
  let w := flush_buf w in
  mkWriter (file w) (synced w) (buf w) (cap w) (seq w) 0.

Definition tick (w : JournalWriter) (due : bool) : JournalWriter :=
  if (0 <? written_since_flush w) && due then flush w else w.

(** [File::sync_data], also what the fsync thread does every interval. *)
Definition fsync (w : JournalWriter) : JournalWriter :=
  mkWriter (file w) (length (file w)) (buf w) (cap w) (seq w) (written_since_flush w).

Definition sync_data (w : JournalWriter) : JournalWriter :=
  let w := fsync (flush_buf w) in
  mkWriter (file w) (synced w) (buf w) (cap w) (seq w) 0.

Definition truncate (w : JournalWriter) : JournalWriter :=
  let w := flush_buf w in
  let w := mkWriter [] 0 (buf w) (cap w) (seq w) (written_since_flush w) in
  let w := fsync (flush_buf (write_all w JOURNAL_HEADER)) in
  mkWriter (file w) (synced w) (buf w) (cap w) (seq w) 0.

(** The 64-byte record that [append] builds. *)
Definition record (seq ts_nanos : Z) (frame : bytes) : bytes :=
  let rec := splice 0 (le_bytes 8 seq) (zeros RECORD_LEN) in
  let rec := splice 8 (le_bytes 8 ts_nanos) rec in
  let rec := splice 16 frame rec in
  splice 56 (le_bytes 8 (fnv1a (take 56 rec))) rec.

Definition append (w : JournalWriter) (ts_nanos : Z) (frame : bytes) (due : bool) : JournalWriter * Z :=
  let s := wrap64 (seq w + 1) in
  let w := mkWriter (file w) (synced w) (buf w) (cap w) s (written_since_flush w) in
  let w := write_all w (record s ts_nanos frame) in
  let n := wrap64 (written_since_flush w + 1) in
  let w := mkWriter (file w) (synced w) (buf w) (cap w) (seq w) n in
  let w := if (8192 <=? n) || due then flush w else w in
  (w, seq w).

End JournalWriter.

Module JournalReader.

(** [open]: a file shorter than the header yields no records. *)
Definition open (contents : bytes) : io_result bytes :=
  if (length contents <? 8)%nat then Ok []
  else if bool_decide (take 8 contents = JOURNAL_HEADER) then Ok (drop 8 contents)
  else Err JournalWriter.mismatch.

Definition next (rest : bytes) : option (JRecord * bytes) :=
  if (length rest <? RECORD_LEN)%nat then None
  else
    let rec := take RECORD_LEN rest in
    let stored := u64_at 56 rec in
    if negb (fnv1a (take 56 rec) =? stored) then None
    else Some (mkRec (u64_at 0 rec) (u64_at 8 rec) (slice 16 MSG_LEN rec), drop RECORD_LEN rest).

(** The iterator run to its end; every record consumes bytes. *)
Fixpoint collect (fuel : nat) (rest : bytes) : list JRecord :=
  match fuel with
  | O => []
  | S fuel => match next rest with Some (r, rest) => r :: collect fuel rest | None => [] end
  end.

Definition read (contents : bytes) : io_result (list JRecord) :=
  let? rest := open contents in Ok (collect (length rest) rest).

End JournalReader.

(** ** Sequences of operations *)
Inductive journal_op :=
| JAppend (ts : Z) (frame : bytes) (due : bool)
| JTick (due : bool)
| JFlush
| JFsync
| JSync.

Definition journal_step (st : JournalWriter.JournalWriter * list JRecord) (op : journal_op)
    : JournalWriter.JournalWriter * list JRecord :=
  let '(w, recs) := st in
  match op with
  | JAppend ts frame due => let '(w, s) := JournalWriter.append w ts frame due in (w, recs ++ [mkRec s ts frame])
  | JTick due => (JournalWriter.tick w due, recs)
  | JFlush => (JournalWriter.flush w, recs)
  | JFsync => (JournalWriter.fsync w, recs)
  | JSync => (JournalWriter.sync_data w, recs)
  end.

Definition run_journal (w : JournalWriter.JournalWriter) (recs : list JRecord) (ops : list journal_op)
    : JournalWriter.JournalWriter * list JRecord :=
  foldl journal_step (w, recs) ops.

Definition op_ok (op : journal_op) : Prop :=
  match op with JAppend ts frame _ => is_u64 ts /\ length frame = MSG_LEN | _ => True end.

Definition record_ok (r : JRecord) : Prop :=
  is_u64 (r_seq r) /\ is_u64 (r_ts_nanos r) /\ length (r_frame r) = MSG_LEN.

(** A journal file that holds exactly the given records. *)
Definition journal_file (recs : list JRecord) : bytes :=
  JOURNAL_HEADER ++ concat ((fun r => JournalWriter.record (r_seq r) (r_ts_nanos r) (r_frame r)) <$> recs).

(** What a crash may leave on disk: everything that was synced, and any part of
    what was written after it. *)
Definition crash_image (w : JournalWriter.JournalWriter) (img : bytes) : Prop :=
  img `prefix_of` JournalWriter.file w /\ (JournalWriter.synced w <= length img)%nat.

(** ** Lemmas *)
Section record.
Context (s ts : Z) (frame : bytes).
Hypothesis Hs : is_u64 s.
Hypothesis Hts : is_u64 ts.
Hypothesis Hframe : length frame = MSG_LEN.

Let body : bytes := le_bytes 8 s ++ le_bytes 8 ts ++ frame.

Lemma record_bytes : JournalWriter.record s ts frame = body ++ le_bytes 8 (fnv1a body).
Proof.
  unfold JournalWriter.record, zeros. rewrite <-(app_nil_l (replicate RECORD_LEN 0)).
  rewrite (splice_zeros 0), (splice_zeros 8), (splice_zeros 16), (splice_zeros 56)
    by (rewrite ?length_app, ?length_le_bytes, ?Hframe; cbn; lia).
  rewrite !length_le_bytes, Hframe. cbn [Nat.sub replicate app]. rewrite app_nil_r.
  rewrite take_app_length' by (rewrite !length_app, !length_le_bytes, Hframe; done).
  unfold body. by rewrite <-!(assoc_L (++)).
Qed.

Lemma length_record : length (JournalWriter.record s ts frame) = RECORD_LEN.
Proof. rewrite record_bytes. unfold body. rewrite !length_app, !length_le_bytes, Hframe. done. Qed.

Lemma next_record rest :
  JournalReader.next (JournalWriter.record s ts frame ++ rest) = Some (mkRec s ts frame, rest).
Proof.
  pose proof length_record as L. unfold JournalReader.next.
  rewrite (proj2 (Nat.ltb_ge _ _)) by (rewrite length_app; lia).
  rewrite take_app_length', drop_app_length' by done. rewrite record_bytes.
  assert (Hb : length body = 56%nat) by (unfold body; rewrite !length_app, !length_le_bytes, Hframe; done).
  unfold u64_at, slice.
  rewrite take_app_length', drop_app_length' by done.
  rewrite (take_ge (le_bytes 8 _)) by (by rewrite length_le_bytes).
  rewrite le_value_u64 by apply fnv1a_u64. rewrite Z.eqb_refl. cbn [negb].
  set (h := le_bytes 8 (fnv1a body)). unfold body. rewrite <-!(assoc_L (++)).
  change (drop 16 (le_bytes 8 s ++ le_bytes 8 ts ++ frame ++ h)) with (frame ++ h).
  rewrite take_app_length' by done.
  change (take 8 (drop 0 _)) with (le_bytes 8 s). change (take 8 (drop 8 _)) with (le_bytes 8 ts).
  by rewrite !le_value_u64 by done.
Qed.
End record.

(** Bytes written are those of the file followed by those of the buffer; no
    operation but [truncate] takes any back. *)
Definition written (w : JournalWriter.JournalWriter) : bytes := JournalWriter.file w ++ JournalWriter.buf w.

Definition grows (w w' : JournalWriter.JournalWriter) (bs : bytes) : Prop :=
  written w' = written w ++ bs /\ JournalWriter.file w `prefix_of` JournalWriter.file w'.

Lemma grows_flush w : grows w (JournalWriter.flush_buf w) [].
Proof. split; cbn; [|by apply prefix_app_r]. unfold written. cbn. by rewrite !app_nil_r. Qed.

Lemma grows_write_all w bs : grows w (JournalWriter.write_all w bs) bs /\
  JournalWriter.synced (JournalWriter.write_all w bs) = JournalWriter.synced w /\
  JournalWriter.seq (JournalWriter.write_all w bs) = JournalWriter.seq w.
Proof.
  unfold JournalWriter.write_all, grows, written.
  destruct (_ <? _)%nat eqn:Ef; cbn -[Nat.leb]; destruct (_ <=? _)%nat eqn:Ec; cbn;
    (split; [|done]); split; try (by apply prefix_app_r) || done; rewrite ?app_nil_r, ?(assoc_L (++)); try done.
  - apply prefix_app_r. by apply prefix_app_r.
  - apply Nat.ltb_ge in Ef. apply Nat.leb_le in Ec. destruct (JournalWriter.buf w) as [|b l] eqn:E;
      [by rewrite !app_nil_r|]. cbn in Ef. lia.
Qed.

Lemma grows_append w ts frame due : let '(w', s) := JournalWriter.append w ts frame due in
  grows w w' (JournalWriter.record s ts frame) /\ JournalWriter.synced w' = JournalWriter.synced w /\
  s = wrap64 (JournalWriter.seq w + 1) /\ JournalWriter.seq w' = s.
Proof.
  unfold JournalWriter.append. set (s := wrap64 (JournalWriter.seq w + 1)).
  set (w1 := JournalWriter.mkWriter _ _ _ _ s _).
  destruct (grows_write_all w1 (JournalWriter.record s ts frame)) as ((Hw & Hp) & Hsy & Hs).
  destruct (_ || due); cbn -[JournalWriter.record]; rewrite Hs, Hsy; (split; [|done]); split; try done.
  - unfold written in *. cbn -[JournalWriter.record]. by rewrite app_nil_r, Hw.
  - cbn -[JournalWriter.record]. by apply prefix_app_r.
Qed.

Abbreviation encoded := (fun r => JournalWriter.record (r_seq r) (r_ts_nanos r) (r_frame r)).

Lemma encoded_lengths recs : Forall record_ok recs ->
  Forall (fun f : bytes => length f = RECORD_LEN) (encoded <$> recs).
Proof.
  intros H. apply Forall_fmap. eapply Forall_impl; [done|]. intros r (? & ? & ?). by apply length_record.
Qed.

Lemma collect_torn recs torn fuel : Forall record_ok recs -> (length torn < RECORD_LEN)%nat ->
  (length recs <= fuel)%nat -> JournalReader.collect fuel (concat (encoded <$> recs) ++ torn) = recs.
Proof.
  intros Hr Ht. revert fuel. induction Hr as [|r recs (H1 & H2 & H3) Hr IH]; intros [|fuel] Hf; cbn [length] in Hf; try lia.
  - done.
  - cbn. unfold JournalReader.next. by rewrite (proj2 (Nat.ltb_lt _ _)) by done.
  - cbn [fmap list_fmap concat JournalReader.collect]. rewrite <-(assoc_L (++)), next_record, IH by (done || lia).
    by destruct r.
Qed.

Lemma read_torn recs torn : Forall record_ok recs -> (length torn < RECORD_LEN)%nat ->
  JournalReader.read (journal_file recs ++ torn) = Ok recs.
Proof.
  intros Hr Ht. unfold JournalReader.read, JournalReader.open, journal_file. rewrite <-(assoc_L (++)).
  rewrite (proj2 (Nat.ltb_ge _ _)) by (rewrite length_app; cbn; lia).
  rewrite take_app_length', drop_app_length', bool_decide_true by done. cbn [try_bind]. f_equal.
  apply collect_torn; [done..|]. rewrite length_app, (length_frames RECORD_LEN), length_fmap by by apply encoded_lengths.
  lia.
Qed.

Lemma length_journal_file recs : Forall record_ok recs ->
  length (journal_file recs) = (8 + RECORD_LEN * length recs)%nat.
Proof.
  intros Hr. unfold journal_file. rewrite length_app, (length_frames RECORD_LEN), length_fmap by by apply encoded_lengths.
  done.
Qed.

Lemma read_image recs img : Forall record_ok recs -> img `prefix_of` journal_file recs -> (8 <= length img)%nat ->
  exists k, JournalReader.read img = Ok (take k recs) /\
    (k <= length recs)%nat /\ (8 + RECORD_LEN * k <= length img < 8 + RECORD_LEN * (k + 1))%nat.
Proof.
  intros Hr Hp H8.
  destruct (framed_prefix RECORD_LEN JOURNAL_HEADER (encoded <$> recs) img) as (k & torn & E & Ht & Hk);
    [lia | by apply encoded_lengths | done | done |].
  rewrite length_fmap in Hk. rewrite <- fmap_take in E.
  assert (Hi : img = journal_file (take k recs) ++ torn) by (unfold journal_file; by rewrite <- (assoc_L (++))).
  assert (Hr' : Forall record_ok (take k recs)) by by apply Forall_take.
  exists k. split_and!; [|done|..].
  - rewrite Hi. by apply read_torn.
  - rewrite Hi, length_app, length_journal_file, length_take by done. lia.
  - rewrite Hi, length_app, length_journal_file, length_take by done. lia.
Qed.

(** ** The writer's invariant *)
Definition journal_holds (w : JournalWriter.JournalWriter) (recs : list JRecord) : Prop :=
  written w = journal_file recs /\ Forall record_ok recs /\ is_u64 (JournalWriter.seq w) /\
  (8 <= JournalWriter.synced w <= length (JournalWriter.file w))%nat.

Lemma holds_quiet w w' recs : journal_holds w recs -> grows w w' [] ->
  JournalWriter.seq w' = JournalWriter.seq w ->
  JournalWriter.synced w' = JournalWriter.synced w \/ JournalWriter.synced w' = length (JournalWriter.file w') ->
  journal_holds w' recs.
Proof.
  intros (Hw & Hr & Hs & Hsy) (Hw' & Hp) Es Ey. apply prefix_length in Hp. unfold journal_holds.
  rewrite Hw', app_nil_r, Es. split_and!; [done..| |]; destruct Ey as [-> | ->]; lia.
Qed.

Lemma holds_append w recs ts frame due : journal_holds w recs -> is_u64 ts -> length frame = MSG_LEN ->
  let '(w', s) := JournalWriter.append w ts frame due in journal_holds w' (recs ++ [mkRec s ts frame]).
Proof.
  intros (Hw & Hr & Hs & Hsy) Hts Hf. pose proof (grows_append w ts frame due) as Hg.
  destruct (JournalWriter.append w ts frame due) as [w' s]. destruct Hg as ((Hw' & Hp) & Ey & Es & Eq).
  apply prefix_length in Hp. assert (is_u64 s) by (rewrite Es; apply wrap64_range).
  unfold journal_holds. rewrite Hw', Hw, Eq, Ey. split_and!; try lia; try done.
  - unfold journal_file. rewrite fmap_app, concat_app, (assoc_L (++)).
    change (concat (encoded <$> [mkRec s ts frame])) with (JournalWriter.record s ts frame ++ []).
    by rewrite app_nil_r.
  - apply Forall_app. split; [done|]. by constructor.
Qed.

Lemma holds_flush w recs : journal_holds w recs -> journal_holds (JournalWriter.flush w) recs.
Proof. intros H. apply (holds_quiet w); [done| |done|by left]. apply (grows_flush w). Qed.

Lemma holds_fsync w recs : journal_holds w recs -> journal_holds (JournalWriter.fsync w) recs.
Proof. intros H. apply (holds_quiet w); [done| |done|by right]. split; [by rewrite app_nil_r|done]. Qed.

Lemma holds_sync w recs : journal_holds w recs -> journal_holds (JournalWriter.sync_data w) recs.
Proof. intros H. apply (holds_quiet w); [done| |done|by right]. apply (grows_flush w). Qed.

Lemma holds_step w recs op : journal_holds w recs -> op_ok op ->
  let '(w', recs') := journal_step (w, recs) op in journal_holds w' recs'.
Proof.
  intros H Hop. destruct op as [ts frame due|due| | |]; cbn -[JournalWriter.append].
  - destruct Hop as [Hts Hf]. pose proof (holds_append w recs ts frame due H Hts Hf).
    by destruct (JournalWriter.append w ts frame due).
  - unfold JournalWriter.tick. case_if; [by apply holds_flush|done].
  - by apply holds_flush.
  - by apply holds_fsync.
  - by apply holds_sync.
Qed.

(** The records appended since [recs0] carry the numbers after [s0]. *)
Definition numbered (recs0 : list JRecord) (s0 : Z) (w : JournalWriter.JournalWriter) (recs : list JRecord) : Prop :=
  exists new, recs = recs0 ++ new /\ JournalWriter.seq w = wrap64 (s0 + Z.of_nat (length new)) /\
    forall i r, new !! i = Some r -> r_seq r = wrap64 (s0 + Z.of_nat i + 1).

Lemma numbered_step recs0 s0 w recs op : numbered recs0 s0 w recs ->
  let '(w', recs') := journal_step (w, recs) op in numbered recs0 s0 w' recs'.
Proof.
  intros (new & E & Hs & Hn). destruct op as [ts frame due|due| | |]; cbn -[JournalWriter.append]; try by exists new.
  - pose proof (grows_append w ts frame due) as Hg. destruct (JournalWriter.append w ts frame due) as [w' s].
    destruct Hg as (_ & _ & Es & Eq). exists (new ++ [mkRec s ts frame]).
    assert (Es' : s = wrap64 (s0 + Z.of_nat (length new) + 1)).
    { rewrite Es, Hs. unfold wrap64. by rewrite Zplus_mod_idemp_l. }
    split_and!.
    + by rewrite E, (assoc_L (++)).
    + rewrite Eq, Es', length_app. f_equal. cbn. lia.
    + intros i r Hr. apply lookup_app_Some in Hr as [Hr|[Hi Hr]]; [by apply Hn|].
      apply list_lookup_singleton_Some in Hr as [Hi' <-]. cbn [r_seq]. rewrite Es'. do 2 f_equal. lia.
  - exists new. unfold JournalWriter.tick. by case_if.
Qed.

Lemma run_journal_ok recs0 s0 w recs ops : journal_holds w recs -> numbered recs0 s0 w recs -> Forall op_ok ops ->
  let '(w', recs') := run_journal w recs ops in journal_holds w' recs' /\ numbered recs0 s0 w' recs'.
Proof.
  intros Hh Hn Hops. revert w recs Hh Hn. unfold run_journal.
  induction Hops as [|op ops Hop Hops IH]; intros w recs Hh Hn; [done|]. cbn -[journal_step].
  pose proof (holds_step w recs op Hh Hop). pose proof (numbered_step recs0 s0 w recs op Hn).
  destruct (journal_step (w, recs) op) as [w' recs']. by apply IH.
Qed.

Lemma open_journal_file recs cap : Forall record_ok recs ->
  exists w, JournalWriter.open_with_capacity (journal_file recs) cap = Ok w /\ journal_holds w recs /\
    JournalWriter.seq w = 0.
Proof.
  intros Hr. pose proof (length_journal_file recs Hr) as L. unfold JournalWriter.open_with_capacity. rewrite L.
  rewrite (proj2 (Nat.eqb_neq _ _)), (proj2 (Nat.ltb_ge _ _)) by lia.
  rewrite bool_decide_true by by unfold journal_file. eexists. split; [done|]. split; [|done].
  unfold journal_holds, written. cbn [JournalWriter.file JournalWriter.buf JournalWriter.synced JournalWriter.seq].
  rewrite app_nil_r, L. split_and!; try done; lia.
Qed.

Lemma crash_read w recs img : journal_holds w recs -> crash_image w img ->
  exists k, JournalReader.read img = Ok (take k recs) /\
    (JournalWriter.synced w < 8 + RECORD_LEN * (k + 1))%nat.
Proof.
  intros (Hw & Hr & _ & Hsy) [Hp Hl]. destruct (read_image recs img) as (k & E & _ & Hk); [done| |lia|].
  - rewrite <-Hw. unfold written. by apply prefix_app_r.
  - exists k. split; [done|lia].
Qed.

Lemma synced_read w recs img : journal_holds w recs -> crash_image (JournalWriter.sync_data w) img ->
  JournalReader.read img = Ok recs.
Proof.
  intros Hh Hc. destruct (crash_read _ recs img (holds_sync _ _ Hh) Hc) as (k & -> & Hk).
  destruct Hh as (Hw & Hr & _). unfold written in Hw. cbn -[Nat.mul] in Hk.
  rewrite Hw, length_journal_file in Hk by done. by rewrite take_ge by lia.
Qed.

(** A writer opened on a journal, resumed and run keeps the invariant. *)
Lemma resumed_run recs0 seq0 cap ops : Forall record_ok recs0 -> is_u64 seq0 -> Forall op_ok ops ->
  exists w0, JournalWriter.open_with_capacity (journal_file recs0) cap = Ok w0 /\
    let '(w, recs) := run_journal (JournalWriter.resume_from w0 seq0) recs0 ops in
    journal_holds w recs /\ numbered recs0 seq0 w recs.
Proof.
  intros Hr Hs Hops. destruct (open_journal_file recs0 cap Hr) as (w0 & Ho & (Hw & Hok & _ & Hsy) & Es).
  exists w0. split; [done|].
  assert (Hseq : JournalWriter.seq (JournalWriter.resume_from w0 seq0) = seq0).
  { cbn. rewrite Es. unfold is_u64 in Hs. lia. }
  apply run_journal_ok; [| |done].
  - unfold journal_holds. rewrite Hseq. by split.
  - exists []. rewrite app_nil_r, Hseq. split_and!; [done| |done]. cbn. rewrite Z.add_0_r.
    symmetry. apply wrap64_small. done.
Qed.

(** C31: Journal durability.  A writer opened on a journal of [recs0] (or on a
    new file), resumed at [seq0] and taken through any appends, ticks, flushes
    and fsyncs leaves, whenever the process or the machine stops, a file whose
    reader returns a prefix of the records appended so far: no prefix is lost,
    nothing is reordered or altered by a torn tail, and every record that a
    completed fsync covers is there.  After [sync_data] all of them are.  The
    new records carry consecutive sequence numbers from [seq0 + 1]. *)
Theorem journal_crash_safe (recs0 : list JRecord) (seq0 : Z) (cap : nat) (ops : list journal_op) :
  Forall record_ok recs0 -> is_u64 seq0 -> Forall op_ok ops ->
  JournalWriter.open_with_capacity [] cap = JournalWriter.open_with_capacity (journal_file []) cap /\
  exists w0, JournalWriter.open_with_capacity (journal_file recs0) cap = Ok w0 /\
    let '(w, recs) := run_journal (JournalWriter.resume_from w0 seq0) recs0 ops in
    (forall img, crash_image w img ->
       exists k, JournalReader.read img = Ok (take k recs) /\
         (JournalWriter.synced w < 8 + RECORD_LEN * (k + 1))%nat) /\
    (forall img, crash_image (JournalWriter.sync_data w) img -> JournalReader.read img = Ok recs) /\
    exists new, recs = recs0 ++ new /\
      forall i r, new !! i = Some r -> r_seq r = wrap64 (seq0 + Z.of_nat i + 1).
Proof.
  intros Hr Hs Hops. split; [done|].
  destruct (resumed_run recs0 seq0 cap ops Hr Hs Hops) as (w0 & Ho & Hrun). exists w0. split; [done|].
  destruct (run_journal _ _ _) as [w recs]. destruct Hrun as (Hh & new & E & _ & Hn).
  split_and!; [intros img; by apply crash_read | intros img; by apply synced_read | by exists new].
Qed.

Lemma journal_crash_safe_witness :
  exists w0, JournalWriter.open_with_capacity (journal_file [mkRec 1 5 (zeros MSG_LEN)]) 4096 = Ok w0 /\
    let '(w, recs) := run_journal (JournalWriter.resume_from w0 1) [mkRec 1 5 (zeros MSG_LEN)]
      [JAppend 6 (zeros MSG_LEN) false; JFsync; JTick true] in
    JournalReader.read (JournalWriter.file (JournalWriter.sync_data w)) = Ok recs /\ length recs = 2%nat.
Proof.
  destruct (journal_crash_safe [mkRec 1 5 (zeros MSG_LEN)] 1 4096
    [JAppend 6 (zeros MSG_LEN) false; JFsync; JTick true]) as (_ & w0 & E & H).
  - repeat constructor; cbn; unfold_width; lia.
  - unfold_width; lia.
  - repeat constructor; cbn; unfold_width; lia.
  - exists w0. split; [done|]. cbn [run_journal foldl] in *. cbn -[JournalWriter.append JournalWriter.tick] in *.
    destruct (JournalWriter.append _ _ _ _) as [w s]. destruct H as (_ & H & _). split; [|done]. apply H.
    split; [done|]. cbn. lia.
Defined.

(** A torn tail is not trimmed when the journal is reopened: the records
    appended afterwards stand behind it, and the reader, which stops at the
    torn record, never returns them. *)
Theorem torn_tail_hides_appends :
  let r n := mkRec n n (zeros MSG_LEN) in
  let torn := take (8 + 64 + 10) (journal_file [r 1; r 2]) in
  JournalReader.read torn = Ok [r 1] /\
  exists w, JournalWriter.open_with_capacity torn 4096 = Ok w /\
    let w := JournalWriter.sync_data (fst (JournalWriter.append (JournalWriter.resume_from w 1) 2 (zeros MSG_LEN) false)) in
    JournalWriter.seq w = 2 /\ JournalReader.read (JournalWriter.file w) = Ok [r 1].
Proof. split; [by vm_compute|]. eexists. split; [by vm_compute|]. split; by vm_compute. Qed.
