(* ===== verification/Inspect.v ===== *)
(** * Offline inspection of journals

    [src/src/journal_inspect.rs]: dumping, verifying and comparing journal
    files.  A dumped line is the record it is printed from: the text itself
    ([Debug] output) is not modelled.  The outbox dump takes the records the
    outbox reader returned. *)

From S2P Require Import Prelude Types Bytes Protocol Wire Journal.

Record DumpFilter := mkFilter {
  from_seq : option Z;
  to_seq : option Z;
  from_ts : option Z;
  to_ts : option Z
}.

Definition map_or (o : option Z) (f : Z -> bool) : bool := match o with None => true | Some v => f v end.

Definition accepts_record (d : DumpFilter) (seq ts_nanos : Z) : bool :=
  map_or (from_seq d) (fun v => v <=? seq) && map_or (to_seq d) (fun v => seq <=? v) &&
  map_or (from_ts d) (fun v => v <=? ts_nanos) && map_or (to_ts d) (fun v => ts_nanos <=? v).

(** [format_record]: sequence, timestamp and the last command of the frame, if
    it decodes. *)
Definition format_record (r : JRecord) : Z * Z * option Command :=
  (r_seq r, r_ts_nanos r, decode_raft_entry (r_frame r) ≫= last).

(** The lines written, and their number. *)
Definition dump_step (d : DumpFilter) (st : list (Z * Z * option Command) * Z) (r : JRecord)
    : list (Z * Z * option Command) * Z :=
  if accepts_record d (r_seq r) (r_ts_nanos r) then (st.1 ++ [format_record r], st.2 + 1) else st.

Definition dump_journal (contents : bytes) (d : DumpFilter) : io_result (list (Z * Z * option Command) * Z) :=
  let? recs := JournalReader.read contents in Ok (foldl (dump_step d) ([], 0) recs).

Record VerifyReport := mkVerify {
  v_records : Z;
  first_seq : option Z;
  last_valid_seq : option Z;
  contiguous : bool;
  first_gap_after : option Z
}.

Definition verify_step (v : VerifyReport) (r : JRecord) : VerifyReport :=
  let records := wrap64 (v_records v + 1) in
  let first := match first_seq v with None => Some (r_seq r) | f => f end in
  match last_valid_seq v with
  | Some prev =>
      if contiguous v && negb (r_seq r =? wrap64 (prev + 1)) then
        mkVerify records first (Some (r_seq r)) false (Some prev)
      else mkVerify records first (Some (r_seq r)) (contiguous v) (first_gap_after v)
  | None => mkVerify records first (Some (r_seq r)) (contiguous v) (first_gap_after v)
  end.

Definition verify_journal (contents : bytes) : io_result VerifyReport :=
  let? recs := JournalReader.read contents in
  Ok (foldl verify_step (mkVerify 0 None None true None) recs).

Inductive JournalDiff :=
| Identical
| FrameDiffers (seq : Z)
| SeqMismatch (a_seq b_seq : Z)
| LengthMismatch (at_seq : Z) (longer_is_a : bool).

(** The loop of [diff_journals] on what the two readers yield. *)
Fixpoint diff_records (a b : list JRecord) : JournalDiff :=
  match a, b with
  | ra :: a, rb :: b =>
      if negb (r_seq ra =? r_seq rb) then SeqMismatch (r_seq ra) (r_seq rb)
      else if negb (bool_decide (r_frame ra = r_frame rb)) then FrameDiffers (r_seq ra)
      else diff_records a b
  | ra :: _, [] => LengthMismatch (r_seq ra) true
  | [], rb :: _ => LengthMismatch (r_seq rb) false
  | [], [] => Identical
  end.

Definition diff_journals (a b : bytes) : io_result JournalDiff :=
  let? ra := JournalReader.read a in
  let? rb := JournalReader.read b in
  Ok (diff_records ra rb).

(** ** Lemmas *)

(** What a comparison looks at: timestamps are left out. *)
Definition key (r : JRecord) : Z * bytes := (r_seq r, r_frame r).

(** The consecutive numbers after [s]. *)
Definition consecutive (s : Z) (recs : list JRecord) : Prop :=
  forall i r, recs !! i = Some r -> r_seq r = wrap64 (s + Z.of_nat i + 1).

Lemma consecutive_take s recs k : consecutive s recs -> consecutive s (take k recs).
Proof. intros H i r Hr. apply lookup_take_Some in Hr as [Hr _]. by apply H. Qed.

Lemma verify_snoc recs r :
  foldl verify_step (mkVerify 0 None None true None) (recs ++ [r]) =
  verify_step (foldl verify_step (mkVerify 0 None None true None) recs) r.
Proof. by rewrite foldl_app. Qed.

Lemma verify_consecutive s recs : consecutive s recs ->
  foldl verify_step (mkVerify 0 None None true None) recs =
  mkVerify (wrap64 (Z.of_nat (length recs))) (r_seq <$> head recs) (r_seq <$> last recs) true None.
Proof.
  induction recs as [|r recs IH] using rev_ind; intros H; [done|]. rewrite verify_snoc, IH, last_snoc.
  2: { intros i r' Hr. apply H. by apply lookup_app_l_Some. }
  assert (Hr : r_seq r = wrap64 (s + Z.of_nat (length recs) + 1)).
  { apply H. by rewrite lookup_app_r, Nat.sub_diag by lia. }
  unfold verify_step. cbn [v_records first_seq last_valid_seq contiguous first_gap_after].
  rewrite wrap64_succ, length_app. replace (Z.of_nat (length recs) + 1) with (Z.of_nat (length recs + 1)) by lia.
  destruct recs as [|a recs' _] using rev_ind; [done|]. rewrite last_snoc. cbn [fmap option_fmap option_map andb].
  assert (Ha : r_seq a = wrap64 (s + Z.of_nat (length recs') + 1)).
  { apply H. rewrite <- (assoc_L (++)). by rewrite lookup_app_r, Nat.sub_diag by lia. }
  rewrite Ha, wrap64_succ, Hr, length_app. cbn [length].
  replace (s + Z.of_nat (length recs') + 1 + 1) with (s + Z.of_nat (length recs' + 1) + 1) by lia.
  rewrite Z.eqb_refl. by destruct recs'.
Qed.

Lemma diff_prefix a k :
  diff_records a (take k a) = match a !! k with Some r => LengthMismatch (r_seq r) true | None => Identical end.
Proof.
  revert k. induction a as [|r a IH]; intros [|k]; cbn; try done.
  rewrite Z.eqb_refl, bool_decide_true by done. apply IH.
Qed.

(** ** Properties *)

(** What the comparison reports is exactly the first difference in sequence
    numbers, frames or length. *)
Theorem diff_exact (a b : list JRecord) :
  match diff_records a b with
  | Identical => key <$> a = key <$> b
  | FrameDiffers s => exists k ra rb, a !! k = Some ra /\ b !! k = Some rb /\ key <$> take k a = key <$> take k b /\
      r_seq ra = s /\ r_seq rb = s /\ r_frame ra <> r_frame rb
  | SeqMismatch s t => exists k ra rb, a !! k = Some ra /\ b !! k = Some rb /\ key <$> take k a = key <$> take k b /\
      r_seq ra = s /\ r_seq rb = t /\ s <> t
  | LengthMismatch s true => exists r, a !! length b = Some r /\ key <$> take (length b) a = key <$> b /\ r_seq r = s
  | LengthMismatch s false => exists r, b !! length a = Some r /\ key <$> take (length a) b = key <$> a /\ r_seq r = s
  end.
Proof.
  revert b. induction a as [|ra a IH]; intros [|rb b]; cbn [diff_records].
  - done.
  - by exists rb.
  - by exists ra.
  - destruct (negb (_ =? _)) eqn:E1; zbool; [by exists 0%nat, ra, rb|].
    destruct (negb (bool_decide _)) eqn:E2; zbool.
    { apply bool_decide_eq_false in E2. by exists 0%nat, ra, rb. }
    apply bool_decide_eq_true in E2. assert (Ek : key ra = key rb) by (unfold key; congruence).
    specialize (IH b). destruct (diff_records a b) as [| s | s t | s [|]].
    + cbn. congruence.
    + destruct IH as (k & x & y & ? & ? & Ht & ?). exists (S k), x, y. cbn. rewrite Ek, Ht. done.
    + destruct IH as (k & x & y & ? & ? & Ht & ?). exists (S k), x, y. cbn. rewrite Ek, Ht. done.
    + destruct IH as (x & ? & Ht & ?). exists x. cbn. rewrite Ek, Ht. done.
    + destruct IH as (x & ? & Ht & ?). exists x. cbn. rewrite Ek, Ht. done.
Qed.

(** Inspecting what a crash left.  Take a journal started at any sequence
    number and run through any appends, ticks, flushes and fsyncs.  Whatever
    prefix of it survives a crash, verification reports a gap-free journal with
    the number, the first and the last sequence of the surviving records, and a
    comparison of the synced journal with it reports either equality or the
    first lost record, never a difference in content. *)
Theorem crash_inspection (seq0 : Z) (cap : nat) (ops : list journal_op) :
  is_u64 seq0 -> Forall op_ok ops ->
  exists w0, JournalWriter.open_with_capacity (journal_file []) cap = Ok w0 /\
    let '(w, recs) := run_journal (JournalWriter.resume_from w0 seq0) [] ops in
    forall img, crash_image w img -> exists k,
      (JournalWriter.synced w < 8 + RECORD_LEN * (k + 1))%nat /\
      verify_journal img =
        Ok (mkVerify (wrap64 (Z.of_nat (length (take k recs)))) (r_seq <$> head (take k recs))
              (r_seq <$> last (take k recs)) true None) /\
      diff_journals (JournalWriter.file (JournalWriter.sync_data w)) img =
        Ok (match recs !! k with Some r => LengthMismatch (r_seq r) true | None => Identical end).
Proof.
  intros Hs Hops. destruct (resumed_run [] seq0 cap ops (Forall_nil_2 _) Hs Hops) as (w0 & Ho & Hrun).
  exists w0. split; [done|]. destruct (run_journal _ _ _) as [w recs].
  destruct Hrun as (Hh & new & -> & _ & Hn). intros img Himg.
  destruct (crash_read w _ img Hh Himg) as (k & Hread & Hk). exists k. split; [done|].
  unfold verify_journal, diff_journals. rewrite Hread, (synced_read w ([] ++ new)) by (done || (split; [done | cbn; lia])).
  cbn [try_bind app]. rewrite diff_prefix. split; [|done].
  by rewrite (verify_consecutive seq0) by (apply consecutive_take; exact Hn).
Qed.

Lemma crash_inspection_witness :
  exists w0, JournalWriter.open_with_capacity (journal_file []) 4096 = Ok w0 /\
    let '(w, recs) := run_journal (JournalWriter.resume_from w0 7) []
      [JAppend 6 (zeros MSG_LEN) false; JFsync; JAppend 9 (zeros MSG_LEN) true] in
    exists k, verify_journal (JournalWriter.file w) =
        Ok (mkVerify (wrap64 (Z.of_nat (length (take k recs)))) (r_seq <$> head (take k recs))
              (r_seq <$> last (take k recs)) true None).
Proof.
  destruct (crash_inspection 7 4096 [JAppend 6 (zeros MSG_LEN) false; JFsync; JAppend 9 (zeros MSG_LEN) true])
    as (w0 & Ho & H).
  - unfold_width; lia.
  - repeat constructor; cbn; unfold_width; lia.
  - exists w0. split; [exact Ho|]. vm_compute in Ho. injection Ho as <-.
    destruct (run_journal _ _ _) as [w recs] eqn:E.
    destruct (H (JournalWriter.file w)) as (k & _ & Hv & _); [|by exists k].
    split; [done|]. vm_compute in E. injection E as <- _. cbn. lia.
Defined.
