(* ===== verification/Snapshot.v ===== *)
(** * Shard snapshots

    [src/src/snapshot.rs]: the snapshot file image, its loader and the
    installation of a snapshot received through Raft.  The file system is the
    two files involved: the live snapshot and the temporary one. *)

From S2P Require Import Prelude Types Bytes Wire.

(** [TCS1]. *)
Definition MAGIC : bytes := [84; 67; 83; 49].
Abbreviation VERSION := 4.
Abbreviation LEGACY_VERSION := 3.
Abbreviation ORDER_ENC := 56%nat.

Definition encode_order (o : Order) : bytes :=
  let out := splice 0 (le_bytes 8 (o_id o)) (zeros ORDER_ENC) in
  let out := splice 8 (le_bytes 4 (o_instrument o)) out in
  let out := splice 12 (le_bytes 8 (o_user o)) out in
  let out := splice 20 [side_code (o_side o)] out in
  let out := splice 21 [type_code (o_type o)] out in
  let out := splice 22 [tif_code (o_tif o)] out in
  let out := splice 23 [0] out in
  let out := splice 24 (le_bytes 8 (o_price o)) out in
  let out := splice 32 (le_bytes 8 (o_quantity o)) out in
  let out := splice 40 (le_bytes 8 (o_remaining o)) out in
  splice 48 (le_bytes 8 (o_timestamp o)) out.

Definition decode_order (b : bytes) : Order :=
  mkOrder (u64_at 0 b) (u32_at 8 b) (u64_at 12 b)
    (if byte_at 20 b =? 0 then Buy else Sell)
    (if byte_at 21 b =? 1 then Market else Limit)
    (match byte_at 22 b with 1 => Ioc | 2 => Fok | 3 => IocBudget | 4 => FokBudget | _ => Gtc end)
    (u64_at 24 b) (u64_at 32 b) (u64_at 40 b) (u64_at 48 b).

Record EngineState := mkEngineState {
  es_instrument : InstrumentId;
  es_engine_seq : Timestamp;
  es_orders : list Order
}.

Record Snapshot := mkSnapshot {
  format_version : Z;
  journal_seq : Z;
  raft_applied_index : Z;
  max_cmd_id : Z;
  max_admin_id : Z;
  s_halted : list Z;
  s_suspended : list Z;
  s_positions : list (Z * Z * Z);
  s_engines : list EngineState
}.

(** [SnapshotData]: what a snapshot is written from. *)
Record SnapshotData := mkData {
  d_journal_seq : Z;
  d_raft_applied_index : Z;
  d_max_cmd_id : Z;
  d_max_admin_id : Z;
  d_halted : list Z;
  d_suspended : list Z;
  d_positions : list (Z * Z * Z);
  d_engines : list EngineState
}.

(** An [i64] in two's complement. *)
Definition i64_bytes (z : Z) : bytes := le_bytes 8 (wrap64 z).
Definition i64_value (bs : bytes) : Z := wrap_i64 (le_value bs).

Definition encode_position (p : Z * Z * Z) : bytes :=
  let '(u, i, q) := p in le_bytes 8 u ++ le_bytes 4 i ++ i64_bytes q.

(** A count followed by the items. *)
Definition encode_list {A : Type} (enc : A -> bytes) (l : list A) : bytes :=
  le_bytes 4 (wrap32 (Z.of_nat (length l))) ++ concat (enc <$> l).

Definition encode_engine (e : EngineState) : bytes :=
  le_bytes 4 (es_instrument e) ++ le_bytes 8 (es_engine_seq e) ++
  le_bytes 8 (wrap64 (Z.of_nat (length (es_orders e)))) ++ concat (encode_order <$> es_orders e).

(** The buffer that [write] builds, checksum included. *)
Definition image (d : SnapshotData) : bytes :=
  let buf :=
    MAGIC ++ le_bytes 4 VERSION ++ le_bytes 8 (d_journal_seq d) ++ le_bytes 8 (d_raft_applied_index d) ++
    le_bytes 8 (d_max_cmd_id d) ++ le_bytes 8 (d_max_admin_id d) ++
    encode_list (le_bytes 4) (d_halted d) ++ encode_list (le_bytes 8) (d_suspended d) ++
    encode_list encode_position (d_positions d) ++ encode_list encode_engine (d_engines d) in
  buf ++ le_bytes 8 (fnv1a buf).

(** ** Loading *)

(** [Vec::with_capacity] of elements of [size] bytes. *)
Definition with_capacity {A : Type} (n : Z) (size : Z) (k : outcome A) : outcome A :=
  assert_that (n * size <=? I64_MAX) "capacity overflow" k.

Definition read_u32 (buf : bytes) (pos : nat) : outcome Z :=
  let! b := slice_at pos 4 buf in Ret (le_value b).
Definition read_u64 (buf : bytes) (pos : nat) : outcome Z :=
  let! b := slice_at pos 8 buf in Ret (le_value b).

(** [for _ in 0..n { push(read(pos)); pos += size }]. *)
Fixpoint read_items {A : Type} (n : nat) (size : nat) (read : nat -> outcome A) (pos : nat)
    : outcome (list A * nat) :=
  match n with
  | O => Ret ([], pos)
  | S n =>
      let! a := read pos in
      let! rest := read_items n size read (pos + size) in
      Ret (a :: fst rest, snd rest)
  end.

(** The three counted lists: the count, then the items. *)
Definition read_list {A : Type} (size : nat) (mem : Z) (read : nat -> outcome A) (buf : bytes) (pos : nat)
    : outcome (list A * nat) :=
  let! n := read_u32 buf pos in
  with_capacity n mem (read_items (Z.to_nat n) size read (pos + 4)).

Definition read_position (buf : bytes) (pos : nat) : outcome (Z * Z * Z) :=
  let! u := read_u64 buf pos in
  let! i := read_u32 buf (pos + 8) in
  let! q := slice_at (pos + 12) 8 buf in
  Ret (u, i, i64_value q).

Definition read_order (buf : bytes) (pos : nat) : outcome Order :=
  let! b := slice_at pos ORDER_ENC buf in Ret (decode_order b).

(** One iteration of the engines loop: [Err] leaves [load]. *)
Definition read_engine (buf : bytes) (body_len pos : nat) : outcome (io_result (EngineState * nat)) :=
  if (body_len <? pos + 20)%nat then Ret (Err "truncated engine header")
  else
    let! instrument := read_u32 buf pos in
    let! engine_seq := read_u64 buf (pos + 4) in
    let! n := read_u64 buf (pos + 12) in
    let pos := (pos + 20)%nat in
    if Z.of_nat body_len <? wrap64 (Z.of_nat pos + wrap64 (n * 56)) then Ret (Err "truncated orders")
    else
      with_capacity n 56 (
        let! os := read_items (Z.to_nat n) ORDER_ENC (read_order buf) pos in
        Ret (Ok (mkEngineState instrument engine_seq (fst os), snd os))).

Fixpoint read_engines (n : nat) (buf : bytes) (body_len pos : nat) : outcome (io_result (list EngineState)) :=
  match n with
  | O => Ret (Ok [])
  | S n =>
      let! r := read_engine buf body_len pos in
      match r with
      | Err why => Ret (Err why)
      | Ok (e, pos) =>
          let! rest := read_engines n buf body_len pos in
          Ret (let? es := rest in Ok (e :: es))
      end
  end.

(** Everything after the version check. *)
Definition load_body (version : Z) (buf : bytes) (body_len : nat) : outcome (io_result Snapshot) :=
  let! journal_seq := read_u64 buf 8 in
  let! head :=
    (if 4 <=? version then let! r := read_u64 buf 16 in Ret (r, 24%nat) else Ret (0, 16%nat)) in
  let '(raft_applied_index, pos) := head in
  let! max_cmd_id := read_u64 buf pos in
  let! max_admin_id := read_u64 buf (pos + 8) in
  let! halted := read_list 4 4 (read_u32 buf) buf (pos + 16) in
  let! suspended := read_list 8 8 (read_u64 buf) buf (snd halted) in
  let! positions := read_list 20 24 (read_position buf) buf (snd suspended) in
  let! engine_count := read_u32 buf (snd positions) in
  with_capacity engine_count 40 (
    let! engines := read_engines (Z.to_nat engine_count) buf body_len (snd positions + 4) in
    Ret (let? es := engines in
         Ok (mkSnapshot version journal_seq raft_applied_index max_cmd_id max_admin_id
               (fst halted) (fst suspended) (fst positions) es))).

Definition load (buf : bytes) : outcome (io_result Snapshot) :=
  if (length buf <? 28)%nat || negb (bool_decide (take 4 buf = MAGIC)) then Ret (Err "bad magic/size")
  else
    let body_len := (length buf - 8)%nat in
    let stored := le_value (drop body_len buf) in
    if negb (fnv1a (take body_len buf) =? stored) then Ret (Err "checksum mismatch")
    else
      let version := u32_at 4 buf in
      if negb (version =? VERSION) && negb (version =? LEGACY_VERSION) then Ret (Err "unsupported version")
      else load_body version buf body_len.

(** ** The two files *)
Record Files := mkFiles {
  live : option bytes;
  temporary : option bytes
}.

(** [write]: temp file, fsync, rename. *)
Definition write (fs : Files) (d : SnapshotData) : Files :=
  let fs := mkFiles (live fs) (Some (image d)) in
  mkFiles (temporary fs) None.

(** [install_bytes]: the blob is decoded and its index checked before the rename. *)
Definition install_bytes (fs : Files) (bs : bytes) (expected_index : Z) : outcome (Files * io_result unit) :=
  let fs := mkFiles (live fs) (Some bs) in
  let! decoded := load bs in
  Ret match decoded with
      | Err why => (fs, Err why)
      | Ok s =>
          if (format_version s <? 4) || negb (raft_applied_index s =? expected_index) then
            (mkFiles (live fs) None, Err "matching snapshot index does not match Raft snapshot index")
          else (mkFiles (temporary fs) None, Ok tt)
      end.

(** ** Validity *)
Definition position_ok (p : Z * Z * Z) : Prop :=
  let '(u, i, q) := p in is_u64 u /\ is_u32 i /\ is_i64 q.

Definition engine_state_ok (e : EngineState) : Prop :=
  is_u32 (es_instrument e) /\ is_u64 (es_engine_seq e) /\ Forall order_ok (es_orders e) /\
  Z.of_nat (length (es_orders e)) * 56 <= I64_MAX.

(** What the writer can be given: fields at their widths, counts that fit. *)
Definition data_ok (d : SnapshotData) : Prop :=
  is_u64 (d_journal_seq d) /\ is_u64 (d_raft_applied_index d) /\ is_u64 (d_max_cmd_id d) /\
  is_u64 (d_max_admin_id d) /\
  Forall is_u32 (d_halted d) /\ Forall is_u64 (d_suspended d) /\ Forall position_ok (d_positions d) /\
  Forall engine_state_ok (d_engines d) /\
  is_u32 (Z.of_nat (length (d_halted d))) /\ is_u32 (Z.of_nat (length (d_suspended d))) /\
  is_u32 (Z.of_nat (length (d_positions d))) /\ is_u32 (Z.of_nat (length (d_engines d))) /\
  Z.of_nat (length (image d)) <= I64_MAX.

Definition snapshot_of (d : SnapshotData) : Snapshot :=
  mkSnapshot VERSION (d_journal_seq d) (d_raft_applied_index d) (d_max_cmd_id d) (d_max_admin_id d)
    (d_halted d) (d_suspended d) (d_positions d) (d_engines d).

(** ** Reading at a position *)
Section reading.
Context (buf : bytes).

Lemma read_u32_here pos z rest : is_u32 z -> drop pos buf = le_bytes 4 z ++ rest -> read_u32 buf pos = Ret z.
Proof.
  intros Hz H. unfold read_u32. pose proof (slice_at_here buf pos (le_bytes 4 z) rest) as E.
  rewrite length_le_bytes in E. rewrite E by done. cbn [obind]. by rewrite le_value_u32.
Qed.

Lemma read_u64_here pos z rest : is_u64 z -> drop pos buf = le_bytes 8 z ++ rest -> read_u64 buf pos = Ret z.
Proof.
  intros Hz H. unfold read_u64. pose proof (slice_at_here buf pos (le_bytes 8 z) rest) as E.
  rewrite length_le_bytes in E. rewrite E by done. cbn [obind]. by rewrite le_value_u64.
Qed.

(** A loop that reads back encoded items of one size. *)
Lemma read_items_here {A} (ok : A -> Prop) (enc : A -> bytes) (read : nat -> outcome A) (size : nat) :
  (forall a, length (enc a) = size) ->
  (forall a pos rest, ok a -> drop pos buf = enc a ++ rest -> read pos = Ret a) ->
  forall l pos rest, Forall ok l -> drop pos buf = concat (enc <$> l) ++ rest ->
    exists pos', read_items (length l) size read pos = Ret (l, pos') /\ drop pos' buf = rest.
Proof.
  intros Hsize Hread l. induction l as [|a l IH]; intros pos rest Hl H; [by exists pos|].
  apply Forall_cons in Hl as [Ha Hl]. cbn in H. rewrite <-(assoc_L (++)) in H. cbn [length read_items].
  rewrite (Hread a pos _ Ha H). cbn [obind]. apply drop_here in H. rewrite Hsize in H.
  destruct (IH _ _ Hl H) as (pos' & -> & H'). by exists pos'.
Qed.

Lemma read_list_here {A} (ok : A -> Prop) (enc : A -> bytes) (read : nat -> outcome A) (size : nat) (mem : Z) :
  (forall a, length (enc a) = size) ->
  (forall a pos rest, ok a -> drop pos buf = enc a ++ rest -> read pos = Ret a) ->
  forall l pos rest, Forall ok l -> is_u32 (Z.of_nat (length l)) -> mem <= 2 ^ 30 ->
    drop pos buf = encode_list enc l ++ rest ->
    exists pos', read_list size mem read buf pos = Ret (l, pos') /\ drop pos' buf = rest.
Proof.
  intros Hsize Hread l pos rest Hl Hn Hm H. unfold encode_list in H. rewrite <-(assoc_L (++)) in H.
  unfold wrap32 in H. rewrite Z.mod_small in H by (unfold_width; lia).
  unfold read_list. rewrite (read_u32_here _ _ _ Hn H). cbn [obind].
  unfold with_capacity, assert_that. rewrite (proj2 (Z.leb_le _ _)) by (unfold_width; nia).
  rewrite Nat2Z.id. apply (read_items_here ok enc); try done. by apply drop_u32 in H.
Qed.
End reading.

Lemma length_encode_order o : length (encode_order o) = ORDER_ENC.
Proof. done. Qed.

Lemma decode_encode_order o : order_ok o -> decode_order (encode_order o) = o.
Proof.
  unfold order_ok. intros H. unfold decode_order. destruct o as [id inst u s t f p q r ts]. cbn in H.
  decode_fields. by destruct s, t, f.
Qed.

Lemma read_order_here buf o pos rest : order_ok o -> drop pos buf = encode_order o ++ rest ->
  read_order buf pos = Ret o.
Proof.
  intros Ho H. unfold read_order. pose proof (slice_at_here buf pos (encode_order o) rest) as E.
  rewrite length_encode_order in E. rewrite E by done. cbn [obind]. by rewrite decode_encode_order.
Qed.

Lemma i64_round_trip z : is_i64 z -> i64_value (i64_bytes z) = z.
Proof.
  intros Hz. unfold i64_value, i64_bytes. rewrite le_value_u64 by apply wrap64_range.
  transitivity (wrap_i64 z); [|by apply wrap_i64_small]. unfold wrap_i64, wrap64. by rewrite Zplus_mod_idemp_l.
Qed.

Lemma read_position_here buf p pos rest : position_ok p -> drop pos buf = encode_position p ++ rest ->
  read_position buf pos = Ret p.
Proof.
  destruct p as [[u i] q]. intros (Hu & Hi & Hq) H. cbn [encode_position] in H. rewrite <-!(assoc_L (++)) in H.
  unfold read_position. rewrite (read_u64_here buf _ _ _ Hu H). cbn [obind]. apply drop_u64 in H.
  rewrite (read_u32_here buf _ _ _ Hi H). cbn [obind]. apply drop_u32 in H.
  rewrite <-Nat.add_assoc in H. cbn [Nat.add] in H.
  pose proof (slice_at_here buf (pos + 12) (i64_bytes q) rest) as E.
  change (length (i64_bytes q)) with 8%nat in E. rewrite E by done. cbn [obind]. by rewrite i64_round_trip.
Qed.

Lemma length_drop_app (buf : bytes) pos bs rest : drop pos buf = bs ++ rest -> bs <> [] ->
  (pos + length bs + length rest = length buf)%nat.
Proof.
  intros H Hb. assert (L : length (drop pos buf) = (length bs + length rest)%nat) by (rewrite H; apply length_app).
  rewrite length_drop in L. destruct bs; [done|]. cbn [length] in *. lia.
Qed.

Lemma read_engine_here buf e pos rest : engine_state_ok e -> Z.of_nat (length buf) <= I64_MAX ->
  (8 <= length rest)%nat -> drop pos buf = encode_engine e ++ rest ->
  exists pos', read_engine buf (length buf - 8) pos = Ret (Ok (e, pos')) /\ drop pos' buf = rest.
Proof.
  intros (Hi & Hs & Ho & Hn) Hbuf Hrest H.
  assert (L : (pos + length (encode_engine e) + length rest = length buf)%nat) by by apply length_drop_app.
  unfold encode_engine in L, H. rewrite !length_app, !length_le_bytes in L.
  rewrite (length_frames ORDER_ENC), length_fmap in L by (apply Forall_fmap, Forall_true; intros; apply length_encode_order).
  rewrite <-!(assoc_L (++)) in H. unfold read_engine.
  rewrite (proj2 (Nat.ltb_ge _ _)) by lia.
  rewrite (read_u32_here buf _ _ _ Hi H). cbn [obind]. apply drop_u32 in H.
  rewrite (read_u64_here buf _ _ _ Hs H). cbn [obind]. apply drop_u64 in H.
  rewrite <-Nat.add_assoc in H. cbn [Nat.add] in H.
  rewrite wrap64_small in H by (unfold_width; lia).
  rewrite (read_u64_here buf _ (Z.of_nat (length (es_orders e))) _ ltac:(unfold_width; lia) H). cbn [obind]. apply drop_u64 in H.
  rewrite <-Nat.add_assoc in H. cbn [Nat.add] in H.
  rewrite (wrap64_small (_ * 56)) by (unfold_width; lia). rewrite wrap64_small by (unfold_width; lia).
  rewrite (proj2 (Z.ltb_ge _ _)) by lia.
  unfold with_capacity, assert_that. rewrite (proj2 (Z.leb_le _ _)) by lia. rewrite Nat2Z.id.
  destruct (read_items_here buf order_ok encode_order (read_order buf) ORDER_ENC) with (l := es_orders e)
    (pos := (pos + 20)%nat) (rest := rest) as (pos' & -> & H'); try done.
  - intros o p r. apply read_order_here.
  - exists pos'. cbn. split; [by destruct e|done].
Qed.

Lemma read_engines_here buf es pos rest : Forall engine_state_ok es -> Z.of_nat (length buf) <= I64_MAX ->
  (8 <= length rest)%nat -> drop pos buf = concat (encode_engine <$> es) ++ rest ->
  read_engines (length es) buf (length buf - 8) pos = Ret (Ok es).
Proof.
  intros Hes Hbuf Hrest. revert pos. induction Hes as [|e es He Hes IH]; intros pos H; [done|].
  cbn in H. rewrite <-(assoc_L (++)) in H. cbn [length read_engines].
  destruct (read_engine_here buf e pos (concat (encode_engine <$> es) ++ rest)) as (pos' & -> & H'); try done.
  - rewrite length_app. lia.
  - cbn [obind]. by rewrite IH.
Qed.

Lemma load_body_here d buf foot : data_ok d -> length foot = 8%nat -> Z.of_nat (length buf) <= I64_MAX ->
  drop 8 buf = le_bytes 8 (d_journal_seq d) ++ le_bytes 8 (d_raft_applied_index d) ++
    le_bytes 8 (d_max_cmd_id d) ++ le_bytes 8 (d_max_admin_id d) ++
    encode_list (le_bytes 4) (d_halted d) ++ encode_list (le_bytes 8) (d_suspended d) ++
    encode_list encode_position (d_positions d) ++ encode_list encode_engine (d_engines d) ++ foot ->
  load_body VERSION buf (length buf - 8) = Ret (Ok (snapshot_of d)).
Proof.
  intros (Hj & Hr & Hc & Ha & Hh & Hs & Hp & He & Nh & Ns & Np & Ne & _) Hf Hbuf H. unfold load_body.
  rewrite (read_u64_here buf _ _ _ Hj H). cbn [obind]. apply drop_u64 in H.
  change (4 <=? VERSION) with true. cbn [Nat.add] in H.
  rewrite (read_u64_here buf _ _ _ Hr H). cbn [obind]. apply drop_u64 in H. cbn [Nat.add] in H.
  rewrite (read_u64_here buf _ _ _ Hc H). cbn [obind]. apply drop_u64 in H.
  rewrite (read_u64_here buf _ _ _ Ha H). cbn [obind]. apply drop_u64 in H. cbn [Nat.add] in *.
  destruct (read_list_here buf is_u32 (le_bytes 4) (read_u32 buf) 4 4) with (2 := fun a pos => read_u32_here buf pos a) (6 := H)
    as (p1 & -> & H1); [intros; apply length_le_bytes|done|done|done|]. cbn [obind snd].
  destruct (read_list_here buf is_u64 (le_bytes 8) (read_u64 buf) 8 8) with (2 := fun a pos => read_u64_here buf pos a) (6 := H1)
    as (p2 & -> & H2); [intros; apply length_le_bytes|done|done|done|]. cbn [obind snd].
  destruct (read_list_here buf position_ok encode_position (read_position buf) 20 24) with
    (2 := read_position_here buf) (6 := H2) as (p3 & -> & H3); [by intros [[u i] q]|done|done|done|]. cbn [obind snd].
  unfold encode_list in H3. rewrite <-(assoc_L (++)) in H3.
  unfold wrap32 in H3. rewrite Z.mod_small in H3 by (unfold_width; lia).
  rewrite (read_u32_here buf _ _ _ Ne H3). cbn [obind]. apply drop_u32 in H3.
  unfold with_capacity, assert_that. rewrite (proj2 (Z.leb_le _ _)) by (unfold_width; lia). rewrite Nat2Z.id.
  rewrite (read_engines_here buf _ _ foot) by (done || lia). done.
Qed.

Lemma load_image d : data_ok d -> load (image d) = Ret (Ok (snapshot_of d)).
Proof.
  intros Hd. assert (Hlen := Hd). destruct Hlen as (_ & _ & _ & _ & _ & _ & _ & _ & _ & _ & _ & _ & Hlen).
  unfold load, image in *. set (body := MAGIC ++ _) in *. pose proof (fnv1a_u64 body) as Hh.
  assert (Lf : length (le_bytes 8 (fnv1a body)) = 8%nat) by apply length_le_bytes.
  assert (Lb : (40 <= length body)%nat).
  { unfold body. rewrite !length_app, !length_le_bytes. cbn [length MAGIC]. lia. }
  rewrite length_app, Lf in *.
  rewrite (proj2 (Nat.ltb_ge _ _)) by lia. change (take 4 (body ++ _)) with MAGIC.
  rewrite bool_decide_true by done. cbn [orb negb].
  replace (length body + 8 - 8)%nat with (length body) by lia.
  rewrite drop_app_length, take_app_length, le_value_u64, Z.eqb_refl by done. cbn [negb].
  change (u32_at 4 (body ++ _)) with VERSION. cbn [Z.eqb Pos.eqb negb andb].
  pose proof (load_body_here d (body ++ le_bytes 8 (fnv1a body)) (le_bytes 8 (fnv1a body))) as E.
  rewrite length_app, Lf in E. replace (length body + 8 - 8)%nat with (length body) in E by lia.
  apply E; [done..|]. unfold body at 1. rewrite <-!(assoc_L (++)). done.
Qed.

Lemma install_cases fs bs idx fs' r : install_bytes fs bs idx = Ret (fs', r) ->
  (live fs' = live fs /\ r <> Ok tt) \/
  (live fs' = Some bs /\ r = Ok tt /\
   exists s, load bs = Ret (Ok s) /\ raft_applied_index s = idx /\ 4 <= format_version s).
Proof.
  unfold install_bytes. destruct (load bs) as [[s|why]|]; cbn; intros H; [|by injection H as <- <-; left|done].
  destruct (_ || _) eqn:E; zbool; injection H as <- <-; cbn; [by left|right]. split_and!; [done..|]. exists s. split_and!; [done|lia|lia].
Qed.

(** Snapshots.  The image of a shard's state loads back to exactly that
    state, also through [write]'s temporary file; a blob received through Raft
    replaces the live snapshot only when it decodes, in the current format,
    with the expected applied index (the image of a state does at its own
    index), and every other blob leaves the live snapshot as it was. *)
Theorem snapshot_round_trip (d : SnapshotData) (fs : Files) :
  data_ok d ->
  load (image d) = Ret (Ok (snapshot_of d)) /\
  write fs d = mkFiles (Some (image d)) None /\
  install_bytes fs (image d) (d_raft_applied_index d) = Ret (mkFiles (Some (image d)) None, Ok tt) /\
  (forall bs idx fs' r, install_bytes fs bs idx = Ret (fs', r) ->
    (live fs' = live fs /\ r <> Ok tt) \/
    (live fs' = Some bs /\ r = Ok tt /\
     exists s, load bs = Ret (Ok s) /\ raft_applied_index s = idx /\ 4 <= format_version s)).
Proof.
  intros Hd. split_and!; [by apply load_image|done| |intros bs idx fs' r; apply install_cases].
  unfold install_bytes. rewrite load_image by done. cbn -[image]. by rewrite Z.eqb_refl.
Qed.

Lemma snapshot_round_trip_witness :
  let d := mkData 9 12 7 3 [4] [8; 9] [(8, 4, -5)] [mkEngineState 4 6 [Order.limit 1 Buy 100 2]] in
  exists s, load (image d) = Ret (Ok s) /\ s_positions s = [(8, 4, -5)] /\ raft_applied_index s = 12.
Proof.
  intros d. exists (snapshot_of d). split; [|done]. apply (snapshot_round_trip d (mkFiles None None)).
  unfold data_ok, d, engine_state_ok, order_ok. cbn -[image Z.mul].
  split_and!; try (unfold_width; lia); repeat constructor; cbn; unfold_width; try lia.
Defined.
