(* ===== verification/Processor.v ===== *)
(** * The command processor

    [Processor] of [src/src/exchange.rs]: the deterministic core shared by live
    shards and journal replay.  Commands are applied one at a time to the
    per-instrument engines; the reports an operation passes to [emit] are
    returned, in order, as a list.

    The processor's pool sizes ([default_pool]) and its reusable trade buffer
    ([trades_buf], empty between calls) carry no state and are left out; the
    strategy factory is the strategy it returns.  [ho] is the iteration order of
    a book's id index (a [HashMap]), an argument of the operations that depend
    on it. *)

From S2P Require Import Prelude Types Strategy LevelIndex Book Engine Protocol Risk.

Record Processor := mkProc {
  engines : gmap Z MatchingEngine;
  factory : MatchingStrategy;
  guard : option PriceGuard;
  p_stp : SelfTradePolicy;
  limits : option RiskLimits;
  dedup : bool;
  seen_command_ids : gset Z;
  max_new_id : Z;
  max_admin_id : Z;
  p_fees : FeeSchedule;
  halted : gset Z;
  suspended : gset Z;
  positions : gmap (Z * Z) Z
}.

Module Processor.

Definition new (f : MatchingStrategy) (g : option PriceGuard) : Processor :=
  mkProc ∅ f g Allow None false ∅ 0 0 (mkFees 0 0) ∅ ∅ ∅.

Definition with_stp (p : Processor) (s : SelfTradePolicy) : Processor :=
  mkProc (engines p) (factory p) (guard p) s (limits p) (dedup p) (seen_command_ids p)
    (max_new_id p) (max_admin_id p) (p_fees p) (halted p) (suspended p) (positions p).

Definition with_limits (p : Processor) (l : option RiskLimits) : Processor :=
  mkProc (engines p) (factory p) (guard p) (p_stp p) l (dedup p) (seen_command_ids p)
    (max_new_id p) (max_admin_id p) (p_fees p) (halted p) (suspended p) (positions p).

Definition with_dedup (p : Processor) (d : bool) : Processor :=
  mkProc (engines p) (factory p) (guard p) (p_stp p) (limits p) d (seen_command_ids p)
    (max_new_id p) (max_admin_id p) (p_fees p) (halted p) (suspended p) (positions p).

Definition with_fees (p : Processor) (f : FeeSchedule) : Processor :=
  mkProc (engines p) (factory p) (guard p) (p_stp p) (limits p) (dedup p) (seen_command_ids p)
    (max_new_id p) (max_admin_id p) f (halted p) (suspended p) (positions p).

(** Field updates of the command handlers. *)
Definition set_engine (p : Processor) (i : InstrumentId) (e : MatchingEngine) : Processor :=
  mkProc (<[i := e]> (engines p)) (factory p) (guard p) (p_stp p) (limits p) (dedup p)
    (seen_command_ids p) (max_new_id p) (max_admin_id p) (p_fees p) (halted p) (suspended p)
    (positions p).

Definition set_gate (p : Processor) (seen : gset Z) (new_id admin_id : Z) : Processor :=
  mkProc (engines p) (factory p) (guard p) (p_stp p) (limits p) (dedup p) seen
    new_id admin_id (p_fees p) (halted p) (suspended p) (positions p).

Definition set_halts (p : Processor) (h s : gset Z) : Processor :=
  mkProc (engines p) (factory p) (guard p) (p_stp p) (limits p) (dedup p) (seen_command_ids p)
    (max_new_id p) (max_admin_id p) (p_fees p) h s (positions p).

Definition set_positions (p : Processor) (pos : gmap (Z * Z) Z) : Processor :=
  mkProc (engines p) (factory p) (guard p) (p_stp p) (limits p) (dedup p) (seen_command_ids p)
    (max_new_id p) (max_admin_id p) (p_fees p) (halted p) (suspended p) pos.

(** [entry(instrument).or_insert_with(..)]: the engine, created if missing. *)
Definition fresh_engine (p : Processor) : MatchingEngine :=
  MatchingEngine.with_stp (MatchingEngine.new (factory p)) (p_stp p).

Definition engine_or_new (p : Processor) (i : InstrumentId) : MatchingEngine :=
  default (fresh_engine p) (engines p !! i).

Definition create_book (p : Processor) (i : InstrumentId) : Processor :=
  set_engine p i (engine_or_new p i).

Definition position (p : Processor) (user : UserId) (i : InstrumentId) : Z :=
  default 0 (positions p !! (user, i)).

Definition is_halted (p : Processor) (i : InstrumentId) : bool := bool_decide (i ∈ halted p).

(** ** Duplicate suppression

    [(id, instrument, is_admin_stream)] of the high-water gate. *)
Definition dedup_key (c : Command) : Z * InstrumentId * bool :=
  match c with
  | CNew o => (o_id o, o_instrument o, false)
  | CCancel i _ c | CModify i _ _ _ c | CForceClose i _ c _ _ | CHalt i c | CResume i c
  | CHaltUser i _ c | CResumeUser i _ c => (c, i, true)
  | CBatch _ => (0, 0, false)
  end.

(** The two gates of [process]: [inr] is the rejection report. *)
Definition gate (p : Processor) (c : Command) : Processor * option ExecReport :=
  let exact_id := Command.id c in
  if negb (exact_id =? 0) && bool_decide (exact_id ∈ seen_command_ids p)
  then (p, Some (RRejected (Command.instrument c) exact_id "duplicate"))
  else
    let seen := if exact_id =? 0 then seen_command_ids p else {[exact_id]} ∪ seen_command_ids p in
    let p := set_gate p seen (max_new_id p) (max_admin_id p) in
    if dedup p then
      let '(id, inst, is_admin) := dedup_key c in
      if id =? 0 then (p, None)
      else
        let cursor := if is_admin then max_admin_id p else max_new_id p in
        if id <=? cursor then (p, Some (RRejected inst id "duplicate"))
        else (set_gate p seen (if is_admin then max_new_id p else id)
                (if is_admin then id else max_admin_id p), None)
    else (p, None).

(** ** New orders *)

(** The position ledger: [*entry((user, instrument)).or_insert(0) += delta] on
    [i64], for an attributed user. *)
Definition add_position (i : InstrumentId) (user : UserId) (delta : Z) (pos : gmap (Z * Z) Z)
  : gmap (Z * Z) Z :=
  if user =? 0 then pos
  else <[(user, i) := wrap_i64 (default 0 (pos !! (user, i)) + delta)]> pos.

Definition book_trade (i : InstrumentId) (pos : gmap (Z * Z) Z) (t : Trade) : gmap (Z * Z) Z :=
  let q := wrap_i64 (t_quantity t) in
  let '(buyer, seller) :=
    match t_aggressor t with
    | Buy => (t_taker_user t, t_maker_user t)
    | Sell => (t_maker_user t, t_taker_user t)
    end in
  add_position i seller (- q) (add_position i buyer q pos).

Definition trade_report (p : Processor) (i : InstrumentId) (t : Trade) : ExecReport :=
  let '(maker_fee, taker_fee) := fees (p_fees p) (t_price t) (t_quantity t) in
  RTrade i (t_taker t) (t_maker t) (t_aggressor t) (t_price t) (t_quantity t) maker_fee taker_fee.

Definition status_report (i : InstrumentId) (id : OrderId) (status : OrderStatus) (filled : Qty)
  : ExecReport :=
  match status with
  | Filled => RFilled i id
  | PartiallyFilled => RPartiallyFilled i id filled
  | Resting => RResting i id
  | Cancelled => RCancelled i id
  | Rejected => RRejected i id "unfillable"
  end.

(** The pre-trade checks, cheapest first: the order to submit, or the reason.
    The open-order check creates the instrument's book ([engine_for]). *)
Definition vet (p : Processor) (order : Order) : Processor * verdict :=
  let instrument := o_instrument order in
  if bool_decide (instrument ∈ halted p) then (p, Refuse "halted")
  else if negb (o_user order =? 0) && bool_decide (o_user order ∈ suspended p)
  then (p, Refuse "user-suspended")
  else
    match limits p ≫= fun l => RiskLimits.check_static l order with
    | Some reason => (p, Refuse reason)
    | None =>
        match (match guard p with Some g => PriceGuard.vet g order | None => Pass order end) with
        | Refuse reason => (p, Refuse reason)
        | Pass order =>
            match limits p with
            | Some l =>
                if (0 <? max_user_orders l) && negb (o_user order =? 0) then
                  let p := create_book p instrument in
                  let open := OrderBook.user_open_orders (book (engine_or_new p instrument)) (o_user order) in
                  if max_user_orders l <=? open then (p, Refuse "max-user-orders") else (p, Pass order)
                else (p, Pass order)
            | None => (p, Pass order)
            end
        end
    end.

Definition process_new (p : Processor) (order : Order) : outcome (Processor * list ExecReport) :=
  let i := o_instrument order in
  let id := o_id order in
  match vet p order with
  | (p, Refuse reason) => Ret (p, [RRejected i id reason])
  | (p, Pass order) =>
      let! r := MatchingEngine.submit_into (engine_or_new p i) order [] in
      let '(e, trades, (_, status, filled, _)) := r in
      let p := set_engine p i e in
      let cancels :=
        if bool_decide (p_stp p = Allow) then [] else RCancelled i <$> stp_cancelled e in
      let p' := set_positions p (foldl (book_trade i) (positions p) trades) in
      Ret (p', RAccepted i id :: cancels ++ (trade_report p i <$> trades) ++
                 [status_report i id status filled])
  end.

(** ** Amends *)
Definition modify_reports (p : Processor) (i : InstrumentId) (order_id : OrderId) (new_qty : Qty)
    (o : ModifyOutcome) : list ExecReport :=
  match o with
  | MNotFound => [RNotFound i order_id]
  | MReduced order_id remaining => [RModified i order_id remaining]
  | MCancelled order_id => [RCancelled i order_id]
  | MRequoted report =>
      (trade_report p i <$> sr_trades report) ++
      [match sr_status report with
       | Filled => RFilled i order_id
       | Resting | PartiallyFilled =>
           RModified i order_id (saturating_sub new_qty (sr_filled report))
       | _ => RCancelled i order_id
       end]
  end.

(** ** Dispatch *)
Section dispatch.
Context (ho : OrderBook -> list (Z * nat)).

Definition force_close (p : Processor) (i : InstrumentId) (user : UserId) (close_order_id : OrderId)
    (close_side : Side) (close_qty : Qty) : outcome (Processor * list ExecReport) :=
  let e := engine_or_new p i in
  let! r := MatchingEngine.cancel_all_for_user (ho (book e)) e user in
  let p := set_engine p i r.1 in
  let cancels := RCancelled i <$> r.2 in
  if 0 <? close_qty then
    let close := Order.by_user (Order.on (Order.market close_order_id close_side close_qty) i) user in
    let! s := process_new p (Order.with_tif close Ioc) in
    Ret (s.1, cancels ++ s.2)
  else Ret (p, cancels).

(** A command past the gates; a batch is applied by [process]. *)
Definition apply_flat (p : Processor) (c : Command) : outcome (Processor * list ExecReport) :=
  match c with
  | CHaltUser i user _ => Ret (set_halts p (halted p) ({[user]} ∪ suspended p), [RUserHalted i user])
  | CResumeUser i user _ => Ret (set_halts p (halted p) (suspended p ∖ {[user]}), [RUserResumed i user])
  | CHalt i _ => Ret (set_halts p ({[i]} ∪ halted p) (suspended p), [RHalted i])
  | CResume i _ => Ret (set_halts p (halted p ∖ {[i]}) (suspended p), [RResumed i])
  | CNew order => process_new p order
  | CCancel i order_id _ =>
      let! r := MatchingEngine.cancel (engine_or_new p i) order_id in
      Ret (set_engine p i r.1, [if r.2 : bool then RCancelled i order_id else RNotFound i order_id])
  | CModify i order_id new_price new_qty _ =>
      let! r := MatchingEngine.modify (engine_or_new p i) order_id new_price new_qty in
      Ret (set_engine p i r.1, modify_reports p i order_id new_qty r.2)
  | CForceClose i user close_order_id close_side close_qty =>
      force_close p i user close_order_id close_side close_qty
  | CBatch _ => Ret (p, [])
  end.

(** One command after another, reports concatenated. *)
Definition in_turn (f : Processor -> Command -> outcome (Processor * list ExecReport)) :=
  fix go (p : Processor) (cs : list Command) : outcome (Processor * list ExecReport) :=
    match cs with
    | [] => Ret (p, [])
    | c :: rest =>
        let! r := f p c in
        let! s := go r.1 rest in
        Ret (s.1, r.2 ++ s.2)
    end.

Fixpoint process (p : Processor) (c : Command) {struct c} : outcome (Processor * list ExecReport) :=
  match gate p c with
  | (p, Some r) => Ret (p, [r])
  | (p, None) =>
      match c with
      | CBatch cmds =>
          (fix go (p : Processor) (cs : list Command) : outcome (Processor * list ExecReport) :=
             match cs with
             | [] => Ret (p, [])
             | c :: rest =>
                 let! r := process p c in
                 let! s := go r.1 rest in
                 Ret (s.1, r.2 ++ s.2)
             end) p cmds
      | _ => apply_flat p c
      end
  end.

Definition process_all : Processor -> list Command -> outcome (Processor * list ExecReport) :=
  in_turn process.

End dispatch.

End Processor.
