(* ===== verification/ProcessorProps.v ===== *)
(** * Correctness of the command processor

    [Processor] of [src/src/exchange.rs] with the risk checks of
    [src/src/risk.rs]: it never panics on commands whose total size is bounded,
    applies a command id at most once, reports exactly what the engines did and
    keeps trades inside the price band. *)

From S2P Require Import Prelude Types Strategy LevelIndex Book Engine BookProps EngineInv EngineOutcome.
From S2P Require Import Protocol Risk Processor.
Import BookFacts EngineFacts Processor.

(** ** Commands *)

(** Induction over commands, into batches. *)
Lemma command_ind (P : Command -> Prop) :
  (forall c, Command.is_flat c = true -> P c) -> (forall cs, Forall P cs -> P (CBatch cs)) -> forall c, P c.
Proof.
  intros Hf Hb. fix go 1. intros [o|i o c|i o x y c|i u o s q|i c|i c|i u c|i u c|cs]; try (by apply Hf).
  apply Hb. induction cs as [|c cs IH]; constructor; [apply go | exact IH].
Qed.

(** The quantity a command may add to a book, and the number of flat commands. *)
Fixpoint cmd_qty (c : Command) : Z :=
  match c with
  | CNew o => o_quantity o
  | CModify _ _ _ q _ => q
  | CForceClose _ _ _ _ q => q
  | CBatch cs => sumZ id (cmd_qty <$> cs)
  | _ => 0
  end.

Fixpoint cmd_count (c : Command) : Z :=
  match c with
  | CBatch cs => sumZ id (cmd_count <$> cs)
  | _ => 1
  end.

(** Fields in range and an id: id 0 bypasses duplicate suppression. *)
Fixpoint cmd_ok (c : Command) : Prop :=
  match c with
  | CBatch cs => foldr (fun c P => cmd_ok c /\ P) True cs
  | c => flat_ok c /\ Command.id c <> 0
  end.

Lemma cmd_ok_batch cs : cmd_ok (CBatch cs) <-> Forall cmd_ok cs.
Proof.
  cbn. induction cs as [|c cs IH]; cbn; [split; by constructor|]. by rewrite Forall_cons, IH.
Qed.

Lemma cmd_bounds c : cmd_ok c -> 0 <= cmd_qty c /\ 0 <= cmd_count c.
Proof.
  induction c as [c Hf|cs IH] using command_ind.
  - destruct c as [[]|i o c|i o x y c|i u o s q|i c|i c|i u c|i u c|cs]; cbn;
      unfold order_ok, is_u64; cbn; try done; try (intros; split; lia); intuition lia.
  - rewrite cmd_ok_batch. intros Hok. cbn [cmd_qty cmd_count].
    split; apply sumZ_nonneg, Forall_fmap; eapply Forall_impl; try exact (List.Forall_and IH Hok);
      unfold compose, id; naive_solver.
Qed.

(** ** The invariant *)
Record proc_ok (n q : Z) (p : Processor) : Prop := {
  po_factory : AllocContract (factory p);
  po_engines : forall i e, engines p !! i = Some e -> engine_ok n q (seen_command_ids p) e /\ stp e = p_stp p
}.

Lemma proc_ok_mono n q n' q' p : proc_ok n q p -> n <= n' -> q <= q' -> proc_ok n' q' p.
Proof.
  intros [H1 H2] Hn Hq. split; [done|]. intros i e He. destruct (H2 i e He) as [H3 H4]. split; [|done].
  by eapply engine_ok_mono.
Qed.

Section engines.
Context (n q : Z) (p : Processor) (Hn : 0 <= n) (Hq : 0 <= q) (Hp : proc_ok n q p).

Lemma engine_or_new_ok i : engine_ok n q (seen_command_ids p) (engine_or_new p i) /\ stp (engine_or_new p i) = p_stp p.
Proof.
  unfold engine_or_new. destruct (engines p !! i) as [e|] eqn:He; cbn [default]; [by apply (po_engines _ _ _ Hp) in He|].
  split; [|done]. eapply engine_ok_mono; [apply engine_ok_new, (po_factory _ _ _ Hp) | done | done | set_solver].
Qed.

(** Replacing one engine. *)
Lemma set_engine_ok n' q' i e : n <= n' -> q <= q' -> engine_ok n' q' (seen_command_ids p) e -> stp e = p_stp p ->
  proc_ok n' q' (set_engine p i e).
Proof.
  intros Hn' Hq' He Hs. split; [apply Hp|]. intros j x. cbn [engines set_engine]. rewrite lookup_insert_Some.
  intros [[-> ->]|[_ Hx]]; [done|]. destruct (po_engines _ _ _ Hp _ _ Hx) as [H1 H2]. split; [|done].
  by eapply engine_ok_mono.
Qed.

End engines.

(** ** The gates *)

(** Everything but the duplicate-suppression state. *)
Definition same_but_gate (p p' : Processor) : Prop :=
  p' = set_gate p (seen_command_ids p') (max_new_id p') (max_admin_id p').

Lemma gate_spec p c p' r : gate p c = (p', r) ->
  same_but_gate p p' /\ seen_command_ids p ⊆ seen_command_ids p' /\
  (Command.id c <> 0 -> Command.id c ∈ seen_command_ids p') /\
  seen_command_ids p' ⊆ {[Command.id c]} ∪ seen_command_ids p /\
  (r = None -> Command.id c <> 0 -> Command.id c ∉ seen_command_ids p).
Proof.
  unfold gate, same_but_gate. destruct p as [en fa gu st li de se mn ma fe ha su po]. cbn.
  destruct (Z.eqb_spec (Command.id c) 0) as [Hz|Hz]; cbn [negb andb].
  - destruct de; [|intros [= <- <-]; cbn; set_solver].
    destruct (dedup_key c) as [[id inst] ad]. destruct (Z.eqb_spec id 0); [intros [= <- <-]; cbn; set_solver|].
    destruct (id <=? _); intros [= <- <-]; cbn; set_solver.
  - case_bool_decide; [intros [= <- <-]; cbn; set_solver|].
    destruct de; [|intros [= <- <-]; cbn; set_solver].
    destruct (dedup_key c) as [[id inst] ad]. destruct (Z.eqb_spec id 0); [intros [= <- <-]; cbn; set_solver|].
    destruct (id <=? _); intros [= <- <-]; cbn; set_solver.
Qed.

Lemma same_gate_ok n q p p' : same_but_gate p p' -> seen_command_ids p ⊆ seen_command_ids p' ->
  proc_ok n q p -> proc_ok n q p'.
Proof.
  intros Hs Hi [H1 H2]. unfold same_but_gate in Hs. rewrite Hs. split; [done|]. cbn. intros i e He.
  destruct (H2 i e He) as [H3 H4]. split; [|done]. by eapply engine_ok_mono.
Qed.

(** ** Pre-trade checks *)

(** The checks may change the type, price and time in force of an order, and
    nothing else. *)
Definition same_order (o o' : Order) : Prop :=
  o_id o' = o_id o /\ o_instrument o' = o_instrument o /\ o_user o' = o_user o /\
  o_side o' = o_side o /\ o_quantity o' = o_quantity o.

Lemma band_u64 g r : 0 <= band_bps g -> is_u64 r ->
  is_u64 (PriceGuard.band g r).1 /\ is_u64 (PriceGuard.band g r).2 /\
  (PriceGuard.band g r).1 <= r <= (PriceGuard.band g r).2.
Proof.
  intros Hg Hr. unfold PriceGuard.band, saturating_sub, saturating_add, saturating_mul, is_u64 in *. cbn [fst snd].
  assert (0 <= Z.min U64_MAX (r * band_bps g) / 10000) by (apply Z.div_pos; lia). lia.
Qed.

(** The guard's band and references are [u64]. *)
Definition guard_ok (g : PriceGuard) : Prop :=
  0 <= band_bps g /\ forall i r, refs g !! i = Some r -> is_u64 r.

Lemma guard_reference g i : guard_ok g -> is_u64 (PriceGuard.reference g i).
Proof.
  intros [_ H]. unfold PriceGuard.reference. destruct (refs g !! i) as [r|] eqn:E; [by apply (H i)|]. by vm_compute.
Qed.

Lemma guard_vet g o o' : guard_ok g -> order_ok o -> PriceGuard.vet g o = Pass o' -> order_ok o' /\ same_order o o'.
Proof.
  intros Hg Hok. pose proof (guard_reference g (o_instrument o) Hg) as Hr.
  destruct (band_u64 g _ (proj1 Hg) Hr) as (H1 & H2 & _). revert H1 H2. unfold PriceGuard.vet.
  destruct (PriceGuard.band g (PriceGuard.reference g (o_instrument o))) as [lo hi]. cbn [fst snd]. intros H1 H2.
  destruct o as [id inst user side ty tif price qty rem ts]. unfold order_ok, same_order in *. cbn in *.
  destruct tif, (PriceGuard.reference g inst =? 0), ty, side; try (intros [= <-]; cbn; intuition idtac);
    case_if; try done; intros [= <-]; cbn; intuition idtac.
Qed.

Definition guarded (p : Processor) : Prop := forall g, guard p = Some g -> guard_ok g.

Lemma create_book_same p i : engine_or_new (create_book p i) i = engine_or_new p i.
Proof. unfold engine_or_new at 1, create_book. cbn. by rewrite lookup_insert_eq. Qed.

Lemma vet_spec p o p' v : guarded p -> order_ok o -> vet p o = (p', v) ->
  (p' = p \/ p' = create_book p (o_instrument o)) /\
  (forall o', v = Pass o' -> order_ok o' /\ same_order o o').
Proof.
  intros Hg Hok. unfold vet.
  case_bool_decide; [intros [= <- <-]; split; [by left | done]|].
  destruct (negb (o_user o =? 0) && bool_decide (o_user o ∈ suspended p)); [intros [= <- <-]; split; [by left | done]|].
  destruct (limits p ≫= fun l => RiskLimits.check_static l o) as [reason|]; [intros [= <- <-]; split; [by left | done]|].
  destruct (match guard p with Some g => PriceGuard.vet g o | None => Pass o end) as [o1|] eqn:E1;
    [|intros [= <- <-]; split; [by left | done]].
  assert (order_ok o1 /\ same_order o o1) as H1.
  { destruct (guard p) as [g|] eqn:Eg; [by eapply guard_vet; [apply Hg | |]|]. injection E1 as <-. by split. }
  destruct (limits p) as [l|]; [|intros [= <- <-]; split; [by left | by intros o' [= <-]]].
  destruct ((0 <? max_user_orders l) && negb (o_user o1 =? 0)); [|intros [= <- <-]; split; [by left | by intros o' [= <-]]].
  destruct (max_user_orders l <=? _); intros [= <- <-]; (split; [by right|]); [done | by intros o' [= <-]].
Qed.

Lemma create_book_ok n q p i : 0 <= n -> 0 <= q -> proc_ok n q p -> proc_ok n q (create_book p i).
Proof.
  intros Hn Hq Hp. destruct (engine_or_new_ok n q p Hn Hq Hp i) as [H1 H2]. by apply (set_engine_ok n q p Hp).
Qed.

(** ** New orders *)

(** What a submission past the checks does: [o'] is the order after the checks. *)
Record new_result (p : Processor) (order o' : Order) (p' : Processor) (rs : list ExecReport)
    (e' : MatchingEngine) (ts : list Trade) (status : OrderStatus) (filled : Qty) : Prop := {
  nr_post : exists rests, submit_post (engine_or_new p (o_instrument order)) e' o' [] ts
              (o_id order, status, filled, rests);
  nr_engines : engines p' = <[o_instrument order := e']> (engines p);
  nr_positions : positions p' = foldl (book_trade (o_instrument order)) (positions p) ts;
  nr_reports : rs = RAccepted (o_instrument order) (o_id order) ::
    (if bool_decide (p_stp p = Allow) then [] else RCancelled (o_instrument order) <$> stp_cancelled e') ++
    (trade_report p (o_instrument order) <$> ts) ++ [status_report (o_instrument order) (o_id order) status filled]
}.

(** Fields no order changes. *)
Definition same_config (p p' : Processor) : Prop :=
  factory p' = factory p /\ guard p' = guard p /\ p_stp p' = p_stp p /\ limits p' = limits p /\
  dedup p' = dedup p /\ seen_command_ids p' = seen_command_ids p /\ p_fees p' = p_fees p /\
  halted p' = halted p /\ suspended p' = suspended p /\ max_new_id p' = max_new_id p /\
  max_admin_id p' = max_admin_id p.

Lemma process_new_ok n q p order :
  0 <= n < U32_MAX -> 0 <= q -> q + o_quantity order <= U64_MAX -> proc_ok n q p -> guarded p -> order_ok order ->
  o_id order ∈ seen_command_ids p ->
  resting (book (engine_or_new p (o_instrument order))) (o_id order) = None ->
  exists p' rs, process_new p order = Ret (p', rs) /\ proc_ok (n + 1) (q + o_quantity order) p' /\
    same_config p p' /\
    match vet p order with
    | (p1, Refuse reason) => p' = p1 /\ rs = [RRejected (o_instrument order) (o_id order) reason]
    | (p1, Pass o') => exists e' ts status filled, new_result p order o' p' rs e' ts status filled
    end.
Proof.
  intros Hn Hq0 Hq Hp Hg Hok Hid Hf. unfold process_new.
  pose proof Hok as (_ & _ & _ & _ & Hqty & _). unfold is_u64 in Hqty.
  destruct (vet p order) as [p1 v] eqn:Ev. destruct (vet_spec _ _ _ _ Hg Hok Ev) as [Hp1 Hv].
  assert (proc_ok n q p1 /\ same_config p p1 /\ engine_or_new p1 (o_instrument order) = engine_or_new p (o_instrument order) /\
    positions p1 = positions p /\ (forall e, <[o_instrument order := e]> (engines p1) = <[o_instrument order := e]> (engines p)))
    as (Hp1ok & Hc1 & He1 & Hpos1 & Hins).
  { destruct Hp1 as [-> | ->]; [done|]. split; [apply create_book_ok; try done; lia|].
    split; [done|]. split; [apply create_book_same|]. split; [done|]. intros e. cbn. apply insert_insert_eq. }
  destruct v as [o'|reason].
  2:{ exists p1, [RRejected (o_instrument order) (o_id order) reason]. split; [done|]. split_and!; try done.
      eapply proc_ok_mono; [exact Hp1ok|lia..]. }
  destruct (Hv o' eq_refl) as (Hok' & S1 & S2 & S3 & S4 & S5). rewrite He1.
  destruct (engine_or_new_ok n q p ltac:(lia) Hq0 Hp (o_instrument order)) as [He Hstp].
  destruct (submit_keeps n q _ _ o' [] He Hok') as (e' & ts & [[[id status] filled] rests] & E & Hpost & He');
    [by rewrite S1 | lia | by rewrite S5 |].
  rewrite E. cbn [obind app].
  assert (stp e' = p_stp p) as Hse by (destruct Hpost as (_ & -> & _); done).
  assert (id = o_id order) as ->.
  { destruct (submit_filled _ _ _ _ _ _ _ _ _ Hok' Hpost) as (-> & _). done. }
  destruct Hc1 as (C1 & C2 & C3 & C4 & C5 & C6 & C7 & C8 & C9 & C10 & C11).
  eexists _, _. split; [done|]. split.
  { assert (proc_ok (n + 1) (q + o_quantity order) (set_engine p1 (o_instrument order) e')) as [P1 P2].
    { apply (set_engine_ok n q p1 Hp1ok); [lia | lia | | by rewrite C3].
      rewrite C6, <-S5. eapply engine_ok_mono; [exact He' | lia | lia | rewrite S1; set_solver]. }
    by split. }
  split; [done|]. exists e', ts, status, filled. split.
  - by exists rests.
  - cbn. by rewrite Hins.
  - cbn. by rewrite Hpos1.
  - cbn. rewrite C3. unfold trade_report. cbn [set_engine p_fees]. by rewrite C7.
Qed.

(** ** Every command *)
Lemma set_halts_ok n q p h s : proc_ok n q p -> proc_ok n q (set_halts p h s).
Proof. intros [H1 H2]. by split. Qed.

Section commands.
Context (ho : OrderBook -> list (Z * nat)) (Hho : forall b, hash_order b (ho b)).

(** A flat command past the gates; its id is fresh in every book. *)
Lemma apply_flat_ok n q p c :
  0 <= n < U32_MAX -> 0 <= q -> q + cmd_qty c <= U64_MAX -> proc_ok n q p -> guarded p -> flat_ok c ->
  Command.id c ∈ seen_command_ids p ->
  (forall i, resting (book (engine_or_new p i)) (Command.id c) = None) ->
  exists p' rs, apply_flat ho p c = Ret (p', rs) /\ proc_ok (n + 1) (q + cmd_qty c) p' /\
    guard p' = guard p /\ seen_command_ids p ⊆ seen_command_ids p'.
Proof.
  intros Hn Hq0 Hq Hp Hg Hok Hid Hf.
  assert (forall p', proc_ok n q p' -> proc_ok (n + 1) (q + 0) p') as Hgrow
    by (intros; eapply proc_ok_mono; [done|lia..]).
  destruct c as [o|i id c|i id np nq c|i u cid side cq|i c|i c|i u c|i u c|cs]; cbn [apply_flat cmd_qty flat_ok Command.id] in *.
  - destruct (process_new_ok n q p o) as (p' & rs & E & Hp' & Hc & _); try done.
    exists p', rs. split_and!; try done; [apply Hc|]. destruct Hc as (_ & _ & _ & _ & _ & -> & _). done.
  - destruct (engine_or_new_ok n q p ltac:(lia) Hq0 Hp i) as [He Hs].
    destruct (cancel_keeps n q _ _ id He) as (e' & E & He' & Hse & _). rewrite E. cbn [obind fst snd].
    eexists _, _. split; [done|]. split; [|done]. apply Hgrow. apply (set_engine_ok n q p Hp); try done. congruence.
  - destruct Hok as (_ & _ & H3 & H4 & _). destruct (engine_or_new_ok n q p ltac:(lia) Hq0 Hp i) as [He Hs].
    destruct (modify_keeps n q _ _ id np nq He H3 H4) as (e' & out & E & He' & Hse); [lia..|]. rewrite E. cbn [obind fst snd].
    unfold is_u64 in H4. eexists _, _. split; [done|]. split; [|done]. apply (set_engine_ok n q p Hp); [lia | lia | done | congruence].
  - unfold force_close. destruct (engine_or_new_ok n q p ltac:(lia) Hq0 Hp i) as [He Hs].
    destruct (cancel_all_ok (engine_or_new p i) _ u (eo_book _ _ _ _ He) (Hho _)) as (b' & ids & E & Hb' & Hu & _ & _ & Hqs).
    rewrite E. cbn [obind fst snd]. destruct Hok as (I1 & I2 & I3 & I4). unfold is_u64 in I4.
    assert (engine_ok n q (seen_command_ids p) (MatchingEngine.with_book (engine_or_new p i) b')) as He'.
    { apply with_book_keeps; try done. by eapply origin_filter. }
    assert (proc_ok n q (set_engine p i (MatchingEngine.with_book (engine_or_new p i) b'))) as Hp1
      by (by apply (set_engine_ok n q p Hp)).
    case_if; [|eexists _, _; split; [done|]; split; [|done]; eapply proc_ok_mono; [exact Hp1|lia..]].
    destruct (process_new_ok n q (set_engine p i (MatchingEngine.with_book (engine_or_new p i) b'))
      (Order.with_tif (Order.by_user (Order.on (Order.market cid side cq) i) u) Ioc))
      as (p' & rs & E' & Hp' & Hc & _); try done.
    + unfold order_ok. cbn. unfold is_u64, is_u32 in *. destruct side; split_and!; try done; lia.
    + cbn. unfold engine_or_new. cbn. rewrite lookup_insert_eq. cbn. specialize (Hf i).
      destruct (resting b' cid) as [x|] eqn:Hx; [|done]. apply (resting_queue _ _ _ Hb') in Hx as [Hid' Hx].
      rewrite Hqs in Hx. apply list_elem_of_filter in Hx as [_ Hx].
      destruct (queue_order _ _ _ _ (eo_book _ _ _ _ He) Hx) as (_ & _ & _ & _ & Hr). congruence.
    + rewrite E'. cbn [obind fst snd]. eexists _, _. split; [done|]. split; [done|].
      destruct Hc as (_ & Hg' & _ & _ & _ & Hse & _). rewrite Hse, Hg'. done.
  - eexists _, _. split; [done|]. split; [|done]. by apply Hgrow, set_halts_ok.
  - eexists _, _. split; [done|]. split; [|done]. by apply Hgrow, set_halts_ok.
  - eexists _, _. split; [done|]. split; [|done]. by apply Hgrow, set_halts_ok.
  - eexists _, _. split; [done|]. split; [|done]. by apply Hgrow, set_halts_ok.
  - done.
Qed.

Lemma process_batch p cs : process ho p (CBatch cs) =
  match gate p (CBatch cs) with (p, Some r) => Ret (p, [r]) | (p, None) => process_all ho p cs end.
Proof. done. Qed.

Lemma process_flat p c : Command.is_flat c = true -> process ho p c =
  match gate p c with (p, Some r) => Ret (p, [r]) | (p, None) => apply_flat ho p c end.
Proof. by destruct c. Qed.

(** The gates keep the engines, so an id that passes them is fresh everywhere. *)
Lemma gate_fresh n q p c p1 : 0 <= n -> 0 <= q -> proc_ok n q p -> gate p c = (p1, None) -> Command.id c <> 0 ->
  forall i, resting (book (engine_or_new p1 i)) (Command.id c) = None.
Proof.
  intros Hn Hq Hp Hg Hid i. destruct (gate_spec _ _ _ _ Hg) as (Hs & _ & _ & _ & Hfr).
  assert (engine_or_new p1 i = engine_or_new p i) as -> by (unfold same_but_gate in Hs; by rewrite Hs).
  eapply engine_fresh; [apply (engine_or_new_ok n q p Hn Hq Hp i) | by apply Hfr].
Qed.

Definition runs_ok (c : Command) : Prop := forall n q p,
  0 <= n -> 0 <= q -> n + cmd_count c <= U32_MAX -> q + cmd_qty c <= U64_MAX ->
  proc_ok n q p -> guarded p -> cmd_ok c ->
  exists p' rs, process ho p c = Ret (p', rs) /\ proc_ok (n + cmd_count c) (q + cmd_qty c) p' /\ guarded p'.

Lemma process_all_ok cs n q p :
  Forall runs_ok cs -> 0 <= n -> 0 <= q -> n + sumZ cmd_count cs <= U32_MAX -> q + sumZ cmd_qty cs <= U64_MAX ->
  proc_ok n q p -> guarded p -> Forall cmd_ok cs ->
  exists p' rs, process_all ho p cs = Ret (p', rs) /\
    proc_ok (n + sumZ cmd_count cs) (q + sumZ cmd_qty cs) p' /\ guarded p'.
Proof.
  intros HF. revert n q p. induction HF as [|c cs Hc HF IH]; intros n q p Hn Hq Hnb Hqb Hp Hg Hok.
  - exists p, []. rewrite !sumZ_nil. split; [done|]. split; [|done]. eapply proc_ok_mono; [done|lia..].
  - apply Forall_cons in Hok as [Hc1 Hok]. rewrite !sumZ_cons in *. pose proof (cmd_bounds c Hc1).
    assert (0 <= sumZ cmd_count cs /\ 0 <= sumZ cmd_qty cs) as [? ?].
    { split; apply sumZ_nonneg; eapply Forall_impl; try exact Hok; apply cmd_bounds. }
    destruct (Hc n q p) as (p1 & r1 & E1 & Hp1 & Hg1); try done; try lia.
    destruct (IH (n + cmd_count c) (q + cmd_qty c) p1) as (p2 & r2 & E2 & Hp2 & Hg2); try done; try lia.
    exists p2, (r1 ++ r2). unfold process_all in *. cbn [in_turn]. rewrite E1. cbn [obind fst snd]. rewrite E2. cbn.
    split; [done|]. split; [|done]. eapply proc_ok_mono; [exact Hp2|lia..].
Qed.

Lemma process_ok c : runs_ok c.
Proof.
  induction c as [c Hf|cs IH] using command_ind; intros n q p Hn Hq Hnb Hqb Hp Hg Hok.
  - assert (flat_ok c /\ Command.id c <> 0 /\ cmd_count c = 1) as (Hfo & Hid & Hc1) by (destruct c; try done; by destruct Hok).
    pose proof (cmd_bounds c Hok). rewrite (process_flat p c Hf). destruct (gate p c) as [p1 r] eqn:Eg.
    pose proof (gate_spec _ _ _ _ Eg) as (Hs & Hi & Hin & _ & _).
    assert (proc_ok n q p1) as Hp1 by (by eapply same_gate_ok).
    assert (guarded p1) as Hg1 by (intros g; unfold same_but_gate in Hs; rewrite Hs; apply Hg).
    destruct r as [r|].
    + eexists _, _. split; [done|]. split; [|done]. eapply proc_ok_mono; [done|lia..].
    + destruct (apply_flat_ok n q p1 c) as (p' & rs & E & Hp' & Hgg & _); try done; try lia; [by apply Hin | |].
      { by eapply (gate_fresh n q p c p1). }
      exists p', rs. rewrite Hc1. split_and!; try done. intros g. rewrite Hgg. apply Hg1.
  - rewrite process_batch. apply cmd_ok_batch in Hok as Hok'. destruct (gate p (CBatch cs)) as [p1 r] eqn:Eg.
    pose proof (gate_spec _ _ _ _ Eg) as (Hs & Hi & _). pose proof (cmd_bounds _ Hok) as Hb.
    assert (proc_ok n q p1) as Hp1 by (by eapply same_gate_ok).
    assert (guarded p1) as Hg1 by (intros g; unfold same_but_gate in Hs; rewrite Hs; apply Hg).
    cbn [cmd_qty cmd_count] in *. rewrite !sumZ_map in *. unfold id in *.
    destruct r as [r|]; [eexists _, _; split; [done|]; split; [|done]; eapply proc_ok_mono; [done|lia..]|].
    by apply process_all_ok.
Qed.

End commands.

(** ** Duplicate suppression *)

(** No command forgets an id. *)
Lemma vet_seen p o p' v : vet p o = (p', v) -> seen_command_ids p' = seen_command_ids p.
Proof.
  unfold vet. repeat case_match; intros; simplify_eq; done.
Qed.

Lemma process_new_seen p o p' rs : process_new p o = Ret (p', rs) -> seen_command_ids p' = seen_command_ids p.
Proof.
  unfold process_new. destruct (vet p o) as [p1 [o'|reason]] eqn:Ev; apply vet_seen in Ev; [|by intros [= <- <-]].
  destruct (MatchingEngine.submit_into _ _ _) as [[[e ts] [[[i st] fl] rr]]|]; cbn [obind]; [|done].
  by intros [= <- <-].
Qed.

Lemma apply_flat_seen ho p c p' rs : apply_flat ho p c = Ret (p', rs) -> seen_command_ids p' = seen_command_ids p.
Proof.
  destruct c as [o|i id c|i id np nq c|i u cid side cq|i c|i c|i u c|i u c|cs]; cbn [apply_flat].
  - apply process_new_seen.
  - destruct (MatchingEngine.cancel _ _) as [r|]; [|done]. by intros [= <- <-].
  - destruct (MatchingEngine.modify _ _ _ _) as [r|]; [|done]. by intros [= <- <-].
  - unfold force_close. destruct (MatchingEngine.cancel_all_for_user _ _ _) as [r|]; cbn [obind]; [|done].
    case_if; [|by intros [= <- <-]]. destruct (process_new _ _) as [[p1 r1]|] eqn:E1; cbn [obind]; [|done].
    apply process_new_seen in E1. by intros [= <- <-].
  - by intros [= <- <-].
  - by intros [= <- <-].
  - by intros [= <- <-].
  - by intros [= <- <-].
  - by intros [= <- <-].
Qed.

Definition keeps_ids (ho : OrderBook -> list (Z * nat)) (c : Command) : Prop := forall p p' rs,
  process ho p c = Ret (p', rs) ->
  seen_command_ids p ⊆ seen_command_ids p' /\ (Command.id c <> 0 -> Command.id c ∈ seen_command_ids p').

Lemma process_all_seen ho cs p p' rs : Forall (keeps_ids ho) cs ->
  process_all ho p cs = Ret (p', rs) -> seen_command_ids p ⊆ seen_command_ids p'.
Proof.
  intros HF. revert p rs. induction HF as [|c cs Hc HF IH]; intros p rs; unfold process_all in *; cbn [in_turn].
  - by intros [= <- <-].
  - destruct (process ho p c) as [[p1 r1]|] eqn:E1; cbn [obind fst snd]; [|done].
    destruct (in_turn (process ho) p1 cs) as [[p2 r2]|] eqn:E2; cbn [obind fst snd]; [|done]. intros [= <- <-].
    etrans; [by apply (Hc _ _ _ E1) | by eapply IH].
Qed.

Lemma process_seen ho c : keeps_ids ho c.
Proof.
  induction c as [c Hf|cs IH] using command_ind; intros p p' rs; [rewrite process_flat by done | rewrite process_batch].
  - destruct (gate p c) as [p1 [r|]] eqn:Eg; pose proof (gate_spec _ _ _ _ Eg) as (_ & Hi & Hin & _).
    + by intros [= <- <-].
    + intros E%apply_flat_seen. by rewrite E.
  - destruct (gate p (CBatch cs)) as [p1 [r|]] eqn:Eg; pose proof (gate_spec _ _ _ _ Eg) as (_ & Hi & Hin & _).
    + by intros [= <- <-].
    + intros E%process_all_seen; [set_solver | done].
Qed.

Lemma process_duplicate ho p c : Command.id c <> 0 -> Command.id c ∈ seen_command_ids p ->
  process ho p c = Ret (p, [RRejected (Command.instrument c) (Command.id c) "duplicate"]).
Proof.
  intros Hid Hin. assert (gate p c = (p, Some (RRejected (Command.instrument c) (Command.id c) "duplicate"))) as Hg.
  { unfold gate. rewrite bool_decide_true by done. by destruct (Z.eqb_spec (Command.id c) 0). }
  destruct (Command.is_flat c) eqn:Hf; [by rewrite process_flat, Hg|]. destruct c; try done. by rewrite process_batch, Hg.
Qed.

(** ** The order of the hash table

    A book's id index is a [HashMap], walked in an order of each process's own.
    Only a forced close walks it. *)
Fixpoint walks_index (c : Command) : bool :=
  match c with
  | CForceClose _ _ _ _ _ => true
  | CBatch cs => existsb walks_index cs
  | _ => false
  end.

Definition order_free (cs : list Command) : Prop := Forall (fun c => walks_index c = false) cs.

#[export] Instance order_free_dec cs : Decision (order_free cs).
Proof. unfold order_free. apply _. Defined.

Lemma existsb_order_free cs : existsb walks_index cs = false -> order_free cs.
Proof. induction cs as [|c cs IH]; cbn; [constructor|]. intros [Hc Hcs]%orb_false_iff. by constructor; [|apply IH]. Qed.

Lemma process_all_ext f g cs : Forall (fun c => forall p, f p c = g p c) cs -> forall p, in_turn f p cs = in_turn g p cs.
Proof.
  induction 1 as [|c cs Hc Hcs IH]; intros p; [done|]. cbn [in_turn]. rewrite Hc. destruct (g p c) as [[p1 r1]|]; [|done]. cbn [obind fst snd].
  by rewrite IH.
Qed.

(** Two processes with different orders take such a command alike. *)
Lemma process_any_order ho ho' c : walks_index c = false -> forall p, process ho p c = process ho' p c.
Proof.
  induction c as [c Hf|cs IH] using command_ind; intros Hw p.
  - rewrite !process_flat by done. destruct (gate p c) as [p1 [r|]]; [done|]. by destruct c.
  - rewrite !process_batch. destruct (gate p (CBatch cs)) as [p1 [r|]]; [done|]. unfold process_all. apply process_all_ext.
    apply existsb_order_free in Hw. unfold order_free in Hw. rewrite Forall_forall in IH, Hw. apply Forall_forall. intros c Hc q. by apply IH, Hw.
Qed.

Lemma process_all_any_order ho ho' cs p : order_free cs -> process_all ho p cs = process_all ho' p cs.
Proof. intros H. apply process_all_ext. eapply Forall_impl; [exact H|]. intros c Hc q. by apply process_any_order. Qed.

(** ** The position ledger *)


(** Positions are [i64], as [HashMap<_, i64>] holds them. *)
Definition ledger_ok (pos : gmap (Z * Z) Z) : Prop := forall k x, pos !! k = Some x -> is_i64 x.








Lemma filled_status quantity filled rests status :
  (status <> Rejected -> status = status_of quantity filled rests) ->
  status = Filled <-> status <> Rejected /\ filled = quantity.
Proof.
  intros H. split.
  - intros ->. split; [done|]. specialize (H ltac:(done)). unfold status_of in H.
    destruct (Z.eqb_spec filled quantity); [done|]. by destruct (0 <? filled), rests.
  - intros [Hnr Hf]. rewrite (H Hnr), Hf. unfold status_of. by rewrite Z.eqb_refl.
Qed.

(** ** A new order with a fresh id *)
Section fresh.
Context (ho : OrderBook -> list (Z * nat)) (p : Processor) (o : Order) (n q : Z).

(** A sound processor with room for the order, and an order in range whose id
    passes the gates. *)
Record fresh_pre : Prop := {
  fp_proc : proc_ok n q p;
  fp_guard : guarded p;
  fp_ledger : ledger_ok (positions p);
  fp_order : order_ok o;
  fp_id : o_id o <> 0;
  fp_new : o_id o ∉ seen_command_ids p;
  fp_cursor : dedup p = true -> max_new_id p < o_id o;
  fp_count : 0 <= n < U32_MAX;
  fp_total : 0 <= q;
  fp_room : q + o_quantity o <= U64_MAX
}.

(** The processor after the gates, and the order after the checks. *)
Definition gated : Processor := (gate p (CNew o)).1.
Definition vetted : verdict := (vet gated o).2.

Context (Hpre : fresh_pre).

Lemma fresh_gate : gate p (CNew o) = (gated, None) /\ same_but_gate p gated /\
  seen_command_ids p ⊆ seen_command_ids gated /\ o_id o ∈ seen_command_ids gated.
Proof.
  destruct Hpre as [_ _ _ _ Hid Hnew Hcur _ _ _]. unfold gated. destruct (gate p (CNew o)) as [p1 r] eqn:Eg.
  pose proof (gate_spec _ _ _ _ Eg) as (Hs & Hi & Hin & _ & _). cbn [fst]. split_and!; [f_equal | done | done | by apply Hin].
  revert Eg. unfold gate. cbn [Command.id dedup_key]. rewrite bool_decide_false by done. rewrite andb_false_r.
  cbn [dedup set_gate max_new_id]. destruct (dedup p); [|by intros [= <- <-]].
  destruct (Z.eqb_spec (o_id o) 0); [done|]. destruct (Z.leb_spec (o_id o) (max_new_id p)); [|by intros [= <- <-]].
  specialize (Hcur eq_refl). lia.
Qed.

Lemma fresh_result : exists p' rs, process ho p (CNew o) = Ret (p', rs) /\
  match vetted with
  | Refuse reason =>
      rs = [RRejected (o_instrument o) (o_id o) reason] /\ positions p' = positions p /\
      forall i, engine_or_new p' i = engine_or_new p i
  | Pass o' => order_ok o' /\ same_order o o' /\
      exists e' ts status filled, new_result p o o' p' rs e' ts status filled
  end.
Proof.
  destruct fresh_gate as (Eg & Hs & Hi & Hin). pose proof Hpre as [Hp Hg _ Ho Hid _ _ Hn Hq Hqty].
  rewrite process_flat by done. rewrite Eg. cbn [apply_flat].
  assert (proc_ok n q gated) as Hp1 by (by eapply same_gate_ok).
  assert (guarded gated) as Hg1 by (intros g; unfold same_but_gate in Hs; rewrite Hs; apply Hg).
  destruct (process_new_ok n q gated o) as (p' & rs & E & _ & Hc & HR); try done.
  { by apply (gate_fresh n q p (CNew o) gated ltac:(lia) Hq Hp Eg Hid). }
  exists p', rs. split; [done|]. pose proof (vet_spec gated o) as Hv. unfold vetted.
  destruct (vet gated o) as [p2 [o'|reason]] eqn:Ev; destruct (Hv _ _ Hg1 Ho eq_refl) as [Hp2 Hpass]; cbn [snd].
  - destruct (Hpass o' eq_refl) as [Hok' Hsame]. split; [done|]. split; [done|].
    destruct HR as (e' & ts & status & filled & [R1 R2 R3 R4]). exists e', ts, status, filled.
    unfold same_but_gate in Hs. rewrite Hs in R1, R2, R3, R4. by split.
  - destruct HR as [-> ->]. split; [done|].
    assert (positions p2 = positions gated /\ forall i, engine_or_new p2 i = engine_or_new gated i) as [-> Hen].
    { destruct Hp2 as [-> | ->]; [done|]. split; [done|]. intros i.
      destruct (decide (i = o_instrument o)) as [->|]; [apply create_book_same|]. unfold engine_or_new. cbn.
      by rewrite lookup_insert_ne. }
    unfold same_but_gate in Hs. split; [by rewrite Hs|]. intros i. rewrite Hen, Hs. done.
Qed.

(** What the submission's trades and status say. *)
Lemma fresh_trades o' p' rs e' ts status filled :
  order_ok o' -> same_order o o' -> new_result p o o' p' rs e' ts status filled ->
  Forall (trade_of_order (book (engine_or_new p (o_instrument o))) o') ts /\
  sumZ t_quantity ts = filled /\ 0 <= filled <= o_quantity o /\
  (status = Rejected -> ts = []) /\ (status = Filled <-> status <> Rejected /\ filled = o_quantity o).
Proof.
  intros Hok' (_ & _ & _ & _ & HQ) [[rests Hpost] _ _ _]. pose proof Hpre as [Hp _ _ _ _ _ _ Hn Hq _].
  destruct (engine_or_new_ok n q p ltac:(lia) Hq Hp (o_instrument o)) as [He _].
  destruct (submit_filled _ _ _ _ _ _ _ _ _ Hok' Hpost) as (_ & F1 & F2 & F3 & F4). rewrite HQ in F2, F4.
  split; [by eapply submit_trades; [apply He | | exact Hpost]|]. split_and!; try done; try lia.
  by apply (filled_status (o_quantity o) filled rests).
Qed.


End fresh.

Lemma trade_in_reports p i id cancels ts status filled i' taker maker ag px qty f1 f2 :
  RTrade i' taker maker ag px qty f1 f2 ∈ RAccepted i id ::
    (if bool_decide (p_stp p = Allow) then [] else RCancelled i <$> cancels) ++
    (trade_report p i <$> ts) ++ [status_report i id status filled] ->
  exists t, t ∈ ts /\ t_price t = px.
Proof.
  intros [H|[H|[H|H]%elem_of_app]%elem_of_app]%elem_of_cons; [done | | |].
  - revert H. case_if; [by intros ?%elem_of_nil|]. intros (? & ? & _)%list_elem_of_fmap. done.
  - apply list_elem_of_fmap in H as (t & Ht & Hin). exists t. split; [done|]. unfold trade_report in Ht.
    destruct (fees _ _ _). by injection Ht.
  - apply list_elem_of_singleton in H. by destruct status.
Qed.

Lemma guard_user g o o' : PriceGuard.vet g o = Pass o' -> o_user o' = o_user o.
Proof.
  unfold PriceGuard.vet. destruct (PriceGuard.band g _). destruct o as [id inst user side ty tif price qty rem ts]. cbn.
  repeat case_match; by intros [= <-].
Qed.

Lemma vetted_guard p o o' g : guard (gated p o) = Some g -> vetted p o = Pass o' -> PriceGuard.vet g o = Pass o'.
Proof.
  unfold vetted, vet. intros ->. repeat case_match; cbn; intros; simplify_eq; done.
Qed.

Lemma guard_band g o o' : PriceGuard.reference g (o_instrument o) <> 0 -> is_budget (o_tif o) = false ->
  PriceGuard.vet g o = Pass o' ->
  o_type o' = Limit /\ is_budget (o_tif o') = false /\
  let '(lo, hi) := PriceGuard.band g (PriceGuard.reference g (o_instrument o)) in
  match o_side o with Buy => o_price o' <= hi | Sell => lo <= o_price o' end.
Proof.
  intros Hr Hb. unfold PriceGuard.vet. rewrite (proj2 (Z.eqb_neq _ _) Hr).
  destruct (PriceGuard.band g _) as [lo hi]. destruct o as [id inst user side ty tif price qty rem ts]. cbn in *.
  destruct tif, ty, side; try done; try (intros [= <-]; cbn; split_and!; done || lia);
    case_if; try done; intros [= <-]; zbool; cbn; split_and!; done || lia.
Qed.

(** ** Theorems *)

(** C14: the processor never panics: from a sound state, any sequence of commands
    (batches included) with non-zero ids, whose number fits [u32] and whose total
    quantity fits [u64], is processed to the end, whatever the iteration order of
    the id indexes; every book stays sound, every resting order's id stays
    registered for duplicate suppression, and the sizes stay within the sums. *)
Theorem processor_safe (ho : OrderBook -> list (Z * nat)) (p : Processor) (cs : list Command) (n q : Z)
    (Hho : forall b, hash_order b (ho b)) (Hp : proc_ok n q p) (Hg : guarded p) (Hcs : Forall cmd_ok cs)
    (Hn : 0 <= n) (Hq : 0 <= q) (Hcount : n + sumZ cmd_count cs <= U32_MAX)
    (Hqty : q + sumZ cmd_qty cs <= U64_MAX) :
  exists p' rs, process_all ho p cs = Ret (p', rs) /\
    proc_ok (n + sumZ cmd_count cs) (q + sumZ cmd_qty cs) p' /\ guarded p'.
Proof. apply process_all_ok; try done. apply Forall_forall. intros c _. by apply process_ok. Qed.

(** C15: a command id takes effect at most once: after a command with a non-zero
    id has been processed (accepted or rejected) and whatever is processed
    afterwards, any command carrying that id changes nothing at all and is
    answered with exactly one rejection. *)
Theorem exactly_once (ho : OrderBook -> list (Z * nat)) (p p1 p2 : Processor) (c c' : Command)
    (cs : list Command) (rs1 rs2 : list ExecReport) (Hid : Command.id c <> 0)
    (Hfirst : process ho p c = Ret (p1, rs1)) (Hrest : process_all ho p1 cs = Ret (p2, rs2))
    (Hsame : Command.id c' = Command.id c) :
  process ho p2 c' = Ret (p2, [RRejected (Command.instrument c') (Command.id c) "duplicate"]).
Proof.
  rewrite <-Hsame. apply process_duplicate; [congruence|]. rewrite Hsame.
  destruct (process_seen ho c _ _ _ Hfirst) as [_ Hin]. apply process_all_seen in Hrest; [set_solver|].
  apply Forall_forall. intros x _. by apply process_seen.
Qed.

(** a batch loses its first command: the gate registers the batch under the
    id of its first command, so that command is rejected as a duplicate and only
    the rest of the batch is applied. *)
Theorem batch_drops_first (ho : OrderBook -> list (Z * nat)) (p : Processor) (c : Command) (cs : list Command)
    (Hid : Command.id c <> 0) (Hnew : Command.id c ∉ seen_command_ids p) :
  process ho p (CBatch (c :: cs)) =
    (let! r := process_all ho (set_gate p ({[Command.id c]} ∪ seen_command_ids p) (max_new_id p) (max_admin_id p)) cs in
     Ret (r.1, RRejected (Command.instrument c) (Command.id c) "duplicate" :: r.2)).
Proof.
  rewrite process_batch. unfold gate. cbn [Command.id dedup_key].
  rewrite bool_decide_false by done. destruct (Z.eqb_spec (Command.id c) 0) as [|_]; [done|]. cbn [negb andb].
  set (p1 := set_gate _ _ _ _). assert (Command.id c ∈ seen_command_ids p1) as Hin by (cbn; set_solver).
  assert (process_all ho p1 (c :: cs) =
    (let! r := process_all ho p1 cs in Ret (r.1, RRejected (Command.instrument c) (Command.id c) "duplicate" :: r.2))) as E.
  { unfold process_all. cbn [in_turn]. rewrite (process_duplicate ho p1 c Hid Hin). done. }
  by destruct (dedup p1).
Qed.


(** the price band holds: while the guard has a reference price for the
    instrument, no new order that is not a budget order, market orders included,
    trades outside the band: a buy never above its upper edge, a sell never below
    its lower edge. *)
Theorem price_band_enforced (ho : OrderBook -> list (Z * nat)) (p : Processor) (o : Order) (n q : Z) (g : PriceGuard)
    (Hpre : fresh_pre p o n q) (Hguard : guard p = Some g)
    (Href : PriceGuard.reference g (o_instrument o) <> 0) (Hplain : is_budget (o_tif o) = false) :
  exists p' rs, process ho p (CNew o) = Ret (p', rs) /\
    forall i taker maker ag px qty f1 f2, RTrade i taker maker ag px qty f1 f2 ∈ rs ->
      let '(lo, hi) := PriceGuard.band g (PriceGuard.reference g (o_instrument o)) in
      match o_side o with Buy => px <= hi | Sell => lo <= px end.
Proof.
  destruct (fresh_result ho p o n q Hpre) as (p' & rs & E & HR). exists p', rs. split; [done|].
  intros i taker maker ag px qty f1 f2 Hin.
  destruct (vetted p o) as [o'|reason] eqn:Ev; [|destruct HR as (-> & _); by apply list_elem_of_singleton in Hin].
  destruct HR as (Hok' & Hsame & e' & ts & status & filled & HR).
  destruct (fresh_trades p o n q Hpre _ _ _ _ _ _ _ Hok' Hsame HR) as (F1 & _).
  rewrite (nr_reports _ _ _ _ _ _ _ _ _ HR) in Hin. apply trade_in_reports in Hin as (t & Ht & <-).
  rewrite Forall_forall in F1. destruct (F1 t Ht) as (_ & _ & _ & _ & _ & Hlim).
  assert (PriceGuard.vet g o = Pass o') as Hv.
  { destruct (fresh_gate p o n q Hpre) as (_ & Hs & _). eapply vetted_guard; [|exact Ev].
    unfold same_but_gate in Hs. by rewrite Hs. }
  destruct (guard_band g o o' Href Hplain Hv) as (Hty & Htif & Hpx). specialize (Hlim Hty Htif).
  destruct Hsame as (_ & _ & _ & Hside & _). rewrite Hside in *.
  destruct (PriceGuard.band g _) as [lo hi]. unfold reaches in Hlim. destruct (o_side o); zbool; lia.
Qed.

(** the pre-trade limits hold: an order is only accepted on an instrument
    that is not halted, for a user that is not suspended, with a quantity and (as
    a limit order) a notional within the limits, and while its user has fewer
    open orders on the instrument than the cap. *)
Theorem limits_enforced (ho : OrderBook -> list (Z * nat)) (p p' : Processor) (o : Order) (rs : list ExecReport)
    (i : InstrumentId) (id : OrderId) (Ho : order_ok o) (Hrun : process ho p (CNew o) = Ret (p', rs)) (Hacc : RAccepted i id ∈ rs) :
  o_instrument o ∉ halted p /\ (o_user o <> 0 -> o_user o ∉ suspended p) /\
  forall l, limits p = Some l ->
    (0 < max_order_qty l -> o_quantity o <= max_order_qty l) /\
    (0 < max_notional l -> o_type o = Limit -> o_price o * o_quantity o <= max_notional l) /\
    (0 < max_user_orders l -> o_user o <> 0 ->
     OrderBook.user_open_orders (book (engine_or_new p (o_instrument o))) (o_user o) < max_user_orders l).
Proof.
  rewrite process_flat in Hrun by done. destruct (gate p (CNew o)) as [p1 [r|]] eqn:Eg.
  { injection Hrun as <- <-. apply list_elem_of_singleton in Hacc as <-. revert Eg. unfold gate. repeat case_match; by intros. }
  destruct (gate_spec _ _ _ _ Eg) as (Hs & _). cbn [apply_flat] in Hrun.
  assert (halted p1 = halted p /\ suspended p1 = suspended p /\ limits p1 = limits p /\
    engine_or_new p1 (o_instrument o) = engine_or_new p (o_instrument o)) as (<- & <- & <- & <-)
    by (unfold same_but_gate in Hs; rewrite Hs; done).
  clear Eg Hs. unfold process_new in Hrun. destruct (vet p1 o) as [p2 [o'|reason]] eqn:Ev.
  2:{ injection Hrun as <- <-. by apply list_elem_of_singleton in Hacc. }
  clear Hrun. revert Ev. unfold vet. case_bool_decide; [done|].
  destruct (negb (o_user o =? 0) && bool_decide (o_user o ∈ suspended p1)) eqn:Esus; [done|].
  destruct (limits p1 ≫= fun l => RiskLimits.check_static l o) as [reason|] eqn:El; [done|]. intros Ev.
  split; [done|]. split.
  { intros Hu Hin. rewrite bool_decide_true in Esus by done. by destruct (Z.eqb_spec (o_user o) 0). }
  intros l Hl. rewrite Hl in El, Ev. cbn in El. unfold RiskLimits.check_static in El.
  destruct ((0 <? max_order_qty l) && (max_order_qty l <? o_quantity o)) eqn:E1; [done|].
  destruct ((0 <? max_notional l) && _ && _) eqn:E2; [done|]. apply andb_false_iff in E1, E2. split_and!.
  - intros H1. destruct E1; zbool; lia.
  - intros H1 Hty. rewrite bool_decide_true, andb_true_r in E2 by done.
    rewrite wrap128_small in E2 by (destruct Ho as (_ & _ & _ & ? & ? & _); unfold_width; nia). destruct E2; zbool; lia.
  - intros H1 Hu. destruct (match guard p1 with Some g => _ | None => _ end) as [o1|] eqn:E3; [|done].
    assert (o_user o1 = o_user o) as Hu1 by (destruct (guard p1); [by eapply guard_user|by injection E3 as <-]).
    rewrite Hu1 in Ev. destruct ((0 <? max_user_orders l) && _) eqn:E4.
    + rewrite create_book_same in Ev. destruct (Z.leb_spec (max_user_orders l)
        (OrderBook.user_open_orders (book (engine_or_new p1 (o_instrument o))) (o_user o))); [done|lia].
    + apply andb_false_iff in E4 as [E4|E4]; zbool; lia.
Qed.

(** an amend never changes a position, although it may trade: the trades of a
    requoted order are reported but not entered in the position ledger. *)
Theorem amend_leaves_positions (ho : OrderBook -> list (Z * nat)) (p p' : Processor) (i : InstrumentId)
    (id : OrderId) (price : Price) (qty : Qty) (c : Z) (rs : list ExecReport)
    (Hrun : process ho p (CModify i id price qty c) = Ret (p', rs)) : positions p' = positions p.
Proof.
  rewrite process_flat in Hrun by done. destruct (gate p _) as [p1 r] eqn:Eg.
  destruct (gate_spec _ _ _ _ Eg) as (Hs & _). unfold same_but_gate in Hs.
  assert (positions p1 = positions p) as Hp1 by (by rewrite Hs). destruct r; [by injection Hrun as <- <-|].
  cbn [apply_flat] in Hrun. destruct (MatchingEngine.modify _ _ _ _) as [m|]; [|done]. by injection Hrun as <- <-.
Qed.

(** ** Witnesses: a processor with a price guard and limits *)
Definition map_order (b : OrderBook) : list (Z * nat) := map_to_list (locate b).

Lemma map_order_ok b : hash_order b (map_order b).
Proof. unfold hash_order, map_order. apply Permutation_refl. Qed.

Definition example_guard : PriceGuard := mkGuard 500 {[1 := 100]}.

Definition example_proc : Processor :=
  with_limits (Processor.new PriceTimePriority.strategy (Some example_guard)) (Some (mkLimits 100 10000 5)).

Definition new_on (id user : Z) (sd : Side) (price qty : Z) : Command :=
  CNew (Order.by_user (Order.on (Order.limit id sd price qty) 1) user).

Definition example_cmds : list Command :=
  [new_on 1 7 Sell 100 5; new_on 2 8 Sell 103 5; CCancel 1 2 3; CBatch [CHalt 1 4; CResume 1 5]; new_on 6 9 Buy 101 2].

Lemma example_proc_ok : proc_ok 0 0 example_proc.
Proof. split; [apply _|]. intros i e H. cbn in H. by rewrite lookup_empty in H. Qed.

Lemma example_guarded : guarded example_proc.
Proof.
  intros g [= <-]. split; [done|]. intros i r. cbn. rewrite lookup_singleton_Some. intros [_ <-]. by vm_compute.
Qed.

Lemma example_cmds_ok : Forall cmd_ok example_cmds.
Proof. repeat constructor; vm_compute; done. Qed.

Lemma processor_safe_witness :
  exists p' rs, process_all map_order example_proc example_cmds = Ret (p', rs) /\ proc_ok 6 12 p'.
Proof.
  destruct (processor_safe map_order example_proc example_cmds 0 0 map_order_ok example_proc_ok example_guarded
    example_cmds_ok) as (p' & rs & E & H & _); [vm_compute; discriminate.. |].
  exists p', rs. split; [exact E | exact H].
Defined.

(** The result of a run that returns; [is_ret] is checked by evaluation. *)
Definition is_ret {A : Type} (c : outcome A) : bool := match c with Ret _ => true | Panic _ => false end.

Definition result (p : Processor) (c : outcome (Processor * list ExecReport)) : Processor * list ExecReport :=
  match c with Ret r => r | Panic _ => (p, []) end.

Lemma result_ret p c : is_ret c = true -> c = Ret ((result p c).1, (result p c).2).
Proof. destruct c as [[? ?]|]; done. Qed.

Definition step1 := result example_proc (process map_order example_proc (new_on 1 7 Sell 100 5)).
Definition step2 := result step1.1 (process_all map_order step1.1 [new_on 2 8 Buy 100 5]).

Lemma step1_run : process map_order example_proc (new_on 1 7 Sell 100 5) = Ret (step1.1, step1.2).
Proof. apply result_ret. vm_compute. reflexivity. Qed.

Lemma exactly_once_witness :
  process map_order step2.1 (CHalt 1 1) = Ret (step2.1, [RRejected 1 1 "duplicate"]).
Proof.
  apply (exactly_once map_order example_proc step1.1 step2.1 (new_on 1 7 Sell 100 5) (CHalt 1 1)
    [new_on 2 8 Buy 100 5] step1.2 step2.2 ltac:(discriminate) step1_run); [|reflexivity].
  apply result_ret. vm_compute. reflexivity.
Defined.

Lemma batch_drops_first_witness :
  exists p' rs, process map_order example_proc (CBatch [CHalt 1 4; CResume 1 5]) =
    Ret (p', RRejected 1 4 "duplicate" :: rs) /\ rs = [RResumed 1].
Proof.
  eexists _, _. split; [|reflexivity].
  rewrite (batch_drops_first map_order example_proc (CHalt 1 4) [CResume 1 5]);
    [reflexivity | discriminate | apply (bool_decide_unpack (4 ∉ seen_command_ids example_proc)); vm_compute; exact I].
Defined.

Definition example_taker_order : Order := Order.by_user (Order.on (Order.limit 2 Buy 101 3) 1) 8.

Lemma result_ok p c (P : Processor -> Prop) : (exists p' rs, c = Ret (p', rs) /\ P p') -> P (result p c).1.
Proof. by intros (p' & rs & -> & H). Qed.

Lemma step1_ok : proc_ok 1 5 step1.1 /\ guarded step1.1.
Proof.
  apply (result_ok example_proc _ (fun p => proc_ok 1 5 p /\ guarded p)).
  apply (process_ok map_order map_order_ok (new_on 1 7 Sell 100 5) 0 0 example_proc);
    [done | done | vm_compute; discriminate | vm_compute; discriminate | apply example_proc_ok | apply example_guarded
    | by vm_compute].
Qed.

Lemma example_fresh : fresh_pre step1.1 example_taker_order 1 5.
Proof.
  split; [apply step1_ok | apply step1_ok | | unfold order_ok; unfold_width; cbn; lia | done | | | done | done | done].
  - intros k x. replace (positions step1.1) with (∅ : gmap (Z * Z) Z) by (vm_compute; reflexivity).
    by rewrite lookup_empty.
  - apply (bool_decide_unpack (2 ∉ seen_command_ids step1.1)). vm_compute. exact I.
  - replace (dedup step1.1) with false by (vm_compute; reflexivity). done.
Qed.





Lemma price_band_enforced_witness :
  exists p' rs, process map_order step1.1 (CNew example_taker_order) = Ret (p', rs) /\
    forall i taker maker ag px qty f1 f2, RTrade i taker maker ag px qty f1 f2 ∈ rs -> px <= 105.
Proof.
  refine (price_band_enforced map_order step1.1 example_taker_order 1 5 example_guard example_fresh _ _ eq_refl);
    vm_compute; [reflexivity | discriminate].
Defined.

Lemma limits_enforced_witness : OrderBook.user_open_orders (book (engine_or_new example_proc 1)) 7 < 5.
Proof.
  apply (limits_enforced map_order example_proc step1.1 (Order.by_user (Order.on (Order.limit 1 Sell 100 5) 1) 7)
    step1.2 1 1 ltac:(unfold order_ok; unfold_width; cbn; lia) step1_run) with (l := mkLimits 100 10000 5);
    [|reflexivity | reflexivity | discriminate].
  apply (bool_decide_unpack (RAccepted 1 1 ∈ step1.2)). vm_compute. exact I.
Defined.

(** User 8 bids below the market, then amends the bid to cross user 7's offer: the
    trade is reported and no position changes. *)
Definition step3 := result step1.1 (process map_order step1.1 (new_on 2 8 Buy 99 3)).
Definition step4 := result step3.1 (process map_order step3.1 (CModify 1 2 100 3 3)).

Lemma amend_leaves_positions_witness :
  RTrade 1 2 1 Buy 100 3 0 0 ∈ step4.2 /\ positions step4.1 = positions step3.1.
Proof.
  split; [apply (bool_decide_unpack (RTrade 1 2 1 Buy 100 3 0 0 ∈ step4.2)); vm_compute; exact I|].
  apply (amend_leaves_positions map_order step3.1 step4.1 1 2 100 3 3 step4.2). apply result_ret. vm_compute. reflexivity.
Defined.
