(* ===== verification/Recovery.v ===== *)
(** * Replay and recovery

    The recovery half of [src/src/exchange.rs]: exporting and restoring a
    processor's state, its fingerprint, and rebuilding a processor from a
    snapshot and a journal.  [ho] is the iteration order of a book's id index,
    [eo], [zo] and [po] those of the processor's hash maps and sets. *)

From S2P Require Import Prelude Types Strategy LevelIndex Book Engine BookProps EngineInv EngineProps.
From S2P Require Import Protocol Risk Sharding Bytes Wire Journal Snapshot Processor ProcessorProps.
Import BookFacts EngineFacts Processor.

(** The [for] loop whose body may leave the function with [?]. *)
Fixpoint try_fold {A S : Type} (f : S -> A -> outcome (io_result S)) (s : S) (l : list A)
    : outcome (io_result S) :=
  match l with
  | [] => Ret (Ok s)
  | a :: l =>
      let! r := f s a in
      match r with
      | Ok s => try_fold f s l
      | Err why => Ret (Err why)
      end
  end.

(** ** Exporting and restoring *)
Definition by_instrument (a b : EngineState) : Prop := es_instrument a <= es_instrument b.

#[export] Instance by_instrument_dec : RelDecision by_instrument.
Proof. unfold RelDecision, by_instrument; intros; apply _. Defined.

Section state.
Context (ho : OrderBook -> list (Z * nat)) (eo : gmap Z MatchingEngine -> list (Z * MatchingEngine)).
Context (zo : gset Z -> list Z) (po : gmap (Z * Z) Z -> list (Z * Z * Z)).

Definition export_state (p : Processor) : outcome (list EngineState) :=
  let! states :=
    ofold (fun acc ie =>
      let! os := MatchingEngine.export_orders (ho (book ie.2)) ie.2 in
      Ret (acc ++ [mkEngineState ie.1 (seq ie.2) os])) [] (eo (engines p)) in
  Ret (merge_sort by_instrument states).

Definition restore_engine (p : Processor) (s : EngineState) : outcome Processor :=
  let p := set_gate p (seen_command_ids p ∪ list_to_set (o_id <$> es_orders s)) (max_new_id p) (max_admin_id p) in
  let! e := MatchingEngine.restore (engine_or_new p (es_instrument s)) (es_engine_seq s) (es_orders s) in
  Ret (set_engine p (es_instrument s) e).

Definition restore_position (pos : gmap (Z * Z) Z) (uiq : Z * Z * Z) : gmap (Z * Z) Z :=
  <[uiq.1 := wrap_i64 (default 0 (pos !! uiq.1) + uiq.2)]> pos.

Definition restore_state (p : Processor) (snap : Snapshot) : outcome Processor :=
  let p := set_gate p (seen_command_ids p) (Z.max (max_new_id p) (max_cmd_id snap))
             (Z.max (max_admin_id p) (Snapshot.max_admin_id snap)) in
  let p := set_halts p (halted p ∪ list_to_set (s_halted snap)) (suspended p ∪ list_to_set (s_suspended snap)) in
  let p := set_positions p (foldl restore_position (positions p) (s_positions snap)) in
  ofold restore_engine p (s_engines snap).

(** [persist_processor_snapshot]: what it writes. *)
Definition snapshot_data (p : Processor) (journal_seq raft_applied_index : Z) : outcome SnapshotData :=
  let! states := export_state p in
  Ret (mkData journal_seq raft_applied_index (max_new_id p) (max_admin_id p) (zo (halted p)) (zo (suspended p))
         (filter (fun uiq => uiq.2 <> 0) (po (positions p))) states).

Definition persist_processor_snapshot (fs : Files) (p : Processor) (journal_seq raft_applied_index : Z)
    : outcome Files :=
  let! d := snapshot_data p journal_seq raft_applied_index in Ret (write fs d).

(** ** Fingerprints *)
Definition mix (h v : Z) : Z := fnv_from h (le_bytes 8 v).

Definition fingerprint_order (h : Z) (o : Order) : Z :=
  foldl mix h [o_id o; o_price o; o_remaining o; o_timestamp o; o_user o].

Definition fingerprint_engine_states (states : list EngineState) (select : InstrumentId -> bool) : Z :=
  foldl (fun h s =>
    if select (es_instrument s) then
      foldl fingerprint_order (foldl mix h [es_instrument s; es_engine_seq s]) (es_orders s)
    else h) 14695981039346656037 states.

Definition fingerprint_state (p : Processor) (select : InstrumentId -> bool) : outcome Z :=
  let! states := export_state p in Ret (fingerprint_engine_states states select).

Definition state_fingerprint (p : Processor) : outcome Z := fingerprint_state p (fun _ => true).

Definition category_fingerprint (p : Processor) (category_id category_size : Z) : outcome Z :=
  fingerprint_state p (fun i => asset_category i category_size =? category_id).
End state.

(** ** Replay *)
Definition accept_replay_command (why : string) (seen : gmap Z bytes) (c : Command) (frame : bytes)
    : io_result (gmap Z bytes * bool) :=
  let id := Command.id c in
  if id =? 0 then Ok (seen, true)
  else
    match seen !! id with
    | None => Ok (<[id := frame]> seen, true)
    | Some original => if bool_decide (original = frame) then Ok (seen, false) else Err why
    end.

Definition conflicting : string := "command id has conflicting journal payloads".

Section replay.
Context (ho : OrderBook -> list (Z * nat)).

(** The replay loops' state: the processor, the reports, the number of commands
    applied and the frames seen. *)
Record Replay := mkReplay {
  rp_proc : Processor;
  rp_reports : list ExecReport;
  rp_applied : Z;
  rp_seen : gmap Z bytes
}.

(** The body both loops share: decode, skip exact repeats, apply. *)
Definition replay_record (st : Replay) (r : JRecord) : outcome (io_result Replay) :=
  match WireView.parse (r_frame r) ≫= WireView.to_command with
  | None => Ret (Ok st)
  | Some c =>
      match accept_replay_command conflicting (rp_seen st) c (r_frame r) with
      | Err why => Ret (Err why)
      | Ok (seen, false) => Ret (Ok (mkReplay (rp_proc st) (rp_reports st) (rp_applied st) seen))
      | Ok (seen, true) =>
          let! x := process ho (rp_proc st) c in
          Ret (Ok (mkReplay x.1 (rp_reports st ++ x.2) (wrap64 (rp_applied st + 1)) seen))
      end
  end.

(** [replay_journal]'s loop leaves at the first record past the time limit. *)
Fixpoint until (limit : option Z) (recs : list JRecord) : list JRecord :=
  match limit, recs with
  | Some t, r :: rest => if t <? r_ts_nanos r then [] else r :: until limit rest
  | _, _ => recs
  end.

Record ReplaySummary := mkSummary {
  commands : Z;
  reports : list ExecReport;
  fingerprint : Z;
  processor : Processor
}.

Definition replay_journal (contents : bytes) (strategy : MatchingStrategy) (g : option PriceGuard)
    (until_ts : option Z) : outcome (io_result ReplaySummary) :=
  match JournalReader.read contents with
  | Err why => Ret (Err why)
  | Ok recs =>
      let! r := try_fold replay_record (mkReplay (Processor.new strategy g) [] 0 ∅) (until until_ts recs) in
      Ret (let? st := r in
           Ok (mkSummary (rp_applied st) (rp_reports st) (fingerprint_reports (rp_reports st)) (rp_proc st)))
  end.

(** [recover_stats]: the snapshot, if there is one, then the journal records
    past it; the files may be missing. *)
Definition recover_snapshot (p : Processor) (snapshot_file : option bytes) : outcome (io_result (Processor * Z)) :=
  match snapshot_file with
  | None => Ret (Ok (p, 0))
  | Some b =>
      let! s := load b in
      match s with
      | Err why => Ret (Err why)
      | Ok snap => let! p := restore_state p snap in Ret (Ok (p, journal_seq snap))
      end
  end.

Definition recover_record (skip_seq : Z) (st : Replay * Z) (r : JRecord) : outcome (io_result (Replay * Z)) :=
  let '(st, last_seq) := st in
  let last_seq := Z.max last_seq (r_seq r) in
  if r_seq r <=? skip_seq then Ret (Ok (st, last_seq))
  else let! x := replay_record st r in Ret (let? st := x in Ok (st, last_seq)).

Definition recover_stats (p : Processor) (snapshot_file journal : option bytes)
    : outcome (io_result (Processor * Z * Z)) :=
  let! base := recover_snapshot p snapshot_file in
  match base with
  | Err why => Ret (Err why)
  | Ok (p, skip_seq) =>
      match journal with
      | None => Ret (Ok (p, 0, skip_seq))
      | Some contents =>
          match JournalReader.read contents with
          | Err why => Ret (Err why)
          | Ok recs =>
              let! r := try_fold (recover_record skip_seq) (mkReplay p [] 0 ∅, skip_seq) recs in
              Ret (let? st := r in Ok (rp_proc st.1, rp_applied st.1, st.2))
          end
      end
  end.

Definition recover_into (p : Processor) (snapshot_file journal : option bytes) : outcome (io_result (Processor * Z)) :=
  let! r := recover_stats p snapshot_file journal in
  Ret (let? st := r in Ok (st.1.1, st.1.2)).

End replay.

(** ** Replay follows live processing *)

(** Commands that carry the same id are the same command. *)
Definition conflict_free (cs : list Command) : Prop := forall c c', c ∈ cs -> c' ∈ cs ->
  Command.id c = Command.id c' -> Command.id c <> 0 -> encode_command c = encode_command c'.

Definition sendable (c : Command) : Prop := flat_ok c /\ pristine c.

Section follow.
Context (ho : OrderBook -> list (Z * nat)).

(** The frames seen so far belong to commands the processor has seen. *)
Definition seen_ok (seen : gmap Z bytes) (p : Processor) (cs : list Command) : Prop :=
  (forall id f, seen !! id = Some f -> id ∈ seen_command_ids p) /\
  (forall c f, c ∈ cs -> seen !! Command.id c = Some f -> f = encode_command c).

Lemma process_all_cons p c cs p' rs : process_all ho p (c :: cs) = Ret (p', rs) ->
  exists p1 r1 r2, process ho p c = Ret (p1, r1) /\ process_all ho p1 cs = Ret (p', r2) /\ rs = r1 ++ r2.
Proof.
  unfold process_all. cbn [in_turn]. intros H. apply obind_ret in H as ([p1 r1] & E1 & H).
  apply obind_ret in H as ([p2 r2] & E2 & H). injection H as <- <-. by exists p1, r1, r2.
Qed.

Lemma seen_ok_add seen p p1 r1 c cs : conflict_free (c :: cs) -> seen_ok seen p (c :: cs) ->
  process ho p c = Ret (p1, r1) -> Command.id c <> 0 ->
  seen_ok (<[Command.id c := encode_command c]> seen) p1 cs.
Proof.
  intros Hcf [Hs1 Hs2] E Hid. destruct (process_seen ho c p p1 r1 E) as [Hsub Hin]. split.
  - intros id f. rewrite lookup_insert_Some. intros [[<- _]|[_ Hf]]; [by apply Hin|by eapply Hsub, Hs1].
  - intros c' f Hc'. rewrite lookup_insert_Some. intros [[Heq <-]|[_ Hf]].
    + apply Hcf; [by left|by right|done|done].
    + apply (Hs2 c'); [by right|done].
Qed.

Lemma replay_follows cs recs p st_reps app seen p' rs :
  Forall sendable cs -> conflict_free cs -> seen_ok seen p cs ->
  r_frame <$> recs = encode_command <$> cs -> process_all ho p cs = Ret (p', rs) ->
  exists reps' app' seen', try_fold (replay_record ho) (mkReplay p st_reps app seen) recs =
    Ret (Ok (mkReplay p' reps' app' seen')).
Proof.
  revert recs p st_reps app seen p' rs.
  induction cs as [|c cs IH]; intros recs p reps app seen p' rs Hok Hcf Hseen Hfr Hlive.
  - apply fmap_nil_inv in Hfr as ->. cbn in Hlive. injection Hlive as <- <-. by exists reps, app, seen.
  - destruct recs as [|r recs]; [done|]. cbn in Hfr. injection Hfr as Hr Hfr.
    apply Forall_cons in Hok as [[Hflat Hpr] Hok].
    apply process_all_cons in Hlive as (p1 & r1 & r2 & E1 & Hlive & _).
    assert (Hcf' : conflict_free cs) by (intros a b Ha Hb; apply Hcf; by right).
    cbn [try_fold]. unfold replay_record at 1. rewrite Hr.
    change (WireView.parse (encode_command c) ≫= WireView.to_command) with (decode_frame (encode_command c)).
    rewrite decode_frame_encode, on_wire_pristine by done. unfold accept_replay_command. cbn [rp_seen rp_proc rp_reports rp_applied].
    destruct (Z.eqb_spec (Command.id c) 0) as [Hid|Hid].
    + rewrite E1. cbn [obind fst snd]. eapply (IH recs); try done. split.
      * intros id f Hf. destruct (process_seen ho c p p1 r1 E1) as [Hsub _]. by eapply Hsub, Hseen.
      * intros c' f Hc'. apply Hseen. by right.
    + destruct (seen !! Command.id c) as [f|] eqn:Ef.
      * rewrite bool_decide_true by (apply Hseen in Ef; [done|by left]).
        rewrite process_duplicate in E1 by (done || by eapply Hseen). injection E1 as <- <-.
        cbn [obind]. eapply (IH recs); try done. split; [apply Hseen|]. intros c' f' Hc'. apply Hseen. by right.
      * rewrite E1. cbn [obind fst snd]. eapply (IH recs); try done. by eapply seen_ok_add.
Qed.

Definition last_of (last : Z) (recs : list JRecord) : Z := foldl (fun m r => Z.max m (r_seq r)) last recs.

Lemma recover_fold skip recs st last st' : Forall (fun r => skip < r_seq r) recs ->
  try_fold (replay_record ho) st recs = Ret (Ok st') ->
  try_fold (recover_record ho skip) (st, last) recs = Ret (Ok (st', last_of last recs)).
Proof.
  intros Hs. revert st last. induction Hs as [|r recs Hr Hs IH]; intros st last H; cbn in *.
  - by injection H as <-.
  - rewrite (proj2 (Z.leb_gt _ _)) by lia. apply obind_ret in H as (x & -> & H). cbn [obind].
    destruct x as [st1|why]; [|done]. cbn [try_bind]. by apply IH.
Qed.

(** Records the snapshot covers are read and skipped. *)
Lemma recover_skip skip old rest st last : Forall (fun r => r_seq r <= skip) old ->
  try_fold (recover_record ho skip) (st, last) (old ++ rest) =
  try_fold (recover_record ho skip) (st, last_of last old) rest.
Proof.
  intros Hs. revert last. induction Hs as [|r old Hr Hs IH]; intros last; [done|].
  cbn [app try_fold]. unfold recover_record at 1. rewrite (proj2 (Z.leb_le _ _)) by lia. cbn [obind]. apply IH.
Qed.

Lemma process_all_take k cs p p' rs : process_all ho p cs = Ret (p', rs) ->
  exists pk rk, process_all ho p (take k cs) = Ret (pk, rk).
Proof.
  revert k p p' rs. induction cs as [|c cs IH]; intros [|k] p p' rs H; [by eexists _, _..|].
  apply process_all_cons in H as (p1 & r1 & r2 & E1 & H & _). destruct (IH k p1 p' r2 H) as (pk & rk & E).
  eexists _, _. unfold process_all in *. cbn [take in_turn]. rewrite E1. cbn [obind fst snd]. by rewrite E.
Qed.
End follow.

(** A part of a command list keeps what the whole satisfies. *)
Lemma conflict_free_take k cs : conflict_free cs -> conflict_free (take k cs).
Proof. intros Hcf a b Ha Hb. rewrite <-(take_drop k cs) in Hcf. apply Hcf; apply elem_of_app; by left. Qed.

Lemma last_of_app last l l' : last_of last (l ++ l') = last_of (last_of last l) l'.
Proof. apply foldl_app. Qed.

(** C4: Crash recovery.  Let [q] and [s] be the state and the journal sequence
    number that the snapshot file restores (the idle processor and 0 when there is
    none), [old] the journal records the snapshot covers and [cs] the commands
    applied from there on, each journaled in its wire form before it was applied.
    Whatever prefix of the journal a crash leaves, torn record or not, a restarted
    process returns exactly the live state after those of the commands whose
    records are complete, so all of them when the whole journal is there; covered
    records change nothing; and the sequence number to resume from is the highest
    read.  The commands are as the wire carries them (fields in range, orders not
    yet touched), two with the same id are exact retries, and none is a force
    close, whose outcome depends on the hash order of the process ([ho] before the
    crash, [ho'] after it).  Both processes have the same configuration, reference
    prices included, which do not change in between. *)
Theorem crash_recovery (ho ho' : OrderBook -> list (Z * nat)) (p q p' : Processor) (snapshot_file : option bytes)
    (s : Z) (cs : list Command) (rs : list ExecReport) (old recs : list JRecord) (img : bytes) :
  recover_snapshot p snapshot_file = Ret (Ok (q, s)) ->
  Forall sendable cs -> conflict_free cs -> order_free cs -> process_all ho q cs = Ret (p', rs) ->
  r_frame <$> recs = encode_command <$> cs -> Forall record_ok (old ++ recs) ->
  Forall (fun r => r_seq r <= s) old -> Forall (fun r => s < r_seq r) recs ->
  img `prefix_of` journal_file (old ++ recs) -> (8 <= length img)%nat ->
  exists k pk rk n, process_all ho q (take (k - length old) cs) = Ret (pk, rk) /\
    recover_stats ho' p snapshot_file (Some img) = Ret (Ok (pk, n, last_of s (take k (old ++ recs)))) /\
    (k <= length old + length cs)%nat /\ (8 + RECORD_LEN * k <= length img < 8 + RECORD_LEN * (k + 1))%nat /\
    (img = journal_file (old ++ recs) -> pk = p').
Proof.
  intros Hsnap Hok Hcf Hof Hlive Hfr Hrec Hcov Hnew Hpre Hlen.
  destruct (read_image (old ++ recs) img Hrec Hpre Hlen) as (k & Er & Hk & Hl). rewrite length_app in Hk.
  assert (Hlc : length cs = length recs).
  { rewrite <-(length_fmap encode_command cs), <-Hfr. apply length_fmap. }
  set (j := (k - length old)%nat). destruct (process_all_take ho j cs q p' rs Hlive) as (pk & rk & Ek).
  destruct (replay_follows ho' (take j cs) (take j recs) q [] 0 ∅ pk rk) as (reps & app & seen & Ef).
  - by apply Forall_take.
  - by apply conflict_free_take.
  - split; intros ? ?; [by rewrite lookup_empty|]. intros _. by rewrite lookup_empty.
  - by rewrite !fmap_take, Hfr.
  - by rewrite (process_all_any_order ho' ho) by (by apply Forall_take).
  - exists k, pk, rk, app. split_and!; [done| |lia|lia|lia|].
    + unfold recover_stats. rewrite Hsnap. cbn [obind]. rewrite Er, take_app, recover_skip by (by apply Forall_take).
      fold j. by rewrite (recover_fold ho' s _ _ _ _ (Forall_take _ _ _ Hnew) Ef), <-last_of_app.
    + intros ->. rewrite length_journal_file, length_app in Hl by done.
      rewrite take_ge in Ek by (unfold j; lia). congruence.
Qed.

Definition example_live : list Command := [new_on 1 7 Sell 100 5; new_on 2 8 Buy 100 3; new_on 1 7 Sell 100 5].
Definition example_recs : list JRecord := imap (fun i c => mkRec (Z.of_nat i + 1) 9 (encode_command c)) example_live.

Lemma example_sendable : Forall sendable example_live.
Proof.
  repeat apply Forall_cons_2; [..|apply Forall_nil_2];
    (split; [unfold flat_ok, order_ok; cbn; unfold_width; lia|done]).
Qed.

Lemma example_conflict_free : conflict_free example_live.
Proof.
  intros c c' Hc Hc' He _. unfold example_live in *.
  repeat (apply elem_of_cons in Hc as [->|Hc]; [|]); try (by apply elem_of_nil in Hc);
  repeat (apply elem_of_cons in Hc' as [->|Hc']; [|]); try (by apply elem_of_nil in Hc'); done.
Qed.

Lemma example_recs_ok : Forall record_ok example_recs.
Proof. repeat apply Forall_cons_2; [..|apply Forall_nil_2]; (split; [|split]); cbn; unfold_width; lia. Qed.

(** A snapshot taken after the first record: what the file holds and restores. *)
Definition example_snapshot : bytes :=
  match snapshot_data map_order map_to_list elements map_to_list step1.1 1 0 with
  | Ret d => image d
  | Panic _ => []
  end.

Definition example_restored : Processor :=
  match recover_snapshot example_proc (Some example_snapshot) with
  | Ret (Ok (q, _)) => q
  | _ => example_proc
  end.

Lemma example_restores : recover_snapshot example_proc (Some example_snapshot) = Ret (Ok (example_restored, 1)).
Proof.
  assert (H : match recover_snapshot example_proc (Some example_snapshot) with
    | Ret (Ok (_, s)) => s | _ => 0 end = 1) by (vm_compute; reflexivity).
  unfold example_restored. destruct (recover_snapshot _ _) as [[[q s]|]|]; [by rewrite H|done..].
Qed.

Definition example_image : bytes := take 140 (journal_file example_recs).

Lemma length_example_image : length example_image = 140%nat.
Proof. unfold example_image. rewrite length_take, length_journal_file by apply example_recs_ok. done. Qed.

Lemma example_second : take (2 - length (take 1 example_recs)) (drop 1 example_live) = [new_on 2 8 Buy 100 3].
Proof. done. Qed.

Lemma crash_recovery_witness :
  exists pk rk n, process map_order example_restored (new_on 2 8 Buy 100 3) = Ret (pk, rk) /\
    recover_stats (fun b => rev (map_order b)) example_proc (Some example_snapshot) (Some example_image) =
    Ret (Ok (pk, n, 2)).
Proof.
  set (run := process_all map_order example_restored (drop 1 example_live)).
  assert (Hrun : run = Ret ((result example_proc run).1, (result example_proc run).2)).
  { apply result_ret. by vm_compute. }
  destruct (crash_recovery map_order (fun b => rev (map_order b)) example_proc example_restored
    (result example_proc run).1 (Some example_snapshot) 1 (drop 1 example_live) (result example_proc run).2 (take 1 example_recs) (drop 1 example_recs) example_image example_restores
    (Forall_drop _ _ _ example_sendable)) as (k & pk & rk & n & Ek & E & _ & Hk & _).
  - intros a b Ha Hb. apply example_conflict_free; by right.
  - by repeat constructor.
  - exact Hrun.
  - done.
  - rewrite take_drop. apply example_recs_ok.
  - repeat apply Forall_cons_2; [..|apply Forall_nil_2]; cbn; lia.
  - repeat apply Forall_cons_2; [..|apply Forall_nil_2]; cbn; lia.
  - rewrite take_drop. apply prefix_take.
  - rewrite length_example_image. lia.
  - rewrite length_example_image in Hk. assert (k = 2%nat) as -> by lia.
    exists pk. rewrite example_second in Ek. apply process_all_cons in Ek as (p1 & r1 & r2 & E1 & E2 & _). cbn in E2. injection E2 as -> _.
    exists r1, n. split; [exact E1|exact E].
Defined.

(** ** Snapshots of a processor *)
Section capture.
Context (ho : OrderBook -> list (Z * nat)) (eo : gmap Z MatchingEngine -> list (Z * MatchingEngine)).
Context (zo : gset Z -> list Z) (po : gmap (Z * Z) Z -> list (Z * Z * Z)).
Hypothesis Hho : forall b, hash_order b (ho b).
Hypothesis Heo : forall m, eo m ≡ₚ map_to_list m.
Hypothesis Hzo : forall s, zo s ≡ₚ elements s.
Hypothesis Hpo : forall m, po m ≡ₚ map_to_list m.

(** What the engines of a running processor satisfy. *)
Definition live_ok (p : Processor) : Prop := forall i e, engines p !! i = Some e ->
  book_inv (book e) /\ time_ok e.

(** The snapshot entry of an instrument. *)
Definition state_for (p : Processor) (s : EngineState) : Prop := exists e,
  engines p !! es_instrument s = Some e /\ es_engine_seq s = seq e /\
  MatchingEngine.export_orders (ho (book e)) e = Ret (es_orders s).

Definition instrument_lt (a b : EngineState) : Prop := es_instrument a < es_instrument b.

Lemma export_fold l acc : Forall (fun ie : Z * MatchingEngine => book_inv (book ie.2) /\ time_ok ie.2) l ->
  exists ss, ofold (fun acc ie =>
      let! os := MatchingEngine.export_orders (ho (book ie.2)) ie.2 in
      Ret (acc ++ [mkEngineState ie.1 (seq ie.2) os])) acc l = Ret (acc ++ ss) /\
    Forall2 (fun ie s => es_instrument s = ie.1 /\ es_engine_seq s = seq ie.2 /\
      MatchingEngine.export_orders (ho (book ie.2)) ie.2 = Ret (es_orders s)) l ss.
Proof.
  intros H. revert acc. induction H as [|[i e] l [Hb Ht] Hl IH]; intros acc.
  - exists []. by rewrite app_nil_r.
  - cbn [ofold fst snd]. destruct (export_spec e (ho (book e)) Hb Ht (Hho _)) as (os & E & _). rewrite E. cbn [obind].
    destruct (IH (acc ++ [mkEngineState i (seq e) os])) as (ss & -> & Hss).
    exists (mkEngineState i (seq e) os :: ss). split; [by rewrite <-(assoc_L (++))|]. by constructor.
Qed.

Lemma sorted_strict l : NoDup (es_instrument <$> l) -> StronglySorted by_instrument l -> StronglySorted instrument_lt l.
Proof.
  intros Hnd Hs. induction Hs as [|s l Hs IH Hf]; constructor.
  - apply IH. by apply NoDup_cons in Hnd as [_ ?].
  - apply NoDup_cons in Hnd as [Hni _]. rewrite Forall_forall in Hf |- *. intros s' Hs'. specialize (Hf s' Hs').
    unfold by_instrument, instrument_lt in *. assert (es_instrument s <> es_instrument s'); [|lia].
    intros He. apply Hni. rewrite He. by apply list_elem_of_fmap_2.
Qed.

(** The exported list: one entry per instrument, in instrument order. *)
Lemma export_state_spec p : live_ok p -> exists ss, export_state ho eo p = Ret ss /\
  StronglySorted instrument_lt ss /\ NoDup (es_instrument <$> ss) /\ forall s, s ∈ ss <-> state_for p s.
Proof.
  intros Hlive. unfold export_state. destruct (export_fold (eo (engines p)) []) as (ss & -> & Hss).
  { apply Forall_forall. intros [i e] Hin. rewrite Heo in Hin. apply elem_of_map_to_list in Hin. by eapply Hlive. }
  cbn [obind app]. exists (merge_sort by_instrument ss).
  assert (Hkeys : es_instrument <$> ss = (eo (engines p)).*1).
  { clear -Hss. induction Hss as [|ie s l ss (E & _) Hss IH]; [done|]. cbn. by rewrite E, IH. }
  assert (Hnd : NoDup (es_instrument <$> ss)).
  { rewrite Hkeys, Heo. apply NoDup_fst_map_to_list. }
  split_and!; [done| | |].
  - apply sorted_strict; [by rewrite merge_sort_Permutation|].
    apply StronglySorted_merge_sort; [intros a b c; unfold by_instrument; lia|intros a b; unfold by_instrument; lia].
  - by rewrite merge_sort_Permutation.
  - intros s. rewrite merge_sort_Permutation. split.
    + intros Hin. apply list_elem_of_lookup in Hin as [k Hk].
      destruct (Forall2_lookup_r _ _ _ _ _ Hss Hk) as ([i e] & Hi & E1 & E2 & E3).
      exists e. split; [|done]. cbn in E1. rewrite E1. apply elem_of_map_to_list. rewrite <-Heo.
      by eapply list_elem_of_lookup_2.
    + intros (e & Hi & E2 & E3). apply elem_of_map_to_list in Hi. rewrite <-Heo in Hi.
      apply list_elem_of_lookup in Hi as [k Hk].
      destruct (Forall2_lookup_l _ _ _ _ _ Hss Hk) as (s' & Hk' & F1 & F2 & F3). cbn in F1, F2, F3.
      replace s with s'; [by eapply list_elem_of_lookup_2|]. destruct s, s'. cbn in *. congruence.
Qed.

Lemma time_ok_ext e e' : time_ok e -> seq e' = seq e ->
  (forall sd p, queue (book e') sd p = queue (book e) sd p) -> time_ok e'.
Proof.
  intros [H1 H2 H3] Hs Hq. split; intros *; rewrite ?Hq, ?Hs; [apply H1|apply H2|apply H3].
Qed.

(** A processor with the same configuration and no state. *)
Definition blank (p : Processor) : Processor :=
  mkProc ∅ (factory p) (guard p) (p_stp p) (limits p) (dedup p) ∅ 0 0 (p_fees p) ∅ ∅ ∅.

(** Engines that hold the same orders in the same places. *)
Definition same_engine (p : Processor) (e e' : MatchingEngine) : Prop :=
  book_inv (book e') /\ time_ok e' /\ seq e' = seq e /\ strategy e' = factory p /\ stp e' = p_stp p /\
  forall sd px, queue (book e') sd px = queue (book e) sd px.

Lemma restore_engines p ss q : live_ok p -> NoDup (es_instrument <$> ss) -> (forall s, s ∈ ss -> state_for p s) ->
  (forall s, s ∈ ss -> engines q !! es_instrument s = None) -> factory q = factory p -> p_stp q = p_stp p ->
  exists q', ofold restore_engine q ss = Ret q' /\
    (forall s, s ∈ ss -> exists e e', engines p !! es_instrument s = Some e /\
       engines q' !! es_instrument s = Some e' /\ same_engine p e e') /\
    (forall i, i ∉ es_instrument <$> ss -> engines q' !! i = engines q !! i) /\
    (forall id, id ∈ seen_command_ids q' <-> id ∈ seen_command_ids q \/ exists s, s ∈ ss /\ id ∈ o_id <$> es_orders s) /\
    q' = mkProc (engines q') (factory q) (guard q) (p_stp q) (limits q) (dedup q) (seen_command_ids q')
           (max_new_id q) (max_admin_id q) (p_fees q) (halted q) (suspended q) (positions q).
Proof.
  intros Hlive. revert q. induction ss as [|s ss IH]; intros q Hnd Hst Hnone Hf Hp.
  - exists q. split_and!; try done; [by intros s ?%elem_of_nil| |by destruct q].
    intros id. split; [by left|]. intros [?|(s & ?%elem_of_nil & _)]; done.
  - apply NoDup_cons in Hnd as [Hni Hnd]. destruct (Hst s ltac:(by left)) as (e & Hi & Hseq & Hexp).
    destruct (Hlive _ _ Hi) as [Hb Ht].
    destruct (restore_ok e (ho (book e)) (factory p) (p_stp p) _ Hb Ht (Hho _) Hexp)
      as (e' & Er & Hb' & Hs' & Hstr & Hpol & Hq').
    cbn [ofold]. unfold restore_engine at 1. unfold engine_or_new. cbn [engines set_gate].
    rewrite (Hnone s) by (by left). cbn [default]. unfold fresh_engine. cbn [factory p_stp set_gate].
    rewrite Hf, Hp, Hseq, Er. cbn [obind].
    set (q1 := set_engine _ _ e').
    destruct (IH q1) as (q' & -> & H1 & H2 & H3 & H4); try done.
    { intros s' Hs. by apply Hst; right. }
    { intros s' Hs'1. cbn [q1 engines set_engine set_gate]. rewrite lookup_insert_ne; [apply Hnone; by right|].
      intros He. apply Hni. rewrite He. by apply list_elem_of_fmap_2. }
    exists q'. split_and!; try done.
    + intros s' [->|Hs'1]%elem_of_cons; [|by apply H1]. exists e, e'. split; [done|]. split.
      * rewrite H2 by done. cbn [q1 engines set_engine set_gate]. apply lookup_insert_eq.
      * split_and!; try done. by apply (time_ok_ext e).
    + intros i Hni'. rewrite fmap_cons, not_elem_of_cons in Hni'. destruct Hni' as [Hne Hni'].
      rewrite H2 by done. cbn [q1 engines set_engine set_gate]. by apply lookup_insert_ne.
    + intros id. rewrite H3. cbn [q1 seen_command_ids set_engine set_gate].
      rewrite elem_of_union, elem_of_list_to_set. setoid_rewrite elem_of_cons. naive_solver.
    + rewrite <-Hf, <-Hp. exact H4.
Qed.

Lemma restore_positions l pos k : NoDup l.*1 -> Forall (fun x => is_i64 x.2) l ->
  (forall k', k' ∈ l.*1 -> pos !! k' = None) ->
  foldl restore_position pos l !! k = match (list_to_map l : gmap (Z * Z) Z) !! k with Some q => Some q | None => pos !! k end.
Proof.
  revert pos. induction l as [|[k1 q1] l IH]; intros pos Hnd Hi Hnone; [done|].
  apply NoDup_cons in Hnd as [Hni Hnd]. apply Forall_cons in Hi as [Hi1 Hi]. cbn [foldl fst snd] in *. rewrite list_to_map_cons.
  rewrite IH; [|done|done|].
  - unfold restore_position. cbn [fst snd]. rewrite (Hnone k1) by (by left). cbn [default].
    rewrite Z.add_0_l, wrap_i64_small by done.
    destruct (decide (k = k1)) as [->|Hne].
    + rewrite (not_elem_of_list_to_map_1 l k1), !lookup_insert_eq by done. done.
    + by rewrite !lookup_insert_ne by done.
  - intros k' Hk'. unfold restore_position. cbn [fst]. rewrite lookup_insert_ne; [apply Hnone; by right|].
    intros <-. done.
Qed.

Lemma positions_kept p u i : ledger_ok (positions p) ->
  default 0 (foldl restore_position ∅ (filter (fun uiq => uiq.2 <> 0) (po (positions p))) !! (u, i)) =
    default 0 (positions p !! (u, i)).
Proof.
  intros Hl. set (l := filter _ _).
  assert (Hin : forall k q, (k, q) ∈ l <-> q <> 0 /\ positions p !! k = Some q).
  { intros k q. unfold l. rewrite list_elem_of_filter, Hpo, elem_of_map_to_list. done. }
  assert (Hnd : NoDup l.*1).
  { apply (sublist_NoDup _ (po (positions p)).*1); [rewrite Hpo; apply NoDup_fst_map_to_list|].
    apply fmap_sublist, sublist_filter. }
  rewrite restore_positions; [|done| |by intros; rewrite lookup_empty].
  - destruct (list_to_map l !! (u, i)) as [q|] eqn:E.
    + apply elem_of_list_to_map_2 in E. apply Hin in E as [_ ->]. done.
    + rewrite lookup_empty. cbn. destruct (positions p !! (u, i)) as [q|] eqn:E'; [|done]. cbn.
      destruct (decide (q = 0)) as [->|Hq]; [done|]. exfalso. apply not_elem_of_list_to_map_2 in E. apply E.
      apply list_elem_of_fmap. exists (u, i, q). split; [done|]. by apply Hin.
  - apply Forall_forall. intros [k q] Hk. apply Hin in Hk as [_ Hk]. by eapply Hl.
Qed.

Lemma state_for_kept p q s : live_ok p ->
  (forall i, match engines p !! i, engines q !! i with
             | Some e, Some e' => same_engine p e e' | None, None => True | _, _ => False end) ->
  state_for q s <-> state_for p s.
Proof.
  intros Hlive Heng. specialize (Heng (es_instrument s)). unfold state_for.
  destruct (engines p !! es_instrument s) as [e|] eqn:Ep, (engines q !! es_instrument s) as [e'|] eqn:Eq; try done.
  - destruct (Hlive _ _ Ep) as [Hb Ht]. destruct Heng as (Hb' & Ht' & Hs & _ & _ & Hq).
    split; intros (x & [= <-] & E1 & E2); [exists e|exists e']; (split; [done|]); (split; [congruence|]).
    + by apply (export_unique e' (ho (book e')) e).
    + by apply (export_unique e (ho (book e)) e').
Qed.

Lemma fingerprint_kept p q : live_ok p ->
  (forall i, match engines p !! i, engines q !! i with
             | Some e, Some e' => same_engine p e e' | None, None => True | _, _ => False end) ->
  export_state ho eo q = export_state ho eo p.
Proof.
  intros Hlive Heng. destruct (export_state_spec p Hlive) as (ss & -> & Hs & _ & Hin).
  destruct (export_state_spec q) as (ss' & -> & Hs' & _ & Hin').
  - intros i e' Hi. specialize (Heng i). rewrite Hi in Heng. destruct (engines p !! i); [|done]. split; apply Heng.
  - f_equal. apply (sorted_unique instrument_lt); [unfold instrument_lt; lia|done|done|].
    intros s. by rewrite Hin, Hin', (state_for_kept p q).
Qed.

Lemma exported_ids p (ss : list EngineState) id : live_ok p -> (forall s, s ∈ ss <-> state_for p s) ->
  (exists s, s ∈ ss /\ id ∈ o_id <$> es_orders s) <->
  exists i e sd px o, engines p !! i = Some e /\ o ∈ queue (book e) sd px /\ o_id o = id.
Proof.
  intros Hlive Hss. split.
  - intros (s & (e & Hi & _ & Hex)%Hss & Ho). apply list_elem_of_fmap in Ho as (o & -> & Ho).
    destruct (Hlive _ _ Hi) as [Hb Ht]. destruct (export_spec e _ Hb Ht (Hho _)) as (os & E & _ & _ & Hin & _).
    rewrite Hex in E. injection E as <-. apply Hin in Ho. by exists (es_instrument s), e, (o_side o), (o_price o), o.
  - intros (i & e & sd & px & o & Hi & Ho & <-). destruct (Hlive _ _ Hi) as [Hb Ht].
    destruct (export_spec e _ Hb Ht (Hho _)) as (os & E & _ & _ & Hin & _).
    exists (mkEngineState i (seq e) os). split; [apply Hss; by exists e|]. apply list_elem_of_fmap_2, Hin.
    by destruct (queue_order _ _ _ _ Hb Ho) as (-> & -> & _).
Qed.
End capture.

(** C30: Snapshot recovery.  Whatever order the hash maps are walked in, a
    snapshot of a running processor, restored into an idle one with the same
    configuration, gives an engine for every instrument with the same queues
    and sequence counter and no other; the same halted instruments, suspended
    users, positions and high-water marks; and the same state fingerprint.  The
    ids known for exact retry suppression are then those of the resting orders.
    Recovery reads it back from the snapshot file. *)
Theorem snapshot_restores (ho : OrderBook -> list (Z * nat)) (eo : gmap Z MatchingEngine -> list (Z * MatchingEngine))
    (zo : gset Z -> list Z) (po : gmap (Z * Z) Z -> list (Z * Z * Z)) (p : Processor) (js ri : Z) :
  (forall b, hash_order b (ho b)) -> (forall m, eo m ≡ₚ map_to_list m) -> (forall s, zo s ≡ₚ elements s) ->
  (forall m, po m ≡ₚ map_to_list m) ->
  live_ok p -> ledger_ok (positions p) -> 0 <= max_new_id p -> 0 <= max_admin_id p ->
  exists d q, snapshot_data ho eo zo po p js ri = Ret d /\ restore_state (blank p) (snapshot_of d) = Ret q /\
    (forall i, match engines p !! i, engines q !! i with
               | Some e, Some e' => same_engine p e e' | None, None => True | _, _ => False end) /\
    halted q = halted p /\ suspended q = suspended p /\
    max_new_id q = max_new_id p /\ max_admin_id q = max_admin_id p /\
    (forall u i, position q u i = position p u i) /\
    (forall id, id ∈ seen_command_ids q <->
       exists i e sd px o, engines p !! i = Some e /\ o ∈ queue (book e) sd px /\ o_id o = id) /\
    state_fingerprint ho eo q = state_fingerprint ho eo p /\
    (data_ok d -> recover_stats ho (blank p) (Some (image d)) None = Ret (Ok (q, 0, js))).
Proof.
  intros Hho Heo Hzo Hpo Hlive Hled Hn Ha.
  destruct (export_state_spec ho eo Hho Heo p Hlive) as (ss & Ess & _ & Hnd & Hin).
  unfold snapshot_data. rewrite Ess. cbn [obind].
  exists (mkData js ri (max_new_id p) (max_admin_id p) (zo (halted p)) (zo (suspended p))
    (filter (fun uiq => uiq.2 <> 0) (po (positions p))) ss).
  unfold restore_state. cbn [snapshot_of s_engines d_engines]. set (q0 := set_positions _ _).
  destruct (restore_engines ho Hho p ss q0 Hlive Hnd) as (q & Eq & H1 & H2 & H3 & H4); try done.
  { intros s. apply Hin. }
  exists q. rewrite Eq.
  assert (Heng : forall i, match engines p !! i, engines q !! i with
            | Some e, Some e' => same_engine p e e' | None, None => True | _, _ => False end).
  { intros i. destruct (decide (i ∈ es_instrument <$> ss)) as [Hi|Hi].
    - apply list_elem_of_fmap in Hi as (s & -> & Hs). destruct (H1 s Hs) as (e & e' & -> & -> & H). done.
    - rewrite (H2 i Hi). cbn [q0 engines set_positions set_halts set_gate blank]. rewrite lookup_empty.
      destruct (engines p !! i) as [e|] eqn:Ep; [|done]. destruct (Hlive _ _ Ep) as [Hb Ht].
      destruct (export_spec e (ho (book e)) Hb Ht (Hho _)) as (os & E & _). apply Hi.
      apply list_elem_of_fmap. exists (mkEngineState i (seq e) os). split; [done|]. apply Hin. by exists e. }
  assert (Eh : halted q = halted q0 /\ suspended q = suspended q0 /\ max_new_id q = max_new_id q0 /\
    max_admin_id q = max_admin_id q0 /\ positions q = positions q0) by (rewrite H4; by split_and!).
  destruct Eh as (-> & -> & -> & -> & Epos).
  cbn [q0 halted suspended max_new_id max_admin_id set_positions set_halts set_gate blank snapshot_of
       s_halted s_suspended d_halted d_suspended max_cmd_id Snapshot.max_admin_id d_max_cmd_id d_max_admin_id].
  split_and!; try done; try lia.
  - rewrite Hzo, list_to_set_elements_L. set_solver.
  - rewrite Hzo, list_to_set_elements_L. set_solver.
  - intros u i. unfold position. rewrite Epos. by apply (positions_kept po Hpo).
  - intros id. rewrite H3. cbn [q0 seen_command_ids set_positions set_halts set_gate blank].
    rewrite (exported_ids ho Hho p ss id Hlive Hin). set_solver.
  - unfold state_fingerprint, fingerprint_state. by rewrite (fingerprint_kept ho eo Hho Heo p q).
  - intros Hd. unfold recover_stats, recover_snapshot. rewrite load_image by done. cbn [obind].
    unfold restore_state. cbn [snapshot_of s_engines d_engines]. fold q0. by rewrite Eq.
Qed.

Definition example_running : Processor :=
  mkProc {[1 := example_engine]} PriceTimePriority.strategy None Allow None true {[1; 2; 3; 4]} 4 6 (mkFees 0 0)
    {[9]} {[8]} {[(7, 1) := 5; (8, 1) := -5]}.

Lemma example_live_ok : live_ok example_running.
Proof.
  intros i e. cbn [engines example_running]. rewrite lookup_singleton_Some. intros [<- <-].
  split; [exact example_inv|exact example_time].
Qed.

Lemma snapshot_restores_witness :
  exists d q, snapshot_data map_order map_to_list elements map_to_list example_running 11 40 = Ret d /\
    restore_state (blank example_running) (snapshot_of d) = Ret q /\ position q 8 1 = -5 /\
    state_fingerprint map_order map_to_list q = state_fingerprint map_order map_to_list example_running.
Proof.
  destruct (snapshot_restores map_order map_to_list elements map_to_list example_running 11 40)
    as (d & q & E & Er & _ & _ & _ & _ & _ & Hp & _ & Hf & _).
  - intros b. apply map_order_ok.
  - intros m. apply Permutation_refl.
  - intros m. apply Permutation_refl.
  - intros m. apply Permutation_refl.
  - exact example_live_ok.
  - intros k x. cbn [positions example_running]. rewrite lookup_insert_Some, lookup_singleton_Some.
    intros [[_ <-]|[_ [_ <-]]]; unfold_width; lia.
  - cbn. lia.
  - cbn. lia.
  - exists d, q. split; [exact E|]. split; [exact Er|]. split; [|exact Hf]. rewrite Hp. by vm_compute.
Defined.

(** ** Divergences *)

(** A command that reuses the id of another one is journaled and answered with a
    duplicate rejection by the running shard, but recovery refuses the journal. *)
Theorem conflicting_id_blocks_recovery (ho : OrderBook -> list (Z * nat)) (p p1 : Processor) (c c' : Command)
    (rs : list ExecReport) (r r' : JRecord) :
  sendable c -> sendable c' -> Command.id c = Command.id c' -> Command.id c <> 0 ->
  encode_command c <> encode_command c' -> process ho p c = Ret (p1, rs) ->
  record_ok r -> record_ok r' -> 0 < r_seq r -> 0 < r_seq r' ->
  r_frame r = encode_command c -> r_frame r' = encode_command c' ->
  process_all ho p [c; c'] = Ret (p1, rs ++ [RRejected (Command.instrument c') (Command.id c') "duplicate"]) /\
  recover_stats ho p None (Some (journal_file [r; r'])) = Ret (Err conflicting).
Proof.
  intros [Hf Hp] [Hf' Hp'] Hid Hnz Hne E Hr Hr' Hs Hs' Ef Ef'. split.
  - unfold process_all. cbn [in_turn]. rewrite E. cbn [obind fst snd].
    rewrite process_duplicate; [done|by rewrite <-Hid|]. rewrite <-Hid. by apply (process_seen ho c p p1 rs E).
  - assert (Hrr : Forall record_ok [r; r']) by (by repeat (apply Forall_cons_2; [done|])).
    unfold recover_stats. cbn [recover_snapshot obind].
    rewrite <-(app_nil_r (journal_file _)), (read_torn _ [] Hrr) by (cbn; lia).
    cbn [try_fold]. unfold recover_record. rewrite (proj2 (Z.leb_gt _ _)) by lia.
    unfold replay_record. rewrite Ef, Ef'.
    change (WireView.parse (encode_command c) ≫= WireView.to_command) with (decode_frame (encode_command c)).
    change (WireView.parse (encode_command c') ≫= WireView.to_command) with (decode_frame (encode_command c')).
    rewrite !decode_frame_encode, !on_wire_pristine by done. unfold accept_replay_command.
    rewrite (proj2 (Z.eqb_neq (Command.id c) 0)) by done. cbn [rp_seen rp_proc]. rewrite lookup_empty, E. cbn [obind try_bind rp_seen].
    rewrite (proj2 (Z.leb_gt _ _)) by lia. rewrite <-Hid, (proj2 (Z.eqb_neq (Command.id c) 0)) by done.
    by rewrite lookup_insert_eq, bool_decide_false by done.
Qed.

Lemma conflicting_id_blocks_recovery_witness :
  let c := new_on 1 7 Sell 100 5 in
  let c' := new_on 1 7 Sell 101 5 in
  recover_stats map_order example_proc None
    (Some (journal_file [mkRec 1 9 (encode_command c); mkRec 2 9 (encode_command c')])) = Ret (Err conflicting).
Proof.
  intros c c'.
  apply (conflicting_id_blocks_recovery map_order example_proc step1.1 c c' step1.2).
  - split; [unfold flat_ok, order_ok; cbn; unfold_width; lia|done].
  - split; [unfold flat_ok, order_ok; cbn; unfold_width; lia|done].
  - done.
  - done.
  - intros H. by vm_compute in H.
  - exact step1_run.
  - split; [|split]; cbn; unfold_width; lia.
  - split; [|split]; cbn; unfold_width; lia.
  - cbn. lia.
  - cbn. lia.
  - done.
  - done.
Defined.

(** The state fingerprint does not cover the side of an order. *)
Definition flip_order (o : Order) : Order :=
  mkOrder (o_id o) (o_instrument o) (o_user o) (opposite (o_side o)) (o_type o) (o_tif o)
    (o_price o) (o_quantity o) (o_remaining o) (o_timestamp o).

Definition flip (s : EngineState) : EngineState :=
  mkEngineState (es_instrument s) (es_engine_seq s) (flip_order <$> es_orders s).

Lemma fingerprint_flip_order h o : fingerprint_order h (flip_order o) = fingerprint_order h o.
Proof. unfold fingerprint_order, flip_order. cbn [o_id o_price o_remaining o_timestamp o_user]. reflexivity. Qed.

Lemma fingerprint_flip_orders os h :
  foldl fingerprint_order h (flip_order <$> os) = foldl fingerprint_order h os.
Proof.
  revert h. induction os as [|o os IH]; intros h; [done|].
  change (foldl fingerprint_order (fingerprint_order h (flip_order o)) (flip_order <$> os) =
          foldl fingerprint_order (fingerprint_order h o) os).
  rewrite fingerprint_flip_order. apply IH.
Qed.

Theorem fingerprint_ignores_sides (states : list EngineState) (select : InstrumentId -> bool) :
  fingerprint_engine_states (flip <$> states) select = fingerprint_engine_states states select.
Proof.
  unfold fingerprint_engine_states. set (step := fun h s => _). generalize 14695981039346656037 at 1 2.
  assert (Hstep : forall h s, step h (flip s) = step h s).
  { intros h s. unfold step. cbn [es_instrument es_engine_seq flip]. destruct (select _); [|done].
    apply fingerprint_flip_orders. }
  induction states as [|s states IH]; intros h; [done|].
  change (foldl step (step h (flip s)) (flip <$> states) = foldl step (step h s) states).
  rewrite Hstep. apply IH.
Qed.
