(* ===== verification/Framing.v ===== *)
(** * Framed byte streams

    The receive loops of [src/src/gateway.rs] and [src/src/replication.rs] read
    a TCP stream into one reusable buffer, take the complete fixed-size frames
    from its front and keep the partial one.  A stream is the list of segments
    the network delivers, in order; a [read] returns at most the room that is
    left in the buffer, and nothing exactly when there is no room or no data
    left.  The bytes in use, [buf[..filled]], are a list. *)

From S2P Require Import Prelude Bytes Wire.

(** How a stream ends once its segments are used up. *)
Inductive Ending :=
| Closed
| Broken (why : string).

(** [read(&mut buf[filled..])] with [room] bytes left in the buffer. *)
Definition recv (room : nat) (net : list bytes) : bytes * list bytes :=
  match net with
  | [] => ([], [])
  | segment :: rest =>
      (take room segment, match drop room segment with [] => rest | more => more :: rest end)
  end.

(** A subscriber of a write-only feed: the bytes it was sent, and how its next
    writes end (those past the list succeed). *)
Record Peer := mkPeer {
  peer_got : bytes;
  peer_answers : list bool
}.

Definition write_all (bs : bytes) (p : Peer) : option Peer :=
  match peer_answers p with
  | [] => Some (mkPeer (peer_got p ++ bs) [])
  | true :: rest => Some (mkPeer (peer_got p ++ bs) rest)
  | false :: _ => None
  end.

(** [subs.retain_mut(|s| s.write_all(bytes).is_ok())] *)
Definition broadcast (bs : bytes) (subs : list Peer) : list Peer := omap (write_all bs) subs.

Section frames.
Context {S : Type} (len : nat) (step : S -> bytes -> outcome S).

(** [while filled - off >= len], then [copy_within]: the bytes that are left. *)
Fixpoint consume (fuel : nat) (s : S) (buf : bytes) : outcome (S * bytes) :=
  match fuel with
  | O => Ret (s, buf)
  | Datatypes.S fuel =>
      if (len <=? length buf)%nat then
        let! s := step s (take len buf) in consume fuel s (drop len buf)
      else Ret (s, buf)
  end.

End frames.

(** The complete frames of a stream, and what follows the last of them. *)
Definition whole (len : nat) (bs : bytes) : list bytes := chunks_exact (length bs) len bs.
Definition partial (len : nat) (bs : bytes) : bytes := drop (len * (length bs / len)) bs.

(** ** Lemmas *)
Section lemmas.
Context (len : nat) (Hlen : (0 < len)%nat).

Lemma chunks_fuel fuel fuel' bs : (length bs <= fuel)%nat -> (length bs <= fuel')%nat ->
  chunks_exact fuel len bs = chunks_exact fuel' len bs.
Proof.
  revert fuel' bs. induction fuel as [|fuel IH]; intros [|fuel'] bs H H'; try done; cbn [chunks_exact].
  - destruct bs; [|cbn in H; lia]. cbn. by rewrite (proj2 (Nat.leb_gt _ _)).
  - destruct bs; [|cbn in H'; lia]. cbn. by rewrite (proj2 (Nat.leb_gt _ _)).
  - destruct (len <=? length bs)%nat eqn:E; [|done]. apply Nat.leb_le in E. f_equal.
    apply IH; rewrite length_drop; lia.
Qed.

Lemma whole_cons bs : (len <= length bs)%nat -> whole len bs = take len bs :: whole len (drop len bs).
Proof.
  intros H. unfold whole. destruct bs as [|b bs]; [cbn in H; lia|]. cbn [length chunks_exact].
  rewrite (proj2 (Nat.leb_le _ _)) by done. f_equal. apply chunks_fuel; rewrite length_drop; cbn [length] in *; lia.
Qed.

Lemma whole_short bs : (length bs < len)%nat -> whole len bs = [].
Proof.
  intros H. unfold whole. destruct (length bs) eqn:E; [done|]. cbn [chunks_exact].
  by rewrite (proj2 (Nat.leb_gt _ _)) by lia.
Qed.

Lemma partial_short bs : (length bs < len)%nat -> partial len bs = bs.
Proof. intros H. unfold partial. rewrite Nat.div_small by done. by rewrite Nat.mul_0_r. Qed.

Lemma partial_cons bs : (len <= length bs)%nat -> partial len bs = partial len (drop len bs).
Proof.
  intros H. unfold partial. rewrite drop_drop, length_drop. f_equal.
  replace (length bs) with ((length bs - len) + 1 * len)%nat at 1 by lia.
  rewrite Nat.div_add by lia. lia.
Qed.

Lemma partial_length bs : (length (partial len bs) < len)%nat.
Proof.
  unfold partial. rewrite length_drop. pose proof (Nat.div_mod (length bs) len ltac:(lia)).
  pose proof (Nat.mod_upper_bound (length bs) len ltac:(lia)). lia.
Qed.

(** What is left of one part of a stream is framed together with the next. *)
Lemma frames_app fuel bs more : (length bs <= fuel)%nat ->
  whole len (bs ++ more) = whole len bs ++ whole len (partial len bs ++ more) /\
  partial len (bs ++ more) = partial len (partial len bs ++ more).
Proof.
  revert bs. induction fuel as [|fuel IH]; intros bs H.
  - destruct bs; [|cbn in H; lia]. by rewrite partial_short by done.
  - destruct (decide (len <= length bs)%nat) as [Hl|Hl].
    + destruct (IH (drop len bs)) as [E1 E2]; [rewrite length_drop; lia|].
      rewrite (whole_cons bs), (partial_cons bs) by done.
      rewrite (whole_cons (bs ++ more)), (partial_cons (bs ++ more)) by (rewrite length_app; lia).
      rewrite take_app_le, drop_app_le by done. cbn [app]. by rewrite E1, E2.
    + by rewrite (whole_short bs), (partial_short bs) by lia.
Qed.

Lemma whole_app bs more : whole len (bs ++ more) = whole len bs ++ whole len (partial len bs ++ more).
Proof. by apply (frames_app (length bs)). Qed.

Lemma partial_app bs more : partial len (bs ++ more) = partial len (partial len bs ++ more).
Proof. by apply (frames_app (length bs)). Qed.

Lemma whole_frames frames rest : Forall (fun f : bytes => length f = len) frames -> (length rest < len)%nat ->
  whole len (concat frames ++ rest) = frames /\ partial len (concat frames ++ rest) = rest.
Proof.
  intros Hf Hr. induction Hf as [|f fs Hf Hfs [IH1 IH2]]; cbn [concat].
  - split; [by apply whole_short|by apply partial_short].
  - rewrite <-(assoc_L (++)), whole_cons, partial_cons by (rewrite length_app; lia).
    rewrite take_app_length', drop_app_length' by done. by rewrite IH1, IH2.
Qed.

Lemma whole_lengths bs : Forall (fun f : bytes => length f = len) (whole len bs).
Proof.
  unfold whole. generalize (length bs) at 1. intros n. revert bs.
  induction n as [|n IH]; intros bs; cbn [chunks_exact]; [constructor|].
  destruct (len <=? length bs)%nat eqn:E; [|constructor]. apply Nat.leb_le in E.
  constructor; [rewrite length_take; lia|apply IH].
Qed.

Lemma consume_frames {S : Type} (step : S -> bytes -> outcome S) fuel s bs : (length bs <= fuel)%nat ->
  consume len step fuel s bs = let! s' := ofold step s (whole len bs) in Ret (s', partial len bs).
Proof.
  revert s bs. induction fuel as [|fuel IH]; intros s bs H; cbn [consume].
  - destruct bs; [|cbn in H; lia]. cbn. by rewrite partial_short by done.
  - destruct (len <=? length bs)%nat eqn:E; [apply Nat.leb_le in E|apply Nat.leb_gt in E].
    + rewrite whole_cons, partial_cons by done. cbn [ofold]. destruct (step s (take len bs)) as [s'|why]; [|done].
      cbn [obind]. apply IH. rewrite length_drop. lia.
    + by rewrite whole_short, partial_short by done.
Qed.

End lemmas.

(** Every write reaches every subscriber that is kept, whole and in order. *)
Lemma broadcast_got bs subs p : p ∈ broadcast bs subs -> exists q, q ∈ subs /\ peer_got p = peer_got q ++ bs.
Proof.
  intros Hp. apply list_elem_of_omap in Hp as (q & Hq & E). exists q. split; [done|]. unfold write_all in E.
  destruct (peer_answers q) as [|[] l]; by inv E.
Qed.

Lemma recv_cons room segment rest got net : (0 < room)%nat -> segment <> [] ->
  recv room (segment :: rest) = (got, net) -> Forall (.≠ []) rest ->
  got <> [] /\ Forall (.≠ []) net /\ concat (segment :: rest) = got ++ concat net.
Proof.
  intros Hr Hs E Hrest. cbn [recv] in E. injection E as <- <-.
  split.
  { destruct segment as [|b l], room as [|n]; try done; lia. }
  rewrite <-(take_drop room segment) at 2. destruct (drop room segment) as [|b l]; cbn [concat];
    rewrite <-(assoc_L (++)); split; try done. by constructor.
Qed.
