(* ===== verification/Replica.v ===== *)
(** * Hot-standby replication

    [src/src/replication.rs]: the fanout that copies every journaled command to
    the attached standbys, and the standby that applies the stream.  A standby's
    socket is a [Peer] on the sending side and a list of segments on the
    receiving side.  [AtomicU64] counters wrap; logging is left out. *)

From S2P Require Import Prelude Types Strategy Book Engine Protocol Risk Bytes Wire Processor ProcessorProps Recovery Framing.
Import Processor.

Abbreviation REC_LEN := 52%nat.

(** ** The fanout *)
Record RepFanout := mkFanout {
  subs : list Peer;
  attached : bool
}.

(** The record of [publish]. *)
Definition rep_record (shard_id seq : Z) (frame : bytes) : bytes :=
  let rec := splice 0 (le_bytes 4 shard_id) (zeros REC_LEN) in
  let rec := splice 4 (le_bytes 8 seq) rec in
  splice 12 frame rec.

Module RepFanout.

Definition publish (f : RepFanout) (shard_id seq : Z) (frame : bytes) : RepFanout :=
  if negb (attached f) then f
  else
    let kept := broadcast (rep_record shard_id seq frame) (subs f) in
    mkFanout kept (if bool_decide (kept = []) then false else attached f).

Definition close_all (f : RepFanout) : RepFanout := mkFanout [] false.

End RepFanout.

(** The same operations as the threads perform them: the acceptor adds a standby
    under the lock and sets [attached] after releasing it; a publisher, or
    [close_all], that leaves no standby clears the flag before it releases the
    lock.  [accepting] and [emptied] say that a thread is between the two;
    [sent] is every record written so far. *)
Record Fanout := mkThreads {
  fanout : RepFanout;
  accepting : bool;
  emptied : bool;
  sent : list bytes
}.

Inductive fanout_step : Fanout -> Fanout -> Prop :=
| accept_push f e ss answers : e = false ->
    fanout_step (mkThreads f false e ss)
      (mkThreads (mkFanout (subs f ++ [mkPeer [] answers]) (attached f)) true e ss)
| accept_store f e ss :
    fanout_step (mkThreads f true e ss) (mkThreads (mkFanout (subs f) true) false e ss)
| publish_write f a ss rec : let kept := broadcast rec (subs f) in
    fanout_step (mkThreads f a false ss) (mkThreads (mkFanout kept (attached f)) a (bool_decide (kept = [])) (ss ++ [rec]))
| close_drain f a ss :
    fanout_step (mkThreads f a false ss) (mkThreads (mkFanout [] (attached f)) a true ss)
| clear_store f a ss :
    fanout_step (mkThreads f a true ss) (mkThreads (mkFanout (subs f) false) a false ss).

Definition fanout_start : Fanout := mkThreads (mkFanout [] false) false false [].

(** ** The standby *)
Record Replica := mkReplica {
  processors : gmap Z Processor;
  applied_seq : gmap Z Z;
  applied : Z                      (* the caller's counter *)
}.

(** [REC_LEN * 1024] *)
Definition REPLICA_BUFFER : nat := Z.to_nat 53248.

Section replica.
Context (ho : OrderBook -> list (Z * nat)) (factory : MatchingStrategy).

(** The body of the inner loop: one complete record. *)
Definition apply_record (r : Replica) (rec : bytes) : outcome Replica :=
  let shard_id := u32_at 0 rec in
  let seq := u64_at 4 rec in
  let skip := default 0 (applied_seq r !! shard_id) in
  if skip <? seq then
    let! r :=
      match decode_frame (slice 12 MSG_LEN rec) with
      | Some cmd =>
          let p := default (Processor.new factory None) (processors r !! shard_id) in
          let! x := process ho p cmd in
          Ret (mkReplica (<[shard_id := x.1]> (processors r)) (applied_seq r) (wrap64 (applied r + 1)))
      | None => Ret r
      end in
    Ret (mkReplica (processors r) (<[shard_id := seq]> (applied_seq r)) (applied r))
  else Ret r.

(** The read loop; [Ok(0)] and an error both mean that the primary is gone. *)
Fixpoint read_records (fuel : nat) (r : Replica) (buf : bytes) (net : list bytes) : outcome Replica :=
  match fuel with
  | O => Panic "unreachable"
  | S fuel =>
      match recv (REPLICA_BUFFER - length buf) net with
      | ([], _) => Ret r
      | (got, net) =>
          let! x := consume REC_LEN apply_record (length (buf ++ got)) r (buf ++ got) in
          read_records fuel x.1 x.2 net
      end
  end.

Definition run_replica (skip_seq : gmap Z Z) (net : list bytes) : outcome Replica :=
  read_records (S (length (concat net))) (mkReplica ∅ skip_seq 0) [] net.

End replica.

(** ** Lemmas *)
Lemma rep_record_bytes k s f : length f = MSG_LEN -> rep_record k s f = le_bytes 4 k ++ le_bytes 8 s ++ f.
Proof.
  intros Hf. unfold rep_record. set (x := le_bytes 4 k). set (y := le_bytes 8 s).
  assert (Hx : length x = 4%nat) by apply length_le_bytes. assert (Hy : length y = 8%nat) by apply length_le_bytes.
  clearbody x y. do 5 (destruct x as [|? x]; [try done|]); try done. do 9 (destruct y as [|? y]; [try done|]); try done.
  unfold splice. rewrite Hf. by rewrite app_nil_r.
Qed.

Lemma rep_record_fields k s f : is_u32 k -> is_u64 s -> length f = MSG_LEN ->
  length (rep_record k s f) = REC_LEN /\ u32_at 0 (rep_record k s f) = k /\
  u64_at 4 (rep_record k s f) = s /\ slice 12 MSG_LEN (rep_record k s f) = f.
Proof.
  intros Hk Hs Hf. rewrite rep_record_bytes by done. split_and!.
  - by rewrite !length_app, !length_le_bytes, Hf.
  - unfold u32_at. rewrite slice_app_l by (by rewrite length_le_bytes). unfold slice. rewrite drop_0.
    rewrite take_ge by (by rewrite length_le_bytes). by apply le_value_u32.
  - unfold u64_at. rewrite <-(length_le_bytes 4 k) at 1. rewrite <-(Nat.add_0_r (length _)), slice_app_r.
    rewrite slice_app_l by (by rewrite length_le_bytes). unfold slice. rewrite drop_0.
    rewrite take_ge by (by rewrite length_le_bytes). by apply le_value_u64.
  - rewrite (assoc_L (++)).
    assert (Hl : length (le_bytes 4 k ++ le_bytes 8 s) = 12%nat) by (by rewrite length_app, !length_le_bytes).
    rewrite <-Hl at 1. rewrite <-(Nat.add_0_r (length _)), slice_app_r. unfold slice. rewrite drop_0.
    rewrite take_ge by lia. done.
Qed.

Lemma replica_buffer : (REC_LEN < REPLICA_BUFFER)%nat.
Proof. unfold REPLICA_BUFFER. lia. Qed.

(** However the network cuts the stream, the standby applies its records. *)
Lemma read_records_frames ho f fuel r buf net : Forall (.≠ []) net -> (length buf < REC_LEN)%nat ->
  (length (concat net) < fuel)%nat ->
  read_records ho f fuel r buf net = ofold (apply_record ho f) r (whole REC_LEN (buf ++ concat net)).
Proof.
  revert r buf net. induction fuel as [|fuel IH]; intros r buf net Hn Hb Hf; [lia|]. cbn [read_records].
  destruct net as [|seg rest].
  { cbn [recv concat]. rewrite app_nil_r, whole_short by lia. done. }
  apply Forall_cons in Hn as [Hs Hn]. pose proof replica_buffer.
  destruct (recv _ _) as [got net'] eqn:E. apply recv_cons in E as (Hg & Hn' & Ec); [|lia|done|done].
  rewrite Ec. rewrite Ec, length_app in Hf. destruct got as [|b got]; [by destruct Hg|]. cbn [length] in Hf.
  rewrite consume_frames by lia. rewrite (assoc_L (++)), (whole_app REC_LEN ltac:(lia) (buf ++ b :: got)), ofold_app.
  destruct (ofold _ r _) as [r'|why]; [|done]. cbn [obind fst snd].
  rewrite IH; [done|done| |lia]. apply partial_length. lia.
Qed.

(** ** The stream of a primary

    The records a primary published, as (shard, sequence number, command). *)
Abbreviation published := (list (Z * Z * Command)) (only parsing).

Definition records (pubs : published) : list bytes :=
  (fun x => rep_record x.1.1 x.1.2 (encode_command x.2)) <$> pubs.

Definition commands_of (k : Z) (pubs : published) : list Command := snd <$> filter (fun x => x.1.1 = k) pubs.

(** A shard's sequence numbers grow. *)
Fixpoint in_order (last : gmap Z Z) (pubs : published) : Prop :=
  match pubs with
  | [] => True
  | (k, s, _) :: rest => default 0 (last !! k) < s /\ in_order (<[k := s]> last) rest
  end.

Definition publishable (x : Z * Z * Command) : Prop := is_u32 x.1.1 /\ is_u64 x.1.2 /\ sendable x.2.

Lemma records_lengths pubs : Forall publishable pubs -> Forall (fun f : bytes => length f = REC_LEN) (records pubs).
Proof.
  intros H. apply Forall_fmap. eapply Forall_impl; [done|]. intros [[k s] c] (Hk & Hs & _).
  by apply rep_record_fields; [..|apply length_encode_command].
Qed.

Lemma stream_applied ho factory skip pubs net torn : Forall publishable pubs ->
  Forall (.≠ []) net -> concat net = concat (records pubs) ++ torn -> (length torn < REC_LEN)%nat ->
  run_replica ho factory skip net = ofold (apply_record ho factory) (mkReplica ∅ skip 0) (records pubs).
Proof.
  intros Hok Hn Hc Ht. unfold run_replica. rewrite read_records_frames by (done || cbn; lia). cbn [app]. rewrite Hc.
  by destruct (whole_frames REC_LEN ltac:(lia) (records pubs) torn) as [-> _]; [apply records_lengths|..].
Qed.

Lemma commands_of_cons j k s c pubs : commands_of j ((k, s, c) :: pubs) =
  if decide (j = k) then c :: commands_of j pubs else commands_of j pubs.
Proof.
  unfold commands_of. case_decide; [by rewrite filter_cons_True|by rewrite filter_cons_False by (cbn; congruence)].
Qed.

Section mirror.
Context (ho : OrderBook -> list (Z * nat)) (factory : MatchingStrategy).
Abbreviation fresh := (Processor.new factory None).

Lemma apply_one r k s c p rs : publishable (k, s, c) -> default 0 (applied_seq r !! k) < s ->
  process ho (default fresh (processors r !! k)) c = Ret (p, rs) ->
  apply_record ho factory r (rep_record k s (encode_command c)) =
    Ret (mkReplica (<[k := p]> (processors r)) (<[k := s]> (applied_seq r)) (wrap64 (applied r + 1))).
Proof.
  intros (Hk & Hs & Hc & Hw) Hlt Hp. cbn [fst snd] in *.
  destruct (rep_record_fields k s (encode_command c) Hk Hs (length_encode_command c)) as (_ & E1 & E2 & E3).
  unfold apply_record. rewrite E1, E2, E3, (proj2 (Z.ltb_lt _ _)) by done.
  rewrite decode_frame_encode, on_wire_pristine by done. rewrite Hp. done.
Qed.

Lemma apply_published pubs r (final : Z -> Processor * list ExecReport) :
  Forall publishable pubs -> in_order (applied_seq r) pubs -> is_u64 (applied r) ->
  (forall k, process_all ho (default fresh (processors r !! k)) (commands_of k pubs) = Ret (final k)) ->
  exists r', ofold (apply_record ho factory) r (records pubs) = Ret r' /\
    applied r' = wrap64 (applied r + Z.of_nat (length pubs)) /\
    forall k, processors r' !! k =
      if decide (commands_of k pubs = []) then processors r !! k else Some (final k).1.
Proof.
  revert r final. induction pubs as [|[[k s] c] pubs IH]; intros r final Hok Ho Ha Hf.
  { exists r. split_and!; [done| |done]. rewrite wrap64_small; [cbn; lia|unfold_width; cbn; lia]. }
  apply Forall_cons in Hok as [Hx Hok]. destruct Ho as [Hlt Ho].
  pose proof (Hf k) as Hk. rewrite commands_of_cons, decide_True in Hk by done.
  destruct (final k) as [pk rk] eqn:Ek. apply process_all_cons in Hk as (p1 & r1 & r2 & E1 & E2 & _).
  destruct (IH (mkReplica (<[k := p1]> (processors r)) (<[k := s]> (applied_seq r)) (wrap64 (applied r + 1)))
              (fun j => if decide (j = k) then (pk, r2) else final j)) as (r' & Er & Ea & Ep).
  - done.
  - done.
  - apply wrap64_range.
  - intros j. cbn [processors]. case_decide as Hj; [subst j; by rewrite lookup_insert_eq|].
    rewrite lookup_insert_ne by done. specialize (Hf j). by rewrite commands_of_cons, decide_False in Hf by done.
  - exists r'. split_and!.
    + cbn [records fmap list_fmap fst snd ofold]. rewrite (apply_one r k s c p1 r1) by done. done.
    + rewrite Ea. cbn [applied length]. unfold wrap64. rewrite Zplus_mod_idemp_l. f_equal. lia.
    + intros j. rewrite Ep, commands_of_cons. cbn [processors]. destruct (decide (j = k)) as [->|Hj].
      * rewrite (decide_False (P := _ :: _ = [])) by done. rewrite Ek, lookup_insert_eq. cbn [fst].
        case_decide as Hn; [|done]. rewrite Hn in E2. cbn in E2. congruence.
      * by rewrite lookup_insert_ne by done.
Qed.
End mirror.

(** Replication.  A standby that receives every record of the primary's
    shards from the first on, in whatever pieces the network delivers the
    stream and with whatever torn record the connection ends, holds for each
    shard exactly the processor that results from applying that shard's commands
    in order, and counts every record.  The processors are those of the default
    configuration: see [standby_ignores_limits]. *)
Theorem standby_mirrors_primary (ho : OrderBook -> list (Z * nat)) (factory : MatchingStrategy) (pubs : published)
    (final : Z -> Processor * list ExecReport) (net : list bytes) (torn : bytes) :
  Forall publishable pubs -> in_order ∅ pubs ->
  (forall k, process_all ho (Processor.new factory None) (commands_of k pubs) = Ret (final k)) ->
  Forall (.≠ []) net -> concat net = concat (records pubs) ++ torn -> (length torn < REC_LEN)%nat ->
  exists r, run_replica ho factory ∅ net = Ret r /\
    applied r = wrap64 (Z.of_nat (length pubs)) /\
    forall k, processors r !! k = if decide (commands_of k pubs = []) then None else Some (final k).1.
Proof.
  intros Hok Ho Hf Hn Hc Ht. rewrite (stream_applied _ _ _ pubs net torn) by done.
  destruct (apply_published ho factory pubs (mkReplica ∅ ∅ 0) final) as (r & E & Ha & Hp);
    [done|done|unfold_width; cbn; lia| |].
  - intros k. cbn [processors]. rewrite lookup_empty. apply Hf.
  - exists r. split_and!; [done|done|]. intros k. rewrite Hp. cbn [processors]. by rewrite lookup_empty.
Qed.

Definition example_pubs : published :=
  [(0, 1, new_on 1 7 Sell 100 5); (1, 1, new_on 2 9 Sell 50 5); (0, 2, new_on 3 8 Buy 100 3)].

(** The bytes of [example_pubs] and half a record more, in pieces of 37. *)
Definition example_net : list bytes :=
  let all := concat (records example_pubs) ++ zeros 26 in
  imap (fun i _ => slice (37 * i) 37 all) (replicate 5 tt).

Definition example_final (k : Z) : Processor * list ExecReport :=
  result (Processor.new PriceTimePriority.strategy None) (process_all map_order (Processor.new PriceTimePriority.strategy None) (commands_of k example_pubs)).

Lemma example_final_run k :
  process_all map_order (Processor.new PriceTimePriority.strategy None) (commands_of k example_pubs) = Ret (example_final k).
Proof.
  unfold example_final. destruct (decide (k = 0)) as [->|H0]; [|destruct (decide (k = 1)) as [->|H1]].
  - rewrite (surjective_pairing (result _ _)). apply result_ret. by vm_compute.
  - rewrite (surjective_pairing (result _ _)). apply result_ret. by vm_compute.
  - unfold example_pubs. rewrite !commands_of_cons, !decide_False by done. done.
Qed.

Lemma example_publishable : Forall publishable example_pubs.
Proof.
  repeat apply Forall_cons_2; [..|apply Forall_nil_2]; (split; [|split; [|split]]);
    cbn; unfold order_ok; cbn; unfold_width; try lia; done.
Qed.

Lemma example_net_ok : Forall (.≠ []) example_net /\ concat example_net = concat (records example_pubs) ++ zeros 26.
Proof. split; [repeat constructor; vm_compute; discriminate|by vm_compute]. Qed.

Lemma standby_mirrors_primary_witness :
  exists r, run_replica map_order PriceTimePriority.strategy ∅ example_net = Ret r /\ applied r = 3 /\
    processors r !! 0 = Some (example_final 0).1 /\ processors r !! 2 = None.
Proof.
  destruct (standby_mirrors_primary map_order PriceTimePriority.strategy example_pubs example_final example_net (zeros 26)
    example_publishable) as (r & E & Ha & Hp).
  - cbn. split_and!; done.
  - apply example_final_run.
  - apply example_net_ok.
  - apply example_net_ok.
  - cbn. lia.
  - exists r. split; [exact E|]. split; [exact Ha|]. split; rewrite Hp; reflexivity.
Defined.

Definition limited : Processor := with_limits (Processor.new PriceTimePriority.strategy None) (Some (mkLimits 10 0 0)).
Definition large : Command := new_on 1 7 Sell 100 50.
Definition refused := result limited (process map_order limited large).
Definition rested := result (Processor.new PriceTimePriority.strategy None)
  (process_all map_order (Processor.new PriceTimePriority.strategy None) [large]).

Lemma large_runs : process map_order limited large = Ret (refused.1, refused.2) /\
  process_all map_order (Processor.new PriceTimePriority.strategy None) [large] = Ret rested.
Proof.
  split; [apply result_ret; by vm_compute|]. rewrite (surjective_pairing rested). apply result_ret. by vm_compute.
Qed.

(** The standby builds its processors with [Processor::new(factory, None)], not
    with the primary's configuration: an order that the primary's risk limits
    refuse rests on the standby's book. *)
Theorem standby_ignores_limits :
  exists p r q, process map_order limited large = Ret (p, [RRejected 1 1 "max-qty"]) /\
    run_replica map_order PriceTimePriority.strategy ∅ [rep_record 0 1 (encode_command large)] = Ret r /\
    processors r !! 0 = Some q /\
    OrderBook.user_open_orders (book (engine_or_new p 1)) 7 = 0 /\
    OrderBook.user_open_orders (book (engine_or_new q 1)) 7 = 1.
Proof.
  destruct large_runs as [Ep Ef].
  assert (Hok : Forall publishable [(0, 1, large)]).
  { apply Forall_singleton. split; [|split; [|split]]; cbn; unfold order_ok; cbn; unfold_width; try lia; done. }
  destruct (apply_published map_order PriceTimePriority.strategy [(0, 1, large)] (mkReplica ∅ ∅ 0)
              (fun k => if decide (k = 0) then rested else (Processor.new PriceTimePriority.strategy None, [])))
    as (r & Er & _ & Hr).
  - done.
  - by split.
  - unfold_width. cbn. lia.
  - intros k. cbn [processors]. rewrite lookup_empty, commands_of_cons. case_decide; [exact Ef|done].
  - exists refused.1, r, rested.1. split; [rewrite Ep; f_equal; f_equal; by vm_compute|]. split.
    + rewrite (stream_applied _ _ _ [(0, 1, large)] _ []); [exact Er|exact Hok| |reflexivity|cbn; lia].
      apply Forall_singleton. by vm_compute.
    + split; [rewrite Hr; reflexivity|]. split; by vm_compute.
Qed.

(** A standby told to skip the records that a snapshot covers never loads the
    snapshot: it skips them and starts from no books at all. *)
Theorem bootstrapped_standby_is_empty (ho : OrderBook -> list (Z * nat)) (factory : MatchingStrategy)
    (skip_seq : gmap Z Z) (pubs : published) (net : list bytes) :
  Forall publishable pubs -> Forall (fun x => x.1.2 <= default 0 (skip_seq !! x.1.1)) pubs ->
  Forall (.≠ []) net -> concat net = concat (records pubs) ->
  run_replica ho factory skip_seq net = Ret (mkReplica ∅ skip_seq 0).
Proof.
  intros Hok Hs Hn Hc. rewrite (stream_applied _ _ _ pubs net []) by (rewrite ?app_nil_r; done || cbn; lia).
  clear Hc. induction Hok as [|[[k s] c] pubs (Hk & Hu & _) Hok IH]; [done|]. apply Forall_cons in Hs as [Hs Hs'].
  cbn [records fmap list_fmap fst snd ofold] in *.
  destruct (rep_record_fields k s (encode_command c) Hk Hu (length_encode_command c)) as (_ & E1 & E2 & _).
  unfold apply_record at 1. rewrite E1, E2. cbn [applied_seq]. rewrite (proj2 (Z.ltb_ge _ _)) by lia.
  cbn [obind]. by apply IH.
Qed.

Lemma bootstrapped_standby_is_empty_witness :
  run_replica map_order PriceTimePriority.strategy {[0 := 2; 1 := 1]} [concat (records example_pubs)] =
    Ret (mkReplica ∅ {[0 := 2; 1 := 1]} 0).
Proof.
  apply (bootstrapped_standby_is_empty map_order PriceTimePriority.strategy _ example_pubs).
  - exact example_publishable.
  - repeat apply Forall_cons_2; [..|apply Forall_nil_2]; vm_compute; discriminate.
  - repeat constructor. vm_compute. discriminate.
  - cbn [concat]. by rewrite app_nil_r.
Defined.

(** ** The fanout's threads *)
Definition fanout_inv (t : Fanout) : Prop :=
  (subs (fanout t) <> [] -> attached (fanout t) = true \/ accepting t = true) /\
  (emptied t = true -> subs (fanout t) = []) /\
  (forall p, p ∈ subs (fanout t) -> exists k, peer_got p = concat (drop k (sent t))).

Lemma fanout_step_inv t t' : fanout_inv t -> fanout_step t t' -> fanout_inv t'.
Proof.
  intros (H1 & H2 & H3) Hst. destruct Hst as [f e ss answers ->|f e ss|f a ss rec kept|f a ss|f a ss];
    unfold fanout_inv in *; cbn [fanout accepting emptied sent subs attached] in *.
  - split_and!; [by right|done|]. intros p Hp. apply elem_of_app in Hp as [Hp|Hp]; [by apply H3|].
    apply list_elem_of_singleton in Hp as ->. exists (length ss). by rewrite drop_ge.
  - split_and!; [by left|done|done].
  - split_and!.
    + intros Hk. apply H1. intros E. apply Hk. unfold kept. by rewrite E.
    + intros E. by apply bool_decide_eq_true in E.
    + intros p Hp. apply broadcast_got in Hp as (q & Hq & E). destruct (H3 q Hq) as (k & Eq).
      exists (Nat.min k (length ss)). rewrite E, Eq, drop_app_le, concat_app by lia. cbn [concat]. rewrite app_nil_r. f_equal. f_equal.
      destruct (decide (k <= length ss)%nat); [by rewrite Nat.min_l by lia|].
      rewrite Nat.min_r by lia. by rewrite !drop_ge by lia.
  - split_and!; [done|done|]. intros p Hp. by apply elem_of_nil in Hp.
  - rewrite (H2 eq_refl) in *. split_and!; [done|done|done].
Qed.

(** Standbys are never starved: unless the acceptor is between adding a standby
    and setting the flag, the flag that lets [publish] return at once is set
    whenever a standby is attached; and each attached standby has received every
    record written from some point on, whole and in order. *)
Theorem standbys_served (t : Fanout) (p : Peer) : rtc fanout_step fanout_start t -> p ∈ subs (fanout t) ->
  (accepting t = false -> attached (fanout t) = true) /\ exists k, peer_got p = concat (drop k (sent t)).
Proof.
  intros Hr Hp. assert (fanout_inv t) as (H1 & _ & H3).
  { assert (Hi : fanout_inv fanout_start).
    { split_and!; [done|done|]. intros q Hq. by apply elem_of_nil in Hq. }
    clear Hp. revert Hi. induction Hr as [|t1 t2 t3 Hst Hr IH]; [done|]. intros Hi. by apply IH, (fanout_step_inv t1). }
  split; [|by apply H3]. intros Ha. rewrite Ha in H1. destruct H1 as [|]; [|done|done].
  intros E. rewrite E in Hp. by apply elem_of_nil in Hp.
Qed.
