(* ===== verification/Gateway.v ===== *)
(** * The TCP gateway

    [src/src/gateway.rs]: the intake loop with its token bucket, the
    acknowledged intake of committed batches, the report feed; and the client
    of the acknowledged intake, [MatcherConnection] of
    [src/src/bin/order_api.rs].  What a decoded command is handed to ([submit])
    is a parameter, as it is in the source.  A peer's stream is a list of
    segments and an ending ([read]) or its bytes and an ending ([read_exact]);
    [running] gives what each turn of a loop reads from the flag.  Time is
    counted in nanoseconds: [wait i] says how long passes before frame [i] is
    handled and by how much a [sleep] before it oversleeps.  Listeners, threads
    and socket options are left out. *)

From S2P Require Import Prelude Types Protocol Bytes Wire Segments Framing.

Abbreviation SECOND := 1000000000.

(** ** The token bucket of [read_loop] *)
Record Bucket := mkBucket {
  window : Z;
  budget : Z;
  now : Z;
  frames_seen : nat
}.

Definition full_bucket (max_cmds_per_sec at_time : Z) : Bucket := mkBucket at_time max_cmds_per_sec at_time 0.

Section intake.
Context {S : Type} (submit : S -> Command -> outcome S) (max_cmds_per_sec : Z) (wait : nat -> Z * Z).

Definition throttle (b : Bucket) : Bucket :=
  let '(idle, oversleep) := wait (frames_seen b) in
  let b := mkBucket (window b) (budget b) (now b + idle) (Datatypes.S (frames_seen b)) in
  if 0 <? max_cmds_per_sec then
    let b :=
      if budget b =? 0 then
        let elapsed := now b - window b in
        let t := if elapsed <? SECOND then now b + (SECOND - elapsed) + oversleep else now b in
        mkBucket t max_cmds_per_sec t (frames_seen b)
      else b in
    mkBucket (window b) (budget b - 1) (now b) (frames_seen b)
  else b.

(** The body of the inner loop: a frame that is not a command is skipped. *)
Definition read_frame (s : S * Bucket) (frame : bytes) : outcome (S * Bucket) :=
  let b := throttle s.2 in
  match decode_frame frame with
  | Some cmd => let! a := submit s.1 cmd in Ret (a, b)
  | None => Ret (s.1, b)
  end.

Fixpoint read_loop (fuel : nat) (running : nat -> bool) (turn capacity : nat) (s : S * Bucket) (buf : bytes)
    (net : list bytes) (e : Ending) : outcome (S * Bucket * io_result unit) :=
  match fuel with
  | O => Panic "unreachable"
  | Datatypes.S fuel =>
      if running turn then
        match recv (capacity - length buf) net with
        | ([], _) =>
            Ret (s, match net, e with [], Broken why => Err why | _, _ => Ok tt end)
        | (got, net) =>
            let! x := consume MSG_LEN read_frame (length (buf ++ got)) s (buf ++ got) in
            let capacity := if (length x.2 =? capacity)%nat then (capacity * 2)%nat else capacity in
            read_loop fuel running (Datatypes.S turn) capacity x.1 x.2 net e
        end
      else Ret (s, Ok tt)
  end.

(** [MSG_LEN * 512] *)
Definition GATEWAY_BUFFER : nat := Z.to_nat 20480.

Definition serve_session (running : nat -> bool) (s : S) (started : Z) (net : list bytes) (e : Ending)
    : outcome (S * Bucket * io_result unit) :=
  read_loop (Datatypes.S (length (concat net))) running 0 GATEWAY_BUFFER (s, full_bucket max_cmds_per_sec started) [] net e.

End intake.

(** ** Acknowledged intake *)

(** [TCB1] *)
Definition COMMITTED_BATCH_MAGIC : bytes := [84; 67; 66; 49].

Definition read_exact (n : nat) (input : bytes) (e : Ending) : io_result (bytes * bytes) :=
  if (n <=? length input)%nat then Ok (take n input, drop n input)
  else match e with Closed => Err "failed to fill whole buffer" | Broken why => Err why end.

(** One request: [None] when the peer is gone before its first four bytes. *)
Definition read_request (input : bytes) (e : Ending) : io_result (option (bytes * bytes)) :=
  if (length input <? 4)%nat then match e with Closed => Ok None | Broken why => Err why end
  else
    let prefix := take 4 input in
    let rest := drop 4 input in
    if bool_decide (prefix = COMMITTED_BATCH_MAGIC) then
      let? x := read_exact 4 rest e in
      let count := be_value x.1 in
      if (count =? 0) || (RAFT_BATCH_MAX_COMMANDS <? count) then Err "invalid committed command batch size"
      else let? y := read_exact (Z.to_nat count * MSG_LEN) x.2 e in Ok (Some y)
    else
      let? y := read_exact (MSG_LEN - 4) rest e in Ok (Some (prefix ++ y.1, y.2)).

Definition ack_bytes (index : Z) : bytes := 1 :: be_bytes 8 index.

Section acknowledged.
Context {S : Type} (submit : S -> list Command -> outcome (S * option Z)) (max_cmds_per_sec : Z).

(** The rest of a turn: the acknowledgement to write, or the error. *)
Definition serve_frames (s : S) (frames : bytes) : outcome (S * io_result bytes) :=
  let command_count := Z.of_nat (length frames / MSG_LEN) in
  if (0 <? max_cmds_per_sec) && (max_cmds_per_sec <? command_count) then
    Ret (s, Err "committed batch exceeds rate limit")
  else
    match mapM decode_frame (whole MSG_LEN frames) with
    | None => Ret (s, Err "invalid command")
    | Some commands =>
        let! r := submit s commands in
        Ret (r.1, match r.2 with
                  | Some index => Ok (ack_bytes index)
                  | None => Err "command batch was not committed by this leader"
                  end)
    end.

(** [write_error i] is the error of the [i]-th acknowledgement's write. *)
Fixpoint read_loop_ack (fuel : nat) (running : nat -> bool) (write_error : nat -> option string) (turn : nat)
    (s : S) (out input : bytes) (e : Ending) : outcome (S * bytes * io_result unit) :=
  match fuel with
  | O => Panic "unreachable"
  | Datatypes.S fuel =>
      if running turn then
        match read_request input e with
        | Err why => Ret (s, out, Err why)
        | Ok None => Ret (s, out, Ok tt)
        | Ok (Some (frames, input)) =>
            let! r := serve_frames s frames in
            match r.2, write_error turn with
            | Err why, _ | Ok _, Some why => Ret (r.1, out, Err why)
            | Ok ack, None => read_loop_ack fuel running write_error (Datatypes.S turn) r.1 (out ++ ack) input e
            end
        end
      else Ret (s, out, Ok tt)
  end.

Definition serve_acknowledged (running : nat -> bool) (write_error : nat -> option string) (s : S) (input : bytes)
    (e : Ending) : outcome (S * bytes * io_result unit) :=
  read_loop_ack (Datatypes.S (length input)) running write_error 0 s [] input e.

End acknowledged.

(** [serve_forever]'s [submit]: every command goes to the matching queues, and
    the index in the acknowledgement is 0. *)
Definition submit_standalone {S : Type} (dispatch : S -> Command -> outcome S) (s : S) (commands : list Command)
    : outcome (S * option Z) :=
  let! s := ofold dispatch s commands in Ret (s, Some 0).

(** ** The client: [MatcherConnection] *)
Record MatcherTarget := mkTarget {
  order_addr : string;
  metrics_addr : option string
}.

Section client.
Context {W : Type}.
(** The world's answers: is the member behind a metrics address the leader, does
    an address accept a connection, and what comes back for a payload ([None]
    when writing it or reading nine bytes fails). *)
Context (is_leader : W -> string -> bool) (reachable : W -> string -> bool).
Context (exchange : W -> string -> bytes -> W * option bytes).

Record MatcherConnection := mkConnection {
  targets : list MatcherTarget;
  stream : option string;               (* the address it is connected to *)
  active_target : option nat
}.

Definition usable (w : W) (t : MatcherTarget) : bool :=
  match metrics_addr t with Some m => is_leader w m | None => true end && reachable w (order_addr t).

Definition connect (w : W) (c : MatcherConnection) : io_result (string * MatcherConnection) :=
  match list_find (fun t => usable w t = true) (targets c) with
  | Some (i, t) => Ok (order_addr t, mkConnection (targets c) (Some (order_addr t)) (Some i))
  | None => Err "no reachable Raft leader"
  end.

Definition request_bytes (frames : list bytes) : bytes :=
  COMMITTED_BATCH_MAGIC ++ be_bytes 4 (wrap32 (Z.of_nat (length frames))) ++ concat frames.

Definition ack_accepted (ack : bytes) : bool := (byte_at 0 ack =? 1) && (0 <? be_value (drop 1 ack)).

Fixpoint attempts (n : nat) (w : W) (c : MatcherConnection) (payload : bytes) : W * MatcherConnection * io_result unit :=
  match n with
  | O => (w, c, Err "Raft leader connection failed before quorum commit acknowledgement")
  | S n =>
      match (match stream c with Some addr => Ok (addr, c) | None => connect w c end) with
      | Err why => (w, c, Err why)
      | Ok (addr, c) =>
          let '(w, ack) := exchange w addr payload in
          if from_option ack_accepted false ack then (w, c, Ok tt)
          else attempts n w (mkConnection (targets c) None None) payload
      end
  end.

Definition send_frames (w : W) (c : MatcherConnection) (frames : list bytes) : W * MatcherConnection * io_result unit :=
  if bool_decide (frames = []) || (RAFT_BATCH_MAX_COMMANDS <? Z.of_nat (length frames))
  then (w, c, Err "invalid matcher batch size")
  else attempts 2 w c (request_bytes frames).

End client.

(** ** The report feed *)

(** What one [poll] drains: the shards' queues one after the other. *)
Definition poll (queues : list (list ExecReport)) : list ExecReport := concat queues.

Definition report_bytes (reports : list ExecReport) : bytes := concat (encode_report <$> reports).

(** [report_writer]: each turn's poll, and what it reads from [running] when the
    poll was empty. *)
Fixpoint report_writer (turns : list (list (list ExecReport) * bool)) (stream : Peer) (fanout : option (list Peer))
    : Peer * option (list Peer) :=
  match turns with
  | [] => (stream, fanout)
  | (queues, running) :: turns =>
      let out := report_bytes (poll queues) in
      if bool_decide (out = []) then
        if (running : bool) then report_writer turns stream fanout else (stream, fanout)
      else
        let fanout := broadcast out <$> fanout in
        match write_all out stream with
        | None => (stream, fanout)
        | Some stream => report_writer turns stream fanout
        end
  end.

(** [report_fanout_drain]: the callback's calls, and the subscribers. *)
Fixpoint report_fanout_drain (turns : list (list (list ExecReport) * bool)) (fanout : option (list Peer))
    : list ExecReport * option (list Peer) :=
  match turns with
  | [] => ([], fanout)
  | (queues, running) :: turns =>
      let reports := poll queues in
      let out := report_bytes reports in
      if bool_decide (out = []) then
        if (running : bool) then report_fanout_drain turns fanout else ([], fanout)
      else
        let r := report_fanout_drain turns (broadcast out <$> fanout) in
        (reports ++ r.1, r.2)
  end.

(** ** The intake loop *)
Lemma gateway_buffer : (MSG_LEN < GATEWAY_BUFFER)%nat.
Proof. unfold GATEWAY_BUFFER. lia. Qed.

Definition ended (e : Ending) : io_result unit := match e with Closed => Ok tt | Broken why => Err why end.

Section intake_lemmas.
Context {S : Type} (submit : S -> Command -> outcome S) (max : Z) (wait : nat -> Z * Z) (running : nat -> bool).
Context (Hrun : forall t, running t = true).

Lemma read_loop_frames fuel turn cap s buf net e : Forall (.≠ []) net -> (length buf < MSG_LEN)%nat ->
  (MSG_LEN < cap)%nat -> (length (concat net) < fuel)%nat ->
  read_loop submit max wait fuel running turn cap s buf net e =
    let! s' := ofold (read_frame submit max wait) s (whole MSG_LEN (buf ++ concat net)) in Ret (s', ended e).
Proof.
  revert turn cap s buf net. induction fuel as [|fuel IH]; intros turn cap s buf net Hn Hb Hc Hf; [lia|].
  cbn [read_loop]. rewrite Hrun. destruct net as [|seg rest].
  { cbn [recv concat]. rewrite app_nil_r, whole_short by lia. by destruct e. }
  apply Forall_cons in Hn as [Hs Hn].
  destruct (recv _ _) as [got net'] eqn:E. apply recv_cons in E as (Hg & Hn' & Ec); [|lia|done|done].
  rewrite Ec. rewrite Ec, length_app in Hf. destruct got as [|b got]; [by destruct Hg|]. cbn [length] in Hf.
  rewrite consume_frames by lia. rewrite (assoc_L (++)), (whole_app MSG_LEN ltac:(lia) (buf ++ b :: got)), ofold_app.
  destruct (ofold _ s _) as [s'|why]; [|done]. cbn [obind fst snd].
  pose proof (partial_length MSG_LEN ltac:(lia) (buf ++ b :: got)) as Hp.
  rewrite (proj2 (Nat.eqb_neq _ _)) by lia. by apply IH; [..|lia].
Qed.

Lemma read_frames frames a b :
  ofold (read_frame submit max wait) (a, b) frames =
    let! a' := ofold submit a (omap decode_frame frames) in Ret (a', Nat.iter (length frames) (throttle max wait) b).
Proof.
  revert a b. induction frames as [|f fs IH]; intros a b; [done|]. cbn [ofold omap list_omap length].
  rewrite Nat.iter_succ_r. unfold read_frame at 1. cbn [fst snd]. destruct (decode_frame f) as [c|]; cbn [ofold]; [|apply IH].
  destruct (submit a c) as [a'|why]; [|done]. cbn [obind]. apply IH.
Qed.
End intake_lemmas.

(** Intake.  Whatever pieces the network delivers a client's stream in,
    however long the pauses and sleeps, and whatever partial frame the stream
    ends with, the intake loop hands on exactly the commands of the complete
    frames, each once and in order; a frame that is not a command is skipped
    and costs a token like any other.  The loop ends with the stream, with its
    error if it broke. *)
Theorem intake_exact {S : Type} (submit : S -> Command -> outcome S) (max started : Z) (wait : nat -> Z * Z)
    (running : nat -> bool) (s : S) (frames : list bytes) (torn : bytes) (net : list bytes) (e : Ending) :
  (forall t, running t = true) -> Forall (fun f : bytes => length f = MSG_LEN) frames -> (length torn < MSG_LEN)%nat ->
  Forall (.≠ []) net -> concat net = concat frames ++ torn ->
  serve_session submit max wait running s started net e =
    let! s' := ofold submit s (omap decode_frame frames) in
    Ret (s', Nat.iter (length frames) (throttle max wait) (full_bucket max started), ended e).
Proof.
  intros Hrun Hf Ht Hn Hc. unfold serve_session. pose proof gateway_buffer.
  rewrite read_loop_frames by (done || cbn; lia). cbn [app]. rewrite Hc.
  destruct (whole_frames MSG_LEN ltac:(lia) frames torn) as [-> _]; [done..|].
  rewrite read_frames. by destruct (ofold submit s _).
Qed.

Lemma intake_exact_witness :
  serve_session (fun s c => Ret (s ++ [c])) 2 (fun _ => (5, 0)) (fun _ => true) [] 0
    [take 30 (encode_command (CHalt 1 4)); drop 30 (encode_command (CHalt 1 4)) ++ zeros 47; zeros 3] Closed =
  Ret ([CHalt 1 4], mkBucket 0 0 10 2, Ok tt).
Proof.
  rewrite (intake_exact _ _ _ _ _ _ [encode_command (CHalt 1 4); zeros 40] (zeros 10)).
  - reflexivity.
  - reflexivity.
  - repeat constructor.
  - cbn. lia.
  - repeat constructor; discriminate.
  - reflexivity.
Defined.

(** ** The rate of the intake loop *)
Section rate.
Context (max : Z) (wait : nat -> Z * Z) (Hmax : 0 < max) (Hwait : forall i, 0 <= (wait i).1 /\ 0 <= (wait i).2).

Definition bucket_ok (b : Bucket) : Prop := 0 <= budget b <= max /\ window b <= now b.

Lemma throttle_step b : bucket_ok b -> let b' := throttle max wait b in
  bucket_ok b' /\ now b <= now b' /\ window b <= window b' /\
  (0 < budget b -> budget b' = budget b - 1 /\ window b' = window b) /\
  (budget b = 0 -> budget b' = max - 1 /\ window b + SECOND <= window b' /\ now b <= window b').
Proof.
  intros [Hb Hw]. unfold throttle. pose proof (Hwait (frames_seen b)) as Hi.
  destruct (wait (frames_seen b)) as [idle over]. cbn [fst snd] in Hi. cbn [window budget now frames_seen].
  rewrite (proj2 (Z.ltb_lt _ _)) by done. unfold bucket_ok.
  destruct (Z.eqb_spec (budget b) 0) as [E|E]; cbn [window budget now frames_seen];
    [destruct (_ <? SECOND) eqn:Es; zbool|]; lia.
Qed.

Abbreviation after := (fun n b => Nat.iter n (throttle max wait) b).

Lemma after_mono n b : bucket_ok b -> bucket_ok (after n b) /\ now b <= now (after n b) /\ window b <= window (after n b).
Proof.
  intros Hb. induction n as [|n (IH1 & IH2 & IH3)]; [split; [done|cbn; lia]|].
  rewrite Nat.iter_succ. destruct (throttle_step _ IH1) as (H1 & H2 & H3 & _). split; [done|lia].
Qed.

Lemma after_spent n b : bucket_ok b -> Z.of_nat n <= budget b ->
  budget (after n b) = budget b - Z.of_nat n /\ window (after n b) = window b.
Proof.
  intros Hb. induction n as [|n IH]; intros Hn; [cbn; lia|]. destruct IH as [IH1 IH2]; [lia|].
  rewrite Nat.iter_succ. destruct (throttle_step _ (proj1 (after_mono n b Hb))) as (_ & _ & _ & H & _). lia.
Qed.

(** Once the tokens are spent and one more frame has passed, a window later than
    everything before it is open. *)
Lemma after_refill b : bucket_ok b -> let b' := after (Datatypes.S (Z.to_nat (budget b))) b in
  bucket_ok b' /\ window b + SECOND <= window b' /\ now b <= window b' /\ budget b' = max - 1.
Proof.
  intros Hb. pose proof Hb as [Hr _]. rewrite Nat.iter_succ.
  destruct (after_spent (Z.to_nat (budget b)) b Hb ltac:(lia)) as [E1 E2].
  destruct (after_mono (Z.to_nat (budget b)) b Hb) as (Hok & Hn & _).
  destruct (throttle_step _ Hok) as (H1 & _ & _ & _ & H2). destruct H2 as (H2 & H3 & H4); [lia|].
  split_and!; [done|lia..].
Qed.

Lemma after_second b n : bucket_ok b -> budget b <= max - 1 -> 2 * max <= Z.of_nat n ->
  now b + SECOND <= now (after n b).
Proof.
  intros Hb Hbud Hn. pose proof Hb as [Hr _].
  destruct (after_refill b Hb) as (H1 & _ & H2 & E1). set (k1 := Datatypes.S (Z.to_nat (budget b))) in *.
  destruct (after_refill _ H1) as (H3 & H4 & _ & _). rewrite E1 in *.
  set (k2 := Datatypes.S (Z.to_nat (max - 1))) in *.
  assert (Hk : n = ((n - k2 - k1) + (k2 + k1))%nat) by lia. rewrite Hk, !Nat.iter_add.
  destruct (after_mono (n - k2 - k1) _ H3) as (_ & H5 & H6). destruct H3 as [_ H3]. lia.
Qed.

(** When frame [i] is handled. *)
Definition passed (started : Z) (i : nat) : Z := now (after (Datatypes.S i) (full_bucket max started)).

Lemma passed_gap started i j : (i <= j)%nat -> passed started i <= passed started j /\
  (2 * max <= Z.of_nat (j - i) -> passed started i + SECOND <= passed started j).
Proof.
  intros Hij. unfold passed. assert (Hf : bucket_ok (full_bucket max started)) by (unfold bucket_ok; cbn; lia).
  replace (Datatypes.S j) with ((j - i) + Datatypes.S i)%nat by lia. rewrite (Nat.iter_add (j - i)).
  destruct (after_mono (Datatypes.S i) _ Hf) as (Hok & _). split; [by apply after_mono|]. intros Hd.
  apply after_second; [done| |done]. rewrite Nat.iter_succ.
  destruct (after_mono i _ Hf) as ([Hb Hw] & _). destruct (throttle_step _ (conj Hb Hw)) as (_ & _ & _ & H1 & H2). lia.
Qed.
End rate.

Lemma filter_seq_head (P : nat -> Prop) `{!forall i, Decision (P i)} n a i l j :
  filter P (seq a n) = i :: l -> j ∈ i :: l -> (i <= j)%nat.
Proof.
  revert a. induction n as [|n IH]; intros a E Hj; [done|]. cbn [seq] in E. rewrite filter_cons in E. case_decide; [|by eapply IH].
  injection E as -> El. apply elem_of_cons in Hj as [->|Hj]; [done|]. rewrite <-El in Hj.
  apply list_elem_of_filter in Hj as [_ Hj]. apply elem_of_seq in Hj. lia.
Qed.

(** Rate limit.  With a limit of [max] commands a second, in every interval
    of one second the intake loop handles at most [2 * max] frames, whatever the
    arrival times and however long the sleeps take (a window's tokens may be
    spent at its end and the next window's at its start). *)
Theorem intake_rate_bounded (max started t : Z) (wait : nat -> Z * Z) (n : nat) :
  0 < max -> (forall i, 0 <= (wait i).1 /\ 0 <= (wait i).2) ->
  Z.of_nat (length (filter (fun i => t <= passed max wait started i < t + SECOND) (seq 0 n))) <= 2 * max.
Proof.
  intros Hmax Hwait. set (l := filter _ _). destruct l as [|i l'] eqn:El; [cbn; lia|]. rewrite <-El.
  assert (Hin : forall j, j ∈ l -> t <= passed max wait started j < t + SECOND /\ (i <= j)%nat).
  { intros j Hj. split; [by apply list_elem_of_filter in Hj as [? _]|].
    rewrite El in Hj. by eapply filter_seq_head. }
  assert (Hi : i ∈ l) by (rewrite El; by left). apply Hin in Hi as [Hi _].
  assert (Hsub : l ⊆+ seq i (Z.to_nat (2 * max))).
  { apply NoDup_submseteq; [apply NoDup_filter, NoDup_seq|]. intros j Hj. apply Hin in Hj as [Hj Hij].
    apply elem_of_seq. destruct (passed_gap max wait Hmax Hwait started i j Hij) as [_ Hg].
    destruct (decide (2 * max <= Z.of_nat (j - i))); [specialize (Hg ltac:(done)); lia|lia]. }
  apply submseteq_length in Hsub. rewrite length_seq in Hsub. lia.
Qed.

Lemma intake_rate_bounded_witness :
  Z.of_nat (length (filter (fun i => 0 <= passed 2 (fun _ => (0, 0)) 0 i < 0 + SECOND) (seq 0 9))) <= 4.
Proof. apply (intake_rate_bounded 2 0 0 (fun _ => (0, 0)) 9); [lia|]. intros i. cbn. lia. Defined.

(** ** Acknowledged sessions *)

(** A batch a client may send: its size is within the protocol's and the
    configured limit. *)
Definition batch_ok (max : Z) (cs : list Command) : Prop :=
  1 <= Z.of_nat (length cs) <= RAFT_BATCH_MAX_COMMANDS /\ (0 < max -> Z.of_nat (length cs) <= max) /\ Forall flat_ok cs.

Definition batch_request (cs : list Command) : bytes := request_bytes (encode_command <$> cs).

(** What must be refused: a batch of no or too many commands, one over the
    configured limit, a frame that is not a command, a request cut short after its
    first four bytes. *)
Inductive malformed (max : Z) : bytes -> Prop :=
| bad_count n rest : is_u32 n -> n = 0 \/ RAFT_BATCH_MAX_COMMANDS < n ->
    malformed max (COMMITTED_BATCH_MAGIC ++ be_bytes 4 n ++ rest)
| over_limit frames rest : 1 <= Z.of_nat (length frames) <= RAFT_BATCH_MAX_COMMANDS ->
    Forall (fun f : bytes => length f = MSG_LEN) frames -> 0 < max < Z.of_nat (length frames) ->
    malformed max (request_bytes frames ++ rest)
| bad_command frames f rest : 1 <= Z.of_nat (length frames) <= RAFT_BATCH_MAX_COMMANDS ->
    Forall (fun f : bytes => length f = MSG_LEN) frames -> f ∈ frames -> decode_frame f = None ->
    malformed max (request_bytes frames ++ rest)
| bad_single f rest : length f = MSG_LEN -> take 4 f <> COMMITTED_BATCH_MAGIC -> decode_frame f = None ->
    malformed max (f ++ rest)
| torn_count part : (length part < 4)%nat -> malformed max (COMMITTED_BATCH_MAGIC ++ part)
| torn_batch n part : 1 <= n <= RAFT_BATCH_MAX_COMMANDS -> (length part < Z.to_nat n * MSG_LEN)%nat ->
    malformed max (COMMITTED_BATCH_MAGIC ++ be_bytes 4 n ++ part)
| torn_single part : (4 <= length part < MSG_LEN)%nat -> take 4 part <> COMMITTED_BATCH_MAGIC -> malformed max part.

Lemma length_be_bytes n z : length (be_bytes n z) = n.
Proof. unfold be_bytes. by rewrite length_rev, length_le_bytes. Qed.

Lemma be_value_count n : is_u32 n -> be_value (be_bytes 4 n) = n.
Proof. intros H. apply be_value_bytes. unfold_width. lia. Qed.

Lemma read_exact_app n bs rest e : length bs = n -> read_exact n (bs ++ rest) e = Ok (bs, rest).
Proof.
  intros <-. unfold read_exact. rewrite (proj2 (Nat.leb_le _ _)) by (rewrite length_app; lia).
  by rewrite take_app_length, drop_app_length.
Qed.

Lemma read_exact_short n input e : (length input < n)%nat -> exists why, read_exact n input e = Err why.
Proof. intros H. unfold read_exact. rewrite (proj2 (Nat.leb_gt _ _)) by done. destruct e; by eexists. Qed.

Lemma read_header n rest e : is_u32 n -> read_request (COMMITTED_BATCH_MAGIC ++ be_bytes 4 n ++ rest) e =
  if (n =? 0) || (RAFT_BATCH_MAX_COMMANDS <? n) then Err "invalid committed command batch size"
  else let? y := read_exact (Z.to_nat n * MSG_LEN) rest e in Ok (Some y).
Proof.
  intros Hn. unfold read_request. rewrite (proj2 (Nat.ltb_ge _ _)) by (rewrite length_app; cbn; lia).
  rewrite take_app_length', drop_app_length' by done. rewrite bool_decide_true by done.
  rewrite read_exact_app by apply length_be_bytes. cbn [try_bind fst snd]. by rewrite be_value_count.
Qed.

Lemma read_batch frames rest e : 1 <= Z.of_nat (length frames) <= RAFT_BATCH_MAX_COMMANDS ->
  Forall (fun f : bytes => length f = MSG_LEN) frames ->
  read_request (request_bytes frames ++ rest) e = Ok (Some (concat frames, rest)).
Proof.
  intros Hn Hf. unfold request_bytes. rewrite <-!(assoc_L (++)), wrap32_small by (unfold_width; lia).
  rewrite read_header by (unfold_width; lia). rewrite (proj2 (Z.eqb_neq _ _)), (proj2 (Z.ltb_ge _ _)) by lia. cbn [orb].
  rewrite read_exact_app; [done|]. rewrite (length_frames MSG_LEN) by done. rewrite Nat2Z.id. lia.
Qed.

Lemma mapM_none {A B : Type} (f : A -> option B) l x : x ∈ l -> f x = None -> mapM f l = None.
Proof.
  intros Hx E. induction Hx as [l|x y l Hx IH]; cbn; [by rewrite E|]. destruct (f y); [cbn|done]. by rewrite (IH E).
Qed.

Section sessions.
Context {S : Type} (submit : S -> list Command -> outcome (S * option Z)) (max : Z).

Lemma whole_batch frames : Forall (fun f : bytes => length f = MSG_LEN) frames ->
  whole MSG_LEN (concat frames) = frames /\ (length (concat frames) / MSG_LEN)%nat = length frames.
Proof.
  intros Hf. split.
  - rewrite <-(app_nil_r (concat frames)). apply whole_frames; [lia|done|cbn; lia].
  - rewrite (length_frames MSG_LEN) by done. rewrite Nat.mul_comm. by apply Nat.div_mul.
Qed.

Lemma encoded_frames cs : Forall (fun f : bytes => length f = MSG_LEN) (encode_command <$> cs).
Proof. apply Forall_fmap, Forall_true. intros c. apply length_encode_command. Qed.

Lemma read_batch_request cs rest e : batch_ok max cs ->
  read_request (batch_request cs ++ rest) e = Ok (Some (concat (encode_command <$> cs), rest)).
Proof. intros (Hn & _). apply read_batch; [by rewrite length_fmap|apply encoded_frames]. Qed.

Lemma serve_batch s cs : batch_ok max cs -> serve_frames submit max s (concat (encode_command <$> cs)) =
  let! r := submit s (on_wire <$> cs) in
  Ret (r.1, match r.2 with Some i => Ok (ack_bytes i) | None => Err "command batch was not committed by this leader" end).
Proof.
  intros (Hn & Hm & Hc). unfold serve_frames. destruct (whole_batch _ (encoded_frames cs)) as [-> ->].
  rewrite length_fmap. destruct ((0 <? max) && _) eqn:E; [zbool; lia|]. by rewrite decode_frames.
Qed.

(** [rs] are submitted one after the other and committed at [indexes]. *)
Inductive committed : S -> list (list Command) -> S -> list Z -> Prop :=
| committed_nil s : committed s [] s []
| committed_cons s cs rs s1 i s2 indexes : submit s (on_wire <$> cs) = Ret (s1, Some i) ->
    committed s1 rs s2 indexes -> committed s (cs :: rs) s2 (i :: indexes).

Context (running : nat -> bool) (write_error : nat -> option string).
Context (Hrun : forall t, running t = true) (Hwrite : forall t, write_error t = None).

Lemma loop_committed s rs s' indexes fuel turn out more e : committed s rs s' indexes -> Forall (batch_ok max) rs ->
  read_loop_ack submit max (length rs + fuel) running write_error turn s out (concat (batch_request <$> rs) ++ more) e =
  read_loop_ack submit max fuel running write_error (length rs + turn) s' (out ++ concat (ack_bytes <$> indexes)) more e.
Proof.
  intros Hc. revert turn out. induction Hc as [s|s cs rs s1 i s2 indexes E Hc IH]; intros turn out Hok.
  { cbn. by rewrite app_nil_r. }
  apply Forall_cons in Hok as [Hcs Hok].
  cbn [length fmap list_fmap concat Nat.add read_loop_ack]. rewrite Hrun, <-(assoc_L (++)).
  rewrite read_batch_request, serve_batch, E by done. cbn [obind fst snd]. rewrite Hwrite, IH by done.
  rewrite (assoc_L (++)). f_equal. lia.
Qed.

Lemma malformed_refused bad fuel turn s out e : malformed max bad ->
  exists why, read_loop_ack submit max (Datatypes.S fuel) running write_error turn s out bad e = Ret (s, out, Err why).
Proof.
  intros Hb. cbn [read_loop_ack]. rewrite Hrun.
  destruct Hb as [n rest Hu Hn|frames rest Hn Hf Hm|frames f rest Hn Hf Hin Hd|f rest Hf Hp Hd|part Hl|n part Hn Hl|part Hl Hp].
  - rewrite read_header by done. exists "invalid committed command batch size"%string.
    destruct Hn as [->|Hn]; [done|]. by rewrite (proj2 (Z.ltb_lt _ _)), orb_true_r by done.
  - rewrite read_batch by done. unfold serve_frames. destruct (whole_batch frames Hf) as [-> ->].
    rewrite !(proj2 (Z.ltb_lt _ _)) by lia. by eexists.
  - rewrite read_batch by done. unfold serve_frames. destruct (whole_batch frames Hf) as [-> ->].
    rewrite (mapM_none _ _ f) by done. by destruct (_ && _); eexists.
  - unfold read_request. rewrite (proj2 (Nat.ltb_ge _ _)) by (rewrite length_app; lia).
    rewrite take_app_le, drop_app_le by lia. rewrite bool_decide_false by done.
    rewrite read_exact_app by (rewrite length_drop; lia). cbn [try_bind fst snd]. rewrite take_drop.
    unfold serve_frames. destruct (whole_batch [f]) as [E1 E2]; [by constructor|]. cbn [concat] in E1, E2. rewrite app_nil_r in E1, E2.
    rewrite E1, E2, (mapM_none _ _ f) by (done || by left). by destruct (_ && _); eexists.
  - unfold read_request. rewrite (proj2 (Nat.ltb_ge _ _)) by (rewrite length_app; cbn; lia).
    rewrite take_app_length', drop_app_length' by done. rewrite bool_decide_true by done.
    destruct (read_exact_short 4 part e Hl) as (why & ->). by exists why.
  - rewrite read_header by (unfold_width; lia). rewrite (proj2 (Z.eqb_neq _ _)), (proj2 (Z.ltb_ge _ _)) by lia. cbn [orb].
    destruct (read_exact_short _ part e Hl) as (why & ->). by exists why.
  - unfold read_request. rewrite (proj2 (Nat.ltb_ge _ _)) by lia. rewrite bool_decide_false by done.
    destruct (read_exact_short (MSG_LEN - 4) (drop 4 part) e) as (why & ->); [rewrite length_drop; lia|]. by exists why.
Qed.
End sessions.

Lemma malformed_length max bad : malformed max bad -> (4 <= length bad)%nat.
Proof. destruct 1; unfold request_bytes; rewrite ?length_app; cbn; lia. Qed.

Lemma request_length cs : (1 <= length (batch_request cs))%nat.
Proof. cbn. lia. Qed.

Lemma requests_length rs : (length rs <= length (concat (batch_request <$> rs)))%nat.
Proof.
  induction rs as [|cs rs IH]; [done|]. cbn [fmap list_fmap concat length]. rewrite length_app.
  pose proof (request_length cs). lia.
Qed.

(** C25: Refusals.  While the server runs and its writes succeed, in a session of
    committed batches followed by a request that
    is malformed, over the configured limit, cut short by the end of the stream
    or not committed: every batch before it was submitted once and acknowledged
    with its index, in order, the bad request was not submitted at all (unless it
    is the consensus that refused it), and nothing was acknowledged for it or for
    anything that follows it.  The session ends with an error, except when the peer
    closes the connection before the fourth byte of the request: then it ends
    without one, as at the end of a complete session. *)
Theorem bad_request_ends_session {S : Type} (submit : S -> list Command -> outcome (S * option Z)) (max : Z)
    (running : nat -> bool) (write_error : nat -> option string) (s s' s'' : S) (rs : list (list Command))
    (indexes : list Z) (bad : bytes) (e : Ending) :
  (forall t, running t = true) -> (forall t, write_error t = None) ->
  Forall (batch_ok max) rs -> committed submit s rs s' indexes ->
  (malformed max bad /\ s'' = s') \/ ((length bad < 4)%nat /\ s'' = s') \/
  (exists cs rest, bad = batch_request cs ++ rest /\ batch_ok max cs /\ submit s' (on_wire <$> cs) = Ret (s'', None)) ->
  exists ending, serve_acknowledged submit max running write_error s (concat (batch_request <$> rs) ++ bad) e =
      Ret (s'', concat (ack_bytes <$> indexes), ending) /\
    (ending = Ok tt <-> (length bad < 4)%nat /\ e = Closed).
Proof.
  intros Hrun Hwr Hok Hc Hbad. unfold serve_acknowledged. rewrite length_app.
  pose proof (requests_length rs). set (n := length (concat _)) in *.
  replace (Datatypes.S (n + length bad))%nat with (length rs + Datatypes.S (n - length rs + length bad))%nat by lia.
  rewrite (loop_committed submit max running write_error Hrun Hwr s rs s' indexes) by done. cbn [app].
  destruct Hbad as [[Hb ->]|[[Hb ->]|(cs & rest & -> & Hcs & E)]].
  - destruct (malformed_refused submit max running write_error Hrun bad (n - length rs + length bad) (length rs + 0) s'
      (concat (ack_bytes <$> indexes)) e Hb) as (why & ->). exists (Err why). split; [done|].
    apply malformed_length in Hb. split; [done|lia].
  - cbn [read_loop_ack]. rewrite Hrun. unfold read_request. rewrite (proj2 (Nat.ltb_lt _ _)) by done.
    destruct e as [|why]; [exists (Ok tt)|exists (Err why)]; (split; [done|]); split; [done|done|done|by intros [_ ?]].
  - cbn [read_loop_ack]. rewrite Hrun, (read_batch_request max), serve_batch, E by done. cbn [obind fst snd].
    eexists. split; [done|]. split; [done|]. unfold batch_request, request_bytes. rewrite !length_app. cbn. lia.
Qed.

(** A leader that commits every batch at the next index. *)
Definition counting (s : Z * list Command) (cs : list Command) : outcome (Z * list Command * option Z) :=
  Ret (s.1 + 1, s.2 ++ cs, Some (s.1 + 1)).

Lemma bad_request_ends_session_witness :
  exists why, serve_acknowledged counting 5 (fun _ => true) (fun _ => None) (41, [])
    (batch_request [CHalt 1 4; CResume 1 5] ++ COMMITTED_BATCH_MAGIC ++ be_bytes 4 0) Closed =
  Ret ((42, [CHalt 1 4; CResume 1 5]), [1; 0; 0; 0; 0; 0; 0; 0; 42], Err why).
Proof.
  destruct (bad_request_ends_session counting 5 (fun _ => true) (fun _ => None) (41, []) (42, [CHalt 1 4; CResume 1 5])
    (42, [CHalt 1 4; CResume 1 5]) [[CHalt 1 4; CResume 1 5]] [42] (COMMITTED_BATCH_MAGIC ++ be_bytes 4 0 ++ []) Closed)
    as ([[]|why] & E & H).
  - reflexivity.
  - reflexivity.
  - constructor; [|constructor]. split; [cbn; lia|]. split; [cbn; lia|].
    repeat constructor; cbn; unfold_width; lia.
  - eapply committed_cons; [reflexivity|]. apply committed_nil.
  - left. split; [|reflexivity]. apply bad_count; [unfold_width; lia|by left].
  - destruct (proj1 H eq_refl) as [Hl _]. cbn in Hl. lia.
  - exists why. exact E.
Defined.

(** ** The client against the server *)
Section round_trip.
Context {S : Type} (submit : S -> list Command -> outcome (S * option Z)) (max : Z).
Context (is_leader : S -> string -> bool) (reachable : S -> string -> bool).

(** The reply to one payload: the session's output, if it has nine bytes. *)
Definition server_exchange (s : S) (addr : string) (payload : bytes) : S * option bytes :=
  match serve_acknowledged submit max (fun _ => true) (fun _ => None) s payload Closed with
  | Ret (s', out, _) => (s', if (9 <=? length out)%nat then Some (take 9 out) else None)
  | Panic _ => (s, None)
  end.

Abbreviation send := (send_frames is_leader reachable server_exchange).

Lemma exchange_batch s addr cs s' r : batch_ok max cs -> submit s (on_wire <$> cs) = Ret (s', r) ->
  server_exchange s addr (request_bytes (encode_command <$> cs)) = (s', ack_bytes <$> r).
Proof.
  intros Hcs E. unfold server_exchange, serve_acknowledged. rewrite <-(app_nil_r (request_bytes _)).
  change (request_bytes (encode_command <$> cs)) with (batch_request cs).
  pose proof (request_length cs). rewrite length_app. cbn [length]. rewrite Nat.add_0_r.
  destruct (length (batch_request cs)) as [|n]; [lia|]. cbn [read_loop_ack].
  rewrite (read_batch_request max), serve_batch, E by done. cbn [obind fst snd]. by destruct r.
Qed.

Lemma ack_accepted_index i : is_u64 i -> ack_accepted (ack_bytes i) = (0 <? i).
Proof.
  intros Hi. unfold ack_accepted, ack_bytes. change (drop 1 (1 :: be_bytes 8 i)) with (be_bytes 8 i).
  rewrite be_value_bytes; [done|]. unfold_width. lia.
Qed.

Lemma encoded_not_nil cs : batch_ok max cs ->
  bool_decide (encode_command <$> cs = []) || (RAFT_BATCH_MAX_COMMANDS <? Z.of_nat (length (encode_command <$> cs))) = false.
Proof.
  intros (Hn & _). rewrite length_fmap, (proj2 (Z.ltb_ge _ _)), orb_false_r by lia. apply bool_decide_eq_false.
  by destruct cs; [cbn in Hn; lia|].
Qed.

(** A batch that the leader commits is acknowledged at the first attempt. *)
Theorem committed_batch_acknowledged (s s' : S) (c c' : MatcherConnection) (addr : string) (cs : list Command) (i : Z) :
  batch_ok max cs -> submit s (on_wire <$> cs) = Ret (s', Some i) -> 0 < i <= U64_MAX ->
  (match stream c with Some a => Ok (a, c) | None => connect is_leader reachable s c end) = Ok (addr, c') ->
  send s c (encode_command <$> cs) = (s', c', Ok tt).
Proof.
  intros Hcs E Hi Hconn. unfold send_frames. rewrite encoded_not_nil by done. cbn [attempts]. rewrite Hconn.
  rewrite (exchange_batch s addr cs s' (Some i)) by done. cbn [fmap option_fmap option_map from_option].
  rewrite ack_accepted_index by (unfold_width; lia). by rewrite (proj2 (Z.ltb_lt _ _)) by lia.
Qed.

(** What the client takes for an acknowledgement is one: the last submission of
    the batch was committed at a positive index. *)
Theorem acknowledgement_sound (s s' : S) (c c' : MatcherConnection) (cs : list Command) :
  batch_ok max cs -> (forall s, exists s' r, submit s (on_wire <$> cs) = Ret (s', r) /\ forall i, r = Some i -> is_u64 i) ->
  send s c (encode_command <$> cs) = (s', c', Ok tt) ->
  exists s0 i, submit s0 (on_wire <$> cs) = Ret (s', Some i) /\ 0 < i.
Proof.
  intros Hcs Htot. unfold send_frames. rewrite encoded_not_nil by done. generalize 2%nat. intros n. revert s c.
  induction n as [|n IH]; intros s c; cbn [attempts]; [done|].
  destruct (match stream c with Some a => Ok (a, c) | None => connect is_leader reachable s c end) as [[addr c1]|]; [|done].
  destruct (Htot s) as (s1 & r & E & Hr). rewrite (exchange_batch s addr cs s1 r) by done.
  destruct r as [i|]; cbn [fmap option_fmap option_map from_option]; [|apply IH].
  rewrite ack_accepted_index by by apply Hr. destruct (Z.ltb_spec 0 i); [|apply IH].
  intros [= <- <-]. by exists s, i.
Qed.

End round_trip.

(** The standalone server acknowledges every batch with index 0, which the
    client takes for a failure: it sends the batch a second time, and reports an
    error although both copies were handed to the matching queues. *)
Theorem standalone_ack_refused (is_leader reachable : list Command -> string -> bool) (s : list Command)
    (addr : string) (cs : list Command) :
  batch_ok 0 cs -> (forall s, reachable s addr = true) ->
  let dispatch s c := Ret (s ++ [c]) in
  exists c', send_frames is_leader reachable (server_exchange (submit_standalone dispatch) 0) s
      (mkConnection [mkTarget addr None] None None) (encode_command <$> cs) =
    (s ++ (on_wire <$> cs) ++ (on_wire <$> cs), c',
     Err "Raft leader connection failed before quorum commit acknowledgement").
Proof.
  intros Hcs Hr dispatch.
  assert (Hs : forall s, submit_standalone dispatch s (on_wire <$> cs) = Ret (s ++ (on_wire <$> cs), Some 0)).
  { intros s0. unfold submit_standalone. assert (forall l s0, ofold dispatch s0 l = Ret (s0 ++ l)) as ->; [|done].
    induction l as [|c l IH]; intros s1; cbn [ofold]; [by rewrite app_nil_r|]. cbn [obind dispatch].
    rewrite IH. by rewrite <-(assoc_L (++)). }
  unfold send_frames. rewrite (encoded_not_nil 0) by done. eexists. cbn [attempts stream].
  unfold connect at 1, usable. cbn [list_find targets metrics_addr order_addr]. rewrite Hr. cbn [andb].
  rewrite decide_True by done. rewrite (exchange_batch _ _ _ _ _ _ _ Hcs (Hs s)). cbn [fmap option_fmap option_map from_option].
  rewrite ack_accepted_index by (unfold_width; lia). cbn [Z.ltb Z.compare stream targets].
  unfold connect, usable. cbn [list_find targets metrics_addr order_addr]. rewrite Hr. cbn [andb].
  rewrite decide_True by done. rewrite (exchange_batch _ _ _ _ _ _ _ Hcs (Hs _)). cbn [fmap option_fmap option_map from_option].
  rewrite ack_accepted_index by (unfold_width; lia). cbn [Z.ltb Z.compare]. by rewrite <-(assoc_L (++)).
Qed.

(** The limit of the acknowledged intake is on the size of one request, not on a
    rate: with a limit of one command a second, any number of requests of one
    command each is served, one after the other. *)
Theorem ack_limit_is_per_request (n : nat) (c : Command) : flat_ok c ->
  serve_acknowledged (fun s cs => Ret (s ++ cs, Some 7)) 1 (fun _ => true) (fun _ => None) []
    (concat (batch_request <$> replicate n [c])) Closed =
  Ret (replicate n (on_wire c), concat (replicate n (ack_bytes 7)), Ok tt).
Proof.
  intros Hc. unfold serve_acknowledged. set (input := concat _).
  assert (Hcom : forall n s, committed (fun s cs => Ret (s ++ cs, Some 7)) s (replicate n [c])
    (s ++ replicate n (on_wire c)) (replicate n 7)).
  { clear n input. induction n as [|n IH]; intros s; cbn [replicate]; [rewrite app_nil_r; constructor|].
    econstructor; [reflexivity|]. specialize (IH (s ++ [on_wire c])). by rewrite <-(assoc_L (++)) in IH. }
  pose proof (requests_length (replicate n [c])) as Hl. fold input in Hl. rewrite length_replicate in Hl.
  rewrite <-(app_nil_r input) at 2.
  replace (Datatypes.S (length input)) with (length (replicate n [c]) + Datatypes.S (length input - n))%nat
    by (rewrite length_replicate; lia).
  unfold input. rewrite (loop_committed _ 1 _ _ ltac:(done) ltac:(done) [] (replicate n [c]) (replicate n (on_wire c)) (replicate n 7)).
  - cbn [read_loop_ack read_request length Nat.ltb Nat.leb app]. by rewrite fmap_replicate.
  - exact (Hcom n []).
  - apply Forall_replicate. split; [cbn; lia|]. split; [cbn; lia|]. by constructor.
Qed.

(** A single frame is a request of its own: no command's frame starts with the
    batch marker. *)
Theorem single_frame_request (c : Command) (rest : bytes) (e : Ending) : flat_ok c ->
  read_request (encode_command c ++ rest) e = Ok (Some (encode_command c, rest)) /\
  mapM decode_frame (whole MSG_LEN (encode_command c)) = Some [on_wire c].
Proof.
  intros Hc. pose proof (length_encode_command c) as Hl. split.
  - unfold read_request. rewrite (proj2 (Nat.ltb_ge _ _)) by (rewrite length_app; lia).
    rewrite take_app_le, drop_app_le by lia. rewrite bool_decide_false.
    + rewrite read_exact_app by (rewrite length_drop; lia). cbn [try_bind fst snd]. by rewrite take_drop.
    + intros E. apply (f_equal (byte_at 0)) in E. unfold byte_at in E. rewrite lookup_take_lt in E by lia.
      destruct c as [| | | | | | | |]; try done.
  - destruct (whole_batch [encode_command c]) as [E _]; [by constructor|]. cbn [concat] in E. rewrite app_nil_r in E.
    rewrite E. cbn. by rewrite decode_frame_encode.
Qed.

(** ** The report feed *)

(** The reports polled until the feed stops: at the first empty poll after
    [running] was cleared. *)
Fixpoint drained (turns : list (list (list ExecReport) * bool)) : list ExecReport :=
  match turns with
  | [] => []
  | (queues, running) :: turns =>
      if bool_decide (poll queues = []) then if (running : bool) then drained turns else []
      else poll queues ++ drained turns
  end.

Lemma report_bytes_nil rs : bool_decide (report_bytes rs = []) = bool_decide (rs = []).
Proof.
  destruct rs as [|r rs]; [done|]. rewrite !bool_decide_false; [done|done|]. intros E.
  apply (f_equal length) in E. unfold report_bytes in E. cbn [fmap list_fmap concat] in E.
  rewrite length_app, length_encode_report in E. cbn in E. lia.
Qed.

Lemma report_bytes_app rs rs' : report_bytes (rs ++ rs') = report_bytes rs ++ report_bytes rs'.
Proof. unfold report_bytes. by rewrite fmap_app, concat_app. Qed.

Lemma writer_stream turns got fanout :
  (report_writer turns (mkPeer got []) fanout).1 = mkPeer (got ++ report_bytes (drained turns)) [].
Proof.
  revert got fanout. induction turns as [|[queues running] turns IH]; intros got fanout; cbn [report_writer drained].
  { cbn. by rewrite app_nil_r. }
  rewrite report_bytes_nil. case_bool_decide; [destruct running; [apply IH|cbn; by rewrite app_nil_r]|].
  cbn [write_all peer_answers peer_got]. by rewrite IH, report_bytes_app, (assoc_L (++)).
Qed.

Lemma drain_spec turns fanout : (report_fanout_drain turns fanout).1 = drained turns /\
  forall subs, (report_fanout_drain turns fanout).2 = Some subs -> exists subs0, fanout = Some subs0 /\
    forall p, p ∈ subs -> exists q, q ∈ subs0 /\ peer_got p = peer_got q ++ report_bytes (drained turns).
Proof.
  revert fanout. induction turns as [|[queues running] turns IH]; intros fanout; cbn [report_fanout_drain drained].
  { split; [done|]. intros subs E. exists subs. split; [done|]. intros p Hp. exists p. split; [done|].
    cbn. by rewrite app_nil_r. }
  rewrite report_bytes_nil. case_bool_decide.
  - destruct running; [apply IH|]. split; [done|]. intros subs E. exists subs. split; [done|].
    intros p Hp. exists p. split; [done|]. cbn. by rewrite app_nil_r.
  - destruct (IH (broadcast (report_bytes (poll queues)) <$> fanout)) as [H1 H2]. cbn [fst snd]. rewrite H1.
    split; [done|]. intros subs E. destruct (H2 subs E) as (subs1 & Ef & Hp).
    destruct fanout as [subs0|]; [|done]. cbn in Ef. injection Ef as <-. exists subs0. split; [done|].
    intros p Hin. destruct (Hp p Hin) as (q & Hq & Eq). apply broadcast_got in Hq as (q0 & Hq0 & Eq0).
    exists q0. split; [done|]. by rewrite Eq, Eq0, report_bytes_app, (assoc_L (++)).
Qed.

(** The report feed delivers every report that was polled, in order: the peer
    that never fails a write receives their frames and nothing else, and cutting
    them at the frame length and decoding gives back each report's fields; the
    committed runtime's callback sees the same reports, and each subscriber
    still attached at the end received the same bytes. *)
Theorem report_feed_exact (turns : list (list (list ExecReport) * bool)) (got : bytes) (fanout : option (list Peer)) :
  Forall report_ok (drained turns) ->
  peer_got (report_writer turns (mkPeer got []) fanout).1 = got ++ report_bytes (drained turns) /\
  decode_report <$> whole REPORT_LEN (report_bytes (drained turns)) = Some ∘ fields <$> drained turns /\
  (report_fanout_drain turns fanout).1 = drained turns /\
  forall subs p, (report_fanout_drain turns fanout).2 = Some subs -> p ∈ subs ->
    exists q, q ∈ default [] fanout /\ peer_got p = peer_got q ++ report_bytes (drained turns).
Proof.
  intros Hok. rewrite writer_stream. cbn [peer_got]. destruct (drain_spec turns fanout) as [-> Hs]. split_and!; [done| |done|].
  - rewrite <-(app_nil_r (report_bytes _)). unfold report_bytes.
    destruct (whole_frames REPORT_LEN ltac:(lia) (encode_report <$> drained turns) []) as [-> _];
      [apply Forall_fmap, Forall_true; intros r; apply length_encode_report|cbn; lia|].
    rewrite <-list_fmap_compose. apply list_fmap_ext. intros i r Hr. cbn.
    apply decode_report_encode. by apply (Forall_lookup_1 _ _ _ _ Hok Hr).
  - intros subs p E Hp. destruct (Hs subs E) as (subs0 & -> & H). by apply H.
Qed.
