(* ===== verification/AssetLog.v ===== *)
(** * Per-asset command logs

    [src/src/asset_log.rs]: the set of write-ahead logs with its cache of open
    writers, the verification of a log and its replay; the application proofs of
    the same file are in [Applied].  The directory maps an instrument to the
    contents of its file; a file with an open writer is held by the writer.
    [wo] is the iteration order of the writer cache.  The durability barrier is
    the Linux one, [syncfs], which covers every file of the directory.  The
    environment variables that size the cache and the buffers are arguments. *)

From S2P Require Import Prelude Types Strategy Book Engine Protocol Bytes Wire Journal Applied Snapshot.
From S2P Require Import Processor ProcessorProps Recovery.
Import Processor.

Record CachedWriter := mkCached {
  writer : JournalWriter.JournalWriter;
  last_access : Z
}.

Record AssetJournalSet := mkSet {
  root : gmap Z bytes;                 (* the files without an open writer *)
  writers : gmap Z CachedWriter;
  max_open_writers : Z;
  writer_buffer_bytes : nat;
  access_clock : Z
}.

(** [last_seq]: the number of the last record of a file. *)
Definition last_seq (contents : bytes) : io_result Z :=
  let? recs := JournalReader.read contents in Ok (from_option r_seq 0 (last recs)).

Module AssetJournalSet.

Definition open (root : gmap Z bytes) (max_open : option Z) (buffer : option nat) : AssetJournalSet :=
  mkSet root ∅ (Z.max (default 1024 max_open) RAFT_BATCH_MAX_COMMANDS) (default 8192%nat buffer) 0.

Section cache.
Context (wo : gmap Z CachedWriter -> list (Z * CachedWriter)).

(** [min_by_key]: the first of the least recently used writers. *)
Definition older (best : option (Z * CachedWriter)) (x : Z * CachedWriter) : option (Z * CachedWriter) :=
  match best with
  | Some b => if last_access x.2 <? last_access b.2 then Some x else Some b
  | None => Some x
  end.

Definition victim (ws : gmap Z CachedWriter) : option Z := fst <$> foldl older None (wo ws).

(** The eviction of [writer_for]. *)
Definition evict (s : AssetJournalSet) : outcome AssetJournalSet :=
  if max_open_writers s <=? Z.of_nat (size (writers s)) then
    let! v := expect (victim (writers s)) "non-empty writer cache" in
    let! c := expect (writers s !! v) "victim exists" in
    Ret (mkSet (<[v := JournalWriter.file (JournalWriter.flush (writer c))]> (root s)) (delete v (writers s))
           (max_open_writers s) (writer_buffer_bytes s) (access_clock s))
  else Ret s.

(** [writer_for]: afterwards the instrument's writer is in the cache. *)
Definition writer_for (s : AssetJournalSet) (i : InstrumentId) : outcome (AssetJournalSet * io_result unit) :=
  let access := wrap64 (access_clock s + 1) in
  let s := mkSet (root s) (writers s) (max_open_writers s) (writer_buffer_bytes s) access in
  let put s w := mkSet (root s) (<[i := mkCached w access]> (writers s)) (max_open_writers s) (writer_buffer_bytes s) access in
  match writers s !! i with
  | Some cached => Ret (put s (writer cached), Ok tt)
  | None =>
      let! s := evict s in
      match JournalWriter.open_with_capacity (default [] (root s !! i)) (writer_buffer_bytes s) with
      | Err why => Ret (s, Err why)
      | Ok w =>
          match last_seq (JournalWriter.file w) with
          | Err why => Ret (s, Err why)
          | Ok n => Ret (put s (JournalWriter.resume_from w n), Ok tt)
          end
      end
  end.

(** Run an operation of an open writer. *)
Definition with_writer {A : Type} (s : AssetJournalSet) (i : InstrumentId) (why : string)
    (f : JournalWriter.JournalWriter -> JournalWriter.JournalWriter * A) : outcome (AssetJournalSet * A) :=
  let! c := expect (writers s !! i) why in
  let r := f (writer c) in
  Ret (mkSet (root s) (<[i := mkCached r.1 (last_access c)]> (writers s)) (max_open_writers s) (writer_buffer_bytes s)
         (access_clock s), r.2).

Definition cross_asset (c : Command) : bool :=
  match c with
  | CBatch cs => existsb (fun x => negb (Command.instrument x =? Command.instrument c)) cs
  | _ => false
  end.

(** [append] at time [ts]; [due] says that the flush interval has passed. *)
Definition append (s : AssetJournalSet) (ts : Z) (due : bool) (c : Command) : outcome (AssetJournalSet * io_result Z) :=
  let i := Command.instrument c in
  if cross_asset c then Ret (s, Err "per-asset log cannot contain a cross-asset batch")
  else
    let! r := writer_for s i in
    match r.2 with
    | Err why => Ret (r.1, Err why)
    | Ok _ =>
        let! x := with_writer r.1 i "writer exists" (fun w => JournalWriter.append w ts (encode_command c) due) in
        Ret (x.1, Ok x.2)
    end.

Definition flush_all (s : AssetJournalSet) : AssetJournalSet :=
  mkSet (root s) ((fun c => mkCached (JournalWriter.flush (writer c)) (last_access c)) <$> writers s)
    (max_open_writers s) (writer_buffer_bytes s) (access_clock s).

Definition append_committed (s : AssetJournalSet) (ts : Z) (due : bool) (c : Command)
    : outcome (AssetJournalSet * io_result Z) :=
  let! r := append s ts due c in
  match r.2 with
  | Err why => Ret (r.1, Err why)
  | Ok seq =>
      let! x := with_writer r.1 (Command.instrument c) "writer opened by append" (fun w => (JournalWriter.sync_data w, tt)) in
      Ret (x.1, Ok seq)
  end.

(** The two loops of [append_committed_batch]; each command comes with its time
    and flush test. *)
Fixpoint append_each (s : AssetJournalSet) (touched : list Z) (cs : list (Z * bool * Command))
    : outcome (AssetJournalSet * io_result (list Z)) :=
  match cs with
  | [] => Ret (s, Ok touched)
  | (ts, due, c) :: cs =>
      let! r := append s ts due c in
      match r.2 with
      | Err why => Ret (r.1, Err why)
      | Ok _ =>
          let i := Command.instrument c in
          append_each r.1 (if bool_decide (i ∈ touched) then touched else touched ++ [i]) cs
      end
  end.

Definition flush_touched (s : AssetJournalSet) (i : InstrumentId) : outcome AssetJournalSet :=
  let! x := with_writer s i "writer opened by batch append" (fun w => (JournalWriter.flush w, tt)) in Ret x.1.

Definition append_committed_batch (s : AssetJournalSet) (cs : list (Z * bool * Command))
    : outcome (AssetJournalSet * io_result (list Z)) :=
  let! r := append_each s [] cs in
  match r.2 with
  | Err why => Ret (r.1, Err why)
  | Ok touched => let! s := ofold flush_touched r.1 touched in Ret (s, Ok touched)
  end.

(** [syncfs] through the first touched writer. *)
Definition sync_committed_batch (s : AssetJournalSet) (touched : list Z) : outcome AssetJournalSet :=
  match touched with
  | [] => Ret s
  | i :: _ =>
      let! _ := expect (writers s !! i) "writer opened by batch append" in
      Ret (mkSet (root s) ((fun c => mkCached (JournalWriter.fsync (writer c)) (last_access c)) <$> writers s)
             (max_open_writers s) (writer_buffer_bytes s) (access_clock s))
  end.

End cache.
End AssetJournalSet.

(** ** Verification and replay of a log *)
Record AssetLogMeta := mkMeta {
  m_instrument : InstrumentId;
  m_records : Z;
  m_last_seq : Z;
  m_fingerprint : Z
}.

Definition record_hash (previous seq ts_nanos : Z) (frame : bytes) : Z :=
  fnv1a (le_bytes 8 previous ++ le_bytes 8 seq ++ le_bytes 8 ts_nanos ++ frame).

(** One turn of [inspect]'s loop: the number of records so far and their hash. *)
Definition inspect_record (i : InstrumentId) (st : Z * Z) (r : JRecord) : io_result (Z * Z) :=
  let '(records, fingerprint) := st in
  if negb (r_seq r =? wrap64 (records + 1)) then Err "asset log sequence gap"
  else
    match WireView.parse (r_frame r) with
    | None => Err "asset log contains invalid frame"
    | Some view =>
        match WireView.to_command view with
        | None => Err "asset log contains unknown command"
        | Some command =>
            if negb (Command.instrument command =? i) then Err "asset log contains another instrument"
            else Ok (wrap64 (records + 1), record_hash fingerprint (r_seq r) (r_ts_nanos r) (r_frame r))
        end
    end.

Fixpoint inspect_records (i : InstrumentId) (st : Z * Z) (recs : list JRecord) : io_result (Z * Z) :=
  match recs with
  | [] => Ok st
  | r :: recs => let? st := inspect_record i st r in inspect_records i st recs
  end.

Definition inspect (contents : bytes) (i : InstrumentId) : io_result AssetLogMeta :=
  let? recs := JournalReader.read contents in
  let? st := inspect_records i (0, 14695981039346656037) recs in
  Ok (mkMeta i st.1 st.1 st.2).

Definition conflicting_wal : string := "command id has conflicting asset WAL payloads".

Section replay.
Context (ho : OrderBook -> list (Z * nat)).

(** The body of the replay loops: the processor, the reports and the frames seen. *)
Definition replay_asset_record (st : Processor * list ExecReport * gmap Z bytes) (r : JRecord)
    : outcome (io_result (Processor * list ExecReport * gmap Z bytes)) :=
  let '(p, reports, seen) := st in
  match decode_frame (r_frame r) with
  | None => Ret (Err "invalid asset command")
  | Some c =>
      match accept_replay_command conflicting_wal seen c (r_frame r) with
      | Err why => Ret (Err why)
      | Ok (seen, false) => Ret (Ok (p, reports, seen))
      | Ok (seen, true) => let! x := process ho p c in Ret (Ok (x.1, reports ++ x.2, seen))
      end
  end.

(** [replay_into]: the records after [after_seq], reports dropped. *)
Definition replay_into (contents : bytes) (i : InstrumentId) (after_seq : Z) (p : Processor)
    : outcome (io_result (Processor * AssetLogMeta)) :=
  match inspect contents i, JournalReader.read contents with
  | Err why, _ | _, Err why => Ret (Err why)
  | Ok meta, Ok recs =>
      let! r := try_fold replay_asset_record (p, [], ∅) (filter (fun r => after_seq < r_seq r) recs) in
      Ret (let? st := r in Ok (st.1.1, meta))
  end.

Definition replay_fresh (contents : bytes) (i : InstrumentId) (strategy : MatchingStrategy)
    : outcome (io_result (Processor * AssetLogMeta)) :=
  replay_into contents i 0 (Processor.new strategy None).

Record AssetReplaySummary := mkAssetSummary {
  ar_meta : AssetLogMeta;
  ar_reports : list ExecReport;
  ar_fingerprint : Z;
  ar_processor : Processor
}.

Definition replay_with_reports (contents : bytes) (i : InstrumentId) (strategy : MatchingStrategy)
    : outcome (io_result AssetReplaySummary) :=
  match JournalReader.read contents with
  | Err why => Ret (Err why)
  | Ok recs =>
      let! r := try_fold replay_asset_record (Processor.new strategy None, [], ∅) recs in
      Ret (let? st := r in
           let? meta := inspect contents i in
           Ok (mkAssetSummary meta st.1.2 (fnv1a (concat (encode_report <$> st.1.2))) st.1.1))
  end.

End replay.

(** [recovered_command_fingerprints]: the shards' snapshot and journal files, and
    the contents of the asset logs in directory order. *)
Definition recovered_head (shard : option bytes * option bytes) : outcome (io_result Z) :=
  let! s :=
    match shard.1 with
    | None => Ret (Ok 0)
    | Some b => let! s := load b in Ret (let? snap := s in Ok (journal_seq snap))
    end in
  Ret (let? snapshot_seq := s in
       let? journal_seq := match shard.2 with None => Ok 0 | Some j => last_seq j end in
       Ok (Z.max snapshot_seq journal_seq)).

Definition fingerprint_record (wanted : gset Z) (st : Z * gmap Z Z) (r : JRecord) : io_result (Z * gmap Z Z) :=
  let n := saturating_add U64_MAX st.1 1 in
  match decode_frame (r_frame r) with
  | None => Err "asset WAL contains an invalid command"
  | Some c =>
      let id := Command.id c in
      if (id =? 0) || negb (bool_decide (id ∈ wanted)) then Ok (n, st.2)
      else
        let fingerprint := fnv1a (r_frame r) in
        match st.2 !! id with
        | Some previous => if previous =? fingerprint then Ok (n, <[id := fingerprint]> st.2) else Err conflicting_wal
        | None => Ok (n, <[id := fingerprint]> st.2)
        end
  end.

Fixpoint fingerprint_records (wanted : gset Z) (st : Z * gmap Z Z) (recs : list JRecord) : io_result (Z * gmap Z Z) :=
  match recs with
  | [] => Ok st
  | r :: recs => let? st := fingerprint_record wanted st r in fingerprint_records wanted st recs
  end.

Fixpoint fingerprint_wals (wanted : gset Z) (st : Z * gmap Z Z) (wals : list bytes) : io_result (Z * gmap Z Z) :=
  match wals with
  | [] => Ok st
  | w :: wals =>
      let? recs := JournalReader.read w in
      let? st := fingerprint_records wanted st recs in fingerprint_wals wanted st wals
  end.

Definition recovered_command_fingerprints (shards : list (option bytes * option bytes)) (wals : list bytes) (wanted : gset Z)
    : outcome (io_result (option (gmap Z Z))) :=
  let! heads := try_fold (fun n shard =>
    let! r := recovered_head shard in Ret (let? k := r in Ok (saturating_add U64_MAX n k))) 0 shards in
  Ret (let? recovered_records := heads in
       let? st := fingerprint_wals wanted (0, ∅) wals in
       Ok (if st.1 =? recovered_records then Some st.2 else None)).

(** ** The cache of writers is transparent *)
Definition count_up (recs : list JRecord) : Prop := forall k r, recs !! k = Some r -> r_seq r = Z.of_nat k + 1.

(** The set holds, for every instrument, a log with the given records: in its
    open writer, or in its file. *)
Record set_ok (s : AssetJournalSet) (logs : Z -> list JRecord) : Prop := {
  ok_open : forall i c, writers s !! i = Some c ->
    journal_holds (writer c) (logs i) /\ JournalWriter.seq (writer c) = Z.of_nat (length (logs i));
  ok_closed : forall i, writers s !! i = None ->
    match root s !! i with Some f => f = journal_file (logs i) | None => logs i = [] end;
  ok_records : forall i, Forall record_ok (logs i) /\ count_up (logs i);
  ok_access : forall i c, writers s !! i = Some c -> last_access c <= access_clock s;
  ok_clock : 0 <= access_clock s;
  ok_size : Z.of_nat (size (writers s)) <= max_open_writers s;
  ok_max : RAFT_BATCH_MAX_COMMANDS <= max_open_writers s
}.

Lemma open_ok files max_open buffer logs :
  (forall i, match files !! i with Some f => f = journal_file (logs i) | None => logs i = [] end) ->
  (forall i, Forall record_ok (logs i) /\ count_up (logs i)) -> set_ok (AssetJournalSet.open files max_open buffer) logs.
Proof.
  intros Hr Hl. split; unfold AssetJournalSet.open; cbn [writers max_open_writers access_clock root].
  - intros i c. by rewrite lookup_empty.
  - intros i _. apply Hr.
  - done.
  - intros i c. by rewrite lookup_empty.
  - done.
  - rewrite map_size_empty. lia.
  - lia.
Qed.

Lemma set_ok_ext s logs logs' : (forall j, logs j = logs' j) -> set_ok s logs -> set_ok s logs'.
Proof. intros E [Q1 Q2 Q3 Q4 Q5 Q6 Q7]. split; try done; intros j; rewrite <-E; [apply Q1|apply Q2|apply Q3]. Qed.

Lemma count_up_u64 recs : Forall record_ok recs -> count_up recs -> is_u64 (Z.of_nat (length recs)).
Proof.
  intros Hr Hc. destruct (last recs) as [r|] eqn:E; [|apply last_None in E as ->; unfold_width; cbn; lia].
  rewrite last_lookup in E. pose proof (lookup_lt_Some _ _ _ E). pose proof (Forall_lookup_1 _ _ _ _ Hr E) as (Hu & _).
  apply Hc in E. unfold_width. lia.
Qed.

Lemma last_seq_file recs : Forall record_ok recs -> count_up recs ->
  last_seq (journal_file recs) = Ok (Z.of_nat (length recs)).
Proof.
  intros Hr Hc. unfold last_seq. rewrite <-(app_nil_r (journal_file recs)), read_torn by (done || cbn; lia). cbn [try_bind]. f_equal.
  destruct (last recs) as [r|] eqn:E; cbn [from_option].
  - rewrite last_lookup in E. pose proof (lookup_lt_Some _ _ _ E). apply Hc in E. lia.
  - apply last_None in E as ->. done.
Qed.

(** The logs after a command was appended to its instrument's. *)
Abbreviation item := (Z * bool * Command)%type.

Definition extend (logs : Z -> list JRecord) (x : item) : Z -> list JRecord := fun j =>
  if decide (j = Command.instrument x.2)
  then logs j ++ [mkRec (Z.of_nat (length (logs j)) + 1) x.1.1 (encode_command x.2)] else logs j.

Definition item_ok (x : item) : Prop := is_u64 x.1.1 /\ flat_ok x.2.

Definition asset_commands (i : InstrumentId) (cs : list Command) : list Command :=
  filter (fun c => Command.instrument c = i) cs.

Lemma extend_frames xs logs i :
  r_frame <$> foldl extend logs xs i = (r_frame <$> logs i) ++ (encode_command <$> asset_commands i (snd <$> xs)).
Proof.
  revert logs. induction xs as [|[[ts due] c] xs IH]; intros logs; cbn [foldl]; [by rewrite app_nil_r|].
  rewrite IH. unfold extend, asset_commands. cbn [fst snd fmap list_fmap]. case_decide as Hi.
  - rewrite filter_cons_True, fmap_app by done. cbn [fmap list_fmap r_frame]. by rewrite <-(assoc_L (++)).
  - by rewrite filter_cons_False by congruence.
Qed.

Section cache_lemmas.
Context (wo : gmap Z CachedWriter -> list (Z * CachedWriter)) (Hwo : forall m, wo m ≡ₚ map_to_list m).
Import AssetJournalSet.

Lemma older_min l best : (best <> None \/ l <> []) ->
  exists x, foldl older best l = Some x /\ (x ∈ l \/ best = Some x) /\
    (forall y, y ∈ l \/ best = Some y -> last_access x.2 <= last_access y.2).
Proof.
  revert best. induction l as [|y l IH]; intros best Hne; cbn [foldl].
  - destruct best as [b|]; [|by destruct Hne]. exists b. split_and!; [done|by right|].
    intros y [Hy|[= ->]]; [by apply elem_of_nil in Hy|lia].
  - destruct (IH (older best y)) as (x & E & Hx & Hmin).
    { left. destruct best as [b|]; cbn; [by case_if|done]. }
    exists x. split; [done|]. unfold older in Hx, Hmin. destruct best as [b|].
    + destruct (last_access y.2 <? last_access b.2) eqn:El; zbool; split.
      * destruct Hx as [Hx|[= ->]]; left; [by right|by left].
      * intros z [Hz|[= ->]]; [apply elem_of_cons in Hz as [->|Hz]|]; [apply Hmin; by right|apply Hmin; by left|].
        pose proof (Hmin y (or_intror eq_refl)). lia.
      * destruct Hx as [Hx|Hx]; [left; by right|by right].
      * intros z [Hz|[= ->]]; [apply elem_of_cons in Hz as [->|Hz]|]; [|apply Hmin; by left|apply Hmin; by right].
        pose proof (Hmin b (or_intror eq_refl)). lia.
    + split; [left; destruct Hx as [Hx|[= ->]]; [by right|by left]|].
      intros z [Hz|Hz]; [|done]. apply elem_of_cons in Hz as [->|Hz]; [apply Hmin; by right|apply Hmin; by left].
Qed.

Lemma victim_spec ws : ws <> ∅ -> exists v c, victim wo ws = Some v /\ ws !! v = Some c /\
  forall j d, ws !! j = Some d -> last_access c <= last_access d.
Proof.
  intros Hne. assert (Hl : wo ws <> []).
  { intros E. apply Hne, map_to_list_empty_iff, Permutation_nil. rewrite <-(Hwo ws), E. done. }
  destruct (older_min (wo ws) None (or_intror Hl)) as ([v c] & E & [Hin|] & Hmin); [|done].
  exists v, c. unfold victim. rewrite E. split; [done|]. split; [by apply elem_of_map_to_list; rewrite <-(Hwo ws)|].
  intros j d Hj. apply (Hmin (j, d)). left. rewrite (Hwo ws). by apply elem_of_map_to_list.
Qed.

(** The eviction makes room and loses, if any, a least recently used writer. *)
Lemma evict_ok s logs : set_ok s logs -> exists s', evict wo s = Ret s' /\ set_ok s' logs /\
  access_clock s' = access_clock s /\ max_open_writers s' = max_open_writers s /\
  Z.of_nat (size (writers s')) < max_open_writers s' /\
  (writers s' = writers s \/ exists v c, writers s !! v = Some c /\ writers s' = delete v (writers s) /\
     max_open_writers s <= Z.of_nat (size (writers s)) /\
     forall j d, writers s !! j = Some d -> last_access c <= last_access d).
Proof.
  intros Hok. pose proof Hok as [Ho Hcl Hr Ha Hck Hs Hm]. unfold evict.
  destruct (_ <=? _) eqn:E; zbool; [|exists s; split_and!; try done; by left].
  destruct (victim_spec (writers s)) as (v & c & -> & Ec & Hmin).
  { intros E'. rewrite E', map_size_empty in *. lia. }
  cbn [expect obind]. rewrite Ec. cbn [expect obind].
  eexists. split; [reflexivity|]. cbn [access_clock max_open_writers writers].
  assert (Hsz : Z.of_nat (size (delete v (writers s))) < max_open_writers s).
  { rewrite map_size_delete_Some by by eexists. assert (size (writers s) <> 0%nat); [|lia].
    intros E0. apply map_size_empty_inv in E0. by rewrite E0, lookup_empty in Ec. }
  split_and!; try done; [|right; by exists v, c].
  split; cbn [access_clock max_open_writers writers root]; try done; [| | |lia].
  - intros i d Hd. apply lookup_delete_Some in Hd as [_ Hd]. by apply Ho.
  - intros i Hi. destruct (decide (i = v)) as [->|Hne].
    + rewrite lookup_insert_eq. destruct (Ho v c Ec) as [Hh _]. apply holds_flush in Hh as (Hw & _).
      unfold written in Hw. cbn [JournalWriter.flush JournalWriter.flush_buf JournalWriter.file JournalWriter.buf] in *.
      by rewrite app_nil_r in Hw.
    + rewrite lookup_insert_ne by done. apply Hcl. by rewrite lookup_delete_ne in Hi by done.
  - intros i d Hd. apply lookup_delete_Some in Hd as [_ Hd]. by apply Ha in Hd.
Qed.

(** Opening keeps every log; it may close one writer, the least recently used,
    when the cache is full. *)
Record opened (s s' : AssetJournalSet) (i : Z) : Prop := {
  op_clock : access_clock s' = access_clock s + 1;
  op_max : max_open_writers s' = max_open_writers s;
  op_writer : exists c, writers s' !! i = Some c /\ last_access c = access_clock s';
  op_others : forall j c, j <> i -> writers s' !! j = Some c -> writers s !! j = Some c;
  op_lost : forall j c, j <> i -> writers s !! j = Some c -> writers s' !! j = None ->
    writers s !! i = None /\ max_open_writers s <= Z.of_nat (size (writers s)) /\
    forall k d, writers s !! k = Some d -> last_access c <= last_access d
}.

Lemma set_put_ok s logs i w clock : set_ok s logs -> journal_holds w (logs i) ->
  JournalWriter.seq w = Z.of_nat (length (logs i)) -> access_clock s <= clock ->
  (is_Some (writers s !! i) \/ Z.of_nat (size (writers s)) < max_open_writers s) ->
  set_ok (mkSet (root s) (<[i := mkCached w clock]> (writers s)) (max_open_writers s) (writer_buffer_bytes s) clock) logs.
Proof.
  intros [Ho Hcl Hr Ha Hck Hs Hm] Hh Hseq Hle Hroom. split; cbn [access_clock max_open_writers writers root]; try done; [| | |lia|].
  - intros j d. rewrite lookup_insert_Some. intros [[<- <-]|[_ Hd]]; [by split|by apply Ho].
  - intros j. rewrite lookup_insert_None. intros [Hj _]. by apply Hcl.
  - intros j d. rewrite lookup_insert_Some. intros [[<- <-]|[_ Hd]]; [done|]. apply Ha in Hd. lia.
  - rewrite map_size_insert. destruct (writers s !! i) as [d|] eqn:E; cbn [is_Some] in *; [done|]. destruct Hroom as [[d Hd]|]; [done|lia].
Qed.

Lemma writer_for_ok s logs i : set_ok s logs -> access_clock s < U64_MAX ->
  exists s', writer_for wo s i = Ret (s', Ok tt) /\ set_ok s' logs /\ opened s s' i.
Proof.
  intros Hok Hlt. pose proof Hok as [Ho Hcl Hr Ha Hck Hs Hm]. unfold writer_for. cbn [writers root max_open_writers writer_buffer_bytes access_clock].
  rewrite wrap64_small by (unfold_width; lia). destruct (writers s !! i) as [c|] eqn:Ei.
  - eexists. split; [reflexivity|]. destruct (Ho i c Ei) as [Hh Hseq]. split; [apply set_put_ok; eauto; [lia]|].
    split; cbn [writers max_open_writers access_clock]; [done|done|eexists; by rewrite lookup_insert_eq|..].
    + intros j d Hj. by rewrite lookup_insert_ne by done.
    + intros j d Hj Hd. rewrite lookup_insert_ne by done. congruence.
  - set (s1 := mkSet _ _ _ _ _).
    assert (Hok1 : set_ok s1 logs) by (split; cbn; try done; [intros j d Hd; apply Ha in Hd; lia|lia]).
    destruct (evict_ok s1 logs Hok1) as (s2 & -> & Hok2 & Eck & Em & Hroom & Hw). cbn [obind].
    assert (Hi2 : writers s2 !! i = None).
    { destruct Hw as [->|(v & c & _ & -> & _)]; [done|]. apply lookup_delete_None. by right. }
    pose proof Hok2 as [_ Hcl2 Hr2 _ _ _ _]. specialize (Hcl2 i Hi2). destruct (Hr2 i) as [Hrec Hcnt].
    assert (Hopen : exists w, JournalWriter.open_with_capacity (default [] (root s2 !! i)) (writer_buffer_bytes s2) = Ok w /\
      journal_holds w (logs i) /\ JournalWriter.seq w = 0 /\ JournalWriter.file w = journal_file (logs i)).
    { destruct (root s2 !! i) as [f|]; cbn [default].
      - rewrite Hcl2. destruct (open_journal_file (logs i) (writer_buffer_bytes s2) Hrec) as (w & E & Hh & Eq).
        exists w. split_and!; try done. unfold JournalWriter.open_with_capacity in E.
        rewrite length_journal_file, (proj2 (Nat.eqb_neq _ _)), (proj2 (Nat.ltb_ge _ _)) in E by (done || lia).
        rewrite bool_decide_true in E by by unfold journal_file. by injection E as <-.
      - rewrite Hcl2. eexists. split; [reflexivity|]. by split_and!. }
    destruct Hopen as (w & -> & Hh & Eq & Ef). rewrite Ef, last_seq_file by done.
    eexists. split; [reflexivity|]. cbn [access_clock s1] in *. split.
    { apply set_put_ok; [done| | |lia|by right].
      - destruct Hh as (H1 & H2 & H3 & H4). pose proof (count_up_u64 _ Hrec Hcnt) as Hu.
        unfold journal_holds. split; [done|]. split; [done|]. split; [|done]. cbn. rewrite Eq. unfold_width. lia.
      - cbn. rewrite Eq. lia. }
    split; cbn [writers max_open_writers access_clock]; [done|done|eexists; by rewrite lookup_insert_eq|..].
    + intros j d Hj. rewrite lookup_insert_ne by done. destruct Hw as [->|(v & c & _ & -> & _)]; [done|].
      rewrite lookup_delete_Some. by intros [_ Hd].
    + intros j d Hj Hd. rewrite lookup_insert_ne by done. destruct Hw as [->|(v & c & Ec & -> & Hfull & Hmin)]; [cbn; congruence|].
      rewrite lookup_delete_None. intros [<-|Hn]; [|cbn in Hn; congruence]. cbn in *. split_and!; [done|done|].
      intros k e Hk. assert (c = d) as <- by congruence. by apply Hmin in Hk.
Qed.

Lemma with_writer_ok {A : Type} s logs i c why f (a : A) w recs : set_ok s logs -> writers s !! i = Some c ->
  f (writer c) = (w, a) -> journal_holds w recs -> JournalWriter.seq w = Z.of_nat (length recs) -> count_up recs ->
  exists s', with_writer s i why f = Ret (s', a) /\
    set_ok s' (fun j => if decide (j = i) then recs else logs j) /\
    writers s' = <[i := mkCached w (last_access c)]> (writers s) /\
    access_clock s' = access_clock s /\ max_open_writers s' = max_open_writers s.
Proof.
  intros [Ho Hcl Hr Ha Hck Hs Hm] Ei Ef Hh Hseq Hcnt. unfold with_writer. rewrite Ei. cbn [expect obind]. rewrite Ef.
  eexists. split; [reflexivity|]. split; [|done].
  split; cbn [access_clock max_open_writers writers root fst]; try done.
  - intros j d. rewrite lookup_insert_Some. intros [[<- <-]|[Hj Hd]]; [by rewrite decide_True|].
    rewrite decide_False by done. by apply Ho.
  - intros j. rewrite lookup_insert_None. intros [Hj Hne]. rewrite decide_False by done. by apply Hcl.
  - intros j. case_decide; [|apply Hr]. split; [apply Hh|done].
  - intros j d. rewrite lookup_insert_Some. intros [[<- <-]|[Hj Hd]]; [by apply (Ha _ _ Ei)|by apply (Ha _ _ Hd)].
  - by rewrite map_size_insert, Ei.
Qed.

Lemma count_up_snoc recs ts f : count_up recs -> count_up (recs ++ [mkRec (Z.of_nat (length recs) + 1) ts f]).
Proof.
  intros Hc k r Hr. apply lookup_app_Some in Hr as [Hr|[Hk Hr]]; [by apply Hc|].
  apply list_lookup_singleton_Some in Hr as [Hk' <-]. cbn. lia.
Qed.

Lemma log_append_ok s logs ts due c : set_ok s logs -> access_clock s < U64_MAX -> item_ok (ts, due, c) ->
  Z.of_nat (length (logs (Command.instrument c))) < U64_MAX ->
  exists s', append wo s ts due c = Ret (s', Ok (Z.of_nat (length (logs (Command.instrument c))) + 1)) /\
    set_ok s' (extend logs (ts, due, c)) /\ opened s s' (Command.instrument c).
Proof.
  intros Hok Hlt [Hts Hc] Hn. unfold append. assert (cross_asset c = false) as -> by by destruct c.
  set (i := Command.instrument c) in *. destruct (writer_for_ok s logs i Hok Hlt) as (s1 & -> & Hok1 & Hop).
  pose proof Hop as [Eck Em (w & Ew & Ela) Hoth Hlost]. cbn [obind fst snd].
  destruct (ok_open _ _ Hok1 i w Ew) as [Hh Hseq]. destruct (ok_records _ _ Hok1 i) as [Hrec Hcnt].
  pose proof (holds_append (writer w) (logs i) ts (encode_command c) due Hh Hts (length_encode_command c)) as Hh'.
  pose proof (grows_append (writer w) ts (encode_command c) due) as Hg.
  destruct (JournalWriter.append _ _ _ _) as [w' n] eqn:Ea. destruct Hg as (_ & _ & Es & Eq).
  rewrite Hseq, wrap64_small in Es by (unfold_width; lia). subst n.
  destruct (with_writer_ok s1 logs i w "writer exists" (fun w => JournalWriter.append w ts (encode_command c) due)
    (Z.of_nat (length (logs i)) + 1) w' (logs i ++ [mkRec (Z.of_nat (length (logs i)) + 1) ts (encode_command c)]))
    as (s2 & -> & Hok2 & Ews & Eck2 & Em2); try done.
  { rewrite length_app. cbn. lia. }
  { by apply count_up_snoc. }
  cbn [obind fst snd]. eexists. split; [reflexivity|]. split.
  - eapply set_ok_ext; [|exact Hok2]. intros j. unfold extend. cbn [fst snd]. fold i. by case_decide as Hj; [subst j|].
  - split; rewrite ?Eck2, ?Em2, ?Ews; [done|done|exists (mkCached w' (last_access w)); by rewrite lookup_insert_eq|..].
    + intros j d Hj. rewrite lookup_insert_ne by done. by apply Hoth.
    + intros j d Hj Hd. rewrite lookup_insert_ne by done. by apply Hlost.
Qed.

(** ** Batches

    During a batch the writers of the instruments it has touched are exactly
    those used since it began. *)
Definition batch_inv (clock0 : Z) (s : AssetJournalSet) (touched : list Z) : Prop :=
  NoDup touched /\ (forall j, j ∈ touched -> exists c, writers s !! j = Some c /\ clock0 < last_access c) /\
  (forall j c, writers s !! j = Some c -> clock0 < last_access c -> j ∈ touched).

Lemma batch_step clock0 s s' i touched : batch_inv clock0 s touched -> opened s s' i -> clock0 <= access_clock s ->
  (i ∉ touched -> Z.of_nat (length touched) < max_open_writers s) ->
  batch_inv clock0 s' (if bool_decide (i ∈ touched) then touched else touched ++ [i]).
Proof.
  intros (Hnd & Hin & Hall) [Eck Em (w & Ew & Ela) Hoth Hlost] Hle Hroom.
  assert (Hkeep : forall j, j ∈ touched -> j <> i -> exists c, writers s' !! j = Some c /\ clock0 < last_access c).
  { intros j Hj Hne. destruct (Hin j Hj) as (c & Ec & Hc). destruct (writers s' !! j) as [d|] eqn:Ed.
    { exists d. split; [done|]. apply Hoth in Ed; [|done]. congruence. }
    exfalso. destruct (Hlost j c Hne Ec Ed) as (Hi & Hfull & Hmin).
    assert (Hni : i ∉ touched) by (intros Hit; destruct (Hin i Hit) as (x & Ex & _); congruence).
    specialize (Hroom Hni). assert (Hsub : dom (writers s) ⊆ (list_to_set touched : gset Z)).
    { intros k Hk. apply elem_of_dom in Hk as [d Hd]. apply elem_of_list_to_set, (Hall k d Hd).
      specialize (Hmin k d Hd). lia. }
    apply subseteq_size in Hsub. rewrite size_dom, size_list_to_set in Hsub by done. lia. }
  case_bool_decide as Hit.
  - split_and!; [done| |].
    + intros j Hj. destruct (decide (j = i)) as [->|Hne]; [exists w; split; [done|lia]|by apply Hkeep].
    + intros j c Hc Hlt. destruct (decide (j = i)) as [->|Hne]; [done|]. eapply Hall; [by apply Hoth|done].
  - split_and!.
    + apply NoDup_app. split_and!; [done| |apply NoDup_singleton]. intros j Hj ->%list_elem_of_singleton. done.
    + intros j Hj. apply elem_of_app in Hj as [Hj|Hj%list_elem_of_singleton]; [|subst j; exists w; split; [done|lia]].
      apply Hkeep; [done|]. by intros ->.
    + intros j c Hc Hlt. apply elem_of_app. destruct (decide (j = i)) as [->|Hne]; [right; by left|].
      left. eapply Hall; [by apply Hoth|done].
Qed.

Lemma append_each_ok clock0 xs s logs touched : set_ok s logs -> batch_inv clock0 s touched -> Forall item_ok xs ->
  (forall i, Z.of_nat (length (logs i)) + Z.of_nat (length xs) <= U64_MAX) -> clock0 <= access_clock s ->
  access_clock s + Z.of_nat (length xs) <= U64_MAX ->
  Z.of_nat (length touched) + Z.of_nat (length xs) <= max_open_writers s ->
  exists s' touched', append_each wo s touched xs = Ret (s', Ok touched') /\ set_ok s' (foldl extend logs xs) /\
    batch_inv clock0 s' touched' /\ (forall i, i ∈ touched' <-> i ∈ touched \/ i ∈ Command.instrument <$> (snd <$> xs)).
Proof.
  revert s logs touched. induction xs as [|[[ts due] c] xs IH]; intros s logs touched Hok Hb Hx Hlen Hck Hclock Hroom.
  { exists s, touched. split_and!; [done|done|done|]. intros i. rewrite elem_of_nil. tauto. }
  apply Forall_cons in Hx as [Hc Hx]. cbn [length] in *. set (i := Command.instrument c).
  destruct (log_append_ok s logs ts due c Hok) as (s1 & E & Hok1 & Hop); [lia|done|specialize (Hlen (Command.instrument c)); lia|].
  pose proof (batch_step clock0 s s1 i touched Hb Hop Hck ltac:(lia)) as Hb1.
  cbn [append_each]. rewrite E. cbn [obind fst snd]. fold i.
  destruct (IH s1 (extend logs (ts, due, c)) (if bool_decide (i ∈ touched) then touched else touched ++ [i]))
    as (s' & t' & E' & Hok' & Hb' & Ht'); try done.
  - intros j. unfold extend. specialize (Hlen j). destruct (decide (j = Command.instrument (ts, due, c).2)); [rewrite length_app; cbn [length]|]; lia.
  - rewrite (op_clock _ _ _ Hop). lia.
  - rewrite (op_clock _ _ _ Hop). lia.
  - rewrite (op_max _ _ _ Hop). case_bool_decide; [|rewrite length_app; cbn [length]]; lia.
  - exists s', t'. split_and!; [done|done|done|]. intros j. rewrite Ht'. cbn [fmap list_fmap snd]. rewrite elem_of_cons. fold i.
    case_bool_decide; rewrite ?elem_of_app, ?list_elem_of_singleton; naive_solver.
Qed.

Lemma flush_each l s logs : set_ok s logs -> (forall j, j ∈ l -> is_Some (writers s !! j)) ->
  exists s', ofold flush_touched s l = Ret s' /\ set_ok s' logs /\
    forall j, is_Some (writers s !! j) -> exists c, writers s' !! j = Some c /\
      (j ∈ l \/ (exists c0, writers s !! j = Some c0 /\ JournalWriter.buf (writer c0) = []) -> JournalWriter.buf (writer c) = []).
Proof.
  revert s. induction l as [|i l IH]; intros s Hok Hin; cbn [ofold].
  { exists s. split_and!; [done|done|]. intros j [c Hc]. exists c. split; [done|].
    intros [Hj|(c0 & E & Hb)]; [by apply elem_of_nil in Hj|congruence]. }
  destruct (Hin i ltac:(by left)) as [c Ec]. destruct (ok_open _ _ Hok i c Ec) as [Hh Hseq].
  destruct (with_writer_ok s logs i c "writer opened by batch append" (fun w => (JournalWriter.flush w, tt)) tt
    (JournalWriter.flush (writer c)) (logs i)) as (s1 & E & Hok1 & Ews & _); [done|done|done|by apply holds_flush|done|apply Hok|].
  unfold flush_touched at 1. rewrite E. cbn [obind fst].
  destruct (IH s1) as (s' & E' & Hok' & Hb').
  - eapply set_ok_ext; [|exact Hok1]. intros j. cbn beta. by case_decide as Hj; [subst j|].
  - intros j Hj. rewrite Ews, lookup_insert_is_Some'. right. apply Hin. by right.
  - exists s'. split_and!; [done|done|]. intros j Hj. destruct (Hb' j) as (d & Ed & Hd).
    { rewrite Ews, lookup_insert_is_Some'. by right. }
    exists d. split; [done|]. rewrite Ews in Hd. intros Hor. apply Hd. destruct (decide (i = j)) as [->|Hne].
    + right. eexists. by rewrite lookup_insert_eq.
    + destruct Hor as [Hjl|(c0 & E0 & Hb0)]; [apply elem_of_cons in Hjl as [->|Hjl]; [done|by left]|].
      right. exists c0. by rewrite lookup_insert_ne by done.
Qed.

Lemma set_sync_ok s logs i touched : set_ok s logs -> is_Some (writers s !! i) ->
  exists s', sync_committed_batch s (i :: touched) = Ret s' /\ set_ok s' logs /\
    writers s' = (fun c => mkCached (JournalWriter.fsync (writer c)) (last_access c)) <$> writers s.
Proof.
  intros [Ho Hcl Hr Ha Hck Hs Hm] [c Ec]. unfold sync_committed_batch. rewrite Ec. cbn [expect obind].
  eexists. split; [reflexivity|]. split; [|done]. split; cbn [access_clock max_open_writers writers root]; try done.
  - intros j d. rewrite lookup_fmap_Some. intros (e & <- & He). destruct (Ho j e He) as [Hh Hseq]. split; [by apply holds_fsync|done].
  - intros j. rewrite lookup_fmap, fmap_None. apply Hcl.
  - intros j d. rewrite lookup_fmap_Some. intros (e & <- & He). by apply (Ha j e He).
  - by rewrite map_size_fmap.
Qed.

Lemma flush_all_ok s logs : set_ok s logs -> set_ok (flush_all s) logs.
Proof.
  intros [Ho Hcl Hr Ha Hck Hs Hm]. split; unfold flush_all; cbn [access_clock max_open_writers writers root]; try done.
  - intros j d. rewrite lookup_fmap_Some. intros (e & <- & He). destruct (Ho j e He) as [Hh Hseq]. split; [by apply holds_flush|done].
  - intros j. rewrite lookup_fmap, fmap_None. apply Hcl.
  - intros j d. rewrite lookup_fmap_Some. intros (e & <- & He). by apply (Ha j e He).
  - by rewrite map_size_fmap.
Qed.

(** A writer whose buffer is empty and whose file is synced survives a crash whole. *)
Lemma synced_image w recs img : journal_holds w recs -> JournalWriter.buf w = [] ->
  crash_image (JournalWriter.fsync w) img -> JournalReader.read img = Ok recs.
Proof.
  intros Hh Hb Hc. apply (synced_read w recs img Hh). unfold crash_image in *. cbn in *. by rewrite Hb, app_nil_r.
Qed.
End cache_lemmas.

(** C21: Asset logs.  A committed batch appended to a set of asset logs, within
    the protocol's batch size and whatever writers happen to be open, is logged
    completely: no writer it needs is evicted before its flush and no [expect]
    fails, each command is the next record of its own instrument's log, numbered
    without gaps across evictions and reopenings, and after the one filesystem
    barrier every touched log survives a crash whole.  Other instruments' logs
    are unchanged. *)
Theorem asset_batch_durable (wo : gmap Z CachedWriter -> list (Z * CachedWriter)) (s : AssetJournalSet)
    (logs : Z -> list JRecord) (xs : list item) :
  (forall m, wo m ≡ₚ map_to_list m) -> set_ok s logs -> Forall item_ok xs ->
  Z.of_nat (length xs) <= RAFT_BATCH_MAX_COMMANDS ->
  (forall i, Z.of_nat (length (logs i)) + Z.of_nat (length xs) <= U64_MAX) ->
  access_clock s + Z.of_nat (length xs) <= U64_MAX ->
  exists s1 s2 touched, AssetJournalSet.append_committed_batch wo s xs = Ret (s1, Ok touched) /\
    AssetJournalSet.sync_committed_batch s1 touched = Ret s2 /\ set_ok s2 (foldl extend logs xs) /\
    (forall i, i ∈ touched <-> i ∈ Command.instrument <$> (snd <$> xs)) /\
    (forall i, r_frame <$> foldl extend logs xs i =
       (r_frame <$> logs i) ++ (encode_command <$> asset_commands i (snd <$> xs))) /\
    forall i, i ∈ touched -> exists c, writers s2 !! i = Some c /\
      forall img, crash_image (writer c) img -> JournalReader.read img = Ok (foldl extend logs xs i).
Proof.
  intros Hwo Hok Hx Hmax Hlen Hck.
  destruct (append_each_ok wo Hwo (access_clock s) xs s logs []) as (sa & touched & E & Hoka & (Hnd & Hin & _) & Ht); try done.
  { split_and!; [constructor|intros j Hj; by apply elem_of_nil in Hj|].
    intros j c Hc Hlt. apply (ok_access _ _ Hok) in Hc. lia. }
  { pose proof (ok_max _ _ Hok). cbn. lia. }
  assert (Hopen : forall j, j ∈ touched -> is_Some (writers sa !! j)).
  { intros j Hj. destruct (Hin j Hj) as (c & Ec & _). by exists c. }
  destruct (flush_each touched sa _ Hoka Hopen) as (s1 & E1 & Hok1 & Hb).
  unfold AssetJournalSet.append_committed_batch. rewrite E. cbn [obind fst snd]. rewrite E1. cbn [obind].
  assert (Htouched : forall i, i ∈ touched <-> i ∈ Command.instrument <$> (snd <$> xs)).
  { intros i. rewrite Ht, elem_of_nil. tauto. }
  exists s1. destruct touched as [|i0 rest].
  { exists s1, []. split_and!; try done; [intros i; apply extend_frames|]. intros i Hi. by apply elem_of_nil in Hi. }
  destruct (set_sync_ok s1 _ i0 rest Hok1) as (s2 & E2 & Hok2 & Ews).
  { destruct (Hb i0) as (c & Ec & _); [apply Hopen; by left|by exists c]. }
  exists s2, (i0 :: rest). split_and!; try done; [intros i; apply extend_frames|].
  intros i Hi. destruct (Hb i (Hopen i Hi)) as (c & Ec & Hbuf). rewrite Ews, lookup_fmap, Ec. cbn [fmap option_fmap option_map].
  eexists. split; [reflexivity|]. intros img Himg. cbn [writer] in Himg.
  eapply synced_image; [by apply (ok_open _ _ Hok1)|by apply Hbuf; left|done].
Qed.

Definition example_items : list item := [(7, false, CHalt 1 4); (8, true, CResume 2 5); (9, false, CResume 1 6)].

Lemma asset_batch_durable_witness :
  exists s1 s2 touched, AssetJournalSet.append_committed_batch map_to_list (AssetJournalSet.open ∅ None None) example_items =
      Ret (s1, Ok touched) /\ AssetJournalSet.sync_committed_batch s1 touched = Ret s2 /\ 1 ∈ touched /\
    exists c, writers s2 !! 1 = Some c /\ JournalReader.read (JournalWriter.file (writer c)) =
      Ok [mkRec 1 7 (encode_command (CHalt 1 4)); mkRec 2 9 (encode_command (CResume 1 6))].
Proof.
  destruct (asset_batch_durable map_to_list (AssetJournalSet.open ∅ None None) (fun _ => []) example_items)
    as (s1 & s2 & touched & E1 & E2 & Hok & Ht & _ & Hd).
  - intros m. reflexivity.
  - apply open_ok; [intros i; by rewrite lookup_empty|]. intros i. split; [constructor|]. by intros k r Hr.
  - repeat constructor; cbn; unfold_width; lia.
  - cbn. lia.
  - cbn. lia.
  - cbn. lia.
  - assert (H1 : 1 ∈ touched) by (apply Ht; by left).
    exists s1, s2, touched. split; [exact E1|]. split; [exact E2|]. split; [exact H1|].
    destruct (Hd 1 H1) as (c & Ec & Hc). exists c. split; [exact Ec|]. rewrite Hc; [reflexivity|].
    split; [reflexivity|]. destruct (ok_open _ _ Hok 1 c Ec) as [(_ & _ & _ & Hs) _]. lia.
Defined.

(** A batch over several instruments is refused and changes nothing. *)
Theorem cross_asset_refused (wo : gmap Z CachedWriter -> list (Z * CachedWriter)) (s : AssetJournalSet) (ts : Z) (due : bool)
    (cs : list Command) (c : Command) :
  c ∈ cs -> Command.instrument c <> Command.instrument (CBatch cs) ->
  AssetJournalSet.append wo s ts due (CBatch cs) = Ret (s, Err "per-asset log cannot contain a cross-asset batch").
Proof.
  intros Hc Hne. unfold AssetJournalSet.append. assert (AssetJournalSet.cross_asset (CBatch cs) = true) as ->; [|done].
  apply existsb_exists. exists c. split; [by apply list_elem_of_In|]. apply negb_true_iff. by apply Z.eqb_neq.
Qed.
