(* ===== verification/AssetReplay.v ===== *)
(** * Replaying one asset's log

    What [src/src/asset_log.rs] is for: a machine that receives the log of one
    instrument verifies it ([inspect]), replays it and owns the instrument's
    book.  A log verifies exactly when it is a gapless sequence of commands of
    that instrument; replaying it gives the processor its commands lead to; and
    since the commands of one instrument do not depend on those of the others,
    that is the instrument's part of the shard's state. *)

From S2P Require Import Prelude Types Strategy LevelIndex Book Engine Protocol Risk Bytes Wire Journal.
From S2P Require Import Processor ProcessorProps Recovery AssetLog.
Import Processor.

(** ** Verification *)
Definition belongs (i : InstrumentId) (k : nat) (r : JRecord) : Prop :=
  r_seq r = Z.of_nat k + 1 /\ exists c, decode_frame (r_frame r) = Some c /\ Command.instrument c = i.

(** The hash chain of a log. *)
Definition log_hash (recs : list JRecord) : Z :=
  foldl (fun h r => record_hash h (r_seq r) (r_ts_nanos r) (r_frame r)) 14695981039346656037 recs.

Lemma inspect_record_spec i n h r : is_u64 (n + 1) ->
  ((exists c, decode_frame (r_frame r) = Some c /\ Command.instrument c = i) /\ r_seq r = n + 1 /\
     inspect_record i (n, h) r = Ok (n + 1, record_hash h (r_seq r) (r_ts_nanos r) (r_frame r))) \/
  (~ (r_seq r = n + 1 /\ exists c, decode_frame (r_frame r) = Some c /\ Command.instrument c = i) /\
     exists why, inspect_record i (n, h) r = Err why).
Proof.
  intros Hn. unfold inspect_record, decode_frame. rewrite wrap64_small by done.
  destruct (Z.eqb_spec (r_seq r) (n + 1)) as [E|E]; cbn [negb]; [|right; split; [tauto|by eexists]].
  destruct (WireView.parse (r_frame r)) as [v|]; cbn; [|right; split; [naive_solver|by eexists]].
  destruct (WireView.to_command v) as [c|]; cbn; [|right; split; [naive_solver|by eexists]].
  destruct (Z.eqb_spec (Command.instrument c) i) as [Ei|Ei]; cbn; [|right; split; [naive_solver|by eexists]].
  left. split_and!; [by exists c|done|done].
Qed.

Lemma inspect_records_spec i recs n h : 0 <= n -> n + Z.of_nat (length recs) <= U64_MAX ->
  let ok := forall k r, recs !! k = Some r -> belongs i (Z.to_nat n + k) r in
  (ok /\ inspect_records i (n, h) recs = Ok (n + Z.of_nat (length recs),
     foldl (fun h r => record_hash h (r_seq r) (r_ts_nanos r) (r_frame r)) h recs)) \/
  (~ ok /\ exists why, inspect_records i (n, h) recs = Err why).
Proof.
  cbn zeta. revert n h. induction recs as [|r recs IH]; intros n h Hn Hl; cbn [inspect_records length] in *.
  { left. split; [done|]. cbn. by rewrite Z.add_0_r. }
  destruct (inspect_record_spec i n h r ltac:(unfold_width; lia)) as [(Hc & Hs & ->)|(Hno & why & ->)]; cbn [try_bind].
  - destruct (IH (n + 1) (record_hash h (r_seq r) (r_ts_nanos r) (r_frame r)) ltac:(lia) ltac:(lia)) as [[Hok ->]|[Hno Herr]].
    + left. split; [|cbn [foldl]; do 2 f_equal; lia]. intros [|k] r' Hr.
      * cbn in Hr. injection Hr as <-. split; [lia|done].
      * replace (Z.to_nat n + S k)%nat with (Z.to_nat (n + 1) + k)%nat by lia. by apply Hok.
    + right. split; [|done]. intros Hok. apply Hno. intros k r' Hr.
      replace (Z.to_nat (n + 1) + k)%nat with (Z.to_nat n + S k)%nat by lia. by apply Hok.
  - right. split; [|by exists why]. intros Hok. apply Hno. destruct (Hok 0%nat r eq_refl) as [Hs Hc]. split; [lia|done].
Qed.

(** C26: Verification.  Inspecting an asset log whose readable records are [recs]
    succeeds exactly when they are numbered 1, 2, 3, ... without a gap and every
    one is a command of that instrument; it then reports their number and the
    hash chain over number, time and bytes of each.  Otherwise it is an error:
    nothing is silently skipped. *)
Theorem inspect_exact (contents : bytes) (i : InstrumentId) (recs : list JRecord) :
  JournalReader.read contents = Ok recs -> Z.of_nat (length recs) <= U64_MAX ->
  ((forall k r, recs !! k = Some r -> belongs i k r) ->
     inspect contents i = Ok (mkMeta i (Z.of_nat (length recs)) (Z.of_nat (length recs)) (log_hash recs))) /\
  (~ (forall k r, recs !! k = Some r -> belongs i k r) -> exists why, inspect contents i = Err why).
Proof.
  intros Hr Hl. unfold inspect. rewrite Hr. cbn [try_bind].
  destruct (inspect_records_spec i recs 0 14695981039346656037 ltac:(lia) ltac:(lia)) as [[Hok ->]|[Hno (why & ->)]];
    (split; intros H; [|]).
  - done.
  - by destruct H.
  - by destruct Hno.
  - by exists why.
Qed.

Definition example_log : list JRecord := [mkRec 1 7 (encode_command (CHalt 1 4)); mkRec 2 9 (encode_command (CResume 1 6))].

Lemma example_log_ok : Forall record_ok example_log.
Proof. repeat constructor; cbn; unfold_width; lia. Qed.

Lemma inspect_exact_witness :
  inspect (journal_file example_log) 1 = Ok (mkMeta 1 2 2 (log_hash example_log)) /\
  exists why, inspect (journal_file example_log) 2 = Err why.
Proof.
  assert (Hr : JournalReader.read (journal_file example_log) = Ok example_log).
  { rewrite <-(app_nil_r (journal_file example_log)). apply read_torn; [apply example_log_ok|cbn; lia]. }
  split.
  - apply (proj1 (inspect_exact (journal_file example_log) 1 example_log Hr ltac:(cbn; lia))).
    intros [|[|k]] r E; cbn in E; [injection E as <-..|done]; (split; [reflexivity|]).
    + exists (CHalt 1 4). split; reflexivity.
    + exists (CResume 1 6). split; reflexivity.
  - apply (proj2 (inspect_exact (journal_file example_log) 2 example_log Hr ltac:(cbn; lia))).
    intros H. destruct (H 0%nat _ eq_refl) as (_ & c & E & Ei). cbn in E. injection E as <-. done.
Defined.

(** ** Replay *)
Section follow_asset.
Context (ho : OrderBook -> list (Z * nat)).

Lemma replay_asset_follows cs recs p reps seen p' rs :
  Forall sendable cs -> conflict_free cs -> seen_ok seen p cs ->
  r_frame <$> recs = encode_command <$> cs -> process_all ho p cs = Ret (p', rs) ->
  exists reps' seen', try_fold (replay_asset_record ho) (p, reps, seen) recs = Ret (Ok (p', reps ++ reps', seen')) /\
    (NoDup (Command.id <$> cs) -> (forall c, c ∈ cs -> seen !! Command.id c = None) -> reps' = rs).
Proof.
  revert recs p reps seen p' rs.
  induction cs as [|c cs IH]; intros recs p reps seen p' rs Hok Hcf Hseen Hfr Hlive.
  { apply fmap_nil_inv in Hfr as ->. cbn in Hlive. injection Hlive as <- <-. exists [], seen. by rewrite app_nil_r. }
  destruct recs as [|r recs]; [done|]. cbn in Hfr. injection Hfr as Hr Hfr.
  apply Forall_cons in Hok as [[Hflat Hpr] Hok].
  apply process_all_cons in Hlive as (p1 & r1 & r2 & E1 & Hlive & ->).
  assert (Hcf' : conflict_free cs) by (intros a b Ha Hb; apply Hcf; by right).
  assert (Hmono : forall seen, seen_ok seen p (c :: cs) -> seen_ok seen p1 cs).
  { intros sn [H1 H2]. split; [|intros c' f Hc'; apply H2; by right].
    intros id f Hf. destruct (process_seen ho c p p1 r1 E1) as [Hsub _]. by eapply Hsub, H1. }
  cbn [try_fold]. unfold replay_asset_record at 1. rewrite Hr, decode_frame_encode, on_wire_pristine by done.
  unfold accept_replay_command. destruct (Z.eqb_spec (Command.id c) 0) as [Hid|Hid].
  - rewrite E1. cbn [obind fst snd].
    destruct (IH recs p1 (reps ++ r1) seen p' r2) as (reps' & seen' & E & Hrep); [done|done|by apply Hmono|done|done|].
    exists (r1 ++ reps'), seen'. rewrite E, <-(assoc_L (++)). split; [done|]. intros Hnd Hno. f_equal.
    cbn in Hnd. apply NoDup_cons in Hnd as [_ Hnd]. apply Hrep; [done|]. intros c' Hc'. apply Hno. by right.
  - destruct (seen !! Command.id c) as [f|] eqn:Ef.
    + rewrite bool_decide_true by (apply Hseen in Ef; [done|by left]).
      rewrite process_duplicate in E1 by (done || by eapply Hseen). injection E1 as <- <-. cbn [obind].
      destruct (IH recs p reps seen p' r2) as (reps' & seen' & E & Hrep); [done|done|by apply Hmono|done|done|].
      exists reps', seen'. split; [done|]. intros _ Hno. specialize (Hno c ltac:(by left)). congruence.
    + rewrite E1. cbn [obind fst snd].
      destruct (IH recs p1 (reps ++ r1) (<[Command.id c := encode_command c]> seen) p' r2)
        as (reps' & seen' & E & Hrep); [done|done|by eapply seen_ok_add|done|done|].
      exists (r1 ++ reps'), seen'. rewrite E, <-(assoc_L (++)). split; [done|]. intros Hnd Hno. f_equal.
      cbn in Hnd. apply NoDup_cons in Hnd as [Hni Hnd]. apply Hrep; [done|]. intros c' Hc'.
      rewrite lookup_insert_ne; [apply Hno; by right|]. intros Heq. apply Hni. rewrite Heq. by apply list_elem_of_fmap_2.
Qed.
End follow_asset.

Lemma belongs_encoded i cs recs : r_frame <$> recs = encode_command <$> cs -> count_up recs -> Forall sendable cs ->
  Forall (fun c => Command.instrument c = i) cs -> forall k r, recs !! k = Some r -> belongs i k r.
Proof.
  intros Hf Hc Hs Hi k r Hr. split; [by apply Hc|].
  assert (Hk : (encode_command <$> cs) !! k = Some (r_frame r)) by (rewrite <-Hf, list_lookup_fmap, Hr; done).
  rewrite list_lookup_fmap in Hk. destruct (cs !! k) as [c|] eqn:Ec; [|done]. cbn in Hk. injection Hk as Hk.
  destruct (Forall_lookup_1 _ _ _ _ Hs Ec) as [Hfl Hpr]. exists c. rewrite <-Hk, decode_frame_encode, on_wire_pristine by done.
  split; [done|]. apply (Forall_lookup_1 _ _ _ _ Hi Ec).
Qed.

Lemma read_log recs : Forall record_ok recs -> JournalReader.read (journal_file recs) = Ok recs.
Proof. intros H. rewrite <-(app_nil_r (journal_file recs)). apply read_torn; [done|cbn; lia]. Qed.

Lemma inspect_log i cs recs : r_frame <$> recs = encode_command <$> cs -> Forall record_ok recs -> count_up recs ->
  Forall sendable cs -> Forall (fun c => Command.instrument c = i) cs ->
  inspect (journal_file recs) i = Ok (mkMeta i (Z.of_nat (length recs)) (Z.of_nat (length recs)) (log_hash recs)).
Proof.
  intros Hf Hrec Hcnt Hs Hi. unfold inspect. rewrite read_log by done. cbn [try_bind].
  pose proof (count_up_u64 recs Hrec Hcnt) as Hl.
  destruct (inspect_records_spec i recs 0 14695981039346656037 ltac:(lia) ltac:(unfold_width; lia)) as [[_ ->]|[Hno _]]; [done|].
  destruct Hno. by apply (belongs_encoded i cs).
Qed.

(** ** Instruments do not interfere

    Two processors that agree on an instrument: its engine, whether it is
    halted, its positions, the configuration and the suspended users. *)
Record agrees (i : InstrumentId) (p q : Processor) : Prop := {
  ag_engine : engines p !! i = engines q !! i;
  ag_factory : factory p = factory q;
  ag_guard : guard p = guard q;
  ag_stp : p_stp p = p_stp q;
  ag_limits : limits p = limits q;
  ag_dedup : dedup p = dedup q;
  ag_fees : p_fees p = p_fees q;
  ag_halted : i ∈ halted p <-> i ∈ halted q;
  ag_suspended : suspended p = suspended q;
  ag_positions : forall u, positions p !! (u, i) = positions q !! (u, i)
}.

#[export] Instance agrees_equivalence i : Equivalence (agrees i).
Proof.
  split.
  - intros p. by split.
  - intros p q H. destruct H. split; intros; try symmetry; eauto.
  - intros p q r H1 H2. destruct H1, H2. split; intros; etrans; eauto.
Qed.

Lemma engine_agrees i p q : agrees i p q -> engine_or_new p i = engine_or_new q i.
Proof. intros H. unfold engine_or_new, fresh_engine. by rewrite (ag_engine _ _ _ H), (ag_factory _ _ _ H), (ag_stp _ _ _ H). Qed.

Lemma set_engine_agrees i p q e : agrees i p q -> agrees i (set_engine p i e) (set_engine q i e).
Proof. intros []. split; try done. cbn. by rewrite !lookup_insert_eq. Qed.

Lemma set_engine_other i j p e : j <> i -> agrees i p (set_engine p j e).
Proof. intros Hj. split; try done. cbn. by rewrite lookup_insert_ne by done. Qed.

Lemma book_trade_same i ts pos pos' : (forall u, pos !! (u, i) = pos' !! (u, i)) ->
  forall u, foldl (book_trade i) pos ts !! (u, i) = foldl (book_trade i) pos' ts !! (u, i).
Proof.
  assert (Hadd : forall v d pos pos', (forall u, pos !! (u, i) = pos' !! (u, i)) ->
    forall u, add_position i v d pos !! (u, i) = add_position i v d pos' !! (u, i)).
  { intros v d p1 p2 H u. unfold add_position. case_if; [done|]. rewrite H.
    destruct (decide (u = v)) as [->|Hu]; [by rewrite !lookup_insert_eq|]. by rewrite !lookup_insert_ne by congruence. }
  revert pos pos'. induction ts as [|t ts IH]; intros pos pos' H; [done|]. cbn [foldl]. apply IH.
  unfold book_trade. destruct (match t_aggressor t with Buy => _ | Sell => _ end) as [b s]. by apply Hadd, Hadd.
Qed.

Lemma book_trade_other i j ts pos u : j <> i -> foldl (book_trade j) pos ts !! (u, i) = pos !! (u, i).
Proof.
  intros Hj. assert (Hadd : forall v d pos, add_position j v d pos !! (u, i) = pos !! (u, i)).
  { intros v d p1. unfold add_position. case_if; [done|]. by rewrite lookup_insert_ne by congruence. }
  revert pos. induction ts as [|t ts IH]; intros pos; [done|]. cbn [foldl]. rewrite IH. unfold book_trade.
  destruct (match t_aggressor t with Buy => _ | Sell => _ end) as [b s]. by rewrite !Hadd.
Qed.

Lemma vet_agrees i p q o : agrees i p q -> o_instrument o = i ->
  exists p1 q1 v, vet p o = (p1, v) /\ vet q o = (q1, v) /\ agrees i p1 q1.
Proof.
  intros H Ho. pose proof H as [_ _ Eg _ El _ _ Eh Es _]. unfold vet. rewrite Ho, <-Eg, <-El, <-Es.
  rewrite (bool_decide_ext _ _ Eh).
  destruct (bool_decide (i ∈ halted q)); [by eexists _, _, _|]. destruct (_ && _); [by eexists _, _, _|].
  destruct (limits p ≫= _) as [reason|]; [by eexists _, _, _|].
  destruct (match guard p with Some g => PriceGuard.vet g o | None => Pass o end) as [o'|reason]; [|by eexists _, _, _].
  destruct (limits p) as [l|]; [|by eexists _, _, _]. destruct (_ && _); [|by eexists _, _, _].
  assert (Hc : agrees i (create_book p i) (create_book q i)).
  { unfold create_book. rewrite (engine_agrees i p q H). by apply set_engine_agrees. }
  rewrite (engine_agrees _ _ _ Hc). destruct (_ <=? _); by eexists _, _, _.
Qed.

Lemma vet_other i p o p1 v : o_instrument o <> i -> vet p o = (p1, v) -> agrees i p p1.
Proof.
  intros Ho. unfold vet. repeat (case_match; try (intros; simplify_eq; done)); intros; simplify_eq;
    by apply set_engine_other.
Qed.

Lemma process_new_agrees i p q o p' rs : agrees i p q -> o_instrument o = i -> process_new p o = Ret (p', rs) ->
  exists q', process_new q o = Ret (q', rs) /\ agrees i p' q'.
Proof.
  intros H Ho. unfold process_new. destruct (vet_agrees i p q o H Ho) as (p1 & q1 & v & -> & -> & H1). rewrite Ho.
  destruct v as [o'|reason]; [|intros [= <- <-]; by exists q1]. rewrite (engine_agrees _ _ _ H1).
  destruct (MatchingEngine.submit_into _ _ _) as [[[e ts] [[[x st] fl] rr]]|]; cbn [obind]; [|done]. intros [= <- <-].
  pose proof (set_engine_agrees i p1 q1 e H1) as [E1 E2 E3 E4 E5 E6 E7 E8 E9 E10]. eexists. split.
  - f_equal. f_equal. f_equal. cbn in E4, E7. cbn [p_stp set_engine]. rewrite E4. f_equal. f_equal.
    apply list_fmap_ext. intros k t _. unfold trade_report. cbn. by rewrite E7.
  - split; try done. cbn [set_positions positions]. by apply book_trade_same.
Qed.

Lemma process_new_other i p o p' rs : o_instrument o <> i -> process_new p o = Ret (p', rs) -> agrees i p p'.
Proof.
  intros Ho. unfold process_new. destruct (vet p o) as [p1 [o'|reason]] eqn:Ev; apply (vet_other i) in Ev; try done; [|by intros [= <- _]].
  destruct (MatchingEngine.submit_into _ _ _) as [[[e ts] [[[x st] fl] rr]]|]; cbn [obind]; [|done]. intros [= <- _].
  etrans; [exact Ev|]. etrans; [by apply (set_engine_other i (o_instrument o) p1 e)|]. split; try done.
  intros u. cbn [set_positions positions]. by rewrite book_trade_other.
Qed.

(** A command whose effect is not confined to its instrument. *)
Definition user_wide (c : Command) : bool :=
  match c with CHaltUser _ _ _ | CResumeUser _ _ _ => true | _ => false end.

Section independence.
Context (ho : OrderBook -> list (Z * nat)).

Lemma force_close_agrees i p q u id sd qty p' rs : agrees i p q -> force_close ho p i u id sd qty = Ret (p', rs) ->
  exists q', force_close ho q i u id sd qty = Ret (q', rs) /\ agrees i p' q'.
Proof.
  intros H. unfold force_close. rewrite (engine_agrees _ _ _ H).
  destruct (MatchingEngine.cancel_all_for_user _ _ _) as [r|]; cbn [obind]; [|done].
  pose proof (set_engine_agrees i p q r.1 H) as H1. case_if; [|intros [= <- <-]; by eexists].
  destruct (process_new (set_engine p i r.1) _) as [[p1 r1]|] eqn:E1; cbn [obind fst snd]; [|done]. intros [= <- <-].
  eapply process_new_agrees in E1 as (q1 & E1 & Hq); [|exact H1|done]. rewrite E1. by exists q1.
Qed.

Lemma apply_flat_agrees i p q c p' rs : agrees i p q -> Command.instrument c = i -> Command.is_flat c = true ->
  apply_flat ho p c = Ret (p', rs) -> exists q', apply_flat ho q c = Ret (q', rs) /\ agrees i p' q'.
Proof.
  intros H Hi Hf. destruct c as [o|j id c|j id np nq c|j u cid side cq|j c|j c|j u c|j u c|cs]; try done; cbn in Hi; subst;
    cbn [apply_flat]; try rewrite (engine_agrees _ _ _ H).
  - by apply process_new_agrees.
  - destruct (MatchingEngine.cancel _ _) as [r|]; [|done]. intros [= <- <-]. eexists. split; [done|]. by apply set_engine_agrees.
  - destruct (MatchingEngine.modify _ _ _ _) as [r|]; [|done]. intros [= <- <-]. eexists. cbn [obind]. split.
    + f_equal. f_equal. unfold modify_reports. destruct r.2; try done. f_equal. apply list_fmap_ext. intros k t _.
      unfold trade_report. by rewrite (ag_fees _ _ _ H).
    + by apply set_engine_agrees.
  - by apply force_close_agrees.
  - intros [= <- <-]. eexists. split; [done|]. destruct H. split; try done. cbn. set_solver.
  - intros [= <- <-]. eexists. split; [done|]. destruct H. split; try done. cbn. set_solver.
  - intros [= <- <-]. eexists. split; [done|]. destruct H as [? ? ? ? ? ? ? ? Es ?]. split; try done. cbn. by rewrite Es.
  - intros [= <- <-]. eexists. split; [done|]. destruct H as [? ? ? ? ? ? ? ? Es ?]. split; try done. cbn. by rewrite Es.
Qed.

Lemma apply_flat_other i p c p' rs : Command.instrument c <> i -> user_wide c = false ->
  apply_flat ho p c = Ret (p', rs) -> agrees i p p'.
Proof.
  intros Hi Hu. destruct c as [o|j id c|j id np nq c|j u cid side cq|j c|j c|j u c|j u c|cs]; try done; cbn in Hi; cbn [apply_flat].
  - by apply process_new_other.
  - destruct (MatchingEngine.cancel _ _) as [r|]; [|done]. intros [= <- _]. by apply set_engine_other.
  - destruct (MatchingEngine.modify _ _ _ _) as [r|]; [|done]. intros [= <- _]. by apply set_engine_other.
  - unfold force_close. destruct (MatchingEngine.cancel_all_for_user _ _ _) as [r|]; cbn [obind]; [|done].
    case_if; [|intros [= <- _]; by apply set_engine_other].
    destruct (process_new _ _) as [[p1 r1]|] eqn:E1; cbn [obind fst snd]; [|done]. intros [= <- _].
    etrans; [by apply (set_engine_other i j p r.1)|]. by eapply process_new_other; [|exact E1].
  - intros [= <- _]. split; try done. cbn. set_solver.
  - intros [= <- _]. split; try done. cbn. set_solver.
  - intros [= <- _]. done.
Qed.

(** The gates, without the optional high-water check. *)
Lemma gate_plain p c : dedup p = false -> gate p c =
  if negb (Command.id c =? 0) && bool_decide (Command.id c ∈ seen_command_ids p)
  then (p, Some (RRejected (Command.instrument c) (Command.id c) "duplicate"))
  else (set_gate p (if Command.id c =? 0 then seen_command_ids p else {[Command.id c]} ∪ seen_command_ids p)
          (max_new_id p) (max_admin_id p), None).
Proof. intros Hd. unfold gate. cbn. by rewrite Hd. Qed.

Lemma process_agrees i p q c p' rs : agrees i p q -> dedup p = false -> Command.instrument c = i -> Command.is_flat c = true ->
  (Command.id c <> 0 -> Command.id c ∈ seen_command_ids p <-> Command.id c ∈ seen_command_ids q) ->
  process ho p c = Ret (p', rs) -> exists q', process ho q c = Ret (q', rs) /\ agrees i p' q'.
Proof.
  intros H Hd Hi Hf Hs. rewrite !process_flat by done. rewrite !gate_plain by (done || by rewrite <-(ag_dedup _ _ _ H)).
  assert (negb (Command.id c =? 0) && bool_decide (Command.id c ∈ seen_command_ids p) =
          negb (Command.id c =? 0) && bool_decide (Command.id c ∈ seen_command_ids q)) as ->.
  { destruct (Z.eqb_spec (Command.id c) 0) as [|Hid]; [done|]. cbn. apply bool_decide_ext. by apply Hs. }
  destruct (_ && _); [intros [= <- <-]; by exists q|].
  intros E. eapply apply_flat_agrees; [|done|done|exact E]. by destruct H.
Qed.

Lemma process_other i p c p' rs : dedup p = false -> Command.instrument c <> i -> Command.is_flat c = true -> user_wide c = false ->
  process ho p c = Ret (p', rs) -> agrees i p p'.
Proof.
  intros Hd Hi Hf Hu. rewrite process_flat, gate_plain by done. destruct (_ && _); [by intros [= <- _]|].
  intros E. eapply apply_flat_other in E; [|done|done]. etrans; [|exact E]. by split.
Qed.
End independence.

Definition report_instrument (r : ExecReport) : InstrumentId :=
  match r with
  | RAccepted i _ | RTrade i _ _ _ _ _ _ _ | RFilled i _ | RPartiallyFilled i _ _ | RResting i _ | RCancelled i _
  | RRejected i _ _ | RModified i _ _ | RNotFound i _ | RDepthLevel i _ _ _ _ | RDepthEnd i _ _ | RHalted i | RResumed i
  | RUserHalted i _ | RUserResumed i _ => i
  end.

(** Depth rows are not reports of commands. *)
Definition is_depth (r : ExecReport) : bool := match r with RDepthLevel _ _ _ _ _ | RDepthEnd _ _ _ => true | _ => false end.

Definition about (i : InstrumentId) (r : ExecReport) : Prop := report_instrument r = i /\ is_depth r = false.

Lemma trade_report_about p i t : about i (trade_report p i t).
Proof. unfold trade_report. by destruct (fees (p_fees p) (t_price t) (t_quantity t)). Qed.

Lemma process_new_about p o p' rs : process_new p o = Ret (p', rs) -> Forall (about (o_instrument o)) rs.
Proof.
  unfold process_new. destruct (vet p o) as [p1 [o'|reason]]; [|intros [= _ <-]; by repeat constructor].
  destruct (MatchingEngine.submit_into _ _ _) as [[[e ts] [[[x st] fl] rr]]|]; cbn [obind]; [|done]. intros [= _ <-].
  constructor; [done|]. apply Forall_app. split; [|apply Forall_app; split].
  - case_match; [constructor|]. by apply Forall_fmap, Forall_true.
  - apply Forall_fmap, Forall_true. intros t. apply trade_report_about.
  - constructor; [by destruct st|constructor].
Qed.

Lemma gate_about p c p1 r : Command.is_flat c = true -> gate p c = (p1, Some r) -> about (Command.instrument c) r.
Proof.
  intros Hf. unfold gate. destruct (_ && _); [by intros [= _ <-]|]. cbn [dedup set_gate].
  assert (Hk : (dedup_key c).1.2 = Command.instrument c) by by destruct c.
  destruct (dedup p); [|done]. destruct (dedup_key c) as [[id inst] ad]. destruct (id =? 0); [done|].
  destruct (id <=? _); [|done]. by intros [= _ <-].
Qed.

Lemma process_about ho p c p' rs : Command.is_flat c = true -> process ho p c = Ret (p', rs) ->
  Forall (about (Command.instrument c)) rs.
Proof.
  intros Hf. rewrite process_flat by done. destruct (gate p c) as [p1 [r|]] eqn:Eg.
  { intros [= _ <-]. apply Forall_singleton. by eapply gate_about. }
  destruct c as [o|j id c|j id np nq c|j u cid side cq|j c|j c|j u c|j u c|cs]; try done; cbn [apply_flat Command.instrument].
  - apply process_new_about.
  - destruct (MatchingEngine.cancel _ _) as [r|]; [|done]. intros [= _ <-]. constructor; [by destruct r.2|constructor].
  - destruct (MatchingEngine.modify _ _ _ _) as [r|]; [|done]. intros [= _ <-]. unfold modify_reports.
    destruct r.2 as [| | |report]; [by repeat constructor..|]. apply Forall_app. split.
    + apply Forall_fmap, Forall_true. intros t. apply trade_report_about.
    + constructor; [by destruct (sr_status report)|constructor].
  - unfold force_close. destruct (MatchingEngine.cancel_all_for_user _ _ _) as [r|]; cbn [obind]; [|done].
    assert (Forall (about j) (RCancelled j <$> r.2)) by by apply Forall_fmap, Forall_true.
    case_if; [|by intros [= _ <-]].
    destruct (process_new _ _) as [[p2 r2]|] eqn:E2; cbn [obind fst snd]; [|done]. intros [= _ <-].
    apply Forall_app. split; [done|]. by apply process_new_about in E2.
  - intros [= _ <-]. by repeat constructor.
  - intros [= _ <-]. by repeat constructor.
  - intros [= _ <-]. by repeat constructor.
  - intros [= _ <-]. by repeat constructor.
Qed.

(** Ids are not shared between instruments. *)
Definition ids_apart (i : InstrumentId) (cs : list Command) : Prop := forall c c', c ∈ cs -> c' ∈ cs ->
  Command.instrument c = i -> Command.instrument c' <> i -> Command.id c = Command.id c' -> Command.id c = 0.

Lemma process_seen_flat ho p c p' rs : Command.is_flat c = true -> process ho p c = Ret (p', rs) ->
  seen_command_ids p ⊆ seen_command_ids p' /\ (Command.id c <> 0 -> Command.id c ∈ seen_command_ids p') /\
  seen_command_ids p' ⊆ {[Command.id c]} ∪ seen_command_ids p.
Proof.
  intros Hf. rewrite process_flat by done. destruct (gate p c) as [p1 [r|]] eqn:Eg;
    pose proof (gate_spec _ _ _ _ Eg) as (_ & H1 & H2 & H3 & _); [by intros [= <- _]|].
  intros E%apply_flat_seen. by rewrite E.
Qed.

Lemma process_dedup ho p c p' rs : Command.is_flat c = true -> dedup p = false -> process ho p c = Ret (p', rs) -> dedup p' = false.
Proof.
  intros Hf Hd E. destruct (user_wide c) eqn:Hu.
  - rewrite process_flat, gate_plain in E by done. destruct (_ && _); [by injection E as <- _|].
    destruct c; try done; cbn in E; by injection E as <- _.
  - rewrite <-(ag_dedup (Command.instrument c + 1) p p'); [done|]. eapply process_other; [done| |done|done|exact E]. lia.
Qed.

(** A set of seen ids after one more: unchanged but for that id. *)
Lemma grown_apart (x c : Z) (S S' : gset Z) : S ⊆ S' -> S' ⊆ {[c]} ∪ S -> x <> c -> x ∈ S' <-> x ∈ S.
Proof. set_solver. Qed.

Lemma grown_alike (x c : Z) (S S' T T' : gset Z) : S ⊆ S' -> S' ⊆ {[c]} ∪ S -> (c <> 0 -> c ∈ S') ->
  T ⊆ T' -> T' ⊆ {[c]} ∪ T -> (c <> 0 -> c ∈ T') -> x <> 0 -> (x ∈ S <-> x ∈ T) -> x ∈ S' <-> x ∈ T'.
Proof.
  intros S1 S2 S3 T1 T2 T3 Hx H. destruct (decide (x = c)) as [->|Hne]; [tauto|].
  by rewrite (grown_apart x c S S'), (grown_apart x c T T').
Qed.

Section assets.
Context (ho : OrderBook -> list (Z * nat)) (i : InstrumentId).

Lemma assets_apart cs p q p' rs : Forall (fun c => Command.is_flat c = true /\ user_wide c = false) cs -> ids_apart i cs ->
  agrees i p q -> dedup p = false ->
  (forall c, c ∈ cs -> Command.instrument c = i -> Command.id c <> 0 ->
     Command.id c ∈ seen_command_ids p <-> Command.id c ∈ seen_command_ids q) ->
  process_all ho p cs = Ret (p', rs) ->
  exists q', process_all ho q (asset_commands i cs) = Ret (q', filter (fun r => report_instrument r = i) rs) /\ agrees i p' q'.
Proof.
  revert p q rs. induction cs as [|c cs IH]; intros p q rs Hf Ha H Hd Hs Hrun.
  { cbn in Hrun. injection Hrun as <- <-. by exists q. }
  apply Forall_cons in Hf as [[Hc Hu] Hf]. apply process_all_cons in Hrun as (p1 & r1 & r2 & E1 & E2 & ->).
  assert (Ha' : ids_apart i cs) by (intros a b ? ?; apply Ha; by right).
  pose proof (process_about ho p c p1 r1 Hc E1) as Hab. pose proof (process_dedup ho p c p1 r1 Hc Hd E1) as Hd1.
  destruct (process_seen_flat ho p c p1 r1 Hc E1) as (S1 & S2 & S3). unfold asset_commands. rewrite filter_app.
  destruct (decide (Command.instrument c = i)) as [Hi|Hi].
  - destruct (process_agrees ho i p q c p1 r1 H Hd Hi Hc (Hs c ltac:(by left) Hi) E1) as (q1 & Eq & H1).
    destruct (process_seen_flat ho q c q1 r1 Hc Eq) as (T1 & T2 & T3).
    destruct (IH p1 q1 r2 Hf Ha' H1 Hd1) as (q' & E' & H'); [|done|].
    + intros x Hx Hxi Hid. by apply (grown_alike _ _ _ _ _ _ S1 S3 S2 T1 T3 T2 Hid), Hs; [right|..].
    + exists q'. split; [|done]. rewrite filter_cons_True by done. unfold process_all in *. cbn [in_turn].
      rewrite Eq. cbn [obind fst snd]. unfold asset_commands in E'. rewrite E'. cbn [obind fst snd].
      rewrite (filter_all _ r1); [done|]. intros r Hr. by rewrite (proj1 (proj1 (Forall_forall _ _) Hab r Hr)).
  - assert (H1 : agrees i p1 q).
    { etrans; [|exact H]. symmetry. by eapply process_other; [| | | |exact E1]. }
    destruct (IH p1 q r2 Hf Ha' H1 Hd1) as (q' & E' & H'); [|done|].
    + intros x Hx Hxi Hid. rewrite (grown_apart _ _ _ _ S1 S3); [by apply Hs; [right|..]|].
      intros Heq. apply Hid. by apply (Ha x c); [right|left|..].
    + exists q'. split; [|done]. rewrite filter_cons_False by done. rewrite (filter_none _ r1); [exact E'|].
      intros r Hr. by rewrite (proj1 (proj1 (Forall_forall _ _) Hab r Hr)).
Qed.
End assets.

(** Commands that carry one id are the same command, so of the same instrument. *)
Lemma conflict_free_apart i cs : Forall sendable cs -> conflict_free cs -> ids_apart i cs.
Proof.
  intros Hs Hc c c' Hin Hin' Hi Hi' Hid. destruct (decide (Command.id c = 0)) as [|Hz]; [done|]. exfalso. apply Hi'.
  pose proof (Hc c c' Hin Hin' Hid Hz) as E.
  destruct (proj1 (Forall_forall _ _) Hs c Hin) as [F1 P1]. destruct (proj1 (Forall_forall _ _) Hs c' Hin') as [F2 P2].
  apply (f_equal decode_frame) in E. rewrite !decode_frame_encode, !on_wire_pristine in E by done. by injection E as <-.
Qed.

(** C22: Asset migration.  Let a shard with the default configuration have
    processed commands of many instruments, each also appended to the log of its
    instrument.  Replaying one asset's log on another machine succeeds and
    reproduces the instrument exactly: the same engine, halt state and positions,
    whatever was interleaved with its commands, and (when no command was sent
    twice) the same reports in the same order.  The commands are as the wire
    carries them (fields in range, orders not yet touched) and two with the same id
    are exact retries.  Excluded are commands that suspend a user (see
    [user_halt_escapes_asset_log]) and, for this instrument, force closes, whose
    outcome depends on the hash order of the machine ([ho] of the shard, [ho'] of
    the other machine). *)
Theorem asset_replay_restores (ho ho' : OrderBook -> list (Z * nat)) (strategy : MatchingStrategy) (i : InstrumentId)
    (cs : list Command) (p' : Processor) (rs : list ExecReport) (recs : list JRecord) :
  Forall sendable cs -> Forall (fun c => user_wide c = false) cs -> conflict_free cs ->
  order_free (asset_commands i cs) ->
  process_all ho (Processor.new strategy None) cs = Ret (p', rs) ->
  r_frame <$> recs = encode_command <$> asset_commands i cs -> Forall record_ok recs -> count_up recs ->
  exists q s, replay_fresh ho' (journal_file recs) i strategy =
      Ret (Ok (q, mkMeta i (Z.of_nat (length recs)) (Z.of_nat (length recs)) (log_hash recs))) /\
    agrees i p' q /\
    replay_with_reports ho' (journal_file recs) i strategy = Ret (Ok s) /\ ar_processor s = q /\
    (NoDup (Command.id <$> asset_commands i cs) -> ar_reports s = filter (fun r => report_instrument r = i) rs).
Proof.
  intros Hs Hu Hc Hof Hrun Hfr Hrec Hcnt. set (p0 := Processor.new strategy None) in *.
  destruct (assets_apart ho i cs p0 p0 p' rs) as (q & Eq & Hag); [|by apply conflict_free_apart|done|done|done|done|].
  { apply Forall_forall. intros c Hin. split; [|by apply (proj1 (Forall_forall _ _) Hu)].
    destruct (proj1 (Forall_forall _ _) Hs c Hin) as [Hfl _]. by destruct c. }
  set (mine := asset_commands i cs) in *. rewrite (process_all_any_order ho ho') in Eq by done.
  assert (Hsm : Forall sendable mine).
  { apply Forall_forall. intros c Hin. apply list_elem_of_filter in Hin as [_ Hin]. by apply (proj1 (Forall_forall _ _) Hs). }
  assert (Hcm : conflict_free mine).
  { intros a b Ha Hb. apply list_elem_of_filter in Ha as [_ Ha]. apply list_elem_of_filter in Hb as [_ Hb]. by apply Hc. }
  assert (Him : Forall (fun c => Command.instrument c = i) mine).
  { apply Forall_forall. intros c Hin. by apply list_elem_of_filter in Hin as [? _]. }
  destruct (replay_asset_follows ho' mine recs p0 [] ∅ q (filter (fun r => report_instrument r = i) rs) Hsm Hcm) as (reps & seen & Et & Hrep); [|done|done|].
  { split; intros ? ?; [by rewrite lookup_empty|]. intros _. by rewrite lookup_empty. }
  pose proof (read_log recs Hrec) as Hread. pose proof (inspect_log i mine recs Hfr Hrec Hcnt Hsm Him) as Hin.
  eexists q, (mkAssetSummary _ _ _ _). split_and!.
  - unfold replay_fresh, replay_into. rewrite Hin, Hread.
    rewrite (filter_all (fun r => 0 < r_seq r) recs).
    + fold p0. rewrite Et. done.
    + intros r Hr. apply list_elem_of_lookup in Hr as [k Hk]. rewrite (Hcnt k r Hk). lia.
  - done.
  - unfold replay_with_reports. rewrite Hread. fold p0. rewrite Et. cbn [obind try_bind fst snd]. rewrite Hin. reflexivity.
  - done.
  - intros Hnd. cbn [ar_reports app]. apply Hrep; [done|]. intros c _. apply lookup_empty.
Qed.

Definition new_at (i id user : Z) (sd : Side) (price qty : Z) : Command :=
  CNew (Order.by_user (Order.on (Order.limit id sd price qty) i) user).

(** Commands of two instruments, interleaved, and the log of the first. *)
Definition two_assets : list Command := [new_at 1 1 7 Sell 100 5; new_at 2 2 7 Sell 90 5; new_at 1 3 8 Buy 100 3; CHalt 2 4].
Definition first_log : list JRecord :=
  imap (fun k c => mkRec (Z.of_nat k + 1) 9 (encode_command c)) (asset_commands 1 two_assets).

Definition two_run := result (Processor.new PriceTimePriority.strategy None)
  (process_all map_order (Processor.new PriceTimePriority.strategy None) two_assets).

Lemma two_assets_ok : Forall sendable two_assets /\ conflict_free two_assets.
Proof.
  split.
  - repeat apply Forall_cons_2; [..|apply Forall_nil_2]; (split; [cbn; unfold order_ok; cbn; unfold_width; lia|done]).
  - intros c c' Hc Hc' He _. unfold two_assets in *.
    repeat (apply elem_of_cons in Hc as [->|Hc]; [|]); try (by apply elem_of_nil in Hc);
    repeat (apply elem_of_cons in Hc' as [->|Hc']; [|]); try (by apply elem_of_nil in Hc'); done.
Qed.

Lemma first_log_ok : Forall record_ok first_log /\ count_up first_log.
Proof.
  split; [repeat constructor; cbn; unfold_width; lia|].
  intros k r. unfold first_log. rewrite list_lookup_imap. destruct (_ !! k); [|done]. cbn. by intros [= <-].
Qed.

Lemma asset_replay_restores_witness :
  exists q s, replay_with_reports (fun b => rev (map_order b)) (journal_file first_log) 1 PriceTimePriority.strategy = Ret (Ok s) /\
    agrees 1 two_run.1 q /\ ar_processor s = q /\
    ar_reports s = [RAccepted 1 1; RResting 1 1; RAccepted 1 3; RTrade 1 3 1 Buy 100 3 0 0; RFilled 1 3].
Proof.
  destruct (asset_replay_restores map_order (fun b => rev (map_order b)) PriceTimePriority.strategy 1 two_assets two_run.1 two_run.2 first_log
    (proj1 two_assets_ok)) as (q & s & _ & Hag & E & Eq & Hr).
  - repeat constructor.
  - apply two_assets_ok.
  - by repeat constructor.
  - apply result_ret. vm_compute. reflexivity.
  - vm_compute. reflexivity.
  - apply first_log_ok.
  - apply first_log_ok.
  - exists q, s. split; [exact E|]. split; [exact Hag|]. split; [exact Eq|]. rewrite Hr; [vm_compute; reflexivity|].
    apply (bool_decide_unpack (NoDup (Command.id <$> asset_commands 1 two_assets))). vm_compute. exact I.
Defined.

Definition suspended_run := result (Processor.new PriceTimePriority.strategy None)
  (process_all map_order (Processor.new PriceTimePriority.strategy None) [CHaltUser 1 7 1; new_at 2 2 7 Sell 90 5]).

Definition rested_run := result (Processor.new PriceTimePriority.strategy None)
  (process_all map_order (Processor.new PriceTimePriority.strategy None) [new_at 2 2 7 Sell 90 5]).

Definition second_log : list JRecord := [mkRec 1 9 (encode_command (new_at 2 2 7 Sell 90 5))].

Lemma second_log_ok : Forall record_ok second_log /\ count_up second_log.
Proof.
  split; [repeat constructor; cbn; unfold_width; lia|]. intros k r Hr. by apply list_lookup_singleton_Some in Hr as [-> <-].
Qed.

Lemma runs_computed : suspended_run.2 = [RUserHalted 1 7; RRejected 2 2 "user-suspended"] /\
  rested_run.2 = [RAccepted 2 2; RResting 2 2].
Proof. split; by vm_compute. Qed.

(** Suspending a user concerns every instrument but is logged for one: on the
    machine the second instrument moves to, the suspended user's order rests. *)
Theorem user_halt_escapes_asset_log :
  process_all map_order (Processor.new PriceTimePriority.strategy None) [CHaltUser 1 7 1; new_at 2 2 7 Sell 90 5] =
    Ret (suspended_run.1, [RUserHalted 1 7; RRejected 2 2 "user-suspended"]) /\
  exists s, replay_with_reports map_order (journal_file second_log) 2 PriceTimePriority.strategy = Ret (Ok s) /\
    ar_reports s = [RAccepted 2 2; RResting 2 2].
Proof.
  destruct runs_computed as [<- <-]. split; [apply result_ret; by vm_compute|].
  assert (Hs : Forall sendable [new_at 2 2 7 Sell 90 5]).
  { apply Forall_singleton. split; [cbn; unfold order_ok; cbn; unfold_width; lia|done]. }
  destruct (replay_asset_follows map_order [new_at 2 2 7 Sell 90 5] second_log (Processor.new PriceTimePriority.strategy None) [] ∅
    rested_run.1 rested_run.2 Hs) as (reps & seen & Et & Hrep).
  - intros a b ->%list_elem_of_singleton ->%list_elem_of_singleton. done.
  - split; intros ? ?; [by rewrite lookup_empty|]. intros _. by rewrite lookup_empty.
  - done.
  - apply result_ret. by vm_compute.
  - eexists (mkAssetSummary _ _ _ _). unfold replay_with_reports. rewrite read_log by apply second_log_ok.
    rewrite Et. cbn [obind try_bind fst snd].
    rewrite (inspect_log 2 [new_at 2 2 7 Sell 90 5] second_log); [|done|apply second_log_ok..|done|by constructor].
    split; [reflexivity|]. cbn [ar_reports app]. apply Hrep; [apply NoDup_singleton|]. intros x _. apply lookup_empty.
Qed.
