(* ===== verification/Exchange.v ===== *)
(** * The standalone exchange

    The runtime half of [src/src/exchange.rs] without Raft: the gateway that
    routes commands into priority lanes, the loop of a matching shard
    ([Shard::run], [drain_high], [pop_next_normal], [handle]), its depth feed
    and snapshots, and the handle that pauses and stops the shards.  The path of
    a committed batch is in [Commit].

    A queue is the bounded FIFO that [Ring.ring_refines_queue] shows the ring to
    be; the result queue, on which a shard waits until there is room, is the
    list of everything sent.  A shard is a state machine whose steps are single
    queue operations and flag reads, so that the gateway and the controlling
    thread can act between any two of them.  The steps' clock readings and
    elapsed-time tests are arguments; writing a snapshot succeeds.  Metrics,
    logging, pinning and the pools' sizes are left out. *)

From S2P Require Import Prelude Types Strategy LevelIndex Book Engine Protocol Risk Bytes Wire Journal Snapshot Processor.
From S2P Require Import ProcessorProps Recovery Replica AssetLog AssetReplay.
Import Processor.

Definition NORMAL_BATCH : nat := 32.
Definition DEPTH_LEVELS : nat := 5.

(** ** Lanes *)
Record InstrumentRx := mkBox {
  box_high : list Command;
  box_normal : list Command
}.

Record Lanes := mkLanes {
  high_rx : list Command;
  normal_rx : list Command;
  instrument_rx : list InstrumentRx;
  next_instrument : nat
}.

(** A lane of a shard, by the end of the queue that is used. *)
Inductive Lane :=
| ShardHigh
| ShardNormal
| BoxHigh (k : nat)
| BoxNormal (k : nat).

#[export] Instance Lane_eq_dec : EqDecision Lane.
Proof. solve_decision. Defined.

Definition lane (l : Lanes) (a : Lane) : list Command :=
  match a with
  | ShardHigh => high_rx l
  | ShardNormal => normal_rx l
  | BoxHigh k => from_option box_high [] (instrument_rx l !! k)
  | BoxNormal k => from_option box_normal [] (instrument_rx l !! k)
  end.

Definition set_lane (l : Lanes) (a : Lane) (q : list Command) : Lanes :=
  match a with
  | ShardHigh => mkLanes q (normal_rx l) (instrument_rx l) (next_instrument l)
  | ShardNormal => mkLanes (high_rx l) q (instrument_rx l) (next_instrument l)
  | BoxHigh k => mkLanes (high_rx l) (normal_rx l) (alter (fun b => mkBox q (box_normal b)) k (instrument_rx l)) (next_instrument l)
  | BoxNormal k => mkLanes (high_rx l) (normal_rx l) (alter (fun b => mkBox (box_high b) q) k (instrument_rx l)) (next_instrument l)
  end.

(** [Producer::push] and [Consumer::pop]. *)
Definition push (capacity : nat) (l : Lanes) (a : Lane) (c : Command) : option Lanes :=
  if (length (lane l a) <? capacity)%nat then Some (set_lane l a (lane l a ++ [c])) else None.

Definition pop (l : Lanes) (a : Lane) : option (Command * Lanes) :=
  match lane l a with
  | [] => None
  | c :: q => Some (c, set_lane l a q)
  end.

(** ** Configuration and the gateway's routing *)
Record ExchangeConfig := mkConfig {
  shards : nat;
  queue_capacity : nat;
  strategy : MatchingStrategy;
  instruments : list InstrumentId;
  price_guard : option PriceGuard;
  cfg_stp : SelfTradePolicy;
  risk_limits : option RiskLimits;
  cfg_fees : FeeSchedule;
  dedup_commands : bool
}.

Definition shard_of (cfg : ExchangeConfig) (i : InstrumentId) : nat := (Z.to_nat i mod shards cfg)%nat.

(** The instruments with a mailbox on a shard, in the order of its mailboxes. *)
Definition owned (cfg : ExchangeConfig) (shard : nat) : list InstrumentId :=
  filter (fun i => shard_of cfg i = shard) (instruments cfg).

(** The gateway's entry for an instrument: a later insertion replaces an earlier. *)
Definition mailbox (cfg : ExchangeConfig) (i : InstrumentId) : option nat :=
  foldl (fun found ki => if ki.2 =? i then Some ki.1 else found) None (imap pair (owned cfg (shard_of cfg i))).

(** [submit_with_raft_index]: the shard and the lane of a command. *)
Definition route (cfg : ExchangeConfig) (c : Command) : nat * Lane :=
  let i := Command.instrument c in
  (shard_of cfg i,
   match mailbox cfg i with
   | Some k => if Command.is_high_priority c then BoxHigh k else BoxNormal k
   | None => if Command.is_high_priority c then ShardHigh else ShardNormal
   end).

(** ** A shard's state *)
Record Core := mkCore {
  processor : Processor;
  journal : option JournalWriter.JournalWriter;
  asset_journal : option AssetJournalSet;
  rep : option (list bytes);             (* the records given to [RepFanout::publish] *)
  rep_seq : Z;
  result_tx : list ExecReport;
  snapshots : list SnapshotData;         (* those written, newest last *)
  handled : list Command;                (* the commands taken up, batches flattened *)
  asset_wal_errors : Z
}.

(** Where the loop of [run] is: reading [started]; parked and reading [running];
    between reading [started] and leaving the count of parked shards; draining
    high lane [k] before normal command [n] ([None]: at the top of a turn); before and within [pop_next_normal], with [j] mailboxes to try; at
    the end of a turn; out of the loop. *)
Inductive Pc :=
| Top
| Waiting
| Unpark
| High (k : nat) (back : option nat)
| Normal (n : nat)
| Probe (n j : nat)
| TurnEnd
| Stopped.

Record Shard := mkShardState {
  lanes : Lanes;
  core : Core;
  pc : Pc;
  worked : bool;
  is_parked : bool
}.

(** What the environment answers in a step. *)
Record Env := mkEnv {
  e_ts : Z;                  (* [now_nanos] *)
  e_asset_ts : Z;
  e_due : bool;              (* the flush intervals have passed *)
  e_asset_due : bool;
  e_depth : bool;            (* [DEPTH_EVERY] has passed *)
  e_snapshot : bool          (* a snapshot is due *)
}.

Section shard.
Context (ho : OrderBook -> list (Z * nat)) (wo : gmap Z CachedWriter -> list (Z * CachedWriter)).
Context (eo : gmap Z MatchingEngine -> list (Z * MatchingEngine)).
Context (zo : gset Z -> list Z) (po : gmap (Z * Z) Z -> list (Z * Z * Z)).
Context (shard_id : Z) (snapshot_path snapshot_every : bool).

(** ** [handle] *)

(** The journal and replication part: the record's number, and where it went. *)
Definition log_command (e : Env) (k : Core) (c : Command)
    : option JournalWriter.JournalWriter * Z * option (list bytes) :=
  if bool_decide (is_Some (journal k)) || bool_decide (is_Some (rep k)) then
    let frame := encode_command c in
    let '(j, seq) :=
      match journal k with
      | Some j => let '(j, seq) := JournalWriter.append j (e_ts e) frame (e_due e) in (Some j, seq)
      | None => (None, wrap64 (rep_seq k + 1))
      end in
    (j, seq, (fun sent => sent ++ [rep_record shard_id seq frame]) <$> rep k)
  else (journal k, rep_seq k, rep k).

Definition handle_flat (e : Env) (k : Core) (c : Command) : outcome Core :=
  let! a :=
    match asset_journal k with
    | None => Ret (None, Ok 0)
    | Some aj => let! r := AssetJournalSet.append wo aj (e_asset_ts e) (e_asset_due e) c in Ret (Some r.1, r.2)
    end in
  match a.2 with
  | Err _ =>
      Ret (mkCore (processor k) (journal k) a.1 (rep k) (rep_seq k) (result_tx k) (snapshots k) (handled k)
             (wrap64 (asset_wal_errors k + 1)))
  | Ok _ =>
      let '(j, seq, sent) := log_command e k c in
      let! x := process ho (processor k) c in
      Ret (mkCore x.1 j a.1 sent seq (result_tx k ++ x.2) (snapshots k) (handled k ++ [c]) (asset_wal_errors k))
  end.

Fixpoint handle (e : Env) (k : Core) (c : Command) {struct c} : outcome Core :=
  match c with
  | CBatch cmds =>
      (fix go (k : Core) (cs : list Command) : outcome Core :=
         match cs with
         | [] => Ret k
         | c :: cs => let! k := handle e k c in go k cs
         end) k cmds
  | _ => handle_flat e k c
  end.

(** ** The depth feed *)
Definition side_depth (i : InstrumentId) (s : Side) (levels : list (Price * Qty)) : list ExecReport :=
  imap (fun k pq => RDepthLevel i s (Z.of_nat k mod 256) pq.1 pq.2) levels.

Definition engine_depth (ie : Z * MatchingEngine) : outcome (list ExecReport) :=
  let b := book ie.2 in
  if OrderBook.is_empty b then Ret []
  else
    let! bids := OrderBook.top_levels b Buy DEPTH_LEVELS in
    let! asks := OrderBook.top_levels b Sell DEPTH_LEVELS in
    Ret (side_depth ie.1 Buy bids ++ side_depth ie.1 Sell asks ++
         [RDepthEnd ie.1 (Z.of_nat (length bids) mod 256) (Z.of_nat (length asks) mod 256)]).

Definition maybe_publish_depth (e : Env) (k : Core) : outcome Core :=
  if e_depth e then
    let! out := ofold (fun acc ie => let! d := engine_depth ie in Ret (acc ++ d)) [] (eo (engines (processor k))) in
    Ret (mkCore (processor k) (journal k) (asset_journal k) (rep k) (rep_seq k) (result_tx k ++ out) (snapshots k)
           (handled k) (asset_wal_errors k))
  else Ret k.

(** ** Snapshots *)
Definition take_snapshot (k : Core) : outcome Core :=
  if negb snapshot_path then Ret k
  else
    let j := JournalWriter.flush <$> journal k in
    let journal_seq := from_option JournalWriter.seq 0 j in
    let! d := snapshot_data ho eo zo po (processor k) journal_seq 0 in
    Ret (mkCore (processor k) (JournalWriter.truncate <$> j) (asset_journal k) (rep k) (rep_seq k) (result_tx k)
           (snapshots k ++ [d]) (handled k) (asset_wal_errors k)).

(** ** [run] *)

(** After the loop: the final snapshot and the flushes. *)
Definition finish (k : Core) : outcome Core :=
  let! k := if snapshot_every then take_snapshot k else Ret k in
  Ret (mkCore (processor k) (JournalWriter.flush <$> journal k) (AssetJournalSet.flush_all <$> asset_journal k) (rep k)
         (rep_seq k) (result_tx k) (snapshots k) (handled k) (asset_wal_errors k)).

Definition high_lane (k : nat) : Lane := match k with O => ShardHigh | S k => BoxHigh k end.

Definition idle (l : Lanes) : bool :=
  bool_decide (high_rx l = []) && bool_decide (normal_rx l = []) &&
  forallb (fun b => bool_decide (box_high b = []) && bool_decide (box_normal b = [])) (instrument_rx l).

(** [self.next_instrument = (self.next_instrument + 1) % len] *)
Definition advance (l : Lanes) : Lanes :=
  mkLanes (high_rx l) (normal_rx l) (instrument_rx l) ((next_instrument l + 1) mod length (instrument_rx l)).

(** One step of the shard's thread; [started] and [running] are the shared flags,
    the integer is what it adds to the shared count of parked shards. *)
Definition step (started running : bool) (e : Env) (s : Shard) : outcome (Shard * Z) :=
  let go pc := Ret (mkShardState (lanes s) (core s) pc (worked s) (is_parked s), 0) in
  let take c l pc := let! k := handle e (core s) c in Ret (mkShardState l k pc true (is_parked s), 0) in
  let stop parked delta := let! k := finish (core s) in
    Ret (mkShardState (lanes s) k Stopped (worked s) false, delta - (if parked : bool then 1 else 0)) in
  match pc s with
  | Top =>
      if started then
        if is_parked s then go Unpark else Ret (mkShardState (lanes s) (core s) (High 0 None) false false, 0)
      else Ret (mkShardState (lanes s) (core s) Waiting (worked s) true, if is_parked s then 0 else 1)
  | Waiting => if running then go Top else stop (is_parked s) 0
  | Unpark => Ret (mkShardState (lanes s) (core s) (High 0 None) false false, -1)
  | High k back =>
      match pop (lanes s) (high_lane k) with
      | Some (c, l) => take c l (High k back)
      | None => if (k <? length (instrument_rx (lanes s)))%nat then go (High (S k) back)
                else go (Normal (default 0%nat back))
      end
  | Normal n => if (n <? NORMAL_BATCH)%nat then go (Probe n (length (instrument_rx (lanes s)))) else go TurnEnd
  | Probe n (S j) =>
      let index := (next_instrument (lanes s) mod length (instrument_rx (lanes s)))%nat in
      match pop (advance (lanes s)) (BoxNormal index) with
      | Some (c, l) => take c l (High 0 (Some (S n)))
      | None => Ret (mkShardState (advance (lanes s)) (core s) (Probe n j) (worked s) (is_parked s), 0)
      end
  | Probe n O =>
      match pop (lanes s) ShardNormal with
      | Some (c, l) => take c l (High 0 (Some (S n)))
      | None => go TurnEnd
      end
  | TurnEnd =>
      if worked s then
        let! k := maybe_publish_depth e (core s) in Ret (mkShardState (lanes s) k Top (worked s) (is_parked s), 0)
      else if negb running && idle (lanes s) then stop (is_parked s) 0
      else
        let k := core s in
        let k := mkCore (processor k) ((fun j => JournalWriter.tick j (e_due e)) <$> journal k) (asset_journal k) (rep k)
                   (rep_seq k) (result_tx k) (snapshots k) (handled k) (asset_wal_errors k) in
        let! k := if e_snapshot e && snapshot_path then take_snapshot k else Ret k in
        let! k := maybe_publish_depth e k in
        Ret (mkShardState (lanes s) k Top (worked s) (is_parked s), 0)
  | Stopped => Ret (s, 0)
  end.

End shard.

(** ** The exchange *)
Record Exchange := mkExchange {
  members : list Shard;
  running : bool;
  started : bool;
  parked : Z
}.

(** [OrderGateway::submit]: [None] is [Err(cmd)], a full queue. *)
Definition submit (cfg : ExchangeConfig) (x : Exchange) (c : Command) : outcome (option Exchange) :=
  let '(n, a) := route cfg c in
  let! s := expect (members x !! n) "index out of bounds" in
  Ret ((fun l => mkExchange (<[n := mkShardState l (core s) (pc s) (worked s) (is_parked s)]> (members x))
                   (running x) (started x) (parked x)) <$> push (queue_capacity cfg) (lanes s) a c).

(** [ExchangeHandle]: [pause] first clears the flag and then waits for the count. *)
Definition resume (x : Exchange) : Exchange := mkExchange (members x) (running x) true (parked x).
Definition pause (x : Exchange) : Exchange := mkExchange (members x) (running x) false (parked x).
Definition pause_done (x : Exchange) : bool := Z.of_nat (length (members x)) <=? parked x.
Definition shutdown_started (x : Exchange) : Exchange := mkExchange (members x) (running x) true (parked x).
Definition shutdown_running (x : Exchange) : Exchange := mkExchange (members x) false (started x) (parked x).

(** [build_inner]: a shard before it runs, from its files ([None]: no journal
    directory; the asset directory may be empty). *)
Definition empty_lanes (boxes : nat) : Lanes := mkLanes [] [] (replicate boxes (mkBox [] [])) 0.

Definition configured (cfg : ExchangeConfig) (shard : nat) : Processor :=
  let p := Processor.new (strategy cfg) (price_guard cfg) in
  let p := with_fees (with_dedup (with_limits (with_stp p (cfg_stp cfg)) (risk_limits cfg)) (dedup_commands cfg)) (cfg_fees cfg) in
  foldl create_book p (owned cfg shard).

Definition build_shard (ho : OrderBook -> list (Z * nat)) (cfg : ExchangeConfig) (replicated : bool) (shard : nat)
    (files : option (option bytes * option bytes * gmap Z bytes)) (buffer : nat) : outcome Shard :=
  let p := configured cfg shard in
  let! k :=
    match files with
    | None => Ret (mkCore p None None (if replicated then Some [] else None) 0 [] [] [] 0)
    | Some (snapshot_file, journal_file, assets) =>
        let! r := recover_stats ho p snapshot_file journal_file in
        match r with
        | Err why => Panic why
        | Ok (p, _, last_seq) =>
            match JournalWriter.open_with_capacity (default [] journal_file) buffer with
            | Err why => Panic why
            | Ok w => Ret (mkCore p (Some (JournalWriter.resume_from w last_seq)) (Some (AssetJournalSet.open assets None None))
                             (if replicated then Some [] else None) 0 [] [] [] 0)
            end
        end
    end in
  Ret (mkShardState (empty_lanes (length (owned cfg shard))) k Top false false).

(** ** Lanes *)
Definition valid (l : Lanes) (a : Lane) : Prop :=
  match a with BoxHigh k | BoxNormal k => (k < length (instrument_rx l))%nat | _ => True end.

Lemma lane_set l a q b : valid l a -> lane (set_lane l a q) b = if decide (a = b) then q else lane l b.
Proof.
  intros Hv. destruct a as [| |k|k], b as [| |j|j]; cbn; try done; rewrite list_lookup_alter;
    (destruct (decide (k = j)) as [->|Hne]; [rewrite ?decide_True by done; apply lookup_lt_is_Some in Hv as [bx ->]; done
                                            |rewrite ?(decide_False (P := _ k = _ j)) by congruence; done]) || done.
Qed.

Lemma boxes_set l a q : length (instrument_rx (set_lane l a q)) = length (instrument_rx l) /\
  next_instrument (set_lane l a q) = next_instrument l.
Proof. destruct a; cbn; by rewrite ?length_alter. Qed.

Lemma lane_valid l a : lane l a <> [] -> valid l a.
Proof.
  destruct a as [| |k|k]; cbn; try done; destruct (instrument_rx l !! k) eqn:E; try done; intros _; by eapply lookup_lt_Some.
Qed.

Lemma pop_spec l a c l' : pop l a = Some (c, l') ->
  lane l a = c :: lane l' a /\ (forall b, b <> a -> lane l' b = lane l b) /\
  length (instrument_rx l') = length (instrument_rx l) /\ next_instrument l' = next_instrument l.
Proof.
  unfold pop. destruct (lane l a) as [|x q] eqn:E; [done|]. intros [= -> <-].
  assert (Hv : valid l a) by (apply lane_valid; by rewrite E). rewrite lane_set, decide_True by done.
  destruct (boxes_set l a q) as [-> ->]. split_and!; [done| |done|done]. intros b Hb. by rewrite lane_set, decide_False by done.
Qed.

Lemma pop_none l a : pop l a = None <-> lane l a = [].
Proof. unfold pop. by destruct (lane l a). Qed.

Lemma push_spec cap l a c l' : valid l a -> push cap l a c = Some l' ->
  lane l' a = lane l a ++ [c] /\ (forall b, b <> a -> lane l' b = lane l b) /\
  length (instrument_rx l') = length (instrument_rx l) /\ next_instrument l' = next_instrument l.
Proof.
  intros Hv. unfold push. case_if; [|done]. intros [= <-]. rewrite lane_set, decide_True by done.
  destruct (boxes_set l a (lane l a ++ [c])) as [-> ->]. split_and!; [done| |done|done].
  intros b Hb. by rewrite lane_set, decide_False by done.
Qed.

(** The gateway only names lanes that exist. *)
Lemma mailbox_spec cfg i k : mailbox cfg i = Some k -> owned cfg (shard_of cfg i) !! k = Some i.
Proof.
  unfold mailbox. set (f := fun found (ki : nat * Z) => if ki.2 =? i then Some ki.1 else found).
  assert (Hgen : forall l n acc, foldl f acc (imap (fun k x => (n + k, x)%nat) l) = Some k ->
    acc = Some k \/ exists j, l !! j = Some i /\ k = (n + j)%nat).
  { induction l as [|x l IH]; intros n acc; cbn [imap foldl]; [by left|]. intros E.
    assert (E' : foldl f (f acc (n + 0, x)%nat) (imap (fun k x => (S n + k, x)%nat) l) = Some k).
    { rewrite <-E. f_equal. apply imap_ext. intros. cbn. f_equal. lia. }
    apply IH in E' as [Ea|(j & Hj & ->)]; [|right; exists (S j); split; [done|lia]].
    unfold f in Ea. cbn in Ea. destruct (Z.eqb_spec x i) as [->|]; [|by left]. injection Ea as <-.
    right. exists 0%nat. split; [done|lia]. }
  intros E. specialize (Hgen (owned cfg (shard_of cfg i)) 0%nat None E) as [|(j & Hj & ->)]; done.
Qed.

Lemma route_valid cfg c l : length (instrument_rx l) = length (owned cfg (route cfg c).1) -> valid l (route cfg c).2.
Proof.
  intros Hl. unfold route in *. cbn in *. destruct (mailbox cfg (Command.instrument c)) as [k|] eqn:E.
  - apply mailbox_spec in E. apply lookup_lt_Some in E. destruct (Command.is_high_priority c); cbn; lia.
  - by destruct (Command.is_high_priority c).
Qed.

(** ** [handle] *)
Fixpoint flatten (c : Command) : list Command :=
  match c with
  | CBatch cs => (fix go (cs : list Command) : list Command := match cs with [] => [] | c :: cs => flatten c ++ go cs end) cs
  | _ => [c]
  end.

Lemma flatten_flat c : Command.is_flat c = true -> flatten c = [c].
Proof. by destruct c. Qed.

Lemma handle_flatten ho wo sid e k c : handle ho wo sid e k c = ofold (handle_flat ho wo sid e) k (flatten c).
Proof.
  revert k. induction c as [c Hf|cs IH] using command_ind; intros k.
  - rewrite flatten_flat by done. cbn [ofold]. destruct c; try done; cbn [handle]; by destruct (handle_flat _ _ _ _ _ _).
  - revert k. induction IH as [|c cs Hc Hcs IHcs]; intros k; [done|].
    change (handle ho wo sid e k (CBatch (c :: cs))) with
      (let! k := handle ho wo sid e k c in handle ho wo sid e k (CBatch cs)).
    change (flatten (CBatch (c :: cs))) with (flatten c ++ flatten (CBatch cs)). rewrite ofold_app, Hc.
    destruct (ofold _ k (flatten c)) as [k'|]; [|done]. cbn [obind]. apply IHcs.
Qed.

(** ** What a shard's state is a function of *)
Lemma holds_truncate w recs : journal_holds w recs ->
  journal_holds (JournalWriter.truncate w) [] /\ JournalWriter.seq (JournalWriter.truncate w) = JournalWriter.seq w.
Proof.
  intros (_ & _ & Hs & _). unfold JournalWriter.truncate, JournalWriter.write_all.
  cbn [JournalWriter.flush_buf JournalWriter.buf JournalWriter.cap JournalWriter.file length app].
  destruct (JournalWriter.cap w <? _)%nat; cbn [JournalWriter.flush_buf JournalWriter.cap];
    (destruct (JournalWriter.cap w <=? _)%nat; (split; [|done]); split_and!; try done; cbn; lia).
Qed.

Definition env_ok (e : Env) : Prop := is_u64 (e_ts e) /\ is_u64 (e_asset_ts e).

Section core.
Context (ho : OrderBook -> list (Z * nat)) (wo : gmap Z CachedWriter -> list (Z * CachedWriter)).
Context (Hwo : forall m, wo m ≡ₚ map_to_list m).
Context (sid : Z) (p0 : Processor) (q0 N : Z) (frames0 : list bytes) (assets0 : Z -> list bytes).
Context (Hq : 0 <= q0 /\ q0 + N <= U64_MAX) (Hassets : forall i, Z.of_nat (length (assets0 i)) + N <= U64_MAX).

(** The frames the journal holds: those of the commands handled since the last
    snapshot, whose journal number is that of the last command it covers. *)
Definition since (snaps : list SnapshotData) (cs : list Command) : list bytes :=
  match last snaps with
  | None => frames0 ++ (encode_command <$> cs)
  | Some d => drop (Z.to_nat (d_journal_seq d - q0)) (encode_command <$> cs)
  end.

Definition covers (snaps : list SnapshotData) (cs : list Command) : Prop :=
  forall d, last snaps = Some d -> q0 <= d_journal_seq d <= q0 + Z.of_nat (length cs).

Lemma since_snoc snaps cs c : covers snaps cs -> since snaps (cs ++ [c]) = since snaps cs ++ [encode_command c].
Proof.
  unfold covers, since. intros H. rewrite fmap_app. destruct (last snaps) as [d|]; [|apply (assoc_L (++))].
  specialize (H d eq_refl). apply drop_app_le. rewrite length_fmap. lia.
Qed.

Lemma covers_snoc snaps cs c : covers snaps cs -> covers snaps (cs ++ [c]).
Proof. intros H d Hd. specialize (H d Hd). rewrite length_app. cbn. lia. Qed.

(** The processor, the reports, the journal, the asset logs and the replication
    stream are all determined by the one list of handled commands. *)
Record core_inv (k : Core) : Prop := {
  ci_run : exists rs, process_all ho p0 (handled k) = Ret (processor k, rs) /\
    filter (fun r => is_depth r = false) (result_tx k) = rs;
  ci_journal : forall w, journal k = Some w -> JournalWriter.seq w = q0 + Z.of_nat (length (handled k)) /\
    covers (snapshots k) (handled k) /\
    exists recs, journal_holds w recs /\ r_frame <$> recs = since (snapshots k) (handled k);
  ci_seq : journal k = None -> is_Some (rep k) -> rep_seq k = q0 + Z.of_nat (length (handled k));
  ci_asset : forall aj, asset_journal k = Some aj -> access_clock aj = Z.of_nat (length (handled k)) /\
    exists logs, set_ok aj logs /\
      forall i, r_frame <$> logs i = assets0 i ++ (encode_command <$> asset_commands i (handled k));
  ci_rep : forall sent, rep k = Some sent ->
    sent = imap (fun n c => rep_record sid (q0 + Z.of_nat n + 1) (encode_command c)) (handled k);
  ci_errors : asset_wal_errors k = 0
}.

Lemma asset_commands_snoc i cs c : asset_commands i (cs ++ [c]) =
  asset_commands i cs ++ (if decide (Command.instrument c = i) then [c] else []).
Proof. unfold asset_commands. rewrite filter_app, filter_cons. by case_decide. Qed.

Lemma asset_commands_length i cs : (length (asset_commands i cs) <= length cs)%nat.
Proof. apply length_filter. Qed.

Lemma process_all_snoc cs p c p1 rs p2 r : process_all ho p cs = Ret (p1, rs) -> process ho p1 c = Ret (p2, r) ->
  process_all ho p (cs ++ [c]) = Ret (p2, rs ++ r).
Proof.
  revert p rs. induction cs as [|x cs IH]; intros p rs H Hc; unfold process_all in *; cbn [in_turn app] in *.
  - injection H as -> <-. rewrite Hc. cbn. by rewrite app_nil_r.
  - apply obind_ret in H as ([p3 r3] & -> & H). apply obind_ret in H as ([p4 r4] & E & H). injection H as -> <-.
    cbn [obind fst snd] in *. rewrite (IH p3 r4) by done. cbn. by rewrite <-(assoc_L (++)).
Qed.

Lemma asset_step e k c : core_inv k -> Z.of_nat (length (handled k)) < N -> flat_ok c -> env_ok e ->
  exists a r, (match asset_journal k with
    | None => Ret (None, Ok 0)
    | Some aj => let! r := AssetJournalSet.append wo aj (e_asset_ts e) (e_asset_due e) c in Ret (Some r.1, r.2)
    end) = Ret (a, Ok r) /\
    forall aj, a = Some aj -> access_clock aj = Z.of_nat (length (handled k ++ [c])) /\ exists logs, set_ok aj logs /\
      forall i, r_frame <$> logs i = assets0 i ++ (encode_command <$> asset_commands i (handled k ++ [c])).
Proof.
  intros Hk Hn Hc [_ Hts]. destruct (asset_journal k) as [aj|] eqn:Ea; [|by exists None, 0].
  destruct (ci_asset k Hk aj Ea) as (Hck & logs & Hok & Hfr).
  assert (Hlen : forall i, length (logs i) = (length (assets0 i) + length (asset_commands i (handled k)))%nat).
  { intros i. specialize (Hfr i). apply (f_equal length) in Hfr. by rewrite length_app, !length_fmap in Hfr. }
  set (i := Command.instrument c). pose proof (Hassets i). pose proof (asset_commands_length i (handled k)).
  destruct (log_append_ok wo Hwo aj logs (e_asset_ts e) (e_asset_due e) c Hok) as (aj' & -> & Hok' & Hop).
  - lia.
  - by split.
  - fold i. rewrite Hlen. lia.
  - cbn [obind fst snd]. eexists _, _. split; [reflexivity|]. intros ? [= <-]. split.
    + rewrite (op_clock _ _ _ Hop), Hck, length_app. cbn. lia.
    + exists (extend logs (e_asset_ts e, e_asset_due e, c)). split; [done|]. intros j.
      unfold extend. cbn [fst snd]. rewrite asset_commands_snoc. fold i. destruct (decide (j = i)) as [->|Hne].
      * rewrite decide_True, !fmap_app, Hfr by done. by rewrite <-(assoc_L (++)).
      * rewrite decide_False, app_nil_r by congruence. apply Hfr.
Qed.

Lemma log_step e k c j seq sent : core_inv k -> Z.of_nat (length (handled k)) < N -> env_ok e ->
  log_command sid e k c = (j, seq, sent) ->
  (forall w, j = Some w -> JournalWriter.seq w = q0 + Z.of_nat (length (handled k ++ [c])) /\
    covers (snapshots k) (handled k ++ [c]) /\
    exists recs, journal_holds w recs /\ r_frame <$> recs = since (snapshots k) (handled k ++ [c])) /\
  (j = None -> is_Some sent -> seq = q0 + Z.of_nat (length (handled k ++ [c]))) /\
  (forall l, sent = Some l ->
    l = imap (fun n c => rep_record sid (q0 + Z.of_nat n + 1) (encode_command c)) (handled k ++ [c])).
Proof.
  intros Hk Hn [Hts _]. unfold log_command. pose proof (ci_rep k Hk) as Hrep. pose proof (ci_seq k Hk) as Hseq.
  assert (Hout : forall seq, seq = q0 + Z.of_nat (length (handled k)) + 1 -> forall l,
    (fun s => s ++ [rep_record sid seq (encode_command c)]) <$> rep k = Some l ->
    l = imap (fun n c => rep_record sid (q0 + Z.of_nat n + 1) (encode_command c)) (handled k ++ [c])).
  { intros sq -> l El. destruct (rep k) as [s|]; [|done]. cbn in El. injection El as <-. rewrite (Hrep s eq_refl), imap_app. cbn.
    by rewrite Nat.add_0_r. }
  destruct (journal k) as [w|] eqn:Ej.
  - rewrite bool_decide_true by done. cbn [orb]. destruct (ci_journal k Hk w Ej) as (Hs & Hcov & recs & Hh & Hf).
    pose proof (holds_append w recs (e_ts e) (encode_command c) (e_due e) Hh Hts (length_encode_command c)) as Hh'.
    pose proof (grows_append w (e_ts e) (encode_command c) (e_due e)) as Hg.
    destruct (JournalWriter.append _ _ _ _) as [w' n]. destruct Hg as (_ & _ & En & Es).
    rewrite Hs, wrap64_small in En by (unfold_width; lia). intros [= <- <- <-]. split_and!; [|done|by apply Hout].
    intros ? [= <-]. split; [rewrite Es, En, length_app; cbn; lia|]. split; [by apply covers_snoc|].
    exists (recs ++ [mkRec n (e_ts e) (encode_command c)]). split; [done|]. by rewrite fmap_app, Hf, since_snoc.
  - destruct (rep k) as [s|] eqn:Er; cbn.
    + rewrite (Hseq eq_refl) by done. rewrite wrap64_small by (unfold_width; lia). intros [= <- <- <-].
      split_and!; [done|intros _ _; rewrite length_app; cbn; lia|]. apply Hout. done.
    + intros [= <- <- <-]. split_and!; [done|by intros _ [? ?]|done].
Qed.

Lemma handle_flat_inv e k c k' : core_inv k -> Z.of_nat (length (handled k)) < N -> flat_ok c -> env_ok e ->
  handle_flat ho wo sid e k c = Ret k' -> core_inv k' /\ handled k' = handled k ++ [c] /\ snapshots k' = snapshots k.
Proof.
  intros Hk Hn Hc He. unfold handle_flat. destruct (asset_step e k c Hk Hn Hc He) as (a & r & -> & Ha). cbn [obind fst snd].
  destruct (log_command sid e k c) as [[j seq] sent] eqn:El. destruct (log_step e k c j seq sent Hk Hn He El) as (H1 & H2 & H3).
  destruct (process ho (processor k) c) as [[p' rs]|] eqn:Ep; cbn [obind fst snd]; [|done]. intros [= <-]. split; [|done].
  destruct (ci_run k Hk) as (rs0 & Er & Hf). split; cbn [handled processor result_tx journal rep rep_seq asset_journal snapshots asset_wal_errors]; try done.
  - exists (rs0 ++ rs). split; [by eapply process_all_snoc|]. rewrite filter_app, Hf. f_equal. apply filter_all.
    intros x Hx. assert (Hfl : Command.is_flat c = true) by by destruct c.
    by apply (proj1 (Forall_forall _ _) (process_about _ _ _ _ _ Hfl Ep)).
  - apply (ci_errors k Hk).
Qed.

(** Steps that handle no command. *)
Definition quiet (k k' : Core) : Prop := handled k' = handled k /\ (core_inv k -> core_inv k').

Lemma quiet_refl k : quiet k k.
Proof. done. Qed.

Lemma quiet_trans k1 k2 k3 : quiet k1 k2 -> quiet k2 k3 -> quiet k1 k3.
Proof. intros [E1 H1] [E2 H2]. split; [congruence|auto]. Qed.

(** Replacing the writers by ones with the same contents. *)
Lemma quiet_writers k j a : 
  (forall w recs, journal k = Some w -> journal_holds w recs ->
     exists w', j = Some w' /\ journal_holds w' recs /\ JournalWriter.seq w' = JournalWriter.seq w) -> (journal k = None -> j = None) ->
  (forall aj logs, asset_journal k = Some aj -> set_ok aj logs ->
     exists aj', a = Some aj' /\ set_ok aj' logs /\ access_clock aj' = access_clock aj) -> (asset_journal k = None -> a = None) ->
  quiet k (mkCore (processor k) j a (rep k) (rep_seq k) (result_tx k) (snapshots k) (handled k) (asset_wal_errors k)).
Proof.
  intros Hj Hjn Ha Han. split; [done|]. intros [C1 C2 C3 C4 C5 C6].
  split; cbn [handled processor result_tx journal rep rep_seq asset_journal snapshots asset_wal_errors]; try done.
  - intros w Ew. destruct (journal k) as [w0|]; [|by rewrite (Hjn eq_refl) in Ew].
    destruct (C2 w0 eq_refl) as (Hs & Hcov & recs & Hh & Hf). destruct (Hj w0 recs eq_refl Hh) as (w' & E' & Hh' & Es).
    assert (w' = w) as -> by congruence. split; [congruence|]. split; [done|by exists recs].
  - intros Ej. apply C3. destruct (journal k) as [w0|]; [|done]. exfalso.
    destruct (C2 w0 eq_refl) as (_ & _ & recs & Hh & _). destruct (Hj w0 recs eq_refl Hh) as (w' & E' & _). congruence.
  - intros aj Ea. destruct (asset_journal k) as [aj0|]; [|by rewrite (Han eq_refl) in Ea].
    destruct (C4 aj0 eq_refl) as (Hck & logs & Hok & Hf). destruct (Ha aj0 logs eq_refl Hok) as (aj' & E' & Hok' & Ec).
    assert (aj' = aj) as -> by congruence. split; [congruence|by exists logs].
Qed.

Lemma quiet_journal k f : (forall w recs, journal_holds w recs -> journal_holds (f w) recs /\ JournalWriter.seq (f w) = JournalWriter.seq w) ->
  quiet k (mkCore (processor k) (f <$> journal k) (asset_journal k) (rep k) (rep_seq k) (result_tx k) (snapshots k)
             (handled k) (asset_wal_errors k)).
Proof.
  intros Hf. apply quiet_writers.
  - intros w recs -> Hh. exists (f w). split; [done|by apply Hf].
  - by intros ->.
  - intros aj logs -> Hok. by exists aj.
  - by intros ->.
Qed.

Lemma engine_depth_rows ie d : engine_depth ie = Ret d -> Forall (fun r => is_depth r = true) d.
Proof.
  unfold engine_depth. case_if; [by intros [= <-]|]. intros H. apply obind_ret in H as (bids & _ & H). apply obind_ret in H as (asks & _ & H).
  injection H as <-. assert (Hs : forall s l, Forall (fun r => is_depth r = true) (side_depth ie.1 s l)).
  { intros s l. apply Forall_lookup. intros n r Hr. unfold side_depth in Hr. rewrite list_lookup_imap in Hr.
    destruct (l !! n); [|done]. by injection Hr as <-. }
  apply Forall_app. split; [apply Hs|]. apply Forall_app. split; [apply Hs|by constructor].
Qed.

Lemma quiet_depth eo e k k' : maybe_publish_depth eo e k = Ret k' -> quiet k k' /\ snapshots k' = snapshots k.
Proof.
  unfold maybe_publish_depth. destruct (e_depth e); [|by intros [= <-]]. intros H. apply obind_ret in H as (out & Eo & H). injection H as <-.
  split; [|done]. split; [done|]. intros [C1 C2 C3 C4 C5 C6].
  split; cbn [handled processor result_tx journal rep rep_seq asset_journal snapshots asset_wal_errors]; try done.
  destruct C1 as (rs & Er & Hf). exists rs. split; [done|]. rewrite filter_app, Hf.
  assert (Hd : Forall (fun r => is_depth r = true) out).
  { revert Eo. generalize (eo (engines (processor k))). intros l. assert (Hnil : Forall (fun r => is_depth r = true) []) by constructor.
    revert Hnil. generalize (@nil ExecReport). induction l as [|ie l IH]; intros acc Hacc; cbn [ofold]; [by intros [= <-]|].
    destruct (engine_depth ie) as [d|] eqn:Ed; [|done]. cbn [obind]. apply IH. apply Forall_app. split; [done|by eapply engine_depth_rows]. }
  rewrite (filter_none _ out), app_nil_r; [done|]. intros r Hr. by rewrite (proj1 (Forall_forall _ _) Hd r Hr).
Qed.

Lemma quiet_snapshot eo zo po path k k' : take_snapshot ho eo zo po path k = Ret k' -> quiet k k'.
Proof.
  unfold take_snapshot. destruct path; cbn [negb]; [|by intros [= <-]]. intros H. apply obind_ret in H as (d & Ed & H). injection H as <-.
  split; [done|]. intros [C1 C2 C3 C4 C5 C6].
  split; cbn [handled processor result_tx journal rep rep_seq asset_journal snapshots asset_wal_errors]; try done.
  - intros w. destruct (journal k) as [w0|]; [|done]. cbn. intros [= <-]. destruct (C2 w0 eq_refl) as (Hs & _ & recs & Hh & _).
    destruct (holds_truncate _ _ (holds_flush _ _ Hh)) as [Ht Es]. split; [by rewrite Es|].
    assert (Hd : d_journal_seq d = q0 + Z.of_nat (length (handled k))).
    { apply obind_ret in Ed as (ss & _ & Ed). injection Ed as <-. exact Hs. }
    unfold covers, since. rewrite last_snoc. split; [intros ? [= <-]; lia|].
    exists []. split; [done|]. rewrite drop_ge; [done|]. rewrite length_fmap. lia.
  - intros Ej. apply C3. by destruct (journal k).
Qed.

Lemma quiet_finish eo zo po path every k k' : finish ho eo zo po path every k = Ret k' -> quiet k k'.
Proof.
  unfold finish. intros H. apply obind_ret in H as (k1 & E1 & H). injection H as <-.
  assert (quiet k k1) as Hq1 by (destruct every; [by eapply quiet_snapshot|by injection E1 as <-]).
  eapply quiet_trans; [exact Hq1|]. apply quiet_writers.
  - intros w recs -> Hh. eexists. split; [done|]. split; [by apply holds_flush|done].
  - by intros ->.
  - intros aj logs -> Hok. eexists. split; [done|]. split; [by apply flush_all_ok|done].
  - by intros ->.
Qed.
End core.

(** ** Runs of a shard *)

(** What the next step takes from the lanes. *)
Definition front (l : Lanes) (a : Lane) : list (Lane * Command) :=
  match lane l a with c :: _ => [(a, c)] | [] => [] end.

Definition probed (l : Lanes) : nat := (next_instrument l mod length (instrument_rx l))%nat.

Definition takes (s : Shard) : list (Lane * Command) :=
  match pc s with
  | High k _ => front (lanes s) (high_lane k)
  | Probe _ (S _) => front (lanes s) (BoxNormal (probed (lanes s)))
  | Probe _ O => front (lanes s) ShardNormal
  | _ => []
  end.

Definition probing (s : Shard) : bool := match pc s with Probe _ (S _) => true | _ => false end.

Definition on_lane (a : Lane) (xs : list (Lane * Command)) : list Command := snd <$> filter (fun x => x.1 = a) xs.

Definition flattened (xs : list (Lane * Command)) : list Command := concat (flatten <$> (snd <$> xs)).

Lemma on_lane_app a xs ys : on_lane a (xs ++ ys) = on_lane a xs ++ on_lane a ys.
Proof. unfold on_lane. by rewrite filter_app, fmap_app. Qed.

Lemma flattened_app xs ys : flattened (xs ++ ys) = flattened xs ++ flattened ys.
Proof. unfold flattened. by rewrite !fmap_app, concat_app. Qed.

Lemma flattened_elem (P : Command -> Prop) a c xs : (a, c) ∈ xs -> Forall P (flattened xs) -> Forall P (flatten c).
Proof.
  intros Hin. apply list_elem_of_split in Hin as (l1 & l2 & ->). change ((a, c) :: l2) with ([(a, c)] ++ l2).
  rewrite !flattened_app, !Forall_app. intros (_ & H & _). unfold flattened in H. cbn in H. by rewrite app_nil_r in H.
Qed.

Lemma flattened_sub (P : Command -> Prop) xs ys : (forall x, x ∈ xs -> x ∈ ys) -> Forall P (flattened ys) -> Forall P (flattened xs).
Proof.
  intros Hsub Hy. induction xs as [|[a c] xs IH]; [constructor|]. change ((a, c) :: xs) with ([(a, c)] ++ xs).
  rewrite flattened_app. apply Forall_app. split; [|apply IH; intros x Hx; apply Hsub; by right].
  unfold flattened. cbn. rewrite app_nil_r. eapply flattened_elem; [apply Hsub; by left|done].
Qed.

Lemma front_pop l a c l' b : pop l a = Some (c, l') -> front l a = [(a, c)] /\ lane l b = on_lane b (front l a) ++ lane l' b.
Proof.
  intros E. destruct (pop_spec l a c l' E) as (Ha & Hb & _). unfold front. rewrite Ha. split; [done|].
  unfold on_lane. destruct (decide (a = b)) as [<-|Hne]; [by rewrite filter_cons_True|].
  rewrite filter_cons_False by done. cbn. symmetry. by apply Hb.
Qed.

Lemma front_empty l a b : pop l a = None -> front l a = [] /\ lane l b = on_lane b (front l a) ++ lane l b.
Proof. rewrite pop_none. unfold front. by intros ->. Qed.

Lemma lane_advance l a : lane (advance l) a = lane l a.
Proof. by destruct a. Qed.

Section runs.
Context (ho : OrderBook -> list (Z * nat)) (wo : gmap Z CachedWriter -> list (Z * CachedWriter)).
Context (Hwo : forall m, wo m ≡ₚ map_to_list m).
Context (eo : gmap Z MatchingEngine -> list (Z * MatchingEngine)) (zo : gset Z -> list Z) (po : gmap (Z * Z) Z -> list (Z * Z * Z)).
Context (sid : Z) (path every : bool).
Context (p0 : Processor) (q0 N : Z) (frames0 : list bytes) (assets0 : Z -> list bytes).
Context (Hq : 0 <= q0 /\ q0 + N <= U64_MAX) (Hassets : forall i, Z.of_nat (length (assets0 i)) + N <= U64_MAX).

Abbreviation shard_step := (step ho wo eo zo po sid path every).
Abbreviation inv := (core_inv ho sid p0 q0 frames0 assets0).

Lemma handle_all_inv e cs k k' : inv k -> Z.of_nat (length (handled k)) + Z.of_nat (length cs) <= N -> Forall flat_ok cs -> env_ok e ->
  ofold (handle_flat ho wo sid e) k cs = Ret k' -> inv k' /\ handled k' = handled k ++ cs.
Proof.
  intros Hk Hn Hc He. revert k Hk Hn. induction Hc as [|c cs Hc Hcs IH]; intros k Hk Hn; cbn [ofold length] in *.
  - intros [= <-]. by rewrite app_nil_r.
  - intros H. apply obind_ret in H as (k1 & E1 & H).
    destruct (handle_flat_inv ho wo Hwo sid p0 q0 N frames0 assets0 Hq Hassets e k c k1 Hk ltac:(lia) Hc He E1) as (Hk1 & Eh & _).
    destruct (IH k1 Hk1) as [Hk' Eh']; [rewrite Eh, length_app; cbn; lia|done|]. split; [done|]. by rewrite Eh', Eh, <-(assoc_L (++)).
Qed.

(** A step takes what [takes] says from the front of its lane and handles it. *)
Lemma step_spec st ru e s s' d : shard_step st ru e s = Ret (s', d) ->
  (forall a, lane (lanes s) a = on_lane a (takes s) ++ lane (lanes s') a) /\
  (length (instrument_rx (lanes s')) = length (instrument_rx (lanes s)) /\
   next_instrument (lanes s') =
     if probing s then ((next_instrument (lanes s) + 1) mod length (instrument_rx (lanes s)))%nat else next_instrument (lanes s)) /\
  match takes s with
  | [] => quiet ho sid p0 q0 frames0 assets0 (core s) (core s')
  | (_, c) :: _ => handle ho wo sid e (core s) c = Ret (core s')
  end.
Proof.
  unfold step, takes, probing. destruct (pc s) as [| | |k back|n|n [|j]| |] eqn:Epc.
  - destruct st; [destruct (is_parked s)|]; intros [= <- <-]; (split; [done|]; split; [done|apply quiet_refl]).
  - destruct ru; [intros [= <- <-]; split; [done|]; split; [done|apply quiet_refl]|].
    intros H. apply obind_ret in H as (k & E & H). injection H as <- <-. split; [done|]. split; [done|by eapply quiet_finish].
  - intros [= <- <-]. split; [done|]. split; [done|apply quiet_refl].
  - destruct (pop (lanes s) (high_lane k)) as [[c l]|] eqn:Ep.
    + intros H. apply obind_ret in H as (k1 & E & H). injection H as <- <-. cbn [lanes core].
      split; [intros a; exact (proj2 (front_pop _ _ _ _ a Ep))|]. split; [by apply pop_spec in Ep as (_ & _ & ? & ?)|].
      destruct (front_pop _ _ _ _ ShardHigh Ep) as [-> _]. done.
    + destruct (front_empty _ _ ShardHigh Ep) as [-> _]. intros H. assert (lanes s' = lanes s /\ core s' = core s) as [-> ->].
      { destruct (_ <? _)%nat; by injection H as <- _. }
      split; [done|]. split; [done|apply quiet_refl].
  - destruct (_ <? _)%nat; intros [= <- <-]; (split; [done|]; split; [done|apply quiet_refl]).
  - destruct (pop (lanes s) ShardNormal) as [[c l]|] eqn:Ep.
    + intros H. apply obind_ret in H as (k1 & E & H). injection H as <- <-. cbn [lanes core].
      split; [intros a; exact (proj2 (front_pop _ _ _ _ a Ep))|]. split; [by apply pop_spec in Ep as (_ & _ & ? & ?)|].
      destruct (front_pop _ _ _ _ ShardHigh Ep) as [-> _]. done.
    + destruct (front_empty _ _ ShardHigh Ep) as [-> _]. intros [= <- <-]. split; [done|]. split; [done|apply quiet_refl].
  - change (front (lanes s) (BoxNormal (probed (lanes s)))) with (front (advance (lanes s)) (BoxNormal (probed (lanes s)))).
    change (next_instrument (lanes s) mod length (instrument_rx (lanes s)))%nat with (probed (lanes s)).
    destruct (pop (advance (lanes s)) _) as [[c l]|] eqn:Ep.
    + intros H. apply obind_ret in H as (k1 & E & H). injection H as <- <-. cbn [lanes core].
      split; [intros a; exact (proj2 (front_pop _ _ _ _ a Ep))|]. split; [by apply pop_spec in Ep as (_ & _ & ? & ?)|].
      destruct (front_pop _ _ _ _ ShardHigh Ep) as [-> _]. done.
    + destruct (front_empty _ _ ShardHigh Ep) as [-> _]. intros [= <- <-]. cbn [lanes core].
      split; [intros a; by rewrite lane_advance|]. split; [done|apply quiet_refl].
  - destruct (worked s).
    { intros H. apply obind_ret in H as (k & E & H). injection H as <- <-. split; [done|]. split; [done|]. by eapply quiet_depth. }
    destruct (negb ru && _).
    { intros H. apply obind_ret in H as (k & E & H). injection H as <- <-. split; [done|]. split; [done|by eapply quiet_finish]. }
    intros H. apply obind_ret in H as (k1 & E1 & H). apply obind_ret in H as (k2 & E2 & H). injection H as <- <-. cbn [lanes core].
    split; [done|]. split; [done|]. eapply quiet_trans; [apply (quiet_journal _ _ _ _ _ _ (core s) (fun j => JournalWriter.tick j (e_due e)))|].
    { intros w recs Hh. unfold JournalWriter.tick. case_if; [split; [by apply holds_flush|done]|done]. }
    eapply quiet_trans; [|by eapply quiet_depth]. destruct (_ && _); [by eapply quiet_snapshot|injection E1 as <-; apply quiet_refl].
  - intros [= <- <-]. split; [done|]. split; [done|apply quiet_refl].
Qed.

(** A shard's life: commands arrive in its lanes and its thread takes steps, in
    any order and whatever the flags and the clock read; with the commands
    accepted and the commands taken so far. *)
Inductive runs (cap : nat) (s0 : Shard) : list (Lane * Command) -> list (Lane * Command) -> Shard -> Prop :=
| runs_start : runs cap s0 [] [] s0
| runs_arrive acc tk s a c l : runs cap s0 acc tk s -> valid (lanes s) a -> push cap (lanes s) a c = Some l ->
    runs cap s0 (acc ++ [(a, c)]) tk (mkShardState l (core s) (pc s) (worked s) (is_parked s))
| runs_step acc tk s s' st ru e d : runs cap s0 acc tk s -> env_ok e -> shard_step st ru e s = Ret (s', d) ->
    runs cap s0 acc (tk ++ takes s) s'.

Definition fresh_shard (s : Shard) : Prop := (forall a, lane (lanes s) a = []) /\ inv (core s) /\ handled (core s) = [].

Lemma takes_sub cap s0 acc tk s : fresh_shard s0 -> runs cap s0 acc tk s ->
  forall a, on_lane a acc = on_lane a tk ++ lane (lanes s) a.
Proof.
  intros (Hl & _) Hr. induction Hr as [|acc tk s b c l Hr IH Hv Hp|acc tk s s' st ru e d Hr IH He Hs]; intros a.
  - by rewrite Hl.
  - destruct (push_spec cap (lanes s) b c l Hv Hp) as (E1 & E2 & _). cbn [lanes]. rewrite on_lane_app, IH, <-(assoc_L (++)). f_equal.
    unfold on_lane. destruct (decide (b = a)) as [->|Hne]; [by rewrite filter_cons_True, E1|].
    rewrite filter_cons_False by done. cbn. by rewrite app_nil_r, E2 by congruence.
  - rewrite on_lane_app, IH, <-(assoc_L (++)). f_equal. by apply (step_spec _ _ _ _ _ _ Hs).
Qed.

Lemma in_lane a x xs : (a, x) ∈ xs <-> x ∈ on_lane a xs.
Proof.
  unfold on_lane. rewrite list_elem_of_fmap. setoid_rewrite list_elem_of_filter. split.
  - intros H. by exists (a, x).
  - intros ([b y] & -> & <- & H). done.
Qed.

Lemma runs_inv cap s0 acc tk s : fresh_shard s0 -> runs cap s0 acc tk s ->
  Forall flat_ok (flattened acc) -> Z.of_nat (length (flattened tk)) <= N ->
  inv (core s) /\ handled (core s) = flattened tk.
Proof.
  intros Hf Hr. pose proof Hf as (Hl & Hi & Hh). induction Hr as [|acc tk s b c l Hr IH Hv Hp|acc tk s s' st ru e d Hr IH He Hs]; intros Hok Hn.
  - done.
  - cbn [core]. rewrite flattened_app in Hok. apply Forall_app in Hok as [Hok _]. by apply IH.
  - rewrite flattened_app, length_app in Hn. destruct IH as [Hk Eh]; [done|lia|].
    destruct (step_spec _ _ _ _ _ _ Hs) as (Hlane & _ & Hcore). rewrite flattened_app.
    destruct (takes s) as [|[a c] rest] eqn:Et.
    + destruct Hcore as [E Hq']. split; [by apply Hq'|]. by rewrite E, Eh, app_nil_r.
    + assert (rest = []) as ->.
      { unfold takes, front in Et. repeat case_match; by simplify_eq. }
      assert (Hin : (a, c) ∈ acc).
      { apply in_lane. rewrite (takes_sub cap s0 acc tk s Hf Hr a), Hlane. apply elem_of_app. right. apply elem_of_app. left.
        by apply in_lane; left. }
      pose proof (flattened_elem flat_ok a c acc Hin Hok) as Hfc.
      cbn [flattened fmap list_fmap snd concat] in *. unfold flattened in *. cbn in *. rewrite app_nil_r in *.
      rewrite handle_flatten in Hcore. rewrite <-Eh in Hn.
      destruct (handle_all_inv e (flatten c) (core s) (core s') Hk ltac:(lia) Hfc He Hcore) as [Hk' Eh']. split; [done|]. by rewrite Eh', Eh.
Qed.

(** C6: The shard.  Let a shard start with empty lanes and consistent files.
    Whatever the interleaving of arriving commands with the
    steps of a shard's thread, and whatever its flags and clocks read: from each
    lane the shard takes exactly the commands accepted into it, in order, none
    lost, repeated or overtaken within the lane; and the one sequence of taken
    commands, batches flattened, determines everything else.  The processor is
    the result of processing that sequence, the result queue carries exactly its
    reports (besides depth rows), the journal holds exactly the frames
    of the commands after the last snapshot (those numbered above the journal
    number it records; with no snapshot, all of them after what the journal held at
    the start), every asset log its own instrument's, and the replication stream
    all of them with consecutive numbers.  The commands have their fields in range,
    and the numbers taken stay within 64 bits. *)
Theorem shard_runs_exact (cap : nat) (s0 s : Shard) (acc tk : list (Lane * Command)) :
  fresh_shard s0 -> runs cap s0 acc tk s -> Forall flat_ok (flattened acc) -> Z.of_nat (length (flattened tk)) <= N ->
  (forall a, on_lane a acc = on_lane a tk ++ lane (lanes s) a) /\
  process_all ho p0 (flattened tk) = Ret (processor (core s), filter (fun r => is_depth r = false) (result_tx (core s))) /\
  (forall w, journal (core s) = Some w -> exists recs, journal_holds w recs /\
     match last (snapshots (core s)) with
     | None => r_frame <$> recs = frames0 ++ (encode_command <$> flattened tk)
     | Some d => q0 <= d_journal_seq d <= q0 + Z.of_nat (length (flattened tk)) /\
         r_frame <$> recs = drop (Z.to_nat (d_journal_seq d - q0)) (encode_command <$> flattened tk)
     end) /\
  (forall aj, asset_journal (core s) = Some aj -> exists logs, set_ok aj logs /\
     forall i, r_frame <$> logs i = assets0 i ++ (encode_command <$> asset_commands i (flattened tk))) /\
  (forall sent, rep (core s) = Some sent ->
     sent = imap (fun n c => rep_record sid (q0 + Z.of_nat n + 1) (encode_command c)) (flattened tk)).
Proof.
  intros Hf Hr Hok Hn. destruct (runs_inv cap s0 acc tk s Hf Hr Hok Hn) as ([C1 C2 C3 C4 C5 C6] & Eh). rewrite Eh in *.
  split_and!; [by eapply takes_sub| | | |done].
  - destruct C1 as (rs & E & <-). done.
  - intros w Hw. destruct (C2 w Hw) as (_ & Hcov & recs & Hh & Hfr). exists recs. split; [done|].
    unfold since in Hfr. unfold covers in Hcov. destruct (last _) as [d|]; [|done]. split; [by apply Hcov|done].
  - intros aj Ha. by apply C4.
Qed.

End runs.

(** ** Waiting times *)
Section waiting.
Context (ho : OrderBook -> list (Z * nat)) (wo : gmap Z CachedWriter -> list (Z * CachedWriter)).
Context (eo : gmap Z MatchingEngine -> list (Z * MatchingEngine)) (zo : gset Z -> list Z) (po : gmap (Z * Z) Z -> list (Z * Z * Z)).
Context (sid : Z) (path every : bool).
Abbreviation shard_step := (step ho wo eo zo po sid path every).

Lemma step_lanes st ru e s s' d : shard_step st ru e s = Ret (s', d) ->
  (forall a, lane (lanes s) a = on_lane a (takes s) ++ lane (lanes s') a) /\
  length (instrument_rx (lanes s')) = length (instrument_rx (lanes s)) /\
  next_instrument (lanes s') =
    if probing s then ((next_instrument (lanes s) + 1) mod length (instrument_rx (lanes s)))%nat else next_instrument (lanes s).
Proof.
  intros H. destruct (step_spec ho wo eo zo po sid path every (Processor.new PriceTimePriority.strategy None) 0 [] (fun _ => []) _ _ _ _ _ _ H)
    as (Hl & Hb & _). done.
Qed.

(** How many mailboxes are tried before mailbox [j]. *)
Definition rank (l : Lanes) (j : nat) : nat :=
  if (probed l <=? j)%nat then (j - probed l)%nat else (j + length (instrument_rx l) - probed l)%nat.

Lemma rank_next (x j len : nat) : (j < len)%nat -> (x < len)%nat -> x <> j ->
  S (if ((x + 1) mod len <=? j)%nat then j - (x + 1) mod len else j + len - (x + 1) mod len)%nat =
  (if (x <=? j)%nat then j - x else j + len - x)%nat.
Proof.
  intros Hj Hx Hne. destruct (decide (x + 1 = len)%nat) as [E|E].
  - rewrite E, Nat.Div0.mod_same. cbn. destruct (Nat.leb_spec x j); lia.
  - rewrite Nat.mod_small by lia. destruct (Nat.leb_spec x j), (Nat.leb_spec (x + 1) j); lia.
Qed.

(** A stretch of a shard's life, with the number of mailboxes tried and the
    commands taken in it. *)
Inductive stretch (cap : nat) : Shard -> nat -> list (Lane * Command) -> Shard -> Prop :=
| stretch_nil s : stretch cap s 0 [] s
| stretch_arrive s a c l n tk s' : valid (lanes s) a -> push cap (lanes s) a c = Some l ->
    stretch cap (mkShardState l (core s) (pc s) (worked s) (is_parked s)) n tk s' -> stretch cap s n tk s'
| stretch_step s s1 st ru e d n tk s' : shard_step st ru e s = Ret (s1, d) -> stretch cap s1 n tk s' ->
    stretch cap s ((if probing s then 1 else 0) + n) (takes s ++ tk) s'.

Definition from_box (x : Lane * Command) : bool := match x.1 with BoxNormal _ => true | _ => false end.

(** What a step that is not a probe takes is not a mailbox's new order. *)
Lemma takes_not_probing s x : probing s = false -> x ∈ takes s -> from_box x = false.
Proof.
  unfold probing, takes. destruct (pc s) as [| | |k back|n|n [|j]| |]; try done; intros _ Hx; try (by apply elem_of_nil in Hx).
  - unfold front in Hx. destruct (lane _ _); [by apply elem_of_nil in Hx|]. apply list_elem_of_singleton in Hx as ->. by destruct k.
  - unfold front in Hx. destruct (lane _ _); [by apply elem_of_nil in Hx|]. by apply list_elem_of_singleton in Hx as ->.
Qed.

Lemma takes_probing s : probing s = true -> takes s = front (lanes s) (BoxNormal (probed (lanes s))).
Proof. unfold probing, takes. by destruct (pc s) as [| | |k back|n|n [|j]| |]. Qed.

(** C24: Fairness.  A new order at the front of an instrument's mailbox is taken
    after at most as many other mailboxes' orders as there are mailboxes before
    it in the rotation, whatever arrives in the meantime: no instrument starves
    another. *)
Theorem mailbox_bounded_wait (cap : nat) (s s' : Shard) (j n : nat) (c : Command) (q : list Command) (tk : list (Lane * Command)) :
  stretch cap s n tk s' -> lane (lanes s) (BoxNormal j) = c :: q -> (rank (lanes s) j < n)%nat ->
  exists tk1 tk2, tk = tk1 ++ (BoxNormal j, c) :: tk2 /\
    (length (filter (fun x => from_box x = true) tk1) <= rank (lanes s) j)%nat.
Proof.
  intros Hst. revert q. induction Hst as [s|s a x l n tk s' Hv Hp Hst IH|s s1 st ru e d n tk s' Hs Hst IH]; intros q Hj Hn; [lia| |].
  - destruct (push_spec cap (lanes s) a x l Hv Hp) as (E1 & E2 & E3 & E4). cbn [lanes] in IH.
    assert (Er : rank l j = rank (lanes s) j) by (unfold rank, probed; by rewrite E3, E4). rewrite Er in IH.
    destruct (decide (a = BoxNormal j)) as [->|Ha].
    + apply (IH (q ++ [x])); [by rewrite E1, Hj|done].
    + apply (IH q); [rewrite E2 by congruence; done|done].
  - destruct (step_lanes _ _ _ _ _ _ Hs) as (Hl & E3 & E4). specialize (Hl (BoxNormal j)). rewrite Hj in Hl.
    assert (Hjl : (j < length (instrument_rx (lanes s)))%nat) by (apply (lane_valid _ (BoxNormal j)); by rewrite Hj).
    assert (Hkeep : on_lane (BoxNormal j) (takes s) = [] -> lane (lanes s1) (BoxNormal j) = c :: q).
    { intros E. rewrite E in Hl. done. }
    destruct (probing s) eqn:Ep.
    + pose proof (takes_probing s Ep) as Et. destruct (decide (probed (lanes s) = j)) as [Ej|Ej].
      * exists [], tk. rewrite Et, Ej. unfold front. rewrite Hj. split; [done|cbn; lia].
      * assert (Ho : on_lane (BoxNormal j) (takes s) = []).
        { rewrite Et. unfold front, on_lane. destruct (lane (lanes s) (BoxNormal (probed (lanes s)))); [done|]. by rewrite filter_cons_False by (cbn; congruence). }
        assert (Er : S (rank (lanes s1) j) = rank (lanes s) j).
        { unfold rank, probed. rewrite E3, E4. rewrite Nat.Div0.mod_mod. rewrite <-(Nat.Div0.add_mod_idemp_l (next_instrument (lanes s))).
          apply rank_next; [done|apply Nat.mod_upper_bound; lia|done]. }
        destruct (IH q (Hkeep Ho)) as (tk1 & tk2 & -> & Hlen); [cbn in Hn; lia|].
        exists (takes s ++ tk1), tk2. split; [by rewrite <-(assoc_L (++))|]. rewrite filter_app, length_app.
        assert (length (filter (fun x => from_box x = true) (takes s)) <= 1)%nat; [|lia].
        etrans; [apply length_filter|]. rewrite Et. unfold front. destruct (lane (lanes s) (BoxNormal (probed (lanes s)))); cbn; lia.
    + assert (Hnb : forall x, x ∈ takes s -> from_box x = false) by (intros x Hx; by apply (takes_not_probing s)).
      assert (Ho : on_lane (BoxNormal j) (takes s) = []).
      { unfold on_lane. rewrite filter_none; [done|]. intros [b y] Hx Eb. cbn in Eb. subst b. by specialize (Hnb _ Hx). }
      assert (Er : rank (lanes s1) j = rank (lanes s) j) by (unfold rank, probed; by rewrite E3, E4).
      destruct (IH q (Hkeep Ho)) as (tk1 & tk2 & -> & Hlen); [cbn in Hn; lia|].
      exists (takes s ++ tk1), tk2. split; [by rewrite <-(assoc_L (++))|]. rewrite filter_app, (filter_none _ (takes s)); [cbn; lia|].
      intros x Hx. by rewrite Hnb.
Qed.
End waiting.

(** ** Starting *)
Lemma empty_lane n a : lane (empty_lanes n) a = [].
Proof.
  destruct a as [| |k|k]; cbn; try done; destruct (replicate n (mkBox [] []) !! k) as [b|] eqn:E; try done;
    apply lookup_replicate in E as [-> _]; done.
Qed.

(** A shard without persistence, or started on an empty directory. *)
Lemma built_fresh ho cfg replicated n files buffer s : files = None \/ files = Some (None, None, ∅) ->
  build_shard ho cfg replicated n files buffer = Ret s ->
  fresh_shard ho (Z.of_nat n) (configured cfg n) 0 [] (fun _ => []) s /\ pc s = Top /\ is_parked s = false.
Proof.
  intros Hf. assert (Hrep : forall sent, (if replicated then Some (@nil bytes) else None) = Some sent -> sent = []).
  { intros sent. destruct replicated; congruence. }
  destruct Hf as [->| ->]; unfold build_shard; cbn; intros [= <-]; (split; [|done]); split_and!; try apply empty_lane; try done; split; cbn; try done;
    try (by eexists; split; [done|]).
  - intros w [= <-]. split; [done|]. split; [by intros d|]. exists []. split; [split_and!; try done; cbn; lia|done].
  - intros aj [= <-]. split; [done|]. exists (fun _ => []). split; [|done]. apply open_ok.
    + intros i. by rewrite lookup_empty.
    + intros i. split; [constructor|by intros k r Hr].
Qed.

(** ** A standby of a running shard *)

(** One shard's records, numbered from [n + 1]. *)
Fixpoint numbered_from (sid n : Z) (cs : list Command) : list (Z * Z * Command) :=
  match cs with
  | [] => []
  | c :: cs => (sid, n + 1, c) :: numbered_from sid (n + 1) cs
  end.

Lemma numbered_records sid n cs : records (numbered_from sid n cs) =
  imap (fun k c => rep_record sid (n + Z.of_nat k + 1) (encode_command c)) cs.
Proof.
  revert n. induction cs as [|c cs IH]; intros n; [done|]. cbn [numbered_from records fmap list_fmap imap fst snd].
  f_equal; [f_equal; lia|]. unfold records in IH. rewrite IH. apply imap_ext. intros k x _. unfold compose. f_equal. lia.
Qed.

Lemma numbered_commands sid n cs k : commands_of k (numbered_from sid n cs) = if decide (k = sid) then cs else [].
Proof.
  revert n. induction cs as [|c cs IH]; intros n; [by case_decide|]. cbn [numbered_from]. rewrite commands_of_cons, IH. by case_decide.
Qed.

Lemma numbered_in_order sid n cs last : default 0 (last !! sid) <= n -> in_order last (numbered_from sid n cs).
Proof.
  revert n last. induction cs as [|c cs IH]; intros n last Hl; cbn [numbered_from in_order]; [done|]. split; [lia|].
  apply IH. by rewrite lookup_insert_eq.
Qed.

Lemma numbered_publishable sid n cs : is_u32 sid -> 0 <= n -> n + Z.of_nat (length cs) <= U64_MAX -> Forall sendable cs ->
  Forall publishable (numbered_from sid n cs).
Proof.
  intros Hs. revert n. induction cs as [|c cs IH]; intros n Hn Hl Hc; cbn in *; [constructor|]. apply Forall_cons in Hc as [Hc Hcs].
  constructor; [split; [done|split; [cbn; unfold_width; lia|done]]|]. apply IH; [lia|lia|done].
Qed.

(** C20: Replication of a running shard.  A shard that starts empty with the
    default configuration and publishes to a standby attached from the start:
    at any point of its life, the bytes it has published so far, however the
    network delivers them, give the standby exactly the shard's processor.  The
    commands are as the wire carries them (fields in range, orders not yet
    touched), and none the shard has taken is a force close, whose outcome depends
    on the hash order of the machine ([ho] of the shard, [ho'] of the standby). *)
Theorem standby_follows_shard (ho ho' : OrderBook -> list (Z * nat)) (wo : gmap Z CachedWriter -> list (Z * CachedWriter))
    (eo : gmap Z MatchingEngine -> list (Z * MatchingEngine)) (zo : gset Z -> list Z) (po : gmap (Z * Z) Z -> list (Z * Z * Z))
    (sid : Z) (path every : bool) (f : MatchingStrategy) (cap : nat) (s0 s : Shard) (acc tk : list (Lane * Command))
    (sent : list bytes) (net : list bytes) (torn : bytes) :
  (forall m, wo m ≡ₚ map_to_list m) -> is_u32 sid -> fresh_shard ho sid (Processor.new f None) 0 [] (fun _ => []) s0 ->
  runs ho wo eo zo po sid path every cap s0 acc tk s -> Forall sendable (flattened acc) -> order_free (flattened tk) ->
  is_u64 (Z.of_nat (length (flattened tk))) -> rep (core s) = Some sent ->
  Forall (.≠ []) net -> concat net = concat sent ++ torn -> (length torn < REC_LEN)%nat ->
  exists r, run_replica ho' f ∅ net = Ret r /\
    processors r !! sid = if decide (flattened tk = []) then None else Some (processor (core s)).
Proof.
  intros Hwo Hsid Hf Hr Hacc Hof Hn Hrep Hnet Hc Ht.
  assert (Htk : Forall sendable (flattened tk)).
  { eapply flattened_sub; [|exact Hacc]. intros [a c] Hin. apply in_lane. apply in_lane in Hin.
    rewrite (takes_sub _ _ _ _ _ _ _ _ _ _ _ _ _ _ _ _ _ Hf Hr a). apply elem_of_app. by left. }
  destruct (runs_inv ho wo Hwo eo zo po sid path every (Processor.new f None) 0 U64_MAX [] (fun _ => []) ltac:(lia) ltac:(cbn; lia)
    cap s0 acc tk s Hf Hr) as ([C1 _ _ _ C5 _] & Eh); [|apply Hn|].
  { eapply Forall_impl; [exact Hacc|]. by intros c [? _]. }
  rewrite Eh in *. destruct C1 as (rs & Erun & _). rewrite (process_all_any_order ho ho') in Erun by done. specialize (C5 sent Hrep). rewrite <-numbered_records in C5. subst sent.
  assert (Hp : Forall publishable (numbered_from sid 0 (flattened tk))) by (apply numbered_publishable; [done|lia|apply Hn|done]).
  rewrite (stream_applied ho' f ∅ _ net torn) by done.
  destruct (apply_published ho' f (numbered_from sid 0 (flattened tk)) (mkReplica ∅ ∅ 0)
    (fun k => if decide (k = sid) then (processor (core s), rs) else (Processor.new f None, []))) as (r & Er & _ & Hpr).
  - done.
  - apply numbered_in_order. cbn. by rewrite lookup_empty.
  - unfold_width. cbn. lia.
  - intros k. cbn [processors]. rewrite lookup_empty, numbered_commands. cbn [default]. by case_decide.
  - exists r. split; [done|]. rewrite Hpr, numbered_commands, !(decide_True (P := sid = sid)) by done. cbn [processors fst]. by rewrite lookup_empty.
Qed.

(** ** Stopping and pausing *)
Lemma idle_lanes l a : idle l = true -> lane l a = [].
Proof.
  unfold idle. intros H. apply andb_true_iff in H as [H H3]. apply andb_true_iff in H as [H1 H2].
  apply bool_decide_eq_true in H1, H2. destruct a as [| |k|k]; cbn; [done|done|..];
    (destruct (instrument_rx l !! k) as [b|] eqn:E; [|done]); cbn;
    apply list_elem_of_lookup_2, list_elem_of_In in E; pose proof (proj1 (forallb_forall _ _) H3 b E) as Hb;
    apply andb_true_iff in Hb as [Hb1 Hb2]; by apply bool_decide_eq_true in Hb1, Hb2.
Qed.

Lemma finish_handled ho eo zo po path every k k' : finish ho eo zo po path every k = Ret k' -> handled k' = handled k.
Proof.
  intros H. exact (proj1 (quiet_finish ho 0 (Processor.new PriceTimePriority.strategy None) 0 [] (fun _ => []) eo zo po path every k k' H)).
Qed.

(** The ways a step can end. *)
Ltac step_cases H :=
  repeat lazymatch type of H with
  | obind _ _ = _ => apply obind_ret in H as (? & _ & H)
  | match ?x with _ => _ end = _ => destruct x
  end; injection H as <- <-.

Section control.
Context (ho : OrderBook -> list (Z * nat)) (wo : gmap Z CachedWriter -> list (Z * CachedWriter)).
Context (eo : gmap Z MatchingEngine -> list (Z * MatchingEngine)) (zo : gset Z -> list Z) (po : gmap (Z * Z) Z -> list (Z * Z * Z)).
Context (path every : bool) (cfg : ExchangeConfig).
Abbreviation member_step n := (step ho wo eo zo po (Z.of_nat n) path every).

(** A shard that leaves its loop at the end of a turn has emptied every lane. *)
Theorem shutdown_drains (n : nat) (st ru : bool) (e : Env) (s s' : Shard) (d : Z) :
  member_step n st ru e s = Ret (s', d) -> pc s = TurnEnd -> pc s' = Stopped -> ru = false /\ forall a, lane (lanes s') a = [].
Proof.
  unfold step. intros H Epc Est. rewrite Epc in H. destruct (worked s).
  { apply obind_ret in H as (k & _ & H). injection H as <- _. done. }
  destruct (negb ru && idle (lanes s)) eqn:E.
  - apply andb_true_iff in E as [E1 E2]. apply negb_true_iff in E1. apply obind_ret in H as (k & _ & H). injection H as <- _.
    split; [done|]. intros a. by apply idle_lanes.
  - apply obind_ret in H as (k1 & _ & H). apply obind_ret in H as (k2 & _ & H). injection H as <- _. done.
Qed.

(** The threads of an exchange: submissions, steps of the shards, and the
    handle's operations, which write one flag at a time. *)
Inductive exchange_step : Exchange -> Exchange -> Prop :=
| x_submit x c x' : submit cfg x c = Ret (Some x') -> exchange_step x x'
| x_member x n s e s' d : members x !! n = Some s -> member_step n (started x) (running x) e s = Ret (s', d) ->
    exchange_step x (mkExchange (<[n := s']> (members x)) (running x) (started x) (parked x + d))
| x_resume x : exchange_step x (resume x)
| x_pause x : exchange_step x (pause x)
| x_shutdown_started x : exchange_step x (shutdown_started x)
| x_shutdown_running x : exchange_step x (shutdown_running x).

(** Only a shard at the top of its loop is counted, and one that is about to
    leave the count still is. *)
Definition seat_ok (s : Shard) : Prop :=
  match pc s with Top | Waiting => True | Unpark => is_parked s = true | _ => is_parked s = false end.

Definition seat (s : Shard) : Z := if is_parked s then 1 else 0.

Definition parked_inv (x : Exchange) : Prop := parked x = sumZ seat (members x) /\ Forall seat_ok (members x).

Lemma step_seat n st ru e s s' d : seat_ok s -> member_step n st ru e s = Ret (s', d) -> seat_ok s' /\ d = seat s' - seat s.
Proof.
  unfold seat_ok, seat, step. destruct (pc s) as [| | |k back|m|m [|j]| |] eqn:Epc; intros Hp; rewrite ?Hp.
  - destruct st; [destruct (is_parked s) eqn:E|]; intros [= <- <-]; cbn; rewrite ?E; try done. by destruct (is_parked s).
  - intros H. step_cases H; cbn; [split; [done|lia]|done].
  - by intros [= <- <-].
  - intros H. by step_cases H.
  - intros H. by step_cases H.
  - intros H. by step_cases H.
  - intros H. by step_cases H.
  - intros H. by step_cases H.
  - intros [= <- <-]. by rewrite Epc, Hp.
Qed.

(** A step of the exchange changes one shard: its lanes by a submission, or by
    one step of its thread. *)
Lemma exchange_step_cases (x x' : Exchange) : exchange_step x x' ->
  (members x' = members x /\ parked x' = parked x) \/
  (started x' = started x /\ exists n s s', members x !! n = Some s /\ members x' = <[n := s']> (members x) /\
    ((parked x' = parked x /\ exists l, s' = mkShardState l (core s) (pc s) (worked s) (is_parked s)) \/
     exists e d, member_step n (started x) (running x) e s = Ret (s', d) /\ parked x' = parked x + d)).
Proof.
  intros Hst. destruct Hst as [x c x' Hs|x n s e s' d Hn Hs|x|x|x|x]; try (by left); right.
  - unfold submit in Hs. destruct (route cfg c) as [n a]. apply obind_ret in Hs as (s & Es & Hs). apply expect_ret in Es.
    destruct (push _ _ _ _) as [l|]; [|done]. injection Hs as <-. split; [done|]. exists n, s, (mkShardState l (core s) (pc s) (worked s) (is_parked s)).
    split_and!; [done|done|]. left. split; [done|by exists l].
  - split; [done|]. exists n, s, s'. split_and!; [done|done|]. right. by exists e, d.
Qed.

Lemma exchange_step_inv x x' : exchange_step x x' -> parked_inv x -> parked_inv x'.
Proof.
  intros Hst [Hc Hf]. destruct (exchange_step_cases _ _ Hst) as [[E1 E2]|(_ & n & s & s' & Hn & Em & Hd)].
  { split; by rewrite ?E2, E1. }
  pose proof (Forall_lookup_1 _ _ _ _ Hf Hn) as Hs. unfold parked_inv. rewrite Em, (sumZ_insert _ _ _ s) by done.
  destruct Hd as [(E & l & ->)|(e & d & Hstep & E)]; rewrite E, Hc.
  - split; [unfold seat; cbn; lia|]. by apply Forall_insert.
  - destruct (step_seat _ _ _ _ _ _ _ Hs Hstep) as [Hs' ->]. split; [lia|]. by apply Forall_insert.
Qed.

Lemma seats_all l : Forall seat_ok l -> Z.of_nat (length l) <= sumZ seat l -> Forall (fun s => is_parked s = true) l.
Proof.
  intros _. assert (Hle : forall l, sumZ seat l <= Z.of_nat (length l)).
  { intros l'. induction l' as [|s l' IH]; [done|]. rewrite sumZ_cons. cbn [length]. unfold seat at 1. destruct (is_parked s); lia. }
  induction l as [|s l IH]; [constructor|]. rewrite sumZ_cons. cbn [length]. intros H. pose proof (Hle l) as Hl. unfold seat at 1 in H.
  destruct (is_parked s) eqn:E; [|lia]. constructor; [done|apply IH; lia].
Qed.

(** The exchange while it is paused. *)
Definition paused_step (x x' : Exchange) : Prop := exchange_step x x' /\ started x = false /\ started x' = false.

Definition settled (s : Shard) : Prop := (is_parked s = true /\ (pc s = Top \/ pc s = Waiting)) \/ pc s = Stopped.

Lemma settled_step n ru e s s' d : settled s -> member_step n false ru e s = Ret (s', d) -> settled s' /\ handled (core s') = handled (core s).
Proof.
  unfold settled, step. intros [[Hp [-> | ->]]|Epc].
  - intros [= <- _]. cbn. split; [left; split; [done|by right]|done].
  - destruct ru; [intros [= <- _]; cbn; split; [left; split; [done|by left]|done]|].
    intros H. apply obind_ret in H as (k & E & H). injection H as <- _. cbn. split; [by right|by eapply finish_handled].
  - rewrite Epc. intros [= <- _]. split; [by right|done].
Qed.

Lemma settled_steps x x' : rtc paused_step x x' -> Forall settled (members x) ->
  (fun s => handled (core s)) <$> members x' = (fun s => handled (core s)) <$> members x.
Proof.
  intros Hr. induction Hr as [|x y z (Hst & Ex & Ey) Hr IH]; [done|]. intros Hf.
  destruct (exchange_step_cases _ _ Hst) as [[E1 E2]|(_ & n & s & s' & Hn & Em & Hd)]; [rewrite IH; by rewrite E1|].
  pose proof (Forall_lookup_1 _ _ _ _ Hf Hn) as Hs. assert (Hs' : settled s' /\ handled (core s') = handled (core s)).
  { destruct Hd as [(_ & l & ->)|(e & d & Hstep & _)]; [done|]. rewrite Ex in Hstep. by eapply settled_step. }
  rewrite IH, Em; [|rewrite Em; apply Forall_insert; [done|apply Hs']]. rewrite list_fmap_insert, (proj2 Hs'). apply list_insert_id. by rewrite list_lookup_fmap, Hn.
Qed.

(** No shard starts to leave the count while the exchange is paused. *)
Lemma paused_steps x x' : rtc paused_step x x' -> parked_inv x -> Forall (fun s => pc s <> Unpark) (members x) ->
  parked_inv x' /\ Forall (fun s => pc s <> Unpark) (members x').
Proof.
  intros Hr. induction Hr as [|x y z (Hst & Ex & Ey) Hr IH]; [done|]. intros Hi Hf. apply IH; [by eapply exchange_step_inv|].
  destruct (exchange_step_cases _ _ Hst) as [[E1 E2]|(_ & n & s & s' & Hn & Em & Hd)]; [by rewrite E1|].
  rewrite Em. apply Forall_insert; [done|]. pose proof (Forall_lookup_1 _ _ _ _ Hf Hn) as Hs.
  destruct Hd as [(_ & l & ->)|(e & d & Hstep & _)]; [done|]. rewrite Ex in Hstep. clear -Hs Hstep. revert Hstep.
  unfold step. destruct (pc s) as [| | |k back|m|m [|j]| |] eqn:Epc.
  - by intros [= <- _].
  - intros H. by step_cases H.
  - done.
  - intros H. by step_cases H.
  - intros H. by step_cases H.
  - intros H. by step_cases H.
  - intros H. by step_cases H.
  - intros H. by step_cases H.
  - intros [= <- _]. by rewrite Epc.
Qed.

(** C23: Pausing.  A pause asked for when no shard is parked: once the count that
    [pause] waits for is reached, no shard handles a command until the exchange
    is resumed, whatever is submitted and whichever shard runs. *)
Theorem pause_quiesces (x0 x y : Exchange) : parked_inv x0 -> parked x0 = 0 -> rtc paused_step (pause x0) x -> pause_done x = true ->
  rtc paused_step x y -> (fun s => handled (core s)) <$> members y = (fun s => handled (core s)) <$> members x.
Proof.
  intros Hi H0 Hr Hd Hy. apply settled_steps; [done|].
  assert (Hno : Forall (fun s => pc s <> Unpark) (members x0)).
  { destruct Hi as [Hc Hf]. rewrite H0 in Hc. clear -Hc Hf. induction Hf as [|s l Hs Hf IH]; [constructor|]. rewrite sumZ_cons in Hc.
    assert (0 <= sumZ seat l) by (clear; induction l as [|s l IH]; [done|]; rewrite sumZ_cons; unfold seat at 1; destruct (is_parked s); lia).
    unfold seat in Hc at 1. constructor; [|apply IH; destruct (is_parked s); lia]. intros E. red in Hs. rewrite E in Hs. rewrite Hs in Hc. lia. }
  destruct (paused_steps _ _ Hr Hi Hno) as [[Hc Hf] Hu]. unfold pause_done in Hd. zbool. rewrite Hc in Hd.
  pose proof (seats_all _ Hf Hd) as Hp. clear -Hf Hu Hp. apply Forall_forall. intros s Hin. rewrite Forall_forall in Hf, Hu, Hp.
  specialize (Hf s Hin). specialize (Hu s Hin). specialize (Hp s Hin). left. split; [done|]. red in Hf. rewrite Hp in Hf.
  destruct (pc s); auto; done.
Qed.
End control.

(** ** Examples *)

(** A schedule of a shard: arrivals, and turns of its thread, which takes
    snapshots when idle or takes none. *)
Inductive Act :=
| Arrive (a : Lane) (c : Command)
| Turn.

Definition example_env (snap : bool) : Env := mkEnv 5 6 true true false snap.

Definition example_step (snap started running : bool) : Shard -> outcome (Shard * Z) :=
  step map_order map_to_list map_to_list elements map_to_list 0 snap false started running (example_env snap).

Definition valid_lane (l : Lanes) (a : Lane) : bool :=
  match a with BoxHigh k | BoxNormal k => (k <? length (instrument_rx l))%nat | _ => true end.

Fixpoint play (snap : bool) (s : Shard) (acts : list Act) : outcome (list (Lane * Command) * list (Lane * Command) * nat * Shard) :=
  match acts with
  | [] => Ret ([], [], 0%nat, s)
  | Arrive a c :: acts =>
      let! l := expect (if valid_lane (lanes s) a then push 8 (lanes s) a c else None) "not accepted" in
      let! r := play snap (mkShardState l (core s) (pc s) (worked s) (is_parked s)) acts in
      let '(acc, tk, n, s) := r in Ret ((a, c) :: acc, tk, n, s)
  | Turn :: acts =>
      let! r := example_step snap true true s in
      let! q := play snap r.1 acts in
      let '(acc, tk, n, s') := q in Ret (acc, takes s ++ tk, ((if probing s then 1 else 0) + n)%nat, s')
  end.

Lemma play_sound snap acts s acc tk n s' : play snap s acts = Ret (acc, tk, n, s') ->
  stretch map_order map_to_list map_to_list elements map_to_list 0 snap false 8 s n tk s' /\
  forall s0 acc0 tk0, runs map_order map_to_list map_to_list elements map_to_list 0 snap false 8 s0 acc0 tk0 s ->
    runs map_order map_to_list map_to_list elements map_to_list 0 snap false 8 s0 (acc0 ++ acc) (tk0 ++ tk) s'.
Proof.
  revert s acc tk n. induction acts as [|[a c|] acts IH]; intros s acc tk n; cbn [play].
  - intros [= <- <- <- <-]. split; [constructor|]. intros s0 acc0 tk0. by rewrite !app_nil_r.
  - intros H. apply obind_ret in H as (l & El & H). apply expect_ret in El.
    destruct (valid_lane (lanes s) a) eqn:Ev; [|done].
    apply obind_ret in H as ([[[acc1 tk1] n1] s1] & E1 & H). injection H as <- <- <- <-. destruct (IH _ _ _ _ E1) as [H1 H2].
    assert (Hv : valid (lanes s) a) by (destruct a as [| |k|k]; cbn in *; [done|done|by apply Nat.ltb_lt..]).
    split; [by eapply stretch_arrive|]. intros s0 acc0 tk0 Hr. rewrite cons_middle, (assoc_L (++)). apply H2. by eapply runs_arrive.
  - intros H. apply obind_ret in H as ([s1 d] & Es & H). apply obind_ret in H as ([[[acc1 tk1] n1] s2] & E1 & H). injection H as <- <- <- <-.
    destruct (IH _ _ _ _ E1) as [H1 H2]. split; [by eapply stretch_step|]. intros s0 acc0 tk0 Hr. rewrite (assoc_L (++)). apply H2.
    eapply runs_step; [done| |exact Es]. split; cbn; unfold_width; lia.
Qed.

Definition example_config (l : list InstrumentId) : ExchangeConfig :=
  mkConfig 1 8 PriceTimePriority.strategy l None Allow None (mkFees 0 0) false.

Definition forced {A : Type} (d : A) (c : outcome A) : A := match c with Ret r => r | Panic _ => d end.

Lemma forced_ret {A : Type} (d : A) c : is_ret c = true -> c = Ret (forced d c).
Proof. by destruct c. Qed.

Definition no_shard : Shard :=
  mkShardState (empty_lanes 0) (mkCore (Processor.new PriceTimePriority.strategy None) None None None 0 [] [] [] 0) Top false false.

Definition example_shard (l : list InstrumentId) : Shard :=
  forced no_shard (build_shard map_order (example_config l) true 0 (Some (None, None, ∅)) 4096).

Lemma example_shard_fresh l : is_ret (build_shard map_order (example_config l) true 0 (Some (None, None, ∅)) 4096) = true ->
  fresh_shard map_order 0 (configured (example_config l) 0) 0 [] (fun _ => []) (example_shard l).
Proof.
  intros H. apply (built_fresh map_order (example_config l) true 0 (Some (None, None, ∅)) 4096); [by right|]. by apply forced_ret.
Qed.

Definition no_play (s : Shard) : list (Lane * Command) * list (Lane * Command) * nat * Shard := ([], [], 0%nat, s).
Definition played (s : Shard) (acts : list Act) := forced (no_play s) (play false s acts).

(** Two instruments: a new order for each, and a cancel that overtakes the second. *)
Definition example_acts : list Act :=
  [Arrive (BoxNormal 0) (new_at 1 1 7 Sell 100 5); Arrive (BoxNormal 1) (new_at 2 2 7 Sell 90 5); Turn; Turn; Turn; Turn; Turn; Turn;
   Arrive (BoxHigh 0) (CCancel 1 1 3); Turn; Turn; Turn; Turn; Turn; Turn; Turn].

Definition example_run := played (example_shard [1; 2]) example_acts.

Lemma example_built : is_ret (build_shard map_order (example_config [1; 2]) true 0 (Some (None, None, ∅)) 4096) = true /\
  is_ret (play false (example_shard [1; 2]) example_acts) = true.
Proof. split; vm_compute; reflexivity. Qed.

Lemma example_shard_trace : example_run.1.1.2 = [(BoxNormal 0, new_at 1 1 7 Sell 100 5); (BoxHigh 0, CCancel 1 1 3); (BoxNormal 1, new_at 2 2 7 Sell 90 5)] /\
  example_run.1.1.1 = [(BoxNormal 0, new_at 1 1 7 Sell 100 5); (BoxNormal 1, new_at 2 2 7 Sell 90 5); (BoxHigh 0, CCancel 1 1 3)] /\
  example_run.1.2 = 2%nat.
Proof. vm_compute. split_and!; reflexivity. Qed.

Lemma example_played : stretch map_order map_to_list map_to_list elements map_to_list 0 false false 8 (example_shard [1; 2]) 2 example_run.1.1.2 example_run.2 /\
  runs map_order map_to_list map_to_list elements map_to_list 0 false false 8 (example_shard [1; 2]) example_run.1.1.1 example_run.1.1.2 example_run.2.
Proof.
  assert (E : play false (example_shard [1; 2]) example_acts = Ret (example_run.1.1.1, example_run.1.1.2, 2%nat, example_run.2)).
  { rewrite <-(proj2 (proj2 example_shard_trace)). rewrite (forced_ret (no_play (example_shard [1; 2])) (play _ _ _) (proj2 example_built)).
    fold (played (example_shard [1; 2]) example_acts). fold example_run. by destruct example_run as [[[? ?] ?] ?]. }
  apply play_sound in E as [H1 H2]. split; [done|]. apply (H2 _ [] []). constructor.
Qed.


(** The same schedule from the moment both new orders have arrived. *)
Definition queued_shard : Shard := (played (example_shard [1; 2]) (take 2 example_acts)).2.
Definition queued_run := played queued_shard (drop 2 example_acts).

Lemma queued_trace : is_ret (play false queued_shard (drop 2 example_acts)) = true /\
  lane (lanes queued_shard) (BoxNormal 1) = [new_at 2 2 7 Sell 90 5] /\ rank (lanes queued_shard) 1 = 1%nat /\ queued_run.1.2 = 2%nat.
Proof. vm_compute. split_and!; reflexivity. Qed.

Lemma mailbox_bounded_wait_witness : exists tk1 tk2, queued_run.1.1.2 = tk1 ++ (BoxNormal 1, new_at 2 2 7 Sell 90 5) :: tk2 /\
  (length (filter (fun x => from_box x = true) tk1) <= 1)%nat.
Proof.
  destruct queued_trace as (E0 & E1 & E2 & E3). apply (forced_ret (no_play queued_shard)) in E0. fold (played queued_shard (drop 2 example_acts)) in E0.
  fold queued_run in E0. rewrite <-E2.
  destruct (play_sound false (drop 2 example_acts) queued_shard queued_run.1.1.1 queued_run.1.1.2 queued_run.1.2 queued_run.2) as [H _].
  { rewrite E0. by destruct queued_run as [[[? ?] ?] ?]. }
  apply (mailbox_bounded_wait map_order map_to_list map_to_list elements map_to_list 0 false false 8 queued_shard queued_run.2 1 queued_run.1.2
    (new_at 2 2 7 Sell 90 5) [] queued_run.1.1.2 H E1). rewrite E2, E3. lia.
Defined.

(** A shard without mailboxes, its published records and a standby. *)
Definition plain_acts : list Act := [Arrive ShardNormal (new_at 1 1 7 Sell 100 5); Turn; Turn; Turn; Turn; Arrive ShardHigh (CCancel 1 1 3); Turn; Turn].
Definition plain_run := played (example_shard []) plain_acts.
Definition plain_sent : list bytes := default [] (rep (core plain_run.2)).

Lemma plain_trace : is_ret (build_shard map_order (example_config []) true 0 (Some (None, None, ∅)) 4096) = true /\
  is_ret (play false (example_shard []) plain_acts) = true /\
  plain_run.1.1.1 = [(ShardNormal, new_at 1 1 7 Sell 100 5); (ShardHigh, CCancel 1 1 3)] /\
  plain_run.1.1.2 = [(ShardNormal, new_at 1 1 7 Sell 100 5); (ShardHigh, CCancel 1 1 3)] /\
  rep (core plain_run.2) = Some plain_sent /\ bool_decide (concat plain_sent = []) = false.
Proof. vm_compute. split_and!; reflexivity. Qed.

Lemma plain_sendable : Forall sendable [new_at 1 1 7 Sell 100 5; CCancel 1 1 3].
Proof. repeat apply Forall_cons_2; [..|apply Forall_nil_2]; (split; [cbn; unfold order_ok; cbn; unfold_width; lia|done]). Qed.

(** A shard that takes a snapshot of its first command while idle, then another
    command: the journal holds the second one. *)
Definition snap_acts : list Act :=
  [Arrive ShardNormal (new_at 1 1 7 Sell 100 5)] ++ replicate 12 Turn ++ [Arrive ShardHigh (CCancel 1 1 3)] ++ replicate 3 Turn.
Definition snap_run := forced (no_play (example_shard [])) (play true (example_shard []) snap_acts).

Lemma snap_trace : is_ret (play true (example_shard []) snap_acts) = true /\
  snap_run.1.1.1 = [(ShardNormal, new_at 1 1 7 Sell 100 5); (ShardHigh, CCancel 1 1 3)] /\
  snap_run.1.1.2 = [(ShardNormal, new_at 1 1 7 Sell 100 5); (ShardHigh, CCancel 1 1 3)] /\
  is_Some (journal (core snap_run.2)) /\ d_journal_seq <$> last (snapshots (core snap_run.2)) = Some 1.
Proof. vm_compute. split_and!; try reflexivity. by eexists. Qed.

Lemma shard_runs_exact_witness : exists w recs, journal (core snap_run.2) = Some w /\ journal_holds w recs /\
  r_frame <$> recs = [encode_command (CCancel 1 1 3)].
Proof.
  destruct plain_trace as (E0 & _). destruct snap_trace as (E1 & E2 & E3 & [w Ew] & E5).
  apply (forced_ret (no_play (example_shard []))) in E1.
  destruct (play_sound true snap_acts (example_shard []) snap_run.1.1.1 snap_run.1.1.2 snap_run.1.2 snap_run.2) as [_ H].
  { rewrite E1. fold snap_run. by destruct snap_run as [[[? ?] ?] ?]. }
  specialize (H _ [] [] (runs_start _ _ _ _ _ _ _ _ _ _)). cbn [app] in H.
  destruct (shard_runs_exact map_order map_to_list (fun m => Permutation_refl _) map_to_list elements map_to_list 0 true false
    (configured (example_config []) 0) 0 3 [] (fun _ => []) ltac:(cbn; unfold_width; lia) ltac:(intros i; cbn; unfold_width; lia)
    8 _ _ _ _ (example_shard_fresh [] E0) H) as (_ & _ & Hj & _).
  - rewrite E2. eapply Forall_impl; [exact plain_sendable|]. by intros c [Hc _].
  - rewrite E3. vm_compute. discriminate.
  - destruct (Hj w Ew) as (recs & Hh & Hf). exists w, recs. split; [exact Ew|]. split; [exact Hh|].
    destruct (last (snapshots (core snap_run.2))) as [d|]; [|discriminate E5].
    assert (Ed : d_journal_seq d = 1) by (injection E5 as E5; exact E5).
    destruct Hf as [_ Hf]. rewrite Hf, Ed, E3. reflexivity.
Defined.

Lemma standby_follows_shard_witness : exists r,
  run_replica (fun b => rev (map_order b)) PriceTimePriority.strategy ∅ [concat plain_sent] = Ret r /\ processors r !! 0 = Some (processor (core plain_run.2)).
Proof.
  destruct plain_trace as (E0 & E1 & E2 & E3 & E4 & E5). apply (forced_ret (no_play (example_shard []))) in E1.
  destruct (play_sound false plain_acts (example_shard []) plain_run.1.1.1 plain_run.1.1.2 plain_run.1.2 plain_run.2) as [_ H].
  { rewrite E1. fold (played (example_shard []) plain_acts). fold plain_run. by destruct plain_run as [[[? ?] ?] ?]. }
  specialize (H _ [] [] (runs_start _ _ _ _ _ _ _ _ _ _)). cbn [app] in H.
  destruct (standby_follows_shard map_order (fun b => rev (map_order b)) map_to_list map_to_list elements map_to_list 0 false false PriceTimePriority.strategy 8
    (example_shard []) plain_run.2 plain_run.1.1.1 plain_run.1.1.2 plain_sent [concat plain_sent] []) as (r & Hr & Hp).
  - intros m. reflexivity.
  - unfold_width. lia.
  - exact (example_shard_fresh [] E0).
  - exact H.
  - rewrite E2. exact plain_sendable.
  - rewrite E3. by repeat constructor.
  - rewrite E3. vm_compute. split; discriminate.
  - exact E4.
  - apply Forall_cons_2; [|apply Forall_nil_2]. by apply bool_decide_eq_false in E5.
  - cbn [concat]. by rewrite app_nil_r.
  - cbn. lia.
  - exists r. split; [done|]. rewrite Hp, E3. reflexivity.
Defined.

(** A schedule of an exchange with one shard. *)
Inductive XAct :=
| Submit (c : Command)
| Run
| Resume
| Pause
| StopStarted
| StopRunning.

Definition xact (x : Exchange) (a : XAct) : outcome Exchange :=
  match a with
  | Submit c => let! r := submit (example_config []) x c in expect r "full"
  | Run =>
      let! s := expect (members x !! 0%nat) "no shard" in
      let! r := example_step false (started x) (running x) s in
      Ret (mkExchange (<[0%nat := r.1]> (members x)) (running x) (started x) (parked x + r.2))
  | Resume => Ret (resume x)
  | Pause => Ret (pause x)
  | StopStarted => Ret (shutdown_started x)
  | StopRunning => Ret (shutdown_running x)
  end.

Abbreviation example_xstep :=
  (exchange_step map_order map_to_list map_to_list elements map_to_list false false (example_config [])).
Abbreviation example_paused :=
  (paused_step map_order map_to_list map_to_list elements map_to_list false false (example_config [])).

Lemma xact_sound x a x' : xact x a = Ret x' -> example_xstep x x'.
Proof.
  destruct a as [c| | | | |]; unfold xact.
  - intros H. apply obind_ret in H as (r & E & H). apply expect_ret in H as ->. by eapply x_submit.
  - intros H. apply obind_ret in H as (s & Es & H). apply expect_ret in Es. apply obind_ret in H as ([s' d] & E & H). injection H as <-.
    by eapply x_member.
  - intros [= <-]. apply x_resume.
  - intros [= <-]. apply x_pause.
  - intros [= <-]. apply x_shutdown_started.
  - intros [= <-]. apply x_shutdown_running.
Qed.

Definition xplay : Exchange -> list XAct -> outcome Exchange := ofold xact.

Lemma xplay_sound acts x x' : xplay x acts = Ret x' -> rtc example_xstep x x'.
Proof.
  revert x. induction acts as [|a acts IH]; intros x; cbn; [intros [= <-]; constructor|].
  intros H. apply obind_ret in H as (x1 & E & H). eapply rtc_l; [by eapply xact_sound|by apply IH].
Qed.

Definition stays_paused (a : XAct) : bool := match a with Submit _ | Run | Pause | StopRunning => true | _ => false end.

Lemma xplay_paused acts x x' : started x = false -> forallb stays_paused acts = true -> xplay x acts = Ret x' -> rtc example_paused x x'.
Proof.
  revert x. induction acts as [|a acts IH]; intros x Hx Hp; cbn in *; [intros [= <-]; constructor|].
  apply andb_true_iff in Hp as [Ha Hp]. intros H. apply obind_ret in H as (x1 & E & H).
  assert (Hx1 : started x1 = false).
  { destruct a as [c| | | | |]; unfold xact in E; try done; try (by injection E as <-).
    - apply obind_ret in E as (r & E & Hr). apply expect_ret in Hr as ->. unfold submit in E. destruct (route _ _) as [n b].
      apply obind_ret in E as (s & _ & E). destruct (push _ _ _ _); [|done]. by injection E as <-.
    - apply obind_ret in E as (s & _ & E). apply obind_ret in E as (r & _ & E). by injection E as <-. }
  eapply rtc_l; [split; [by eapply xact_sound|done]|by apply IH].
Qed.

Definition one_shard (started : bool) : Exchange := mkExchange [example_shard []] true started 0.
Definition xplayed (x : Exchange) (acts : list XAct) : Exchange := forced x (xplay x acts).

Definition handled_all (x : Exchange) : list (list Command) := (fun s => handled (core s)) <$> members x.

Definition pausing : list XAct := [Run; Run; Run; Run].
Definition after_pause : list XAct := [Submit (CHalt 1 4); Run; Run; Run; Run].

Lemma pausing_trace : is_ret (xplay (pause (one_shard true)) pausing) = true /\
  is_ret (xplay (xplayed (pause (one_shard true)) pausing) after_pause) = true /\
  pause_done (xplayed (pause (one_shard true)) pausing) = true /\ started (xplayed (pause (one_shard true)) pausing) = false.
Proof. vm_compute. split_and!; reflexivity. Qed.

Lemma pause_quiesces_witness : handled_all (xplayed (xplayed (pause (one_shard true)) pausing) after_pause) =
  handled_all (xplayed (pause (one_shard true)) pausing).
Proof.
  destruct pausing_trace as (E1 & E2 & E3 & E4).
  apply (pause_quiesces map_order map_to_list map_to_list elements map_to_list false false (example_config []) (one_shard true)).
  - split; [vm_compute; reflexivity|]. apply Forall_cons_2; [|apply Forall_nil_2]. vm_compute. exact I.
  - reflexivity.
  - apply (xplay_paused pausing); [reflexivity..|]. by apply forced_ret.
  - exact E3.
  - apply (xplay_paused after_pause); [exact E4|reflexivity|]. by apply forced_ret.
Defined.

Definition racing : Exchange := xplayed (one_shard false) [Submit (CHalt 1 4); Run; Run; Resume; Run].
Definition raced : Exchange := xplayed (pause racing) [Run; Run; Run; Run; Run].

Lemma racing_trace : is_ret (xplay (one_shard false) [Submit (CHalt 1 4); Run; Run; Resume; Run]) = true /\
  is_ret (xplay (pause racing) [Run; Run; Run; Run; Run]) = true /\
  pause_done (pause racing) = true /\ handled_all racing = [[]] /\ handled_all raced = [[CHalt 1 4]].
Proof. vm_compute. split_and!; reflexivity. Qed.

(** The condition on the count matters.  A shard that has read the flag of a
    resume but has not yet left the count is still counted by a pause that
    follows: that pause returns at once, and the shard goes on to match. *)
Theorem pause_races_resume : exists x y, rtc example_xstep (one_shard false) x /\ pause_done (pause x) = true /\
  rtc example_paused (pause x) y /\ handled_all x = [[]] /\ handled_all y = [[CHalt 1 4]].
Proof.
  destruct racing_trace as (E1 & E2 & E3 & E4 & E5). exists racing, raced. split_and!; [|done| |done|done].
  - eapply xplay_sound, forced_ret. exact E1.
  - eapply xplay_paused, forced_ret; [done|done|exact E2].
Qed.

Definition dropping : Exchange := xplayed (one_shard false) [Submit (CHalt 1 4); Run; StopStarted; StopRunning; Run].
Definition dropped : Shard := default no_shard (members dropping !! 0%nat).

Lemma dropping_trace : is_ret (xplay (one_shard false) [Submit (CHalt 1 4); Run; StopStarted; StopRunning; Run]) = true /\
  length (members dropping) = 1%nat /\ pc dropped = Stopped /\ lane (lanes dropped) ShardHigh = [CHalt 1 4] /\ handled (core dropped) = [].
Proof. vm_compute. split_and!; reflexivity. Qed.

(** Shutting down a paused exchange may drop what was accepted: a shard that
    read [started] before [shutdown] set it and reads [running] after [shutdown]
    cleared it stops with its lanes as they are. *)
Theorem paused_shutdown_drops : exists x s, rtc example_xstep (one_shard false) x /\ members x = [s] /\ pc s = Stopped /\
  lane (lanes s) ShardHigh = [CHalt 1 4] /\ handled (core s) = [].
Proof.
  destruct dropping_trace as (E1 & E2 & E3). exists dropping, dropped. split_and!; [| |apply E3..].
  - eapply xplay_sound, forced_ret. exact E1.
  - unfold dropped. destruct (members dropping) as [|s [|]]; done.
Qed.
