(* ===== verification/Metrics.v ===== *)
(** * Metrics

    [src/src/metrics.rs]: the counters and gauges, the latency histograms with
    their logarithmic buckets, and the page that exposes them.  A counter is a
    [u64] whose [fetch_add] wraps; each recording call is one step, so that an
    interleaving of recording threads is a sequence of calls.  The estimated
    quantiles are computed in floating point and are an argument of the page.
    The HTTP server around the page is in [Migration]. *)

From S2P Require Import Prelude Types Protocol Text.

(** ** Buckets *)
Definition MIN_EXP : Z := 3.
Definition MAX_EXP : Z := 10.
Definition PER_DECADE : Z := 9.
Definition FINITE_BUCKETS : Z := (MAX_EXP - MIN_EXP + 1) * PER_DECADE.
Definition BUCKET_COUNT : Z := FINITE_BUCKETS + 1.

Definition POW10 : list Z := (fun i => 10 ^ Z.of_nat i) <$> seq 0 20.

Definition pow10 (i : Z) : outcome Z := expect (POW10 !! Z.to_nat i) "index out of bounds".

Definition bucket_le (i : Z) : outcome Z :=
  let digit := i mod PER_DECADE + 1 in
  let exp := MIN_EXP + i / PER_DECADE in
  let! p := pow10 exp in Ret (wrap64 (digit * p)).

(** [u64::ilog10] of a positive number. *)
Fixpoint ilog10_loop (fuel : nat) (v : Z) : Z :=
  match fuel with
  | O => 0
  | S fuel => if v <? 10 then 0 else 1 + ilog10_loop fuel (v / 10)
  end.

Definition ilog10 (v : Z) : Z := ilog10_loop 20 v.

Definition bucket_index (v : Z) : outcome Z :=
  if v <? 1000 then Ret 0
  else
    let exp := ilog10 v in
    if MAX_EXP <? exp then Ret FINITE_BUCKETS
    else
      let! pow := pow10 exp in
      let m := v / pow in
      let has_rem := if negb (v mod pow =? 0) then 1 else 0 in
      let digit := m + has_rem in
      let '(exp, digit) := if digit =? 10 then (exp + 1, 1) else (exp, digit) in
      Ret (Z.min ((exp - MIN_EXP) * PER_DECADE + (digit - 1)) FINITE_BUCKETS).

(** ** A histogram *)
Record LatencyHistogram := mkHist {
  buckets : list Z;
  sum_ns : Z
}.

Module LatencyHistogram.

Definition new : LatencyHistogram := mkHist (replicate (Z.to_nat BUCKET_COUNT) 0) 0.

Definition record (h : LatencyHistogram) (ns : Z) : outcome LatencyHistogram :=
  let! i := bucket_index ns in
  let! c := expect (buckets h !! Z.to_nat i) "index out of bounds" in
  Ret (mkHist (<[Z.to_nat i := wrap64 (c + 1)]> (buckets h)) (wrap64 (sum_ns h + ns))).

Definition count (counts : list Z) : Z := foldl (fun acc c => wrap64 (acc + c)) 0 counts.

(** The cumulative [_bucket] rows of [render_into]: the boundary ([None] is
    [+Inf]) and the count up to it. *)
Fixpoint finite_rows (i : nat) (cum : Z) (counts : list Z) : outcome (list (option Z * Z) * Z) :=
  match counts with
  | [] => Ret ([], cum)
  | c :: counts =>
      let cum := wrap64 (cum + c) in
      let! le := bucket_le (Z.of_nat i) in
      let! r := finite_rows (S i) cum counts in
      Ret ((Some le, cum) :: r.1, r.2)
  end.

Definition rows (h : LatencyHistogram) : outcome (list (option Z * Z)) :=
  let! r := finite_rows 0 0 (take (Z.to_nat FINITE_BUCKETS) (buckets h)) in
  let! last := expect (buckets h !! Z.to_nat FINITE_BUCKETS) "index out of bounds" in
  Ret (r.1 ++ [(None, wrap64 (r.2 + last))]).

End LatencyHistogram.

(** ** The rendered text *)
Definition newline : text := [10].
Definition quoted (s : text) : text := [34] ++ s ++ [34].

Definition header (base help kind : text) : text :=
  lit "# HELP tc_" ++ base ++ lit " " ++ help ++ newline ++ lit "# TYPE tc_" ++ base ++ lit " " ++ kind ++ newline.

(** [(0.5, "p50")], [(0.9, "p90")], [(0.99, "p99")]: [quantile_from] on the counts. *)
Record Quantiles := mkQuantiles {
  p50 : list Z -> Z;
  p90 : list Z -> Z;
  p99 : list Z -> Z
}.

Definition QUANTILES (q : Quantiles) : list (text * (list Z -> Z)) :=
  [(lit "p50", p50 q); (lit "p90", p90 q); (lit "p99", p99 q)].

Definition SUFFIXES : list text := [lit "p50"; lit "p90"; lit "p99"].

Definition row_text (base prefix : text) (r : option Z * Z) : text :=
  lit "tc_" ++ base ++ lit "_bucket{" ++ prefix ++ lit "le=" ++
  quoted (match r.1 with Some le => show le | None => lit "+Inf" end) ++ lit "} " ++ show r.2 ++ newline.

(** [render_into] *)
Definition render_histogram (q : Quantiles) (h : LatencyHistogram) (base : text) (extra_label : option text) : outcome text :=
  let '(bucket_prefix, gauge_extra) :=
    match extra_label with Some l => (l ++ lit ",", lit "{" ++ l ++ lit "}") | None => ([], []) end in
  let! rs := LatencyHistogram.rows h in
  Ret (concat (row_text base bucket_prefix <$> rs) ++
       lit "tc_" ++ base ++ lit "_sum" ++ gauge_extra ++ lit " " ++ show (sum_ns h) ++ newline ++
       lit "tc_" ++ base ++ lit "_count" ++ gauge_extra ++ lit " " ++ show (LatencyHistogram.count (buckets h)) ++ newline ++
       concat ((fun sq : text * (list Z -> Z) => lit "tc_" ++ base ++ lit "_" ++ sq.1 ++ gauge_extra ++ lit " " ++
                  show (sq.2 (buckets h)) ++ newline) <$> QUANTILES q)).

Definition gauge_types (base : text) : text :=
  concat ((fun s => lit "# TYPE tc_" ++ base ++ lit "_" ++ s ++ lit " gauge" ++ newline) <$> SUFFIXES).

Definition render_standalone (q : Quantiles) (h : LatencyHistogram) (base help : text) : outcome text :=
  let! body := render_histogram q h base None in
  Ret (header base help (lit "histogram") ++ body ++ gauge_types base).

(** [LatencyHistograms]: one per [LatencyMetric], in this order. *)
Module LatencyMetric.
Inductive LatencyMetric := Command | RaftCommit | WalFsync | Match.

Definition index (m : LatencyMetric) : nat :=
  match m with Command => 0 | RaftCommit => 1 | WalFsync => 2 | Match => 3 end.
End LatencyMetric.

Definition SPECS : list (text * text) :=
  [(lit "command_latency_ns", lit "Matching command processing latency (nanoseconds)");
   (lit "raft_commit_ns", lit "Raft quorum commit latency (nanoseconds)");
   (lit "wal_fsync_ns", lit "Post-match durability barrier latency (nanoseconds)");
   (lit "match_ns", lit "In-memory matching latency (nanoseconds)")].

Fixpoint render_specs (q : Quantiles) (specs : list (text * text)) (hists : list LatencyHistogram) : outcome text :=
  match specs, hists with
  | (base, help) :: specs, h :: hists =>
      let! t := render_standalone q h base help in
      let! r := render_specs q specs hists in Ret (t ++ r)
  | [], _ => Ret []
  | _ :: _, [] => Panic "index out of bounds"
  end.

Definition render_histograms (q : Quantiles) (hists : list LatencyHistogram) : outcome text := render_specs q SPECS hists.

(** ** A labelled family *)
Record LabeledHistogram := mkLabeled {
  base : text;
  help : text;
  label_key : text;
  labels : list text;
  hists : list LatencyHistogram
}.

Module LabeledHistogram.

Definition new (base help label_key : text) (labels : list text) : LabeledHistogram :=
  mkLabeled base help label_key labels ((fun _ => LatencyHistogram.new) <$> labels).

Definition index_of (h : LabeledHistogram) (label : text) : option nat :=
  fst <$> list_find (fun l => l = label) (labels h).

Definition record_at (h : LabeledHistogram) (idx : nat) (ns : Z) : outcome LabeledHistogram :=
  match hists h !! idx with
  | None => Ret h
  | Some x => let! x := LatencyHistogram.record x ns in
      Ret (mkLabeled (base h) (help h) (label_key h) (labels h) (<[idx := x]> (hists h)))
  end.

Fixpoint render_series (q : Quantiles) (base key : text) (labels : list text) (hists : list LatencyHistogram) : outcome text :=
  match labels, hists with
  | label :: labels, h :: hists =>
      let! t := render_histogram q h base (Some (key ++ lit "=" ++ quoted label)) in
      let! r := render_series q base key labels hists in Ret (t ++ r)
  | [], _ => Ret []
  | _ :: _, [] => Panic "index out of bounds"
  end.

Definition render_into (q : Quantiles) (h : LabeledHistogram) : outcome text :=
  let! body := render_series q (base h) (label_key h) (labels h) (hists h) in
  Ret (header (base h) (help h) (lit "histogram") ++ body ++ gauge_types (base h)).

End LabeledHistogram.

(** ** The counters *)
Inductive Cell :=
| orders_accepted | trades | volume | cancels | rejects | modifies | journal_seq | raft_role
| raft_term | raft_leader_id | raft_commit_index | raft_enqueued_index | raft_applied_index
| raft_transport_reconnects | raft_transport_dropped | command_latency_ns_total
| command_latency_ns_max | command_latency_samples | asset_wal_errors | raft_commit_ns_total
| raft_commit_ns_max | raft_commit_samples | wal_fsync_ns_total | wal_fsync_ns_max | wal_fsync_samples
| match_ns_total | match_ns_max | match_samples | execution_outbox_pending
| execution_outbox_published | execution_outbox_publish_failures | execution_outbox_publish_healthy
| execution_kafka_publish_ns_total | execution_kafka_publish_ns_max | execution_kafka_publish_samples.

#[export] Instance Cell_eq_dec : EqDecision Cell.
Proof. solve_decision. Defined.

(** The fields of [Metrics]; the [AtomicU64]s by name. *)
Record Metrics := mkMetrics {
  cells : Cell -> Z;
  ready : bool;
  latency_hists : list LatencyHistogram;
  raft_commit_by_group : option LabeledHistogram
}.

Definition store (m : Metrics) (c : Cell) (v : Z) : Metrics :=
  mkMetrics (fun d => if decide (d = c) then v else cells m d) (ready m) (latency_hists m) (raft_commit_by_group m).
Definition fetch_add (m : Metrics) (c : Cell) (v : Z) : Metrics := store m c (wrap64 (cells m c + v)).
Definition fetch_max (m : Metrics) (c : Cell) (v : Z) : Metrics := store m c (Z.max (cells m c) v).

Module Metrics.

Definition default : Metrics := mkMetrics (fun _ => 0) false (replicate 4 LatencyHistogram.new) None.

Definition record (m : Metrics) (r : ExecReport) : Metrics :=
  match r with
  | RAccepted _ _ => fetch_add m orders_accepted 1
  | RTrade _ _ _ _ _ qty _ _ => fetch_add (fetch_add m trades 1) volume qty
  | RCancelled _ _ => fetch_add m cancels 1
  | RRejected _ _ _ => fetch_add m rejects 1
  | RModified _ _ _ => fetch_add m modifies 1
  | _ => m
  end.

Definition set_ready (m : Metrics) (b : bool) : Metrics := mkMetrics (cells m) b (latency_hists m) (raft_commit_by_group m).

Definition set_raft_state (m : Metrics) (role term leader_id commit_index : Z) : Metrics :=
  store (store (store (store m raft_role role) raft_term term) raft_leader_id leader_id) raft_commit_index commit_index.

Definition set_raft_enqueued_index (m : Metrics) (index : Z) : Metrics := fetch_max m raft_enqueued_index index.
Definition set_raft_applied_index (m : Metrics) (index : Z) : Metrics := fetch_max m raft_applied_index index.

Definition raft_apply_lag (m : Metrics) : Z := Z.max 0 (cells m raft_enqueued_index - cells m raft_applied_index).

Definition record_stage (m : Metrics) (total max samples : Cell) (elapsed_ns : Z) : Metrics :=
  fetch_add (fetch_max (fetch_add m total elapsed_ns) max elapsed_ns) samples 1.

Definition record_command_latency (m : Metrics) : Z -> Metrics :=
  record_stage m command_latency_ns_total command_latency_ns_max command_latency_samples.
Definition record_raft_commit_latency (m : Metrics) : Z -> Metrics :=
  record_stage m raft_commit_ns_total raft_commit_ns_max raft_commit_samples.
Definition record_wal_fsync_latency (m : Metrics) : Z -> Metrics :=
  record_stage m wal_fsync_ns_total wal_fsync_ns_max wal_fsync_samples.
Definition record_match_latency (m : Metrics) : Z -> Metrics :=
  record_stage m match_ns_total match_ns_max match_samples.

Definition record_latency_hist (m : Metrics) (metric : LatencyMetric.LatencyMetric) (elapsed_ns : Z) : outcome Metrics :=
  let! h := expect (latency_hists m !! LatencyMetric.index metric) "index out of bounds" in
  let! h := LatencyHistogram.record h elapsed_ns in
  Ret (mkMetrics (cells m) (ready m) (<[LatencyMetric.index metric := h]> (latency_hists m)) (raft_commit_by_group m)).

(** [OnceLock::set]: a second registration is refused and ignored. *)
Definition register_raft_commit_groups (m : Metrics) (group_count : nat) : Metrics :=
  match raft_commit_by_group m with
  | Some _ => m
  | None =>
      mkMetrics (cells m) (ready m) (latency_hists m)
        (Some (LabeledHistogram.new (lit "raft_commit_ns") (lit "Raft quorum commit latency by group (nanoseconds)") (lit "group")
                 ((fun g => show (Z.of_nat g)) <$> seq 0 group_count)))
  end.

Definition record_raft_commit_latency_group (m : Metrics) (group : nat) (elapsed_ns : Z) : outcome Metrics :=
  match raft_commit_by_group m with
  | None => Ret m
  | Some h => let! h := LabeledHistogram.record_at h group elapsed_ns in
      Ret (mkMetrics (cells m) (ready m) (latency_hists m) (Some h))
  end.

(** The scalar part of the page: kind, name, help text and value. *)
Definition scalars (m : Metrics) : list (text * text * text * Z) :=
  let c n h v := (lit "counter", lit n, lit h, v) in
  let g n h v := (lit "gauge", lit n, lit h, v) in
  [c "orders_accepted" "Orders accepted" (cells m orders_accepted);
   c "trades" "Trades printed" (cells m trades);
   c "volume" "Lots traded" (cells m volume);
   c "cancels" "Orders cancelled" (cells m cancels);
   c "rejects" "Orders rejected" (cells m rejects);
   c "modifies" "Orders modified" (cells m modifies);
   c "journal_seq" "Max journal seq (total order head)" (cells m journal_seq);
   g "ready" "Service readiness (1 = ready)" (if ready m then 1 else 0);
   g "raft_role" "Raft role (0 = follower, 1 = candidate, 2 = leader)" (cells m raft_role);
   g "raft_term" "Current Raft term" (cells m raft_term);
   g "raft_leader_id" "Current Raft leader id (0 = unknown)" (cells m raft_leader_id);
   g "raft_commit_index" "Highest Raft entry committed by quorum" (cells m raft_commit_index);
   g "raft_enqueued_index" "Highest committed command entry admitted to matching" (cells m raft_enqueued_index);
   g "raft_applied_index" "Highest committed command entry fully applied by matching" (cells m raft_applied_index);
   g "raft_apply_lag" "Committed command entries queued but not fully applied" (raft_apply_lag m);
   c "raft_transport_reconnects" "Raft peer transport TCP reconnects" (cells m raft_transport_reconnects);
   c "raft_transport_dropped" "Raft peer messages dropped after bounded transport retries or queue saturation" (cells m raft_transport_dropped);
   c "command_latency_ns_total" "Total matching command processing time in nanoseconds" (cells m command_latency_ns_total);
   c "command_latency_samples" "Matching command latency samples" (cells m command_latency_samples);
   g "command_latency_ns_max" "Maximum matching command processing time in nanoseconds" (cells m command_latency_ns_max);
   c "asset_wal_errors" "Command/application durability failures" (cells m asset_wal_errors);
   c "raft_commit_ns_total" "Total Raft quorum commit time in nanoseconds" (cells m raft_commit_ns_total);
   c "raft_commit_samples" "Raft quorum commit batches" (cells m raft_commit_samples);
   g "raft_commit_ns_max" "Maximum Raft quorum commit time in nanoseconds" (cells m raft_commit_ns_max);
   c "wal_fsync_ns_total" "Total post-match durability barrier time in nanoseconds" (cells m wal_fsync_ns_total);
   c "wal_fsync_samples" "Post-match durability barrier batches" (cells m wal_fsync_samples);
   g "wal_fsync_ns_max" "Maximum post-match durability barrier time in nanoseconds" (cells m wal_fsync_ns_max);
   c "match_ns_total" "Total in-memory matching time in nanoseconds" (cells m match_ns_total);
   c "match_samples" "Commands matched" (cells m match_samples);
   g "match_ns_max" "Maximum in-memory matching time in nanoseconds" (cells m match_ns_max);
   g "execution_outbox_pending" "Execution events durably recorded but not broker-acknowledged" (cells m execution_outbox_pending);
   c "execution_outbox_published" "Execution events acknowledged by Kafka" (cells m execution_outbox_published);
   c "execution_outbox_publish_failures" "Execution outbox batches rejected or not acknowledged by Kafka" (cells m execution_outbox_publish_failures);
   g "execution_outbox_publish_healthy" "Execution publisher health (1 = initialized and last batch acknowledged)" (cells m execution_outbox_publish_healthy);
   c "execution_kafka_publish_ns_total" "Total execution Kafka publish acknowledgement latency in nanoseconds" (cells m execution_kafka_publish_ns_total);
   c "execution_kafka_publish_samples" "Execution Kafka publish batches acknowledged" (cells m execution_kafka_publish_samples);
   g "execution_kafka_publish_ns_max" "Maximum execution Kafka publish acknowledgement latency in nanoseconds" (cells m execution_kafka_publish_ns_max)]%string.

Definition scalar_text (x : text * text * text * Z) : text :=
  let '(kind, n, h, v) := x in header n h kind ++ lit "tc_" ++ n ++ lit " " ++ show v ++ newline.

Definition render (q : Quantiles) (m : Metrics) : outcome text :=
  let! hs := render_histograms q (latency_hists m) in
  let! g := match raft_commit_by_group m with Some g => LabeledHistogram.render_into q g | None => Ret [] end in
  Ret (concat (scalar_text <$> scalars m) ++ hs ++ g).

End Metrics.

(** ** Buckets are found without a search *)
Lemma pow10_spec i : 0 <= i < 20 -> pow10 i = Ret (10 ^ i).
Proof.
  intros Hi. unfold pow10, POW10. rewrite list_lookup_fmap, lookup_seq_lt by lia. cbn. by rewrite Z2Nat.id by lia.
Qed.

(** The boundary of a finite bucket. *)
Definition edge (i : Z) : Z := (i mod 9 + 1) * 10 ^ (3 + i / 9).

Lemma edge_at e d : 3 <= e -> 1 <= d <= 10 -> edge ((e - 3) * 9 + (d - 1)) = d * 10 ^ e.
Proof.
  intros He Hd. unfold edge. destruct (Z.eq_dec d 10) as [->|Hne].
  - replace ((e - 3) * 9 + (10 - 1)) with (0 + (e - 2) * 9) by lia. rewrite Z.mod_add, Z.div_add by lia.
    change (0 mod 9) with 0. change (0 / 9) with 0. replace (3 + (0 + (e - 2))) with (Z.succ e) by lia. rewrite Z.pow_succ_r by lia. lia.
  - rewrite (Z.add_comm ((e - 3) * 9)), Z.mod_add, Z.div_add, Z.mod_small, Z.div_small by lia. f_equal; [lia|f_equal; lia].
Qed.

Lemma edge_step i : 0 <= i -> edge i < edge (i + 1).
Proof.
  intros Hi. pose proof (Z.div_mod i 9 ltac:(lia)) as Hd. pose proof (Z.mod_pos_bound i 9 ltac:(lia)) as Hm.
  pose proof (Z.div_pos i 9 ltac:(lia) ltac:(lia)) as Hq. set (e := 3 + i / 9). set (d := i mod 9 + 1).
  assert (E : i = (e - 3) * 9 + (d - 1)) by lia.
  assert (edge i = d * 10 ^ e) as -> by (rewrite E; apply edge_at; lia).
  assert (edge (i + 1) = (d + 1) * 10 ^ e) as ->.
  { rewrite E. replace ((e - 3) * 9 + (d - 1) + 1) with ((e - 3) * 9 + ((d + 1) - 1)) by lia. apply edge_at; lia. }
  pose proof (Z.pow_pos_nonneg 10 e ltac:(lia) ltac:(lia)). lia.
Qed.

Lemma edge_mono i j : 0 <= i <= j -> edge i <= edge j.
Proof.
  intros [Hi Hj]. replace j with (i + Z.of_nat (Z.to_nat (j - i))) by lia. generalize (Z.to_nat (j - i)). intros n.
  induction n as [|n IH]; [by rewrite Z.add_0_r|]. rewrite Nat2Z.inj_succ. replace (i + Z.succ (Z.of_nat n)) with (i + Z.of_nat n + 1) by lia.
  pose proof (edge_step (i + Z.of_nat n) ltac:(lia)). lia.
Qed.

Lemma bucket_le_spec i : 0 <= i < FINITE_BUCKETS -> bucket_le i = Ret (edge i).
Proof.
  intros Hi. change FINITE_BUCKETS with 72 in Hi. unfold bucket_le, edge, MIN_EXP, PER_DECADE.
  pose proof (Z.mod_pos_bound i 9 ltac:(lia)). assert (0 <= i / 9 < 8) by (split; [apply Z.div_pos; lia|apply Z.div_lt_upper_bound; lia]).
  rewrite pow10_spec by lia. cbn [obind]. rewrite wrap64_small; [done|].
  assert (10 ^ (3 + i / 9) <= 10 ^ 10) by (apply Z.pow_le_mono_r; lia). assert (0 < 10 ^ (3 + i / 9)) by (apply Z.pow_pos_nonneg; lia).
  unfold_width. change (10 ^ 10) with 10000000000 in *. nia.
Qed.

Lemma ilog10_loop_spec fuel v : 0 < v < 10 ^ Z.of_nat fuel ->
  0 <= ilog10_loop fuel v /\ 10 ^ ilog10_loop fuel v <= v < 10 ^ (ilog10_loop fuel v + 1).
Proof.
  revert v. induction fuel as [|fuel IH]; intros v [H1 H2]; [cbn in H2; lia|]. cbn [ilog10_loop].
  destruct (Z.ltb_spec v 10); [cbn; lia|]. rewrite Nat2Z.inj_succ, Z.pow_succ_r in H2 by lia.
  destruct (IH (v / 10)) as (H3 & H4 & H5).
  { split; [apply Z.div_str_pos; lia|apply Z.div_lt_upper_bound; lia]. }
  set (e := ilog10_loop fuel (v / 10)) in *. pose proof (Z.div_mod v 10 ltac:(lia)). pose proof (Z.mod_pos_bound v 10 ltac:(lia)).
  split; [lia|]. replace (1 + e) with (Z.succ e) by lia. replace (Z.succ e + 1) with (Z.succ (e + 1)) by lia.
  rewrite !Z.pow_succ_r by lia. lia.
Qed.

Lemma ilog10_spec v : 0 < v <= U64_MAX -> 0 <= ilog10 v /\ 10 ^ ilog10 v <= v < 10 ^ (ilog10 v + 1).
Proof. intros H. apply ilog10_loop_spec. unfold_width. cbn. lia. Qed.

(** The bucket of a sample is the first whose boundary is not below it. *)
Definition bucket_of (v i : Z) : Prop :=
  0 <= i <= FINITE_BUCKETS /\ (forall j, 0 <= j < i -> edge j < v) /\ (i < FINITE_BUCKETS -> v <= edge i).

Lemma bucket_index_spec v : is_u64 v -> exists i, bucket_index v = Ret i /\ bucket_of v i.
Proof.
  intros Hv. unfold bucket_index, bucket_of, MAX_EXP, MIN_EXP, PER_DECADE. change FINITE_BUCKETS with 72.
  destruct (Z.ltb_spec v 1000) as [Hs|Hs].
  { exists 0. split; [done|]. split; [lia|]. split; [lia|]. intros _. change (edge 0) with 1000. lia. }
  destruct (ilog10_spec v ltac:(unfold is_u64 in *; lia)) as (H0 & H1 & H2). set (e := ilog10 v) in *.
  assert (He : 3 <= e).
  { destruct (decide (3 <= e)); [done|]. assert (10 ^ (e + 1) <= 10 ^ 3) by (apply Z.pow_le_mono_r; lia). change (10 ^ 3) with 1000 in *. lia. }
  destruct (Z.ltb_spec 10 e) as [Hb|Hb].
  { exists 72. split; [done|]. split; [lia|]. split; [|done]. intros j Hj. pose proof (edge_mono j 71 ltac:(lia)) as Hm.
    assert (10 ^ 11 <= 10 ^ e) by (apply Z.pow_le_mono_r; lia). change (edge 71) with 90000000000 in Hm. change (10 ^ 11) with 100000000000 in *. lia. }
  rewrite pow10_spec by lia. cbn [obind].
  pose proof (Z.pow_pos_nonneg 10 e ltac:(lia) ltac:(lia)) as Hp. set (pw := 10 ^ e) in *.
  pose proof (Z.div_mod v pw ltac:(lia)) as Hd. pose proof (Z.mod_pos_bound v pw ltac:(lia)) as Hm.
  assert (Hq : 1 <= v / pw <= 9).
  { rewrite Z.pow_add_r in H2 by lia. fold pw in H2. split; [apply Z.div_le_lower_bound; lia|].
    assert (v / pw < 10) by (apply Z.div_lt_upper_bound; lia). lia. }
  set (digit := v / pw + (if negb (v mod pw =? 0) then 1 else 0)).
  assert (Hdg : 1 <= digit <= 10 /\ (digit - 1) * pw < v <= digit * pw).
  { unfold digit. destruct (Z.eqb_spec (v mod pw) 0); cbn [negb]; nia. }
  exists (Z.min ((e - 3) * 9 + (digit - 1)) 72). split.
  { destruct (Z.eqb_spec digit 10) as [->|]; [|done]. f_equal. lia. }
  split; [lia|]. destruct Hdg as [Hdg Hbd]. split.
  - intros j Hj. destruct (decide (digit = 1)) as [E1|E1].
    + destruct (decide (e = 3)) as [E3|E3]; [lia|]. pose proof (edge_mono j ((e - 1 - 3) * 9 + (9 - 1)) ltac:(lia)) as Hmo.
      rewrite edge_at in Hmo by lia. replace e with (Z.succ (e - 1)) in H1 at 1 by lia.
      assert (pw = 10 * 10 ^ (e - 1)) by (unfold pw; rewrite <- Z.pow_succ_r by lia; f_equal; lia).
      pose proof (Z.pow_pos_nonneg 10 (e - 1) ltac:(lia) ltac:(lia)). fold e in H1. lia.
    + pose proof (edge_mono j ((e - 3) * 9 + ((digit - 1) - 1)) ltac:(lia)) as Hmo. rewrite edge_at in Hmo by lia. fold pw in Hmo. lia.
  - intros Hlt. rewrite Z.min_l by lia. rewrite edge_at by lia. fold pw. lia.
Qed.

(** ** Recording *)
Definition slot (v : Z) : Z := match bucket_index v with Ret i => i | Panic _ => 0 end.

Lemma slot_spec v : is_u64 v -> bucket_index v = Ret (slot v) /\ bucket_of v (slot v).
Proof. intros Hv. destruct (bucket_index_spec v Hv) as (i & E & Hi). unfold slot. by rewrite E. Qed.

Definition count_slot (i : Z) (vs : list Z) : Z := Z.of_nat (length (filter (fun v => slot v = i) vs)).
Definition count_slots (i : Z) (vs : list Z) : Z := Z.of_nat (length (filter (fun v => slot v <= i) vs)).
Definition count_le (b : Z) (vs : list Z) : Z := Z.of_nat (length (filter (fun v => v <= b) vs)).

Lemma count_slot_cons i v vs : count_slot i (v :: vs) = (if decide (slot v = i) then 1 else 0) + count_slot i vs.
Proof. unfold count_slot. rewrite filter_cons. destruct (decide _); cbn [length]; lia. Qed.

Lemma count_slots_next i vs : count_slots i vs = count_slots (i - 1) vs + count_slot i vs.
Proof.
  induction vs as [|v vs IH]; [done|]. rewrite count_slot_cons. unfold count_slots in *. rewrite !filter_cons.
  destruct (decide (slot v <= i)), (decide (slot v <= i - 1)), (decide (slot v = i)); cbn [length]; lia.
Qed.

Lemma count_slots_le i vs : Forall is_u64 vs -> 0 <= i < FINITE_BUCKETS -> count_slots i vs = count_le (edge i) vs.
Proof.
  intros Hv Hi. unfold count_slots, count_le. f_equal. f_equal. induction Hv as [|v vs Hv Hvs IH]; [done|]. rewrite !filter_cons, IH.
  destruct (slot_spec v Hv) as (_ & Hb & H1 & H2).
  destruct (decide (slot v <= i)) as [Hs|Hs], (decide (v <= edge i)) as [He|He]; try done; exfalso.
  - pose proof (edge_mono (slot v) i ltac:(lia)). lia.
  - specialize (H1 i ltac:(lia)). lia.
Qed.

Lemma count_slots_all vs : Forall is_u64 vs -> count_slots FINITE_BUCKETS vs = Z.of_nat (length vs).
Proof.
  intros Hv. unfold count_slots. f_equal. f_equal. apply filter_all. intros v Hin.
  pose proof (proj1 (Forall_forall _ _) Hv v Hin) as Hu. destruct (slot_spec v Hu) as (_ & Hb & _). lia.
Qed.

Lemma count_slots_none vs : Forall is_u64 vs -> count_slots (-1) vs = 0.
Proof.
  intros Hv. unfold count_slots. rewrite filter_none; [done|]. intros v Hin.
  pose proof (proj1 (Forall_forall _ _) Hv v Hin) as Hu. destruct (slot_spec v Hu) as (_ & Hb & _). lia.
Qed.

Lemma count_slots_bound i vs : 0 <= count_slots i vs <= Z.of_nat (length vs).
Proof. unfold count_slots. pose proof (length_filter (fun v => slot v <= i) vs). lia. Qed.

Lemma count_slot_bound i vs : 0 <= count_slot i vs <= Z.of_nat (length vs).
Proof. unfold count_slot. pose proof (length_filter (fun v => slot v = i) vs). lia. Qed.

Lemma record_one pre v h : is_u64 v -> Z.of_nat (length pre) < U64_MAX ->
  buckets h = (fun i => count_slot i pre) <$> seqZ 0 BUCKET_COUNT ->
  LatencyHistogram.record h v =
    Ret (mkHist ((fun i => count_slot i (pre ++ [v])) <$> seqZ 0 BUCKET_COUNT) (wrap64 (sum_ns h + v))).
Proof.
  intros Hv Hl Hb. destruct (slot_spec v Hv) as (E & Hs & _). unfold LatencyHistogram.record. rewrite E. cbn [obind].
  change FINITE_BUCKETS with 72 in Hs. change BUCKET_COUNT with 73 in *.
  rewrite Hb at 1. rewrite list_lookup_fmap, lookup_seqZ_lt by lia. cbn [fmap option_fmap option_map expect obind].
  rewrite Z2Nat.id, Z.add_0_l by lia. f_equal. f_equal. rewrite Hb. apply list_eq. intros k.
  destruct (decide (k < 73)%nat) as [Hk|Hk].
  2: { rewrite list_lookup_insert_ne by lia. rewrite !list_lookup_fmap, lookup_seqZ_ge by lia. done. }
  rewrite (list_lookup_fmap _ _ k), (lookup_seqZ_lt 0 73 k) by lia. cbn [fmap option_fmap option_map]. rewrite Z.add_0_l.
  assert (Hc : forall i, count_slot i (pre ++ [v]) = count_slot i pre + (if decide (slot v = i) then 1 else 0)).
  { intros i. unfold count_slot. rewrite filter_app, length_app, filter_cons, filter_nil. destruct (decide _); cbn [length]; lia. }
  rewrite Hc. destruct (decide (slot v = Z.of_nat k)) as [Ek|Ek].
  - replace (Z.to_nat (slot v)) with k by lia. rewrite list_lookup_insert_eq by (rewrite length_fmap, length_seqZ; lia).
    rewrite <-Ek. pose proof (count_slot_bound (slot v) pre). by rewrite wrap64_small by (unfold_width; lia).
  - rewrite list_lookup_insert_ne by lia. rewrite list_lookup_fmap, lookup_seqZ_lt by lia. cbn [fmap option_fmap option_map].
    by rewrite Z.add_0_l, Z.add_0_r.
Qed.

Lemma record_all pre vs h : Forall is_u64 vs -> Z.of_nat (length pre + length vs) <= U64_MAX ->
  buckets h = (fun i => count_slot i pre) <$> seqZ 0 BUCKET_COUNT -> sum_ns h = wrap64 (sumZ id pre) ->
  ofold LatencyHistogram.record h vs =
    Ret (mkHist ((fun i => count_slot i (pre ++ vs)) <$> seqZ 0 BUCKET_COUNT) (wrap64 (sumZ id (pre ++ vs)))).
Proof.
  intros Hv. revert pre h. induction Hv as [|v vs Hv Hvs IH]; intros pre h Hl Hb Hs; cbn [ofold length] in *.
  - rewrite app_nil_r, <-Hb, <-Hs. by destruct h.
  - rewrite (record_one pre v h) by (done || lia). cbn [obind]. rewrite (IH (pre ++ [v])).
    + by rewrite <-(assoc_L (++)).
    + rewrite length_app. cbn. lia.
    + done.
    + cbn [sum_ns]. rewrite Hs, sumZ_app, sumZ_cons, sumZ_nil. cbn. unfold wrap64. rewrite Zplus_mod_idemp_l. f_equal. lia.
Qed.

Lemma finite_rows_spec vs k n : Forall is_u64 vs -> Z.of_nat (length vs) <= U64_MAX -> Z.of_nat (k + n) <= FINITE_BUCKETS ->
  LatencyHistogram.finite_rows k (count_slots (Z.of_nat k - 1) vs) ((fun i => count_slot i vs) <$> seqZ (Z.of_nat k) (Z.of_nat n)) =
    Ret ((fun i => (Some (edge i), count_le (edge i) vs)) <$> seqZ (Z.of_nat k) (Z.of_nat n), count_slots (Z.of_nat (k + n) - 1) vs).
Proof.
  intros Hv Hl. revert k. induction n as [|n IH]; intros k Hk.
  - cbn. rewrite seqZ_nil by lia. cbn. f_equal. f_equal. f_equal. lia.
  - rewrite seqZ_cons by lia. cbn [fmap list_fmap LatencyHistogram.finite_rows].
    rewrite bucket_le_spec by lia. cbn [obind]. rewrite wrap64_small, <-count_slots_next.
    2: { rewrite <-count_slots_next. pose proof (count_slots_bound (Z.of_nat k) vs). unfold_width. lia. }
    replace (Z.pred (Z.of_nat (S n))) with (Z.of_nat n) by lia. replace (Z.succ (Z.of_nat k)) with (Z.of_nat (S k)) by lia.
    replace (Z.of_nat k) with (Z.of_nat (S k) - 1) at 1 by lia. rewrite IH by lia. cbn [obind fst snd].
    f_equal. f_equal; [|f_equal; lia]. f_equal. f_equal. replace (Z.of_nat (S k) - 1) with (Z.of_nat k) by lia. by apply count_slots_le; [|lia].
Qed.

Lemma count_spec vs k n : Z.of_nat (length vs) <= U64_MAX ->
  foldl (fun acc c => wrap64 (acc + c)) (count_slots (k - 1) vs) ((fun i => count_slot i vs) <$> seqZ k (Z.of_nat n)) =
    count_slots (k + Z.of_nat n - 1) vs.
Proof.
  intros Hl. revert k. induction n as [|n IH]; intros k; [rewrite seqZ_nil by lia; cbn; f_equal; lia|].
  rewrite seqZ_cons by lia. cbn [fmap list_fmap foldl]. rewrite <-count_slots_next.
  pose proof (count_slots_bound k vs). rewrite wrap64_small by (unfold_width; lia).
  replace (Z.pred (Z.of_nat (S n))) with (Z.of_nat n) by lia. replace k with (Z.succ k - 1) at 1 by lia. rewrite IH. f_equal. lia.
Qed.

(** The histograms.  Whatever samples are recorded and in whatever order,
    recording never fails, and the exposed rows are exact: the row of each
    boundary counts the samples not above it, the [+Inf] row and the count are
    the number of samples, and the sum is their sum (as a [u64]). *)
Theorem histogram_exact (vs : list Z) : Forall is_u64 vs -> Z.of_nat (length vs) <= U64_MAX ->
  exists h, ofold LatencyHistogram.record LatencyHistogram.new vs = Ret h /\
    LatencyHistogram.rows h = Ret (((fun i => (Some (edge i), count_le (edge i) vs)) <$> seqZ 0 FINITE_BUCKETS) ++ [(None, Z.of_nat (length vs))]) /\
    LatencyHistogram.count (buckets h) = Z.of_nat (length vs) /\ sum_ns h = wrap64 (sumZ id vs).
Proof.
  intros Hv Hl. eexists. split; [apply (record_all [] vs LatencyHistogram.new Hv Hl); vm_compute; reflexivity|]. cbn [buckets sum_ns app].
  split_and!; [| |done].
  - unfold LatencyHistogram.rows. cbn [buckets].
    assert (E : take (Z.to_nat FINITE_BUCKETS) ((fun i => count_slot i vs) <$> seqZ 0 BUCKET_COUNT) = (fun i => count_slot i vs) <$> seqZ 0 72).
    { rewrite <-fmap_take. f_equal. }
    rewrite E. pose proof (finite_rows_spec vs 0 72 Hv Hl ltac:(done)) as Hr. cbn [Nat.add] in Hr.
    change (Z.of_nat 0 - 1) with (-1) in Hr. rewrite count_slots_none in Hr by done.
    change (Z.of_nat 72) with 72 in Hr. change (Z.of_nat 0) with 0 in Hr. rewrite Hr. cbn [obind fst snd].
    rewrite list_lookup_fmap, lookup_seqZ_lt by (vm_compute; done). cbn [fmap option_fmap option_map expect obind].
    change (0 + Z.of_nat (Z.to_nat FINITE_BUCKETS)) with 72. rewrite <-count_slots_next, count_slots_all by done.
    rewrite wrap64_small by (unfold_width; lia). done.
  - unfold LatencyHistogram.count. pose proof (count_spec vs 0 73 Hl) as Hc. change (0 - 1) with (-1) in Hc.
    rewrite count_slots_none in Hc by done. change (Z.of_nat 73) with BUCKET_COUNT in Hc. rewrite Hc. by apply count_slots_all.
Qed.

Lemma histogram_exact_witness : exists h, ofold LatencyHistogram.record LatencyHistogram.new [0; 1500; 42000; 9001; 100000000000] = Ret h /\
  LatencyHistogram.count (buckets h) = 5.
Proof.
  destruct (histogram_exact [0; 1500; 42000; 9001; 100000000000]) as (h & E & _ & Hc & _).
  - repeat constructor; unfold_width; lia.
  - vm_compute. discriminate.
  - exists h. split; [exact E|]. by rewrite Hc.
Defined.

(** The boundary reported for a sample of at least a microsecond is less than
    twice the sample, and no better factor than two holds: the bucket above
    [10^k] is as wide as its lower boundary. *)
Theorem bucket_within_factor_two (v : Z) : is_u64 v -> 1000 <= v -> slot v < FINITE_BUCKETS -> v <= edge (slot v) < 2 * v.
Proof.
  intros Hu Hv Hs. destruct (slot_spec v Hu) as (_ & Hb & H1 & H2). split; [by apply H2|].
  destruct (decide (slot v = 0)) as [E|E]; [rewrite E; change (edge 0) with 1000; lia|].
  specialize (H1 (slot v - 1) ltac:(lia)). set (i := slot v - 1) in *. replace (slot v) with (i + 1) by lia.
  pose proof (Z.div_mod i 9 ltac:(lia)) as Hd. pose proof (Z.mod_pos_bound i 9 ltac:(lia)) as Hm.
  pose proof (Z.div_pos i 9 ltac:(lia) ltac:(lia)) as Hq. set (e := 3 + i / 9) in *. set (d := i mod 9 + 1) in *.
  assert (Ei : i = (e - 3) * 9 + (d - 1)) by lia. pose proof (Z.pow_pos_nonneg 10 e ltac:(lia) ltac:(lia)).
  assert (E1 : edge i = d * 10 ^ e) by (rewrite Ei; apply edge_at; lia).
  assert (E2 : edge (i + 1) = (d + 1) * 10 ^ e).
  { rewrite Ei. replace ((e - 3) * 9 + (d - 1) + 1) with ((e - 3) * 9 + ((d + 1) - 1)) by lia. apply edge_at; lia. }
  rewrite E1 in H1. rewrite E2. nia.
Qed.

Theorem bucket_error_near_double : edge (slot 1001) = 2000 /\ 4 * edge (slot 1001) > 7 * 1001.
Proof. by vm_compute. Qed.

(** ** The counters *)
Lemma cells_store m c v d : cells (store m c v) d = if decide (d = c) then v else cells m d.
Proof. done. Qed.

Definition tally (c : Cell) (r : ExecReport) : Z :=
  match c, r with
  | orders_accepted, RAccepted _ _ | trades, RTrade _ _ _ _ _ _ _ _ | cancels, RCancelled _ _
  | rejects, RRejected _ _ _ | modifies, RModified _ _ _ => 1
  | volume, RTrade _ _ _ _ _ qty _ _ => qty
  | _, _ => 0
  end.

Lemma record_tally m r c : is_u64 (cells m c) -> cells (Metrics.record m r) c = wrap64 (cells m c + tally c r).
Proof.
  intros Hc. destruct r; cbn [Metrics.record]; unfold fetch_add; rewrite ?cells_store;
    destruct c; cbn [tally]; repeat (rewrite ?decide_True by done; rewrite ?decide_False by done; rewrite ?cells_store);
    rewrite ?Z.add_0_r, ?(wrap64_small _ Hc); done.
Qed.

(** The counters are the tally of the reports, whatever their order. *)
Theorem counters_tally (rs : list ExecReport) (c : Cell) :
  cells (foldl Metrics.record Metrics.default rs) c = wrap64 (sumZ (tally c) rs).
Proof.
  assert (H : forall rs m, is_u64 (cells m c) -> cells (foldl Metrics.record m rs) c = wrap64 (cells m c + sumZ (tally c) rs)).
  { clear rs. intros rs. induction rs as [|r rs IH]; intros m Hm; cbn [foldl].
    - rewrite sumZ_nil, Z.add_0_r. by rewrite wrap64_small.
    - rewrite IH, record_tally, sumZ_cons by (rewrite ?record_tally by done; done || apply wrap64_range).
      unfold wrap64. rewrite Zplus_mod_idemp_l. f_equal. lia. }
  by rewrite H by (cbn; unfold_width; lia).
Qed.

(** The apply lag never underflows, and it is what the newest index admitted to
    matching is ahead of the newest one applied, however the two updates
    interleave and whether or not they come in order. *)
Theorem apply_lag_exact (evs : list (bool * Z)) : Forall (fun e => is_u64 e.2) evs ->
  let m := foldl (fun m (e : bool * Z) => if e.1 then Metrics.set_raft_enqueued_index m e.2 else Metrics.set_raft_applied_index m e.2)
             Metrics.default evs in
  let top b := foldr Z.max 0 (snd <$> filter (fun e => e.1 = b) evs) in
  Metrics.raft_apply_lag m = Z.max 0 (top true - top false).
Proof.
  intros He m top.
  assert (H : forall evs m b, cells (foldl (fun m (e : bool * Z) => if e.1 then Metrics.set_raft_enqueued_index m e.2
      else Metrics.set_raft_applied_index m e.2) m evs) (if b : bool then raft_enqueued_index else raft_applied_index) =
    foldl Z.max (cells m (if b then raft_enqueued_index else raft_applied_index)) (snd <$> filter (fun e => e.1 = b) evs)).
  { clear. intros evs. induction evs as [|[x v] evs IH]; intros m b; [done|]. cbn [foldl fst snd]. rewrite IH, filter_cons.
    destruct x, b; cbn; done. }
  assert (Hm : forall l a, 0 <= a -> foldl Z.max a l = Z.max a (foldr Z.max 0 l)).
  { clear. intros l. induction l as [|x l IH]; intros a Ha; cbn; [lia|]. rewrite IH by lia. lia. }
  assert (Hz : forall l, 0 <= foldr Z.max 0 l) by (clear; intros l; induction l; cbn; lia).
  unfold Metrics.raft_apply_lag, m, top. rewrite (H _ _ true), (H _ _ false), !Hm by (cbn; lia). cbn.
  pose proof (Hz (snd <$> filter (fun e => e.1 = true) evs)). pose proof (Hz (snd <$> filter (fun e => e.1 = false) evs)). lia.
Qed.

(** A latency triple: total, maximum and number of the recorded samples. *)
Theorem stage_triple (m : Metrics) (total max samples : Cell) (vs : list Z) : total <> max -> total <> samples -> max <> samples ->
  cells m total = 0 -> cells m max = 0 -> cells m samples = 0 ->
  let m' := foldl (fun m => Metrics.record_stage m total max samples) m vs in
  cells m' total = wrap64 (sumZ id vs) /\ cells m' max = foldr Z.max 0 vs /\ cells m' samples = wrap64 (Z.of_nat (length vs)).
Proof.
  intros H1 H2 H3 E1 E2 E3 m'.
  assert (H : forall vs m, is_u64 (cells m total) -> is_u64 (cells m samples) -> 0 <= cells m max ->
    let m' := foldl (fun m => Metrics.record_stage m total max samples) m vs in
    cells m' total = wrap64 (cells m total + sumZ id vs) /\ cells m' max = Z.max (cells m max) (foldr Z.max 0 vs) /\
    cells m' samples = wrap64 (cells m samples + Z.of_nat (length vs))).
  { clear -H1 H2 H3. intros vs. induction vs as [|v vs IH]; intros m Ht Hs Hm; cbn [foldl foldr length].
    - cbn. rewrite !Z.add_0_r, !wrap64_small by done. split_and!; [done|lia|done].
    - assert (Er : let r := Metrics.record_stage m total max samples v in cells r total = wrap64 (cells m total + v) /\
        cells r max = Z.max (cells m max) v /\ cells r samples = wrap64 (cells m samples + 1)).
      { unfold Metrics.record_stage, fetch_add, fetch_max. cbn [cells store].
        repeat (rewrite ?decide_True by done; rewrite ?decide_False by done). done. }
      destruct Er as (R1 & R2 & R3). cbn zeta. destruct (IH (Metrics.record_stage m total max samples v)) as (I1 & I2 & I3).
      { rewrite R1. apply wrap64_range. }
      { rewrite R3. apply wrap64_range. }
      { rewrite R2. lia. }
      rewrite I1, I2, I3, R1, R2, R3, sumZ_cons. unfold wrap64. rewrite !Zplus_mod_idemp_l. cbn [id]. split_and!; [f_equal; lia|lia|f_equal; lia]. }
  destruct (H vs m) as (R1 & R2 & R3); [rewrite ?E1, ?E2, ?E3; unfold_width; lia..|]. unfold m'. rewrite R1, R2, R3, E1, E2, E3.
  split_and!; [done| |done]. assert (0 <= foldr Z.max 0 vs) by (clear; induction vs; cbn; lia). lia.
Qed.

(** ** The page *)
Definition type_line (base : text) : text := lit "# TYPE tc_" ++ base ++ lit " " ++ lit "histogram" ++ newline.
Definition count_name (base : text) : text := lit "tc_" ++ base ++ lit "_count".

Lemma ret_eq {A : Type} (x y : A) : Ret x = Ret y -> x = y.
Proof. congruence. Qed.

Lemma standalone_declares q h base help t : render_standalone q h base help = Ret t ->
  exists a b c, t = a ++ type_line base ++ b ++ count_name base ++ c.
Proof.
  unfold render_standalone, render_histogram. intros H. apply obind_ret in H as (body & Eb & H). apply ret_eq in H as <-.
  apply obind_ret in Eb as (rs & _ & Eb). apply ret_eq in Eb as <-. unfold header, type_line, count_name.
  generalize (concat (row_text base [] <$> rs)) (show (sum_ns h)) (gauge_types base). intros x y z.
  exists (lit "# HELP tc_" ++ base ++ lit " " ++ help ++ newline), (x ++ lit "tc_" ++ base ++ lit "_sum" ++ lit " " ++ y ++ newline).
  eexists. rewrite <-!(assoc_L (++)). reflexivity.
Qed.

Lemma labeled_declares q h t : LabeledHistogram.render_into q h = Ret t -> exists a c, t = a ++ type_line (base h) ++ c.
Proof.
  unfold LabeledHistogram.render_into. intros H. apply obind_ret in H as (body & _ & H). apply ret_eq in H as <-. unfold header, type_line.
  exists (lit "# HELP tc_" ++ base h ++ lit " " ++ help h ++ newline). eexists. rewrite <-!(assoc_L (++)). reflexivity.
Qed.

Lemma second_spec q hists hs : render_histograms q hists = Ret hs ->
  exists a b c, hs = a ++ type_line (lit "raft_commit_ns") ++ b ++ count_name (lit "raft_commit_ns") ++ c.
Proof.
  unfold render_histograms, SPECS. generalize (lit "command_latency_ns") (lit "raft_commit_ns"). intros b0 b1.
  destruct hists as [|h0 [|h1 l]]; cbn [render_specs]; [done| |]; intros H; apply obind_ret in H as (t0 & _ & H); [done|].
  apply obind_ret in H as (r0 & Er & H). apply ret_eq in H as <-. apply obind_ret in Er as (t1 & Et & Er).
  apply obind_ret in Er as (r1 & _ & Er). apply ret_eq in Er as <-. apply standalone_declares in Et as (a & b & c & ->).
  exists (t0 ++ a), b, (c ++ r1). by rewrite <-!(assoc_L (++)).
Qed.

(** Once the per-group histogram is registered, the page declares the family
    [tc_raft_commit_ns] a second time, after samples of it. *)
Theorem raft_commit_declared_twice (q : Quantiles) (m : Metrics) (groups : nat) (page : text) :
  raft_commit_by_group m = None -> Metrics.render q (Metrics.register_raft_commit_groups m groups) = Ret page ->
  exists a b c d, page = a ++ type_line (lit "raft_commit_ns") ++ b ++ count_name (lit "raft_commit_ns") ++ c ++
    type_line (lit "raft_commit_ns") ++ d.
Proof.
  intros Hg. unfold Metrics.register_raft_commit_groups. rewrite Hg. unfold Metrics.render. cbn [latency_hists raft_commit_by_group].
  generalize (concat (Metrics.scalar_text <$> Metrics.scalars (mkMetrics (cells m) (ready m) (latency_hists m)
    (Some (LabeledHistogram.new (lit "raft_commit_ns") (lit "Raft quorum commit latency by group (nanoseconds)") (lit "group")
             ((fun g => show (Z.of_nat g)) <$> seq 0 groups)))))).
  intros s H. apply obind_ret in H as (hs & Eh & H). apply obind_ret in H as (g & Eg & H). apply ret_eq in H as <-.
  apply second_spec in Eh as (a & b & c & ->). apply labeled_declares in Eg as (a' & c' & ->). cbn [LabeledHistogram.new base].
  exists (s ++ a), b, (c ++ a'), c'. by rewrite <-!(assoc_L (++)).
Qed.
