(* ===== verification/Migration.v ===== *)
(** * Verification of a route migration

    [src/src/migration.rs]: the fingerprint of a category's books taken from a
    durable snapshot, the queries that fetch it from a matching node over HTTP,
    and the comparison that allows a cutover.  The server's side of a query is the
    route of [src/src/bin/raft_node.rs] inside [serve_with_extra] of
    [src/src/metrics.rs].

    Messages on the socket are texts; a peer reads what the other sent.  The texts
    of error messages are shortened. *)

From S2P Require Import Prelude Types Bytes Text Sharding Book Engine Snapshot Processor Recovery.
From S2P Require Import Strategy BookProps EngineInv EngineProps ProcessorProps.
Import BookFacts EngineFacts.

Definition quoted (key : string) : text := [34] ++ lit key ++ [34].
Definition crlf : text := [13; 10].

(** ** Fingerprints *)
Record CategoryFingerprint := mkFingerprint { fp_index : Z; fp_value : Z }.

(** A missing file is [None]. *)
Definition snapshot_category_fingerprint (snapshot_file : option bytes) (category_id category_size : Z)
    : outcome (io_result (option CategoryFingerprint)) :=
  match snapshot_file with
  | None => Ret (Ok None)
  | Some b =>
      let! r := load b in
      match r with
      | Err why => Ret (Err why)
      | Ok s =>
          Ret (Ok (Some (mkFingerprint (raft_applied_index s)
            (fingerprint_engine_states (s_engines s) (fun i => asset_category i category_size =? category_id)))))
      end
  end.

Definition verify_cutover (frozen_index : Z) (source target : CategoryFingerprint) : io_result CategoryFingerprint :=
  if fp_index source <? frozen_index then Err "source snapshot index is behind the freeze index"
  else if fp_index target <? frozen_index then Err "target snapshot index has not caught up to the freeze index"
  else if negb (fp_index source =? fp_index target) then Err "source index and target index differ"
  else if negb (fp_value source =? fp_value target) then Err "source/target matching fingerprints differ"
  else Ok source.

Definition category_of (i : InstrumentId) (category_size : Z) : Z := asset_category i category_size.

(** ** Requests *)

(** The path and the query of a request line's target. *)
Definition parse_fingerprint_request (line : text) : option (io_result Z) :=
  match words line with
  | _ :: target :: _ =>
      let '(path, query) := match split_once (lit "?") target with Some pq => pq | None => (target, []) end in
      if negb (bool_decide (path = lit "/fingerprint")) then None
      else
        Some match head (omap (strip_prefix (lit "category=")) (split_on 38 query)) with
             | Some value =>
                 match parse_uint U32_MAX value with Some c => Ok c | None => Err "category must be a u32" end
             | None => Err "missing category query parameter"
             end
  | _ => None
  end.

Definition is_applied_index_request (line : text) : bool :=
  match words line with
  | _ :: target :: _ => bool_decide (head (split_on 63 target) = Some (lit "/applied-index"))
  | _ => false
  end.

(** ** Bodies *)
Definition fingerprint_response_json (category_id : Z) (fp : CategoryFingerprint) : text :=
  lit "{" ++ quoted "category" ++ lit ":" ++ show category_id ++ lit "," ++ quoted "raft_applied_index" ++ lit ":" ++
  show (fp_index fp) ++ lit "," ++ quoted "fingerprint" ++ lit ":" ++ show (fp_value fp) ++ lit "}".

Definition applied_index_response_json (raft_applied_index : Z) : text :=
  lit "{" ++ quoted "raft_applied_index" ++ lit ":" ++ show raft_applied_index ++ lit "}".

(** The number after a key. *)
Definition field (body key : text) : option Z :=
  ab ← split_once key body;
  let rest := drop_while (fun c => (c =? 58) || (c =? 32)) ab.2 in
  parse_uint U64_MAX (take_while is_ascii_digit rest).

Definition parse_applied_index_response (body : text) : option Z := field body (quoted "raft_applied_index").

Definition parse_fingerprint_response (body : text) : option CategoryFingerprint :=
  i ← field body (quoted "raft_applied_index");
  f ← field body (quoted "fingerprint");
  Some (mkFingerprint i f).

(** ** Endpoints *)
Definition add_endpoint (acc : io_result (gmap Z text)) (token : text) : io_result (gmap Z text) :=
  let? m := acc in
  match split_once (lit "=") token with
  | None => Err "endpoint is not group=host:port"
  | Some (group, addr) =>
      match parse_uint U64_MAX (trim group) with
      | None => Err "invalid group id"
      | Some group =>
          let addr := trim addr in
          if bool_decide (addr = []) then Err "endpoint has an empty address"
          else if bool_decide (is_Some (m !! group)) then Err "duplicate endpoint for group"
          else Ok (<[group := addr]> m)
      end
  end.

Definition parse_group_endpoints (spec : text) : io_result (gmap Z text) :=
  let tokens := filter (fun t => t <> []) (trim <$> split_on 44 spec) in
  let? m := foldl add_endpoint (Ok ∅) tokens in
  if bool_decide (m = ∅) then Err "no migration endpoints configured" else Ok m.

(** ** The exchange over HTTP *)

(** The first of [str::lines]. *)
Definition first_line (s : text) : option text :=
  match s with
  | [] => None
  | _ =>
      let line := take_while (fun c => negb (c =? 10)) s in
      Some (match last line with
            | Some c => if (c =? 13) && bool_decide (is_Some (split_once [10] s)) then take (length line - 1) line else line
            | None => line
            end)
  end.

Definition http_request (addr path : text) : text :=
  lit "GET " ++ path ++ lit " HTTP/1.1" ++ crlf ++ lit "Host: " ++ addr ++ crlf ++ lit "Connection: close" ++ crlf ++ crlf.

Record Response := mkResponse { status : string; content_type : string; r_body : text }.

Definition http_response (r : Response) : text :=
  lit "HTTP/1.1 " ++ lit (status r) ++ crlf ++ lit "Content-Type: " ++ lit (content_type r) ++ crlf ++
  lit "Content-Length: " ++ show (Z.of_nat (length (r_body r))) ++ crlf ++ lit "Connection: close" ++ crlf ++ crlf ++ r_body r.

(** What [http_get] makes of the bytes it received. *)
Definition parse_response (raw : text) : io_result (Z * text) :=
  match (line ← first_line raw; code ← words line !! 1%nat; parse_uint 65535 code) with
  | None => Err "missing HTTP status line"
  | Some code => Ok (code, match split_once (crlf ++ crlf) raw with Some (_, body) => body | None => [] end)
  end.

(** The node's route. *)
Definition fingerprint_route (snapshot_file : option bytes) (raft_applied_index : Z) (line : text) : outcome (option Response) :=
  if is_applied_index_request line then
    Ret (Some (mkResponse "200 OK" "application/json" (applied_index_response_json raft_applied_index)))
  else
    match parse_fingerprint_request line with
    | None => Ret None
    | Some (Err reason) => Ret (Some (mkResponse "400 Bad Request" "text/plain" (lit reason ++ [10])))
    | Some (Ok category) =>
        let! r := snapshot_category_fingerprint snapshot_file category DEFAULT_ASSET_CATEGORY_SIZE in
        Ret (Some match r with
                  | Ok (Some fp) => mkResponse "200 OK" "application/json" (fingerprint_response_json category fp)
                  | Ok None => mkResponse "503 Service Unavailable" "text/plain" (lit "no durable snapshot yet" ++ [10])
                  | Err error => mkResponse "500 Internal Server Error" "text/plain" (lit "snapshot fingerprint failed: " ++ lit error ++ [10])
                  end)
    end.

(** [serve_with_extra] for one connection; [metrics] is the rendered metrics page. *)
Definition serve_request (ready : bool) (metrics : text) (extra : text -> outcome (option Response)) (request : text) : outcome text :=
  let line := default [] (first_line (take 1024 request)) in
  if starts_with (lit "GET /healthz ") line then Ret (http_response (mkResponse "200 OK" "text/plain" (lit "ok" ++ [10])))
  else if starts_with (lit "GET /readyz ") line then
    Ret (http_response (if ready then mkResponse "200 OK" "text/plain" (lit "ready" ++ [10])
                        else mkResponse "503 Service Unavailable" "text/plain" (lit "not ready" ++ [10])))
  else
    let! handled := extra line in
    Ret (http_response (match handled with Some r => r | None => mkResponse "200 OK" "text/plain; version=0.0.4" metrics end)).

(** The clients, given what came back. *)
Definition fetch_category_fingerprint (raw : text) : io_result (option CategoryFingerprint) :=
  let? r := parse_response raw in
  if r.1 =? 503 then Ok None
  else if negb (r.1 =? 200) then Err "fingerprint endpoint returned an error status"
  else match parse_fingerprint_response r.2 with Some fp => Ok (Some fp) | None => Err "unparseable fingerprint response" end.

Definition fetch_applied_index (raw : text) : io_result Z :=
  let? r := parse_response raw in
  if negb (r.1 =? 200) then Err "applied-index endpoint returned an error status"
  else match parse_applied_index_response r.2 with Some i => Ok i | None => Err "unparseable applied-index response" end.

(** ** Bodies read back *)
Lemma quoted_avoid k a s : Forall (fun x => x <> 34) a ->
  split_once (quoted k) (a ++ s) = (fun ab => (a ++ ab.1, ab.2)) <$> split_once (quoted k) s.
Proof. apply split_once_avoid. Qed.

(** Another key is passed over. *)
Lemma quoted_other k k' s : Forall (fun x => x <> 34) (lit k') -> lit k <> [] -> head (lit k) <> head (lit k') -> head (lit k) <> head s ->
  is_Some (head s) -> is_Some (head (lit k')) ->
  split_once (quoted k) (quoted k' ++ s) = (fun ab => (quoted k' ++ ab.1, ab.2)) <$> split_once (quoted k) s.
Proof.
  intros Hk Hn H1 H2 [c Hs] [d Hd]. unfold quoted at 2. rewrite <- !(assoc_L (++)). cbn [app]. rewrite split_once_skip.
  - rewrite quoted_avoid by done. rewrite split_once_skip.
    + destruct (split_once (quoted k) s) as [[x y]|]; [|done]. cbn [fmap option_fmap option_map fst snd]. unfold quoted.
      by rewrite <- !(assoc_L (++)).
    + unfold quoted. destruct (lit k) as [|a ks]; [done|]. destruct s as [|b s]; [done|]. cbn. cbn in H2.
      by rewrite (proj2 (Z.eqb_neq a b)) by congruence.
  - unfold quoted. destruct (lit k) as [|a ks]; [done|]. destruct (lit k') as [|b ks']; [done|]. cbn. cbn in H1.
    by rewrite (proj2 (Z.eqb_neq a b)) by congruence.
Qed.

Lemma number_after n rest : 0 <= n <= U64_MAX -> match rest with [] => True | c :: _ => is_ascii_digit c = false end ->
  parse_uint U64_MAX (take_while is_ascii_digit (drop_while (fun c => (c =? 58) || (c =? 32)) (58 :: show n ++ rest))) = Some n.
Proof.
  intros Hn Hr. change (drop_while ?f (58 :: ?s)) with (drop_while f s).
  assert (drop_while (fun c => (c =? 58) || (c =? 32)) (show n ++ rest) = show n ++ rest) as ->.
  { pose proof (show_nonempty n) as Hne. pose proof (show_all n ltac:(lia)) as Ha. destruct (show n) as [|d ds]; [done|]. cbn [app drop_while].
    apply Forall_cons_1 in Ha as [Hd _]. apply digit_range in Hd. by rewrite !(proj2 (Z.eqb_neq _ _)) by lia. }
  rewrite take_while_app; [by apply parse_show|by apply show_all; lia|done].
Qed.

Lemma applied_index_round_trip i : is_u64 i -> parse_applied_index_response (applied_index_response_json i) = Some i.
Proof.
  intros Hi. unfold parse_applied_index_response, field, applied_index_response_json.
  rewrite quoted_avoid by by apply avoids_b. rewrite split_once_here. cbn [fmap option_fmap option_map mbind option_bind snd].
  change (lit ":" ++ ?s) with (58 :: s). by apply number_after.
Qed.

Lemma show_avoids n : 0 <= n -> Forall (fun x => x <> 34) (show n).
Proof. intros Hn. apply digits_avoid; [by apply show_all|done]. Qed.

Lemma fingerprint_round_trip c fp : 0 <= c -> is_u64 (fp_index fp) -> is_u64 (fp_value fp) ->
  parse_fingerprint_response (fingerprint_response_json c fp) = Some fp.
Proof.
  intros Hc Hi Hv. unfold parse_fingerprint_response, field, fingerprint_response_json.
  repeat match goal with
  | |- context [split_once (quoted ?k) (quoted ?k ++ ?s)] => rewrite (split_once_here (quoted k) s)
  | |- context [split_once (quoted ?k) (quoted ?k' ++ ?s)] =>
      rewrite (quoted_other k k' s) by (try discriminate; try (eexists; reflexivity); by apply avoids_b)
  | |- context [split_once (quoted ?k) (?a ++ ?s)] =>
      rewrite (quoted_avoid k a s) by (first [by apply avoids_b | apply show_avoids; unfold_width; lia])
  end.
  cbn [fmap option_fmap option_map mbind option_bind snd].
  change (lit ":" ++ ?s) with (58 :: s). rewrite !number_after by done. cbn [mbind option_bind]. by destruct fp.
Qed.

(** ** Messages read back *)
Lemma first_line_crlf a s : Forall (fun x => x <> 10) a -> first_line (a ++ crlf ++ s) = Some a.
Proof.
  intros Ha. unfold first_line. assert (Hl : take_while (fun c => negb (c =? 10)) (a ++ crlf ++ s) = a ++ [13]).
  { replace (a ++ crlf ++ s) with ((a ++ [13]) ++ 10 :: s) by by rewrite <- (assoc_L (++)). apply take_while_app; [|done].
    apply Forall_app_2; [|by apply Forall_singleton]. eapply Forall_impl; [exact Ha|]. intros x Hx. cbn. by rewrite (proj2 (Z.eqb_neq _ _)). }
  rewrite Hl. assert (Hs : is_Some (split_once [10] (a ++ crlf ++ s))).
  { replace (a ++ crlf ++ s) with ((a ++ [13]) ++ [10] ++ s) by by rewrite <- (assoc_L (++)). rewrite split_once_first; [by eexists|].
    apply Forall_app_2; [done|]. by apply Forall_singleton. }
  rewrite last_snoc, bool_decide_true by done. cbn [Z.eqb andb Pos.eqb]. rewrite length_app, take_app_length' by (cbn; lia). by destruct a.
Qed.

Definition headers (st ct : string) (n : nat) : text :=
  lit "HTTP/1.1 " ++ lit st ++ crlf ++ lit "Content-Type: " ++ lit ct ++ crlf ++
  lit "Content-Length: " ++ show (Z.of_nat n) ++ crlf ++ lit "Connection: close".

Lemma crlf_pass c s : c <> 13 -> split_once (crlf ++ crlf) (crlf ++ c :: s) = (fun ab => (crlf ++ ab.1, ab.2)) <$> split_once (crlf ++ crlf) (c :: s).
Proof.
  intros Hc. change (crlf ++ crlf) with [13; 10; 13; 10]. change (crlf ++ c :: s) with (13 :: 10 :: c :: s). rewrite split_once_skip.
  2: { change (strip_prefix _ _) with (if 13 =? c then strip_prefix [10] s else None). by rewrite (proj2 (Z.eqb_neq 13 c)) by done. }
  rewrite (split_once_skip _ 10) by done.
  by destruct (split_once [13; 10; 13; 10] (c :: s)) as [[? ?]|].
Qed.

Lemma crlf_avoid a s : Forall (fun x => x <> 13) a ->
  split_once (crlf ++ crlf) (a ++ s) = (fun ab => (a ++ ab.1, ab.2)) <$> split_once (crlf ++ crlf) s.
Proof. apply split_once_avoid. Qed.

Lemma response_body st ct n body : Forall (fun x => x <> 13) (lit st) -> Forall (fun x => x <> 13) (lit ct) ->
  split_once (crlf ++ crlf) (headers st ct n ++ crlf ++ crlf ++ body) = Some (headers st ct n, body).
Proof.
  intros Hs Hc. unfold headers. rewrite <- !(assoc_L (++)).
  rewrite (crlf_avoid (lit "HTTP/1.1 ")) by by apply avoids_b. rewrite (crlf_avoid (lit st)) by done.
  change (lit "Content-Type: " ++ ?s) with (67 :: lit "ontent-Type: " ++ s). rewrite crlf_pass by done.
  change (67 :: lit "ontent-Type: " ++ ?s) with (lit "Content-Type: " ++ s).
  rewrite (crlf_avoid (lit "Content-Type: ")) by by apply avoids_b. rewrite (crlf_avoid (lit ct)) by done.
  change (lit "Content-Length: " ++ ?s) with (67 :: lit "ontent-Length: " ++ s). rewrite crlf_pass by done.
  change (67 :: lit "ontent-Length: " ++ ?s) with (lit "Content-Length: " ++ s).
  rewrite (crlf_avoid (lit "Content-Length: ")) by by apply avoids_b.
  rewrite (crlf_avoid (show _)) by (apply digits_avoid; [apply show_all; lia|done]).
  change (lit "Connection: close" ++ ?s) with (67 :: lit "onnection: close" ++ s). rewrite crlf_pass by done.
  change (67 :: lit "onnection: close" ++ ?s) with (lit "Connection: close" ++ s).
  rewrite (crlf_avoid (lit "Connection: close")) by by apply avoids_b.
  rewrite (assoc_L (++) crlf crlf body), split_once_here. cbn [fmap option_fmap option_map fst snd].
  rewrite app_nil_r. done.
Qed.

Lemma response_read st ct body code : forallb (fun x => negb (x =? 13) && negb (x =? 10)) (lit st ++ lit ct) = true ->
  (words (lit "HTTP/1.1 " ++ lit st) !! 1%nat) ≫= parse_uint 65535 = Some code ->
  parse_response (http_response (mkResponse st ct body)) = Ok (code, body).
Proof.
  intros Hb Hcode. assert (Hall : forall c, c = 13 \/ c = 10 -> Forall (fun x => x <> c) (lit st) /\ Forall (fun x => x <> c) (lit ct)).
  { rewrite forallb_forall in Hb. intros c Hc. rewrite <- Forall_app. apply Forall_forall. intros x Hx. apply list_elem_of_In, Hb in Hx. zbool. lia. }
  assert (E : http_response (mkResponse st ct body) = headers st ct (length body) ++ crlf ++ crlf ++ body).
  { unfold http_response, headers. cbn [status content_type r_body]. by rewrite <- !(assoc_L (++)). }
  rewrite E. unfold parse_response. rewrite response_body by (apply Hall; by left).
  unfold headers. rewrite <- !(assoc_L (++)), (assoc_L (++) (lit "HTTP/1.1 ")).
  rewrite first_line_crlf by (apply Forall_app_2; [by apply avoids_b|apply Hall; by right]). cbn [mbind option_bind].
  change (words _ !! 1%nat ≫= _) with ((words (lit "HTTP/1.1 " ++ lit st) !! 1%nat) ≫= parse_uint 65535). by rewrite Hcode.
Qed.

(** ** A query, end to end *)
Definition fingerprint_path (c : Z) : text := lit "/fingerprint?category=" ++ show c.

Definition request_line (path : text) : text := lit "GET " ++ path ++ lit " HTTP/1.1".

Lemma line_received addr path : (length path <= 900)%nat -> Forall (fun x => x <> 10) path ->
  first_line (take 1024 (http_request addr path)) = Some (request_line path).
Proof.
  intros Hl Hp. set (rest := lit "Host: " ++ addr ++ crlf ++ lit "Connection: close" ++ crlf ++ crlf).
  assert (E : http_request addr path = (request_line path ++ crlf) ++ rest) by (unfold http_request, request_line; by rewrite <- !(assoc_L (++))).
  rewrite E, take_app. rewrite take_ge.
  2: { unfold request_line. rewrite !length_app. cbn [crlf length]. change (length (lit "GET ")) with 4%nat.
       change (length (lit " HTTP/1.1")) with 9%nat. lia. }
  rewrite <- (assoc_L (++)). apply first_line_crlf. unfold request_line. apply Forall_app_2; [by apply avoids_b|].
  apply Forall_app_2; [done|by apply avoids_b].
Qed.

Lemma path_word c : 0 <= c -> is_word (fingerprint_path c).
Proof.
  intros Hc. apply word_app; [by apply word_b|]. apply digits_word; [by apply show_all|apply show_nonempty].
Qed.

Lemma path_words c : 0 <= c -> words (request_line (fingerprint_path c)) = [lit "GET"; fingerprint_path c; lit "HTTP/1.1"].
Proof.
  intros Hc. unfold request_line. change (lit "GET " ++ ?s) with (lit "GET" ++ 32 :: s). rewrite words_word by (by apply word_b || done).
  rewrite words_space. change (lit " HTTP/1.1") with (32 :: lit "HTTP/1.1"). by rewrite words_word by (by apply path_word || done).
Qed.

Lemma path_parsed c : is_u32 c -> parse_fingerprint_request (request_line (fingerprint_path c)) = Some (Ok c).
Proof.
  intros Hc. unfold parse_fingerprint_request. rewrite path_words by (unfold_width; lia). unfold fingerprint_path.
  change (lit "/fingerprint?category=" ++ ?s) with (lit "/fingerprint" ++ (63 :: []) ++ lit "category=" ++ s). change (lit "?") with [63].
  rewrite split_once_first by by apply avoids_b. rewrite bool_decide_true by done. cbn [negb].
  rewrite split_on_avoid.
  2: { apply Forall_app_2; [by apply avoids_b|]. apply digits_avoid; [apply show_all; unfold_width; lia|done]. }
  cbn [omap list_omap]. rewrite strip_prefix_app. cbn [head]. by rewrite parse_show.
Qed.

Lemma path_not_index c : 0 <= c -> is_applied_index_request (request_line (fingerprint_path c)) = false.
Proof.
  intros Hc. unfold is_applied_index_request. rewrite path_words by done. unfold fingerprint_path.
  change (lit "/fingerprint?category=" ++ ?s) with (lit "/fingerprint" ++ 63 :: lit "category=" ++ s).
  rewrite split_on_first by by apply avoids_b. by apply bool_decide_false.
Qed.

(** What the node answers to a fingerprint query. *)
Lemma query_served ready metrics file index addr c r : is_u32 c -> snapshot_category_fingerprint file c DEFAULT_ASSET_CATEGORY_SIZE = Ret r ->
  serve_request ready metrics (fingerprint_route file index) (http_request addr (fingerprint_path c)) =
    Ret (http_response match r with
      | Ok (Some fp) => mkResponse "200 OK" "application/json" (fingerprint_response_json c fp)
      | Ok None => mkResponse "503 Service Unavailable" "text/plain" (lit "no durable snapshot yet" ++ [10])
      | Err error => mkResponse "500 Internal Server Error" "text/plain" (lit "snapshot fingerprint failed: " ++ lit error ++ [10])
      end).
Proof.
  intros Hc Er. unfold serve_request. rewrite line_received.
  2: { unfold fingerprint_path. rewrite length_app. pose proof (length_show c 32 ltac:(unfold_width; cbn; lia)).
       change (length (lit "/fingerprint?category=")) with 22%nat. lia. }
  2: { apply Forall_app_2; [by apply avoids_b|]. apply digits_avoid; [apply show_all; unfold_width; lia|done]. }
  cbn [default from_option id].
  change (starts_with (lit "GET /healthz ") _) with false. change (starts_with (lit "GET /readyz ") _) with false.
  unfold fingerprint_route. rewrite path_not_index, path_parsed by (unfold_width; lia || done). rewrite Er. cbn [obind]. done.
Qed.

Lemma foldl_keeps {A B : Type} (P : A -> Prop) (f : A -> B -> A) l a : (forall a b, P a -> P (f a b)) -> P a -> P (foldl f a l).
Proof. intros Hf. revert a. induction l as [|b l IH]; intros a Ha; [done|]. cbn. by apply IH, Hf. Qed.

Lemma fingerprint_width states select : is_u64 (fingerprint_engine_states states select).
Proof.
  assert (Hmix : forall h v, is_u64 h -> is_u64 (mix h v)).
  { intros h v Hh. by apply fnv_range. }
  unfold fingerprint_engine_states. apply (foldl_keeps is_u64); [|unfold_width; lia]. intros h s Hh. destruct (select _); [|done].
  apply (foldl_keeps is_u64); [|by apply (foldl_keeps is_u64)]. intros h' o Hh'. unfold fingerprint_order. by apply (foldl_keeps is_u64).
Qed.

(** The fingerprint of the snapshot is that of the processor that wrote it. *)
Lemma fingerprint_fetched ho eo zo po p js ri d c ready metrics live addr :
  is_u32 c -> snapshot_data ho eo zo po p js ri = Ret d -> data_ok d ->
  exists v raw, category_fingerprint ho eo p c DEFAULT_ASSET_CATEGORY_SIZE = Ret v /\
    serve_request ready metrics (fingerprint_route (Some (image d)) live) (http_request addr (fingerprint_path c)) = Ret raw /\
    fetch_category_fingerprint raw = Ok (Some (mkFingerprint ri v)).
Proof.
  intros Hc Ed Hd. assert (Hri : d_raft_applied_index d = ri).
  { unfold snapshot_data in Ed. apply obind_ret in Ed as (ss & _ & Ed). by injection Ed as <-. }
  assert (Hss : export_state ho eo p = Ret (d_engines d)).
  { unfold snapshot_data in Ed. apply obind_ret in Ed as (ss & Es & Ed). by injection Ed as <-. }
  unfold category_fingerprint, fingerprint_state. rewrite Hss. cbn [obind].
  set (v := fingerprint_engine_states _ _). exists v. eexists. split; [done|].
  assert (Ef : snapshot_category_fingerprint (Some (image d)) c DEFAULT_ASSET_CATEGORY_SIZE = Ret (Ok (Some (mkFingerprint ri v)))).
  { unfold snapshot_category_fingerprint. rewrite load_image by done. cbn [obind]. by rewrite <- Hri. }
  split; [by apply query_served|]. cbn iota. unfold fetch_category_fingerprint.
  rewrite (response_read _ _ _ 200) by (vm_compute; reflexivity). cbn [try_bind fst snd Z.eqb Pos.eqb negb].
  rewrite fingerprint_round_trip; [done|unfold_width; lia| |apply fingerprint_width]. cbn. rewrite <- Hri. apply Hd.
Qed.

(** C29: A cutover is verified against the books.  Let a source and a target node
    each have written a snapshot of its processor, at the index it had applied.
    Then each answers a fingerprint query, over the request and response texts that
    cross the socket, with its index and with the fingerprint of its own live
    books of the category; and the check that allows the cutover succeeds exactly
    when both are at the same index, no earlier than the freeze, with equal
    fingerprints.  A node without a snapshot, or with an unreadable one, is never
    taken for agreement: the first is reported as absent, the second as an error. *)
Theorem cutover_verified (ho ho' : OrderBook -> list (Z * nat)) (eo eo' : gmap Z MatchingEngine -> list (Z * MatchingEngine))
    (zo zo' : gset Z -> list Z) (po po' : gmap (Z * Z) Z -> list (Z * Z * Z)) (p p' : Processor) (js js' ri ri' : Z)
    (d d' : SnapshotData) (c frozen : Z) (ready : bool) (metrics addr addr' : text) (live : Z)
    (Hc : is_u32 c) (Hsource : snapshot_data ho eo zo po p js ri = Ret d) (Htarget : snapshot_data ho' eo' zo' po' p' js' ri' = Ret d')
    (Hd : data_ok d) (Hd' : data_ok d') :
  let ask file addr := serve_request ready metrics (fingerprint_route file live) (http_request addr (fingerprint_path c)) in
  (exists raw raw' fp fp', ask (Some (image d)) addr = Ret raw /\ ask (Some (image d')) addr' = Ret raw' /\
     fetch_category_fingerprint raw = Ok (Some fp) /\ fetch_category_fingerprint raw' = Ok (Some fp') /\
     (verify_cutover frozen fp fp' = Ok fp <->
      ri = ri' /\ frozen <= ri /\
      category_fingerprint ho eo p c DEFAULT_ASSET_CATEGORY_SIZE = category_fingerprint ho' eo' p' c DEFAULT_ASSET_CATEGORY_SIZE)) /\
  (exists raw, ask None addr = Ret raw /\ fetch_category_fingerprint raw = Ok None) /\
  (forall b why, load b = Ret (Err why) -> exists raw, ask (Some b) addr = Ret raw /\ fetch_category_fingerprint raw <> Ok None /\
     forall fp, fetch_category_fingerprint raw <> Ok (Some fp)).
Proof.
  cbv zeta. split; [|split].
  - destruct (fingerprint_fetched ho eo zo po p js ri d c ready metrics live addr Hc Hsource Hd) as (v & raw & Ev & Es & Ef).
    destruct (fingerprint_fetched ho' eo' zo' po' p' js' ri' d' c ready metrics live addr' Hc Htarget Hd') as (v' & raw' & Ev' & Es' & Ef').
    exists raw, raw', (mkFingerprint ri v), (mkFingerprint ri' v'). split_and!; [done..|]. rewrite Ev, Ev'.
    unfold verify_cutover. cbn [fp_index fp_value]. destruct (ri <? frozen) eqn:E1; zbool; [split; [done|lia]|].
    destruct (ri' <? frozen) eqn:E2; zbool; [split; [done|lia]|]. destruct (ri =? ri') eqn:E3; zbool; cbn [negb]; [|split; [done|lia]].
    destruct (v =? v') eqn:E4; zbool; cbn [negb]; [subst; split; [done|done]|]. split; [done|]. intros (_ & _ & [= ?]). done.
  - eexists. split; [by apply query_served|]. cbn iota. unfold fetch_category_fingerprint.
    by rewrite (response_read _ _ _ 503) by (vm_compute; reflexivity).
  - intros b why Hb. eexists. split; [apply query_served; [done|]; unfold snapshot_category_fingerprint; by rewrite Hb|]. cbn iota.
    unfold fetch_category_fingerprint. by rewrite (response_read _ _ _ 500) by (vm_compute; reflexivity).
Qed.

Lemma cutover_verified_witness :
  exists d raw fp, snapshot_data map_order map_to_list elements map_to_list example_running 11 40 = Ret d /\
    serve_request true [] (fingerprint_route (Some (image d)) 40) (http_request (lit "10.0.0.1:9102") (fingerprint_path 0)) = Ret raw /\
    fetch_category_fingerprint raw = Ok (Some fp) /\ verify_cutover 33 fp fp = Ok fp.
Proof.
  set (d := match snapshot_data map_order map_to_list elements map_to_list example_running 11 40 with
            | Ret d => d | Panic _ => mkData 0 0 0 0 [] [] [] [] end).
  assert (Ed : snapshot_data map_order map_to_list elements map_to_list example_running 11 40 = Ret d) by (vm_compute; reflexivity).
  assert (Hd : data_ok d).
  { vm_compute in d. subst d. unfold data_ok, engine_state_ok, order_ok. cbn -[image Z.mul].
    split_and!; try (unfold_width; lia); repeat constructor; cbn; unfold_width; try lia. }
  destruct (cutover_verified map_order map_order map_to_list map_to_list elements elements map_to_list map_to_list
    example_running example_running 11 11 40 40 d d 0 33 true [] (lit "10.0.0.1:9102") (lit "10.0.0.1:9102") 40)
    as [(raw & raw' & fp & fp' & E1 & E2 & F1 & F2 & Hv) _].
  - unfold_width. lia.
  - exact Ed.
  - exact Ed.
  - exact Hd.
  - exact Hd.
  - exists d, raw, fp. split; [exact Ed|]. split; [exact E1|]. split; [exact F1|].
    assert (raw = raw') as <- by congruence. assert (fp = fp') as <- by congruence. apply Hv. split; [reflexivity|]. split; [lia | reflexivity].
Defined.

(** ** Endpoint maps *)
Definition endpoint (ga : Z * text) : text := show ga.1 ++ lit "=" ++ ga.2.

Fixpoint endpoint_spec (l : list (Z * text)) : text :=
  match l with
  | [] => []
  | [ga] => endpoint ga
  | ga :: l => endpoint ga ++ 44 :: endpoint_spec l
  end.

Definition endpoint_ok (ga : Z * text) : Prop := is_u64 ga.1 /\ is_word ga.2 /\ Forall (fun x => x <> 44) ga.2.

Lemma endpoint_avoids ga : endpoint_ok ga -> Forall (fun x => x <> 44) (endpoint ga).
Proof.
  intros (Hg & _ & Ha). apply Forall_app_2; [apply digits_avoid; [apply show_all; unfold_width; lia|done]|].
  apply Forall_app_2; [by apply avoids_b|done].
Qed.

Lemma endpoint_word ga : endpoint_ok ga -> is_word (endpoint ga).
Proof.
  intros (Hg & [_ Hw] & _). apply word_app; [apply digits_word; [apply show_all; unfold_width; lia|apply show_nonempty]|].
  by apply Forall_app_2; [apply word_b|].
Qed.

Lemma spec_tokens l : l <> [] -> Forall endpoint_ok l -> split_on 44 (endpoint_spec l) = endpoint <$> l.
Proof.
  intros Hn Hl. induction Hl as [|ga l Hg Hl IH]; [done|]. destruct l as [|ga' l].
  - cbn. by apply split_on_avoid, endpoint_avoids.
  - change (endpoint_spec (ga :: ga' :: l)) with (endpoint ga ++ 44 :: endpoint_spec (ga' :: l)).
    rewrite split_on_first by by apply endpoint_avoids. by rewrite IH.
Qed.

Lemma add_endpoint_ok m ga : endpoint_ok ga -> m !! ga.1 = None -> add_endpoint (Ok m) (endpoint ga) = Ok (<[ga.1 := ga.2]> m).
Proof.
  intros (Hg & Hw & _) Hm. unfold add_endpoint, endpoint. cbn [try_bind]. change (lit "=") with [61].
  rewrite split_once_first by (apply digits_avoid; [apply show_all; unfold_width; lia|done]).
  rewrite (trim_word (show ga.1)) by (apply digits_word; [apply show_all; unfold_width; lia|apply show_nonempty]).
  rewrite parse_show, (trim_word ga.2) by done.
  rewrite bool_decide_false by apply Hw. by rewrite bool_decide_false by (rewrite Hm; by intros [? ?]).
Qed.

(** A map of endpoints written out as [group=address] entries is read back. *)
Theorem endpoints_round_trip (l : list (Z * text)) : l <> [] -> NoDup l.*1 -> Forall endpoint_ok l ->
  parse_group_endpoints (endpoint_spec l) = Ok (list_to_map l).
Proof.
  intros Hn Hd Hl. unfold parse_group_endpoints. rewrite spec_tokens by done.
  assert (Et : trim <$> (endpoint <$> l) = endpoint <$> l).
  { clear -Hl. induction Hl as [|ga l Hg Hl IH]; [done|]. rewrite !fmap_cons, trim_word by by apply endpoint_word. by rewrite IH. }
  rewrite Et, filter_all.
  2: { intros t Ht. apply list_elem_of_fmap in Ht as (ga & -> & Hin). rewrite Forall_forall in Hl. by apply endpoint_word, Hl. }
  assert (Ef : forall m, Forall (fun ga => m !! ga.1 = None) l -> foldl add_endpoint (Ok m) (endpoint <$> l) = Ok (list_to_map l ∪ m)).
  { clear Hn Et. induction Hl as [|ga l Hg Hl IH]; intros m Hm; [cbn; by rewrite (left_id_L ∅ (∪))|].
    apply Forall_cons_1 in Hm as [Hm Hms]. rewrite fmap_cons in Hd. apply NoDup_cons in Hd as [Hni Hd]. cbn [fmap list_fmap foldl].
    rewrite add_endpoint_ok by done. rewrite IH; [|done|].
    - f_equal. cbn [list_to_map foldr]. destruct ga as [g a]. cbn [uncurry fst snd]. rewrite <- insert_union_r.
      + by rewrite insert_union_l.
      + apply not_elem_of_list_to_map_1. done.
    - apply Forall_forall. intros ga' Hin. rewrite lookup_insert_ne.
      + by apply (proj1 (Forall_forall _ _) Hms).
      + intros E. apply Hni. rewrite E. by apply list_elem_of_fmap_2. }
  rewrite Ef by (apply Forall_forall; intros; apply lookup_empty). rewrite (right_id_L ∅ (∪)). cbn [try_bind].
  rewrite bool_decide_false; [done|]. intros E. destruct l as [|[g a] l]; [done|]. cbn in E. by apply insert_non_empty in E.
Qed.
