(* ===== verification/Projection.v ===== *)
(** * The order tables of the order service

    The database stages of [src/src/bin/order_api.rs]: the projection of commands
    into the sharded order tables ([persist_mysql_shard]), the projection of
    execution events onto those rows ([persist_execution_shard],
    [apply_pending_execution_table], [sweep_pending_execution_shard]) and the split
    of a Kafka batch over the physical databases (the two [submit]s).

    A physical database is the four kinds of tables its schema declares, keyed by
    their primary or unique keys; each SQL statement is a function on them, and a
    transaction that does not commit leaves the database as it was.  The columns
    [row_seq], [created_at] and [updated_at] are left out: no statement of these
    stages reads them.  The assignments of an [UPDATE] take effect in the order they
    are written, as they do in MySQL for one table; for a joined [UPDATE], such as
    the one here, its documentation leaves the order open, and
    [assignments_read_old_row] shows what depends on it. *)

From S2P Require Import Prelude Types Protocol Bytes Wire Sharding.

(** ** Schema *)
Inductive OrderStatusText :=
| PENDING | CANCEL_PENDING | MODIFY_PENDING | FILLED | CANCELLED | REJECTED | PARTIAL | OPEN.

#[export] Instance status_eq_dec : EqDecision OrderStatusText.
Proof. solve_decision. Defined.

(** [asset_orders_NNN], keyed by the table's number and [order_id]. *)
Record OrderRow := mkRow {
  row_category_id : Z;
  row_user_id : UserId;
  row_instrument : InstrumentId;
  row_side : Z;
  row_price : Price;
  row_qty : Qty;
  row_filled_qty : Qty;
  row_status : OrderStatusText
}.

(** [processed_commands], keyed by [(category_id, kafka_offset)]. *)
Record CommandRow := mkCommandRow {
  cr_kafka_partition : Z;
  cr_command_id : Z;
  cr_user_id : UserId;
  cr_shard_table : Z
}.

(** The primary key [(raft_group, raft_index, report_ordinal, target_order_id)]. *)
Definition EventKey : Type := Z * Z * Z * OrderId.
Definition key_target (k : EventKey) : OrderId := k.2.

(** [pending_execution_events] *)
Record PendingRow := mkPending {
  pe_shard_table : Z;
  pe_instrument : InstrumentId;
  pe_report_type : Z;
  pe_event_qty : Qty;
  pe_kafka_partition : Z;
  pe_kafka_offset : Z
}.

#[export] Instance pending_row_eq_dec : EqDecision PendingRow.
Proof. solve_decision. Defined.

(** [processed_execution_events]: the same columns without [event_qty]. *)
Record ProcessedRow := mkProcessed {
  pr_shard_table : Z;
  pr_instrument : InstrumentId;
  pr_report_type : Z;
  pr_kafka_partition : Z;
  pr_kafka_offset : Z
}.

Record Db := mkDb {
  processed_commands : gmap (Z * Z) CommandRow;
  asset_orders : gmap (Z * OrderId) OrderRow;
  pending_events : gmap EventKey PendingRow;
  processed_events : gmap EventKey ProcessedRow
}.

Definition ensure_schema : Db := mkDb ∅ ∅ ∅ ∅.

Definition with_orders (f : gmap (Z * OrderId) OrderRow -> gmap (Z * OrderId) OrderRow) (s : Db) : Db :=
  mkDb (processed_commands s) (f (asset_orders s)) (pending_events s) (processed_events s).

(** ** Statements *)

(** One row of [INSERT IGNORE]: a row whose key is taken is skipped. *)
Definition insert_ignore `{Countable K} {V : Type} (m : gmap K V) (row : K * V) : gmap K V :=
  match m !! row.1 with Some _ => m | None => <[row.1 := row.2]> m end.

(** [processed_commands] also declares [command_id] unique. *)
Definition insert_command (m : gmap (Z * Z) CommandRow) (row : Z * Z * CommandRow) : gmap (Z * Z) CommandRow :=
  if bool_decide (map_Exists (fun _ r => cr_command_id r = cr_command_id row.2) m) then m else insert_ignore m row.

(** The statement binds one tuple of values per row; without values there is none. *)
Definition exec_multi_insert {R T : Type} (ins : T -> R -> T) (values : list R) (t : T) : T :=
  foldl ins t values.

(** The ascending keys of a [BTreeMap] or [BTreeSet] built by insertions. *)
Definition btree_keys (ks : list Z) : list Z := merge_sort Z.le (remove_dups ks).

(** ** Pending events onto order rows *)

(** [ORDER BY raft_index DESC, report_ordinal DESC]: [k] ranks after [k']. *)
Definition ranks_after (k k' : EventKey) : bool :=
  let '(_, i, o, _) := k in
  let '(_, i', o', _) := k' in
  (i <? i') || ((i =? i') && (o <? o')).

(** The event with [ROW_NUMBER() = 1]. *)
Definition latest (es : list (EventKey * PendingRow)) : option (EventKey * PendingRow) :=
  foldr (fun e best => match best with
                       | None => Some e
                       | Some b => if ranks_after e.1 b.1 then Some b else Some e
                       end) None es.

Record Aggregate := mkAggregate { trade_qty : Z; partial_qty : Z; has_filled : bool; latest_type : Z }.

Definition aggregate (es : list (EventKey * PendingRow)) : Aggregate :=
  let qty_if ty := fun e : EventKey * PendingRow => if pe_report_type e.2 =? ty then pe_event_qty e.2 else 0 in
  mkAggregate
    (sumZ (qty_if 2) es)
    (foldr Z.max 0 (qty_if 4 <$> es))
    (existsb (fun e => pe_report_type e.2 =? 3) es)
    (match latest es with Some e => pe_report_type e.2 | None => 0 end).

(** The assignments of the [UPDATE], in the order written: the status comes first,
    so both read [filled_qty] as it was. *)
Definition apply_aggregate (e : Aggregate) (o : OrderRow) : OrderRow :=
  let reached := Z.max (row_filled_qty o + trade_qty e) (partial_qty e) in
  let status :=
    if has_filled e || (row_qty o <=? reached) then FILLED
    else if latest_type e =? 6 then CANCELLED
    else if latest_type e =? 7 then REJECTED
    else if 0 <? reached then PARTIAL
    else OPEN in
  mkRow (row_category_id o) (row_user_id o) (row_instrument o) (row_side o) (row_price o) (row_qty o)
    (Z.min (row_qty o) (Z.max reached (if has_filled e then row_qty o else 0))) status.

(** The pending rows of one order in one table. *)
Definition pending_of (s : Db) (table : Z) (order_id : OrderId) : list (EventKey * PendingRow) :=
  filter (fun e => pe_shard_table e.2 = table /\ key_target e.1 = order_id) (map_to_list (pending_events s)).

(** [UPDATE ... o INNER JOIN (SELECT ... GROUP BY target_order_id) e ON e.target_order_id=o.order_id] *)
Definition update_orders (table : Z) (s : Db) : Db :=
  with_orders (map_imap (fun k o =>
    Some (if bool_decide (k.1 = table) then
            match pending_of s table k.2 with
            | [] => o
            | es => apply_aggregate (aggregate es) o
            end
          else o))) s.

(** [INSERT IGNORE INTO processed ... SELECT ... FROM pending p INNER JOIN {table} o ON o.order_id=p.target_order_id] *)
Definition mark_processed (table : Z) (s : Db) : Db :=
  let joined := filter (fun e : EventKey * PendingRow =>
    pe_shard_table e.2 = table /\ is_Some (asset_orders s !! (table, key_target e.1))) (map_to_list (pending_events s)) in
  let row (e : EventKey * PendingRow) :=
    (e.1, mkProcessed (pe_shard_table e.2) (pe_instrument e.2) (pe_report_type e.2) (pe_kafka_partition e.2)
            (pe_kafka_offset e.2)) in
  mkDb (processed_commands s) (asset_orders s) (pending_events s)
    (foldl insert_ignore (processed_events s) (row <$> joined)).

(** [DELETE p FROM pending p INNER JOIN processed e ON ...], over the rows [sel] selects. *)
Definition drop_processed (sel : PendingRow -> bool) (s : Db) : Db :=
  mkDb (processed_commands s) (asset_orders s)
    (filter (fun kv => ~ (sel kv.2 = true /\ is_Some (processed_events s !! kv.1))) (pending_events s))
    (processed_events s).

Definition apply_pending_execution_table (s : Db) (shard_table : Z) : Db :=
  let s := update_orders shard_table s in
  let s := mark_processed shard_table s in
  drop_processed (fun p => pe_shard_table p =? shard_table) s.

(** ** Execution events *)
Record ExecutionKafkaRecord := mkExecutionRecord {
  er_topic : string;
  er_partition : Z;
  er_offset : Z;
  er_event : ExecutionEvent
}.

(** [ExecutionShardTables], in the map's walk order. *)
Definition ExecutionShardTables : Type := list (Z * list (ExecutionKafkaRecord * OrderId)).

Definition event_row (u : Z * ExecutionKafkaRecord * OrderId) : EventKey * PendingRow :=
  let '(table, record, target) := u in
  let event := er_event record in
  ((ev_raft_group event, ev_raft_index event, ev_ordinal event, target),
   mkPending table (d_instrument (ev_report event)) (d_type_code (ev_report event)) (d_qty (ev_report event))
     (er_partition record) (wrap64 (er_offset record))).

(** One transaction of [persist_execution_shard]. *)
Definition execution_transaction (s : Db) (chunk : list (Z * ExecutionKafkaRecord * OrderId)) : Db :=
  let touched := btree_keys ((fun u => u.1.1) <$> chunk) in
  let s := mkDb (processed_commands s) (asset_orders s)
             (exec_multi_insert insert_ignore (event_row <$> chunk) (pending_events s)) (processed_events s) in
  let s := drop_processed (fun _ => true) s in
  foldl apply_pending_execution_table s touched.

(** [slice::chunks] *)
Fixpoint chunks {A : Type} (fuel n : nat) (l : list A) : list (list A) :=
  match fuel, l with
  | S f, _ :: _ => take n l :: chunks f n (drop n l)
  | _, _ => []
  end.

(** [commits] says, per transaction, whether the database accepted it. *)
Fixpoint transactions (commits : list bool) (s : Db) (cs : list (list (Z * ExecutionKafkaRecord * OrderId)))
    : Db * io_result unit :=
  match cs with
  | [] => (s, Ok tt)
  | chunk :: cs =>
      match commits with
      | true :: commits => transactions commits (execution_transaction s chunk) cs
      | _ => (s, Err "database error")
      end
  end.

Definition persist_execution_shard (commits : list bool) (s : Db) (tables : ExecutionShardTables) (tx_max_records : nat)
    : outcome (Db * io_result unit) :=
  let updates := t ← tables; (fun r => (t.1, r.1, r.2)) <$> t.2 in
  assert_that (0 <? Z.of_nat tx_max_records) "chunk size must be non-zero" (
    Ret (transactions commits s (chunks (length updates) tx_max_records updates))).

(** [walk] is the order in which the database returns the distinct tables. *)
Definition sweep_pending_execution_shard (walk : list Z -> list Z) (s : Db) : Db :=
  let tables := take 100 (walk (remove_dups ((fun e => pe_shard_table e.2) <$> map_to_list (pending_events s)))) in
  foldl apply_pending_execution_table s tables.

(** ** Commands *)
Record KafkaRecord := mkKafkaRecord {
  kr_topic : string;
  kr_partition : Z;
  kr_offset : Z;
  kr_category_id : Z;
  kr_user : UserId;
  kr_frame : bytes
}.

Fixpoint command_id (command : Command) : Z :=
  match command with
  | CNew order => o_id order
  | CCancel _ _ cmd_id | CModify _ _ _ _ cmd_id | CHalt _ cmd_id | CResume _ cmd_id
  | CHaltUser _ _ cmd_id | CResumeUser _ _ cmd_id => cmd_id
  | CForceClose _ _ close_order_id _ _ => close_order_id
  | CBatch [] => 0
  | CBatch (c :: _) => command_id c
  end.

Definition database_order_id (command : Command) : OrderId :=
  match command with
  | CNew order => o_id order
  | CCancel _ order_id _ | CModify _ order_id _ _ _ => order_id
  | CForceClose _ _ close_order_id _ _ => close_order_id
  | _ => command_id command
  end.

(** The rows and updates a batch asks for. *)
Record Collected := mkCollected {
  co_processed : list (Z * Z * CommandRow);
  co_orders : list (Z * OrderId * OrderRow);
  co_cancels : list (Z * OrderId * UserId);
  co_modifies : list (Z * OrderId * UserId * Price * Qty)
}.

Definition side_value (s : Side) : Z := match s with Buy => 0 | Sell => 1 end.

(** One record of the batch, its command decoded and routed. *)
Definition collect (c : Collected) (record : KafkaRecord) (command : Command) (table : Z) : Collected :=
  let processed :=
    co_processed c ++ [((kr_category_id record, saturating_add U64_MAX (wrap64 (kr_offset record)) 1),
      mkCommandRow (kr_partition record) (command_id command) (kr_user record) table)] in
  let new_order row := mkCollected processed (co_orders c ++ [row]) (co_cancels c) (co_modifies c) in
  match command with
  | CNew order =>
      new_order ((table, o_id order),
        mkRow (kr_category_id record) (kr_user record) (o_instrument order) (side_value (o_side order)) (o_price order)
          (o_quantity order) 0 PENDING)
  | CCancel _ order_id _ =>
      mkCollected processed (co_orders c) (co_cancels c ++ [(table, order_id, kr_user record)]) (co_modifies c)
  | CModify _ order_id new_price new_qty _ =>
      mkCollected processed (co_orders c) (co_cancels c)
        (co_modifies c ++ [(table, order_id, kr_user record, new_price, new_qty)])
  | CForceClose instrument user close_order_id close_side close_qty =>
      if 0 <? close_qty then
        new_order ((table, close_order_id),
          mkRow (kr_category_id record) user instrument (side_value close_side) 0 close_qty 0 PENDING)
      else mkCollected processed (co_orders c) (co_cancels c) (co_modifies c)
  | _ => mkCollected processed (co_orders c) (co_cancels c) (co_modifies c)
  end.

Fixpoint collect_all (routing : RouteConfig) (c : Collected) (records : list KafkaRecord) : outcome (io_result Collected) :=
  match records with
  | [] => Ret (Ok c)
  | record :: records =>
      match decode_frame (kr_frame record) with
      | None => Ret (Err "invalid Kafka command frame")
      | Some command =>
          let! route := RouteConfig.route_order_id routing (database_order_id command) in
          collect_all routing (collect c record command (sh_table route)) records
      end
  end.

(** [UPDATE ... WHERE order_id=:id AND user_id=:user] *)
Definition update_where (f : OrderRow -> OrderRow) (table : Z) (order_id : OrderId) (user : UserId) (s : Db) : Db :=
  with_orders (alter (fun o => if row_user_id o =? user then f o else o) (table, order_id)) s.

Definition set_cancel_pending (o : OrderRow) : OrderRow :=
  mkRow (row_category_id o) (row_user_id o) (row_instrument o) (row_side o) (row_price o) (row_qty o) (row_filled_qty o)
    CANCEL_PENDING.

Definition set_modify_pending (price : Price) (qty : Qty) (o : OrderRow) : OrderRow :=
  mkRow (row_category_id o) (row_user_id o) (row_instrument o) (row_side o) price qty (row_filled_qty o) MODIFY_PENDING.

(** The statements of the transaction. *)
Definition command_transaction (s : Db) (c : Collected) : Db :=
  let s := mkDb (exec_multi_insert insert_command (co_processed c) (processed_commands s)) (asset_orders s)
             (pending_events s) (processed_events s) in
  let pending_tables := btree_keys ((fun r => r.1.1) <$> co_orders c) in
  let s := foldl (fun s table =>
             with_orders (exec_multi_insert insert_ignore (filter (fun r => r.1.1 = table) (co_orders c))) s)
             s pending_tables in
  let s := foldl (fun s u => let '(table, id, user) := u in update_where set_cancel_pending table id user s)
             s (co_cancels c) in
  let s := foldl (fun s u => let '(table, id, user, price, qty) := u in
                             update_where (set_modify_pending price qty) table id user s)
             s (co_modifies c) in
  foldl apply_pending_execution_table s pending_tables.

Definition persist_mysql_shard (commits : bool) (routing : RouteConfig) (s : Db) (records : list KafkaRecord)
    : outcome (Db * io_result unit) :=
  let! c := collect_all routing (mkCollected [] [] [] []) records in
  Ret match c with
      | Err why => (s, Err why)
      | Ok c => if commits then (command_transaction s c, Ok tt) else (s, Err "database error")
      end.

(** ** Splitting a batch over the databases *)

(** The entries of a [HashMap] from databases to pushed records, walked in order [walk]. *)
Definition group_by_db {R : Type} (walk : list Z -> list Z) (routed : list (Z * R)) : list (Z * list R) :=
  (fun db => (db, (filter (fun r => r.1 = db) routed).*2)) <$> walk (remove_dups routed.*1).

(** Jobs are sent until one addresses a database of another worker. *)
Fixpoint send_jobs {J : Type} (owned : gset Z) (jobs : list (Z * J)) : list (Z * J) * io_result unit :=
  match jobs with
  | [] => ([], Ok tt)
  | (db, job) :: jobs =>
      if bool_decide (db ∈ owned) then
        let '(sent, r) := send_jobs owned jobs in ((db, job) :: sent, r)
      else ([], Err "DB is not owned by this worker")
  end.

(** Waiting for the replies of the jobs sent. *)
Fixpoint await {J : Type} (reply : Z -> io_result unit) (jobs : list (Z * J)) : io_result unit :=
  match jobs with
  | [] => Ok tt
  | (db, _) :: jobs => let? _ := reply db in await reply jobs
  end.

Definition finish_submit {J : Type} (owned : gset Z) (reply : Z -> io_result unit) (jobs : list (Z * J))
    : list (Z * J) * io_result unit :=
  let '(sent, r) := send_jobs owned jobs in
  (sent, let? _ := r in await reply sent).

Fixpoint route_commands (routing : RouteConfig) (records : list KafkaRecord) : outcome (io_result (list (Z * KafkaRecord))) :=
  match records with
  | [] => Ret (Ok [])
  | record :: records =>
      match decode_frame (kr_frame record) with
      | None => Ret (Err "invalid Kafka command frame")
      | Some command =>
          let! route := RouteConfig.route_order_id routing (database_order_id command) in
          let! rest := route_commands routing records in
          Ret (let? rest := rest in Ok ((sh_db route, record) :: rest))
      end
  end.

(** [CommandDbForwarder::submit] *)
Definition submit_commands (walk : list Z -> list Z) (owned : gset Z) (reply : Z -> io_result unit) (routing : RouteConfig)
    (records : list KafkaRecord) : outcome (list (Z * list KafkaRecord) * io_result unit) :=
  let! routed := route_commands routing records in
  Ret match routed with
      | Err why => ([], Err why)
      | Ok routed => finish_submit owned reply (group_by_db walk routed)
      end.

Fixpoint route_events (routing : RouteConfig) (records : list ExecutionKafkaRecord)
    : outcome (list (Z * (Z * (ExecutionKafkaRecord * OrderId)))) :=
  match records with
  | [] => Ret []
  | record :: records =>
      let order_id := ev_target_order_id (er_event record) in
      let! route := RouteConfig.route_order_id routing order_id in
      let! rest := route_events routing records in
      Ret ((sh_db route, (sh_table route, (record, order_id))) :: rest)
  end.

(** [ExecutionDbForwarder::submit] *)
Definition submit_events (walk : list Z -> list Z) (owned : gset Z) (reply : Z -> io_result unit) (routing : RouteConfig)
    (records : list ExecutionKafkaRecord) : outcome (list (Z * ExecutionShardTables) * io_result unit) :=
  let! routed := route_events routing records in
  Ret (finish_submit owned reply ((fun g => (g.1, group_by_db walk g.2)) <$> group_by_db walk routed)).

(** The worker of one database merges the jobs it found queued: per table, the
    records of the jobs in turn. *)
Definition coalesce_tables (walk : list Z -> list Z) (jobs : list ExecutionShardTables) : ExecutionShardTables :=
  group_by_db walk (t ← mjoin jobs; (fun r => (t.1, r)) <$> t.2).

(** * Correctness *)

(** ** One order's history as the database should show it *)

(** An event of the order: its key, its report type and its quantity. *)
Definition Event : Type := EventKey * (Z * Qty).
Definition digest (p : PendingRow) : Z * Qty := (pe_report_type p, pe_event_qty p).
Definition event_of (e : EventKey * PendingRow) : Event := (e.1, digest e.2).

Definition traded (es : list Event) : Qty := sumZ (fun e : Event => if e.2.1 =? 2 then e.2.2 else 0) es.

(** The status an order of quantity [qty] has after [es]. *)
Definition order_state (qty : Qty) (es : list Event) : OrderStatusText :=
  match last es with
  | None => PENDING
  | Some e =>
      if qty <=? traded es then FILLED
      else if e.2.1 =? 6 then CANCELLED
      else if e.2.1 =? 7 then REJECTED
      else if 0 <? traded es then PARTIAL
      else OPEN
  end.

(** The events the engine reports for one order: in order, trades up to the
    order's quantity, a partial fill no larger than what was traded before it, a
    full fill only once everything is traded. *)
Record consistent (qty : Qty) (order_id : OrderId) (stream : list Event) : Prop := {
  stream_target : Forall (fun e => key_target e.1 = order_id) stream;
  stream_sorted : StronglySorted (fun e e' : Event => ranks_after e.1 e'.1 = true) stream;
  stream_trades : Forall (fun e : Event => e.2.1 = 2 -> 0 <= e.2.2) stream;
  stream_bound : traded stream <= qty;
  stream_partial : forall i k z, stream !! i = Some (k, (4, z)) -> z <= traded (take i stream);
  stream_filled : forall i k z, stream !! i = Some (k, (3, z)) -> traded (take i stream) = qty
}.

(** Kafka's delivery of the order's events: in order, earlier ones possibly again.
    The result counts the events delivered at least once. *)
Fixpoint delivered (stream : list Event) (n : nat) (es : list Event) : option nat :=
  match es with
  | [] => Some n
  | e :: es =>
      if bool_decide (stream !! n = Some e) then delivered stream (S n) es
      else if bool_decide (e ∈ take n stream) then delivered stream n es
      else None
  end.

(** ** Lists *)
Lemma elem_of_btree_keys k ks : k ∈ btree_keys ks <-> k ∈ ks.
Proof. unfold btree_keys. by rewrite merge_sort_Permutation, elem_of_remove_dups. Qed.

Lemma ranks_after_irrefl k : ranks_after k k = false.
Proof. destruct k as [[[g i] o] t]. cbn. lia. Qed.

Lemma ranks_after_antisym k k' : ranks_after k k' = true -> ranks_after k' k = false.
Proof. destruct k as [[[g i] o] t], k' as [[[g' i'] o'] t']. cbn. lia. Qed.

Lemma latest_in es : es <> [] -> exists e, latest es = Some e /\ e ∈ es.
Proof.
  induction es as [|a es IH]; [done|intros _]. cbn. destruct es as [|b es]; [exists a; split; [done|set_solver]|].
  destruct IH as (e & He & Hin); [done|]. cbn in He |- *. rewrite He.
  case_if; [exists e|exists a]; (split; [done|set_solver]).
Qed.

(** The latest event is the one every other ranks after. *)
Lemma latest_max es e : e ∈ es -> (forall x, x ∈ es -> x = e \/ ranks_after x.1 e.1 = true) -> latest es = Some e.
Proof.
  induction es as [|a es IH]; [by intros ?%not_elem_of_nil|]. intros Hin Hmax. cbn.
  destruct (decide (e ∈ es)) as [He|He].
  - change (foldr _ None es) with (latest es). rewrite IH; [|done|set_solver].
    destruct (Hmax a ltac:(set_solver)) as [-> | ->]; [by rewrite ranks_after_irrefl|done].
  - assert (a = e) as -> by set_solver. change (foldr _ None es) with (latest es).
    destruct es as [|b es]; [done|]. destruct (latest_in (b :: es)) as (x & -> & Hx); [done|].
    destruct (Hmax x ltac:(set_solver)) as [->|Hr]; [done|]. by rewrite (ranks_after_antisym _ _ Hr).
Qed.

Lemma traded_more a b : traded (a ++ b) = traded a + traded b.
Proof. apply sumZ_app. Qed.

Lemma delivered_more stream n a b :
  delivered stream n (a ++ b) = delivered stream n a ≫= fun n' => delivered stream n' b.
Proof. revert n. induction a as [|e a IH]; intros n; cbn; [done|]. by repeat case_if. Qed.

Lemma delivered_mono stream n es n' : delivered stream n es = Some n' -> (n <= n')%nat.
Proof.
  revert n. induction es as [|e es IH]; intros n; cbn; [intros [= ->]; lia|].
  case_if; [intros H%IH; lia|]. case_if; [apply IH|done].
Qed.

(** What was sent was among the events counted, and every event counted anew was sent. *)
Lemma delivered_spec stream n es n' : delivered stream n es = Some n' ->
  Forall (fun e => e ∈ take n' stream) es /\
  forall i e, (n <= i < n')%nat -> stream !! i = Some e -> e ∈ es.
Proof.
  revert n. induction es as [|e es IH]; intros n; cbn; [intros [= ->]; split; [done|lia]|].
  case_bool_decide as He; intros H.
  - destruct (IH _ H) as [H1 H2]. pose proof (delivered_mono _ _ _ _ H). split.
    + constructor; [|done]. apply elem_of_take. exists n. split; [done|lia].
    + intros i x Hi Hx. destruct (decide (i = n)) as [->|]; [|apply elem_of_cons; right; apply (H2 i); [lia|done]].
      apply elem_of_cons. left. congruence.
  - case_bool_decide as He'; [|done]. clear He. rename He' into He. destruct (IH _ H) as [H1 H2]. pose proof (delivered_mono _ _ _ _ H). split.
    + constructor; [|done]. apply elem_of_take in He as (i & Hi & Hlt). apply elem_of_take. exists i. split; [done|lia].
    + intros i x Hi Hx. apply elem_of_cons. right. by apply (H2 i).
Qed.

Lemma max_nonneg l : 0 <= foldr Z.max 0 l.
Proof. induction l; cbn; lia. Qed.

Lemma max_bound b l : 0 <= b -> (forall z, z ∈ l -> z <= b) -> foldr Z.max 0 l <= b.
Proof.
  intros Hb. induction l as [|z l IH]; intros H; cbn; [done|]. pose proof (H z ltac:(set_solver)).
  assert (foldr Z.max 0 l <= b) by (apply IH; set_solver). lia.
Qed.

Lemma NoDup_fmap_fst_inj {A B : Type} (l : list (A * B)) x y : NoDup l.*1 -> x ∈ l -> y ∈ l -> x.1 = y.1 -> x = y.
Proof.
  intros Hn [i Hi]%list_elem_of_lookup [j Hj]%list_elem_of_lookup E.
  assert (i = j) as ->; [|congruence].
  apply (NoDup_lookup l.*1 i j x.1); [done|by rewrite list_lookup_fmap, Hi|by rewrite list_lookup_fmap, Hj, E].
Qed.

(** ** [INSERT IGNORE] *)
Section insert_ignore.
Context `{Countable K} {V : Type}.
Implicit Types (m : gmap K V) (rows : list (K * V)).

Lemma inserts_old rows m k v : m !! k = Some v -> foldl insert_ignore m rows !! k = Some v.
Proof.
  revert m. induction rows as [|r rows IH]; intros m Hm; cbn; [done|]. apply IH. unfold insert_ignore.
  destruct (m !! r.1) eqn:E; [done|]. rewrite lookup_insert_ne by congruence. done.
Qed.

Lemma inserts_from rows m k v : foldl insert_ignore m rows !! k = Some v -> m !! k = Some v \/ (k, v) ∈ rows.
Proof.
  revert m. induction rows as [|r rows IH]; intros m; cbn; [by left|]. intros [H'|H']%IH; [|right; set_solver].
  unfold insert_ignore in H'. destruct (m !! r.1) eqn:E; [by left|].
  apply lookup_insert_Some in H' as [[<- <-]|[_ H']]; [right; destruct r; set_solver|by left].
Qed.

Lemma inserts_Some rows m k : is_Some (foldl insert_ignore m rows !! k) <-> is_Some (m !! k) \/ k ∈ rows.*1.
Proof.
  revert m. induction rows as [|r rows IH]; intros m; cbn; [set_solver|]. rewrite IH. unfold insert_ignore.
  destruct (m !! r.1) eqn:E.
  - rewrite elem_of_cons. split; [tauto|]. intros [?|[->|?]]; [by left|left; by rewrite E|by right].
  - rewrite lookup_insert_is_Some', elem_of_cons. split; [intros [[->|?]|?]; auto|intros [?|[->|?]]; auto].
Qed.
End insert_ignore.

(** ** What applying the pending events of a table does *)
Lemma lookup_applied_orders s t k :
  asset_orders (apply_pending_execution_table s t) !! k =
  (fun o => if bool_decide (k.1 = t) then
              match pending_of s t k.2 with [] => o | es => apply_aggregate (aggregate es) o end
            else o) <$> asset_orders s !! k.
Proof. cbn. rewrite map_lookup_imap. by destruct (asset_orders s !! k). Qed.

Lemma applied_processed s t k : is_Some (processed_events (apply_pending_execution_table s t) !! k) <->
  is_Some (processed_events s !! k) \/
  exists p, pending_events s !! k = Some p /\ pe_shard_table p = t /\ is_Some (asset_orders s !! (t, key_target k)).
Proof.
  unfold apply_pending_execution_table, drop_processed. cbn [processed_events].
  unfold mark_processed. cbn [processed_events]. rewrite inserts_Some.
  assert (forall id, is_Some (asset_orders (update_orders t s) !! (t, id)) <-> is_Some (asset_orders s !! (t, id))) as Ho.
  { intros id. cbn. rewrite map_lookup_imap. destruct (asset_orders s !! (t, id)); cbn; [|done]. by split. }
  apply or_iff_compat_l. rewrite <-list_fmap_compose, list_elem_of_fmap. split.
  - intros ([k' p] & -> & [[Ht Hs] Hp]%list_elem_of_filter). apply elem_of_map_to_list in Hp. cbn in Hp, Ht, Hs |- *.
    exists p. split_and!; [done..|]. by apply Ho.
  - intros (p & Hp & Ht & Hs). exists (k, p). split; [done|]. apply list_elem_of_filter. cbn [fst snd].
    split; [split; [done|by apply Ho]|]. by apply elem_of_map_to_list.
Qed.

Lemma applied_pending s t k p : pending_events (apply_pending_execution_table s t) !! k = Some p <->
  pending_events s !! k = Some p /\
  ~ (pe_shard_table p = t /\ is_Some (processed_events (apply_pending_execution_table s t) !! k)).
Proof.
  unfold apply_pending_execution_table at 1, drop_processed. cbn [pending_events].
  rewrite map_lookup_filter_Some. cbn [fst snd]. rewrite Z.eqb_eq. done.
Qed.

(** ** The order under observation *)
Section order.
Context (table : Z) (order_id : OrderId) (qty : Qty) (stream : list Event).
Hypothesis Hstream : consistent qty order_id stream.

Definition slice_of (m n : nat) : list Event := take (n - m) (drop m stream).

Lemma elem_of_slice_of m n e : e ∈ slice_of m n <-> exists i, (m <= i < n)%nat /\ stream !! i = Some e.
Proof.
  unfold slice_of. rewrite elem_of_take. split.
  - intros (i & Hi & Hlt). rewrite lookup_drop in Hi. exists (m + i)%nat. split; [lia|done].
  - intros (i & Hi & He). exists (i - m)%nat. rewrite lookup_drop. split; [|lia]. by replace (m + (i - m))%nat with i by lia.
Qed.

Lemma take_slice m n : (m <= n)%nat -> take n stream = take m stream ++ slice_of m n.
Proof. intros H. unfold slice_of. rewrite take_take_drop. f_equal. lia. Qed.

Lemma stream_ranks i j e e' : (i < j)%nat -> stream !! i = Some e -> stream !! j = Some e' -> ranks_after e.1 e'.1 = true.
Proof.
  intros Hij Hi Hj. pose proof (stream_sorted _ _ _ Hstream) as Hs. rewrite <-(take_drop (S i) stream) in Hs.
  apply (StronglySorted_app_1_elem_of _ _ _ e e') in Hs; [done|apply elem_of_take; exists i; split; [done|lia]|].
  apply list_elem_of_lookup. exists (j - S i)%nat. rewrite lookup_drop. by replace (S i + (j - S i))%nat with j by lia.
Qed.

Lemma stream_key_inj i j k d d' : stream !! i = Some (k, d) -> stream !! j = Some (k, d') -> i = j /\ d = d'.
Proof.
  intros Hi Hj. destruct (Nat.lt_trichotomy i j) as [H|[->|H]]; [| |].
  - pose proof (stream_ranks _ _ _ _ H Hi Hj) as Hr. cbn in Hr. by rewrite ranks_after_irrefl in Hr.
  - split; congruence.
  - pose proof (stream_ranks _ _ _ _ H Hj Hi) as Hr. cbn in Hr. by rewrite ranks_after_irrefl in Hr.
Qed.

Lemma stream_key_target i e : stream !! i = Some e -> key_target e.1 = order_id.
Proof. intros H. exact (proj1 (Forall_lookup _ _) (stream_target _ _ _ Hstream) i e H). Qed.

Lemma traded_mono m n : (m <= n)%nat -> traded (take m stream) <= traded (take n stream).
Proof.
  intros H. rewrite (take_slice m n H), traded_more. enough (0 <= traded (slice_of m n)) by lia.
  apply sumZ_nonneg. apply Forall_forall. intros e (i & _ & He)%elem_of_slice_of.
  pose proof (proj1 (Forall_lookup _ _) (stream_trades _ _ _ Hstream) i e He) as Ht. cbn in Ht. case_if; zbool; [tauto|lia].
Qed.

Lemma traded_bounds n : 0 <= traded (take n stream) <= qty.
Proof.
  split; [exact (traded_mono 0 n ltac:(lia))|]. destruct (Nat.le_ge_cases (length stream) n) as [H|H].
  - rewrite take_ge by done. exact (stream_bound _ _ _ Hstream).
  - pose proof (traded_mono n (length stream) H) as Hm. rewrite (take_ge stream (length stream)) in Hm by lia.
    pose proof (stream_bound _ _ _ Hstream). lia.
Qed.

(** ** The aggregate of a run of pending events *)
Lemma aggregate_slice m n es : (m < n <= length stream)%nat -> NoDup es.*1 -> event_of <$> es ≡ₚ slice_of m n ->
  trade_qty (aggregate es) = traded (slice_of m n) /\ 0 <= partial_qty (aggregate es) <= traded (take n stream) /\
  (has_filled (aggregate es) = true -> traded (take n stream) = qty) /\
  exists e, last (take n stream) = Some e /\ latest_type (aggregate es) = e.2.1.
Proof.
  intros Hmn Hnd Hp.
  assert (forall e, e ∈ es -> exists i, (m <= i < n)%nat /\ stream !! i = Some (event_of e)) as Hin.
  { intros e He. apply elem_of_slice_of. rewrite <-Hp. by apply list_elem_of_fmap_2. }
  cbn. split_and!.
  - unfold traded. rewrite <-(sumZ_perm _ _ _ Hp). change (event_of <$> es) with (map event_of es).
    rewrite sumZ_map. by apply sumZ_ext.
  - apply max_nonneg.
  - apply max_bound; [apply traded_bounds|]. intros z (e & -> & He)%list_elem_of_fmap. case_if; [|apply traded_bounds].
    destruct (Hin e He) as (i & Hi & Hs). unfold event_of, digest in Hs. zbool. subst.
    rewrite E in Hs. etrans; [exact (stream_partial _ _ _ Hstream i _ _ Hs)|apply traded_mono; lia].
  - intros (e & He & Ht)%existsb_exists. apply list_elem_of_In in He. destruct (Hin e He) as (i & Hi & Hs).
    unfold event_of, digest in Hs. apply Z.eqb_eq in Ht. rewrite Ht in Hs.
    pose proof (stream_filled _ _ _ Hstream i _ _ Hs) as Hq. pose proof (traded_mono i n ltac:(lia)).
    pose proof (traded_bounds n). lia.
  - destruct (lookup_lt_is_Some_2 stream (n - 1) ltac:(lia)) as [x Hx]. exists x. split.
    { rewrite last_lookup, length_take, lookup_take_lt by lia. by replace (pred (n `min` length stream)) with (n - 1)%nat by lia. }
    assert (x ∈ event_of <$> es) as (e & -> & He)%list_elem_of_fmap.
    { rewrite Hp. apply elem_of_slice_of. exists (n - 1)%nat. split; [lia|done]. }
    rewrite (latest_max es e He); [done|]. intros y Hy. destruct (Hin y Hy) as (i & Hi & Hs).
    destruct (decide (i = n - 1)%nat) as [->|].
    + left. apply (NoDup_fmap_fst_inj es); [done..|]. unfold event_of in Hs, Hx. congruence.
    + right. exact (stream_ranks i (n - 1) _ _ ltac:(lia) Hs Hx).
Qed.

(** ** The tables' view of the order *)

(** Of the first [n] events of the order, the first [m] are processed and the
    others wait. *)
Record holds (m n : nat) (s : Db) : Prop := {
  holds_le : (m <= n <= length stream)%nat;
  holds_pending : forall k p, pending_events s !! k = Some p -> key_target k = order_id ->
    pe_shard_table p = table /\ (k, digest p) ∈ slice_of m n;
  holds_waiting : forall e, e ∈ slice_of m n -> is_Some (pending_events s !! e.1);
  holds_processed : forall k, key_target k = order_id ->
    (is_Some (processed_events s !! k) <-> k ∈ (take m stream).*1)
}.

Definition row (s : Db) : option OrderRow := asset_orders s !! (table, order_id).

Lemma elem_of_pending_of s k p t id :
  (k, p) ∈ pending_of s t id <-> pending_events s !! k = Some p /\ pe_shard_table p = t /\ key_target k = id.
Proof. unfold pending_of. rewrite list_elem_of_filter, elem_of_map_to_list. cbn. tauto. Qed.

Lemma pending_of_NoDup s t id : NoDup (pending_of s t id).*1.
Proof.
  apply NoDup_fmap_fst; [|apply NoDup_filter, NoDup_map_to_list].
  intros k p1 p2 [H1 _]%elem_of_pending_of [H2 _]%elem_of_pending_of. congruence.
Qed.

Lemma slice_NoDup m n : NoDup (slice_of m n).
Proof.
  assert (NoDup stream) as H.
  { apply NoDup_alt. intros i j [k d] Hi Hj. by destruct (stream_key_inj i j k d d Hi Hj). }
  rewrite <-(take_drop m stream) in H. apply NoDup_app in H as (_ & _ & H).
  rewrite <-(take_drop (n - m) (drop m stream)) in H. by apply NoDup_app in H as (H & _ & _).
Qed.

Lemma holds_slice m n s : holds m n s -> event_of <$> pending_of s table order_id ≡ₚ slice_of m n.
Proof.
  intros H. apply NoDup_Permutation; [|apply slice_NoDup|].
  - apply (NoDup_fmap_1 fst). rewrite <-list_fmap_compose. exact (pending_of_NoDup s table order_id).
  - intros e. rewrite list_elem_of_fmap. split.
    + intros ([k p] & -> & (Hp & _ & Hk)%elem_of_pending_of). exact (proj2 (holds_pending _ _ _ H k p Hp Hk)).
    + intros He. destruct (holds_waiting _ _ _ H e He) as [p Hp].
      pose proof He as (i & _ & Hi)%elem_of_slice_of. pose proof (stream_key_target i e Hi) as Hk.
      destruct (holds_pending _ _ _ H e.1 p Hp Hk) as [Ht (j & _ & Hj)%elem_of_slice_of]. destruct e as [k d].
      destruct (stream_key_inj i j k d (digest p) Hi Hj) as [_ ->].
      exists (k, p). split; [done|]. by apply elem_of_pending_of.
Qed.

(** What a row shows after the first [n] events; [exact] when no cancel was
    recorded since. *)
Record shows (exact : bool) (n : nat) (r : OrderRow) : Prop := {
  shows_qty : row_qty r = qty;
  shows_filled : row_filled_qty r = traded (take n stream);
  shows_status : row_status r = order_state qty (take n stream) \/ exact = false /\ row_status r = CANCEL_PENDING
}.

Lemma apply_aggregate_shows b m n s r : holds m n s -> (m < n)%nat -> shows b m r ->
  shows true n (apply_aggregate (aggregate (pending_of s table order_id)) r).
Proof.
  intros H Hlt [Hq Hf _]. pose proof (holds_le _ _ _ H).
  destruct (aggregate_slice m n _ ltac:(lia) (pending_of_NoDup s table order_id) (holds_slice m n s H))
    as (Ht & Hp & Hh & e & Hl & Hlt'). generalize dependent (aggregate (pending_of s table order_id)). intros a Ht Hp Hh Hlt'.
  pose proof (take_slice m n ltac:(lia)) as Hsl. pose proof (traded_bounds n) as Hb.
  assert (row_filled_qty r + trade_qty a = traded (take n stream)) as Hr.
  { by rewrite Hsl, traded_more, Hf, Ht. }
  unfold apply_aggregate. split; cbn; [done| |left]; rewrite Hr, (Z.max_l _ (partial_qty a)), Hq by lia.
  - case_if; [rewrite Hh by done|]; lia.
  - unfold order_state. rewrite Hl, Hlt'. destruct (has_filled _) eqn:E; [|done]. cbn. rewrite (Hh eq_refl).
    by rewrite Z.leb_refl.
Qed.

(** Another table's events leave the order alone. *)
Lemma apply_other m n s t : t <> table -> holds m n s ->
  holds m n (apply_pending_execution_table s t) /\ row (apply_pending_execution_table s t) = row s.
Proof.
  intros Ht H.
  assert (forall k p, key_target k = order_id ->
    (pending_events (apply_pending_execution_table s t) !! k = Some p <-> pending_events s !! k = Some p)) as Hp.
  { intros k p Hk. rewrite applied_pending. split; [tauto|]. intros Hp. split; [done|].
    destruct (holds_pending _ _ _ H k p Hp Hk) as [E _]. intros [? _]. congruence. }
  split; [split|].
  - exact (holds_le _ _ _ H).
  - intros k p Hk Ht'. apply (holds_pending _ _ _ H k p); [by apply Hp|done].
  - intros e He. destruct (holds_waiting _ _ _ H e He) as [p Hw]. exists p. apply Hp; [|done].
    apply elem_of_slice_of in He as (i & _ & Hi). exact (stream_key_target i e Hi).
  - intros k Hk. rewrite applied_processed, <-(holds_processed _ _ _ H k Hk). split; [|tauto].
    intros [?|(p & Hw & E & _)]; [done|]. destruct (holds_pending _ _ _ H k p Hw Hk). congruence.
  - unfold row. rewrite lookup_applied_orders. rewrite bool_decide_false by (cbn; congruence).
    by destruct (asset_orders s !! _).
Qed.

(** Without a row the events keep waiting. *)
Lemma apply_waits m n s : row s = None -> holds m n s ->
  holds m n (apply_pending_execution_table s table) /\ row (apply_pending_execution_table s table) = None.
Proof.
  intros Hr H.
  assert (forall k, key_target k = order_id ->
    (is_Some (processed_events (apply_pending_execution_table s table) !! k) <-> is_Some (processed_events s !! k))) as Hpr.
  { intros k Hk. rewrite applied_processed, Hk. fold (row s). rewrite Hr. split; [|tauto].
    intros [?|(p & _ & _ & E)]; [done|]. by apply is_Some_None in E. }
  assert (forall k p, key_target k = order_id ->
    (pending_events (apply_pending_execution_table s table) !! k = Some p <-> pending_events s !! k = Some p)) as Hp.
  { intros k p Hk. rewrite applied_pending, Hpr by done. split; [tauto|]. intros Hp. split; [done|].
    intros [_ E]. destruct (holds_pending _ _ _ H k p Hp Hk) as [_ (i & Hi & Hs)%elem_of_slice_of].
    apply (holds_processed _ _ _ H k Hk), list_elem_of_fmap in E as ([k' d] & -> & (j & Hj & Hlt)%elem_of_take).
    destruct (stream_key_inj i j _ _ _ Hs Hj). lia. }
  split; [split|].
  - exact (holds_le _ _ _ H).
  - intros k p Hk Ht'. apply (holds_pending _ _ _ H k p); [by apply Hp|done].
  - intros e He. destruct (holds_waiting _ _ _ H e He) as [p Hw]. exists p. apply Hp; [|done].
    apply elem_of_slice_of in He as (i & _ & Hi). exact (stream_key_target i e Hi).
  - intros k Hk. rewrite Hpr by done. exact (holds_processed _ _ _ H k Hk).
  - unfold row in *. by rewrite lookup_applied_orders, Hr.
Qed.

(** With a row they are all applied. *)
Lemma apply_drains b m n s r : row s = Some r -> holds m n s -> shows b m r ->
  holds n n (apply_pending_execution_table s table) /\
  exists r', row (apply_pending_execution_table s table) = Some r' /\ shows (if (m =? n)%nat then b else true) n r'.
Proof.
  intros Hr H Hsh.
  assert (forall k, key_target k = order_id ->
    (is_Some (processed_events (apply_pending_execution_table s table) !! k) <-> k ∈ (take n stream).*1)) as Hpr.
  { intros k Hk. rewrite applied_processed, Hk. fold (row s). rewrite Hr, (holds_processed _ _ _ H k Hk).
    rewrite (take_slice m n) by apply (holds_le _ _ _ H). rewrite fmap_app, elem_of_app. apply or_iff_compat_l. split.
    - intros (p & Hp & _). apply list_elem_of_fmap. exists (k, digest p). split; [done|].
      exact (proj2 (holds_pending _ _ _ H k p Hp Hk)).
    - intros (e & -> & He)%list_elem_of_fmap. destruct (holds_waiting _ _ _ H e He) as [p Hp]. exists p.
      split_and!; [done| |done]. exact (proj1 (holds_pending _ _ _ H _ p Hp Hk)). }
  pose proof (holds_le _ _ _ H) as Hle. split; [split|].
  - lia.
  - intros k p Hp Hk. exfalso. apply applied_pending in Hp as [Hp Hn].
    destruct (holds_pending _ _ _ H k p Hp Hk) as [E He]. apply Hn. split; [done|]. apply Hpr; [done|].
    rewrite (take_slice m n) by lia. rewrite fmap_app. apply elem_of_app. right.
    by apply (list_elem_of_fmap_2 fst) in He.
  - intros e (i & Hi & _)%elem_of_slice_of. lia.
  - exact Hpr.
  - unfold row in *. rewrite lookup_applied_orders, Hr. cbn [fmap option_fmap option_map fst snd].
    rewrite bool_decide_true by done. eexists. split; [done|].
    pose proof (holds_slice m n s H) as Hp. destruct (Nat.eqb_spec m n) as [->|Hne].
    + assert (slice_of n n = []) as E by (unfold slice_of; by rewrite Nat.sub_diag, take_0). rewrite E in Hp.
      by apply Permutation_nil_r, fmap_nil_inv in Hp as ->.
    + pose proof (apply_aggregate_shows b m n s r H ltac:(lia) Hsh) as Ha.
      destruct (pending_of s table order_id) as [|e es]; [|done]. symmetry in Hp. apply Permutation_nil_r in Hp.
      assert (length (slice_of m n) = (n - m)%nat) as Hl by (unfold slice_of; rewrite length_take, length_drop; lia).
      rewrite Hp in Hl. cbn in Hl. lia.
Qed.

(** Between transactions: without a row every event waits, with one none does. *)
Definition settled (exact : bool) (n : nat) (s : Db) : Prop :=
  match row s with
  | None => holds 0 n s
  | Some r => holds n n s /\ shows exact n r
  end.

Lemma shows_weaken b n r : shows true n r -> shows b n r.
Proof. intros [Hq Hf [Hs|[? _]]]; [|done]. split; [done..|by left]. Qed.

Lemma settled_weaken b b' n s : (b' = true -> b = true) -> settled b n s -> settled b' n s.
Proof.
  unfold settled. intros Hb. destruct (row s) as [r|]; [|done]. intros [H [Hq Hf Hs]]. split; [done|].
  split; [done..|]. destruct Hs as [Hs|[-> Hs]]; [by left|]. right. split; [|done]. destruct b'; [|done]. by rewrite Hb in *.
Qed.

(** The row and the events in hand before a round of applications. *)
Lemma applications_settle b m n s ts : holds m n s ->
  match row s with None => m = 0%nat | Some r => shows b m r /\ (m = n \/ table ∈ ts) end ->
  settled (if (m =? n)%nat then b else true) n (foldl apply_pending_execution_table s ts).
Proof.
  revert b m s. induction ts as [|t ts IH]; intros b m s H Hrow; cbn [foldl].
  - unfold settled. destruct (row s) as [r|]; [|by subst m].
    destruct Hrow as [Hs [->|?%not_elem_of_nil]]; [|done]. by rewrite Nat.eqb_refl.
  - destruct (decide (t = table)) as [->|Hne].
    + destruct (row s) as [r|] eqn:Hr.
      * destruct Hrow as [Hs _]. destruct (apply_drains b m n s r Hr H Hs) as (H' & r' & Hr' & Hs').
        pose proof (IH (if (m =? n)%nat then b else true) n _ H') as HI. rewrite Hr', Nat.eqb_refl in HI.
        apply HI. split; [done|by left].
      * destruct (apply_waits m n s Hr H) as [H' Hr']. apply IH; [done|]. by rewrite Hr'.
    + destruct (apply_other m n s t Hne H) as [H' Hr']. apply IH; [done|]. rewrite Hr'.
      destruct (row s); [|done]. destruct Hrow as [Hs [?|[?|?]%elem_of_cons]]; [by auto|congruence|by auto].
Qed.

(** ** A transaction of events *)
Definition order_events (us : list (Z * ExecutionKafkaRecord * OrderId)) : list Event :=
  event_of <$> filter (fun e => key_target e.1 = order_id) (event_row <$> us).

Definition routed (us : list (Z * ExecutionKafkaRecord * OrderId)) : Prop :=
  Forall (fun u => u.2 = order_id -> u.1.1 = table) us.

Lemma event_row_table u : pe_shard_table (event_row u).2 = u.1.1 /\ key_target (event_row u).1 = u.2.
Proof. by destruct u as [[t r] o]. Qed.

Lemma delivered_le n es n' : delivered stream n es = Some n' -> (n <= length stream)%nat -> (n' <= length stream)%nat.
Proof.
  revert n. induction es as [|e es IH]; intros n; cbn; [by intros [= ->]|]. case_bool_decide as He.
  - intros H _. apply (IH _ H). apply lookup_lt_Some in He. lia.
  - case_bool_decide; [apply IH|done].
Qed.

Lemma elem_of_order_events us e : e ∈ order_events us <-> exists u, u ∈ us /\ u.2 = order_id /\ e = event_of (event_row u).
Proof.
  unfold order_events. rewrite list_elem_of_fmap. split.
  - intros (x & -> & [Hk (u & -> & Hu)%list_elem_of_fmap]%list_elem_of_filter). rewrite (proj2 (event_row_table u)) in Hk.
    by exists u.
  - intros (u & Hu & Ho & ->). exists (event_row u). split; [done|]. apply list_elem_of_filter.
    rewrite (proj2 (event_row_table u)). split; [done|]. by apply list_elem_of_fmap_2.
Qed.

(** Inserting a chunk and dropping what was processed before. *)
Lemma insert_holds m n n' s us : holds m n s -> routed us -> delivered stream n (order_events us) = Some n' ->
  holds m n' (drop_processed (fun _ => true) (mkDb (processed_commands s) (asset_orders s)
    (exec_multi_insert insert_ignore (event_row <$> us) (pending_events s)) (processed_events s))).
Proof.
  intros H Hr Hd. pose proof (holds_le _ _ _ H) as Hle. pose proof (delivered_mono _ _ _ _ Hd) as Hmono.
  pose proof (delivered_le _ _ _ Hd ltac:(lia)). destruct (delivered_spec _ _ _ _ Hd) as [Hin Hall].
  split; cbn [pending_events processed_events drop_processed].
  - lia.
  - intros k p [Hp Hn]%map_lookup_filter_Some Hk. cbn [fst snd] in Hn.
    assert (pe_shard_table p = table /\ (k, digest p) ∈ take n' stream) as [Ht He].
    { apply inserts_from in Hp as [Hp|(u & Eu & Hu)%list_elem_of_fmap].
      - destruct (holds_pending _ _ _ H k p Hp Hk) as [Ht (i & Hi & Hs)%elem_of_slice_of]. split; [done|].
        apply elem_of_take. exists i. split; [done|lia].
      - destruct (event_row_table u) as [Ht Ho]. rewrite <-Eu in Ht, Ho. cbn in Ht, Ho. rewrite Hk in Ho. split.
        + rewrite Ht. exact (proj1 (Forall_forall _ _) Hr u Hu (eq_sym Ho)).
        + apply (proj1 (Forall_forall _ _) Hin). apply elem_of_order_events. exists u. by rewrite <-Eu. }
    split; [done|]. rewrite (take_slice m n') in He by lia. apply elem_of_app in He as [He|He]; [|done].
    exfalso. apply Hn. split; [done|]. apply (holds_processed _ _ _ H k Hk). by apply (list_elem_of_fmap_2 fst) in He.
  - intros e He. pose proof He as (i & Hi & Hs)%elem_of_slice_of.
    assert (is_Some (foldl insert_ignore (pending_events s) (event_row <$> us) !! e.1)) as [p Hp].
    { apply inserts_Some. destruct (decide (i < n)%nat).
      - left. apply (holds_waiting _ _ _ H). apply elem_of_slice_of. exists i. split; [lia|done].
      - right. destruct (proj1 (elem_of_order_events us e) (Hall i e ltac:(lia) Hs)) as (u & Hu & _ & ->).
        change (event_of (event_row u)).1 with (event_row u).1. by apply list_elem_of_fmap_2, list_elem_of_fmap_2. }
    exists p. apply map_lookup_filter_Some. split; [done|]. cbn [fst snd]. intros [_ E].
    apply (holds_processed _ _ _ H _ (stream_key_target i e Hs)), list_elem_of_fmap in E
      as (e' & Ek & (j & Hj & Hlt)%elem_of_take). destruct e as [k d], e' as [k' d']. cbn in Ek. subst k'.
    destruct (stream_key_inj i j _ _ _ Hs Hj). lia.
  - intros k Hk. exact (holds_processed _ _ _ H k Hk).
Qed.

Lemma execution_settles b n n' s us : settled b n s -> routed us -> delivered stream n (order_events us) = Some n' ->
  settled (if (n =? n')%nat then b else true) n' (execution_transaction s us).
Proof.
  intros Hs Hr Hd. pose proof (delivered_mono _ _ _ _ Hd) as Hm. unfold execution_transaction.
  assert (n = n' \/ table ∈ btree_keys ((fun u => u.1.1) <$> us)) as Ht.
  { destruct (decide (n = n')) as [->|]; [by left|]. right. apply elem_of_btree_keys.
    destruct (order_events us) as [|e es] eqn:E; [cbn in Hd; congruence|].
    destruct (proj1 (elem_of_order_events us e) ltac:(rewrite E; set_solver)) as (u & Hu & Ho & _).
    apply list_elem_of_fmap. exists u. split; [|done]. by rewrite (proj1 (Forall_forall _ _) Hr u Hu Ho). }
  unfold settled in Hs. destruct (row s) as [r|] eqn:Er.
  - destruct Hs as [H Hs]. pose proof (insert_holds n n n' s us H Hr Hd) as Hi.
    apply (applications_settle b n n' _ _ Hi).
    match goal with |- match row ?x with _ => _ end => change (row x) with (row s) end. by rewrite Er.
  - pose proof (insert_holds 0 n n' s us Hs Hr Hd) as Hi. apply (settled_weaken true); [done|].
    pose proof (applications_settle true 0 n' _ (btree_keys ((fun u => u.1.1) <$> us)) Hi) as HI.
    match type of HI with match row ?x with _ => _ end -> _ => change (row x) with (row s) in HI end.
    rewrite Er in HI. specialize (HI eq_refl). by destruct (0 =? n')%nat.
Qed.

(** The transactions of one call that commit. *)
Fixpoint committed (commits : list bool) (cs : list (list (Z * ExecutionKafkaRecord * OrderId)))
    : list (Z * ExecutionKafkaRecord * OrderId) :=
  match cs, commits with
  | c :: cs, true :: commits => c ++ committed commits cs
  | _, _ => []
  end.

Lemma order_events_app us vs : order_events (us ++ vs) = order_events us ++ order_events vs.
Proof. unfold order_events. by rewrite fmap_app, filter_app, fmap_app. Qed.

Lemma transactions_settle b n n' commits s cs : settled b n s -> routed (mjoin cs) ->
  delivered stream n (order_events (committed commits cs)) = Some n' ->
  settled (if (n =? n')%nat then b else true) n' (transactions commits s cs).1.
Proof.
  revert b n commits s. induction cs as [|c cs IH]; intros b n commits s Hs Hr; destruct commits as [|[] commits];
    cbn [committed transactions fst];
    try (change (delivered stream n (order_events [])) with (Some n); intros [= ->]; by rewrite Nat.eqb_refl).
  rewrite order_events_app, delivered_more. intros Hd.
  apply bind_Some in Hd as (n1 & H1 & H2). apply Forall_app in Hr as [Hc Hr].
  pose proof (IH _ n1 commits _ (execution_settles b n n1 s c Hs Hc H1) Hr H2) as H.
  pose proof (delivered_mono _ _ _ _ H1). pose proof (delivered_mono _ _ _ _ H2).
  destruct (Nat.eqb_spec n n1), (Nat.eqb_spec n1 n'), (Nat.eqb_spec n n'); done || lia.
Qed.

(** ** A transaction of commands *)

(** The batch creates the order with its quantity and does not modify it. *)
Record collected_ok (c : Collected) : Prop := {
  collected_orders : forall r, ((table, order_id), r) ∈ co_orders c ->
    row_qty r = qty /\ row_filled_qty r = 0 /\ row_status r = PENDING;
  collected_modifies : forall user price q, (table, order_id, user, price, q) ∉ co_modifies c
}.

Definition cancelled_in (c : Collected) : bool := existsb (fun u => bool_decide (u.1 = (table, order_id))) (co_cancels c).

Lemma insert_row_old rs s r : row s = Some r -> row (with_orders (exec_multi_insert insert_ignore rs) s) = Some r.
Proof. apply inserts_old. Qed.

Lemma insert_tables_row c s ts :
  let s' := foldl (fun s t => with_orders (exec_multi_insert insert_ignore (filter (fun r => r.1.1 = t) (co_orders c))) s) s ts in
  pending_events s' = pending_events s /\ processed_events s' = processed_events s /\
  (row s' = row s \/ row s = None /\ exists r, row s' = Some r /\ ((table, order_id), r) ∈ co_orders c /\ table ∈ ts).
Proof.
  revert s. induction ts as [|t ts IH]; intros s; cbn [foldl]; [by auto|].
  destruct (IH (with_orders (exec_multi_insert insert_ignore (filter (fun r => r.1.1 = t) (co_orders c))) s))
    as (Hp & He & Hrow). cbn zeta in *. rewrite Hp, He. split_and!; [done..|].
  assert (forall r, row (with_orders (exec_multi_insert insert_ignore (filter (fun r => r.1.1 = t) (co_orders c))) s) = Some r ->
    row s = Some r \/ row s = None /\ ((table, order_id), r) ∈ co_orders c /\ t = table) as Hi.
  { intros r Hr. destruct (row s) as [r0|] eqn:Es.
    - left. rewrite <-Hr. symmetry. by apply inserts_old.
    - apply inserts_from in Hr as [Hr|Hr]; [unfold row in Es; cbn in Hr; congruence|]. right.
      apply list_elem_of_filter in Hr as [<- Hr]. auto. }
  destruct Hrow as [->|(Hn & r & -> & Hr & Ht)].
  - destruct (row (with_orders _ s)) as [r|] eqn:E; [|left; symmetry; destruct (row s) eqn:Es; [|done]].
    + destruct (Hi r eq_refl) as [->|(Hn & Hr & ->)]; [by left|]. right. split; [done|]. exists r. set_solver.
    + by rewrite (insert_row_old _ _ _ Es) in E.
  - right. split; [|exists r; set_solver]. destruct (row s) as [r0|] eqn:Es; [|done].
    by rewrite (insert_row_old _ _ _ Es) in Hn.
Qed.

Lemma holds_same m n s s' : pending_events s' = pending_events s -> processed_events s' = processed_events s ->
  holds m n s -> holds m n s'.
Proof. intros Hp He [H1 H2 H3 H4]. split; [done|rewrite Hp|rewrite Hp|rewrite He]; done. Qed.

Lemma row_update f t id user s :
  row (update_where f t id user s) =
  (if bool_decide ((t, id) = (table, order_id)) then fun o => if row_user_id o =? user then f o else o else fun o => o) <$> row s.
Proof.
  unfold row, update_where. cbn. case_bool_decide as E.
  - by rewrite E, lookup_alter_eq.
  - rewrite lookup_alter_ne by done. by destruct (asset_orders s !! _).
Qed.

Lemma cancels_row b n s cs :
  let s' := foldl (fun s u => let '(t, id, user) := u in update_where set_cancel_pending t id user s) s cs in
  pending_events s' = pending_events s /\ processed_events s' = processed_events s /\
  (row s = None -> row s' = None) /\
  forall r, row s = Some r -> shows b n r -> exists r', row s' = Some r' /\
    shows (b && negb (existsb (fun u => bool_decide (u.1 = (table, order_id))) cs)) n r'.
Proof.
  revert b s. induction cs as [|[[t id] user] cs IH]; intros b s; cbn [foldl existsb fst].
  { cbn zeta. split_and!; [done..|]. intros r Hr Hs. exists r. rewrite andb_true_r. done. }
  destruct (IH (b && negb (bool_decide ((t, id) = (table, order_id)))) (update_where set_cancel_pending t id user s))
    as (Hp & He & Hn & Hsome). cbn zeta in *. split_and!; [done..| |].
  - intros Hr. apply Hn. by rewrite row_update, Hr.
  - intros r Hr Hs. rewrite row_update, Hr in Hsome. destruct (Hsome _ eq_refl) as (r' & Hr' & Hs').
    + case_bool_decide; [|by rewrite andb_true_r]. cbn [negb]. rewrite andb_false_r. destruct Hs as [Hq Hf Hst].
      case_if; split; cbn; try done; [by right|].
      destruct Hst as [?|[? ?]]; [by left|by right].
    + exists r'. split; [done|]. revert Hs'. by rewrite negb_orb, andb_assoc.
Qed.

Lemma modifies_row s ms : (forall user price q, (table, order_id, user, price, q) ∉ ms) ->
  let s' := foldl (fun s u => let '(t, id, user, price, q) := u in
                              update_where (set_modify_pending price q) t id user s) s ms in
  pending_events s' = pending_events s /\ processed_events s' = processed_events s /\ row s' = row s.
Proof.
  revert s. induction ms as [|[[[[t id] user] price] q] ms IH]; intros s Hm; cbn [foldl]; [done|].
  destruct (IH (update_where (set_modify_pending price q) t id user s)) as (Hp & He & Hr); [set_solver|].
  cbn zeta in *. split_and!; [done..|]. rewrite Hr, row_update, bool_decide_false by set_solver. by destruct (row s).
Qed.

Lemma command_settles b n s c : settled b n s -> collected_ok c ->
  settled (b && negb (cancelled_in c)) n (command_transaction s c).
Proof.
  intros Hs [Ho Hm]. unfold command_transaction.
  set (s0 := mkDb _ (asset_orders s) (pending_events s) (processed_events s)). set (ts := btree_keys _).
  destruct (insert_tables_row c s0 ts) as (Hp1 & He1 & Hr1). set (s1 := foldl _ s0 ts) in *.
  assert (exists m, holds m n s1 /\ match row s1 with None => m = 0%nat | Some r => shows b m r /\ (m = n \/ table ∈ ts) end)
    as (m & H1 & Hrow).
  { unfold settled in Hs. change (row s0) with (row s) in Hr1. destruct Hr1 as [Hr1|(Hr & r & Hr1 & Hin & Ht)].
    - rewrite Hr1. destruct (row s) as [r|]; [exists n|exists 0%nat].
      + destruct Hs as [H Hs]. split; [by apply (holds_same _ _ s)|auto].
      + split; [by apply (holds_same _ _ s)|done].
    - rewrite Hr in Hs. exists 0%nat. split; [by apply (holds_same _ _ s)|]. rewrite Hr1. split; [|by right].
      destruct (Ho r Hin) as (Hq & Hf & Hst). split; [done|by rewrite Hf|by left]. }
  destruct (cancels_row b m s1 (co_cancels c)) as (Hp2 & He2 & Hn2 & Hs2). set (s2 := foldl _ s1 (co_cancels c)) in *.
  destruct (modifies_row s2 (co_modifies c) Hm) as (Hp3 & He3 & Hr3). set (s3 := foldl _ s2 (co_modifies c)) in *.
  assert (holds m n s3) as H3 by (apply (holds_same _ _ s1); congruence).
  apply (settled_weaken (if (m =? n)%nat then b && negb (cancelled_in c) else true)); [by case_if|].
  apply (applications_settle _ m n s3 ts H3). rewrite Hr3. destruct (row s1) as [r|] eqn:E.
  - destruct Hrow as [Hsh Ht]. destruct (Hs2 r eq_refl Hsh) as (r' & -> & Hsh'). done.
  - by rewrite (Hn2 eq_refl).
Qed.

(** A record's command, as far as the order is concerned. *)
Definition command_ok (record : KafkaRecord) : Prop :=
  match decode_frame (kr_frame record) with
  | Some (CNew o) => o_id o = order_id -> o_quantity o = qty
  | Some (CForceClose _ _ id _ q) => id = order_id -> q = qty
  | Some (CModify _ id _ _ _) => id <> order_id
  | _ => True
  end.

Definition cancels (record : KafkaRecord) : bool :=
  match decode_frame (kr_frame record) with Some (CCancel _ id _) => id =? order_id | _ => false end.

Lemma collect_ok c record command t : decode_frame (kr_frame record) = Some command -> command_ok record ->
  collected_ok c ->
  collected_ok (collect c record command t) /\
  (cancelled_in (collect c record command t) = true -> cancelled_in c = true \/ cancels record = true).
Proof.
  intros Hd Hok [Ho Hm]. unfold command_ok in Hok. unfold cancels. rewrite Hd in Hok |- *.
  assert (forall pr, collected_ok (mkCollected pr (co_orders c) (co_cancels c) (co_modifies c))) as Hsame by done.
  assert (forall pr r, (r.1.2 = order_id -> row_qty r.2 = qty /\ row_filled_qty r.2 = 0 /\ row_status r.2 = PENDING) ->
    collected_ok (mkCollected pr (co_orders c ++ [r]) (co_cancels c) (co_modifies c))) as Hnew.
  { intros pr r Hr. split; cbn; [|done]. intros r' [Hin|Hin%list_elem_of_singleton]%elem_of_app; [by apply Ho|].
    subst r. by apply Hr. }
  destruct command as [o|i id cmd|i id np nq cmd|i u id sd q|i cmd|i cmd|i u cmd|i u cmd|cs]; cbn [collect];
    try (split; [done|by left]).
  - split; [|by left]. apply Hnew. cbn. auto.
  - split; [done|]. unfold cancelled_in. cbn [co_cancels]. rewrite existsb_app, orb_true_iff. cbn [existsb fst].
    intros [H|H]; [by left|right]. rewrite orb_false_r in H. apply bool_decide_eq_true in H. injection H as _ ->. lia.
  - split; [|by left]. split; cbn; [done|]. intros user price q [Hin|Hin%list_elem_of_singleton]%elem_of_app; [by eapply Hm|].
    congruence.
  - case_if; (split; [|by left]); [|apply Hsame]. apply Hnew. cbn. auto.
Qed.

Lemma collect_all_ok routing c records c' : Forall command_ok records -> collected_ok c ->
  collect_all routing c records = Ret (Ok c') ->
  collected_ok c' /\ (cancelled_in c' = true -> cancelled_in c = true \/ existsb cancels records = true).
Proof.
  revert c. induction records as [|r records IH]; intros c Hf Hok; cbn [collect_all existsb].
  { intros [= ->]. auto. }
  apply Forall_cons in Hf as [Hr Hf]. destruct (decode_frame (kr_frame r)) as [command|] eqn:Hd; [|done].
  intros (route & _ & H)%obind_ret. destruct (collect_ok c r command (sh_table route) Hd Hr Hok) as [Hok' Hc].
  destruct (IH _ Hf Hok' H) as [H1 H2]. split; [done|]. rewrite orb_true_iff. intros [?%Hc|?]%H2; tauto.
Qed.

(** ** Any history of the database *)

(** Batches of commands, batches of events and sweeps in any order, committed or
    not, with redeliveries; the order's events arrive in their order.  The number
    counts the events delivered and the flag tells that no cancel was recorded
    after the last of them. *)
Inductive history (routing : RouteConfig) : bool -> nat -> Db -> Prop :=
| history_start : history routing true 0 ensure_schema
| history_commands b n s commits records s' r :
    history routing b n s -> Forall command_ok records ->
    persist_mysql_shard commits routing s records = Ret (s', r) ->
    history routing (b && negb (existsb cancels records)) n s'
| history_events b n n' s commits tables tx_max s' r :
    history routing b n s ->
    routed (t ← tables; (fun r => (t.1, r.1, r.2)) <$> t.2) ->
    let updates := t ← tables; (fun r => (t.1, r.1, r.2)) <$> t.2 in
    delivered stream n (order_events (committed commits (chunks (length updates) tx_max updates))) = Some n' ->
    persist_execution_shard commits s tables tx_max = Ret (s', r) ->
    history routing (if (n =? n')%nat then b else true) n' s'
| history_sweep b n s walk :
    history routing b n s -> history routing b n (sweep_pending_execution_shard walk s).

Lemma chunks_join {A : Type} fuel k (l : list A) : (0 < k)%nat -> (length l <= fuel)%nat -> mjoin (chunks fuel k l) = l.
Proof.
  intros Hk. revert l. induction fuel as [|f IH]; intros [|x l] Hl; cbn [chunks]; try done; [cbn in Hl; lia|].
  change (mjoin (take k (x :: l) :: chunks f k (drop k (x :: l)))) with (take k (x :: l) ++ mjoin (chunks f k (drop k (x :: l)))).
  rewrite IH; [by rewrite take_drop|]. rewrite length_drop. cbn in *. lia.
Qed.

Lemma history_settled routing b n s : history routing b n s -> settled b n s.
Proof.
  induction 1 as [|b n s commits records s' r _ IH Hok H|b n n' s commits tables tx_max s' r _ IH Hr updates Hd H|b n s walk _ IH].
  - change (holds 0 0 ensure_schema). split; [lia|done|intros e (i & ? & _)%elem_of_slice_of; lia|].
    intros k _. cbn. rewrite lookup_empty. split; [by intros ?%is_Some_None|by intros ?%not_elem_of_nil].
  - unfold persist_mysql_shard in H. apply obind_ret in H as ([c|why] & Hc & H).
    + destruct (collect_all_ok routing (mkCollected [] [] [] []) records c Hok) as [Hc' Hcan]; [|done|].
      { split; cbn; [by intros r' ?%not_elem_of_nil|intros; apply not_elem_of_nil]. }
      destruct commits; injection H as <- _; [|by apply (settled_weaken b); [intros ?%andb_true_iff; tauto|]].
      apply (settled_weaken (b && negb (cancelled_in c))); [|by apply command_settles].
      destruct (cancelled_in c), b, (existsb cancels records); cbn; try done. destruct (Hcan eq_refl); done.
    + injection H as <- _. apply (settled_weaken b); [intros ?%andb_true_iff; tauto|done].
  - unfold persist_execution_shard, assert_that in H. case_match eqn:E; [|done]. injection H as H. fold updates in H.
    replace s' with (transactions commits s (chunks (length updates) tx_max updates)).1 by (by rewrite H).
    apply transactions_settle; [done| |done]. zbool. rewrite chunks_join by lia. exact Hr.
  - unfold sweep_pending_execution_shard. set (ts := take 100 _). unfold settled in IH.
    destruct (row s) as [r|] eqn:E.
    + destruct IH as [H Hs]. pose proof (applications_settle b n n s ts H) as HI. rewrite E, Nat.eqb_refl in HI. auto.
    + pose proof (applications_settle b 0 n s ts IH) as HI. rewrite E in HI.
      apply (settled_weaken (if (0 =? n)%nat then b else true)); [by destruct (0 =? n)%nat|auto].
Qed.
End order.

(** ** The two submits agree on where an order lives *)
Lemma elem_of_group_by_db {R : Type} walk (rs : list (Z * R)) db g : (db, g) ∈ group_by_db walk rs ->
  forall r, r ∈ g -> (db, r) ∈ rs.
Proof.
  unfold group_by_db. intros (d & [= -> ->] & _)%list_elem_of_fmap r ([d' r'] & -> & [Hd Hr]%list_elem_of_filter)%list_elem_of_fmap.
  cbn in Hd. by subst.
Qed.

Lemma sent_jobs {J : Type} owned reply (jobs : list (Z * J)) j : j ∈ (finish_submit owned reply jobs).1 -> j ∈ jobs.
Proof.
  unfold finish_submit. destruct (send_jobs owned jobs) as [sent r] eqn:E. cbn. revert sent r E.
  induction jobs as [|[db job] jobs IH]; intros sent r; cbn; [by intros [= <- <-]|].
  case_bool_decide; [|by intros [= <- <-] ?%not_elem_of_nil].
  destruct (send_jobs owned jobs) as [sent' r'] eqn:E. intros [= <- <-] [->|Hj]%elem_of_cons; [set_solver|].
  apply elem_of_cons. right. by apply (IH sent' r').
Qed.

Lemma route_events_spec routing records routed' : route_events routing records = Ret routed' ->
  forall db t r id, (db, (t, (r, id))) ∈ routed' -> RouteConfig.route_order_id routing id = Ret (mkRoute db t).
Proof.
  revert routed'. induction records as [|x records IH]; intros routed'; cbn; [by intros [= <-] ???? ?%not_elem_of_nil|].
  intros (route & Hr & (rest & Hrest & [= <-])%obind_ret)%obind_ret db t r id [[= -> -> -> ->]|Hin]%elem_of_cons.
  - by destruct route.
  - by eapply IH.
Qed.

(** Every event sent to a database is filed under the table of its order's route. *)
Theorem events_reach_their_table walk owned reply routing records jobs res :
  submit_events walk owned reply routing records = Ret (jobs, res) ->
  forall db tables t rs r id, (db, tables) ∈ jobs -> (t, rs) ∈ tables -> (r, id) ∈ rs ->
  RouteConfig.route_order_id routing id = Ret (mkRoute db t).
Proof.
  unfold submit_events. intros (routed' & Hr & [= H])%obind_ret db tables t rs r id Hj Ht Hrs.
  pose proof (sent_jobs owned reply _ (db, tables) ltac:(by rewrite H)) as Hs.
  apply list_elem_of_fmap in Hs as ([d g] & E & Hg). injection E as -> ->. cbn [fst snd] in *.
  apply (route_events_spec routing records routed' Hr d t r id).
  apply (elem_of_group_by_db walk _ _ _ Hg). by apply (elem_of_group_by_db walk _ _ _ Ht).
Qed.

(** ** What the order table shows *)

(** C9: Take an order of quantity [qty] that is never modified, whose execution
    events are consistent and are delivered in the order of the log (earlier ones
    perhaps again), and any history of its database: batches of commands and of
    events in any interleaving, events before the command that creates the row,
    redelivered batches, transactions that fail half way through a call, sweeps.  Once the row
    exists, no event of the order waits, its filled quantity is the sum of the
    trades delivered, each counted once, and its status is the one these events
    give, unless a cancel was recorded after the last of them.  Before that, every
    event delivered waits in the pending table.  (What a modification does instead
    is [modify_inflates_fill].) *)
Theorem projection_exact (table : Z) (order_id : OrderId) (qty : Qty) (stream : list Event) (routing : RouteConfig)
    (b : bool) (n : nat) (s : Db) :
  consistent qty order_id stream ->
  history table order_id qty stream routing b n s ->
  match asset_orders s !! (table, order_id) with
  | Some r =>
      row_qty r = qty /\ row_filled_qty r = traded (take n stream) /\
      (row_status r = order_state qty (take n stream) \/ b = false /\ row_status r = CANCEL_PENDING) /\
      pending_of s table order_id = []
  | None =>
      forall e, e ∈ take n stream ->
      exists p, pending_events s !! e.1 = Some p /\ event_of (e.1, p) = e /\ pe_shard_table p = table
  end.
Proof.
  intros Hc Hh. pose proof (history_settled table order_id qty stream Hc routing b n s Hh) as Hs.
  unfold settled, row in Hs. destruct (asset_orders s !! (table, order_id)) as [r|].
  - destruct Hs as [H [Hq Hf Hst]]. split_and!; [done..|].
    pose proof (holds_slice table order_id qty stream Hc n n s H) as Hp. unfold slice_of in Hp.
    rewrite Nat.sub_diag, take_0 in Hp. by apply Permutation_nil_r, fmap_nil_inv in Hp.
  - intros e He. pose proof (holds_slice table order_id qty stream Hc 0 n s Hs) as Hp. unfold slice_of in Hp.
    rewrite Nat.sub_0_r, drop_0 in Hp. rewrite <-Hp in He.
    apply list_elem_of_fmap in He as ([k p] & -> & (Hk & Ht & _)%elem_of_pending_of). by exists p.
Qed.

(** ** Concrete histories *)
Module Example.

Definition table : Z := match RouteConfig.route_order_id RouteConfig.default_config 7 with Ret r => sh_table r | Panic _ => 0 end.

(** An event of order 7 at log index [i]. *)
Definition event (i ord : Z) (r : ExecReport) : ExecutionKafkaRecord * OrderId :=
  (mkExecutionRecord "executions" 0 (10 * i + ord) (mkEvent 1 i ord 7 (fields r)), 7).

Definition accepted := event 5 0 (RAccepted 1 7).
Definition trade := event 5 1 (RTrade 1 7 3 Buy 100 4 0 0).
Definition partial := event 5 2 (RPartiallyFilled 1 7 4).
Definition filling_trade := event 9 0 (RTrade 1 8 7 Sell 100 6 0 0).
Definition cancelled := event 9 0 (RCancelled 1 7).
Definition not_found := event 12 0 (RNotFound 1 7).

Definition key (i ord : Z) : EventKey := (1, i, ord, 7).
Definition stream : list Event :=
  [(key 5 0, (1, 0)); (key 5 1, (2, 4)); (key 5 2, (4, 4)); (key 9 0, (2, 6))].

Definition new_order : KafkaRecord := mkKafkaRecord "orders" 0 0 0 77 (encode_command (CNew (Order.limit 7 Buy 100 10))).
Definition cancel_order (cmd offset : Z) : KafkaRecord := mkKafkaRecord "orders" 0 offset 0 77 (encode_command (CCancel 1 7 cmd)).

Definition commands (s : Db) (records : list KafkaRecord) : Db :=
  match persist_mysql_shard true RouteConfig.default_config s records with Ret (s', _) => s' | Panic _ => s end.

Definition events (commits : list bool) (s : Db) (es : list (ExecutionKafkaRecord * OrderId)) : Db :=
  match persist_execution_shard commits s [(table, es)] 2 with Ret (s', _) => s' | Panic _ => s end.

(** The first events before the row, the batch failing in its second transaction;
    then the row; then everything again, with the trade that fills the order. *)
Definition early : Db := events [true; false] ensure_schema [accepted; trade; partial].
Definition created : Db := commands early [new_order].
Definition filled : Db := events [true; true] created [accepted; trade; partial; filling_trade].

Definition status_of (s : Db) : option OrderStatusText := row_status <$> asset_orders s !! (table, 7).

Lemma stream_consistent : consistent 10 7 stream.
Proof.
  split; try by repeat constructor.
  - intros [|[|[|[|i]]]] k z; cbn; try done. intros [= <- <-]. done.
  - intros [|[|[|[|i]]]] k z; cbn; done.
Qed.
End Example.

Lemma projection_exact_witness :
  exists r, asset_orders Example.filled !! (Example.table, 7) = Some r /\ row_filled_qty r = 10 /\ row_status r = FILLED.
Proof.
  pose proof (projection_exact Example.table 7 10 Example.stream RouteConfig.default_config true 4 Example.filled
    Example.stream_consistent) as H.
  assert (history Example.table 7 10 Example.stream RouteConfig.default_config true 4 Example.filled) as Hh.
  { apply (history_events _ _ _ _ _ true 2 4 Example.created [true; true]
      [(Example.table, [Example.accepted; Example.trade; Example.partial; Example.filling_trade])] 2 _ (Ok tt)).
    - apply (history_commands _ _ _ _ _ true 2 Example.early true [Example.new_order] _ (Ok tt)).
      + apply (history_events _ _ _ _ _ true 0 2 ensure_schema [true; false]
          [(Example.table, [Example.accepted; Example.trade; Example.partial])] 2 _ (Err "database error")).
        * apply history_start.
        * repeat constructor.
        * vm_compute. reflexivity.
        * vm_compute. reflexivity.
      + constructor; [|done]. vm_compute. reflexivity.
      + vm_compute. reflexivity.
    - repeat constructor.
    - vm_compute. reflexivity.
    - vm_compute. reflexivity. }
  specialize (H Hh). destruct (asset_orders Example.filled !! (Example.table, 7)) as [r|] eqn:E.
  - exists r. destruct H as (_ & Hf & [Hs|[? _]] & _); [|done]. split_and!; [done|by rewrite Hf|by rewrite Hs].
  - exfalso. vm_compute in E. discriminate E.
Defined.

(** The command stage does not look at [processed_commands] before it runs its
    updates: a cancel projected after the engine's answer, because the stage lags or
    because Kafka delivers it again, hides the final status, and no event follows. *)
Theorem late_cancel_hides_final_status :
  let answered := Example.events [true] Example.created [Example.partial; Example.cancelled] in
  let late := Example.commands answered [Example.cancel_order 50 1] in
  let confirmed := Example.events [true] late [Example.event 11 0 (RCancelled 1 7)] in
  let again := Example.commands confirmed [Example.cancel_order 50 1] in
  Example.status_of answered = Some CANCELLED /\ Example.status_of late = Some CANCEL_PENDING /\
  Example.status_of confirmed = Some CANCELLED /\
  processed_commands again = processed_commands confirmed /\ Example.status_of again = Some CANCEL_PENDING.
Proof. vm_compute. split_and!; reflexivity. Qed.

(** The status rule knows no [NotFound]: cancelling a cancelled order again makes
    its row live. *)
Theorem second_cancel_reopens :
  let answered := Example.events [true] Example.created [Example.partial; Example.cancelled] in
  let again := Example.events [true] answered [Example.not_found] in
  Example.status_of answered = Some CANCELLED /\ Example.status_of again = Some PARTIAL.
Proof. vm_compute. split; reflexivity. Qed.

(** A modification is projected before the engine has decided on it.  Here the
    engine fills the order at its old quantity and then refuses the modification:
    the row shows twice the quantity traded as filled. *)
Definition modify_order : KafkaRecord := mkKafkaRecord "orders" 0 1 0 77 (encode_command (CModify 1 7 100 20 50)).

Theorem modify_inflates_fill :
  let modified := Example.commands Example.created [modify_order] in
  let answered := Example.events [true; true] modified
    [Example.trade; Example.filling_trade; Example.event 9 1 (RFilled 1 7); Example.not_found] in
  traded Example.stream = 10 /\
  row_filled_qty <$> asset_orders answered !! (Example.table, 7) = Some 20.
Proof. vm_compute. split; reflexivity. Qed.

(** Were [filled_qty] assigned first, the status would count the trades twice: half
    filled, an order would show as filled. *)
Theorem assignments_read_old_row :
  let half := mkAggregate 5 5 false 4 in
  let before := mkRow 0 77 1 0 100 10 0 PENDING in
  let after := apply_aggregate half before in
  row_status after = PARTIAL /\ row_filled_qty after = 5 /\
  row_status (apply_aggregate half after) = FILLED.
Proof. vm_compute. split_and!; reflexivity. Qed.
