(* ===== verification/Stages.v ===== *)
(** * The Kafka stages of the order service

    The consumers of [src/src/bin/order_api.rs]: decoding a queue message, one turn
    of the command stages ([run_kafka_stage], [run_db_kafka_stage]) and of the
    execution stage ([run_execution_mysql_consumer]), with the offsets they commit
    and rewind, the dead-letter file, and the split of a batch over the Raft groups
    ([RaftForwarder::submit]).

    A partition is the list of its payloads, indexed by offset.  What Kafka does is
    an argument of a turn: which partition each poll returns a message of, whether a
    commit or a seek succeeds; so is the result of processing a batch. *)

From S2P Require Import Prelude Types Protocol Bytes Wire Sharding Queue Cluster Projection Journal.

Definition TopicPartition : Type := string * Z.

(** ** Messages *)
Record KafkaMessage := mkMessage { m_tp : TopicPartition; m_offset : Z; m_payload : option bytes }.

Definition decode_kafka_record (router : QueueRouter) (category_size : Z) (m : KafkaMessage) : outcome (io_result KafkaRecord) :=
  match m_payload m with
  | None => Ret (Err "Kafka message has no payload")
  | Some payload =>
      match QueueEnvelope.decode payload with
      | None => Ret (Err "invalid Kafka order envelope")
      | Some envelope =>
          let category_id := asset_category (QueueEnvelope.instrument envelope) category_size in
          let! expected := QueueRouter.route router category_id in
          Ret (if negb (bool_decide (topic expected = (m_tp m).1)) || negb (partition expected =? (m_tp m).2) ||
                  negb (q_version expected =? e_route_version envelope)
               then Err "stale queue route"
               else Ok (mkKafkaRecord (m_tp m).1 (m_tp m).2 (m_offset m) category_id (e_user envelope) (e_frame envelope)))
      end
  end.

(** [partitions] is the configured number of routed partitions. *)
Definition decode_db_kafka_record (category_size : Z) (routing : RouteConfig) (partitions : Z) (m : KafkaMessage)
    : outcome (io_result KafkaRecord) :=
  match m_payload m with
  | None => Ret (Err "Kafka message has no payload")
  | Some payload =>
      match QueueEnvelope.decode payload with
      | None => Ret (Err "invalid DB command envelope")
      | Some envelope =>
          if negb (e_route_version envelope =? rc_route_version routing) then Ret (Err "stale DB route version")
          else
            match decode_frame (e_frame envelope) with
            | None => Ret (Err "invalid DB command frame")
            | Some command =>
                let! expected := RouteConfig.execution_partition routing (database_order_id command) partitions in
                Ret (if negb ((m_tp m).2 =? QueueRouter.as_i32 expected) then Err "DB command partition does not match"
                     else Ok (mkKafkaRecord (m_tp m).1 (m_tp m).2 (m_offset m)
                            (asset_category (Command.instrument command) category_size) (e_user envelope) (e_frame envelope)))
            end
      end
  end.

(** What [route_command_db_batch] sends for one record. *)
Definition route_command_db (routing : RouteConfig) (db_route_partitions : Z) (record : KafkaRecord)
    : outcome (Z * bytes * bytes) :=
  assert_that (wrap32 (db_count routing) <=? db_route_partitions) "command DB route partitions must cover every physical DB" (
    let! command := expect (decode_frame (kr_frame record)) "validated command Kafka frame" in
    let order_id := database_order_id command in
    let! partition := RouteConfig.execution_partition routing order_id db_route_partitions in
    Ret (partition, rev (le_bytes 8 order_id), encode_envelope (kr_user record) (rc_route_version routing) (kr_frame record))).

(** ** Offsets *)

(** What both record types tell of where a record was read. *)
Class Located (R : Type) := { tp_of : R -> TopicPartition; offset_of : R -> Z }.

#[export] Instance located_command : Located KafkaRecord :=
  {| tp_of r := (kr_topic r, kr_partition r); offset_of := kr_offset |}.
#[export] Instance located_execution : Located ExecutionKafkaRecord :=
  {| tp_of r := (er_topic r, er_partition r); offset_of := er_offset |}.

(** The [HashMap] both batch functions build, with [entry().and_modify().or_insert()]. *)
Definition batch_offsets {R : Type} `{!Located R} (pick : Z -> Z -> Z) (value : R -> Z) (records : list R)
    : gmap TopicPartition Z :=
  foldl (fun m r => <[tp_of r := match m !! tp_of r with Some o => pick o (value r) | None => value r end]> m) ∅ records.

(** A consumer: where each partition is read next and what is committed. *)
Record Consumer := mkConsumer { position : gmap TopicPartition Z; committed : gmap TopicPartition Z }.

Definition offset_at (m : gmap TopicPartition Z) (tp : TopicPartition) : Z := default 0 (m !! tp).

(** [commit_kafka_batch] and [commit_execution_batch], when Kafka takes the commit. *)
Definition commit_batch {R : Type} `{!Located R} (c : Consumer) (records : list R) : Consumer :=
  mkConsumer (position c) (batch_offsets Z.max (fun r => offset_of r + 1) records ∪ committed c).

(** [rewind_kafka_batch] and [rewind_execution_batch]; [seeks] tells which seeks
    succeed, a failure is ignored. *)
Definition rewind_batch {R : Type} `{!Located R} (seeks : TopicPartition -> bool) (c : Consumer) (records : list R) : Consumer :=
  mkConsumer (filter (fun kv => seeks kv.1 = true) (batch_offsets Z.min offset_of records) ∪ position c) (committed c).

(** ** Polling *)
Inductive Poll := Polled (tp : TopicPartition) | PollError | PollNothing.

Definition logs : Type := gmap TopicPartition (list (option bytes)).

(** The next message of a partition, if the partition has one. *)
Definition fetch (ls : logs) (c : Consumer) (tp : TopicPartition) : option (KafkaMessage * Consumer) :=
  let o := offset_at (position c) tp in
  payload ← default [] (ls !! tp) !! Z.to_nat o;
  Some (mkMessage tp o payload, mkConsumer (<[tp := o + 1]> (position c)) (committed c)).

(** ** One turn of a command stage *)
Record Turn := mkTurn {
  polls : list Poll;
  processed_ok : bool;
  commit_ok : bool;
  seeks_ok : TopicPartition -> bool
}.

Section command_stage.
Context {R : Type} `{!Located R} (decode : KafkaMessage -> outcome (io_result R)) (ls : logs).

Definition push_record (m : KafkaMessage) (batch : list R) : outcome (list R) :=
  let! r := decode m in
  Ret match r with Ok record => batch ++ [record] | Err _ => batch end.

(** The lingering loop; the list of polls ends at the deadline.  The database stage
    ends its batch at a poll error, the others go on. *)
Fixpoint linger (stop_at_error : bool) (batch_size : nat) (ps : list Poll) (c : Consumer) (batch : list R)
    : outcome (Consumer * list R) :=
  match ps with
  | [] => Ret (c, batch)
  | p :: ps =>
      if (batch_size <=? length batch)%nat then Ret (c, batch)
      else
        match p with
        | PollNothing => Ret (c, batch)
        | PollError => if stop_at_error then Ret (c, batch) else linger stop_at_error batch_size ps c batch
        | Polled tp =>
            match fetch ls c tp with
            | None => Ret (c, batch)
            | Some (m, c) => let! batch := push_record m batch in linger stop_at_error batch_size ps c batch
            end
        end
  end.

(** Processing, committing or rewinding; the records processed are returned. *)
Definition settle (t : Turn) (c : Consumer) (batch : list R) : Consumer * list R :=
  if processed_ok t then
    (if commit_ok t then commit_batch c batch else rewind_batch (seeks_ok t) c batch, batch)
  else (rewind_batch (seeks_ok t) c batch, []).

(** One iteration of [run_kafka_stage]. *)
Definition kafka_stage_turn (batch_size : nat) (t : Turn) (c : Consumer) : outcome (Consumer * list R) :=
  match polls t with
  | Polled tp :: ps =>
      match fetch ls c tp with
      | None => Ret (c, [])
      | Some (m, c) =>
          let! batch := push_record m [] in
          let! r := linger false batch_size ps c batch in
          Ret (settle t r.1 r.2)
      end
  | _ => Ret (c, [])
  end.

(** One iteration of [run_db_kafka_stage]. *)
Definition db_stage_turn (batch_size : nat) (t : Turn) (c : Consumer) : outcome (Consumer * list R) :=
  let go ps c batch :=
    let! r := linger true batch_size ps c batch in
    Ret (if bool_decide (r.2 = []) then (r.1, []) else settle t r.1 r.2) in
  match polls t with
  | Polled tp :: ps =>
      match fetch ls c tp with
      | None => Ret (c, [])
      | Some (m, c) => let! batch := push_record m [] in go ps c batch
      end
  | PollError :: ps => go ps c []
  | _ => Ret (c, [])
  end.
End command_stage.

(** A reassigned or restarted partition is read from its committed offset. *)
Definition resume (tp : TopicPartition) (c : Consumer) : Consumer :=
  mkConsumer (<[tp := offset_at (committed c) tp]> (position c)) (committed c).

(** ** Dead letters *)
Definition DLQ_HEADER : bytes := [84; 67; 68; 76; 81; 48; 49; 0].

Record DeadLetter := mkLetter { dl_partition : Z; dl_offset : Z; dl_reason : bytes; dl_payload : bytes }.

Module DlqWriter.

(** The file's bytes after opening it; an empty file is a new one. *)
Definition open (file : bytes) : io_result bytes :=
  if bool_decide (file = []) then Ok DLQ_HEADER
  else if (length file <? 8)%nat then Err "failed to fill whole buffer"
  else if negb (bool_decide (take 8 file = DLQ_HEADER)) then Err "DLQ header/version mismatch (migration required)"
  else Ok file.

Definition body (now : Z) (l : DeadLetter) : bytes :=
  le_bytes 8 now ++ le_bytes 4 (dl_partition l) ++ le_bytes 8 (dl_offset l) ++
  le_bytes 4 (Z.of_nat (length (dl_reason l))) ++ dl_reason l ++
  le_bytes 4 (Z.of_nat (length (dl_payload l))) ++ dl_payload l.

Definition frame (now : Z) (l : DeadLetter) : bytes :=
  let b := body now l in
  le_bytes 4 (Z.of_nat (length b)) ++ b ++ le_bytes 8 (fnv1a b).

(** [torn]: the write stopped after that many bytes of the frame. *)
Definition append (file : bytes) (now : Z) (l : DeadLetter) (torn : option nat) : bytes * io_result unit :=
  match torn with
  | None => (file ++ frame now l, Ok tt)
  | Some k => (file ++ take k (frame now l), Err "write failed")
  end.
End DlqWriter.

(** The reader of the file, [read_dlq] of the tests: it stops at the end and
    panics on a record cut short or damaged. *)
Fixpoint read_letters (fuel : nat) (b : bytes) : outcome (list DeadLetter) :=
  match fuel with
  | O => Ret []
  | S fuel =>
      if (length b <? 4)%nat then Ret []
      else
        let len := Z.to_nat (u32_at 0 b) in
        assert_that (4 + len + 8 <=? length b)%nat "failed to fill whole buffer" (
          let body := slice 4 len b in
          assert_that (fnv1a body =? le_value (slice (4 + len) 8 b)) "assertion failed" (
            let reason_len := Z.to_nat (u32_at 20 body) in
            let payload_len := Z.to_nat (u32_at (24 + reason_len) body) in
            let l := mkLetter (QueueRouter.as_i32 (u32_at 8 body)) (wrap_i64 (u64_at 12 body))
                       (slice 24 reason_len body) (slice (28 + reason_len) payload_len body) in
            let! rest := read_letters fuel (drop (4 + len + 8) b) in
            Ret (l :: rest)))
  end.

Definition read_dlq (file : bytes) : outcome (list DeadLetter) :=
  assert_that (bool_decide (take 8 file = DLQ_HEADER)) "assertion failed" (read_letters (length file) (drop 8 file)).

(** ** [persist_with_retry] *)
Inductive PersistOutcome := Committed | DeadLettered.

(** One attempt: the result of [persist] and, where the record is dead-lettered,
    the clock and the fate of the write. *)
Record Attempt := mkAttempt { at_persist : io_result unit; at_now : Z; at_torn : option nat }.

(** [None]: still retrying when the attempts end. *)
Fixpoint persist_with_retry (max_retries attempt : Z) (file : bytes) (partition offset : Z) (payload : bytes)
    (reason : string -> bytes) (attempts : list Attempt) : option (PersistOutcome * bytes) :=
  match attempts with
  | [] => None
  | a :: attempts =>
      match at_persist a with
      | Ok _ => Some (Committed, file)
      | Err error =>
          if max_retries <=? attempt then
            match DlqWriter.append file (at_now a) (mkLetter partition offset (reason error) payload) (at_torn a) with
            | (file, Ok _) => Some (DeadLettered, file)
            | (file, Err _) => persist_with_retry max_retries attempt file partition offset payload reason attempts
            end
          else persist_with_retry max_retries (wrap32 (attempt + 1)) file partition offset payload reason attempts
      end
  end.

(** ** One turn of the execution stage *)

(** A poll of the execution topic, with what happens should the message be undecodable. *)
Inductive ExecutionPoll :=
| XPolled (tp : TopicPartition) (now : Z) (torn : option nat) (commit : bool)
| XError
| XNothing.

Definition decode_execution_record (m : KafkaMessage) : option ExecutionKafkaRecord :=
  payload ← m_payload m;
  event ← decode_execution_event payload;
  Some (mkExecutionRecord (m_tp m).1 (m_tp m).2 (m_offset m) event).

(** The text of the reason. *)
Definition invalid_report : bytes := (fun a => Z.of_nat (Ascii.nat_of_ascii a)) <$> String.list_ascii_of_string "invalid execution report".

(** The file, the consumer and the batch after a message.  [commit_message]
    commits the offset after the message's. *)
Definition push_execution_record (m : KafkaMessage) (now : Z) (torn : option nat) (commit : bool)
    (st : bytes * Consumer * list ExecutionKafkaRecord) : bytes * Consumer * list ExecutionKafkaRecord :=
  let '(dlq, c, records) := st in
  match decode_execution_record m with
  | Some record => (dlq, c, records ++ [record])
  | None =>
      match DlqWriter.append dlq now (mkLetter (m_tp m).2 (m_offset m) invalid_report (default [] (m_payload m))) torn with
      | (dlq, Ok _) =>
          (dlq, if commit then mkConsumer (position c) (<[m_tp m := m_offset m + 1]> (committed c)) else c, records)
      | (dlq, Err _) => (dlq, c, records)
      end
  end.

Fixpoint linger_execution (ls : logs) (batch_size : nat) (ps : list ExecutionPoll)
    (st : bytes * Consumer * list ExecutionKafkaRecord) : bytes * Consumer * list ExecutionKafkaRecord :=
  match ps with
  | [] => st
  | p :: ps =>
      let '(dlq, c, records) := st in
      if (batch_size <=? length records)%nat then st
      else
        match p with
        | XNothing => st
        | XError => linger_execution ls batch_size ps st
        | XPolled tp now torn commit =>
            match fetch ls c tp with
            | None => st
            | Some (m, c) => linger_execution ls batch_size ps (push_execution_record m now torn commit (dlq, c, records))
            end
        end
  end.

Record ExecutionTurn := mkExecutionTurn {
  x_polls : list ExecutionPoll;
  x_submits : list bool;
  x_commit_ok : bool;
  x_seeks_ok : TopicPartition -> bool
}.

(** One iteration of [run_execution_mysql_consumer]; the batch is submitted up to
    [max_retries] times, [x_submits] lists the answers. *)
Definition execution_turn (ls : logs) (batch_size max_retries : nat) (t : ExecutionTurn) (dlq : bytes) (c : Consumer)
    : bytes * Consumer * list ExecutionKafkaRecord :=
  match x_polls t with
  | XPolled tp now torn commit :: ps =>
      match fetch ls c tp with
      | None => (dlq, c, [])
      | Some (m, c) =>
          let '(dlq, c, records) :=
            linger_execution ls batch_size ps (push_execution_record m now torn commit (dlq, c, [])) in
          if bool_decide (length records = 0%nat) then (dlq, c, [])
          else if existsb id (take max_retries (x_submits t)) then
            (dlq, if x_commit_ok t then commit_batch c records else c, records)
          else (dlq, rewind_batch (x_seeks_ok t) c records, [])
      end
  | _ => (dlq, c, [])
  end.

(** ** Splitting a batch over the Raft groups *)

(** The frames of one category, in the order of the records. *)
Definition category_frames (records : list KafkaRecord) (category : Z) : list bytes :=
  kr_frame <$> filter (fun r => kr_category_id r = category) records.

(** The batches of one group: its categories ascending, each split at the limit. *)
Definition group_batches (control : RouteControlPlane) (records : list KafkaRecord) (group : Z) : list (list bytes) :=
  let mine := filter (fun r => RouteControlPlane.group_for control (kr_category_id r) = group) records in
  category ← btree_keys (kr_category_id <$> mine);
  let frames := category_frames mine category in
  chunks (length frames) (Z.to_nat RAFT_BATCH_MAX_COMMANDS) frames.

(** The checks of the grouping loop, record by record. *)
Fixpoint check_forward (groups : Z) (control : RouteControlPlane) (records : list KafkaRecord) : outcome (io_result unit) :=
  match records with
  | [] => Ret (Ok tt)
  | r :: records =>
      if negb (RouteControlPlane.accepts control (kr_category_id r)) then Ret (Err "category is frozen for migration")
      else
        assert_that (RouteControlPlane.group_for control (kr_category_id r) <? groups) "index out of bounds" (
          check_forward groups control records)
  end.

(** The jobs to send, in the order of the groups. *)
Definition forward_jobs (groups : Z) (control : RouteControlPlane) (records : list KafkaRecord)
    : outcome (io_result (list (Z * list (list bytes)))) :=
  if groups =? 0 then Ret (Err "no Raft groups configured")
  else
    let! checked := check_forward groups control records in
    Ret (let? _ := checked in
         Ok (filter (fun j => j.2 <> [])
           ((fun g => (Z.of_nat g, group_batches control records (Z.of_nat g))) <$> seq 0 (Z.to_nat groups)))).

(** [RaftForwarder::submit]; [replies] are the workers' answers. *)
Definition submit_forward (groups : Z) (control : RouteControlPlane) (replies : Z -> io_result unit) (records : list KafkaRecord)
    : outcome (list (Z * list (list bytes)) * io_result unit) :=
  let! jobs := forward_jobs groups control records in
  Ret match jobs with
      | Err why => ([], Err why)
      | Ok jobs => (jobs, await replies jobs)
      end.

(** * Correctness of the command stages *)

(** ** Offsets of a batch *)
Section offsets.
Context {R : Type} `{!Located R} (pick : Z -> Z -> Z) (value : R -> Z) (le : relation Z) `{!PreOrder le}.
Hypothesis pick_one : forall a b, pick a b = a \/ pick a b = b.
Hypothesis pick_le : forall a b, le a (pick a b) /\ le b (pick a b).

(** A partition of the batch has the extreme of its records' values. *)
Lemma batch_offsets_spec records tp :
  match batch_offsets pick value records !! tp with
  | Some v => (exists r, r ∈ records /\ tp_of r = tp /\ v = value r) /\ (forall r, r ∈ records -> tp_of r = tp -> le (value r) v)
  | None => forall r, r ∈ records -> tp_of r <> tp
  end.
Proof using All.
  induction records as [|x records IH] using rev_ind.
  { unfold batch_offsets. cbn [foldl]. rewrite lookup_empty. by intros r ?%not_elem_of_nil. }
  unfold batch_offsets in *. rewrite foldl_snoc. destruct (decide (tp_of x = tp)) as [<-|Hne].
  - rewrite lookup_insert_eq. destruct (foldl _ ∅ records !! tp_of x) as [o|].
    + destruct IH as [(r & Hr & Ht & ->) Hle]. destruct (pick_le (value r) (value x)) as [H1 H2]. split.
      * destruct (pick_one (value r) (value x)) as [->| ->]; [exists r|exists x]; set_solver.
      * intros y [Hy| ->%list_elem_of_singleton]%elem_of_app Et; [|done]. etrans; [by apply Hle|done].
    + split; [exists x; set_solver|]. intros y [Hy| ->%list_elem_of_singleton]%elem_of_app Et; [by destruct (IH y Hy)|done].
  - rewrite lookup_insert_ne by done. destruct (foldl _ ∅ records !! tp) as [o|].
    + destruct IH as [(r & Hr & Ht & ->) Hle]. split; [exists r; set_solver|].
      intros y [Hy| ->%list_elem_of_singleton]%elem_of_app Et; [by apply Hle|done].
    + intros y [Hy| ->%list_elem_of_singleton]%elem_of_app; [by apply IH|done].
Qed.
End offsets.

(** ** At least once *)
Section at_least_once.
Context {R : Type} `{!Located R} (decode : KafkaMessage -> outcome (io_result R)) (ls : logs).
Hypothesis decode_located : forall m r, decode m = Ret (Ok r) -> tp_of r = m_tp m /\ offset_of r = m_offset m.

(** A record of the log at an offset of a partition. *)
Definition logged (tp : TopicPartition) (i : Z) (r : R) : Prop :=
  0 <= i /\ exists payload, default [] (ls !! tp) !! Z.to_nat i = Some payload /\ decode (mkMessage tp i payload) = Ret (Ok r).

(** Every record of the partition [at_tp] below its offset is among [done]. *)
Context (at_tp : TopicPartition).

Definition covered (done : list R) (m : gmap TopicPartition Z) : Prop :=
  forall i r, i < offset_at m at_tp -> logged at_tp i r -> r ∈ done.

(** What a turn collected between two states of the consumer. *)
Record gathered (c0 c : Consumer) (batch : list R) : Prop := {
  gathered_committed : committed c = committed c0;
  gathered_mono : forall tp, offset_at (position c0) tp <= offset_at (position c) tp;
  gathered_in : forall r, r ∈ batch ->
    offset_at (position c0) (tp_of r) <= offset_of r < offset_at (position c) (tp_of r);
  gathered_all : forall tp i r, offset_at (position c0) tp <= i < offset_at (position c) tp -> logged tp i r -> r ∈ batch
}.

Lemma gathered_refl c : gathered c c [].
Proof. split; [done|lia|by intros r ?%not_elem_of_nil|intros; lia]. Qed.

Lemma offset_at_insert m tp tp' o : offset_at (<[tp := o]> m) tp' = if bool_decide (tp' = tp) then o else offset_at m tp'.
Proof.
  unfold offset_at. case_bool_decide as E; [by rewrite E, lookup_insert_eq|by rewrite lookup_insert_ne by done].
Qed.

Lemma logged_located tp i r : logged tp i r -> tp_of r = tp /\ offset_of r = i.
Proof using decode_located. intros (_ & p & _ & H). exact (decode_located _ _ H). Qed.

Lemma fetch_gathered c0 c batch tp m c' batch' : gathered c0 c batch -> fetch ls c tp = Some (m, c') ->
  push_record decode m batch = Ret batch' -> gathered c0 c' batch'.
Proof using decode_located.
  intros [Hc Hm Hin Hall] Hf Hp. unfold fetch in Hf. apply bind_Some in Hf as (payload & Hl & [= <- <-]).
  set (o := offset_at (position c) tp) in *. unfold push_record in Hp. apply obind_ret in Hp as (d & Hd & [= <-]).
  assert (forall tp', offset_at (<[tp:=o + 1]> (position c)) tp' = if bool_decide (tp' = tp) then o + 1 else offset_at (position c) tp')
    as Hpos by (intros; apply offset_at_insert).
  assert (forall r, d = Ok r -> tp_of r = tp /\ offset_of r = o) as Hd' by (intros r ->; exact (decode_located _ _ Hd)).
  split; cbn [committed position].
  - done.
  - intros tp'. rewrite Hpos. pose proof (Hm tp') as Hm'. case_bool_decide as E; [rewrite E in Hm' |- *; fold o in Hm'|]; lia.
  - intros r Hr. rewrite Hpos.
    assert (r ∈ batch \/ d = Ok r) as [Hr'|E].
    { destruct d as [x|]; [|by left]. apply elem_of_app in Hr as [?| ->%list_elem_of_singleton]; auto. }
    + pose proof (Hin r Hr') as Hr1. case_bool_decide as E; [rewrite E in Hr1 |- *; fold o in Hr1|]; lia.
    + destruct (Hd' r E) as [-> ->]. rewrite bool_decide_true by done. pose proof (Hm tp) as Hm'. fold o in Hm'. lia.
  - intros tp' i r Hi Hlog. rewrite Hpos in Hi.
    destruct (decide (i < offset_at (position c) tp')) as [H|H].
    { pose proof (Hall tp' i r ltac:(lia) Hlog). destruct d; [set_solver|done]. }
    case_bool_decide as E; [|lia]. rewrite E in *. fold o in H. assert (i = o) as -> by lia.
    destruct Hlog as (_ & p & Hp & Hr). rewrite Hp in Hl. injection Hl as ->. rewrite Hr in Hd. injection Hd as <-. set_solver.
Qed.

Lemma linger_gathered stop size ps c0 c batch c' batch' : gathered c0 c batch ->
  linger decode ls stop size ps c batch = Ret (c', batch') -> gathered c0 c' batch'.
Proof using decode_located.
  revert c batch. induction ps as [|p ps IH]; intros c batch Hg; cbn [linger]; [by intros [= <- <-]|].
  case_if; [by intros [= <- <-]|]. destruct p as [tp| |].
  - destruct (fetch ls c tp) as [[m c1]|] eqn:Hf; [|by intros [= <- <-]]. intros (b & Hb & H)%obind_ret.
    by apply (IH c1 b); [apply (fetch_gathered c0 c batch tp m)|].
  - case_if; [by intros [= <- <-]|by apply IH].
  - by intros [= <- <-].
Qed.

Lemma covered_gathered done c0 c batch : gathered c0 c batch -> covered done (position c0) ->
  covered (done ++ batch) (position c).
Proof.
  intros H Hc i r Hi Hl. apply elem_of_app. destruct (decide (i < offset_at (position c0) at_tp)).
  - left. by apply (Hc i).
  - right. apply (gathered_all _ _ _ H at_tp i); [lia|done].
Qed.

Lemma covered_weaken done more m : covered done m -> covered (done ++ more) m.
Proof. intros H i r Hi Hl. apply elem_of_app. left. by apply (H i). Qed.

Definition safe (done : list R) (c : Consumer) : Prop := covered done (position c) /\ covered done (committed c).

Lemma commit_safe done c0 c batch : gathered c0 c batch -> safe done c0 -> safe (done ++ batch) (commit_batch c batch).
Proof.
  intros H [Hp Hc]. pose proof (covered_gathered done c0 c batch H Hp) as Hcov. split; [done|].
  intros i r Hi Hl. unfold commit_batch in Hi. cbn [committed] in Hi. unfold offset_at in Hi.
  pose proof (batch_offsets_spec Z.max (fun r : R => offset_of r + 1) Z.le ltac:(lia) ltac:(lia) batch at_tp) as Hb.
  destruct (batch_offsets Z.max _ batch !! at_tp) as [v|] eqn:E.
  - erewrite lookup_union_Some_l in Hi by exact E. destruct Hb as [(x & Hx & Ex & ->) _]. change (i < offset_of x + 1) in Hi.
    pose proof (gathered_in _ _ _ H x Hx) as Hin. rewrite Ex in Hin. apply (Hcov i); [lia|done].
  - rewrite lookup_union_r in Hi by done. rewrite (gathered_committed _ _ _ H) in Hi.
    apply elem_of_app. left. by apply (Hc i).
Qed.

Lemma rewind_safe done more seeks c0 c batch : seeks at_tp = true -> gathered c0 c batch -> safe done c0 ->
  safe (done ++ more) (rewind_batch seeks c batch).
Proof using decode_located.
  intros Hseek H [Hp Hc]. split; [|apply covered_weaken; cbn; by rewrite (gathered_committed _ _ _ H)].
  apply covered_weaken. intros i r Hi Hl. unfold rewind_batch in Hi. cbn [position] in Hi. unfold offset_at in Hi.
  pose proof (batch_offsets_spec Z.min (offset_of (R := R)) (flip Z.le) ltac:(lia)
    ltac:(unfold flip; lia) batch at_tp) as Hb.
  destruct (decide (i < offset_at (position c0) at_tp)) as [|Hge]; [by apply (Hp i)|]. exfalso.
  destruct (logged_located at_tp i r Hl) as [Ht Ho].
  destruct (batch_offsets Z.min _ batch !! at_tp) as [v|] eqn:E.
  - erewrite lookup_union_Some_l in Hi by (apply map_lookup_filter_Some; split; [exact E|exact Hseek]).
    destruct Hb as [(x & Hx & Ex & ->) Hle]. change (i < offset_of x) in Hi.
    pose proof (gathered_in _ _ _ H x Hx) as Hx'. rewrite Ex in Hx'.
    pose proof (gathered_all _ _ _ H at_tp i r ltac:(lia) Hl) as Hr.
    specialize (Hle r Hr Ht). unfold flip in Hle. lia.
  - rewrite lookup_union_r in Hi by (apply map_lookup_filter_None; by left). fold (offset_at (position c) at_tp) in Hi.
    pose proof (gathered_all _ _ _ H at_tp i r ltac:(lia) Hl) as Hr. by apply (Hb r Hr).
Qed.
End at_least_once.

(** ** The stages *)

(** The command stages: the matcher's and the two of the database, with how they
    decode a message and how a turn runs. *)
Inductive Stage :=
| QueueStage (router : QueueRouter) (category_size : Z)
| DbStage (routing : RouteConfig) (partitions category_size : Z).

Definition decode_of (st : Stage) : KafkaMessage -> outcome (io_result KafkaRecord) :=
  match st with
  | QueueStage router size => decode_kafka_record router size
  | DbStage routing partitions size => decode_db_kafka_record size routing partitions
  end.

Definition turn_of (st : Stage) (ls : logs) : nat -> Turn -> Consumer -> outcome (Consumer * list KafkaRecord) :=
  match st with
  | QueueStage _ _ => kafka_stage_turn (decode_of st) ls
  | DbStage _ _ _ => db_stage_turn (decode_of st) ls
  end.

Lemma decode_of_located st m r : decode_of st m = Ret (Ok r) -> tp_of r = m_tp m /\ offset_of r = m_offset m.
Proof.
  destruct m as [[t p] o [payload|]], st as [router size|routing partitions size];
    cbn [decode_of decode_kafka_record decode_db_kafka_record m_payload]; try done.
  - destruct (QueueEnvelope.decode payload); [|done]. intros (w & _ & H)%obind_ret. injection H. case_if; [done|].
    by intros [= <-].
  - destruct (QueueEnvelope.decode payload); [|done]. case_if; [done|]. destruct (decode_frame _); [|done].
    intros (w & _ & H)%obind_ret. injection H. case_if; [done|]. by intros [= <-].
Qed.

(** Any history of a stage over the topics' final contents: turns, in which the
    seeks of the partition [tp] succeed, and partitions taken up again after a
    restart or a rebalance.  The list collects the records of the batches
    processed. *)
Inductive stage_run (st : Stage) (ls : logs) (tp : TopicPartition) : list KafkaRecord -> Consumer -> Prop :=
| run_start : stage_run st ls tp [] (mkConsumer ∅ ∅)
| run_turn done c batch_size t c' processed :
    stage_run st ls tp done c -> seeks_ok t tp = true -> turn_of st ls batch_size t c = Ret (c', processed) ->
    stage_run st ls tp (done ++ processed) c'
| run_resume done c tp' : stage_run st ls tp done c -> stage_run st ls tp done (resume tp' c).

(** Taking a partition up again keeps what is covered. *)
Lemma resume_safe {R : Type} (decode : KafkaMessage -> outcome (io_result R)) ls tp tp' done c :
  safe decode ls tp done c -> safe decode ls tp done (resume tp' c).
Proof.
  intros [Hp Hc]. split; [|done]. intros i r Hi Hl. unfold resume in Hi. cbn [position] in Hi. rewrite offset_at_insert in Hi.
  case_bool_decide as E; [subst; by apply (Hc i)|by apply (Hp i)].
Qed.

Lemma start_safe {R : Type} (decode : KafkaMessage -> outcome (io_result R)) ls tp : safe decode ls tp [] (mkConsumer ∅ ∅).
Proof. split; intros i r Hi [H _]; unfold offset_at in Hi; cbn in Hi; rewrite lookup_empty in Hi; cbn in Hi; lia. Qed.

Section stage_safe.
Context (st : Stage) (ls : logs) (tp : TopicPartition).
Abbreviation stage_safe := (safe (decode_of st) ls tp).
Abbreviation collected := (gathered (decode_of st) ls).

Lemma settle_safe done t c0 c batch : collected c0 c batch -> stage_safe done c0 ->
  seeks_ok t tp = true -> stage_safe (done ++ (settle t c batch).2) (settle t c batch).1.
Proof.
  intros Hg Hs Ht. unfold settle. destruct (processed_ok t); [destruct (commit_ok t)|]; cbn [fst snd].
  - by apply (commit_safe _ _ _ done c0).
  - apply (rewind_safe _ _ (decode_of_located st) _ done _ _ c0); done.
  - apply (rewind_safe _ _ (decode_of_located st) _ done _ _ c0); done.
Qed.

(** From a first record, or none, to the end of a turn. *)
Lemma rest_safe stop size ps done t c c1 b c2 b2 : stage_safe done c -> seeks_ok t tp = true ->
  collected c c1 b -> linger (decode_of st) ls stop size ps c1 b = Ret (c2, b2) ->
  stage_safe (done ++ (settle t c2 b2).2) (settle t c2 b2).1 /\ (b2 = [] -> stage_safe done c2).
Proof.
  intros Hs Ht Hg Hl. pose proof (linger_gathered _ _ (decode_of_located st) _ _ _ _ _ _ _ _ Hg Hl) as Hg2.
  split; [by apply (settle_safe done t c)|]. intros ->.
  destruct Hs as [Hp Hc]. split; [|by rewrite (gathered_committed _ _ _ _ _ Hg2)].
  pose proof (covered_gathered _ _ _ done c c2 [] Hg2 Hp) as H. by rewrite app_nil_r in H.
Qed.

Lemma turn_safe done size t c c' processed : stage_safe done c -> seeks_ok t tp = true ->
  turn_of st ls size t c = Ret (c', processed) -> stage_safe (done ++ processed) c'.
Proof.
  intros Hs Ht.
  assert (forall q m c1 b, fetch ls c q = Some (m, c1) -> push_record (decode_of st) m [] = Ret b -> collected c c1 b) as Hf.
  { intros q m c1 b H1 H2. by apply (fetch_gathered _ _ (decode_of_located st) c c [] q m); [apply gathered_refl|..]. }
  assert (Ret (c, []) = Ret (c', processed) -> stage_safe (done ++ processed) c') as Hsame.
  { intros [= <- <-]. by rewrite app_nil_r. }
  assert (forall ps c1 b, collected c c1 b ->
    (let! r := linger (decode_of st) ls true size ps c1 b in
     Ret (if bool_decide (r.2 = []) then (r.1, []) else settle t r.1 r.2)) = Ret (c', processed) ->
    stage_safe (done ++ processed) c') as Hgo.
  { intros ps c1 b Hg ([c2 b2] & Hr & H)%obind_ret. cbn [fst snd] in H.
    destruct (rest_safe _ _ _ done t c c1 b c2 b2 Hs Ht Hg Hr) as [H1 H2].
    case_bool_decide as Eb; injection H as H; [subst; rewrite app_nil_r; auto|by rewrite H in H1]. }
  pose proof (fun ps c1 b c2 b2 => rest_safe false size ps done t c c1 b c2 b2 Hs Ht) as Hrest.
  unfold turn_of. destruct st as [router size'|routing partitions size']; unfold kafka_stage_turn, db_stage_turn;
    (destruct (polls t) as [|[q| |] ps]; try exact Hsame).
  - destruct (fetch ls c q) as [[m c1]|] eqn:Ef; [|exact Hsame].
    intros (b & Hb & ([c2 b2] & Hr & [= E])%obind_ret)%obind_ret.
    destruct (Hrest ps c1 b c2 b2 (Hf _ _ _ _ Ef Hb) Hr) as [H _].
    cbn [fst snd] in E. by rewrite E in H.
  - destruct (fetch ls c q) as [[m c1]|] eqn:Ef; [|exact Hsame]. intros (b & Hb & H)%obind_ret.
    exact (Hgo _ _ _ (Hf _ _ _ _ Ef Hb) H).
  - exact (Hgo _ _ _ (gathered_refl _ _ c)).
Qed.

Lemma stage_run_safe done c : stage_run st ls tp done c -> stage_safe done c.
Proof.
  induction 1 as [|done c size t c' processed _ IH Ht H|done c tp' _ IH].
  - apply start_safe.
  - by apply (turn_safe done size t c).
  - by apply resume_safe.
Qed.
End stage_safe.

(** ** The execution stage *)
Definition execution_decode (m : KafkaMessage) : outcome (io_result ExecutionKafkaRecord) :=
  Ret match decode_execution_record m with Some r => Ok r | None => Err "invalid execution report" end.

Lemma execution_decode_located m r : execution_decode m = Ret (Ok r) -> tp_of r = m_tp m /\ offset_of r = m_offset m.
Proof.
  unfold execution_decode, decode_execution_record. destruct m as [[t p] o [payload|]]; cbn; [|done].
  destruct (decode_execution_event payload); cbn; [|done]. by intros [= <-].
Qed.

Section execution_stage.
Context (ls : logs).

(** Every message of the topic is an execution event. *)
Definition clean : Prop := forall tp i payload, default [] (ls !! tp) !! Z.to_nat i = Some payload ->
  is_Some (decode_execution_record (mkMessage tp i payload)).
Hypothesis Hclean : clean.

Lemma push_clean m now torn commit dlq c records c0 tp :
  fetch ls c0 tp = Some (m, c) ->
  exists b, push_execution_record m now torn commit (dlq, c, records) = (dlq, c, b) /\
    push_record execution_decode m records = Ret b.
Proof using Hclean.
  unfold fetch. intros (payload & Hl & [= <- <-])%bind_Some. destruct (Hclean _ _ _ Hl) as [r Hr].
  unfold push_execution_record, push_record, execution_decode. rewrite Hr. by exists (records ++ [r]).
Qed.

Lemma linger_execution_clean size ps dlq c0 c b : gathered execution_decode ls c0 c b ->
  exists c' b', linger_execution ls size ps (dlq, c, b) = (dlq, c', b') /\ gathered execution_decode ls c0 c' b'.
Proof using Hclean.
  revert c b. induction ps as [|p ps IH]; intros c b Hg; cbn [linger_execution]; [eauto|].
  case_if; [eauto|]. destruct p as [tp now torn commit| |]; [|by apply IH|eauto].
  destruct (fetch ls c tp) as [[m c1]|] eqn:Ef; [|eauto].
  destruct (push_clean m now torn commit dlq c1 b c tp Ef) as (b1 & -> & Hb).
  apply IH. by apply (fetch_gathered _ _ execution_decode_located c0 c b tp m).
Qed.

Lemma execution_turn_safe tp done size retries t dlq c dlq' c' processed : safe execution_decode ls tp done c ->
  x_seeks_ok t tp = true -> execution_turn ls size retries t dlq c = (dlq', c', processed) ->
  safe execution_decode ls tp (done ++ processed) c'.
Proof using Hclean.
  intros Hs Ht. unfold execution_turn.
  assert ((dlq, c, []) = (dlq', c', processed) -> safe execution_decode ls tp (done ++ processed) c') as Hsame.
  { intros [= <- <- <-]. by rewrite app_nil_r. }
  destruct (x_polls t) as [|[q now torn commit| |] ps]; try exact Hsame.
  destruct (fetch ls c q) as [[m c1]|] eqn:Ef; [|exact Hsame].
  destruct (push_clean m now torn commit dlq c1 [] c q Ef) as (b1 & -> & Hb).
  destruct (linger_execution_clean size ps dlq c c1 b1) as (c2 & b2 & -> & Hg).
  { apply (fetch_gathered _ _ execution_decode_located c c [] q m); [apply gathered_refl|done..]. }
  destruct Hs as [Hp Hc]. pose proof (covered_gathered _ _ _ done c c2 b2 Hg Hp) as Hp2.
  assert (covered execution_decode ls tp (done ++ b2) (committed c2)) as Hc2.
  { apply covered_weaken. by rewrite (gathered_committed _ _ _ _ _ Hg). }
  case_bool_decide as E; [|destruct (existsb id _); [destruct (x_commit_ok t)|]]; intros [= <- <- <-].
  - apply nil_length_inv in E. by subst b2.
  - by apply (commit_safe _ _ _ done c).
  - done.
  - by apply (rewind_safe _ _ execution_decode_located _ done _ _ c).
Qed.
End execution_stage.

Inductive execution_run (ls : logs) (tp : TopicPartition) : list ExecutionKafkaRecord -> bytes -> Consumer -> Prop :=
| execution_start dlq : execution_run ls tp [] dlq (mkConsumer ∅ ∅)
| execution_step done dlq c size retries t dlq' c' processed :
    execution_run ls tp done dlq c -> x_seeks_ok t tp = true ->
    execution_turn ls size retries t dlq c = (dlq', c', processed) -> execution_run ls tp (done ++ processed) dlq' c'
| execution_resume done dlq c tp' : execution_run ls tp done dlq c -> execution_run ls tp done dlq (resume tp' c).

Lemma execution_run_safe ls tp done dlq c : clean ls -> execution_run ls tp done dlq c -> safe execution_decode ls tp done c.
Proof.
  intros Hclean. induction 1 as [|done dlq c size retries t dlq' c' processed _ IH Ht H|done dlq c tp' _ IH].
  - apply start_safe.
  - by apply (execution_turn_safe ls Hclean tp done size retries t dlq c dlq').
  - by apply resume_safe.
Qed.

(** C10: At least once.  A command stage (the matcher's, or one of the database's)
    may fail to process a batch, fail to commit, restart or be rebalanced at any
    time: every record of a partition below its committed offset was in a batch whose
    processing succeeded.  A message is passed over only when the stage's decoder
    refuses it.  The seeks with which the stage goes back to a batch it could not
    process succeed for this partition (those of others may fail): the code ignores
    a failed seek, and the batch is then lost ([failed_seek_skips]). *)
Theorem stage_at_least_once (st : Stage) (ls : logs) (done : list KafkaRecord) (c : Consumer)
    (tp : TopicPartition) (i : Z) (payload : option bytes) (r : KafkaRecord) :
  stage_run st ls tp done c ->
  0 <= i < offset_at (committed c) tp ->
  default [] (ls !! tp) !! Z.to_nat i = Some payload -> decode_of st (mkMessage tp i payload) = Ret (Ok r) ->
  r ∈ done.
Proof.
  intros Hrun Hi Hp Hd. destruct (stage_run_safe st ls tp done c Hrun) as [_ Hc].
  apply (Hc i r); [lia|]. split; [lia|eauto].
Qed.

(** The same of the execution stage, as long as every message decodes. *)
Theorem execution_at_least_once ls done dlq c tp i payload r : clean ls -> execution_run ls tp done dlq c ->
  0 <= i < offset_at (committed c) tp -> default [] (ls !! tp) !! Z.to_nat i = Some payload ->
  decode_execution_record (mkMessage tp i payload) = Some r -> r ∈ done.
Proof.
  intros Hclean Hrun Hi Hp Hd. destruct (execution_run_safe ls tp done dlq c Hclean Hrun) as [_ Hc].
  apply (Hc i r); [lia|]. split; [lia|]. exists payload. split; [done|]. unfold execution_decode. by rewrite Hd.
Qed.

Module StageExample.
Definition router : QueueRouter := mkQueue ["orders"%string] 1 1.
Definition stage : Stage := QueueStage router 1000.
Definition tp : TopicPartition := ("orders"%string, 0).
Definition command (id : Z) : bytes := encode_envelope 77 1 (encode_command (CNew (Order.limit id Buy 100 10))).
Definition ls : logs := {[ tp := [Some (command 7); Some [1; 2; 3]; Some (command 8)] ]}.
Definition record (offset id : Z) : KafkaRecord :=
  mkKafkaRecord "orders" 0 offset 0 77 (encode_command (CNew (Order.limit id Buy 100 10))).

(** A turn that fails on the first two messages, and one that succeeds on all. *)
Definition failing : Turn := mkTurn [Polled tp; Polled tp] false false (fun _ => true).
Definition working : Turn := mkTurn [Polled tp; PollError; Polled tp; Polled tp] true true (fun _ => true).
Definition stuck : Turn := mkTurn [Polled tp; Polled tp] false false (fun _ => false).

Definition after (t : Turn) (c : Consumer) : Consumer :=
  match turn_of stage ls 10 t c with Ret (c, _) => c | Panic _ => c end.

Definition event : bytes := encode_execution_event_for_target 1 5 1 7 (RTrade 1 7 3 Buy 100 4 0 0).
Definition events : TopicPartition := ("executions"%string, 0).
Definition execution_ls : logs := {[ events := [Some event; Some [1; 2; 3]] ]}.
Definition failing_execution : ExecutionTurn :=
  mkExecutionTurn [XPolled events 0 None true; XPolled events 0 None true] [] true (fun _ => true).
End StageExample.

Lemma stage_at_least_once_witness :
  exists c, stage_run StageExample.stage StageExample.ls StageExample.tp [StageExample.record 0 7; StageExample.record 2 8] c /\
    offset_at (committed c) StageExample.tp = 3 /\
    StageExample.record 2 8 ∈ [StageExample.record 0 7; StageExample.record 2 8].
Proof.
  set (c1 := StageExample.after StageExample.failing (mkConsumer ∅ ∅)).
  set (c2 := StageExample.after StageExample.working c1).
  assert (stage_run StageExample.stage StageExample.ls StageExample.tp [StageExample.record 0 7; StageExample.record 2 8] c2) as Hrun.
  { apply (run_turn _ _ _ [] c1 10 StageExample.working c2 [StageExample.record 0 7; StageExample.record 2 8]); [|done|].
    - apply (run_turn _ _ _ [] (mkConsumer ∅ ∅) 10 StageExample.failing c1 []); [apply run_start|done|].
      vm_compute. reflexivity.
    - vm_compute. reflexivity. }
  exists c2. split; [exact Hrun|]. split; [vm_compute; reflexivity|].
  apply (stage_at_least_once StageExample.stage StageExample.ls _ c2 StageExample.tp 2 (Some (StageExample.command 8))
    (StageExample.record 2 8) Hrun); [|vm_compute; reflexivity|vm_compute; reflexivity].
  assert (offset_at (committed c2) StageExample.tp = 3) as -> by (vm_compute; reflexivity). lia.
Defined.

(** The hypothesis on seeks is needed: a failed seek is ignored, the batch that was
    not processed is behind the position, and the next commit passes it. *)
Theorem failed_seek_skips :
  let c1 := StageExample.after StageExample.stuck (mkConsumer ∅ ∅) in
  turn_of StageExample.stage StageExample.ls 10 StageExample.working c1 =
    Ret (StageExample.after StageExample.working c1, [StageExample.record 2 8]) /\
  offset_at (committed (StageExample.after StageExample.working c1)) StageExample.tp = 3.
Proof. vm_compute. split; reflexivity. Qed.

(** So is the one on messages: dead-lettering an undecodable message commits the
    offset after it at once, with the records before it still unsaved; when saving
    them fails, a restart goes on behind them. *)
Theorem dead_letter_commit_skips :
  let '(_, c, processed) :=
    execution_turn StageExample.execution_ls 10 10 StageExample.failing_execution DLQ_HEADER (mkConsumer ∅ ∅) in
  processed = [] /\ offset_at (position c) StageExample.events = 0 /\
  offset_at (committed c) StageExample.events = 2 /\
  offset_at (position (resume StageExample.events c)) StageExample.events = 2.
Proof. vm_compute. split_and!; reflexivity. Qed.

(** ** Forwarding to the Raft groups *)
Lemma chunks_sizes {A : Type} fuel k (l : list A) : (0 < k)%nat ->
  Forall (fun c => (1 <= length c <= k)%nat) (chunks fuel k l).
Proof.
  intros Hk. revert l. induction fuel as [|f IH]; intros [|x l]; cbn [chunks]; try constructor; [|apply IH].
  rewrite length_take. cbn. lia.
Qed.

Lemma check_forward_ok groups control records : check_forward groups control records = Ret (Ok tt) ->
  Forall (fun r => RouteControlPlane.accepts control (kr_category_id r) = true /\
                   RouteControlPlane.group_for control (kr_category_id r) < groups) records.
Proof.
  induction records as [|r records IH]; cbn [check_forward]; [by constructor|]. case_if; [done|].
  unfold assert_that. case_if; [|done]. intros H. constructor; [|by apply IH]. split; [|done]. by destruct (RouteControlPlane.accepts _ _).
Qed.

Lemma group_batches_join control records g :
  mjoin (group_batches control records g) =
  let mine := filter (fun r => RouteControlPlane.group_for control (kr_category_id r) = g) records in
  c ← btree_keys (kr_category_id <$> mine); category_frames records c.
Proof.
  unfold group_batches. cbv zeta. set (mine := filter _ records).
  assert (forall c, c ∈ btree_keys (kr_category_id <$> mine) -> category_frames mine c = category_frames records c) as Hc.
  { intros c (r & -> & [Hr _]%list_elem_of_filter)%elem_of_btree_keys%list_elem_of_fmap. unfold category_frames, mine.
    f_equal. rewrite list_filter_filter. apply list_filter_iff. intros x. split; [by intros [? _]|]. intros E. by rewrite E. }
  revert Hc. generalize (btree_keys (kr_category_id <$> mine)) as cs. intros cs Hc. induction cs as [|c cs IH]; [done|].
  rewrite !bind_cons, join_app, IH by (intros; apply Hc; set_solver). f_equal. rewrite Hc by set_solver.
  apply chunks_join; lia.
Qed.

(** What is forwarded: nothing when a category of the batch is being migrated or no
    group is configured; otherwise one job per group that has records, its Raft
    batches within the limit the encoder accepts, and together exactly the frames of
    its categories, each category's in the order of the records. *)
Theorem forward_partitions (groups : Z) (control : RouteControlPlane) (replies : Z -> io_result unit)
    (records : list KafkaRecord) (jobs : list (Z * list (list bytes))) (res : io_result unit) :
  submit_forward groups control replies records = Ret (jobs, res) ->
  (forall r, r ∈ records -> RouteControlPlane.accepts control (kr_category_id r) = false -> jobs = [] /\ res <> Ok tt) /\
  (res = Ok tt -> forall r, r ∈ records -> 0 <= RouteControlPlane.group_for control (kr_category_id r) ->
     exists bs, (RouteControlPlane.group_for control (kr_category_id r), bs) ∈ jobs) /\
  (forall g bs, (g, bs) ∈ jobs ->
     Forall (fun b => 1 <= Z.of_nat (length b) <= RAFT_BATCH_MAX_COMMANDS) bs /\
     mjoin bs =
       (let mine := filter (fun r => RouteControlPlane.group_for control (kr_category_id r) = g) records in
        c ← btree_keys (kr_category_id <$> mine); category_frames records c)).
Proof.
  unfold submit_forward, forward_jobs. intros H. destruct (groups =? 0).
  { cbn in H. injection H as <- <-. split_and!; [done..|by intros g bs ?%not_elem_of_nil]. }
  apply obind_ret in H as (js & (ck & Hck & [= <-])%obind_ret & [= H]). destruct ck as [[]|why]; cbn [try_bind] in H.
  2: { injection H as <- <-. split_and!; [done..|by intros g bs ?%not_elem_of_nil]. }
  injection H as <- <-. pose proof (check_forward_ok _ _ _ Hck) as Hok. split_and!.
  - intros r Hr E. destruct (proj1 (Forall_forall _ _) Hok r Hr) as [E' _]. congruence.
  - intros _ r Hr Hg. destruct (proj1 (Forall_forall _ _) Hok r Hr) as [_ Hlt].
    set (g := RouteControlPlane.group_for control (kr_category_id r)) in *.
    exists (group_batches control records g). apply list_elem_of_filter. split; cbn [snd].
    + intros En. pose proof (group_batches_join control records g) as Hj. rewrite En in Hj.
      assert (kr_frame r ∈ (mjoin [] : list bytes)) as Hin; [|by apply not_elem_of_nil in Hin]. rewrite Hj. cbv zeta.
      apply list_elem_of_bind. exists (kr_category_id r). split.
      * apply list_elem_of_fmap_2, list_elem_of_filter. done.
      * apply elem_of_btree_keys, list_elem_of_fmap_2, list_elem_of_filter. done.
    + apply list_elem_of_fmap. exists (Z.to_nat g). rewrite Z2Nat.id by done. split; [done|]. apply elem_of_seq. lia.
  - intros g bs [_ (k & [= -> ->] & _)%list_elem_of_fmap]%list_elem_of_filter. split; [|apply group_batches_join].
    apply Forall_forall. intros b (c & Hb & _)%list_elem_of_bind.
    pose proof (proj1 (Forall_forall _ _) (chunks_sizes _ (Z.to_nat RAFT_BATCH_MAX_COMMANDS) _ ltac:(lia)) b Hb) as Hl. cbn beta in Hl. lia.
Qed.

(** ** The dead-letter file *)
Record letter_ok (l : DeadLetter) : Prop := {
  letter_partition : 0 <= dl_partition l < 2 ^ 31;
  letter_offset : 0 <= dl_offset l < 2 ^ 63;
  letter_size : 28 + Z.of_nat (length (dl_reason l)) + Z.of_nat (length (dl_payload l)) <= U32_MAX
}.

Lemma length_body now l : length (DlqWriter.body now l) = (28 + length (dl_reason l) + length (dl_payload l))%nat.
Proof. unfold DlqWriter.body. rewrite !length_app, !length_le_bytes. lia. Qed.

(** The fields of a record's body. *)
Lemma body_fields now l : letter_ok l ->
  let b := DlqWriter.body now l in
  u32_at 8 b = dl_partition l /\ u64_at 12 b = dl_offset l /\
  u32_at 20 b = Z.of_nat (length (dl_reason l)) /\ slice 24 (length (dl_reason l)) b = dl_reason l /\
  u32_at (24 + length (dl_reason l)) b = Z.of_nat (length (dl_payload l)) /\
  slice (28 + length (dl_reason l)) (length (dl_payload l)) b = dl_payload l.
Proof.
  intros [Hp Ho Hs] b. assert (drop 0 b = b) as H0 by apply drop_0. unfold b at 2, DlqWriter.body in H0.
  pose proof (drop_u64 _ _ _ _ H0) as H8. pose proof (drop_u32 _ _ _ _ H8) as H12. pose proof (drop_u64 _ _ _ _ H12) as H20.
  pose proof (drop_u32 _ _ _ _ H20) as H24. pose proof (drop_here _ _ _ _ H24) as Hr. pose proof (drop_u32 _ _ _ _ Hr) as Hl.
  split_and!.
  - eapply u32_here; [|exact H8]. unfold_width. lia.
  - eapply u64_here; [|exact H12]. unfold_width. lia.
  - eapply u32_here; [|exact H20]. unfold_width. lia.
  - unfold slice. rewrite (H24 : drop 24 b = _). by rewrite take_app_length.
  - eapply u32_here; [|exact Hr]. unfold_width. lia.
  - unfold slice. replace (28 + length (dl_reason l))%nat with (0 + 8 + 4 + 8 + 4 + length (dl_reason l) + 4)%nat by lia.
    rewrite Hl. apply take_ge. done.
Qed.

Lemma read_letter now l rest fuel : letter_ok l ->
  read_letters (S fuel) (DlqWriter.frame now l ++ rest) =
  (let! ls := read_letters fuel rest in Ret (l :: ls)).
Proof.
  intros Hok. destruct (body_fields now l Hok) as (F1 & F2 & F3 & F4 & F5 & F6). pose proof (length_body now l) as Hlen.
  unfold DlqWriter.frame. set (b := DlqWriter.body now l) in *. destruct Hok as [Hp Ho Hs].
  set (buf := (le_bytes 4 (Z.of_nat (length b)) ++ b ++ le_bytes 8 (fnv1a b)) ++ rest).
  assert (drop 0 buf = le_bytes 4 (Z.of_nat (length b)) ++ b ++ le_bytes 8 (fnv1a b) ++ rest) as H0.
  { rewrite drop_0. unfold buf. by rewrite <-!app_assoc. }
  pose proof (drop_u32 _ _ _ _ H0) as H4. pose proof (drop_here _ _ _ _ H4) as Hc. pose proof (drop_u64 _ _ _ _ Hc) as Hr.
  assert (length buf = (4 + length b + 8 + length rest)%nat) as Hbuf.
  { unfold buf. rewrite !length_app, !length_le_bytes. lia. }
  assert (u32_at 0 buf = Z.of_nat (length b)) as Hl by (eapply u32_here; [unfold_width; lia|exact H0]).
  cbn [read_letters]. rewrite (proj2 (Nat.ltb_ge (length buf) 4)) by lia. rewrite Hl, Nat2Z.id. unfold assert_that.
  rewrite (proj2 (Nat.leb_le _ _)) by lia.
  assert (slice 4 (length b) buf = b) as -> by (unfold slice; rewrite (H4 : drop 4 buf = _); apply take_app_length).
  assert (le_value (slice (4 + length b) 8 buf) = fnv1a b) as ->.
  { exact (u64_here buf (0 + 4 + length b) (fnv1a b) rest (fnv1a_u64 b) Hc). }
  rewrite Z.eqb_refl, F1, F2, F3, Nat2Z.id, F4, F5, Nat2Z.id, F6.
  rewrite as_i32_small by exact Hp. rewrite wrap_i64_small by (unfold is_i64; lia).
  rewrite (Hr : drop (4 + length b + 8) buf = _). by destruct l.
Qed.

(** Appends that succeed on a file just created read back as written, in order. *)
Theorem dlq_round_trip (entries : list (Z * DeadLetter)) : Forall (fun e => letter_ok e.2) entries ->
  exists file, DlqWriter.open [] = Ok file /\
    read_dlq (foldl (fun f e => (DlqWriter.append f e.1 e.2 None).1) file entries) = Ret entries.*2.
Proof.
  intros Hok. exists DLQ_HEADER. split; [done|].
  assert (forall f, foldl (fun f e => (DlqWriter.append f e.1 e.2 None).1) f entries =
    f ++ mjoin ((fun e => DlqWriter.frame e.1 e.2) <$> entries)) as Hf.
  { clear Hok. induction entries as [|e es IH]; intros f; [cbn; by rewrite app_nil_r|]. cbn [foldl DlqWriter.append fst].
    rewrite IH, <-app_assoc. done. }
  rewrite Hf. unfold read_dlq, assert_that. rewrite take_app_length', bool_decide_true, drop_app_length' by done.
  assert (forall fuel, (length entries <= fuel)%nat ->
    read_letters fuel (mjoin ((fun e => DlqWriter.frame e.1 e.2) <$> entries)) = Ret entries.*2) as Hr.
  { clear Hf. induction Hok as [|e es He Hok IH]; intros [|fuel] Hfu; cbn in Hfu; try lia; [done..|].
    change (mjoin _) with (DlqWriter.frame e.1 e.2 ++ mjoin ((fun e => DlqWriter.frame e.1 e.2) <$> es)).
    rewrite read_letter, IH by done || lia. done. }
  apply Hr. rewrite length_app. enough (length entries <= length (mjoin ((fun e => DlqWriter.frame e.1 e.2) <$> entries)))%nat by lia.
  clear. induction entries as [|e es IH]; [done|].
  change (mjoin _) with (DlqWriter.frame e.1 e.2 ++ mjoin ((fun e => DlqWriter.frame e.1 e.2) <$> es)). rewrite length_app.
  assert (length (DlqWriter.frame e.1 e.2) >= 4)%nat; [|cbn [length]; lia]. unfold DlqWriter.frame. rewrite length_app, length_le_bytes. lia.
Qed.

(** A write that stopped half way is not undone, neither by the next append nor by
    [open]: the records after it cannot be read. *)
Theorem torn_letter_hides :
  let l := mkLetter 0 5 [110; 111] [1; 2; 3] in
  let torn := (DlqWriter.append DLQ_HEADER 0 l (Some 10%nat)).1 in
  DlqWriter.open torn = Ok torn /\ read_dlq (DlqWriter.append torn 0 l None).1 = Panic "assertion failed".
Proof. lazy. split; reflexivity. Qed.

(** ** Bounded retries *)

(** An attempt that ends the loop once it is the last: a record that was saved, or
    a dead letter that was written. *)
Definition ends (a : Attempt) : bool :=
  match at_persist a, at_torn a with Ok _, _ => true | _, None => true | _, _ => false end.

Lemma retry_step max attempt file p o payload reason attempts out file' :
  persist_with_retry max attempt file p o payload reason attempts = Some (out, file') ->
  match out with
  | Committed => exists a, a ∈ attempts /\ at_persist a = Ok tt
  | DeadLettered => exists before now error, file' = before ++ DlqWriter.frame now (mkLetter p o (reason error) payload)
  end.
Proof.
  revert attempt file. induction attempts as [|a attempts IH]; intros attempt file; cbn [persist_with_retry]; [done|].
  assert (forall attempt file, persist_with_retry max attempt file p o payload reason attempts = Some (out, file') ->
    match out with
    | Committed => exists x, x ∈ a :: attempts /\ at_persist x = Ok tt
    | DeadLettered => exists before now error, file' = before ++ DlqWriter.frame now (mkLetter p o (reason error) payload)
    end) as Hrest.
  { intros attempt' file1 H. specialize (IH attempt' file1 H). destruct out; [|done]. destruct IH as (x & Hx & Ex).
    exists x. set_solver. }
  destruct (at_persist a) as [[]|error] eqn:E; [intros [= <- <-]; exists a; set_solver|].
  case_if; [|apply Hrest]. unfold DlqWriter.append. destruct (at_torn a); [apply Hrest|].
  intros [= <- <-]. eauto.
Qed.

Lemma retry_ends max attempt file p o payload reason attempts : 1 <= attempt -> max <= U32_MAX ->
  (exists i a, attempts !! i = Some a /\ ends a = true /\ max <= attempt + Z.of_nat i) ->
  is_Some (persist_with_retry max attempt file p o payload reason attempts).
Proof.
  intros Ha Hm. revert attempt file Ha. induction attempts as [|x attempts IH]; intros attempt file Ha (i & a & Hi & He & Hle);
    [done|]. cbn [persist_with_retry]. destruct (at_persist x) as [u|error] eqn:Ex; [by eexists|]. destruct (max <=? attempt) eqn:Em; zbool.
  - unfold DlqWriter.append. destruct (at_torn x) as [k|] eqn:Et; [|by eexists]. apply IH; [done|].
    destruct i as [|i]; [injection Hi as ->; unfold ends in He; by rewrite Ex, Et in He|]. exists i, a. split_and!; [done..|lia].
  - rewrite wrap32_small by (unfold_width; lia). apply IH; [lia|].
    destruct i as [|i]; [cbn in Hle; lia|]. exists i, a. split_and!; [done..|lia].
Qed.

(** A record is either saved or in the dead-letter file when the loop ends, and it
    ends: at the first attempt, from the [max_retries]-th on, that saves the record
    or writes the letter. *)
Theorem retry_saves_or_buries (max_retries : Z) (file : bytes) (p o : Z) (payload : bytes) (reason : string -> bytes)
    (attempts : list Attempt) (i : nat) (a : Attempt) : max_retries <= U32_MAX ->
  attempts !! i = Some a -> ends a = true -> max_retries <= 1 + Z.of_nat i ->
  exists out file', persist_with_retry max_retries 1 file p o payload reason attempts = Some (out, file') /\
    match out with
    | Committed => exists a, a ∈ attempts /\ at_persist a = Ok tt
    | DeadLettered => exists before now error, file' = before ++ DlqWriter.frame now (mkLetter p o (reason error) payload)
    end.
Proof.
  intros Hm Hi He Hle. destruct (retry_ends max_retries 1 file p o payload reason attempts ltac:(lia) Hm) as [[out file'] H]; [by exists i, a|].
  exists out, file'. split; [done|]. by apply retry_step in H.
Qed.

(** ** Routed commands *)

(** The record a command is sent as to the routed topic is the record the database
    stage accepts there, and the partition belongs to the database of its order. *)
Theorem routed_command_accepted (routing : RouteConfig) (partitions category_size : Z) (record : KafkaRecord)
    (topic : string) (offset : Z) (command : Command) :
  config_ok routing -> db_count routing <= partitions < 2 ^ 31 -> is_u64 (kr_user record) -> is_u32 (rc_route_version routing) ->
  length (kr_frame record) = MSG_LEN -> decode_frame (kr_frame record) = Some command ->
  exists p key payload route, route_command_db routing partitions record = Ret (p, key, payload) /\
    RouteConfig.route_order_id routing (database_order_id command) = Ret route /\ p mod db_count routing = sh_db route /\
    decode_db_kafka_record category_size routing partitions (mkMessage (topic, p) offset (Some payload)) =
      Ret (Ok (mkKafkaRecord topic p offset (asset_category (Command.instrument command) category_size) (kr_user record)
                 (kr_frame record))).
Proof.
  intros Hc Hp Hu Hv Hl Hd. pose proof Hc as (Hdb & _).
  destruct (route_full_ok routing Hc (database_order_id command)) as (v & local & db & table & Hr & _ & _ & _ & Hdbr & _).
  destruct (execution_partition_ok routing (database_order_id command) v (v * (virtual_table_count routing / virtual_db_count routing) + local)
    db table partitions) as (p & Ep & Hpr & Hpm); [lia|unfold_width; lia|done|done|].
  exists p. do 3 eexists. unfold route_command_db, assert_that. rewrite wrap32_small by (unfold_width; lia).
  rewrite (proj2 (Z.leb_le _ _)) by lia. rewrite Hd. cbn [expect obind]. rewrite Ep. cbn [obind].
  split_and!; [done|unfold RouteConfig.route_order_id; by rewrite Hr|done|].
  unfold decode_db_kafka_record. cbn [m_payload].
  destruct (envelope_round_trip (kr_user record) (rc_route_version routing) (kr_frame record) [] (mkEnvelope 0 0 []) Hu Hv Hl) as (-> & _);
    [by constructor|]. cbn [e_route_version e_frame e_user]. rewrite Z.eqb_refl. cbn [negb]. rewrite Hd, Ep. cbn [obind m_tp snd fst].
  rewrite as_i32_small by lia. by rewrite Z.eqb_refl.
Qed.

(** ** Assignment of partitions to the workers of a process *)

(** The partitions that make whole lanes over the databases. *)
Definition usable_partitions (partitions db_count : Z) : Z := partitions / db_count * db_count.

(** The partitions worker [worker] of [consumers] reads: the owned ones, dealt in turn. *)
Definition assigned (owned : gset Z) (partitions db_count : Z) (consumers worker : nat) : list Z :=
  let ps := filter (fun p => p mod db_count ∈ owned) (Z.of_nat <$> seq 0 (Z.to_nat (usable_partitions partitions db_count))) in
  (imap pair ps ≫= fun ip => if (ip.1 mod Nat.max consumers 1 =? worker)%nat then [ip.2] else []).

Lemma elem_of_assigned owned partitions dbs consumers w p : p ∈ assigned owned partitions dbs consumers w <->
  exists i, filter (fun p => p mod dbs ∈ owned) (Z.of_nat <$> seq 0 (Z.to_nat (usable_partitions partitions dbs))) !! i = Some p /\
    (i mod Nat.max consumers 1 = w)%nat.
Proof.
  unfold assigned. cbv zeta. set (ps := filter _ _). rewrite list_elem_of_bind. split.
  - intros ([i q] & Hp & (j & Hj)%list_elem_of_lookup). rewrite list_lookup_imap in Hj.
    destruct (ps !! j) as [q'|] eqn:E; [|done]. injection Hj as -> ->. cbn [fst snd] in Hp.
    destruct (Nat.eqb_spec (i mod Nat.max consumers 1) w); [|by apply not_elem_of_nil in Hp].
    apply list_elem_of_singleton in Hp as ->. eauto.
  - intros (i & Hi & Hw). exists (i, p). cbn [fst snd]. rewrite (proj2 (Nat.eqb_eq _ _)) by done. split; [set_solver|].
    apply list_elem_of_lookup. exists i. by rewrite list_lookup_imap, Hi.
Qed.

(** The events of an order whose database this process owns are read by exactly one
    of its workers. *)
Theorem order_read_by_one_worker (routing : RouteConfig) (order_id : OrderId) (owned : gset Z) (partitions : Z) (consumers : nat)
    (route : ShardRoute) :
  config_ok routing -> db_count routing <= partitions <= U32_MAX -> (0 < consumers)%nat ->
  RouteConfig.route_order_id routing order_id = Ret route -> sh_db route ∈ owned ->
  exists p w, RouteConfig.execution_partition routing order_id partitions = Ret p /\ (w < consumers)%nat /\
    p ∈ assigned owned partitions (db_count routing) consumers w /\
    forall w', p ∈ assigned owned partitions (db_count routing) consumers w' -> w' = w.
Proof.
  intros Hc Hp Hcons Hr Ho. pose proof Hc as (Hdb & _).
  destruct (route_full_ok routing Hc order_id) as (v & local & db & table & Hf & _ & _ & Hvt & Hdbr & _).
  unfold RouteConfig.route_order_id in Hr. rewrite Hf in Hr. injection Hr as <-. cbn in Ho.
  set (vt := v * (virtual_table_count routing / virtual_db_count routing) + local) in *.
  set (lanes := Z.max (partitions / db_count routing) 1). set (n := db_count routing) in *.
  assert (1 <= partitions / n) as Hlanes by (apply Z.div_le_lower_bound; lia).
  assert (0 <= vt mod lanes < partitions / n) as Hlane by (pose proof (Z.mod_pos_bound vt lanes ltac:(lia)); lia).
  pose proof (Z.mul_div_le partitions n ltac:(lia)) as Hle. unfold_width.
  assert (RouteConfig.execution_partition routing order_id partitions = Ret (db + vt mod lanes * n)) as Ep.
  { unfold RouteConfig.execution_partition, assert_that. fold n. rewrite wrap32_small by (unfold_width; lia).
    rewrite (proj2 (Z.leb_le _ _)) by lia. rewrite Hf. cbn [obind cr_virtual_table cr_physical sh_db]. fold lanes.
    rewrite (wrap64_small (vt mod lanes * n)) by (unfold is_u64; nia). rewrite wrap64_small by (unfold is_u64; nia).
    rewrite wrap32_small by (unfold is_u32; nia). done. }
  set (p := db + vt mod lanes * n) in *. set (ps := filter (fun p => p mod n ∈ owned) (Z.of_nat <$> seq 0 (Z.to_nat (usable_partitions partitions n)))).
  assert (NoDup ps) as Hnd by (apply NoDup_filter; apply NoDup_fmap_2; [apply _|apply NoDup_seq]).
  assert (p ∈ ps) as (i & Hi)%list_elem_of_lookup.
  { apply list_elem_of_filter. split; [unfold p; rewrite Z.mod_add by lia; rewrite Z.mod_small by lia; done|].
    apply list_elem_of_fmap. exists (Z.to_nat p). split; [unfold p; rewrite Z2Nat.id; nia|].
    apply elem_of_seq. unfold usable_partitions, p. nia. }
  exists p, (i mod Nat.max consumers 1)%nat. split; [done|]. split; [pose proof (Nat.mod_upper_bound i (Nat.max consumers 1)); lia|]. split.
  - apply elem_of_assigned. eauto.
  - intros w' (j & Hj & <-)%elem_of_assigned. by rewrite (NoDup_lookup _ _ _ _ Hnd Hi Hj).
Qed.
