(* ===== verification/Ingress.v ===== *)
(** * Admission of the order service

    The HTTP side of [src/src/bin/order_api.rs]: the count of commands waiting for
    Kafka and its limit ([OrderPipelineMetrics]), the tiers of backpressure per
    category ([Backpressure]), the admission and publication of one command and of a
    batch ([KafkaIngress]), the decoding of a batch and of query strings, and the
    administration of a route migration.

    What Kafka answers to a send is an argument, and so is what a matching node
    answers to an HTTP query.  Latency counters and their rendering are left out. *)

From S2P Require Import Prelude Types Protocol Bytes Text Wire Sharding Queue Cluster Migration.

(** ** Commands in flight *)
Record Pipeline := mkPipeline {
  inflight_publish_commands : Z;
  published_commands : Z;
  mysql_completed_commands : Z;
  match_completed_commands : Z;
  backpressure_rejections : Z;
  observed_mysql_lag : Z;
  observed_match_lag : Z
}.

Module Pipeline.

Definition new : Pipeline := mkPipeline 0 0 0 0 0 0 0.

Definition set_inflight (n : Z) (m : Pipeline) : Pipeline :=
  mkPipeline n (published_commands m) (mysql_completed_commands m) (match_completed_commands m)
    (backpressure_rejections m) (observed_mysql_lag m) (observed_match_lag m).

Definition count_rejections (commands : Z) (m : Pipeline) : Pipeline :=
  mkPipeline (inflight_publish_commands m) (published_commands m) (mysql_completed_commands m)
    (match_completed_commands m) (wrap64 (backpressure_rejections m + commands)) (observed_mysql_lag m) (observed_match_lag m).

Definition count_published (commands : Z) (m : Pipeline) : Pipeline :=
  mkPipeline (inflight_publish_commands m) (wrap64 (published_commands m + commands)) (mysql_completed_commands m)
    (match_completed_commands m) (backpressure_rejections m) (observed_mysql_lag m) (observed_match_lag m).

(** The backlog computed from loaded values. *)
Definition backlog_of (inflight mysql matcher : Z) : Z := saturating_add U64_MAX inflight (Z.max mysql matcher).

Definition backlog (m : Pipeline) : Z :=
  backlog_of (inflight_publish_commands m) (observed_mysql_lag m) (observed_match_lag m).

(** [try_reserve] when no other thread intervenes. *)
Definition try_reserve (commands max_backlog : Z) (m : Pipeline) : Pipeline * (unit + Z) :=
  if max_backlog <? saturating_add U64_MAX (backlog m) commands then (count_rejections commands m, inr (backlog m))
  else (set_inflight (saturating_add U64_MAX (inflight_publish_commands m) commands) m, inl tt).

Definition rollback_reservation (commands : Z) (m : Pipeline) : Pipeline :=
  set_inflight (wrap64 (inflight_publish_commands m - commands)) m.

Definition finish_reservation (reserved published : Z) (m : Pipeline) : Pipeline :=
  count_published published (set_inflight (wrap64 (inflight_publish_commands m - reserved)) m).

Inductive StageName := Mysql | Match | OtherStage.

Definition complete (stage : StageName) (commands : Z) (m : Pipeline) : Pipeline :=
  match stage with
  | Mysql => mkPipeline (inflight_publish_commands m) (published_commands m) (wrap64 (mysql_completed_commands m + commands))
               (match_completed_commands m) (backpressure_rejections m) (observed_mysql_lag m) (observed_match_lag m)
  | Match => mkPipeline (inflight_publish_commands m) (published_commands m) (mysql_completed_commands m)
               (wrap64 (match_completed_commands m + commands)) (backpressure_rejections m) (observed_mysql_lag m) (observed_match_lag m)
  | OtherStage => m
  end.

Definition set_observed_lag (stage : StageName) (lag : Z) (m : Pipeline) : Pipeline :=
  match stage with
  | Mysql => mkPipeline (inflight_publish_commands m) (published_commands m) (mysql_completed_commands m)
               (match_completed_commands m) (backpressure_rejections m) lag (observed_match_lag m)
  | Match => mkPipeline (inflight_publish_commands m) (published_commands m) (mysql_completed_commands m)
               (match_completed_commands m) (backpressure_rejections m) (observed_mysql_lag m) lag
  | OtherStage => m
  end.

End Pipeline.

(** ** Concurrent reservations

    One step per atomic access of [try_reserve]'s loop; a failed exchange, spurious
    or not, goes back to the load. *)
Inductive Publisher :=
| PIdle
| PLoaded (commands inflight : Z)
| PSawMysql (commands inflight mysql : Z)
| PSawMatch (commands inflight mysql matcher : Z)
| PHolding (commands : Z).

Inductive PublisherEvent :=
| EvLoad (i : nat) (commands : Z)
| EvMysqlLag (i : nat)
| EvMatchLag (i : nat)
| EvExchange (i : nat) (spurious : bool)
| EvFinish (i : nat) (published : Z)
| EvRollback (i : nat)
| EvLag (stage : Pipeline.StageName) (lag : Z).

Definition Publishers : Type := Pipeline * list Publisher.

(** [None] when the thread is not at that access. *)
Definition publisher_step (max_backlog : Z) (s : Publishers) (e : PublisherEvent) : option Publishers :=
  let '(m, ts) := s in
  match e with
  | EvLoad i commands =>
      match ts !! i with
      | Some PIdle => Some (m, <[i := PLoaded commands (inflight_publish_commands m)]> ts)
      | _ => None
      end
  | EvMysqlLag i =>
      match ts !! i with
      | Some (PLoaded k v) => Some (m, <[i := PSawMysql k v (observed_mysql_lag m)]> ts)
      | _ => None
      end
  | EvMatchLag i =>
      match ts !! i with
      | Some (PSawMysql k v a) => Some (m, <[i := PSawMatch k v a (observed_match_lag m)]> ts)
      | _ => None
      end
  | EvExchange i spurious =>
      match ts !! i with
      | Some (PSawMatch k v a b) =>
          if max_backlog <? saturating_add U64_MAX (Pipeline.backlog_of v a b) k then
            Some (Pipeline.count_rejections k m, <[i := PIdle]> ts)
          else if negb spurious && (inflight_publish_commands m =? v) then
            Some (Pipeline.set_inflight (saturating_add U64_MAX v k) m, <[i := PHolding k]> ts)
          else Some (m, <[i := PLoaded k (inflight_publish_commands m)]> ts)
      | _ => None
      end
  | EvFinish i published =>
      match ts !! i with
      | Some (PHolding k) => Some (Pipeline.finish_reservation k published m, <[i := PIdle]> ts)
      | _ => None
      end
  | EvRollback i =>
      match ts !! i with
      | Some (PHolding k) => Some (Pipeline.rollback_reservation k m, <[i := PIdle]> ts)
      | _ => None
      end
  | EvLag stage lag => Some (Pipeline.set_observed_lag stage lag m, ts)
  end.

Fixpoint publisher_run (max_backlog : Z) (s : Publishers) (es : list PublisherEvent) : option Publishers :=
  match es with
  | [] => Some s
  | e :: es => s' ← publisher_step max_backlog s e; publisher_run max_backlog s' es
  end.

(** ** Backpressure *)
Inductive BackpressureTier := Normal | Soft | Hard | Emergency.

Record Backpressure := mkBackpressure {
  soft : Z;
  hard : Z;
  emergency : Z;
  bp_topic_count : Z;
  bp_partitions_per_topic : Z;
  bp_raft_group_count : Z;
  raft_group_pins : gmap Z Z;
  mysql_lag : list Z;
  match_lag : list Z;
  group_flags : list bool;
  soft_events : Z;
  hard_events : Z;
  emergency_events : Z
}.

Module Backpressure.

(** [from_env], given the three configured limits. *)
Definition from_env (soft hard emergency : Z) (topic_count : nat) (partitions_per_topic raft_group_count : Z)
    (pins : gmap Z Z) : Backpressure :=
  let soft := Z.max soft 1 in
  let hard := Z.max hard soft in
  let emergency := Z.max emergency hard in
  let partitions := Z.to_nat (Z.of_nat topic_count * partitions_per_topic) in
  mkBackpressure soft hard emergency (wrap32 (Z.max (Z.of_nat topic_count) 1)) (Z.max partitions_per_topic 1)
    (Z.max raft_group_count 1) pins (replicate partitions 0) (replicate partitions 0)
    (replicate (Z.to_nat (Z.max raft_group_count 1)) false) 0 0 0.

Definition classify (b : Backpressure) (lag : Z) (quorum_lost : bool) : BackpressureTier :=
  if quorum_lost || (emergency b <=? lag) then Emergency
  else if hard b <=? lag then Hard
  else if soft b <=? lag then Soft
  else Normal.

Definition partition_index (b : Backpressure) (category_id : Z) : Z :=
  let topic := category_id mod bp_topic_count b in
  let partition := (category_id / bp_topic_count b) mod bp_partitions_per_topic b in
  wrap64 (wrap64 (topic * bp_partitions_per_topic b) + partition).

Definition raft_group (b : Backpressure) (category_id : Z) : outcome Z :=
  raft_group_for_category_pinned category_id (bp_raft_group_count b) (raft_group_pins b).

Definition partition_lag (b : Backpressure) (index : Z) : Z :=
  Z.max (default 0 (mysql_lag b !! Z.to_nat index)) (default 0 (match_lag b !! Z.to_nat index)).

(** The slots the lags reach, the others as they were. *)
Definition store_lags (slots lags : list Z) : list Z := take (length slots) lags ++ drop (length lags) slots.

Definition set_partition_lags (stage : Pipeline.StageName) (lags : list Z) (b : Backpressure) : Backpressure :=
  let with_lags m1 m2 :=
    mkBackpressure (soft b) (hard b) (emergency b) (bp_topic_count b) (bp_partitions_per_topic b) (bp_raft_group_count b)
      (raft_group_pins b) m1 m2 (group_flags b) (soft_events b) (hard_events b) (emergency_events b) in
  match stage with
  | Pipeline.Mysql => with_lags (store_lags (mysql_lag b) lags) (match_lag b)
  | Pipeline.Match => with_lags (mysql_lag b) (store_lags (match_lag b) lags)
  | Pipeline.OtherStage => b
  end.

Definition set_group_health (group : Z) (healthy : bool) (b : Backpressure) : Backpressure :=
  mkBackpressure (soft b) (hard b) (emergency b) (bp_topic_count b) (bp_partitions_per_topic b) (bp_raft_group_count b)
    (raft_group_pins b) (mysql_lag b) (match_lag b) (<[Z.to_nat group := negb healthy]> (group_flags b))
    (soft_events b) (hard_events b) (emergency_events b).

Definition group_unhealthy (b : Backpressure) (group : Z) : bool := default false (group_flags b !! Z.to_nat group).

Definition tier_for_category (b : Backpressure) (category_id : Z) : outcome BackpressureTier :=
  let lag := partition_lag b (partition_index b category_id) in
  let! group := raft_group b category_id in
  Ret (classify b lag (group_unhealthy b group)).

Definition note (tier : BackpressureTier) (b : Backpressure) : Backpressure :=
  let counted s h e :=
    mkBackpressure (soft b) (hard b) (emergency b) (bp_topic_count b) (bp_partitions_per_topic b) (bp_raft_group_count b)
      (raft_group_pins b) (mysql_lag b) (match_lag b) (group_flags b) (wrap64 (soft_events b + s)) (wrap64 (hard_events b + h))
      (wrap64 (emergency_events b + e)) in
  match tier with
  | Soft => counted 1 0 0
  | Hard => counted 0 1 0
  | Emergency => counted 0 0 1
  | Normal => b
  end.

(** The soft tier's delay changes nothing else. *)
Definition admit_category (b : Backpressure) (category_id : Z) : outcome (Backpressure * io_result unit) :=
  let! tier := tier_for_category b category_id in
  Ret (note tier b,
       match tier with
       | Normal | Soft => Ok tt
       | Hard => Err "backpressure: category throttled at hard limit"
       | Emergency => Err "backpressure-emergency: category writes stopped (lag/quorum)"
       end).

Definition max_partition_lag (b : Backpressure) : Z :=
  foldr Z.max 0 ((fun i => partition_lag b (Z.of_nat i)) <$> seq 0 (length (mysql_lag b))).

Definition unhealthy_groups (b : Backpressure) : Z := Z.of_nat (length (filter (fun f => f = true) (group_flags b))).

End Backpressure.

Definition ingress_error_status (error : string) : string :=
  if starts_with (lit "backpressure-emergency:") (lit error) then "503 Service Unavailable"
  else if starts_with (lit "backpressure:") (lit error) then "429 Too Many Requests"
  else "503 Service Unavailable".

(** ** Publishing *)
Record KafkaIngress := mkIngress {
  ki_router : QueueRouter;
  ki_control : RouteControlPlane;
  ki_max_pipeline_backlog : Z;
  ki_metrics : Pipeline;
  ki_backpressure : Backpressure
}.

Record BatchRecord := mkBatchRecord { br_category_id : Z; br_user : UserId; br_frame : bytes }.

(** A record handed to the producer: its route, its key and its payload. *)
Definition Sent : Type := QueueRoute * bytes * bytes.

Record CategorySequence := mkSequence { cs_category_id : Z; cs_category_seq : Z }.

Module KafkaIngress.

Definition with_metrics (m : Pipeline) (k : KafkaIngress) : KafkaIngress :=
  mkIngress (ki_router k) (ki_control k) (ki_max_pipeline_backlog k) m (ki_backpressure k).

Definition with_backpressure (b : Backpressure) (k : KafkaIngress) : KafkaIngress :=
  mkIngress (ki_router k) (ki_control k) (ki_max_pipeline_backlog k) (ki_metrics k) b.

Definition reserve (commands : Z) (k : KafkaIngress) : KafkaIngress * io_result unit :=
  let '(m, r) := Pipeline.try_reserve commands (ki_max_pipeline_backlog k) (ki_metrics k) in
  (with_metrics m k, match r with inl _ => Ok tt | inr _ => Err "backpressure: pipeline backlog reached limit" end).

(** The order of tiers, and of pairs of a tier and a category. *)
Definition rank (t : BackpressureTier) : Z := match t with Normal => 0 | Soft => 1 | Hard => 2 | Emergency => 3 end.

Definition at_least (a b : BackpressureTier * Z) : bool :=
  (rank b.1 <? rank a.1) || ((rank a.1 =? rank b.1) && (b.2 <=? a.2)).

(** [Iterator::max]: the last of the greatest. *)
Definition worst (l : list (BackpressureTier * Z)) : option (BackpressureTier * Z) :=
  foldl (fun best x => match best with None => Some x | Some b => if at_least x b then Some x else Some b end) None l.

Fixpoint tiers (b : Backpressure) (records : list BatchRecord) : outcome (list (BackpressureTier * Z)) :=
  match records with
  | [] => Ret []
  | r :: records =>
      let! t := Backpressure.tier_for_category b (br_category_id r) in
      let! rest := tiers b records in
      Ret ((t, br_category_id r) :: rest)
  end.

Definition admit_batch (records : list BatchRecord) (k : KafkaIngress) : outcome (KafkaIngress * io_result unit) :=
  if existsb (fun r => negb (RouteControlPlane.accepts (ki_control k) (br_category_id r))) records then
    Ret (k, Err "backpressure-emergency: category is frozen for route migration")
  else
    let! ts := tiers (ki_backpressure k) records in
    match worst ts with
    | None => Ret (k, Ok tt)
    | Some (_, category) =>
        let! r := Backpressure.admit_category (ki_backpressure k) category in
        Ret (with_backpressure r.1 k, r.2)
    end.

(** What is sent for one command. *)
Definition prepare (category_id : Z) (user : UserId) (frame : bytes) (k : KafkaIngress) : outcome Sent :=
  let! route := QueueRouter.route (ki_router k) category_id in
  Ret (route, rev (le_bytes 4 category_id), encode_envelope user (q_version route) frame).

(** [delivery]: the offset Kafka assigned, or its error. *)
Definition publish (category_id : Z) (user : UserId) (frame : bytes) (delivery : io_result Z) (k : KafkaIngress)
    : outcome (KafkaIngress * list Sent * io_result CategorySequence) :=
  if negb (RouteControlPlane.accepts (ki_control k) category_id) then
    Ret (k, [], Err "backpressure-emergency: category is frozen for route migration")
  else
    let! a := Backpressure.admit_category (ki_backpressure k) category_id in
    let k := with_backpressure a.1 k in
    match a.2 with
    | Err why => Ret (k, [], Err why)
    | Ok _ =>
        match reserve 1 k with
        | (k, Err why) => Ret (k, [], Err why)
        | (k, Ok _) =>
            let! sent := prepare category_id user frame k in
            Ret match delivery with
                | Err why => (with_metrics (Pipeline.rollback_reservation 1 (ki_metrics k)) k, [sent], Err why)
                | Ok offset =>
                    (with_metrics (Pipeline.finish_reservation 1 1 (ki_metrics k)) k, [sent],
                     Ok (mkSequence category_id (saturating_add U64_MAX (wrap64 offset) 1)))
                end
        end
    end.

Fixpoint prepare_all (records : list BatchRecord) (k : KafkaIngress) : outcome (list Sent) :=
  match records with
  | [] => Ret []
  | r :: records =>
      let! sent := prepare (br_category_id r) (br_user r) (br_frame r) k in
      let! rest := prepare_all records k in
      Ret (sent :: rest)
  end.

(** [deliveries]: Kafka's answers, one per record. *)
Definition publish_batch (records : list BatchRecord) (deliveries : list (io_result Z)) (k : KafkaIngress)
    : outcome (KafkaIngress * list Sent * io_result unit) :=
  let! a := admit_batch records k in
  match a.2 with
  | Err why => Ret (a.1, [], Err why)
  | Ok _ =>
      let n := Z.of_nat (length records) in
      match reserve n a.1 with
      | (k, Err why) => Ret (k, [], Err why)
      | (k, Ok _) =>
          let! sent := prepare_all records k in
          let errors := omap (fun d => match d with Err why => Some why | Ok _ => None end) deliveries in
          let failed := Z.of_nat (length errors) in
          let k := with_metrics (Pipeline.finish_reservation n (wrap64 (n - failed)) (ki_metrics k)) k in
          Ret (k, sent, match errors with [] => Ok tt | why :: _ => Err why end)
      end
  end.

End KafkaIngress.

(** ** Bodies and query strings *)
Abbreviation BATCH_RECORD_LEN := 48%nat.

Fixpoint decode_records (category_size : Z) (chunks : list bytes) : io_result (list BatchRecord) :=
  match chunks with
  | [] => Ok []
  | chunk :: chunks =>
      let user := u64_at 0 chunk in
      let frame := drop 8 chunk in
      match decode_frame frame with
      | None => Err "batch contains an invalid command frame"
      | Some command =>
          let mismatch := match command with CNew order => negb (o_user order =? user) | _ => false end in
          if mismatch then Err "batch user does not match order user"
          else
            let? rest := decode_records category_size chunks in
            Ok (mkBatchRecord (asset_category (Command.instrument command) category_size) user frame :: rest)
      end
  end.

Definition decode_batch (body : bytes) (category_size : Z) : io_result (list BatchRecord) :=
  if bool_decide (body = []) || negb (length body mod BATCH_RECORD_LEN =? 0)%nat then
    Err "batch body must contain one or more records"
  else decode_records category_size (chunks_exact (length body) BATCH_RECORD_LEN body).

Definition query_param (query key : text) : option text :=
  head (omap (fun part => kv ← split_once (lit "=") part; if bool_decide (kv.1 = key) then Some kv.2 else None)
          (split_on 38 query)).

(** [required] for an unsigned integer of the given width. *)
Definition required (max : Z) (query key : text) : io_result Z :=
  match query_param query key with
  | None => Err "missing parameter"
  | Some v => match parse_uint max v with Some n => Ok n | None => Err "invalid parameter" end
  end.

Definition order_from_query (query : text) : io_result Order :=
  let? side :=
    match query_param query (lit "side") with
    | Some v => if bool_decide (v = lit "buy") then Ok Buy
                else if bool_decide (v = lit "sell") then Ok Sell
                else Err "side must be buy or sell"
    | None => Err "side must be buy or sell"
    end in
  let? id := required U64_MAX query (lit "order_id") in
  let? price := required U64_MAX query (lit "price") in
  let? qty := required U64_MAX query (lit "qty") in
  let? instrument := required U32_MAX query (lit "instrument") in
  let? user := required U64_MAX query (lit "user") in
  Ok (Order.by_user (Order.on (Order.limit id side price qty) instrument) user).

Definition cancel_from_query (query : text) : io_result (InstrumentId * OrderId * Z * UserId) :=
  let? instrument := required U32_MAX query (lit "instrument") in
  let? id := required U64_MAX query (lit "order_id") in
  let? cmd := required U64_MAX query (lit "cmd_id") in
  let? user := required U64_MAX query (lit "user") in
  Ok (instrument, id, cmd, user).

(** ** Administration of a migration *)

(** [http addr path] is what the node at [addr] answers, or the error of the connection. *)
Definition freeze_migration_inner (http : text -> text -> io_result text) (control : RouteControlPlane) (endpoints : gmap Z text)
    (category : Z) (query : text) : RouteControlPlane * io_result Z :=
  match RouteControlPlane.active control category with
  | None => (control, Err "category migration is not active")
  | Some migration =>
      let index :=
        match query_param query (lit "raft_index") with
        | Some _ => required U64_MAX query (lit "raft_index")
        | None =>
            match endpoints !! from_group migration with
            | None => Err "no endpoint for source group; supply raft_index explicitly"
            | Some addr => let? raw := http addr (lit "/applied-index") in fetch_applied_index raw
            end
        end in
      match index with
      | Err why => (control, Err why)
      | Ok index =>
          let '(control, r) := RouteControlPlane.frozen control category index in
          (control, let? _ := r in Ok index)
      end
  end.

(** Who vouches for the fingerprints. *)
Inductive VerifiedBy := ByCaller | ByNodes (fp : CategoryFingerprint).

Definition fetch_fingerprint (http : text -> text -> io_result text) (addr : text) (category : Z)
    : io_result CategoryFingerprint :=
  let? raw := http addr (fingerprint_path category) in
  let? fp := fetch_category_fingerprint raw in
  match fp with Some fp => Ok fp | None => Err "group node has no durable snapshot yet; retry" end.

Definition verify_caught_up_inner (http : text -> text -> io_result text) (control : RouteControlPlane) (endpoints : gmap Z text)
    (category : Z) (query : text) : RouteControlPlane * io_result VerifiedBy :=
  match RouteControlPlane.active control category with
  | None => (control, Err "category migration is not active")
  | Some migration =>
      match endpoints !! from_group migration, endpoints !! to_group migration with
      | Some source_addr, Some target_addr =>
          match (let? source := fetch_fingerprint http source_addr category in
                 let? target := fetch_fingerprint http target_addr category in
                 verify_cutover (frozen_index migration) source target) with
          | Err why => (control, Err why)
          | Ok verified =>
              let '(control, r) :=
                RouteControlPlane.caught_up control category (fp_index verified) (fp_value verified) (fp_value verified) in
              (control, let? _ := r in Ok (ByNodes verified))
          end
      | _, _ =>
          match (let? index := required U64_MAX query (lit "raft_index") in
                 let? source := required U64_MAX query (lit "source_fingerprint") in
                 let? target := required U64_MAX query (lit "target_fingerprint") in
                 Ok (index, source, target)) with
          | Err why => (control, Err why)
          | Ok (index, source, target) =>
              let '(control, r) := RouteControlPlane.caught_up control category index source target in
              (control, let? _ := r in Ok ByCaller)
          end
      end
  end.

(** * Correctness *)

(** ** Reservations *)
Definition held (t : Publisher) : Z := match t with PHolding k => k | _ => 0 end.

(** The threads carry non-negative numbers. *)
Definition thread_ok (t : Publisher) : Prop :=
  match t with
  | PIdle => True
  | PLoaded k v => 0 <= k /\ 0 <= v
  | PSawMysql k v a => 0 <= k /\ 0 <= v /\ 0 <= a
  | PSawMatch k v a b => 0 <= k /\ 0 <= v /\ 0 <= a /\ 0 <= b
  | PHolding k => 0 <= k
  end.

Record publishers_ok (max_backlog : Z) (s : Publishers) : Prop := {
  ok_threads : Forall thread_ok s.2;
  ok_lags : 0 <= observed_mysql_lag s.1 /\ 0 <= observed_match_lag s.1;
  ok_sum : inflight_publish_commands s.1 = sumZ held s.2;
  ok_bound : inflight_publish_commands s.1 <= max_backlog
}.

Definition event_ok (e : PublisherEvent) : Prop :=
  match e with EvLoad _ k => 0 <= k | EvLag _ lag => 0 <= lag | _ => True end.

Lemma held_nonneg ts : Forall thread_ok ts -> 0 <= sumZ held ts.
Proof. intros H. apply sumZ_nonneg. eapply Forall_impl; [exact H|]. intros []; cbn; lia. Qed.

Lemma holding_bound ts i k : Forall thread_ok ts -> ts !! i = Some (PHolding k) -> k <= sumZ held ts.
Proof.
  intros H Hi. pose proof (sumZ_insert held ts i (PHolding k) PIdle Hi) as E. cbn [held] in E.
  assert (0 <= sumZ held (<[i := PIdle]> ts)); [|lia]. apply held_nonneg. by apply Forall_insert.
Qed.

(** A step that leaves the counters: the thread is not and does not become a holder. *)
Lemma move_ok max m ts i t t' : publishers_ok max (m, ts) -> ts !! i = Some t -> held t = 0 -> held t' = 0 -> thread_ok t' ->
  publishers_ok max (m, <[i := t']> ts).
Proof.
  intros [Ht Hl Hs Hb] Hi H1 H2 Hok. split; cbn [fst snd] in *; [by apply Forall_insert|done| |done].
  rewrite (sumZ_insert held ts i t t' Hi). lia.
Qed.

(** A holder leaves. *)
Lemma release_ok max m m' ts i k : publishers_ok max (m, ts) -> max <= U64_MAX -> ts !! i = Some (PHolding k) ->
  inflight_publish_commands m' = wrap64 (inflight_publish_commands m - k) ->
  observed_mysql_lag m' = observed_mysql_lag m -> observed_match_lag m' = observed_match_lag m ->
  publishers_ok max (m', <[i := PIdle]> ts).
Proof.
  intros [Ht Hl Hs Hb] Hm Hi E E1 E2. cbn [fst snd] in *. pose proof (holding_bound ts i k Ht Hi).
  pose proof (proj1 (Forall_lookup _ _) Ht i _ Hi) as Hk. cbn in Hk.
  rewrite wrap64_small in E by (unfold is_u64; lia). split; cbn [fst snd].
  - by apply Forall_insert.
  - by rewrite E1, E2.
  - rewrite (sumZ_insert held ts i _ PIdle Hi). cbn [held]. lia.
  - lia.
Qed.

Lemma step_ok max s e s' : 0 <= max < U64_MAX -> publishers_ok max s -> event_ok e -> publisher_step max s e = Some s' ->
  publishers_ok max s'.
Proof.
  intros Hm H He. pose proof H as [Ht [Hl1 Hl2] Hs Hb]. destruct s as [m ts]. cbn [fst snd] in *.
  pose proof (held_nonneg ts Ht) as Hnn.
  assert (forall i t, ts !! i = Some t -> thread_ok t) as Hth by (intros i t; apply (proj1 (Forall_lookup _ _) Ht)).
  destruct e as [i k|i|i|i sp|i pub|i|st lag]; cbn [publisher_step].
  - destruct (ts !! i) as [[]|] eqn:Ei; try done. intros [= <-]. eapply move_ok; eauto. cbn [thread_ok event_ok] in *. lia.
  - destruct (ts !! i) as [[]|] eqn:Ei; try done. intros [= <-]. pose proof (Hth i _ Ei). eapply move_ok; eauto. cbn [thread_ok event_ok] in *. lia.
  - destruct (ts !! i) as [[]|] eqn:Ei; try done. intros [= <-]. pose proof (Hth i _ Ei). eapply move_ok; eauto. cbn [thread_ok event_ok] in *. lia.
  - destruct (ts !! i) as [[| | |k v a b|]|] eqn:Ei; try done. pose proof (Hth i _ Ei) as Hi. cbn in Hi.
    destruct (max <? saturating_add U64_MAX (Pipeline.backlog_of v a b) k) eqn:E1; zbool.
    + intros [= <-]. assert (publishers_ok max (Pipeline.count_rejections k m, ts)) as H' by done. by eapply move_ok.
    + destruct (negb sp && (inflight_publish_commands m =? v)) eqn:E2; zbool.
      * intros [= <-]. unfold Pipeline.backlog_of, saturating_add in *. split; cbn [fst snd Pipeline.set_inflight inflight_publish_commands].
        -- apply Forall_insert; [done|cbn; lia].
        -- done.
        -- rewrite (sumZ_insert held ts i _ (PHolding k) Ei). cbn [held]. lia.
        -- lia.
      * intros [= <-]. eapply move_ok; eauto. cbn [thread_ok]. lia.
  - destruct (ts !! i) as [[]|] eqn:Ei; try done. intros [= <-]. eapply release_ok; [exact H|lia|exact Ei|done..].
  - destruct (ts !! i) as [[]|] eqn:Ei; try done. intros [= <-]. eapply release_ok; [exact H|lia|exact Ei|done..].
  - intros [= <-]. cbn in He. destruct st; split; cbn; done || lia.
Qed.

Lemma run_ok max s es s' : 0 <= max < U64_MAX -> publishers_ok max s -> Forall event_ok es ->
  publisher_run max s es = Some s' -> publishers_ok max s'.
Proof.
  intros Hm. revert s. induction es as [|e es IH]; intros s H He; cbn [publisher_run]; [by intros [= <-]|].
  apply Forall_cons in He as [He Hes]. intros (s1 & H1 & H2)%bind_Some. apply (IH s1); [|done|done]. by apply (step_ok max s e).
Qed.

(** C34: The limit on commands in flight holds under any interleaving.  Any number of
    threads run the reservation loop at once, with lost and spurious exchanges, lags
    changing under them, and reservations finished or rolled back: the counter is
    always the sum of the reservations held, never exceeds the configured limit and
    never wraps. *)
Theorem reservations_exact (max_backlog : Z) (threads : nat) (es : list PublisherEvent) (m : Pipeline) (ts : list Publisher) :
  0 <= max_backlog < U64_MAX -> Forall event_ok es ->
  publisher_run max_backlog (Pipeline.new, replicate threads PIdle) es = Some (m, ts) ->
  inflight_publish_commands m = sumZ held ts /\ 0 <= inflight_publish_commands m <= max_backlog.
Proof.
  intros Hm He H. assert (publishers_ok max_backlog (Pipeline.new, replicate threads PIdle)) as H0.
  { split; cbn; [by apply Forall_replicate|lia| |lia]. rewrite sumZ_zero; [done|]. by intros t [-> _]%elem_of_replicate. }
  destruct (run_ok _ _ _ _ Hm H0 He H) as [Ht _ Hs Hb]. cbn [fst snd] in *. pose proof (held_nonneg ts Ht). lia.
Qed.

(** Two threads race for the last place: one exchange is lost, then refused. *)
Lemma reservations_exact_witness :
  let es := [EvLag Pipeline.Mysql 4; EvLoad 0 6; EvLoad 1 6; EvMysqlLag 0; EvMysqlLag 1; EvMatchLag 1; EvMatchLag 0;
             EvExchange 1 false; EvExchange 0 false; EvMysqlLag 0; EvMatchLag 0; EvExchange 0 false] in
  exists m, publisher_run 10 (Pipeline.new, [PIdle; PIdle]) es = Some (m, [PIdle; PHolding 6]) /\
    inflight_publish_commands m = 6 /\ 0 <= inflight_publish_commands m <= 10 /\ backpressure_rejections m = 6.
Proof.
  eexists. split; [vm_compute; reflexivity|].
  destruct (reservations_exact 10 2 [EvLag Pipeline.Mysql 4; EvLoad 0 6; EvLoad 1 6; EvMysqlLag 0; EvMysqlLag 1; EvMatchLag 1;
    EvMatchLag 0; EvExchange 1 false; EvExchange 0 false; EvMysqlLag 0; EvMatchLag 0; EvExchange 0 false]
    (mkPipeline 6 0 0 0 6 4 0) [PIdle; PHolding 6]) as [H1 H2]; [lia|repeat constructor; cbn; lia|vm_compute; reflexivity|].
  split; [exact H1|]. split; [exact H2|reflexivity].
Defined.

(** ** Tiers *)
Lemma from_env_limits s h e topics parts groups pins :
  let b := Backpressure.from_env s h e topics parts groups pins in 1 <= soft b <= hard b /\ hard b <= emergency b.
Proof. cbn. lia. Qed.

(** The ladder: each tier is exactly an interval of the lag, and a lost quorum is an
    emergency at any lag. *)
Lemma classify_spec b lag lost : soft b <= hard b <= emergency b ->
  match Backpressure.classify b lag lost with
  | Normal => lost = false /\ lag < soft b
  | Soft => lost = false /\ soft b <= lag < hard b
  | Hard => lost = false /\ hard b <= lag < emergency b
  | Emergency => lost = true \/ emergency b <= lag
  end.
Proof. intros H. unfold Backpressure.classify. destruct lost; cbn [orb]; [by left|]. repeat case_if; lia || (split; [done|lia]). Qed.

(** Each category is admitted by the lag of the partition its own commands go to:
    the slot the tier reads is the one the lag monitor fills from that topic and
    partition, the topics in order and their partitions in order. *)
Theorem tier_reads_own_partition (ts : list string) (parts v : Z) (r : QueueRouter) (s h e groups : Z) (pins : gmap Z Z) (c : Z) :
  QueueRouter.new ts parts v = Ret r -> Z.of_nat (length ts) < 2 ^ 32 -> parts <= 2 ^ 31 ->
  let b := Backpressure.from_env s h e (length ts) parts groups pins in
  exists q t, QueueRouter.route r c = Ret q /\ ts !! t = Some (topic q) /\
    Backpressure.partition_index b c = Z.of_nat t * parts + partition q /\
    0 <= Backpressure.partition_index b c < Z.of_nat (length ts) * parts /\
    length (mysql_lag b) = length (match_lag b) /\ Z.of_nat (length (mysql_lag b)) = Z.of_nat (length ts) * parts.
Proof.
  intros Hnew Hts Hp b. destruct (new_fields _ _ _ _ Hnew) as (_ & Hlen & Hpos).
  destruct (route_cases _ _ _ _ Hnew Hts Hp c) as (t & p & name & Ht & Hpp & Htr & Hpr & Hname & Hroute & _).
  exists (mkRoute name p v), (Z.to_nat t). cbn [topic partition].
  assert (Backpressure.partition_index b c = t * parts + p) as ->.
  { unfold Backpressure.partition_index, b, Backpressure.from_env. cbn [bp_topic_count bp_partitions_per_topic].
    rewrite !Z.max_l by lia. rewrite wrap32_small by (unfold is_u32; lia). rewrite Ht, Hpp.
    rewrite (wrap64_small (t * parts)) by (unfold is_u64; nia). rewrite wrap64_small by (unfold is_u64; nia). done. }
  rewrite Z2Nat.id by lia. split_and!; [done..|nia|nia| |]; cbn; rewrite !length_replicate; [done|]. nia.
Qed.

(** The health of another group does not touch a category. *)
Lemma health_isolated b c group g healthy : Backpressure.raft_group b c = Ret g -> 0 <= g -> 0 <= group -> group <> g ->
  Backpressure.tier_for_category (Backpressure.set_group_health group healthy b) c = Backpressure.tier_for_category b c.
Proof.
  intros Hg H1 H2 Hne. unfold Backpressure.tier_for_category. change (Backpressure.raft_group (Backpressure.set_group_health _ _ _) c)
    with (Backpressure.raft_group b c). rewrite Hg. cbn [obind]. unfold Backpressure.group_unhealthy at 1. cbn [group_flags Backpressure.set_group_health].
  rewrite list_lookup_insert_ne by lia. done.
Qed.

(** Nor does a lag report that leaves the slot of its partition as it was. *)
Lemma lags_isolated b c stage lags : let i := Z.to_nat (Backpressure.partition_index b c) in
  (lags !! i = None \/ (stage = Pipeline.Mysql -> lags !! i = mysql_lag b !! i) /\ (stage = Pipeline.Match -> lags !! i = match_lag b !! i)) ->
  Backpressure.tier_for_category (Backpressure.set_partition_lags stage lags b) c = Backpressure.tier_for_category b c.
Proof.
  intros i Hi.
  assert (forall slots, lags !! i = None \/ lags !! i = slots !! i -> Backpressure.store_lags slots lags !! i = slots !! i) as Hst.
  { intros slots Hs. unfold Backpressure.store_lags. destruct (decide (i < length (take (length slots) lags))%nat) as [Hl|Hl].
    - rewrite lookup_app_l by done. rewrite length_take in Hl. rewrite lookup_take_lt by lia.
      destruct Hs as [Hs|Hs]; [|done]. apply lookup_ge_None in Hs. lia.
    - rewrite length_take in Hl. rewrite lookup_app_r by (rewrite length_take; lia). rewrite lookup_drop, length_take.
      destruct (decide (i < length slots)%nat).
      + f_equal. lia.
      + rewrite !lookup_ge_None_2 by lia. done. }
  unfold Backpressure.tier_for_category, Backpressure.partition_lag.
  destruct stage; [| |done]; cbn [Backpressure.set_partition_lags]; unfold Backpressure.raft_group, Backpressure.partition_index,
    Backpressure.classify, Backpressure.group_unhealthy in *; cbn [mysql_lag match_lag bp_topic_count bp_partitions_per_topic
    bp_raft_group_count raft_group_pins group_flags emergency hard soft] in *; fold i; (rewrite Hst; [done|]);
    (destruct Hi as [?|[H1 H2]]; [by left|right; auto]).
Qed.

(** The groups' health is looked up through the pins the process started with: once
    a migration moved a category, its tier follows the group it left. *)
Theorem health_follows_old_group :
  let control := mkPlane 4 ∅ ∅ 1 in
  let moved :=
    (RouteControlPlane.activate (RouteControlPlane.caught_up (RouteControlPlane.frozen
      (RouteControlPlane.begin control 5 2).1 5 9).1 5 9 77 77).1 5).1 in
  let b := Backpressure.set_group_health 2 false (Backpressure.from_env 100 200 300 1 8 4 ∅) in
  RouteControlPlane.group_for moved 5 = 2 /\ Backpressure.raft_group b 5 = Ret 1 /\
  Backpressure.tier_for_category b 5 = Ret Normal /\
  Backpressure.tier_for_category (Backpressure.set_group_health 1 false b) 5 = Ret Emergency.
Proof. vm_compute. split_and!; reflexivity. Qed.

(** ** Publishing leaves no reservation behind *)
Definition metrics_ok (k : KafkaIngress) : Prop :=
  0 <= inflight_publish_commands (ki_metrics k) /\ 0 <= observed_mysql_lag (ki_metrics k) /\
  0 <= observed_match_lag (ki_metrics k) /\ ki_max_pipeline_backlog k < U64_MAX.

Lemma reserve_cases n k : 0 <= n -> metrics_ok k ->
  match KafkaIngress.reserve n k with
  | (k', Ok _) => inflight_publish_commands (ki_metrics k') = inflight_publish_commands (ki_metrics k) + n /\
      inflight_publish_commands (ki_metrics k') <= ki_max_pipeline_backlog k /\
      published_commands (ki_metrics k') = published_commands (ki_metrics k) /\
      ki_router k' = ki_router k
  | (k', Err _) => inflight_publish_commands (ki_metrics k') = inflight_publish_commands (ki_metrics k) /\
      published_commands (ki_metrics k') = published_commands (ki_metrics k)
  end.
Proof.
  intros Hn (H0 & H1 & H2 & H3). unfold KafkaIngress.reserve, Pipeline.try_reserve.
  destruct (_ <? _) eqn:E; zbool; cbn; [done|]. unfold Pipeline.backlog, Pipeline.backlog_of, saturating_add in *. split_and!; done || lia.
Qed.

Lemma admitted_same c k r : Backpressure.admit_category (ki_backpressure k) c = Ret r ->
  metrics_ok k -> metrics_ok (KafkaIngress.with_backpressure r.1 k).
Proof. done. Qed.

(** Whatever becomes of a command or a batch, the commands in flight are as before;
    a refused one sends nothing; an accepted command is sent once, to the partition of
    its category, and counted when Kafka confirmed it. *)
Theorem publish_balanced (k : KafkaIngress) (c : Z) (user : UserId) (frame : bytes) (delivery : io_result Z)
    (k' : KafkaIngress) (sent : list Sent) (res : io_result CategorySequence) :
  metrics_ok k -> KafkaIngress.publish c user frame delivery k = Ret (k', sent, res) ->
  inflight_publish_commands (ki_metrics k') = inflight_publish_commands (ki_metrics k) /\
  (sent = [] /\ (exists why, res = Err why) /\ published_commands (ki_metrics k') = published_commands (ki_metrics k) \/
   RouteControlPlane.accepts (ki_control k) c = true /\
   exists route, QueueRouter.route (ki_router k) c = Ret route /\
     sent = [(route, rev (le_bytes 4 c), encode_envelope user (q_version route) frame)] /\
     match delivery with
     | Ok offset => res = Ok (mkSequence c (saturating_add U64_MAX (wrap64 offset) 1)) /\
         published_commands (ki_metrics k') = wrap64 (published_commands (ki_metrics k) + 1)
     | Err why => res = Err why /\ published_commands (ki_metrics k') = published_commands (ki_metrics k)
     end).
Proof.
  intros Hok. unfold KafkaIngress.publish.
  destruct (RouteControlPlane.accepts (ki_control k) c) eqn:Ea; cbn [negb]; [|intros [= <- <- <-]; split; [done|left; eauto]].
  intros (a & Ha & H)%obind_ret. pose proof (admitted_same c k a Ha Hok) as Hok1.
  destruct a as [b [[]|why]]; cbn [fst snd] in *; [|injection H as <- <- <-; split; [done|left; eauto]].
  pose proof (reserve_cases 1 _ ltac:(lia) Hok1) as Hr.
  destruct (KafkaIngress.reserve 1 _) as [k1 [[]|why]]; [|injection H as <- <- <-; destruct Hr as [Hr1 Hr2]; split; [done|left; eauto]].
  destruct Hr as (Hi & Hle & Hpub & Hrt). apply obind_ret in H as (x & Hx & [= H]). unfold KafkaIngress.prepare in Hx.
  apply obind_ret in Hx as (route & Hroute & [= <-]). rewrite Hrt in Hroute. destruct Hok as (H0 & _ & _ & Hmax). cbn in Hi, Hle, Hpub, Hroute.
  assert (wrap64 (inflight_publish_commands (ki_metrics k1) - 1) = inflight_publish_commands (ki_metrics k)) as Hback.
  { rewrite wrap64_small by (unfold is_u64; lia). lia. }
  destruct delivery as [offset|why]; injection H as <- <- <-; cbn; (split; [done|right; split; [done|]]); exists route; split_and!; try done.
  by rewrite Hpub.
Qed.

(** ** Batches *)
Definition batch_bytes (rs : list (UserId * Command)) : bytes :=
  mjoin ((fun r => le_bytes 8 r.1 ++ encode_command r.2) <$> rs).

Definition batch_ok (r : UserId * Command) : Prop :=
  is_u64 r.1 /\ flat_ok r.2 /\ match r.2 with CNew o => o_user o = r.1 | _ => True end.

Lemma decode_records_batch size rs : Forall batch_ok rs ->
  decode_records size ((fun r => le_bytes 8 r.1 ++ encode_command r.2) <$> rs) =
  Ok ((fun r => mkBatchRecord (asset_category (Command.instrument r.2) size) r.1 (encode_command r.2)) <$> rs).
Proof.
  induction 1 as [|[u c] rs (Hu & Hc & Hm) Hrs IH]; [done|]. cbn [fmap list_fmap decode_records fst snd] in *.
  rewrite (u64_here _ 0 u (encode_command c)) by (done || by rewrite drop_0).
  rewrite drop_app_length' by by rewrite length_le_bytes. rewrite decode_frame_encode by done.
  assert ((match on_wire c with CNew order => negb (o_user order =? u) | _ => false end) = false) as ->.
  { destruct c; cbn in *; try done. rewrite Hm, Z.eqb_refl. done. }
  rewrite IH. cbn [try_bind]. by destruct c.
Qed.

Lemma join_concat {A : Type} (l : list (list A)) : mjoin l = concat l.
Proof. induction l as [|x l IH]; [done|]. cbn. by rewrite <-IH. Qed.

(** The records of a batch come back as the client wrote them, each with the
    category its instrument belongs to. *)
Theorem batch_round_trip (size : Z) (rs : list (UserId * Command)) : rs <> [] -> Forall batch_ok rs ->
  decode_batch (batch_bytes rs) size =
  Ok ((fun r => mkBatchRecord (asset_category (Command.instrument r.2) size) r.1 (encode_command r.2)) <$> rs).
Proof.
  intros Hne Hok. set (fs := (fun r : UserId * Command => le_bytes 8 r.1 ++ encode_command r.2) <$> rs).
  assert (Forall (fun f : bytes => length f = BATCH_RECORD_LEN) fs) as Hfs.
  { apply Forall_fmap, Forall_forall. intros r _. change (length (le_bytes 8 r.1 ++ encode_command r.2) = BATCH_RECORD_LEN).
    by rewrite length_app, length_le_bytes, length_encode_command. }
  assert (batch_bytes rs = concat fs) as E by apply join_concat. pose proof (length_frames _ fs Hfs) as Hlen. rewrite <-E in Hlen.
  unfold decode_batch. rewrite bool_decide_false.
  2: { intros Hn. rewrite Hn in Hlen. unfold fs in Hlen. rewrite length_fmap in Hlen. destruct rs; [done|]. cbn in Hlen. lia. }
  rewrite Hlen, Nat.mul_comm, Nat.Div0.mod_mul. cbn [orb negb Nat.eqb]. rewrite E.
  assert (forall fuel, (length fs <= fuel)%nat -> chunks_exact fuel BATCH_RECORD_LEN (concat fs) = fs) as Hch.
  { clear E Hlen. revert Hfs. generalize fs. intros l Hl. induction Hl as [|f l Hf Hl IH]; intros [|fuel] Hfu; cbn in Hfu; try lia; [done..|].
    cbn [chunks_exact concat]. rewrite length_app, Hf. rewrite (proj2 (Nat.leb_le _ _)) by lia.
    rewrite take_app_length', drop_app_length' by done. by rewrite IH by lia. }
  rewrite Hch by lia. by apply decode_records_batch.
Qed.

(** ** Query strings *)

(** [k1=v1&k2=v2&...] *)
Fixpoint render_query (kvs : list (text * text)) : text :=
  match kvs with
  | [] => []
  | [(k, v)] => k ++ lit "=" ++ v
  | (k, v) :: kvs => k ++ lit "=" ++ v ++ [38] ++ render_query kvs
  end.

(** Keys without [=] and [&], values without [&]. *)
Definition pair_ok (kv : text * text) : Prop :=
  Forall (fun x => x <> 61) kv.1 /\ Forall (fun x => x <> 38) (kv.1 ++ lit "=" ++ kv.2).

Lemma split_query kvs : kvs <> [] -> Forall pair_ok kvs ->
  split_on 38 (render_query kvs) = (fun kv => kv.1 ++ lit "=" ++ kv.2) <$> kvs.
Proof.
  intros Hne H. induction H as [|[k v] kvs [_ Hk] Hkvs IH]; [done|]. cbn [fst snd] in Hk. destruct kvs as [|kv kvs].
  - by apply split_on_avoid.
  - change (render_query ((k, v) :: kv :: kvs)) with (k ++ lit "=" ++ v ++ [38] ++ render_query (kv :: kvs)).
    replace (k ++ lit "=" ++ v ++ [38] ++ render_query (kv :: kvs)) with ((k ++ lit "=" ++ v) ++ 38 :: render_query (kv :: kvs))
      by (by rewrite <-!app_assoc). rewrite split_on_first by done. rewrite IH by done. done.
Qed.

(** A parameter is found under its first occurrence. *)
Lemma query_param_render kvs key : kvs <> [] -> Forall pair_ok kvs ->
  query_param (render_query kvs) key = snd <$> head (filter (fun kv => kv.1 = key) kvs).
Proof.
  intros Hne H. unfold query_param. rewrite split_query by done. clear Hne.
  induction H as [|[k v] kvs [Hk _] Hkvs IH]; [done|]. cbn [fmap list_fmap omap list_omap fst snd] in *.
  change (lit "=") with [61] in *. change (k ++ [61] ++ v) with (k ++ (61 :: []) ++ v). rewrite (split_once_first 61 [] k v) by done.
  cbn [mbind option_bind fst snd]. rewrite filter_cons. cbn [fst]. case_bool_decide; [by rewrite decide_True by done|].
  rewrite decide_False by done. exact IH.
Qed.

Definition order_pairs (side id price qty instrument user : text) : list (text * text) :=
  [(lit "side", side); (lit "order_id", id); (lit "price", price); (lit "qty", qty); (lit "instrument", instrument); (lit "user", user)].

Lemma order_params side id price qty instrument user :
  let find key := snd <$> head (filter (fun kv => kv.1 = lit key) (order_pairs side id price qty instrument user)) in
  find "side"%string = Some side /\ find "order_id"%string = Some id /\ find "price"%string = Some price /\ find "qty"%string = Some qty /\
  find "instrument"%string = Some instrument /\ find "user"%string = Some user.
Proof. vm_compute. split_and!; reflexivity. Qed.

Lemma shown_pair k n : 0 <= n -> forallb (fun x => negb (x =? 61) && negb (x =? 38)) (lit k) = true -> pair_ok (lit k, show n).
Proof.
  intros Hn Hk. assert (Forall (fun x => x <> 61 /\ x <> 38) (lit k)) as H.
  { apply Forall_forall. intros x Hx. rewrite forallb_forall in Hk. specialize (Hk x (proj1 (list_elem_of_In _ _) Hx)). lia. }
  split; cbn [fst snd]; [eapply Forall_impl; [exact H|]; cbn; tauto|]. apply Forall_app. split; [eapply Forall_impl; [exact H|]; cbn; tauto|].
  change (lit "=") with [61]. constructor; [lia|]. apply digits_avoid; [by apply show_all|done].
Qed.

(** An order written as a query string is read back. *)
Theorem order_query_round_trip (side : Side) (id price qty instrument user : Z) :
  is_u64 id -> is_u64 price -> is_u64 qty -> is_u32 instrument -> is_u64 user ->
  order_from_query (render_query (order_pairs (match side with Buy => lit "buy" | Sell => lit "sell" end)
    (show id) (show price) (show qty) (show instrument) (show user))) =
  Ok (Order.by_user (Order.on (Order.limit id side price qty) instrument) user).
Proof.
  intros Hid Hpr Hq Hin Hu. set (sd := match side with Buy => lit "buy" | Sell => lit "sell" end).
  destruct (order_params sd (show id) (show price) (show qty) (show instrument) (show user)) as (F1 & F2 & F3 & F4 & F5 & F6).
  assert (Forall pair_ok (order_pairs sd (show id) (show price) (show qty) (show instrument) (show user))) as Hok.
  { unfold is_u64, is_u32 in *. unfold order_pairs. repeat apply Forall_cons_2; try (apply shown_pair; [lia|done]); [|by constructor].
    split; [by apply avoids_b|]. unfold sd. destruct side; by apply avoids_b. }
  set (kvs := order_pairs _ _ _ _ _ _) in *. assert (kvs <> []) as Hne by done.
  assert (forall n max key, snd <$> head (filter (fun kv => kv.1 = key) kvs) = Some (show n) -> 0 <= n <= max ->
    required max (render_query kvs) key = Ok n) as Hreq.
  { intros n max key Hf Hn. unfold required. rewrite query_param_render, Hf by done. by rewrite parse_show. }
  unfold order_from_query. rewrite query_param_render, F1 by done.
  assert ((if bool_decide (sd = lit "buy") then Ok Buy else if bool_decide (sd = lit "sell") then Ok Sell else Err "side must be buy or sell") = Ok side) as ->.
  { unfold sd. by destruct side. }
  cbn [try_bind].
  rewrite (Hreq id _ _ F2), (Hreq price _ _ F3), (Hreq qty _ _ F4), (Hreq instrument _ _ F5), (Hreq user _ _ F6) by done. done.
Qed.

(** ** Migrations *)
Lemma caught_up_cases control control' c m index a b r : RouteControlPlane.active control c = Some m ->
  RouteControlPlane.caught_up control c index a b = (control', r) ->
  match r with
  | Err _ => control' = control
  | Ok _ => m_state m = CatchingUp /\ frozen_index m <= index /\ a = b /\ RouteControlPlane.active control' c =
      Some (mkMig (category_id m) (route_version m) (from_group m) (to_group m) Verified (frozen_index m) index a)
  end.
Proof.
  unfold RouteControlPlane.caught_up, RouteControlPlane.active. intros ->.
  destruct (bool_decide_reflect (m_state m = CatchingUp)); cbn [negb orb]; [|by intros [= <- <-]].
  destruct (index <? frozen_index m) eqn:Ei; zbool; [by intros [= <- <-]|].
  destruct (a =? b) eqn:Eab; zbool; cbn [negb]; [|by intros [= <- <-]].
  intros [= <- <-]. split_and!; [done..|]. apply lookup_insert_eq.
Qed.

Lemma verify_cutover_ok frozen s t v : verify_cutover frozen s t = Ok v -> v = s /\ t = s /\ frozen <= fp_index s.
Proof.
  unfold verify_cutover. repeat case_if; try done. intros [= <-]. destruct s, t. cbn in *. subst. split_and!; done || lia.
Qed.

(** The path that trusts the caller. *)
Lemma legacy_cases control control' c query res m : RouteControlPlane.active control c = Some m ->
  match (let? index := required U64_MAX query (lit "raft_index") in
         let? source := required U64_MAX query (lit "source_fingerprint") in
         let? target := required U64_MAX query (lit "target_fingerprint") in
         Ok (index, source, target)) with
  | Err why => (control, Err why)
  | Ok (index, source, target) =>
      let '(control, r) := RouteControlPlane.caught_up control c index source target in
      (control, let? _ := r in Ok ByCaller)
  end = (control', res) ->
  match res with
  | Err _ => control' = control
  | Ok w => RouteControlPlane.active control c = Some m /\ m_state m = CatchingUp /\ w = ByCaller /\
      exists index fp, frozen_index m <= index /\ required U64_MAX query (lit "raft_index") = Ok index /\
        required U64_MAX query (lit "source_fingerprint") = Ok fp /\ required U64_MAX query (lit "target_fingerprint") = Ok fp
  end.
Proof.
  intros Em. destruct (required _ query (lit "raft_index")) as [i|] eqn:E1; cbn [try_bind]; [|by intros [= <- <-]].
  destruct (required _ query (lit "source_fingerprint")) as [a|] eqn:E2; cbn [try_bind]; [|by intros [= <- <-]].
  destruct (required _ query (lit "target_fingerprint")) as [b|] eqn:E3; cbn [try_bind]; [|by intros [= <- <-]].
  destruct (RouteControlPlane.caught_up control c i a b) as [c1 r] eqn:Ec. intros [= -> <-].
  pose proof (caught_up_cases _ _ _ m _ _ _ _ Em Ec) as Hc. destruct r as [x|why]; cbn [try_bind]; [|done].
  destruct Hc as (Hst & Hi & -> & _). split_and!; [done..|]. by exists i, b.
Qed.

(** A category is verified by the nodes, when both endpoints are known: its migration
    is marked verified only on fingerprints both nodes reported, equal, at one index
    that is no earlier than the freeze.  Without endpoints the caller's numbers are
    taken.  Any error leaves the control plane as it was. *)
Theorem verify_caught_up_sound (http : text -> text -> io_result text) (control control' : RouteControlPlane)
    (endpoints : gmap Z text) (category : Z) (query : text) (res : io_result VerifiedBy) :
  verify_caught_up_inner http control endpoints category query = (control', res) ->
  match res with
  | Err _ => control' = control
  | Ok by_whom =>
      exists m, RouteControlPlane.active control category = Some m /\ m_state m = CatchingUp /\
      match endpoints !! from_group m, endpoints !! to_group m with
      | Some src, Some dst =>
          exists fp, by_whom = ByNodes fp /\ fetch_fingerprint http src category = Ok fp /\ fetch_fingerprint http dst category = Ok fp /\
            frozen_index m <= fp_index fp /\
            RouteControlPlane.active control' category =
              Some (mkMig (category_id m) (route_version m) (from_group m) (to_group m) Verified (frozen_index m) (fp_index fp) (fp_value fp))
      | _, _ =>
          by_whom = ByCaller /\ exists index fp, frozen_index m <= index /\
            required U64_MAX query (lit "raft_index") = Ok index /\
            required U64_MAX query (lit "source_fingerprint") = Ok fp /\ required U64_MAX query (lit "target_fingerprint") = Ok fp
      end
  end.
Proof.
  unfold verify_caught_up_inner. destruct (RouteControlPlane.active control category) as [m|] eqn:Em; [|by intros [= <- <-]].
  assert (forall why, (control, Err why) = (control', res) -> match res with Err _ => control' = control | Ok _ => False end) as Herr.
  { by intros why [= <- <-]. }
  destruct (endpoints !! from_group m) as [src|] eqn:Es; [destruct (endpoints !! to_group m) as [dst|] eqn:Ed|].
  - destruct (fetch_fingerprint http src category) as [s|why] eqn:Fs; cbn [try_bind]; [|intros H%Herr; by destruct res].
    destruct (fetch_fingerprint http dst category) as [t|why] eqn:Ft; cbn [try_bind]; [|intros H%Herr; by destruct res].
    destruct (verify_cutover (frozen_index m) s t) as [v|why] eqn:Ev; [|intros H%Herr; by destruct res].
    apply verify_cutover_ok in Ev as (-> & -> & Hi).
    destruct (RouteControlPlane.caught_up control category _ _ _) as [c1 r] eqn:Ec. intros [= -> <-].
    pose proof (caught_up_cases _ _ _ m _ _ _ _ Em Ec) as Hc. destruct r as [x|why]; cbn [try_bind]; [|done].
    destruct Hc as (Hst & _ & _ & Ha). exists m. split_and!; [done..|]. rewrite Es, Ed. exists s. done.
  - intros H%(legacy_cases _ _ _ _ _ _ Em). destruct res as [w|]; [|done]. exists m. rewrite Es, Ed. tauto.
  - intros H%(legacy_cases _ _ _ _ _ _ Em). destruct res as [w|]; [|done]. exists m. rewrite Es. tauto.
Qed.
