(* ===== verification/Commit.v ===== *)
(** * Committed batches

    The path of a Raft-committed batch through a shard whose command log is the
    Raft log ([raft_wal_authoritative]): [Shard::handle_committed_batch] and
    [match_and_record_batch] of [src/src/exchange.rs], the start of such a
    shard in [build], and the replay of the recovered entries in
    [src/src/bin/raft_node.rs].  In this mode the shard has no command journal
    and no asset journals.  Replication, metrics and logging are left out; the
    entries are those the node hands over, after its window of recent ids.

    A batch is applied in steps that reach the disk one after the other; a crash
    may come between any two of them and leaves, of a file, what was synced and
    any part of what was written since.  Creating a segment file together with
    its synced header is one step. *)

From S2P Require Import Prelude Types Book Engine Bytes Protocol Wire Outbox Applied Snapshot Processor Recovery.
Import Processor Writer.

Record Shard := mkShard {
  processor : Processor;
  outbox : Writer;
  proofs : option bytes;                          (* [raft-batches.applied.v2] *)
  last_raft_index : Z;
  emitted : list (Z * Z * ExecReport)             (* what reached the result queue *)
}.

(** The files a shard starts from. *)
Record Disk := mkDisk {
  d_dir : Dir;
  d_watermarks : option bytes;
  d_proofs : option bytes;
  d_snapshot : option bytes;
  d_journal : option bytes
}.

Section shard.
Context (ho : OrderBook -> list (Z * nat)) (raft_group_id : Z).

(** The closure of [match_and_record_batch]: one report. *)
Definition record_report (raft_index : Z) (st : Writer * Z * list (Z * Z * ExecReport)) (r : ExecReport)
    : Writer * Z * list (Z * Z * ExecReport) :=
  let '(w, ordinal, em) := st in
  (append_deferred w raft_group_id raft_index ordinal r, Z.min (ordinal + 1) U32_MAX, em ++ [(raft_index, ordinal, r)]).

Definition match_and_record_batch (p : Processor) (w : Writer) (commands : list Command) (raft_index : Z)
    : outcome (Processor * Writer * list (Z * Z * ExecReport)) :=
  let! r := process_all ho p commands in
  let '(w, _, em) := foldl (record_report raft_index) (w, 0, []) r.2 in
  Ret (r.1, w, em).

Definition report_proof (raft_index : Z) (reports : list ExecReport) : AppliedBatchProof :=
  mkProof raft_index (wrap32 (Z.of_nat (length reports))) (fingerprint_reports reports).

Definition handle_committed_batch (s : Shard) (raft_index : Z) (commands : list Command)
    (replay_proof : option AppliedBatchProof) : outcome Shard :=
  if bool_decide (commands = []) then Ret s
  else
    match replay_proof with
    | Some proof =>
        assert_that (proof_index proof =? raft_index) "Raft replay proof index does not match queued entry" (
        let! r := process_all ho (processor s) commands in
        match verify_applied_batch proof (wrap32 (Z.of_nat (length r.2))) (fingerprint_reports r.2) with
        | Err why => Panic why
        | Ok _ => Ret (mkShard r.1 (outbox s) (proofs s) raft_index (emitted s))
        end)
    | None =>
        let! m := match_and_record_batch (processor s) (outbox s) commands raft_index in
        let '(p, w, em) := m in
        let w := flush_to_os w in
        let w := sync_data w in
        let reports := snd <$> em in
        let pf := mark_applied_batch (proofs s) raft_index (wrap32 (Z.of_nat (length reports)))
                    (fingerprint_reports reports) in
        match maybe_rotate w with
        | Err why => Panic why
        | Ok (w, _) => Ret (mkShard p w (Some pf) raft_index (emitted s ++ em))
        end
    end.

(** [raft_node]: the committed entries found on disk, in order. *)
Definition replay_entry (snapshot_index : Z) (applied : gset Z) (applied_proofs : gmap Z AppliedBatchProof)
    (s : Shard) (entry : Z * list Command) : outcome Shard :=
  let '(index, commands) := entry in
  if index <=? snapshot_index then Ret s
  else if bool_decide (commands = []) then Ret s
  else if bool_decide (index ∈ applied) then
    let! proof := expect (applied_proofs !! index) "applied Raft index has no exact replay proof" in
    handle_committed_batch s (proof_index proof) commands (Some proof)
  else handle_committed_batch s index commands None.

End shard.

Section start.
Context (ho : OrderBook -> list (Z * nat)) (eo : gmap Z MatchingEngine -> list (Z * MatchingEngine)).
Context (zo : gset Z -> list Z) (po : gmap (Z * Z) Z -> list (Z * Z * Z)).

(** [.iter().max()] *)
Definition max_index (applied : gset Z) : option Z :=
  match elements applied with [] => None | i :: rest => Some (foldl Z.max i rest) end.

(** [recover_raft_authoritative]: the processor, its Raft index, and the
    snapshot a legacy state is upgraded to. *)
Definition recover_raft_authoritative (p : Processor) (snapshot_file journal : option bytes)
    (watermarks proofs : option bytes) : outcome (io_result (Processor * Z * option SnapshotData)) :=
  let legacy :=
    if bool_decide (snapshot_file = None) && bool_decide (journal = None) then Ret (Ok (p, 0, None))
    else
      let! r := recover_stats ho p snapshot_file journal in
      match r with
      | Err why => Ret (Err why)
      | Ok (p, _, last_seq) =>
          match load_applied_batches watermarks proofs with
          | Err why => Ret (Err why)
          | Ok applied =>
              let raft_applied_index := default 0 (max_index applied) in
              if negb (last_seq =? 0) && (raft_applied_index =? 0) then
                Ret (Err "legacy matching state has no durable Raft application watermark")
              else
                let! d := snapshot_data ho eo zo po p 0 raft_applied_index in
                Ret (Ok (p, raft_applied_index, Some d))
          end
      end in
  match snapshot_file with
  | None => legacy
  | Some b =>
      let! s := load b in
      match s with
      | Err why => Ret (Err why)
      | Ok snap =>
          if 4 <=? format_version snap then
            let! p := restore_state p snap in Ret (Ok (p, raft_applied_index snap, None))
          else legacy
      end
  end.

(** The start of a shard in [build]: state, then the outbox trimmed to the last
    applied batch and opened.  An unreadable proof file counts as no proof. *)
Definition start (p : Processor) (d : Disk) (sync_every rotate_bytes : Z) : outcome (Shard * Z) :=
  let! r := recover_raft_authoritative p (d_snapshot d) (d_journal d) (d_watermarks d) (d_proofs d) in
  match r with
  | Err why => Panic why
  | Ok (p, initial_raft_index, _) =>
      let max_applied :=
        match load_applied_batches (d_watermarks d) (d_proofs d) with
        | Ok applied => max_index applied
        | Err _ => None
        end in
      let newest := latest_segment (d_dir d) in
      match truncate_after_applied (segments (d_dir d) !! newest) max_applied with
      | Err why => Panic why
      | Ok trimmed =>
          let segs := match trimmed with Some f => <[newest := f]> (segments (d_dir d)) | None => segments (d_dir d) end in
          match Writer.open (mkDir segs (cursor_files (d_dir d))) sync_every with
          | Err why => Panic why
          | Ok w => Ret (mkShard p (with_rotate_bytes w (Some rotate_bytes)) (d_proofs d) initial_raft_index [],
                         initial_raft_index)
          end
      end
  end.

(** A restart: the shard starts and the committed entries are handed to it. *)
Definition restart (raft_group_id : Z) (p : Processor) (d : Disk) (sync_every rotate_bytes : Z)
    (committed : list (Z * list Command)) : outcome Shard :=
  let! s := start p d sync_every rotate_bytes in
  match load_applied_batches (d_watermarks d) (d_proofs d), load_applied_batch_proofs (d_proofs d) with
  | Ok applied, Ok applied_proofs => ofold (replay_entry ho raft_group_id s.2 applied applied_proofs) s.1 committed
  | Err why, _ | _, Err why => Panic why
  end.

End start.
