(* ===== verification/CommitProps.v ===== *)
(** * Exactly once, across crashes

    What the path of [Commit.v] promises: whatever crashes interrupt it, the
    outbox of a shard holds the execution reports of the committed batches once
    each, in order, and the processor is where the log puts it.

    Three conditions are hypotheses here.  A crash leaves whole records in the
    proof file: a torn one is not trimmed and blocks the start after next
    ([Applied.torn_proof_blocks_load]).  The log contains no force close: every
    process has hash orders of its own, and the reports of a force close follow
    them ([force_close_not_replayable]).  And the node takes no engine snapshots
    ([TC_SNAPSHOT_EVERY_SECS=0]) and has no journal of an older mode. *)

From S2P Require Import Prelude Types Strategy Book Engine Bytes Protocol Wire Outbox Applied Snapshot Processor ProcessorProps Recovery Commit.
Import Processor Writer.

Section once.
Context (ho : OrderBook -> list (Z * nat)) (raft_group_id : Z).

(** ** The log and what it produces *)
Fixpoint apply_log (p : Processor) (log : list (Z * list Command))
    : outcome (Processor * list (Z * list ExecReport)) :=
  match log with
  | [] => Ret (p, [])
  | (i, cs) :: rest =>
      let! r := process_all ho p cs in
      let! s := apply_log r.1 rest in
      Ret (s.1, (i, r.2) :: s.2)
  end.

Fixpoint records_from (ord i : Z) (rs : list ExecReport) : list OutboxRecord :=
  match rs with
  | [] => []
  | r :: rs => mkOut raft_group_id i ord (encode_report r) :: records_from (Z.min (ord + 1) U32_MAX) i rs
  end.

Definition records_of (e : Z * list ExecReport) : list OutboxRecord := records_from 0 e.1 e.2.
Definition proof_of (e : Z * list ExecReport) : AppliedBatchProof := report_proof e.1 e.2.

(** ** Crashes *)

(** The writers a batch goes through while its reports are appended. *)
Definition batch_writers (w : Writer) (i : Z) (rs : list ExecReport) : list Writer :=
  (fun k => (foldl (record_report raft_group_id i) (w, 0, []) (take k rs)).1.1) <$> List.seq 0 (S (length rs)).

(** The states of the files at which [handle_committed_batch] can be cut off:
    the outbox, the proof file and how much of the proof file is synced. *)
Definition crash_points (s : Shard) (entry : option (Z * list Command)) : list (Writer * option bytes * nat) :=
  let pf := proofs s in
  let n := length (default [] pf) in
  match entry with
  | None => [(outbox s, pf, n)]
  | Some (i, cs) =>
      match process_all ho (processor s) cs with
      | Panic _ => [(outbox s, pf, n)]
      | Ret (_, rs) =>
          let w := (foldl (record_report raft_group_id i) (outbox s, 0, []) rs).1.1 in
          let w' := sync_data (flush_to_os w) in
          let pf' := mark_applied_batch pf i (wrap32 (Z.of_nat (length rs))) (fingerprint_reports rs) in
          ((fun w => (w, pf, n)) <$> batch_writers (outbox s) i rs ++ [flush_to_os w; w']) ++
          [(w', Some pf', n); (w', Some pf', length pf')] ++
          match maybe_rotate w' with Ok (w'', _) => [(w'', Some pf', length pf')] | Err _ => [] end
      end
  end.

(** An entry cut off in its handling is committed. *)
Definition begun (entry : option (Z * list Command)) : nat := match entry with Some _ => 1 | None => 0 end.

(** What is left of the proof file: whole records; the file may be missing when
    none of it was ever synced. *)
Definition proofs_image (pf : option bytes) (synced : nat) (img : option bytes) : Prop :=
  match img with
  | None => synced = 0%nat
  | Some g => exists f k, pf = Some f /\ g `prefix_of` f /\ (synced <= length g)%nat /\
                length g = (8 + APPLIED_PROOF_RECORD_LEN * k)%nat
  end.

Definition disk_image (c : Writer * option bytes * nat) (d : Disk) : Prop :=
  let '(w, pf, n) := c in
  (exists img, segment_image w img /\ segments (d_dir d) = <[seg w := img]> (segments (dir w))) /\
  proofs_image pf n (d_proofs d) /\ d_watermarks d = None /\ d_snapshot d = None /\ d_journal d = None.

(** ** The log's records *)
Definition results_ok (results : list (Z * list ExecReport)) : Prop :=
  StronglySorted Z.lt results.*1 /\ Forall is_u64 results.*1.

Lemma apply_log_app p l1 l2 : apply_log p (l1 ++ l2) =
  let! a := apply_log p l1 in let! b := apply_log a.1 l2 in Ret (b.1, a.2 ++ b.2).
Proof.
  revert p. induction l1 as [|[i cs] l1 IH]; intros p; cbn; [by destruct (apply_log p l2) as [[? ?] |]|].
  destruct (process_all ho p cs) as [[p1 r1] |]; cbn; [|done]. rewrite IH.
  destruct (apply_log p1 l1) as [[p2 r2] |]; cbn; [|done]. by destruct (apply_log p2 l2) as [[p3 r3] |].
Qed.

Lemma apply_log_indices p l p' rs : apply_log p l = Ret (p', rs) -> rs.*1 = l.*1.
Proof.
  revert p rs. induction l as [|[i cs] l IH]; intros p rs; cbn; [by intros [= _ <-]|].
  destruct (process_all ho p cs) as [[p1 r1] |]; cbn; [|done].
  destruct (apply_log p1 l) as [[p2 r2] |] eqn:E; cbn; [|done]. intros [= <- <-]. cbn. f_equal. by eapply IH.
Qed.

Lemma records_from_index ord i rs r : r ∈ records_from ord i rs -> raft_index r = i.
Proof.
  revert ord. induction rs as [|x rs IH]; intros ord; cbn; [by intros ?%not_elem_of_nil|].
  intros [-> | H]%elem_of_cons; [done | by eapply IH].
Qed.

Lemma records_index results r : r ∈ concat (records_of <$> results) -> raft_index r ∈ results.*1.
Proof.
  intros H. apply list_elem_of_In, in_concat in H as (l & Hl & Hr).
  apply list_elem_of_In, list_elem_of_fmap in Hl as (e & -> & He). apply list_elem_of_In in Hr.
  rewrite (records_from_index _ _ _ _ Hr). by apply list_elem_of_fmap_2.
Qed.

Lemma records_from_ordered ord i rs : ordered (records_from ord i rs).
Proof.
  revert ord. induction rs as [|r rs IH]; intros ord; cbn; [constructor|]. constructor; [apply IH|].
  apply Forall_forall. intros x Hx. cbn. by rewrite (records_from_index _ _ _ _ Hx).
Qed.

Lemma records_ordered results : results_ok results -> ordered (concat (records_of <$> results)).
Proof.
  intros [Hs _]. induction results as [|e results IH]; cbn; [constructor|]. cbn in Hs.
  apply StronglySorted_inv in Hs as [Hs Hall]. apply StronglySorted_app_2; [|apply records_from_ordered | by apply IH].
  intros x y Hx Hy. rewrite (records_from_index _ _ _ _ Hx). apply records_index in Hy.
  rewrite Forall_forall in Hall. specialize (Hall _ Hy). lia.
Qed.

(** ** The writer along a batch *)
Context (Hgroup : is_u32 raft_group_id).

Lemma record_fold i rs w ord em recs : is_u64 i -> is_u32 ord -> out_holds w recs ->
  let '(w', _, em') := foldl (record_report raft_group_id i) (w, ord, em) rs in
  out_holds w' (recs ++ records_from ord i rs) /\ same_place w w' /\ synced w' = synced w /\
  snd <$> em' = (snd <$> em) ++ rs.
Proof.
  intros Hi. revert w ord em recs. induction rs as [|r rs IH]; intros w ord em recs Ho Hw; cbn [foldl records_from].
  - rewrite !app_nil_r. by split_and!.
  - destruct (holds_append_deferred w recs raft_group_id i ord r Hw Hgroup Hi Ho) as (Hw1 & Hp1 & Hs1).
    assert (Ho1 : is_u32 (Z.min (ord + 1) U32_MAX)) by (unfold is_u32 in *; lia).
    specialize (IH _ _ (em ++ [(i, ord, r)]) _ Ho1 Hw1). cbn [record_report].
    destruct (foldl _ _ rs) as [[w' o'] em']. destruct IH as (Hh & Hp & Hs & He). split_and!.
    + by rewrite <- (assoc_L (++)) in Hh.
    + by eapply same_place_trans.
    + congruence.
    + rewrite He, fmap_app, <- (assoc_L (++)). done.
Qed.

Lemma records_from_take ord i rs k : records_from ord i (take k rs) = take k (records_from ord i rs).
Proof. revert ord k. induction rs as [|r rs IH]; intros ord [|k]; cbn; [done..|]. by rewrite IH. Qed.

(** Where the sealed segments are: segment [k] holds part [k], if it is still there. *)
Definition place_ok (w : Writer) (parts : list (list OutboxRecord)) : Prop :=
  (forall k f, segments (dir w) !! k = Some f ->
     0 <= k /\ exists part, parts !! Z.to_nat k = Some part /\ f = outbox_file part) /\
  seg w = Z.of_nat (length parts) /\ next_segment_seq w = wrap64 (seg w + 1).

(** Everything written is on disk. *)
Definition durable (w : Writer) : Prop := synced w = length (file w) /\ buf w = [].

Lemma same_place_ok w w' parts : same_place w w' -> place_ok w parts -> place_ok w' parts.
Proof. unfold same_place, place_ok. intros (-> & -> & -> & _ & _). done. Qed.

Lemma durable_file w cur : out_holds w cur -> durable w -> file w = outbox_file cur /\ synced w = length (outbox_file cur).
Proof. intros (Hf & _) [Hs Hb]. rewrite Hb, app_nil_r in Hf. rewrite Hs, Hf. done. Qed.

Lemma sync_ok w cur parts : out_holds w cur -> place_ok w parts ->
  out_holds (sync_data w) cur /\ place_ok (sync_data w) parts /\ durable (sync_data w).
Proof.
  intros Hh Hp. destruct (holds_sync_data w cur Hh) as (H1 & H2 & H3 & H4 & H5 & _). split_and!.
  - done.
  - by eapply same_place_ok.
  - unfold durable. by rewrite H3, H4, H5.
Qed.

(** Rotation moves the current records to the sealed ones. *)
Lemma rotate_ok w cur parts : out_holds w cur -> place_ok w parts -> durable w ->
  Z.of_nat (length parts) < U64_MAX ->
  exists w' b parts' cur', maybe_rotate w = Ok (w', b) /\ out_holds w' cur' /\ place_ok w' parts' /\ durable w' /\
    concat parts' ++ cur' = concat parts ++ cur /\ (length parts' <= S (length parts))%nat.
Proof.
  intros Hh Hp Hd Hlt. unfold maybe_rotate. destruct (rotate_bytes w) as [limit |] eqn:Er.
  2: { exists w, false, parts, cur. split_and!; done || lia. }
  destruct (segment_bytes w <? limit); [exists w, false, parts, cur; split_and!; done || lia|].
  set (v := if 0 <? written_since_flush w then sync_data w else w).
  assert (Hv : out_holds v cur /\ place_ok v parts /\ durable v).
  { unfold v. destruct (0 <? _); [by apply sync_ok | by split_and!]. }
  clearbody v. destruct Hv as (Hh' & (Hdir & Hseg & Hnext) & Hd'). cbv zeta.
  assert (Hn : next_segment_seq v = Z.of_nat (length parts) + 1).
  { rewrite Hnext, Hseg. apply wrap64_small. unfold is_u64 in *. lia. }
  assert (Hnone : segments (dir v) !! next_segment_seq v = None).
  { destruct (segments (dir v) !! next_segment_seq v) as [f |] eqn:E; [|done].
    apply Hdir in E as (_ & part & Hpart & _). apply lookup_lt_Some in Hpart. lia. }
  rewrite Hnone. cbn [open_segment default length Nat.eqb try_bind].
  destruct (durable_file v cur Hh' Hd') as [Hfile _]. destruct Hd' as [_ Hbuf].
  eexists _, _, (parts ++ [cur]), []. split; [done|]. split_and!.
  - split_and!; cbn; [done | apply Forall_nil_2 | lia | lia].
  - cbn [dir seg next_segment_seq segments]. split_and!; [| rewrite Hn, length_app; cbn; lia | done].
    intros k f Hk. apply map_lookup_filter_Some in Hk as [Hk _]. cbn [segments] in Hk.
    apply lookup_insert_Some in Hk as [[<- <-] | [Hne Hk]].
    + split; [lia|]. exists cur. rewrite Hseg, Nat2Z.id, lookup_app_r, Nat.sub_diag by lia. by rewrite Hbuf, app_nil_r.
    + apply lookup_delete_Some in Hk as [_ Hk]. apply Hdir in Hk as (H0 & part & Hpart & ->).
      split; [done|]. exists part. split; [by apply lookup_app_l_Some | done].
  - split; done.
  - rewrite concat_app. cbn. by rewrite !app_nil_r.
  - rewrite length_app. cbn. lia.
Qed.

(** ** The invariant *)
Context (p0 : Processor) (log : list (Z * list Command)).
Context (Hsorted : StronglySorted Z.lt log.*1) (Hu64 : Forall is_u64 log.*1) (Hcmds : Forall (fun e => e.2 <> []) log).
Context (Hlong : Z.of_nat (length log) < U64_MAX).

Definition stored_proofs (pf : option bytes) (results : list (Z * list ExecReport)) : Prop :=
  pf = None /\ results = [] \/ pf = Some (proof_file (proof_of <$> results)).

(** The files hold the results of the first [n] entries. *)
Record files_ok (w : Writer) (pf : option bytes) (n : nat) (p : Processor) (results : list (Z * list ExecReport))
    (parts : list (list OutboxRecord)) (cur : list OutboxRecord) : Prop := {
  fo_log : apply_log p0 (take n log) = Ret (p, results);
  fo_n : (n <= length log)%nat;
  fo_records : concat parts ++ cur = concat (records_of <$> results);
  fo_holds : out_holds w cur;
  fo_place : place_ok w parts;
  fo_durable : durable w;
  fo_parts : (length parts <= n)%nat;
  fo_proofs : stored_proofs pf results
}.

Definition shard_ok (s : Shard) (n : nat) : Prop :=
  exists results parts cur, files_ok (outbox s) (proofs s) n (processor s) results parts cur.

Lemma mark_stored pf results i rs : stored_proofs pf results ->
  mark_applied_batch pf i (wrap32 (Z.of_nat (length rs))) (fingerprint_reports rs) =
    proof_file (proof_of <$> results ++ [(i, rs)]).
Proof.
  unfold mark_applied_batch, proof_file. rewrite fmap_app. change (proof_of <$> [(i, rs)]) with [report_proof i rs].
  rewrite fmap_app, concat_app. change (concat (proof_image <$> [report_proof i rs])) with (proof_image (report_proof i rs) ++ []).
  rewrite app_nil_r. intros [[-> ->] | ->]; [done|]. unfold proof_file. change (default ?a (Some ?b)) with b.
  by rewrite <- (assoc_L (++)).
Qed.

Lemma entry_ok n i cs : log !! n = Some (i, cs) -> is_u64 i /\ cs <> [] /\ (n < length log)%nat.
Proof.
  intros H. split_and!.
  - rewrite Forall_forall in Hu64. apply Hu64. apply list_elem_of_fmap. exists (i, cs). split; [done|].
    by eapply list_elem_of_lookup_2.
  - rewrite Forall_forall in Hcmds. apply (Hcmds (i, cs)). by eapply list_elem_of_lookup_2.
  - by eapply lookup_lt_Some.
Qed.

Lemma apply_log_next n i cs p results p' rs : apply_log p0 (take n log) = Ret (p, results) ->
  log !! n = Some (i, cs) -> process_all ho p cs = Ret (p', rs) ->
  apply_log p0 (take (S n) log) = Ret (p', results ++ [(i, rs)]).
Proof.
  intros Hl Hn Hp. rewrite (take_S_r _ _ _ Hn), apply_log_app, Hl. cbn. by rewrite Hp.
Qed.

(** The files after the next entry, before and after rotation. *)
Lemma files_next w pf n p results parts cur i cs p' rs :
  files_ok w pf n p results parts cur -> log !! n = Some (i, cs) -> process_all ho p cs = Ret (p', rs) ->
  let w' := sync_data (flush_to_os (foldl (record_report raft_group_id i) (w, 0, []) rs).1.1) in
  let pf' := mark_applied_batch pf i (wrap32 (Z.of_nat (length rs))) (fingerprint_reports rs) in
  files_ok w' (Some pf') (S n) p' (results ++ [(i, rs)]) parts (cur ++ records_from 0 i rs) /\
  exists w'' b parts' cur', maybe_rotate w' = Ok (w'', b) /\
    files_ok w'' (Some pf') (S n) p' (results ++ [(i, rs)]) parts' cur'.
Proof.
  intros [Hlog Hn Hrec Hh Hpl Hd Hparts Hpf] Hent Hproc. destruct (entry_ok n i cs Hent) as (Hi & _ & Hlt).
  pose proof (record_fold i rs w 0 [] cur Hi ltac:(unfold is_u32; lia) Hh) as Hf.
  destruct (foldl _ _ rs) as [[wn o] em]. destruct Hf as (Hw & Hsame & _ & _). cbn [fst]. cbv zeta.
  destruct (holds_flush_to_os wn _ Hw) as [Hw1 Hsame1].
  destruct (sync_ok (flush_to_os wn) (cur ++ records_from 0 i rs) parts Hw1) as (Hw2 & Hp2 & Hd2).
  { eapply same_place_ok; [exact Hsame1|]. eapply same_place_ok; [exact Hsame | exact Hpl]. }
  assert (Hlog' : apply_log p0 (take (S n) log) = Ret (p', results ++ [(i, rs)])) by by eapply apply_log_next.
  assert (Hrec' : concat parts ++ cur ++ records_from 0 i rs = concat (records_of <$> results ++ [(i, rs)])).
  { rewrite (assoc_L (++)), Hrec, fmap_app, concat_app. cbn. by rewrite app_nil_r. }
  assert (Hpf' : stored_proofs (Some (mark_applied_batch pf i (wrap32 (Z.of_nat (length rs))) (fingerprint_reports rs)))
                   (results ++ [(i, rs)])) by (right; f_equal; by apply mark_stored).
  split; [constructor; done || lia|].
  destruct (rotate_ok _ _ parts Hw2 Hp2 Hd2 ltac:(lia)) as (w' & b & parts' & cur' & Hrot & Hw' & Hp' & Hd' & Hcat & Hlen).
  exists w', b, parts', cur'. split; [done|]. constructor; try done; [congruence | lia].
Qed.

(** Applying the next entry. *)
Lemma handle_ok s n i cs p' rs : shard_ok s n -> log !! n = Some (i, cs) -> process_all ho (processor s) cs = Ret (p', rs) ->
  exists s', handle_committed_batch ho raft_group_id s i cs None = Ret s' /\ shard_ok s' (S n).
Proof.
  intros (results & parts & cur & Hf) Hent Hproc. destruct (entry_ok n i cs Hent) as (Hi & Hcs & Hlt).
  destruct (files_next _ _ _ _ _ _ _ _ _ _ _ Hf Hent Hproc) as (_ & w' & b & parts' & cur' & Hrot & Hf').
  pose proof (record_fold i rs (outbox s) 0 [] cur Hi ltac:(unfold is_u32; lia) (fo_holds _ _ _ _ _ _ _ Hf)) as Hem.
  unfold handle_committed_batch. rewrite bool_decide_false by done. unfold match_and_record_batch. rewrite Hproc.
  cbn [obind fst snd]. destruct (foldl _ _ rs) as [[wn o] em]. destruct Hem as (_ & _ & _ & Hem).
  cbn [fmap list_fmap app fst] in Hem, Hrot. cbn [obind]. cbv zeta. rewrite Hrot, Hem. eexists. split; [done|].
  by exists (results ++ [(i, rs)]), parts', cur'.
Qed.

(** ** What a crash leaves *)

(** The disk holds the results of the first [n] entries, and in the newest
    segment perhaps some records of a later one. *)
Record remains (d : Disk) (n : nat) (p : Processor) (results : list (Z * list ExecReport))
    (parts : list (list OutboxRecord)) (cur extra : list OutboxRecord) (img : bytes) : Prop := {
  re_log : apply_log p0 (take n log) = Ret (p, results);
  re_n : (n <= length log)%nat;
  re_records : concat parts ++ cur = concat (records_of <$> results);
  re_segments : exists sealed, segments (d_dir d) = <[Z.of_nat (length parts) := img]> sealed /\
    forall k f, sealed !! k = Some f -> 0 <= k /\ exists part, parts !! Z.to_nat k = Some part /\ f = outbox_file part;
  re_image : img `prefix_of` outbox_file (cur ++ extra) /\ (length (outbox_file cur) <= length img)%nat;
  re_ok : Forall out_ok (cur ++ extra);
  re_extra : forall r i, r ∈ extra -> i ∈ results.*1 -> i < raft_index r;
  re_order : ordered (cur ++ extra);
  re_parts : (length parts <= n)%nat;
  re_proofs : stored_proofs (d_proofs d) results;
  re_other : d_watermarks d = None /\ d_snapshot d = None /\ d_journal d = None
}.

Lemma log_results_ok n p results : apply_log p0 (take n log) = Ret (p, results) -> results_ok results.
Proof using Hsorted Hu64.
  intros H. apply apply_log_indices in H. unfold results_ok. rewrite H, fmap_take. split.
  - rewrite <- (take_drop n log.*1) in Hsorted. by eapply StronglySorted_app_1_l.
  - by apply Forall_take.
Qed.

Lemma index_after n i cs p results j : apply_log p0 (take n log) = Ret (p, results) -> log !! n = Some (i, cs) ->
  j ∈ results.*1 -> j < i.
Proof using Hsorted.
  intros H Hn Hj. apply apply_log_indices in H. rewrite H in Hj.
  rewrite <- (take_drop_middle _ _ _ Hn), fmap_app in Hsorted.
  eapply StronglySorted_app_1_elem_of; [exact Hsorted | exact Hj |]. cbn. left.
Qed.

(** From the state of the files at a crash to what remains. *)
Lemma remains_intro d w img n p results parts cur extra :
  apply_log p0 (take n log) = Ret (p, results) -> (n <= length log)%nat ->
  concat parts ++ cur = concat (records_of <$> results) ->
  out_holds w (cur ++ extra) -> place_ok w parts -> (length (outbox_file cur) <= synced w)%nat ->
  segment_image w img -> segments (d_dir d) = <[seg w := img]> (segments (dir w)) ->
  (forall r i, r ∈ extra -> i ∈ results.*1 -> i < raft_index r) -> ordered extra ->
  (length parts <= n)%nat -> stored_proofs (d_proofs d) results ->
  d_watermarks d = None /\ d_snapshot d = None /\ d_journal d = None ->
  remains d n p results parts cur extra img.
Proof using Hsorted Hu64.
  intros Hlog Hn Hrec (Hf & Hok & Hs) (Hdir & Hseg & _) Hcov [Hpre Hlen] Hd Hex Hord Hp Hpf Hother.
  pose proof (log_results_ok _ _ _ Hlog) as Hres.
  constructor; try done.
  - exists (segments (dir w)). by rewrite <- Hseg.
  - split; [|lia]. rewrite <- Hf. by apply prefix_app_r.
  - pose proof (records_ordered results Hres) as Ho. rewrite <- Hrec in Ho.
    apply StronglySorted_app_2; [|by eapply StronglySorted_app_1_r | done].
    intros a b Ha Hb. assert (Hai : raft_index a ∈ results.*1).
    { apply records_index. rewrite <- Hrec. apply elem_of_app. by right. }
    pose proof (Hex b _ Hb Hai). lia.
Qed.

Lemma proof_file_nonempty ps : length (proof_file ps) <> 0%nat.
Proof. done. Qed.

Lemma length_proof_file ps : length (proof_file ps) = (8 + APPLIED_PROOF_RECORD_LEN * length ps)%nat.
Proof.
  unfold proof_file. rewrite length_app, (length_frames APPLIED_PROOF_RECORD_LEN), length_fmap; [done|].
  apply Forall_fmap, Forall_forall. intros q _. apply length_proof_image.
Qed.

(** Whole records of a proof file. *)
Lemma proof_file_prefix ps g k : g `prefix_of` proof_file ps -> length g = (8 + APPLIED_PROOF_RECORD_LEN * k)%nat ->
  g = proof_file (take k ps) /\ (k <= length ps)%nat.
Proof.
  intros [rest Hp] Hl. assert (Hk : (k <= length ps)%nat).
  { apply (f_equal length) in Hp. rewrite length_app, length_proof_file in Hp. lia. }
  split; [|done]. assert (Hsplit : proof_file ps = proof_file (take k ps) ++ concat (proof_image <$> drop k ps)).
  { unfold proof_file. rewrite <- (assoc_L (++)), <- concat_app, <- fmap_app. by rewrite take_drop. }
  rewrite Hsplit in Hp. apply (f_equal (take (length g))) in Hp. rewrite take_app_length in Hp.
  symmetry. rewrite <- Hp. symmetry. apply take_app_length'. rewrite length_proof_file, length_take. lia.
Qed.

Lemma proofs_image_same pf results img : stored_proofs pf results ->
  proofs_image pf (length (default [] pf)) img -> stored_proofs img results.
Proof.
  intros Hst Himg. destruct img as [g |].
  - destruct Himg as (f & k & -> & Hp & Hl & _). destruct Hst as [[? _] | [= ->]]; [done|]. right.
    f_equal. by apply prefix_length_eq.
  - destruct Hst as [[_ ->] | ->]; [by left|]. by apply proof_file_nonempty in Himg.
Qed.

Lemma proofs_image_next pf results e img : stored_proofs pf results ->
  proofs_image (Some (proof_file (proof_of <$> results ++ [e]))) (length (default [] pf)) img ->
  stored_proofs img results \/ stored_proofs img (results ++ [e]).
Proof.
  intros Hst Himg. destruct img as [g |].
  - destruct Himg as (f & k & [= <-] & Hp & Hl & Hk). destruct (proof_file_prefix _ _ _ Hp Hk) as [-> Hle].
    rewrite length_fmap, length_app in Hle. cbn in Hle. rewrite <- fmap_take in *.
    assert (Hge : (length results <= k)%nat).
    { destruct Hst as [[-> ->] | ->]; [cbn; lia|]. change (default [] (Some ?x)) with x in Hl.
      rewrite !length_proof_file, !length_fmap, length_take, length_app in Hl. cbn in Hl. lia. }
    destruct (decide (k = length results)) as [-> | Hne].
    + left. right. by rewrite take_app_length.
    + right. right. by rewrite take_ge by (rewrite length_app; cbn; lia).
  - left. destruct Hst as [[_ ->] | ->]; [by left|]. by apply proof_file_nonempty in Himg.
Qed.

Lemma proofs_image_synced f img : f <> [] -> proofs_image (Some f) (length f) img -> img = Some f.
Proof.
  intros Hf Himg. destruct img as [g |]; [|by destruct f].
  destruct Himg as (f' & k & [= <-] & Hp & Hl & _). f_equal. by apply prefix_length_eq.
Qed.

Definition crashed (d : Disk) (n : nat) : Prop := exists p results parts cur extra img, remains d n p results parts cur extra img.

(** Cut off before the proof is on disk: the batch did not happen. *)
Lemma crash_before n w w0 pf p results parts cur i cs k rs img d :
  files_ok w0 pf n p results parts cur -> log !! n = Some (i, cs) ->
  out_holds w (cur ++ records_from 0 i (take k rs)) -> same_place w0 w -> (length (outbox_file cur) <= synced w)%nat ->
  segment_image w img -> segments (d_dir d) = <[seg w := img]> (segments (dir w)) ->
  stored_proofs (d_proofs d) results ->
  d_watermarks d = None /\ d_snapshot d = None /\ d_journal d = None -> crashed d n.
Proof using Hsorted Hu64.
  intros [Hlog Hn Hrec Hh Hpl Hd Hparts Hpf] Hent Hw Hsame Hsy Himg Hseg Hst Hother.
  exists p, results, parts, cur, (records_from 0 i (take k rs)), img.
  eapply remains_intro; try done.
  - by eapply same_place_ok.
  - intros r j Hr Hj. rewrite (records_from_index _ _ _ _ Hr). by eapply index_after.
  - apply records_from_ordered.
Qed.

(** Cut off after: it did. *)
Lemma crash_after w pf n p results parts cur img d :
  files_ok w pf n p results parts cur ->
  segment_image w img -> segments (d_dir d) = <[seg w := img]> (segments (dir w)) ->
  stored_proofs (d_proofs d) results ->
  d_watermarks d = None /\ d_snapshot d = None /\ d_journal d = None -> crashed d n.
Proof using Hsorted Hu64.
  intros [Hlog Hn Hrec Hh Hpl Hd Hparts Hpf] Himg Hseg Hst Hother.
  destruct (durable_file _ _ Hh Hd) as [_ Hs]. exists p, results, parts, cur, [], img.
  eapply remains_intro; try done.
  - by rewrite app_nil_r.
  - by rewrite Hs.
  - intros r j Hr. by apply not_elem_of_nil in Hr.
  - constructor.
Qed.

(** The writers between the first append and the proof. *)
Lemma writer_before n w0 pf p results parts cur i cs rs w :
  files_ok w0 pf n p results parts cur -> log !! n = Some (i, cs) ->
  let wn := (foldl (record_report raft_group_id i) (w0, 0, []) rs).1.1 in
  w ∈ batch_writers w0 i rs ++ [flush_to_os wn; sync_data (flush_to_os wn)] ->
  exists k, out_holds w (cur ++ records_from 0 i (take k rs)) /\ same_place w0 w /\
    (length (outbox_file cur) <= synced w)%nat.
Proof using Hgroup Hu64 Hcmds.
  intros [Hlog Hn Hrec Hh Hpl Hd Hparts Hpf] Hent wn Hw. destruct (entry_ok n i cs Hent) as (Hi & _ & _).
  destruct (durable_file _ _ Hh Hd) as [_ Hs].
  assert (Hfold : forall l, let w' := (foldl (record_report raft_group_id i) (w0, 0, []) l).1.1 in
    out_holds w' (cur ++ records_from 0 i l) /\ same_place w0 w' /\ synced w' = synced w0).
  { intros l. pose proof (record_fold i l w0 0 [] cur Hi ltac:(unfold is_u32; lia) Hh) as Hf.
    destruct (foldl _ _ l) as [[w' o] em]. cbn. tauto. }
  apply elem_of_app in Hw as [Hw | Hw].
  - apply list_elem_of_fmap in Hw as (k & -> & _). exists k. destruct (Hfold (take k rs)) as (H1 & H2 & H3).
    split_and!; [done | done | by rewrite H3, Hs].
  - exists (length rs). rewrite firstn_all. destruct (Hfold rs) as (H1 & H2 & H3). fold wn in H1, H2, H3.
    destruct (holds_flush_to_os wn _ H1) as [F1 F2]. pose proof (same_place_trans _ _ _ H2 F2) as F3.
    apply elem_of_cons in Hw as [-> | Hw].
    + split_and!; [done | done |]. cbn. by rewrite H3, Hs.
    + apply list_elem_of_singleton in Hw as ->. destruct (holds_sync_data _ _ F1) as (S1 & S2 & _ & S4 & _).
      split_and!; [done | by eapply same_place_trans |]. rewrite S4, outbox_file_app, length_app. lia.
Qed.

Lemma crash_remains s n entry c d : shard_ok s n -> (entry = None \/ entry = log !! n) ->
  c ∈ crash_points s entry -> disk_image c d ->
  exists n', (n <= n')%nat /\ (n' <= n + begun entry)%nat /\ crashed d n'.
Proof using Hgroup Hsorted Hu64 Hcmds Hlong.
  unfold begun. intros (results & parts & cur & Hf) Hentry Hc Hd.
  destruct c as [[w pf] k]. destruct Hd as ((img & Himg & Hseg) & Hpimg & Hother).
  pose proof (fo_proofs _ _ _ _ _ _ _ Hf) as Hst.
  assert (Hquiet : (w, pf, k) = (outbox s, proofs s, length (default [] (proofs s))) -> crashed d n).
  { intros [= -> -> ->]. eapply crash_after; try done. by eapply proofs_image_same. }
  destruct entry as [[i cs] |]; [destruct Hentry as [? | Hent]; [done|]; symmetry in Hent |].
  2: { apply list_elem_of_singleton in Hc. exists n. split_and!; [lia | lia | by apply Hquiet]. }
  unfold crash_points in Hc. destruct (process_all ho (processor s) cs) as [[p' rs] |] eqn:Ep.
  2: { apply list_elem_of_singleton in Hc. exists n. split_and!; [lia | lia | by apply Hquiet]. }
  destruct (files_next _ _ _ _ _ _ _ _ _ _ _ Hf Hent Ep) as (Hf1 & w'' & b & parts' & cur' & Hrot & Hf2).
  pose proof (writer_before _ _ _ _ _ _ _ _ _ rs w Hf Hent) as Hbefore. cbv zeta in Hbefore, Hf1, Hrot, Hf2.
  rewrite Hrot in Hc. set (w' := sync_data _) in *. set (wn := (foldl _ _ rs).1.1) in *.
  assert (Hearly : w ∈ batch_writers (outbox s) i rs ++ [flush_to_os wn; w'] -> stored_proofs (d_proofs d) results -> crashed d n).
  { intros Hin Hsp. destruct (Hbefore Hin) as (m & H1 & H2 & H3). by eapply crash_before. }
  rewrite (mark_stored _ _ i rs Hst) in *.
  apply elem_of_app in Hc as [Hc | Hc].
  { apply list_elem_of_fmap in Hc as (w1 & [= -> -> ->] & Hw1). exists n. split_and!; [lia | lia |].
    apply Hearly; [done|]. by eapply proofs_image_same. }
  apply elem_of_app in Hc as [Hc | Hc].
  2: { apply list_elem_of_singleton in Hc as [= -> -> ->]. apply proofs_image_synced in Hpimg; [|done].
       exists (S n). split_and!; [lia | lia |]. eapply crash_after; try done. by right. }
  apply elem_of_cons in Hc as [[= -> -> ->] | Hc].
  - destruct (proofs_image_next _ _ _ _ Hst Hpimg) as [Hsp | Hsp].
    + exists n. split_and!; [lia | lia |]. apply Hearly; [set_solver | done].
    + exists (S n). split_and!; [lia | lia |]. eapply crash_after; [exact Hf1 | done..].
  - apply list_elem_of_singleton in Hc as [= -> -> ->]. apply proofs_image_synced in Hpimg; [|done].
    exists (S n). split_and!; [lia | lia |]. eapply crash_after; [exact Hf1 | done | done | by right | done].
Qed.

(** ** Restart *)
Context (eo : gmap Z MatchingEngine -> list (Z * MatchingEngine)) (zo : gset Z -> list Z).
Context (po : gmap (Z * Z) Z -> list (Z * Z * Z)) (sync_every_n rotate_n : Z).
Context (Hpos : Forall (fun i => 0 < i) log.*1).

Lemma fingerprint_u64 rs : is_u64 (fingerprint_reports rs).
Proof.
  unfold fingerprint_reports. assert (H0 : is_u64 14695981039346656037) by (unfold is_u64; lia).
  revert H0. generalize 14695981039346656037. induction rs as [|r rs IH]; intros h Hh; cbn; [done|].
  apply IH. by apply fnv_range.
Qed.

Lemma proof_of_ok e : is_u64 e.1 -> proof_ok (proof_of e).
Proof. intros H. split_and!; cbn; [done | apply wrap32_range | apply fingerprint_u64]. Qed.

Lemma results_nodup results : results_ok results -> NoDup results.*1.
Proof.
  intros [Hs _]. induction Hs as [|i is' _ IH Hall]; [constructor|]. constructor; [|done].
  intros Hin. rewrite Forall_forall in Hall. specialize (Hall _ Hin). lia.
Qed.

(** The proofs on disk are read back, one for each applied entry. *)
Lemma load_stored pf results : results_ok results -> stored_proofs pf results ->
  exists ps, load_applied_batch_proofs pf = Ok ps /\ load_applied_batches None pf = Ok (∅ ∪ dom ps) /\
    (forall e, e ∈ results -> ps !! e.1 = Some (proof_of e)) /\
    (forall i, i ∈ ∅ ∪ dom ps <-> i ∈ results.*1).
Proof.
  intros Hres Hst. assert (Hnd : NoDup (proof_index <$> (proof_of <$> results))).
  { rewrite <- list_fmap_compose. exact (results_nodup results Hres). }
  assert (Hload : load_applied_batch_proofs pf = Ok (proofs_map ∅ (proof_of <$> results))).
  { destruct Hst as [[-> ->] | ->]; [done|]. rewrite <- (app_nil_r (proof_file _)).
    apply load_proof_file; [|done | cbn; lia]. apply Forall_fmap, Forall_forall. intros e He. apply proof_of_ok.
    destruct Hres as [_ Hu]. rewrite Forall_forall in Hu. apply Hu. by apply list_elem_of_fmap_2. }
  eexists. split; [exact Hload|]. unfold load_applied_batches. rewrite Hload. split; [done|]. split.
  - intros e He. apply (proofs_map_elem (proof_of <$> results) (proof_of e) Hnd). by apply list_elem_of_fmap_2.
  - intros i. rewrite (left_id_L ∅ (∪)), proofs_map_dom by done. by rewrite <- list_fmap_compose.
Qed.

Lemma max_index_spec (A : gset Z) : match max_index A with
  | None => A = ∅
  | Some m => m ∈ A /\ forall i, i ∈ A -> i <= m
  end.
Proof.
  unfold max_index. destruct (elements A) as [|i rest] eqn:E; [by apply elements_empty_inv, leibniz_equiv in E|].
  assert (Hm : forall l j, (foldl Z.max j l = j \/ foldl Z.max j l ∈ l) /\ j <= foldl Z.max j l /\ forall x, x ∈ l -> x <= foldl Z.max j l).
  { induction l as [|x l IH]; intros j; cbn; [split_and!; [by left | done | by intros ? ?%not_elem_of_nil]|].
    destruct (IH (Z.max j x)) as (H1 & H2 & H3). split_and!.
    - destruct H1 as [-> | H1]; [|right; by right]. destruct (Z.max_spec j x) as [[_ ->] | [_ ->]]; [right; left | by left].
    - lia.
    - intros y [-> | Hy]%elem_of_cons; [lia | by apply H3]. }
  destruct (Hm rest i) as (H1 & H2 & H3).
  assert (HA : forall x, x ∈ A <-> x = i \/ x ∈ rest) by (intros x; by rewrite <- elem_of_elements, E, elem_of_cons).
  split; [apply HA; destruct H1 as [-> |]; auto|]. intros x [-> | Hx]%HA; [lia | by apply H3].
Qed.

Lemma latest_of (sealed : gmap Z bytes) n img : (forall k f, sealed !! k = Some f -> k < Z.of_nat n) ->
  latest_segment (mkDir (<[Z.of_nat n := img]> sealed) ∅) = Z.of_nat n.
Proof.
  intros Hs. unfold latest_segment. cbn [segments].
  assert (Hin : Z.of_nat n ∈ (map_to_list (<[Z.of_nat n := img]> sealed)).*1).
  { apply list_elem_of_fmap. exists (Z.of_nat n, img). split; [done|]. apply elem_of_map_to_list. apply lookup_insert_eq. }
  assert (Hle : Forall (fun k => k <= Z.of_nat n) (map_to_list (<[Z.of_nat n := img]> sealed)).*1).
  { apply Forall_forall. intros k Hk. apply list_elem_of_fmap in Hk as ([k' f] & -> & Hk).
    apply elem_of_map_to_list, lookup_insert_Some in Hk as [[<- _] | [_ Hk]]; [done|]. apply Hs in Hk. cbn. lia. }
  revert Hin Hle. generalize (map_to_list (<[Z.of_nat n := img]> sealed)).*1.
  induction l as [|k l IH]; intros Hin Hle; [by apply not_elem_of_nil in Hin|]. cbn.
  apply Forall_cons in Hle as [Hk Hle].
  assert (Hb : 0 <= foldr Z.max 0 l <= Z.of_nat n).
  { clear -Hle. induction Hle as [|x l Hx _ IH]; cbn; lia. }
  apply elem_of_cons in Hin as [<- | Hin]; [lia|]. rewrite IH by done. lia.
Qed.

Lemma upto_app max a b : upto max (a ++ b) = upto max a ++ upto max b.
Proof. apply filter_app. Qed.

Lemma upto_all max l : (forall r, r ∈ l -> raft_index r <= max) -> upto max l = l.
Proof.
  induction l as [|r l IH]; intros H; [done|]. unfold upto. rewrite filter_cons, decide_True by (apply H; left).
  f_equal. apply IH. intros x Hx. apply H. by right.
Qed.

Lemma upto_none max l : (forall r, r ∈ l -> max < raft_index r) -> upto max l = [].
Proof.
  induction l as [|r l IH]; intros H; [done|]. unfold upto. rewrite filter_cons, decide_False.
  - apply IH. intros x Hx. apply H. by right.
  - specialize (H r ltac:(left)). lia.
Qed.

(** The outbox trimmed on a restart holds the records of the applied entries. *)
Lemma trim_remains d n p results parts cur extra img (A : gset Z) : remains d n p results parts cur extra img ->
  (forall i, i ∈ A <-> i ∈ results.*1) ->
  truncate_after_applied (Some img) (max_index A) = Ok (Some (outbox_file cur)).
Proof.
  intros [Hlog Hn Hrec _ [Hpre Hlen] Hok Hex Hord Hparts _ _] HA.
  assert (Hcur : forall r, r ∈ cur -> raft_index r ∈ results.*1).
  { intros r Hr. apply records_index. rewrite <- Hrec. apply elem_of_app. by right. }
  pose proof (max_index_spec A) as Hm. destruct (max_index A) as [m |].
  - destruct Hm as [Hin Hmax]. apply HA in Hin.
    assert (Hup : upto m (cur ++ extra) = cur).
    { rewrite upto_app, upto_all, upto_none, app_nil_r; [done | |].
      - intros r Hr. by apply Hex.
      - intros r Hr. apply Hmax, HA. by apply Hcur. }
    rewrite (truncate_image (cur ++ extra) img m Hok Hord Hpre), Hup; [done|].
    apply Forall_app in Hok as [Hok _]. rewrite length_outbox_file in Hlen by done. by rewrite Hup.
  - subst A. assert (Hnil : cur = []).
    { destruct cur as [|r cur]; [done|]. specialize (Hcur r ltac:(left)). by apply HA, not_elem_of_empty in Hcur. }
    subst cur. cbn in Hlen. destruct (outbox_image _ img Hok Hpre) as (k & torn & E & _ & _); [lia|].
    unfold truncate_after_applied. rewrite (proj2 (Nat.ltb_ge _ _)) by lia.
    rewrite bool_decide_true by by rewrite E. cbn [negb].
    destruct (length img) as [|fuel] eqn:El; [lia|]. cbn [keep_records].
    replace (match read_record (drop 8 img) with Some (_, _) => 8%nat | None => 8%nat end) with 8%nat
      by by destruct (read_record (drop 8 img)) as [[? ?] |].
    by rewrite E.
Qed.

(** The shard as a restart finds it, before the entries are replayed. *)
Lemma start_remains d n p results parts cur extra img : remains d n p results parts cur extra img ->
  exists s, start ho eo zo po p0 d sync_every_n rotate_n = Ret (s, 0) /\ processor s = p0 /\
    files_ok (outbox s) (proofs s) n p results parts cur.
Proof.
  intros Hr. pose proof Hr as [Hlog Hn Hrec (sealed & Hseg & Hsealed) Himg Hok _ _ Hparts Hpf (Hw & Hsn & Hj)].
  pose proof (log_results_ok _ _ _ Hlog) as Hres.
  destruct (load_stored _ _ Hres Hpf) as (ps & _ & Hload & _ & HA).
  assert (Hlt : forall k f, sealed !! k = Some f -> k < Z.of_nat (length parts)).
  { intros k f Hk. apply Hsealed in Hk as (H0 & part & Hpart & _). apply lookup_lt_Some in Hpart. lia. }
  assert (Hlatest : forall img' c, latest_segment (mkDir (<[Z.of_nat (length parts) := img']> sealed) c) = Z.of_nat (length parts)).
  { intros img' c. exact (latest_of sealed (length parts) img' Hlt). }
  unfold start, recover_raft_authoritative. rewrite Hsn, Hj, Hw. cbn [bool_decide decide andb obind].
  destruct d as [[segs curs] wf pf sf jf]. cbn [d_dir segments cursor_files d_proofs] in *. subst segs.
  rewrite Hlatest, lookup_insert_eq, Hload, (trim_remains _ _ _ _ _ _ _ _ _ Hr HA).
  rewrite insert_insert_eq. unfold Writer.open. rewrite Hlatest. cbn [segments cursor_files]. rewrite lookup_insert_eq.
  assert (Hopen : open_segment (Some (outbox_file cur)) = Ok (outbox_file cur)) by done.
  rewrite Hopen. cbn [try_bind]. eexists. split; [done|]. split; [done|].
  apply Forall_app in Hok as [Hok _]. constructor; cbn [outbox proofs]; try done.
  - unfold out_holds. cbn [with_rotate_bytes file buf synced]. rewrite app_nil_r, length_outbox_file by done.
    split_and!; done || lia.
  - unfold place_ok. cbn [with_rotate_bytes dir seg next_segment_seq segments]. rewrite delete_insert_id.
    + split_and!; done.
    + destruct (sealed !! _) as [f |] eqn:E; [|done]. apply Hlt in E. lia.
Qed.

(** Entries with a proof only rebuild the processor. *)
Lemma replay_proved (A : gset Z) ps l p p' rs s : apply_log p l = Ret (p', rs) ->
  Forall (fun e => 0 < e.1 /\ e.2 <> []) l ->
  (forall e, e ∈ rs -> ps !! e.1 = Some (proof_of e) /\ e.1 ∈ A) -> processor s = p ->
  exists s', ofold (replay_entry ho raft_group_id 0 A ps) s l = Ret s' /\ processor s' = p' /\
    outbox s' = outbox s /\ proofs s' = proofs s.
Proof.
  intros Hl Hok Hps. revert p rs s Hl Hps. induction Hok as [|[i cs] l [Hi Hcs] _ IH]; intros p rs s Hl Hps Hs; cbn in Hl.
  - injection Hl as <- _. by exists s.
  - destruct (process_all ho p cs) as [[p1 r1] |] eqn:E1; cbn in Hl; [|done].
    destruct (apply_log p1 l) as [[p2 r2] |] eqn:E2; cbn in Hl; [|done]. injection Hl as <- <-.
    destruct (Hps (i, r1) ltac:(left)) as [Hp HA]. cbn in Hp, HA, Hi, Hcs.
    set (s1 := mkShard p1 (outbox s) (proofs s) i (emitted s)).
    assert (Hstep : replay_entry ho raft_group_id 0 A ps s (i, cs) = Ret s1).
    { unfold replay_entry. rewrite (proj2 (Z.leb_gt _ _)) by done. rewrite bool_decide_false, bool_decide_true, Hp by done.
      cbn [expect obind proof_index proof_of report_proof fst]. unfold handle_committed_batch.
      rewrite bool_decide_false by done. cbn [proof_index proof_of report_proof fst snd]. rewrite Z.eqb_refl. cbn [assert_that].
      rewrite Hs, E1. cbn [obind fst snd]. unfold verify_applied_batch, report_proof. cbn [report_count report_fingerprint].
      by rewrite !Z.eqb_refl. }
    cbn [ofold]. rewrite Hstep. cbn [obind].
    destruct (IH p1 r2 s1 E2) as (s' & H1 & H2 & H3 & H4); [|done | by exists s'].
    intros e He. apply Hps. by right.
Qed.

Lemma log_entries n : Forall (fun e => 0 < e.1 /\ e.2 <> []) (take n log).
Proof using Hpos Hcmds.
  apply Forall_take, Forall_forall. intros e He. split.
  - by apply (proj1 (Forall_forall _ _) Hpos), list_elem_of_fmap_2.
  - by apply (proj1 (Forall_forall _ _) Hcmds).
Qed.

(** The log runs through. *)
Context (pe : Processor) (all : list (Z * list ExecReport)) (Hrun : apply_log p0 log = Ret (pe, all)).

Lemma next_runs n p results i cs : apply_log p0 (take n log) = Ret (p, results) -> log !! n = Some (i, cs) ->
  exists p' rs, process_all ho p cs = Ret (p', rs).
Proof using Hrun.
  intros Hl Hn. rewrite <- (take_drop_middle _ _ _ Hn), apply_log_app, Hl in Hrun. cbn in Hrun.
  destruct (process_all ho p cs) as [[p' rs] |]; [by eexists _, _ | done].
Qed.

(** Entries without a proof are applied. *)
Lemma replay_rest (A : gset Z) ps k n s : shard_ok s n -> (n + k <= length log)%nat ->
  (forall i, i ∈ A -> i ∈ (take n log).*1) ->
  exists s', ofold (replay_entry ho raft_group_id 0 A ps) s (take k (drop n log)) = Ret s' /\ shard_ok s' (n + k).
Proof.
  revert n s. induction k as [|k IH]; intros n s Hs Hlen HA.
  - rewrite Nat.add_0_r. by exists s.
  - destruct (lookup_lt_is_Some_2 log n ltac:(lia)) as [[i cs] Hn]. rewrite (drop_S _ _ _ Hn). cbn [take ofold].
    destruct (entry_ok n i cs Hn) as (Hi & Hcs & _). pose proof Hs as (results & parts & cur & Hf).
    destruct (next_runs n _ _ i cs (fo_log _ _ _ _ _ _ _ Hf) Hn) as (p' & rs & Hp).
    destruct (handle_ok s n i cs p' rs Hs Hn Hp) as (s1 & Hh & Hs1).
    assert (Hnot : i ∉ A).
    { intros Hin%HA. rewrite <- (take_drop_middle _ _ _ Hn), fmap_app in Hsorted.
      pose proof (StronglySorted_app_1_elem_of _ _ _ i i Hsorted Hin) as Hlt. cbn in Hlt. specialize (Hlt ltac:(left)). lia. }
    assert (Hi0 : 0 < i).
    { rewrite Forall_forall in Hpos. apply Hpos, list_elem_of_fmap. exists (i, cs). split; [done|].
      by eapply list_elem_of_lookup_2. }
    assert (Hstep : replay_entry ho raft_group_id 0 A ps s (i, cs) = Ret s1).
    { unfold replay_entry. rewrite (proj2 (Z.leb_gt _ _)) by done. by rewrite !bool_decide_false. }
    rewrite Hstep. cbn [obind]. replace (n + S k)%nat with (S n + k)%nat by lia. apply IH; [done | lia |].
    intros j Hj. rewrite (take_S_r _ _ _ Hn), fmap_app. apply elem_of_app. left. by apply HA.
Qed.

Lemma restart_ok d n m : crashed d n -> (n <= m <= length log)%nat ->
  exists s, restart ho eo zo po raft_group_id p0 d sync_every_n rotate_n (take m log) = Ret s /\ shard_ok s m.
Proof.
  intros (p & results & parts & cur & extra & img & Hr) Hm.
  destruct (start_remains _ _ _ _ _ _ _ _ Hr) as (s0 & Hstart & Hp0 & Hf).
  pose proof (re_log _ _ _ _ _ _ _ _ Hr) as Hlog. pose proof (re_other _ _ _ _ _ _ _ _ Hr) as (Hw & _ & _).
  destruct (load_stored _ _ (log_results_ok _ _ _ Hlog) (re_proofs _ _ _ _ _ _ _ _ Hr)) as (ps & Hl1 & Hl2 & Hps & HA).
  unfold restart. rewrite Hstart. cbn [obind fst snd]. rewrite Hw, Hl2, Hl1.
  assert (Hsplit : take m log = take n log ++ take (m - n) (drop n log)).
  { rewrite <- (take_drop n (take m log)), take_take, skipn_firstn_comm. f_equal. f_equal. lia. }
  rewrite Hsplit, ofold_app.
  destruct (replay_proved (∅ ∪ dom ps) ps (take n log) p0 p results s0 Hlog) as (s1 & -> & H1 & H2 & H3).
  - apply log_entries.
  - intros e He. split; [by apply Hps|]. apply HA. by apply list_elem_of_fmap_2.
  - done.
  - cbn [obind]. destruct (replay_rest (∅ ∪ dom ps) ps (m - n) n s1) as (s2 & -> & Hs2).
    + exists results, parts, cur. by rewrite H1, H2, H3.
    + lia.
    + intros i Hi. apply HA in Hi. by rewrite <- (apply_log_indices _ _ _ _ Hlog).
    + exists s2. split; [done|]. by replace m with (n + (m - n))%nat by lia.
Qed.

(** A new node has no files. *)
Definition blank_disk : Disk := mkDisk (mkDir ∅ ∅) None None None None.

Lemma start_blank : exists s, start ho eo zo po p0 blank_disk sync_every_n rotate_n = Ret (s, 0) /\ shard_ok s 0.
Proof.
  unfold start, recover_raft_authoritative. cbn [d_snapshot d_journal d_watermarks d_proofs blank_disk bool_decide decide andb obind].
  eexists. split; [done|]. exists [], [], []. constructor; cbn; try done; try lia. by left.
Qed.

(** The publisher moves its cursors whenever it likes. *)
Definition with_cursors (s : Shard) (c : gmap Z bytes) : Shard :=
  let w := outbox s in
  mkShard (processor s)
    (mkWriter (mkDir (segments (dir w)) c) (seg w) (file w) (synced w) (buf w) (next_segment_seq w)
       (segment_bytes w) (rotate_bytes w) (written_since_flush w) (sync_every w))
    (proofs s) (last_raft_index s) (emitted s).
End once.

(** ** Every process with its own orders *)

(** A log whose entries give the same results whatever the hash orders are. *)
Definition steady (log : list (Z * list Command)) : Prop := Forall (fun e => order_free e.2) log.

Lemma apply_log_any_order ho ho' log p : steady log -> apply_log ho p log = apply_log ho' p log.
Proof.
  intros H. revert p. induction H as [|[i cs] log Hcs H IH]; intros p; cbn; [done|].
  rewrite (process_all_any_order ho ho') by done. destruct (process_all ho' p cs) as [[p1 r1]|]; cbn; [|done]. by rewrite IH.
Qed.

Lemma shard_ok_any_order ho ho' gid p0 log s n : steady log -> shard_ok ho gid p0 log s n -> shard_ok ho' gid p0 log s n.
Proof.
  intros Hst (results & parts & cur & [H1 H2 H3 H4 H5 H6 H7 H8]). exists results, parts, cur. constructor; try done.
  rewrite (apply_log_any_order ho' ho) by (by apply Forall_take). done.
Qed.

Section lives.
Context (raft_group_id : Z) (p0 : Processor) (log : list (Z * list Command)) (sync_n rotate_n : Z).

(** A shard in service: [reach s n] when [s] has taken in the first [n] entries.
    Every start has hash orders of its own, and nothing ties those of one step to
    those of another. *)
Inductive reach : Shard -> nat -> Prop :=
| reach_start ho eo zo po s : start ho eo zo po p0 blank_disk sync_n rotate_n = Ret (s, 0) -> reach s 0
| reach_apply ho s n i cs s' : reach s n -> log !! n = Some (i, cs) ->
    handle_committed_batch ho raft_group_id s i cs None = Ret s' -> reach s' (S n)
| reach_publish s n c : reach s n -> reach (with_cursors s c) n
| reach_crash ho ho' eo zo po s n entry c d m s' : reach s n -> (entry = None \/ entry = log !! n) ->
    c ∈ crash_points ho raft_group_id s entry -> disk_image c d ->
    (n + begun entry <= m <= length log)%nat ->
    restart ho' eo zo po raft_group_id p0 d sync_n rotate_n (take m log) = Ret s' -> reach s' m.

(** What the log and the run of it satisfy. *)
Record log_ok (ho : OrderBook -> list (Z * nat)) (pe : Processor) (all : list (Z * list ExecReport)) : Prop := {
  lo_group : is_u32 raft_group_id;
  lo_sorted : StronglySorted Z.lt log.*1;
  lo_u64 : Forall is_u64 log.*1;
  lo_pos : Forall (fun i => 0 < i) log.*1;
  lo_cmds : Forall (fun e => e.2 <> []) log;
  lo_long : Z.of_nat (length log) < U64_MAX;
  lo_steady : steady log;
  lo_run : apply_log ho p0 log = Ret (pe, all)
}.

Lemma log_ok_any_order ho ho' pe all : log_ok ho pe all -> log_ok ho' pe all.
Proof. intros [H1 H2 H3 H4 H5 H6 H7 H8]. constructor; try done. by rewrite (apply_log_any_order ho' ho). Qed.

Abbreviation taken ho := (shard_ok ho raft_group_id p0 log).

(** The next entry, in any process. *)
Lemma next_taken ho pe all s n i cs : log_ok ho pe all -> taken ho s n -> log !! n = Some (i, cs) ->
  exists s', handle_committed_batch ho raft_group_id s i cs None = Ret s' /\ taken ho s' (S n).
Proof.
  intros [Hg Hsort Hu Hpos Hcs Hlong Hst Hrun] Hok Hn. pose proof Hok as (results & parts & cur & Hf).
  destruct (next_runs ho p0 log pe all Hrun n _ _ i cs (fo_log _ _ _ _ _ _ _ _ _ _ _ Hf) Hn) as (p' & rs & Hp).
  by apply (handle_ok ho raft_group_id Hg p0 log Hu Hcs Hlong s n i cs p' rs).
Qed.

(** A crash of one process and the start of the next. *)
Lemma restart_taken ho ho' eo zo po pe all s n entry c d m : log_ok ho pe all -> taken ho s n ->
  (entry = None \/ entry = log !! n) -> c ∈ crash_points ho raft_group_id s entry -> disk_image c d ->
  (n + begun entry <= m <= length log)%nat ->
  exists s', restart ho' eo zo po raft_group_id p0 d sync_n rotate_n (take m log) = Ret s' /\ taken ho s' m.
Proof.
  intros [Hg Hsort Hu Hpos Hcs Hlong Hst Hrun] Hok He Hc Hd Hm.
  destruct (crash_remains ho raft_group_id Hg p0 log Hsort Hu Hcs Hlong s n entry c d Hok He Hc Hd) as (n' & N1 & N2 & Hcr).
  assert (Hcr' : crashed ho' raft_group_id p0 log d n').
  { destruct Hcr as (p & results & parts & cur & extra & img & [C1 C2 C3 C4 C5 C6 C7 C8 C9 C10 C11]).
    exists p, results, parts, cur, extra, img. constructor; try done.
    rewrite (apply_log_any_order ho' ho) by (by apply Forall_take). done. }
  rewrite (apply_log_any_order ho ho') in Hrun by done.
  destruct (restart_ok ho' raft_group_id Hg p0 log Hsort Hu Hcs Hlong eo zo po sync_n rotate_n Hpos pe all Hrun d n' m Hcr' ltac:(lia))
    as (s' & E & Hs'). exists s'. split; [done|]. by eapply shard_ok_any_order.
Qed.

Lemma reach_ok ho pe all s n : log_ok ho pe all -> reach s n -> taken ho s n.
Proof.
  intros Hlog Hr. pose proof (lo_steady _ _ _ Hlog) as Hst.
  induction Hr as [o eo zo po s Hs | o s n i cs s' _ IH Hn Hh | s n c _ IH | o o' eo zo po s n entry c d m s' _ IH He Hc Hd Hm Hr].
  - destruct (start_blank o raft_group_id p0 log eo zo po sync_n rotate_n) as (s1 & E & H1). rewrite Hs in E. injection E as <-.
    by apply (shard_ok_any_order o).
  - apply (shard_ok_any_order o); [done|]. apply (shard_ok_any_order ho o) in IH; [|done].
    destruct (next_taken o pe all s n i cs) as (s1 & E & H1); [by apply (log_ok_any_order ho)|done|done|]. congruence.
  - destruct IH as (results & parts & cur & [? ? ? Hh Hp Hd ? ?]). exists results, parts, cur. by constructor.
  - apply (shard_ok_any_order o); [done|]. apply (shard_ok_any_order ho o) in IH; [|done].
    destruct (restart_taken o o' eo zo po pe all s n entry c d m) as (s1 & E & H1); try done; [by apply (log_ok_any_order ho)|].
    congruence.
Qed.
End lives.

(** C5: Exactly once, across crashes.  Let a shard be fed the committed log of
    batches with growing positive indices, which the processor gets through without
    a panic.  Between and within batches let it crash any number
    of times, at any step that reaches the disk, losing any part of what was not
    synced (whole records in the proof file), and let it be restarted on what is
    left with any longer prefix of the log, while the publisher moves its cursors.
    Then the processor is where the entries taken in put it, and the segments
    ever written hold the execution records of these entries, each exactly once
    and in order: the current segment holds the last of them, all on disk, and a
    sealed segment that is still there is what was sealed.  The next entry is
    always accepted, and a restart always succeeds.  Every process has hash orders
    of its own; the log contains no force close, whose reports depend on them
    ([steady]).  The shard is started with the same configuration each time and
    runs without engine snapshots and without a journal of an older mode, so that a
    restart replays the log from its beginning. *)
Theorem committed_exactly_once (ho : OrderBook -> list (Z * nat)) (raft_group_id : Z) (p0 pe : Processor)
    (log : list (Z * list Command)) (all : list (Z * list ExecReport)) (sync_n rotate_n : Z) (s : Shard) (n : nat) :
  is_u32 raft_group_id -> StronglySorted Z.lt log.*1 -> Forall is_u64 log.*1 -> Forall (fun i => 0 < i) log.*1 ->
  Forall (fun e => e.2 <> []) log -> Z.of_nat (length log) < U64_MAX -> steady log ->
  apply_log ho p0 log = Ret (pe, all) ->
  reach raft_group_id p0 log sync_n rotate_n s n ->
  (exists results parts cur,
     apply_log ho p0 (take n log) = Ret (processor s, results) /\
     concat parts ++ cur = concat (records_of raft_group_id <$> results) /\
     file (outbox s) = outbox_file cur /\ synced (outbox s) = length (file (outbox s)) /\ buf (outbox s) = [] /\
     (forall k f, segments (dir (outbox s)) !! k = Some f ->
        0 <= k /\ exists part, parts !! Z.to_nat k = Some part /\ f = outbox_file part)) /\
  (forall o i cs, log !! n = Some (i, cs) -> exists s', handle_committed_batch o raft_group_id s i cs None = Ret s') /\
  (forall o o' eo zo po entry c d m, (entry = None \/ entry = log !! n) -> c ∈ crash_points o raft_group_id s entry ->
     disk_image c d -> (n + begun entry <= m <= length log)%nat ->
     exists s', restart o' eo zo po raft_group_id p0 d sync_n rotate_n (take m log) = Ret s').
Proof.
  intros Hg Hsort Hu Hpos Hcs Hlong Hst Hrun Hreach.
  assert (Hlog : forall o, log_ok raft_group_id p0 log o pe all).
  { intros o. apply (log_ok_any_order _ _ _ ho). by constructor. }
  pose proof (fun o => reach_ok _ _ _ _ _ o pe all s n (Hlog o) Hreach) as Hok.
  pose proof (Hok ho) as (results & parts & cur & [H1 _ H3 H4 [H5 H8] [H6 H7] _ _]). split; [|split].
  - destruct (durable_file _ _ H4 (conj H6 H7)) as [Hfile _]. by exists results, parts, cur.
  - intros o i cs Hn. destruct (next_taken _ _ _ o pe all s n i cs (Hlog o) (Hok o) Hn) as (s' & E & _). by exists s'.
  - intros o o' eo zo po entry c d m He Hc Hd Hm.
    destruct (restart_taken _ _ _ sync_n rotate_n o o' eo zo po pe all s n entry c d m (Hlog o) (Hok o) He Hc Hd Hm) as (s' & E & _).
    by exists s'.
Qed.

Definition rev_order (b : OrderBook) : list (Z * nat) := rev (map_order b).

Definition example_log : list (Z * list Command) := [(1, [CHalt 1 5]); (2, [CResume 1 6; CHaltUser 1 9 7])].

(** A crash within the first batch: its records are on disk, its proof is lost. *)
Definition first_start : Shard :=
  match start map_order map_to_list elements map_to_list example_proc blank_disk 1 100 with
  | Ret (s, _) => s
  | Panic _ => mkShard example_proc (mkWriter (mkDir ∅ ∅) 0 [] 0 [] 0 0 None 0 0) None 0 []
  end.

Definition cut_off : Writer * option bytes * nat :=
  default (outbox first_start, None, 0%nat) (crash_points map_order 0 first_start (Some (1, [CHalt 1 5])) !! 4%nat).

Definition cut_disk : Disk :=
  mkDisk (mkDir (<[seg cut_off.1.1 := file cut_off.1.1]> (segments (dir cut_off.1.1))) ∅) None None None None.

Lemma first_start_reach : reach 0 example_proc example_log 1 100 first_start 0.
Proof.
  destruct (start_blank map_order 0 example_proc example_log map_to_list elements map_to_list 1 100) as (s & E & _).
  apply (reach_start _ _ _ _ _ map_order map_to_list elements map_to_list). unfold first_start. by rewrite E.
Qed.

Lemma cut_off_point : cut_off ∈ crash_points map_order 0 first_start (Some (1, [CHalt 1 5])) /\
  disk_image cut_off cut_disk /\ (file cut_off.1.1 = outbox_file [mkOut 0 1 0 (encode_report (RHalted 1))]).
Proof.
  assert (H : match crash_points map_order 0 first_start (Some (1, [CHalt 1 5])) !! 4%nat with
    | Some (w, pf, n) => n = 0%nat /\ (synced w <= length (file w))%nat /\ file w = outbox_file [mkOut 0 1 0 (encode_report (RHalted 1))]
    | None => False end).
  { vm_compute. split_and!; [reflexivity|lia|reflexivity]. }
  unfold cut_disk, cut_off. destruct (crash_points _ _ _ _ !! 4%nat) as [[[w pf] n]|] eqn:E; [|done]. destruct H as (-> & H1 & H2).
  split; [by apply list_elem_of_lookup_2 in E|]. split; [|exact H2]. cbn [default fst].
  split; [|by split_and!]. exists (file w). split; [|done]. split; [done|exact H1].
Qed.

Lemma committed_exactly_once_witness :
  exists s results, restart rev_order map_to_list elements map_to_list 0 example_proc cut_disk 1 100 example_log = Ret s /\
    apply_log map_order example_proc example_log = Ret (processor s, results).
Proof.
  assert (Hret : is_ret (apply_log map_order example_proc example_log) = true) by (vm_compute; reflexivity).
  destruct (apply_log map_order example_proc example_log) as [[pe all] |] eqn:Hrun; [|discriminate].
  destruct cut_off_point as (Hc & Hd & _).
  assert (H := fun s n => committed_exactly_once map_order 0 example_proc pe example_log all 1 100 s n
    ltac:(unfold_width; lia) ltac:(repeat constructor)
    ltac:(repeat apply Forall_cons_2; [cbn; unfold_width; lia.. | apply Forall_nil_2])
    ltac:(repeat apply Forall_cons_2; [cbn; lia.. | apply Forall_nil_2])
    ltac:(repeat apply Forall_cons_2; [cbn; discriminate.. | apply Forall_nil_2])
    ltac:(cbn; lia) ltac:(by repeat constructor) Hrun).
  destruct (H first_start 0%nat first_start_reach) as (_ & _ & Hre).
  destruct (Hre map_order rev_order map_to_list elements map_to_list (Some (1, [CHalt 1 5])) cut_off cut_disk 2%nat
    (or_intror eq_refl) Hc Hd ltac:(cbn; lia)) as [s Hs].
  destruct (H s 2%nat) as ((results & parts & cur & Hl & _) & _).
  - apply (reach_crash _ _ _ _ _ map_order rev_order map_to_list elements map_to_list first_start 0 (Some (1, [CHalt 1 5]))
      cut_off cut_disk 2 s first_start_reach (or_intror eq_refl) Hc Hd ltac:(cbn; lia) Hs).
  - exists s, results. split; [exact Hs|]. rewrite <-Hrun. exact Hl.
Defined.

(** ** What the conditions are for *)

Definition file_after (c : outcome (Shard * Z)) : option bytes :=
  match c with Ret (s, _) => Some (file (outbox s)) | Panic _ => None end.

(** An unreadable proof file counts as no proof at all, and the start then trims
    every record from the newest segment, published or not: here one crash that
    tore a proof, followed by one more batch, costs a synced record at the next
    start. *)
Theorem unreadable_proofs_wipe_outbox :
  let r := mkOut 0 1 0 (encode_report (RHalted 1)) in
  let pf := mark_applied_batch (Some (take 50 (proof_file [mkProof 1 1 5; mkProof 2 1 5]))) 2 1 5 in
  let d := mkDisk (mkDir {[0 := outbox_file [r]]} ∅) None (Some pf) None None in
  file_after (start map_order map_to_list elements (fun m => map_to_list m) example_proc d 1 100) = Some (outbox_file []) /\
  outbox_file [] <> outbox_file [r].
Proof. split; [vm_compute; reflexivity | discriminate]. Qed.

(** The reports of a forced close follow the order of a hash table, which differs
    from process to process: two runs that walk the same book in two orders
    produce result streams with different proofs, and the replay of the entry is
    refused. *)
Definition two_orders : Processor := (result example_proc
  (process_all map_order example_proc [new_on 1 7 Sell 100 5; new_on 2 7 Sell 101 5])).1.

Theorem force_close_not_replayable :
  (forall b, BookFacts.hash_order b (map_order b) /\ BookFacts.hash_order b (rev_order b)) /\
  exists p1 p2 rs1 rs2,
    process_all map_order two_orders [CForceClose 1 7 9 Buy 0] = Ret (p1, rs1) /\
    process_all rev_order two_orders [CForceClose 1 7 9 Buy 0] = Ret (p2, rs2) /\
    verify_applied_batch (report_proof 1 rs1) (wrap32 (Z.of_nat (length rs2))) (fingerprint_reports rs2) =
      Err "Raft replay mismatch".
Proof.
  split.
  - intros b. split; [apply map_order_ok|]. unfold BookFacts.hash_order, rev_order, map_order. symmetry. apply Permutation_rev.
  - set (c1 := process_all map_order two_orders [CForceClose 1 7 9 Buy 0]).
    set (c2 := process_all rev_order two_orders [CForceClose 1 7 9 Buy 0]).
    exists (result example_proc c1).1, (result example_proc c2).1, (result example_proc c1).2, (result example_proc c2).2.
    split_and!; [apply result_ret; vm_compute; reflexivity..|]. vm_compute. reflexivity.
Qed.
