(* ===== verification/Node.v ===== *)
(** * The Raft node's runtime

    [src/src/bin/raft_node.rs]: the window of recently committed ids
    ([CommittedIdWindow]) and the two loops that hand committed entries to the
    matching shard, the one over the entries recovered at startup and the one over
    the entries committed while the node runs.

    The node has one shard and no configured instruments, so every batch goes
    through the shard's high-priority ring, which is a queue ([Ring.v]): the shard
    handles the batches in the order they are submitted, which is how they are
    modelled, in one step each.  Metrics, waiting clients and the sockets are left
    out. *)

From S2P Require Import Prelude Types Strategy Book Engine Bytes Protocol Wire RaftLog RaftNode.
From S2P Require Import Outbox Applied Snapshot Processor ProcessorProps Recovery Commit CommitProps.
Import Processor.

Module CommittedIdWindow.

Record CommittedIdWindow := mkWindow {
  indexes : gmap Z Z;
  insertion_order : list Z;
  max_ids : Z
}.

Definition new (max_ids : Z) : CommittedIdWindow := mkWindow ∅ [] (Z.max max_ids 1).

Definition get (w : CommittedIdWindow) (id : Z) : option Z := indexes w !! id.

Definition contains (w : CommittedIdWindow) (id : Z) : bool := bool_decide (is_Some (indexes w !! id)).

(** The body of the [while]; with ids but an empty order it would turn forever. *)
Definition evict (max : Z) (st : gmap Z Z * list Z) : outcome (gmap Z Z * list Z + gmap Z Z * list Z) :=
  if Z.of_nat (size st.1) <=? max then Ret (inr st)
  else
    match st.2 with
    | expired :: rest => Ret (inl (delete expired st.1, rest))
    | [] => Ret (inl st)
    end.

Definition remember (w : CommittedIdWindow) (id index : Z) : outcome CommittedIdWindow :=
  if (id =? 0) || contains w id then Ret w
  else
    let st := (<[id := index]> (indexes w), insertion_order w ++ [id]) in
    let! st := loop (Pos.of_succ_nat (size st.1)) (evict (max_ids w)) st in
    Ret (mkWindow st.1 st.2 (max_ids w)).

End CommittedIdWindow.
Import CommittedIdWindow.

(** ** The window's invariant *)
Definition window_ok (w : CommittedIdWindow) : Prop :=
  NoDup (insertion_order w) /\ dom (indexes w) = list_to_set (insertion_order w) /\ 1 <= max_ids w /\
  Z.of_nat (length (insertion_order w)) <= max_ids w.

Lemma window_size w : window_ok w -> size (indexes w) = length (insertion_order w).
Proof. intros (Hn & Hd & _). by rewrite <- size_dom, Hd, size_list_to_set. Qed.

Lemma contains_order w id : window_ok w -> contains w id = bool_decide (id ∈ insertion_order w).
Proof.
  intros (_ & Hd & _). unfold contains. apply bool_decide_ext. rewrite <- elem_of_dom, Hd. apply elem_of_list_to_set.
Qed.

Lemma new_window_ok m : window_ok (new m).
Proof. unfold window_ok, new. cbn. split_and!; [apply NoDup_nil_2 | by rewrite dom_empty_L | lia | lia]. Qed.

(** The ids after a fresh one: at most one, the oldest, makes room. *)
Definition pushed (w : CommittedIdWindow) (id : Z) : list Z :=
  if Z.of_nat (length (insertion_order w)) <? max_ids w then insertion_order w ++ [id]
  else tail (insertion_order w) ++ [id].

Lemma remember_fresh w id i : window_ok w -> id <> 0 -> id ∉ insertion_order w ->
  exists w', remember w id i = Ret w' /\ window_ok w' /\ insertion_order w' = pushed w id /\ max_ids w' = max_ids w /\
    indexes w' !! id = Some i /\ (forall x, x ∈ pushed w id -> x <> id -> indexes w' !! x = indexes w !! x).
Proof.
  intros Hw Hid Hin. pose proof (window_size w Hw) as Hsz. pose proof Hw as (Hn & Hd & H1 & Hl). unfold remember.
  rewrite (proj2 (Z.eqb_neq id 0)), contains_order, bool_decide_false by done. cbn [orb fst].
  assert (Hnone : indexes w !! id = None) by (apply not_elem_of_dom; rewrite Hd; by rewrite elem_of_list_to_set).
  assert (Hn' : NoDup (insertion_order w ++ [id])).
  { apply NoDup_app. split_and!; [done| |apply NoDup_singleton]. intros x Hx ->%list_elem_of_singleton. done. }
  rewrite map_size_insert_None, Hsz by done. unfold pushed. destruct (_ <? _) eqn:Ec; zbool.
  - unfold loop. rewrite iter_pos_nat, SuccNat2Pos.id_succ. cbn [iter_nat].
    unfold evict at 1. cbn [fst]. rewrite map_size_insert_None, Hsz by done.
    rewrite (proj2 (Z.leb_le _ _)) by lia. cbn [obind fst snd]. eexists. split; [done|].
    unfold window_ok. cbn [insertion_order indexes max_ids]. split_and!; try done.
    + rewrite dom_insert_L, Hd, list_to_set_app_L. set_solver.
    + rewrite length_app. cbn. lia.
    + by rewrite lookup_insert_eq.
    + intros x _ Hx. by rewrite lookup_insert_ne.
  - destruct (insertion_order w) as [|old rest] eqn:Eo; [cbn in *; lia|]. cbn [length] in *.
    unfold loop. rewrite iter_pos_nat, SuccNat2Pos.id_succ. cbn [iter_nat].
    unfold evict at 1. cbn [fst snd]. rewrite map_size_insert_None, Hsz by done.
    rewrite (proj2 (Z.leb_gt _ _)) by lia. cbn [obind]. change ((old :: rest) ++ [id]) with (old :: (rest ++ [id])) in *.
    assert (Hold : is_Some (indexes w !! old)) by (apply elem_of_dom; rewrite Hd; set_solver).
    assert (Hne : old <> id) by (intros ->; apply Hin; by left).
    assert (Hsz' : size (delete old (<[id := i]> (indexes w))) = S (length rest)).
    { rewrite map_size_delete, lookup_insert_ne by done. destruct Hold as [? ->]. rewrite map_size_insert_None by done. lia. }
    unfold evict at 1. cbn [fst snd]. rewrite Hsz', (proj2 (Z.leb_le _ _)) by lia. cbn [obind fst snd].
    eexists. split; [done|]. unfold window_ok. cbn [insertion_order indexes max_ids tail]. split_and!; try done.
    + by apply NoDup_cons in Hn' as [_ ?].
    + rewrite dom_delete_L, dom_insert_L, Hd, list_to_set_app_L. apply NoDup_cons in Hn as [Ho _].
      cbn [list_to_set]. set_solver.
    + rewrite length_app. cbn. lia.
    + by rewrite lookup_delete_ne, lookup_insert_eq by done.
    + intros x Hx Hxi. rewrite lookup_delete_ne, lookup_insert_ne; [done|done|]. intros ->.
      apply NoDup_cons in Hn as [Ho _]. apply elem_of_app in Hx as [?|Hx]; [done|]. by apply list_elem_of_singleton in Hx.
Qed.

(** An id already in the window, and the id 0, change nothing. *)
Lemma remember_known w id i : window_ok w -> id = 0 \/ id ∈ insertion_order w -> remember w id i = Ret w.
Proof.
  intros Hw H. unfold remember. rewrite contains_order by done.
  destruct H as [-> |H]; [done|]. rewrite (bool_decide_true _ H). by rewrite orb_true_r.
Qed.

Definition remember_all (w : CommittedIdWindow) (ids : list (Z * Z)) : outcome CommittedIdWindow :=
  ofold (fun w p => remember w p.1 p.2) w ids.

Lemma remember_total w id i : window_ok w -> exists w', remember w id i = Ret w' /\ window_ok w' /\ max_ids w' = max_ids w.
Proof.
  intros Hw. destruct (decide (id = 0 \/ id ∈ insertion_order w)) as [H|H].
  - exists w. by rewrite remember_known.
  - destruct (remember_fresh w id i Hw) as (w' & ? & ? & _ & ? & _); [tauto..|]. by exists w'.
Qed.

(** [id] is in the window, with at most [k] younger ids. *)
Definition young (w : CommittedIdWindow) (id i : Z) (k : nat) : Prop :=
  indexes w !! id = Some i /\ exists pre post, insertion_order w = pre ++ id :: post /\ (length post <= k)%nat.

(** It survives the next id if it is not the oldest of a full window. *)
Lemma remember_keeps w id i k x j : window_ok w -> young w id i k -> Z.of_nat k + 1 < max_ids w ->
  exists w', remember w x j = Ret w' /\ window_ok w' /\ max_ids w' = max_ids w /\ young w' id i (S k).
Proof.
  intros Hw (Hi & pre & post & Eo & Hp) Hk. destruct (decide (x = 0 \/ x ∈ insertion_order w)) as [H|H].
  - exists w. rewrite remember_known by done. split_and!; try done. split; [done|]. exists pre, post. split; [done|lia].
  - destruct (remember_fresh w x j Hw) as (w' & E & Hw' & Ho & Hm & _ & Hkeep); [tauto..|]. exists w'. split_and!; try done.
    assert (Hpush : exists pre', pushed w x = pre' ++ id :: post ++ [x]).
    { unfold pushed. rewrite Eo. destruct (_ <? _) eqn:Ec; zbool.
      - exists pre. by rewrite <-(assoc_L (++)).
      - destruct pre as [|a pre]; [rewrite length_app in Ec; cbn in Ec; lia|]. exists pre. cbn. by rewrite <-(assoc_L (++)). }
    destruct Hpush as [pre' Hpush]. split.
    + rewrite (Hkeep id); [done|rewrite Hpush; set_solver|]. intros ->. apply H. right. rewrite Eo. set_solver.
    + exists pre', (post ++ [x]). split; [by rewrite Ho|]. rewrite length_app. cbn. lia.
Qed.

Lemma remember_all_keeps ids w id i k : window_ok w -> young w id i k -> Z.of_nat (k + length ids) < max_ids w ->
  exists w', remember_all w ids = Ret w' /\ window_ok w' /\ young w' id i (k + length ids).
Proof.
  unfold remember_all. revert w k. induction ids as [|[x j] ids IH]; intros w k Hw Hy Hk; cbn [length] in *.
  - exists w. by replace (k + 0)%nat with k by lia.
  - destruct (remember_keeps w id i k x j Hw Hy) as (w1 & E & Hw1 & Hm & Hy1); [lia|]. cbn [ofold fst snd]. rewrite E.
    cbn [obind]. destruct (IH w1 (S k) Hw1 Hy1) as (w' & E' & Hw' & Hy'); [lia|]. exists w'. split_and!; [done..|].
    by replace (k + S (length ids))%nat with (S k + length ids)%nat by lia.
Qed.

Lemma remember_all_total ids w : window_ok w -> exists w', remember_all w ids = Ret w' /\ window_ok w' /\ max_ids w' = max_ids w.
Proof.
  unfold remember_all. revert w. induction ids as [|[x j] ids IH]; intros w Hw; [by exists w|].
  destruct (remember_total w x j Hw) as (w1 & E & Hw1 & Hm). cbn [ofold fst snd]. rewrite E. cbn [obind].
  destruct (IH w1 Hw1) as (w' & ? & ? & ?). exists w'. split_and!; [done..|congruence].
Qed.

(** C28: The window of committed ids.  Its eviction loop always ends, whatever ids
    it is given, and leaves at most [max_ids] of them; and a new id is found in it,
    with the index it was first remembered under, for as long as fewer than
    [max_ids] further ids follow. *)
Theorem window_terminates_and_retains (m id i : Z) (before later : list (Z * Z))
    (Hid : id <> 0) (Hlater : Z.of_nat (length later) < Z.max m 1) :
  exists w1 w, remember_all (new m) before = Ret w1 /\ remember_all (new m) (before ++ (id, i) :: later) = Ret w /\
    Z.of_nat (size (indexes w)) <= Z.max m 1 /\ (contains w1 id = false -> get w id = Some i).
Proof.
  destruct (remember_all_total before (new m) (new_window_ok m)) as (w1 & E1 & Hw1 & Hm1).
  destruct (remember_all_total (before ++ (id, i) :: later) (new m) (new_window_ok m)) as (w & E & Hw & Hm).
  exists w1, w. split_and!; [done|done| |].
  - rewrite (window_size w Hw). destruct Hw as (_ & _ & _ & Hl). rewrite Hm in Hl. cbn in Hl. lia.
  - intros Hc. rewrite (contains_order w1 id Hw1) in Hc. apply bool_decide_eq_false in Hc.
    destruct (remember_fresh w1 id i Hw1 Hid Hc) as (w2 & E2 & Hw2 & Ho2 & Hm2 & Hi2 & _).
    assert (Hy : young w2 id i 0).
    { split; [done|]. rewrite Ho2. unfold pushed. destruct (_ <? _); by eexists _, []. }
    destruct (remember_all_keeps later w2 id i 0 Hw2 Hy) as (w3 & E3 & _ & Hy3); [rewrite Hm2, Hm1; cbn [new max_ids]; lia|].
    assert (w = w3) as ->; [|by destruct Hy3].
    unfold remember_all in *. rewrite ofold_app, E1 in E. cbn [obind ofold fst snd] in E. rewrite E2 in E. cbn [obind] in E. congruence.
Qed.

Lemma window_terminates_and_retains_witness :
  exists w1 w, remember_all (new 2) [(11, 101)] = Ret w1 /\ remember_all (new 2) ([(11, 101)] ++ (12, 102) :: [(13, 103)]) = Ret w /\
    Z.of_nat (size (indexes w)) <= 2 /\ (contains w1 12 = false -> get w 12 = Some 102).
Proof. apply (window_terminates_and_retains 2 12 102 [(11, 101)] [(13, 103)]); [discriminate | cbn; lia]. Defined.

(** ** Requests *)

(** What the leader does with a client's request: answered from the window, put in
    an entry, or dropped when it does not encode. *)
Inductive Verdict :=
| Replied (committed_index : Z)
| Proposed (entry : bytes)
| Dropped.

Definition answer_request (w : CommittedIdWindow) (commands : list Command) : Verdict :=
  let committed_index := foldl (fun acc i => Some (match acc with Some a => Z.max a i | None => i end)) None
                           (omap (fun c => get w (Command.id c)) commands) in
  if forallb (fun c => negb (Command.id c =? 0) && contains w (Command.id c)) commands then Replied (default 0 committed_index)
  else match encode_raft_batch (encode_command <$> commands) with Some entry => Proposed entry | None => Dropped end.

Lemma remember_all_absent ids w w' id : window_ok w -> remember_all w ids = Ret w' -> id ∉ ids.*1 -> id ∉ insertion_order w ->
  window_ok w' /\ id ∉ insertion_order w'.
Proof.
  unfold remember_all. revert w. induction ids as [|[x j] ids IH]; intros w Hw E Hn Ho; cbn in E; [by injection E as <-|].
  rewrite fmap_cons, not_elem_of_cons in Hn. destruct Hn as [Hx Hn]. cbn in Hx. apply obind_ret in E as (w1 & E1 & E).
  destruct (decide (x = 0 \/ x ∈ insertion_order w)) as [H|H].
  - rewrite remember_known in E1 by done. injection E1 as <-. by apply (IH w).
  - destruct (remember_fresh w x j Hw) as (w2 & E2 & Hw2 & Ho2 & _); [tauto..|]. assert (w2 = w1) as -> by congruence.
    apply (IH w1); [done|done|done|]. rewrite Ho2. unfold pushed. destruct (_ <? _).
    + rewrite not_elem_of_app, list_elem_of_singleton. done.
    + destruct (insertion_order w) as [|a l]; cbn; rewrite ?not_elem_of_cons, ?not_elem_of_app, ?list_elem_of_singleton; [done|].
      rewrite not_elem_of_cons in Ho. tauto.
Qed.

Lemma remember_all_has ids w id i : window_ok w -> id <> 0 -> id ∉ insertion_order w -> id ∈ ids -> Z.of_nat (length ids) <= max_ids w ->
  exists w', remember_all w ((fun x => (x, i)) <$> ids) = Ret w' /\ get w' id = Some i.
Proof.
  intros Hw Hid Ho Hin Hl. apply list_elem_of_split_l in Hin as (pre & post & -> & Hpre).
  destruct (remember_all_total ((fun x => (x, i)) <$> pre) w Hw) as (w1 & E1 & _ & Hm1).
  destruct (remember_all_absent _ _ _ id Hw E1) as [Hw1 Ho1]; [|done|].
  { rewrite <- list_fmap_compose. cbn. rewrite list_elem_of_fmap. intros (y & -> & Hy). done. }
  destruct (remember_fresh w1 id i Hw1 Hid Ho1) as (w2 & E2 & Hw2 & Ho2 & Hm2 & Hi2 & _).
  assert (Hy : young w2 id i 0) by (split; [done|]; rewrite Ho2; unfold pushed; destruct (_ <? _); by eexists _, []).
  destruct (remember_all_keeps ((fun x => (x, i)) <$> post) w2 id i 0 Hw2 Hy) as (w3 & E3 & _ & Hy3).
  { rewrite length_fmap, Hm2, Hm1. rewrite length_app in Hl. cbn in Hl. lia. }
  exists w3. split; [|apply Hy3]. unfold remember_all in *. rewrite fmap_app, fmap_cons, ofold_app, E1. cbn [obind ofold fst snd].
  by rewrite E2.
Qed.

(** A retried request is answered and not proposed again.  Once an entry with
    new ids, no more of them than the window holds, has been taken in, the same
    request is replied to with the index of that entry. *)
Theorem retry_is_answered (w : CommittedIdWindow) (commands : list Command) (i : Z) :
  window_ok w -> commands <> [] -> Z.of_nat (length commands) <= max_ids w ->
  Forall (fun c => Command.id c <> 0 /\ contains w (Command.id c) = false) commands ->
  exists w', ofold (fun w c => remember w (Command.id c) i) w commands = Ret w' /\ answer_request w' commands = Replied i.
Proof.
  intros Hw Hne Hl Hc. assert (Eo : forall w, ofold (fun w c => remember w (Command.id c) i) w commands =
    remember_all w ((fun x => (x, i)) <$> (Command.id <$> commands))).
  { clear. unfold remember_all. induction commands as [|c cs IH]; intros w; [done|]. cbn. destruct (remember w _ i); [apply IH|done]. }
  rewrite Eo. destruct (remember_all_total ((fun x => (x, i)) <$> (Command.id <$> commands)) w Hw) as (w' & E & _). exists w'. split; [done|].
  assert (Hget : forall c, c ∈ commands -> Command.id c <> 0 /\ get w' (Command.id c) = Some i).
  { intros c Hin. rewrite Forall_forall in Hc. destruct (Hc c Hin) as [Hid Hno]. split; [done|].
    rewrite (contains_order w _ Hw), bool_decide_eq_false in Hno.
    destruct (remember_all_has (Command.id <$> commands) w (Command.id c) i Hw Hid Hno) as (w2 & E2 & Hg).
    - apply list_elem_of_fmap. by exists c.
    - by rewrite length_fmap.
    - congruence. }
  unfold answer_request. assert (forallb (fun c => negb (Command.id c =? 0) && contains w' (Command.id c)) commands = true) as ->.
  { apply forallb_forall. intros c Hin. apply list_elem_of_In in Hin. destruct (Hget c Hin) as [Hid Hg]. rewrite (proj2 (Z.eqb_neq _ _)) by done.
    unfold contains, get in *. rewrite Hg. by rewrite bool_decide_true by by eexists. }
  f_equal. assert (Homap : omap (fun c => get w' (Command.id c)) commands = replicate (length commands) i).
  { clear -Hget. induction commands as [|c cs IH]; [done|]. cbn. rewrite (proj2 (Hget c ltac:(by left))). f_equal. apply IH.
    intros c' Hc'. apply Hget. by right. }
  rewrite Homap. destruct commands as [|c cs]; [done|]. cbn [length replicate foldl]. clear.
  assert (H : foldl (fun (acc : option Z) i0 => Some match acc with Some a => Z.max a i0 | None => i0 end) (Some i) (replicate (length cs) i) = Some i).
  { induction cs as [|? cs IH]; [done|]. cbn. by rewrite Z.max_id. }
  by rewrite H.
Qed.

Lemma retry_is_answered_witness :
  exists w', ofold (fun w c => remember w (Command.id c) 9) (new 2) [CHalt 1 5; CResume 1 6] = Ret w' /\
    answer_request w' [CHalt 1 5; CResume 1 6] = Replied 9.
Proof.
  apply (retry_is_answered (new 2) [CHalt 1 5; CResume 1 6] 9); [apply new_window_ok | discriminate | cbn; lia |].
  repeat apply Forall_cons_2; [split; [discriminate | reflexivity]..| apply Forall_nil_2].
Defined.

(** ** The loops over committed entries *)
Record Runtime := mkRuntime {
  committed_ids : CommittedIdWindow;
  fence_term : Z;
  shard : Shard
}.

Section runtime.
Context (ho : OrderBook -> list (Z * nat)) (raft_group_id : Z).

(** One command of an entry: kept unless its id is in the window. *)
Definition keep_fresh (i : Z) (st : CommittedIdWindow * list Command) (c : Command)
    : outcome (CommittedIdWindow * list Command) :=
  let id := Command.id c in
  let duplicate := negb (id =? 0) && contains st.1 id in
  let! w := remember st.1 id i in
  Ret (w, if duplicate then st.2 else st.2 ++ [c]).

(** The commands of an entry, past the fence. *)
Definition fenced_commands (fence : Z) (c : Committed) : outcome (list Command) :=
  assert_that (fence <=? c_term c) "fencing violation: committed term regressed"
    (expect (decode_raft_entry (c_data c)) "durable committed Raft entry is not a valid command batch").


(** An entry committed while the node runs. *)
Definition apply_one (rt : Runtime) (c : Committed) : outcome Runtime :=
  let i := c_index c in
  let! commands := fenced_commands (fence_term rt) c in
  let! r := ofold (keep_fresh i) (committed_ids rt, []) commands in
  let '(w, apply) := r in
  let! s :=
    if bool_decide (apply = []) then Ret (shard rt)
    else handle_committed_batch ho raft_group_id (shard rt) i apply None in
  Ret (mkRuntime w (c_term c) s).

(** ** What the shard is given *)

(** The commands of each entry that the window lets through. *)
Fixpoint fresh_log (w : CommittedIdWindow) (fence : Z) (stream : list Committed)
    : outcome (CommittedIdWindow * Z * list (Z * list Command)) :=
  match stream with
  | [] => Ret (w, fence, [])
  | c :: stream =>
      let! commands := fenced_commands fence c in
      let! r := ofold (keep_fresh (c_index c)) (w, []) commands in
      let! rest := fresh_log r.1 (c_term c) stream in
      Ret (rest.1, (c_index c, r.2) :: rest.2)
  end.



(** While it runs, through [Commit.handle_committed_batch]. *)
Lemma apply_handles stream rt w' fence' log : fresh_log (committed_ids rt) (fence_term rt) stream = Ret (w', fence', log) ->
  ofold apply_one rt stream =
    let! s := ofold (fun s e => handle_committed_batch ho raft_group_id s e.1 e.2 None) (shard rt) log in
    Ret (mkRuntime w' fence' s).
Proof.
  revert rt log. induction stream as [|c stream IH]; intros rt log E; cbn [fresh_log] in E.
  - injection E as <- <- <-. by destruct rt.
  - apply obind_ret in E as (commands & E1 & E). apply obind_ret in E as ([w1 apply] & E2 & E).
    apply obind_ret in E as ([[w2 f2] log2] & E3 & E). cbn [fst snd] in *. injection E as -> -> <-.
    cbn [ofold fst snd]. unfold apply_one at 1. rewrite E1. cbn [obind]. rewrite E2. cbn [obind].
    assert (Hs : (if bool_decide (apply = []) then Ret (shard rt) else handle_committed_batch ho raft_group_id (shard rt) (c_index c) apply None)
      = handle_committed_batch ho raft_group_id (shard rt) (c_index c) apply None).
    { unfold handle_committed_batch. by case_bool_decide. }
    rewrite Hs. destruct (handle_committed_batch _ _ _ _ _ _) as [s|]; [cbn [obind]|done].
    by rewrite (IH (mkRuntime w1 (c_term c) s) log2 E3).
Qed.

End runtime.


(** ** The start of a node *)
Section start_node.
Context {M Msg : Type} `{!MemStorage M}.
Context `{!Message Entry, !Message HardState, !Message RaftSnapshot}.
Context {ConfChange : Type} (parse_conf : bytes -> option ConfChange).
Context (apply_conf_change : list Z -> ConfChange -> option (list Z)).
Context (ho : OrderBook -> list (Z * nat)) (eo : gmap Z MatchingEngine -> list (Z * MatchingEngine)).
Context (zo : gset Z -> list Z) (po : gmap (Z * Z) Z -> list (Z * Z * Z)) (raft_group_id : Z).




(** The compaction at the end of each turn of the runtime; [applied] and [last] are
    the indices of [RawNode].  A failed compaction is only logged. *)
Definition runtime_compact (compact_threshold outbox_pending : Z) (publish_healthy : bool) (snapshot_file : option bytes)
    (applied last : Z) (n : RaftNode M Msg) : outcome (RaftNode M Msg) :=
  if (0 <? compact_threshold) && (outbox_pending =? 0) && publish_healthy then
    match snapshot_file with
    | None => Ret n
    | Some b =>
        let! snapshot := load b in
        match snapshot with
        | Err _ => Ret n
        | Ok s =>
            let index := raft_applied_index s in
            if (index <=? applied) && (saturating_add U64_MAX (served_index n) compact_threshold <=? index)
            then Ret (compact_node n applied last index b).1
            else Ret n
        end
    end
  else Ret n.

(** [ready], which gates the ingress. *)
Definition is_ready (leader_id apply_lag max_apply_lag wal_errors outbox_pending max_outbox_pending : Z) (publish_healthy : bool) : bool :=
  negb (leader_id =? 0) && (apply_lag <=? max_apply_lag) && (wal_errors =? 0) && (outbox_pending <=? max_outbox_pending) && publish_healthy.

(** What a compaction leaves as the snapshot to serve is the engine's own snapshot
    file, at the very index that file is taken at. *)
Theorem compacts_to_engine_snapshot threshold pending healthy file applied last n n' :
  runtime_compact threshold pending healthy file applied last n = Ret n' ->
  app_snapshot n' = app_snapshot n \/
  exists b s r, file = Some b /\ load b = Ret (Ok s) /\ app_snapshot n' = Some r /\ s_data r = b /\ s_index r = raft_applied_index s /\
    s_index r <= applied /\ Z.min U64_MAX (served_index n + threshold) <= s_index r /\ pending = 0 /\ healthy = true.
Proof.
  unfold runtime_compact. destruct (_ && healthy) eqn:Eg; [|intros [= <-]; by left]. destruct file as [b|]; [|intros [= <-]; by left].
  intros E. apply obind_ret in E as (r & El & E). destruct r as [s|]; [|injection E as <-; by left].
  destruct (_ && _) eqn:Ei in E; [|injection E as <-; by left]. injection E as <-. zbool. unfold saturating_add in *.
  assert (Hsnap : app_snapshot (compact_node n applied last (raft_applied_index s) b).1 = app_snapshot n \/
    exists t vs, app_snapshot (compact_node n applied last (raft_applied_index s) b).1 = Some (mkRaftSnap (raft_applied_index s) t vs b)).
  { unfold compact_node. rewrite Z.min_l by lia. destruct (_ || _); [by left|]. destruct (mem_term _ _) as [t|]; [|by left]. right.
    exists t, (mem_conf_state (mem n)). destruct (mem_compact _ _); [|done]. cbn [with_mem RaftNode.durable].
    destruct (RaftNode.durable n); [|done]. match goal with |- context [match ?c with Some tail => _ | None => _ end] => destruct c end; [|done]. by destruct (compact _ _ _ _). }
  destruct Hsnap as [Hs|(t & vs & Hs)]; [by left|]. right. exists b, s, (mkRaftSnap (raft_applied_index s) t vs b). cbn. by split_and!.
Qed.

(** A threshold of 0 turns compaction off. *)
Theorem zero_threshold_never_compacts pending healthy file applied last n :
  runtime_compact 0 pending healthy file applied last n = Ret n.
Proof. done. Qed.

End start_node.





#[local] Existing Instance bits_message.
#[local] Existing Instance bits_laws.
#[local] Existing Instance plain_storage.
#[local] Existing Instance plain_laws.








(** ** What a restart forgets *)

(** The window of ids is rebuilt from the entries still in the Raft log, and the
    processor's ids are not in its snapshots.  Two members that hold the same
    committed log, a halt, a resume and the halt retried under the same id, apply
    it differently once one of them has compacted the first two entries and
    restarted: the retry is dropped by the one and executed by the other. *)
Theorem restart_forgets_ids :
  let retried := mkEntry EntryNormal 1 3 (encode_command (CHalt 1 5)) in
  let log := [mkEntry EntryNormal 1 1 (encode_command (CHalt 1 5)); mkEntry EntryNormal 1 2 (encode_command (CResume 1 6)); retried] in
  let full := mkRecovered log (mkHard 1 2 3) None in
  let compacted := after full (Compact (mkRaftSnap 2 1 [1; 2; 3] []) [retried] (mkHard 1 2 3)) in
  let given st := match fresh_log (new 1000) 0 (recovered_committed st) with Ret r => r.2 | Panic _ => [] end in
  let applied := (result example_proc (process_all map_order example_proc [CHalt 1 5; CResume 1 6])).1 in
  given full = [(1, [CHalt 1 5]); (2, [CResume 1 6]); (3, [])] /\ given compacted = [(3, [CHalt 1 5])] /\
  exists d q, snapshot_data map_order map_to_list elements (fun m => map_to_list m) applied 0 2 = Ret d /\
    restore_state example_proc (snapshot_of d) = Ret q /\
    halted applied = ∅ /\ halted (result example_proc (process_all map_order q [CHalt 1 5])).1 = {[1]} /\
    (result example_proc (process_all map_order q [CHalt 1 5])).2 = [RHalted 1].
Proof.
  cbv zeta. split; [vm_compute; reflexivity|]. split; [vm_compute; reflexivity|].
  eexists (mkData 0 2 0 0 [] [] [] []), _. split; [vm_compute; reflexivity|]. split; [cbn; reflexivity|].
  split_and!; vm_compute; reflexivity.
Qed.
