(* ===== verification/MarketData.v ===== *)
(** * The market-data service: feed and state

    The first half of [src/src/bin/market_data.rs]: the subscription to the
    exchange's market-data port ([feed_one]), the duplicate filter for trades
    that several replicas publish, the ladder assembled from depth rows, the
    recent trades, the candles ([Kline]), and the texts served from that state.
    The clock of each read is an argument.  The HTTP and WebSocket side is in
    [WebFront]. *)

From S2P Require Import Prelude Types Strategy LevelIndex Book Engine BookProps EngineInv Protocol Bytes Text Kline Wire Journal Snapshot Processor.
From S2P Require Import ProcessorProps AssetLog AssetReplay Exchange Framing.

Definition RT_TRADE : Z := 2.
Definition RT_DEPTH_LEVEL : Z := 10.
Definition RT_DEPTH_END : Z := 11.

(** ** State *)
Record Depth := mkDepth {
  bids : list (Price * Qty);
  asks : list (Price * Qty)
}.

Record DepthStore := mkDepthStore {
  pending : gmap InstrumentId Depth;
  live : gmap InstrumentId Depth
}.

(** [ReportKey], as the tuple of its fields. *)
Definition ReportKey : Type := Z * Z * Z * Z * Z * Z * Z * Z * Z.

Record ReportDeduper := mkDeduper {
  key_set : gset ReportKey;
  key_order : list ReportKey
}.

(** A trade as kept: time, price, quantity and the two fees. *)
Definition TradeEntry : Type := Z * Price * Qty * Z * Z.

Record State := mkState {
  agg : KlineAggregator;
  depth : DepthStore;
  trades : gmap InstrumentId (list TradeEntry);
  seen_reports : ReportDeduper
}.

(** ** The duplicate filter *)
Module ReportDeduper.

Definition new : ReportDeduper := mkDeduper ∅ [].

Definition key (r : DecodedReport) : ReportKey :=
  (d_type_code r, match d_side r with Buy => 0 | Sell => 1 end, d_instrument r, d_order_id r, d_aux_id r, d_price r, d_qty r,
   d_maker_fee r, d_taker_fee r).

Definition CAPACITY : Z := 100000.

(** [while self.order.len() > 100_000] *)
Fixpoint shrink (fuel : nat) (d : ReportDeduper) : ReportDeduper :=
  match fuel with
  | O => d
  | S fuel =>
      if CAPACITY <? Z.of_nat (length (key_order d)) then
        match key_order d with
        | old :: rest => shrink fuel (mkDeduper (key_set d ∖ {[old]}) rest)
        | [] => shrink fuel d
        end
      else d
  end.

Definition insert (d : ReportDeduper) (r : DecodedReport) : ReportDeduper * bool :=
  if bool_decide (key r ∈ key_set d) then (d, false)
  else
    let d := mkDeduper (key_set d ∪ {[key r]}) (key_order d ++ [key r]) in
    (shrink (length (key_order d)) d, true).

End ReportDeduper.

(** ** One frame *)
Definition with_depth (st : State) (d : DepthStore) : State := mkState (agg st) d (trades st) (seen_reports st).

Definition RING : nat := 1000.

Definition push_ring (ring : list TradeEntry) (t : TradeEntry) : list TradeEntry :=
  let ring := ring ++ [t] in if (RING <? length ring)%nat then tail ring else ring.

(** [side.resize(lvl + 1, (0, 0))] when short, then [side[lvl] = row]; a level is
    a [u64] taken as an index, and a vector is at most [isize::MAX] bytes. *)
Definition put_level (rows : list (Price * Qty)) (lvl : Z) (row : Price * Qty) : outcome (list (Price * Qty)) :=
  let! rows :=
    if Z.of_nat (length rows) <=? lvl then
      let n := wrap64 (lvl + 1) in
      if 2 ^ 63 - 1 <? 16 * n then Panic "capacity overflow"
      else Ret (take (Z.to_nat n) rows ++ replicate (Z.to_nat n - length rows) (0, 0))
    else Ret rows in
  if lvl <? Z.of_nat (length rows) then Ret (<[Z.to_nat lvl := row]> rows) else Panic "index out of bounds".

Definition on_report (ts : Z) (st : State) (r : DecodedReport) : outcome State :=
  if d_type_code r =? RT_TRADE then
    let '(seen, fresh) := ReportDeduper.insert (seen_reports st) r in
    if negb fresh then Ret (mkState (agg st) (depth st) (trades st) seen)
    else
      let! a := KlineAggregator.on_trade (agg st) (d_instrument r) ts (d_price r) (d_qty r) in
      let ring := default [] (trades st !! d_instrument r) in
      Ret (mkState a (depth st)
             (<[d_instrument r := push_ring ring (ts, d_price r, d_qty r, d_maker_fee r, d_taker_fee r)]> (trades st)) seen)
  else if d_type_code r =? RT_DEPTH_LEVEL then
    let d := default (mkDepth [] []) (pending (depth st) !! d_instrument r) in
    let row := (d_price r, d_qty r) in
    let! d :=
      match d_side r with
      | Buy => let! rows := put_level (bids d) (d_aux_id r) row in Ret (mkDepth rows (asks d))
      | Sell => let! rows := put_level (asks d) (d_aux_id r) row in Ret (mkDepth (bids d) rows)
      end in
    Ret (with_depth st (mkDepthStore (<[d_instrument r := d]> (pending (depth st))) (live (depth st))))
  else if d_type_code r =? RT_DEPTH_END then
    match pending (depth st) !! d_instrument r with
    | None => Ret st
    | Some d =>
        let d := mkDepth (take (Z.to_nat (Z.land (d_aux_id r) 255)) (bids d))
                   (take (Z.to_nat (Z.land (Z.shiftr (d_aux_id r) 8) 255)) (asks d)) in
        Ret (with_depth st (mkDepthStore (delete (d_instrument r) (pending (depth st)))
               (<[d_instrument r := d]> (live (depth st)))))
    end
  else Ret st.

Definition on_frame (ts : Z) (st : State) (frame : bytes) : outcome State :=
  match decode_report frame with Some r => on_report ts st r | None => Ret st end.

(** ** One connection of [feed_one]: the reads until the peer is gone, with the
    clock of each. *)
Definition FEED_BUFFER : nat := Z.to_nat (56 * 512).

Fixpoint feed_connection (fuel : nat) (clock : list Z) (st : State) (buf : bytes) (net : list bytes) : outcome State :=
  match fuel with
  | O => Panic "unreachable"
  | S fuel =>
      match recv (FEED_BUFFER - length buf) net with
      | ([], _) => Ret st
      | (got, net) =>
          let! x := consume REPORT_LEN (on_frame (default 0 (head clock))) (length (buf ++ got)) st (buf ++ got) in
          feed_connection fuel (tail clock) x.1 x.2 net
      end
  end.

Definition feed_one (clock : list Z) (st : State) (net : list bytes) : outcome State :=
  feed_connection (S (length (concat net))) clock st [] net.

Definition initial (a : KlineAggregator) : State := mkState a (mkDepthStore ∅ ∅) ∅ ReportDeduper.new.

(** ** What is served *)
Definition join (sep : text) (parts : list text) : text :=
  match parts with [] => [] | p :: ps => p ++ concat ((fun q => sep ++ q) <$> ps) end.

Definition bracketed (parts : list text) : text := lit "[" ++ join (lit ",") parts ++ lit "]".

Definition quote (s : string) : text := [34] ++ lit s ++ [34].

(** The interval a text names, if it names one. *)
Definition interval_name (t : text) : string := from_option (fun e => e.2.1) "none"%string (list_find (fun e => lit e.1 = t) INTERVALS).

Definition candles_json (st : State) (sym : InstrumentId) (interval : text) (limit : nat) : outcome text :=
  let! cs := KlineAggregator.candles (agg st) sym (interval_name interval) (Nat.min limit 1000) in
  Ret (bracketed ((fun c => bracketed [show (start c); show (open c); show (high c); show (low c); show (close c); show (volume c)]) <$> cs)).

Definition rows_json (rows : list (Price * Qty)) : text := bracketed ((fun pq => bracketed [show pq.1; show pq.2]) <$> rows).

Definition depth_json (st : State) (sym : InstrumentId) : text :=
  let d := default (mkDepth [] []) (live (depth st) !! sym) in
  lit "{" ++ quote "bids" ++ lit ":" ++ rows_json (bids d) ++ lit "," ++ quote "asks" ++ lit ":" ++ rows_json (asks d) ++ lit "}".

Definition trades_json (st : State) (sym : InstrumentId) (limit : nat) : text :=
  let dq := default [] (trades st !! sym) in
  bracketed ((fun '(t, p, q, mf, tf) => bracketed [show t; show p; show q; show mf; show tf]) <$>
               drop (length dq - Nat.min limit 1000) dq).

Definition symbols_json (st : State) : text := bracketed (show <$> KlineAggregator.instruments (agg st)).

(** One row of [admin_overview_json], with its trade count and volume. *)
Definition overview_row (st : State) (i : InstrumentId) : text * Z * Z :=
  let ring := default [] (trades st !! i) in
  let trade_count := Z.of_nat (length ring) in
  let volume := foldl (fun acc (t : TradeEntry) => let '(_, _, q, _, _) := t in wrap64 (acc + q)) 0 ring in
  let last_trade := from_option (fun t : TradeEntry => let '(ts, _, _, _, _) := t in ts) 0 (last ring) in
  let d := default (mkDepth [] []) (live (depth st) !! i) in
  let field n v := quote n ++ lit ":" ++ show v in
  (lit "{" ++ join (lit ",") [field "instrument"%string i; field "trades"%string trade_count; field "volume"%string volume;
                              field "last_trade"%string last_trade; field "bid_levels"%string (Z.of_nat (length (bids d)));
                              field "ask_levels"%string (Z.of_nat (length (asks d)))] ++ lit "}", trade_count, volume).

Definition admin_overview_json (st : State) : text :=
  let rows := overview_row st <$> KlineAggregator.instruments (agg st) in
  let total_trades := foldl (fun acc r => acc + r.1.2) 0 rows in
  let total_volume := foldl (fun acc r => wrap64 (acc + r.2)) 0 rows in
  lit "{" ++ quote "assets" ++ lit ":" ++ show (Z.of_nat (length rows)) ++ lit "," ++ quote "recent_trades" ++ lit ":" ++
  show total_trades ++ lit "," ++ quote "recent_volume" ++ lit ":" ++ show total_volume ++ lit "," ++ quote "instruments" ++
  lit ":" ++ bracketed ((fun r => r.1.1) <$> rows) ++ lit "}".

(** ** Frames *)
Definition on_stamped (st : State) (tf : Z * bytes) : outcome State := on_frame tf.1 st tf.2.

Lemma stamped_same ts st frames : ofold (on_frame ts) st frames = ofold on_stamped st (zip (replicate (length frames) ts) frames).
Proof.
  revert st. induction frames as [|f fs IH]; intros st; [done|].
  cbn [ofold length replicate zip_with]. unfold on_stamped at 1. cbn [fst snd]. destruct (on_frame ts st f); [|done]. cbn [obind]. apply IH.
Qed.

Lemma feed_buffer : (REPORT_LEN < FEED_BUFFER)%nat.
Proof. unfold FEED_BUFFER. lia. Qed.

(** However the network cuts the stream, the service handles its frames in
    order, each at the time of the read that completed it. *)
Lemma feed_connection_frames fuel clock st buf net : Forall (.≠ []) net -> (length buf < REPORT_LEN)%nat ->
  (length (concat net) < fuel)%nat ->
  exists tss, length tss = length (whole REPORT_LEN (buf ++ concat net)) /\
    feed_connection fuel clock st buf net = ofold on_stamped st (zip tss (whole REPORT_LEN (buf ++ concat net))).
Proof.
  revert clock st buf net. induction fuel as [|fuel IH]; intros clock st buf net Hn Hb Hf; [lia|]. cbn [feed_connection].
  destruct net as [|seg rest].
  { exists []. cbn [recv concat]. rewrite app_nil_r, whole_short by lia. done. }
  apply Forall_cons in Hn as [Hs Hn].
  destruct (recv _ _) as [got net'] eqn:E. apply recv_cons in E as (Hg & Hn' & Ec); [|pose proof feed_buffer; lia|done|done].
  rewrite Ec. rewrite Ec, length_app in Hf. destruct got as [|b got]; [by destruct Hg|]. cbn [length] in Hf.
  rewrite consume_frames by lia. rewrite (assoc_L (++)), (whole_app REPORT_LEN ltac:(lia) (buf ++ b :: got)).
  set (ts := default 0 (head clock)). set (fs := whole REPORT_LEN (buf ++ b :: got)).
  destruct (ofold (on_frame ts) st fs) as [st'|why] eqn:Es; cbn [obind fst snd].
  - destruct (IH (tail clock) st' (partial REPORT_LEN (buf ++ b :: got)) net') as (tss & Hl & ->);
      [done|apply partial_length; lia|lia|].
    exists (replicate (length fs) ts ++ tss). split; [rewrite !length_app, length_replicate; lia|].
    rewrite zip_with_app by (by rewrite length_replicate). rewrite ofold_app.
    rewrite stamped_same in Es. rewrite Es. done.
  - exists (replicate (length fs) ts ++ replicate (length (whole REPORT_LEN (partial REPORT_LEN (buf ++ b :: got) ++ concat net'))) 0).
    split; [by rewrite !length_app, !length_replicate|]. rewrite zip_with_app by (by rewrite length_replicate). rewrite ofold_app.
    rewrite stamped_same in Es. rewrite Es. done.
Qed.

(** A stream of encoded reports, the last one possibly torn. *)
Lemma feed_reports clock st net rs torn : Forall report_ok rs -> Forall (.≠ []) net ->
  concat net = concat (encode_report <$> rs) ++ torn -> (length torn < REPORT_LEN)%nat ->
  exists tss, length tss = length rs /\
    feed_one clock st net = ofold (fun st (x : Z * ExecReport) => on_report x.1 st (fields x.2)) st (zip tss rs).
Proof.
  intros Hok Hn Hc Ht. destruct (feed_connection_frames (S (length (concat net))) clock st [] net) as (tss & Hl & E);
    [done|cbn; lia|lia|]. cbn [app] in *.
  destruct (whole_frames REPORT_LEN ltac:(lia) (encode_report <$> rs) torn) as [Ew _]; [|done|].
  { apply Forall_fmap, Forall_forall. intros r _. apply length_encode_report. }
  rewrite <-Hc in Ew. rewrite Ew in Hl, E. rewrite length_fmap in Hl. exists tss. split; [done|]. unfold feed_one. rewrite E. clear -Hl Hok.
  revert tss st Hl. induction Hok as [|r rs Hr Hrs IH]; intros [|ts tss] st Hl; try done. cbn [fmap list_fmap zip zip_with ofold].
  unfold on_stamped at 1, on_frame. cbn [fst snd]. rewrite decode_report_encode by done. destruct (on_report ts st (fields r)); [|done]. cbn.
  apply IH. by injection Hl.
Qed.

(** ** Ladders *)
Definition feed_report (st : State) (r : ExecReport) : outcome State := on_report 0 st (fields r).

Definition get_side (sd : Side) (d : Depth) : list (Price * Qty) := match sd with Buy => bids d | Sell => asks d end.

Lemma depth_fields r : is_depth r = true -> d_type_code (fields r) <> RT_TRADE.
Proof. by destruct r. Qed.

Lemma depth_untimed tss rs st : length tss = length rs -> Forall (fun r => is_depth r = true) rs ->
  ofold (fun st (x : Z * ExecReport) => on_report x.1 st (fields x.2)) st (zip tss rs) = ofold feed_report st rs.
Proof.
  revert tss st. induction rs as [|r rs IH]; intros [|ts tss] st Hl Hd; try done. apply Forall_cons in Hd as [Hd Hds].
  cbn [zip_with ofold fst snd]. assert (E : on_report ts st (fields r) = feed_report st r).
  { unfold feed_report, on_report. apply depth_fields in Hd. destruct (Z.eqb_spec (d_type_code (fields r)) RT_TRADE); done. }
  rewrite E. destruct (feed_report st r); [|done]. cbn [obind]. apply IH; [by injection Hl|done].
Qed.

Lemma put_level_spec (rows cur : list (Price * Qty)) row : (length rows < 256)%nat -> take (length rows) cur = rows ->
  exists cur', put_level cur (Z.of_nat (length rows)) row = Ret cur' /\ take (S (length rows)) cur' = rows ++ [row].
Proof.
  intros Hk Ht. set (k := length rows) in *. assert (Hl : (k <= length cur)%nat).
  { assert (length (take k cur) = k) as E by (by rewrite Ht). rewrite length_take in E. lia. }
  unfold put_level. destruct (Z.leb_spec (Z.of_nat (length cur)) (Z.of_nat k)) as [Hs|Hs].
  - assert (length cur = k) as El by lia. rewrite take_ge in Ht by lia. subst cur. clear Hl Hs.
    rewrite wrap64_small by (unfold_width; lia). replace (Z.to_nat (Z.of_nat k + 1)) with (S k) by lia.
    destruct (Z.ltb_spec (2 ^ 63 - 1) (16 * (Z.of_nat k + 1))) as [Hbig|_]; [change (2 ^ 63 - 1) with 9223372036854775807 in Hbig; lia|].
    cbn [obind]. rewrite take_ge by (fold k; lia). fold k. replace (S k - k)%nat with 1%nat by lia. cbn [replicate].
    rewrite length_app. cbn [length]. fold k. destruct (Z.ltb_spec (Z.of_nat k) (Z.of_nat (k + 1))); [|lia].
    eexists. split; [done|]. rewrite Nat2Z.id. rewrite insert_app_r_alt by (fold k; lia). fold k. rewrite Nat.sub_diag. cbn.
    rewrite take_ge; [done|rewrite length_app; cbn; fold k; lia].
  - cbn [obind]. destruct (Z.ltb_spec (Z.of_nat k) (Z.of_nat (length cur))); [|lia]. eexists. split; [done|]. rewrite Nat2Z.id.
    rewrite (take_S_r _ _ row) by (apply list_lookup_insert_eq; lia). by rewrite take_insert_ge, Ht by lia.
Qed.

Lemma side_fed i sd rows st : (length rows < 256)%nat ->
  exists st', ofold feed_report st (side_depth i sd rows) = Ret st' /\
    agg st' = agg st /\ trades st' = trades st /\ seen_reports st' = seen_reports st /\ live (depth st') = live (depth st) /\
    if decide (rows = []) then st' = st else
      exists d, pending (depth st') = <[i := d]> (pending (depth st)) /\ take (length rows) (get_side sd d) = rows /\
        get_side (opposite sd) d = get_side (opposite sd) (default (mkDepth [] []) (pending (depth st) !! i)).
Proof.
  induction rows as [|row rows IH] using rev_ind; intros Hl.
  { exists st. by rewrite decide_True. }
  rewrite length_app in Hl. cbn [length] in Hl. destruct IH as (st1 & E1 & Ha & Ht & Hs & Hv & Hp); [lia|].
  unfold side_depth. rewrite imap_app. fold (side_depth i sd rows). rewrite ofold_app, E1. cbn [obind imap ofold].
  unfold compose. rewrite Nat.add_0_r, Z.mod_small by lia.
  set (d0 := default (mkDepth [] []) (pending (depth st1) !! i)).
  assert (Hd0 : take (length rows) (get_side sd d0) = rows /\
    get_side (opposite sd) d0 = get_side (opposite sd) (default (mkDepth [] []) (pending (depth st) !! i)) /\
    forall d, <[i := d]> (pending (depth st1)) = <[i := d]> (pending (depth st))).
  { destruct (decide (rows = [])) as [->|Hne].
    - subst st1. done.
    - destruct Hp as (d & Ep & H1 & H2). unfold d0. rewrite Ep, lookup_insert_eq. cbn [default]. split_and!; [done|done|].
      intros d'. by rewrite insert_insert_eq. }
  destruct Hd0 as (Hd1 & Hd2 & Hd3).
  destruct (put_level_spec rows (get_side sd d0) row ltac:(lia) Hd1) as (cur & Ec & Hcur).
  unfold feed_report, on_report. cbn [fields d_type_code d_instrument d_aux_id d_price d_qty d_side RT_TRADE RT_DEPTH_LEVEL Z.eqb Pos.eqb].
  fold d0. destruct sd; cbn [get_side opposite] in *; destruct row as [p q]; cbn [fst snd]; rewrite Ec; cbn [obind];
    (eexists; split; [done|]); cbn [with_depth agg trades seen_reports depth live pending];
    (split_and!; [done|done|done|done|]);
    rewrite decide_False by (by destruct rows); rewrite Hd3; (eexists; split; [done|]); cbn [bids asks];
    rewrite length_app; cbn [length]; rewrite Nat.add_1_r; done.
Qed.

Lemma depth_end_fed i (nb na : nat) st d : (nb < 256)%nat -> (na < 256)%nat -> pending (depth st) !! i = Some d ->
  feed_report st (RDepthEnd i (Z.of_nat nb mod 256) (Z.of_nat na mod 256)) =
    Ret (with_depth st (mkDepthStore (delete i (pending (depth st))) (<[i := mkDepth (take nb (bids d)) (take na (asks d))]> (live (depth st))))).
Proof.
  intros Hb Ha Hp. unfold feed_report, on_report.
  cbn [fields d_type_code d_instrument d_aux_id RT_TRADE RT_DEPTH_LEVEL RT_DEPTH_END Z.eqb Pos.eqb]. rewrite Hp.
  rewrite !Z.mod_small by lia. change 255 with (Z.ones 8). rewrite !Z.land_ones, Z.shiftr_div_pow2 by lia. change (2 ^ 8) with 256.
  rewrite (Z.mul_comm 256), Z.mod_add, Z.div_add, (Z.div_small (Z.of_nat nb)), Z.add_0_l, !Z.mod_small by lia.
  by rewrite !Nat2Z.id.
Qed.

(** A complete snapshot replaces the ladder, whatever an interrupted one left. *)
Lemma ladder_fed i b a st : (length b < 256)%nat -> (length a < 256)%nat -> b ++ a <> [] ->
  exists st', ofold feed_report st (side_depth i Buy b ++ side_depth i Sell a ++
      [RDepthEnd i (Z.of_nat (length b) mod 256) (Z.of_nat (length a) mod 256)]) = Ret st' /\
    agg st' = agg st /\ trades st' = trades st /\ seen_reports st' = seen_reports st /\
    live (depth st') = <[i := mkDepth b a]> (live (depth st)).
Proof.
  intros Hb Ha Hne. rewrite !ofold_app.
  destruct (side_fed i Buy b st Hb) as (st1 & E1 & A1 & T1 & S1 & L1 & P1). rewrite E1. cbn [obind]. rewrite ofold_app.
  destruct (side_fed i Sell a st1 Ha) as (st2 & E2 & A2 & T2 & S2 & L2 & P2). rewrite E2. cbn [obind ofold].
  assert (exists d, pending (depth st2) !! i = Some d /\ take (length b) (bids d) = b /\ take (length a) (asks d) = a) as (d & Hd & D1 & D2).
  { cbn [get_side opposite] in *. destruct (decide (b = [])) as [->|Hb0], (decide (a = [])) as [->|Ha0].
    - done.
    - subst st1. destruct P2 as (d & Ep & H1 & H2). exists d. rewrite Ep, lookup_insert_eq. done.
    - subst st2. destruct P1 as (d & Ep & H1 & H2). exists d. rewrite Ep, lookup_insert_eq. done.
    - destruct P1 as (d1 & Ep1 & H1 & H2). destruct P2 as (d2 & Ep2 & H3 & H4). rewrite Ep1, lookup_insert_eq in H4. cbn [default] in H4.
      exists d2. rewrite Ep2, lookup_insert_eq, H4. done. }
  rewrite (depth_end_fed i _ _ st2 d Hb Ha Hd). cbn [obind]. eexists. split; [done|]. cbn [with_depth agg trades seen_reports depth live].
  rewrite D1, D2, L2, L1. split_and!; congruence.
Qed.

(** ** The shard's depth feed *)

(** The five best levels of each side of a book. *)
Definition best_five (b : OrderBook) : Depth := mkDepth (take 5 (level_rows b Buy)) (take 5 (level_rows b Sell)).

Lemma engine_depth_fed ie rs : BookFacts.book_inv (book ie.2) -> engine_depth ie = Ret rs ->
  Forall (fun r => is_depth r = true) rs /\
  forall st, exists st', ofold feed_report st rs = Ret st' /\ agg st' = agg st /\ trades st' = trades st /\ seen_reports st' = seen_reports st /\
    live (depth st') = if OrderBook.is_empty (book ie.2) then live (depth st) else <[ie.1 := best_five (book ie.2)]> (live (depth st)).
Proof.
  intros Hb. unfold engine_depth. destruct (OrderBook.is_empty (book ie.2)) eqn:Ee.
  { intros [= <-]. split; [constructor|]. intros st. by exists st. }
  rewrite !top_levels_rows by done. cbn [obind]. intros [= <-]. unfold DEPTH_LEVELS. change (Nat.max 1 5) with 5%nat.
  fold (bids (best_five (book ie.2))) (asks (best_five (book ie.2))). split.
  { apply Forall_app. split; [|apply Forall_app; split; [|by repeat constructor]];
      (apply Forall_lookup; intros k r Hr; unfold side_depth in Hr; rewrite list_lookup_imap in Hr; destruct (_ !! k); [|done]; by injection Hr as <-). }
  intros st. apply ladder_fed; unfold best_five; cbn [bids asks]; [rewrite length_take; lia..|].
  pose proof (nonempty_rows _ Hb Ee) as Hne. intros E. apply app_eq_nil in E as [E1 E2]. apply Hne.
  assert (Ht : forall l : list (Price * Qty), take 5 l = [] -> l = []) by (by intros [|]). by rewrite (Ht _ E1), (Ht _ E2).
Qed.

Lemma publication_fed l acc out : Forall (fun ie => BookFacts.book_inv (book ie.2)) l -> NoDup l.*1 ->
  ofold (fun acc ie => let! d := engine_depth ie in Ret (acc ++ d)) acc l = Ret out ->
  exists rs, out = acc ++ rs /\ Forall (fun r => is_depth r = true) rs /\
  forall st, exists st', ofold feed_report st rs = Ret st' /\ agg st' = agg st /\ trades st' = trades st /\ seen_reports st' = seen_reports st /\
    (forall i eng, (i, eng) ∈ l -> live (depth st') !! i = if OrderBook.is_empty (book eng) then live (depth st) !! i else Some (best_five (book eng))) /\
    (forall i, i ∉ l.*1 -> live (depth st') !! i = live (depth st) !! i).
Proof.
  intros Hb. revert acc. induction Hb as [|[i eng] l Hi Hl IH]; intros acc Hnd; cbn [ofold].
  { intros [= <-]. exists []. rewrite app_nil_r. split_and!; [done|constructor|]. intros st. exists st. split_and!; try done.
    intros i eng Hin. by apply elem_of_nil in Hin. }
  cbn [fmap list_fmap] in Hnd. apply NoDup_cons in Hnd as [Hni Hnd].
  intros H. apply obind_ret in H as (acc' & E & H). apply obind_ret in E as (rs1 & Er & E). injection E as <-.
  destruct (engine_depth_fed (i, eng) rs1 Hi Er) as [Hd1 Hf1]. destruct (IH _ Hnd H) as (rs2 & -> & Hd2 & Hf2).
  exists (rs1 ++ rs2). rewrite (assoc_L (++)). split_and!; [done|by apply Forall_app|]. intros st.
  destruct (Hf1 st) as (st1 & E1 & A1 & T1 & S1 & L1). destruct (Hf2 st1) as (st2 & E2 & A2 & T2 & S2 & L2 & L3). cbn [fst snd] in L1.
  exists st2. rewrite ofold_app, E1. cbn [obind]. split_and!; [done|congruence..| |].
  - intros j e [[= -> ->]|Hin]%elem_of_cons.
    + rewrite L3 by done. rewrite L1. destruct (OrderBook.is_empty _); [done|by rewrite lookup_insert_eq].
    + rewrite (L2 j e Hin), L1. destruct (OrderBook.is_empty (book e)); [|done]. destruct (OrderBook.is_empty (book eng)); [done|].
      rewrite lookup_insert_ne; [done|]. intros ->. apply Hni. apply list_elem_of_fmap. by exists (j, e).
  - intros j Hj. cbn [fmap list_fmap] in Hj. apply not_elem_of_cons in Hj as [Hj1 Hj2]. rewrite L3, L1 by done.
    destruct (OrderBook.is_empty _); [done|by rewrite lookup_insert_ne].
Qed.

(** C19: The ladders follow the books.  Take any publication of a shard's depth
    and any network that delivers its bytes, in whatever pieces: for every
    instrument with a resting order, the ladder the service then shows is the
    five best price levels of each side of that instrument's book with their
    total quantities, whatever an earlier, interrupted publication left behind.
    The ladder of an instrument whose book has become empty is not touched. *)
Theorem ladder_follows_book (eo : gmap Z MatchingEngine -> list (Z * MatchingEngine)) (e : Env) (k k' : Core) (out : list ExecReport)
    (clock : list Z) (st : State) (net : list bytes) (torn : bytes) :
  (forall m, eo m ≡ₚ map_to_list m) -> map_Forall (fun _ eng => BookFacts.book_inv (book eng)) (engines (Exchange.processor k)) ->
  e_depth e = true -> maybe_publish_depth eo e k = Ret k' -> result_tx k' = result_tx k ++ out -> Forall report_ok out ->
  Forall (.≠ []) net -> concat net = concat (encode_report <$> out) ++ torn -> (length torn < REPORT_LEN)%nat ->
  exists st', feed_one clock st net = Ret st' /\ agg st' = agg st /\ trades st' = trades st /\
    forall i eng, engines (Exchange.processor k) !! i = Some eng ->
      live (depth st') !! i = if OrderBook.is_empty (book eng) then live (depth st) !! i else Some (best_five (book eng)).
Proof.
  intros Heo Hb He Hp Ho Hok Hn Hc Ht. unfold maybe_publish_depth in Hp. rewrite He in Hp.
  apply obind_ret in Hp as (rs & Er & Hp). injection Hp as <-. cbn [result_tx] in Ho. apply app_inv_head in Ho. subst rs.
  pose proof (Heo (engines (Exchange.processor k))) as Hperm.
  destruct (publication_fed (eo (engines (Exchange.processor k))) [] out) as (rs & -> & Hd & Hf).
  - apply Forall_forall. intros [i eng] Hin. rewrite Hperm in Hin. apply elem_of_map_to_list in Hin. by apply (Hb i).
  - rewrite Hperm. apply NoDup_fst_map_to_list.
  - exact Er.
  - destruct (feed_reports clock st net ([] ++ rs) torn Hok Hn Hc Ht) as (tss & Hl & ->). cbn [app] in *.
    rewrite depth_untimed by done. destruct (Hf st) as (st' & E & A & T & _ & L & _). exists st'. split_and!; [done..|].
    intros i eng Hi. apply L. rewrite Hperm. by apply elem_of_map_to_list.
Qed.

Definition depth_env : Env := mkEnv 0 0 false false true false.
Definition core_of (p : Processor) : Core := mkCore p None None None 0 [] [] [] 0.

(** The publication of a processor's books. *)
Definition published_depth (p : Processor) : list ExecReport :=
  result_tx (forced (core_of p) (maybe_publish_depth map_to_list depth_env (core_of p))).

Lemma publication_ret p : is_ret (maybe_publish_depth map_to_list depth_env (core_of p)) = true ->
  maybe_publish_depth map_to_list depth_env (core_of p) =
    Ret (forced (core_of p) (maybe_publish_depth map_to_list depth_env (core_of p))).
Proof. apply forced_ret. Qed.

Lemma step1_published : is_ret (maybe_publish_depth map_to_list depth_env (core_of step1.1)) = true /\
  published_depth step1.1 = [RDepthLevel 1 Sell 0 100 5; RDepthEnd 1 0 1].
Proof. vm_compute. split; reflexivity. Qed.

Definition fresh_state : State := initial (KlineAggregator.new 10).

Lemma ladder_follows_book_witness : exists st',
  feed_one [] fresh_state [concat (encode_report <$> published_depth step1.1)] = Ret st' /\
  forall eng, engines step1.1 !! 1 = Some eng ->
    live (depth st') !! 1 = if OrderBook.is_empty (book eng) then None else Some (best_five (book eng)).
Proof.
  destruct step1_published as [E1 E2]. apply publication_ret in E1.
  destruct (ladder_follows_book map_to_list depth_env (core_of step1.1)
    (forced (core_of step1.1) (maybe_publish_depth map_to_list depth_env (core_of step1.1))) (published_depth step1.1) [] fresh_state
    [concat (encode_report <$> published_depth step1.1)] []) as (st' & Hf & _ & _ & Hl).
  - intros m. reflexivity.
  - intros i eng Hi. apply (eo_book _ _ _ _ (proj1 (po_engines _ _ _ (proj1 step1_ok) i eng Hi))).
  - reflexivity.
  - exact E1.
  - reflexivity.
  - rewrite E2. repeat apply Forall_cons_2; [cbn; unfold_width; lia..|apply Forall_nil_2].
  - rewrite E2. apply Forall_cons_2; [vm_compute; discriminate|apply Forall_nil_2].
  - cbn [concat]. reflexivity.
  - cbn. lia.
  - exists st'. split; [exact Hf|]. intros eng He. exact (Hl 1 eng He).
Defined.

(** ** An emptied book stays on display *)
Definition cancelled : Processor * list ExecReport := result step1.1 (Processor.process map_order step1.1 (CCancel 1 1 3)).
Definition shown (st : State) (p : Processor) : State :=
  forced st (ofold (fun st r => on_frame 0 st (encode_report r)) st (published_depth p)).

(** After the only order of an instrument is cancelled, the next publication has
    nothing about it, and the service goes on showing the cancelled order. *)
Theorem emptied_book_stays_displayed :
  Processor.process map_order step1.1 (CCancel 1 1 3) = Ret (cancelled.1, cancelled.2) /\
  (OrderBook.is_empty ∘ book) <$> engines cancelled.1 !! 1 = Some true /\
  published_depth cancelled.1 = [] /\
  live (depth (shown (shown fresh_state step1.1) cancelled.1)) !! 1 = Some (mkDepth [] [(100, 5)]).
Proof. split; [apply result_ret; by vm_compute|]. vm_compute. split_and!; reflexivity. Qed.

(** ** Two feeds, one ladder *)
Definition ladder_reports (i : InstrumentId) (d : Depth) : list ExecReport :=
  side_depth i Buy (bids d) ++ side_depth i Sell (asks d) ++
  [RDepthEnd i (Z.of_nat (length (bids d)) mod 256) (Z.of_nat (length (asks d)) mod 256)].

(** Rows of an instrument from two feeds are assembled in the same place: an
    interleaving of two publications, each received in order, shows a ladder
    that neither published, here a crossed one. *)
Theorem feeds_mix_ladders :
  let a := mkDepth [(100, 5)] [(101, 5)] in
  let b := mkDepth [(104, 1)] [(105, 1)] in
  exists x1 x2 x3 y1 y2 y3 st, ladder_reports 1 a = [x1; x2; x3] /\ ladder_reports 1 b = [y1; y2; y3] /\
    ofold (fun st r => on_frame 0 st (encode_report r)) fresh_state [x1; y1; x2; x3] = Ret st /\
    live (depth st) !! 1 = Some (mkDepth [(104, 1)] [(101, 5)]).
Proof.
  intros a b. eexists _, _, _, _, _, _,
    (forced fresh_state (ofold (fun st r => on_frame 0 st (encode_report r)) fresh_state
       [RDepthLevel 1 Buy 0 100 5; RDepthLevel 1 Buy 0 104 1; RDepthLevel 1 Sell 0 101 5; RDepthEnd 1 1 1])).
  split_and!; [reflexivity|reflexivity| |by vm_compute]. apply forced_ret. by vm_compute.
Qed.

(** ** Trades *)
Definition is_trade (r : ExecReport) : bool := match r with RTrade _ _ _ _ _ _ _ _ => true | _ => false end.
Definition trade_key (r : ExecReport) : ReportKey := ReportDeduper.key (fields r).

(** The first reports of the trades not yet seen. *)
Fixpoint fresh_trades (seen : list ReportKey) (xs : list (Z * ExecReport)) : list (Z * ExecReport) :=
  match xs with
  | [] => []
  | x :: xs =>
      if is_trade x.2 then
        if decide (trade_key x.2 ∈ seen) then fresh_trades seen xs else x :: fresh_trades (seen ++ [trade_key x.2]) xs
      else fresh_trades seen xs
  end.

Definition trade_print (x : Z * ExecReport) : InstrumentId * print :=
  let r := fields x.2 in (d_instrument r, mkPrint x.1 (d_price r) (d_qty r)).
Definition trade_entry (x : Z * ExecReport) : TradeEntry :=
  let r := fields x.2 in (x.1, d_price r, d_qty r, d_maker_fee r, d_taker_fee r).
Definition of_instrument (i : InstrumentId) (xs : list (Z * ExecReport)) : list TradeEntry :=
  trade_entry <$> filter (fun x => d_instrument (fields x.2) = i) xs.

Definition shaped (a : KlineAggregator) : Prop := forall i s, series a !! i = Some s -> length s = length INTERVALS.

Lemma on_trade_shaped a i ts p q : shaped a -> exists a', KlineAggregator.on_trade a i ts p q = Ret a' /\ shaped a'.
Proof.
  intros Ha. set (s := default (replicate (length INTERVALS) []) (series a !! i)).
  assert (Hs : length s = length INTERVALS).
  { unfold s. destruct (series a !! i) as [s'|] eqn:E; [by apply (Ha i)|done]. }
  rewrite (on_trade_series a i ts p q s eq_refl Hs). eexists. split; [done|]. intros j t. cbn [series].
  rewrite lookup_insert_Some. intros [[<- <-]|[_ Hj]]; [|by apply (Ha j)]. rewrite length_zip_with, Hs. done.
Qed.

Definition dedup_holds (d : ReportDeduper) (K : list ReportKey) : Prop := key_order d = K /\ key_set d = list_to_set K.

Lemma insert_fresh d K r : dedup_holds d K -> Z.of_nat (length K) < ReportDeduper.CAPACITY -> ReportDeduper.key r ∉ K ->
  exists d', ReportDeduper.insert d r = (d', true) /\ dedup_holds d' (K ++ [ReportDeduper.key r]).
Proof.
  intros [E1 E2] Hl Hk. unfold ReportDeduper.insert. rewrite bool_decide_eq_false_2 by (rewrite E2; set_solver).
  set (d' := mkDeduper _ _). exists d'. assert (Hd : dedup_holds d' (K ++ [ReportDeduper.key r])).
  { unfold d'. split; cbn [key_order key_set]; [by rewrite E1|]. rewrite E2, list_to_set_app_L. set_solver. }
  split; [|done]. f_equal. destruct Hd as [Ho _]. rewrite Ho, length_app. cbn [length]. rewrite Nat.add_1_r. cbn [ReportDeduper.shrink].
  rewrite Ho, length_app. cbn [length]. destruct (Z.ltb_spec ReportDeduper.CAPACITY (Z.of_nat (length K + 1))); [lia|done].
Qed.

Lemma insert_seen d K r : dedup_holds d K -> ReportDeduper.key r ∈ K -> ReportDeduper.insert d r = (d, false).
Proof. intros [E1 E2] Hk. unfold ReportDeduper.insert. rewrite bool_decide_eq_true_2 by (rewrite E2; set_solver). done. Qed.

Lemma put_level_total cur lvl row : is_u8 lvl -> exists cur', put_level cur lvl row = Ret cur'.
Proof.
  intros Hl. unfold is_u8 in Hl. unfold put_level. destruct (Z.leb_spec (Z.of_nat (length cur)) lvl) as [Hs|Hs].
  - rewrite wrap64_small by (unfold_width; lia). destruct (Z.ltb_spec (2 ^ 63 - 1) (16 * (lvl + 1))) as [Hb|_].
    { change (2 ^ 63 - 1) with 9223372036854775807 in Hb. lia. }
    cbn [obind]. rewrite length_app, length_take, length_replicate.
    destruct (Z.ltb_spec lvl (Z.of_nat (Z.to_nat (lvl + 1) `min` length cur + (Z.to_nat (lvl + 1) - length cur)))) as [Hx|Hx]; [by eexists|lia].
  - cbn [obind]. destruct (Z.ltb_spec lvl (Z.of_nat (length cur))); [by eexists|lia].
Qed.

(** What is not a trade changes neither trades nor candles. *)
Lemma quiet_report ts st r : report_ok r -> is_trade r = false -> exists st', on_report ts st (fields r) = Ret st' /\
  agg st' = agg st /\ trades st' = trades st /\ seen_reports st' = seen_reports st.
Proof.
  intros Hok Ht. unfold on_report. destruct r as [| | | | | | | | |i sd l p q|i nb na| | | |]; try done; try (by eexists).
  - cbn [fields d_type_code d_instrument d_aux_id d_price d_qty d_side RT_TRADE RT_DEPTH_LEVEL Z.eqb Pos.eqb].
    destruct Hok as (_ & Hl & _). set (d := default _ _).
    destruct sd; [destruct (put_level_total (bids d) l (p, q) Hl) as (cur & ->)|destruct (put_level_total (asks d) l (p, q) Hl) as (cur & ->)];
      cbn [obind]; by eexists.
  - cbn [fields d_type_code d_instrument d_aux_id RT_TRADE RT_DEPTH_LEVEL RT_DEPTH_END Z.eqb Pos.eqb].
    destruct (_ !! i); by eexists.
Qed.

Lemma reports_fed xs : forall st K, Forall report_ok xs.*2 -> dedup_holds (seen_reports st) K -> shaped (agg st) ->
  Z.of_nat (length K + length (fresh_trades K xs)) <= ReportDeduper.CAPACITY ->
  exists st', ofold (fun st (x : Z * ExecReport) => on_report x.1 st (fields x.2)) st xs = Ret st' /\
    ofold feed (agg st) (trade_print <$> fresh_trades K xs) = Ret (agg st') /\
    forall i, default [] (trades st' !! i) = foldl push_ring (default [] (trades st !! i)) (of_instrument i (fresh_trades K xs)).
Proof.
  induction xs as [|[ts r] xs IH]; intros st K Hok Hd Ha Hl; [by exists st|]. cbn [fmap list_fmap fst snd] in Hok. apply Forall_cons in Hok as [Hr Hok].
  cbn [ofold fst snd fresh_trades] in *. destruct (is_trade r) eqn:Et; [destruct (decide (trade_key r ∈ K)) as [Hk|Hk]|].
  - assert (E : on_report ts st (fields r) = Ret st).
    { destruct r; try done. unfold on_report. cbn [fields d_type_code RT_TRADE Z.eqb Pos.eqb].
      rewrite (insert_seen _ K) by done. cbn [negb]. by destruct st. }
    rewrite E. cbn [obind]. by apply IH.
  - cbn [length] in Hl. destruct (insert_fresh (seen_reports st) K (fields r) Hd ltac:(lia) Hk) as (d' & Ed & Hd').
    destruct (on_trade_shaped (agg st) (d_instrument (fields r)) ts (d_price (fields r)) (d_qty (fields r)) Ha) as (a' & Ea & Ha').
    assert (E : on_report ts st (fields r) = Ret (mkState a' (depth st)
      (<[d_instrument (fields r) := push_ring (default [] (trades st !! d_instrument (fields r))) (trade_entry (ts, r))]> (trades st)) d')).
    { unfold on_report. rewrite Ed, Ea. destruct r; done. }
    rewrite E. cbn [obind]. set (st1 := mkState _ _ _ _).
    destruct (IH st1 (K ++ [trade_key r]) Hok Hd' Ha') as (st' & E' & Ef & Hring); [rewrite length_app; cbn; lia|].
    exists st'. split; [done|]. split.
    + cbn [fmap list_fmap ofold]. unfold feed at 1. unfold trade_print at 1 2 3 4. cbn [fst snd at_sec p_price p_qty].
      rewrite Ea. cbn [obind]. exact Ef.
    + intros i. rewrite Hring. unfold of_instrument. rewrite filter_cons. cbn [fst snd trades st1].
      destruct (decide (d_instrument (fields r) = i)) as [<-|Hne]; [by rewrite lookup_insert_eq|by rewrite lookup_insert_ne].
  - destruct (quiet_report ts st r Hr Et) as (st1 & E & A & T & S). rewrite E. cbn [obind]. rewrite <-A, <-T. apply IH; [done|by rewrite S|by rewrite A|done].
Qed.

Lemma ring_fold l : forall r, (length r <= RING)%nat -> foldl push_ring r l = last_n RING (r ++ l).
Proof.
  induction l as [|t l IH]; intros r Hr; cbn [foldl].
  - unfold last_n. rewrite app_nil_r. replace (length r - RING)%nat with 0%nat by lia. by rewrite drop_0.
  - rewrite IH.
    + unfold push_ring. destruct (Nat.ltb_spec RING (length (r ++ [t]))) as [Hg|Hg]; [|by rewrite <-(assoc_L (++))].
      rewrite length_app in Hg. cbn [length] in Hg. unfold last_n. destruct r as [|x r]; [unfold RING in *; cbn in *; lia|]. cbn [app tail].
      rewrite <-(assoc_L (++)). cbn [app length]. rewrite !length_app. cbn [length].
      replace (S (length r + S (length l)) - RING)%nat with (S (length r + S (length l) - RING))%nat by (cbn [length] in *; lia). done.
    + unfold push_ring. destruct (Nat.ltb_spec RING (length (r ++ [t]))) as [Hg|Hg]; rewrite length_app in Hg; cbn [length] in Hg.
      * destruct r as [|x r]; [cbn; lia|]. cbn [app tail length] in *. rewrite length_app. cbn. lia.
      * rewrite length_app. cbn. lia.
Qed.

Lemma fresh_spec xs : forall K, NoDup (trade_key ∘ snd <$> fresh_trades K xs) /\
  Forall (fun x => is_trade x.2 = true /\ trade_key x.2 ∉ K) (fresh_trades K xs) /\
  forall r, is_trade r = true -> r ∈ xs.*2 -> trade_key r ∈ K \/ exists x, x ∈ fresh_trades K xs /\ trade_key x.2 = trade_key r.
Proof.
  induction xs as [|[ts r] xs IH]; intros K; cbn [fresh_trades fst snd].
  { split_and!; [constructor|constructor|]. intros r _ Hr. by apply elem_of_nil in Hr. }
  destruct (is_trade r) eqn:Et; [destruct (decide (trade_key r ∈ K)) as [Hk|Hk]|].
  - destruct (IH K) as (H1 & H2 & H3). split_and!; [done|done|]. intros r' Hr' [->|Hin]%elem_of_cons; [by left|by apply H3].
  - destruct (IH (K ++ [trade_key r])) as (H1 & H2 & H3). split_and!.
    + cbn [fmap list_fmap]. apply NoDup_cons. split; [|done]. unfold compose at 1. cbn [snd]. intros Hin.
      apply list_elem_of_fmap in Hin as (x & E & Hx). rewrite Forall_forall in H2. destruct (H2 x Hx) as [_ Hn]. unfold compose in E.
      apply Hn. rewrite <-E. apply elem_of_app. right. by apply list_elem_of_singleton.
    + constructor; [done|]. eapply Forall_impl; [exact H2|]. intros x [Hx1 Hx2]. split; [done|]. intros Hc. apply Hx2, elem_of_app. by left.
    + intros r' Hr' [->|Hin]%elem_of_cons; [right; exists (ts, r); split; [by left|done]|].
      destruct (H3 r' Hr' Hin) as [Hk'|(x & Hx & E)]; [|right; exists x; split; [by right|done]].
      apply elem_of_app in Hk' as [Hk'|Hk']; [by left|]. apply list_elem_of_singleton in Hk'. right. exists (ts, r). split; [by left|done].
  - destruct (IH K) as (H1 & H2 & H3). split_and!; [done|done|]. intros r' Hr' [->|Hin]%elem_of_cons; [cbn in *; congruence|by apply H3].
Qed.

Lemma fresh_sub xs : forall K x, x ∈ fresh_trades K xs -> x ∈ xs.
Proof.
  induction xs as [|[ts r] xs IH]; intros K x; cbn [fresh_trades]; [done|].
  destruct (is_trade _); [destruct (decide _)|]; [intros Hx|intros [->|Hx]%elem_of_cons|intros Hx];
    first [by left|right; by eapply IH].
Qed.

(** The key of a trade is the whole trade. *)
Lemma trade_key_inj r r' : is_trade r = true -> is_trade r' = true -> trade_key r' = trade_key r -> r = r'.
Proof.
  intros H1 H2. destruct r as [|i t m sd p q mf tf| | | | | | | | | | | | |], r' as [|i' t' m' sd' p' q' mf' tf'| | | | | | | | | | | | |]; try done.
  unfold trade_key, ReportDeduper.key. cbn [fields d_type_code d_side d_instrument d_order_id d_aux_id d_price d_qty d_maker_fee d_taker_fee].
  intros [=]. destruct sd, sd'; congruence.
Qed.

(** Every trade counts once.  Whatever the interleaving of several feeds that
    publish the same trades, with anything else between them: as long as at most
    a hundred thousand distinct trades are involved, the candles are those of
    the sequence of first reports, each distinct trade exactly once, and the
    recent trades of an instrument are the last thousand of its entries there;
    no report makes the service fail. *)
Theorem trades_counted_once (a : KlineAggregator) (xs : list (Z * ExecReport)) :
  shaped a -> Forall report_ok xs.*2 -> Z.of_nat (length (fresh_trades [] xs)) <= ReportDeduper.CAPACITY ->
  (exists st, ofold on_stamped (initial a) ((fun x => (x.1, encode_report x.2)) <$> xs) = Ret st /\
     ofold feed a (trade_print <$> fresh_trades [] xs) = Ret (agg st) /\
     forall i, default [] (trades st !! i) = last_n RING (of_instrument i (fresh_trades [] xs))) /\
  NoDup (fresh_trades [] xs).*2 /\
  forall r, is_trade r = true -> (r ∈ xs.*2 <-> r ∈ (fresh_trades [] xs).*2).
Proof.
  intros Ha Hok Hl. split.
  - destruct (reports_fed xs (initial a) [] Hok) as (st & E & Ef & Hr); [by split|done|cbn; lia|]. exists st. split_and!; [|done|].
    + rewrite <-E. clear -Hok. generalize (initial a). induction xs as [|[ts r] xs IH]; intros st; [done|]. cbn [fmap list_fmap fst snd] in *.
      apply Forall_cons in Hok as [Hr Hok]. cbn [ofold]. unfold on_stamped at 1, on_frame. cbn [fst snd]. rewrite decode_report_encode by done.
      destruct (on_report ts st (fields r)); [|done]. cbn [obind]. by apply IH.
    + intros i. rewrite Hr. cbn [initial trades]. rewrite lookup_empty. cbn [default]. apply (ring_fold _ []). cbn. lia.
  - destruct (fresh_spec xs []) as (H1 & H2 & H3). split.
    { rewrite list_fmap_compose in H1. by apply NoDup_fmap_1 in H1. }
    intros r Ht. split; intros Hin.
    + destruct (H3 r Ht Hin) as [Hx|([ts r'] & Hx & E)]; [by apply elem_of_nil in Hx|]. rewrite Forall_forall in H2.
      destruct (H2 _ Hx) as [Ht' _]. apply list_elem_of_fmap. exists (ts, r'). split; [|done]. by apply trade_key_inj.
    + apply list_elem_of_fmap in Hin as (x & -> & Hx). apply list_elem_of_fmap. exists x. split; [done|]. by eapply fresh_sub.
Qed.

(** Two feeds with the same two trades. *)
Definition example_tape : list (Z * ExecReport) :=
  let a := RTrade 1 2 1 Buy 100 5 0 1 in
  let b := RTrade 1 3 1 Buy 101 2 0 1 in
  [(60, a); (60, RFilled 1 2); (61, a); (61, b); (62, RDepthLevel 1 Sell 0 101 7); (63, b)].

Lemma trades_counted_once_witness : exists st,
  ofold on_stamped fresh_state ((fun x => (x.1, encode_report x.2)) <$> example_tape) = Ret st /\
  default [] (trades st !! 1) = [(60, 100, 5, 0, 1); (61, 101, 2, 0, 1)].
Proof.
  destruct (trades_counted_once (KlineAggregator.new 10) example_tape) as [(st & E & _ & Hr) _].
  - intros i s. cbn. by rewrite lookup_empty.
  - repeat apply Forall_cons_2; [cbn; unfold_width; try lia; try done..|apply Forall_nil_2].
  - vm_compute. discriminate.
  - exists st. split; [exact E|]. rewrite Hr. vm_compute. reflexivity.
Defined.
