(* ===== verification/WebFront.v ===== *)
(** * The market-data service: HTTP and WebSocket

    The second half of [src/src/bin/market_data.rs]: the WebSocket handshake and
    frames, the routes of the HTTP side with their access control, and the pool
    of connections over which trading requests are forwarded to the order API.
    What a client sends is a text ([Text]); a request that is not valid UTF-8,
    whose handling stops at the offending line, is left out, as are timeouts
    before a request is complete.  The three static pages are arguments. *)

From S2P Require Import Prelude Types Protocol Bytes Text Wire Framing Segments Migration Ingress MarketData.

(** ** SHA-1 and base64 *)
Definition MASK32 : Z := U32_MAX.

Definition rotate_left (x n : Z) : Z := Z.land (Z.lor (Z.shiftl x n) (Z.shiftr x (32 - n))) MASK32.
Definition not32 (x : Z) : Z := Z.lxor x MASK32.

(** [while msg.len() % 64 != 56 { msg.push(0) }] *)
Fixpoint pad_zeros (fuel : nat) (msg : bytes) : bytes :=
  match fuel with
  | O => msg
  | S fuel => if negb (length msg mod 64 =? 56)%nat then pad_zeros fuel (msg ++ [0]) else msg
  end.

Definition sha1_message (data : bytes) : bytes :=
  pad_zeros 64 (data ++ [128]) ++ be_bytes 8 (wrap64 (Z.of_nat (length data) * 8)).

Definition word_at (w : list Z) (i : nat) : Z := default 0 (w !! i).

(** [w[16..80]], one word at a time. *)
Fixpoint extend_words (n : nat) (w : list Z) : list Z :=
  match n with
  | O => w
  | S n =>
      let i := length w in
      extend_words n (w ++ [rotate_left (Z.lxor (Z.lxor (Z.lxor (word_at w (i - 3)) (word_at w (i - 8))) (word_at w (i - 14)))
                                           (word_at w (i - 16))) 1])
  end.

Definition schedule (chunk : bytes) : list Z :=
  extend_words 64 ((fun j => be_value (take 4 (drop (4 * j) chunk))) <$> seq 0 16).

Record Sha1 := mkSha1 { h0 : Z; h1 : Z; h2 : Z; h3 : Z; h4 : Z }.

Definition sha1_round (s : Sha1) (iw : nat * Z) : Sha1 :=
  let '(mkSha1 a b c d e) := s in
  let '(i, wi) := iw in
  let '(f, k) :=
    if (i <? 20)%nat then (Z.lor (Z.land b c) (Z.land (not32 b) d), 1518500249)
    else if (i <? 40)%nat then (Z.lxor (Z.lxor b c) d, 1859775393)
    else if (i <? 60)%nat then (Z.lor (Z.lor (Z.land b c) (Z.land b d)) (Z.land c d), 2400959708)
    else (Z.lxor (Z.lxor b c) d, 3395469782) in
  let t := wrap32 (wrap32 (wrap32 (wrap32 (rotate_left a 5 + f) + e) + k) + wi) in
  mkSha1 t a (rotate_left b 30) c d.

Definition sha1_block (s : Sha1) (chunk : bytes) : Sha1 :=
  let r := foldl sha1_round s (imap pair (schedule chunk)) in
  mkSha1 (wrap32 (h0 s + h0 r)) (wrap32 (h1 s + h1 r)) (wrap32 (h2 s + h2 r)) (wrap32 (h3 s + h3 r)) (wrap32 (h4 s + h4 r)).

Definition sha1 (data : bytes) : bytes :=
  let msg := sha1_message data in
  let s := foldl sha1_block (mkSha1 1732584193 4023233417 2562383102 271733878 3285377520) (chunks_exact (length msg) 64 msg) in
  be_bytes 4 (h0 s) ++ be_bytes 4 (h1 s) ++ be_bytes 4 (h2 s) ++ be_bytes 4 (h3 s) ++ be_bytes 4 (h4 s).

Definition BASE64 : text := lit "ABCDEFGHIJKLMNOPQRSTUVWXYZabcdefghijklmnopqrstuvwxyz0123456789+/".

Definition sextet (n shift : Z) : Z := default 0 (BASE64 !! Z.to_nat (Z.land (Z.shiftr n shift) 63)).

(** One chunk of at most three bytes. *)
Definition base64_chunk (a : Z) (b c : option Z) : text :=
  let n := a * 65536 + default 0 b * 256 + default 0 c in
  [sextet n 18; sextet n 12; match b with Some _ => sextet n 6 | None => 61 end; match c with Some _ => sextet n 0 | None => 61 end].

Fixpoint base64 (data : bytes) : text :=
  match data with
  | a :: b :: c :: rest => base64_chunk a (Some b) (Some c) ++ base64 rest
  | [a; b] => base64_chunk a (Some b) None
  | [a] => base64_chunk a None None
  | [] => []
  end.

(** ** WebSocket *)
Definition accept_key (key : text) : text := base64 (sha1 (key ++ lit "258EAFA5-E914-47DA-95CA-C5AB0DC85B11")).

(** [ws_send_text]: an unmasked text frame. *)
Definition ws_text (payload : bytes) : bytes :=
  let n := Z.of_nat (length payload) in
  [129] ++ (if n <=? 125 then [n] else if n <=? 65535 then 126 :: be_bytes 2 n else 127 :: be_bytes 8 n) ++ payload.

(** [read_exact] of [n] bytes from what arrives. *)
Definition read_n (n : nat) (s : bytes) : io_result (bytes * bytes) :=
  if (n <=? length s)%nat then Ok (take n s, drop n s) else Err "failed to fill whole buffer".

(** [ws_drain_client]: [None] is a read that timed out, otherwise what arrives
    before the stream ends; with whether the session goes on. *)
Definition ws_drain_client (arrived : option bytes) (ending : Ending) : io_result (bool * bytes) :=
  match arrived with
  | None => Ok (true, [])
  | Some [] => match ending with Closed => Ok (false, []) | Broken why => Err why end
  | Some (first :: s) =>
      let? h := read_n 1 s in
      let second := default 0 (head h.1) in
      let opcode := Z.land first 15 in
      let masked := negb (Z.land second 128 =? 0) in
      let len := Z.land second 127 in
      let? l :=
        if len =? 126 then let? x := read_n 2 h.2 in Ok (be_value x.1, x.2)
        else if len =? 127 then let? x := read_n 8 h.2 in Ok (be_value x.1, x.2)
        else Ok (len, h.2) in
      let skip := wrap64 (l.1 + (if masked then 4 else 0)) in
      match ending with
      | Broken why => if Z.of_nat (length l.2) <? skip then Err why else Ok (negb (opcode =? 8), drop (Z.to_nat skip) l.2)
      | Closed => Ok (negb (opcode =? 8), drop (Z.to_nat (Z.min skip (Z.of_nat (length l.2)))) l.2)
      end
  end.

Definition query_param := Ingress.query_param.

Definition symbol_of (query : text) : InstrumentId :=
  default 1 (query_param query (lit "symbol") ≫= parse_uint U32_MAX).

Definition handshake (key : text) : text :=
  lit "HTTP/1.1 101 Switching Protocols" ++ crlf ++ lit "Upgrade: websocket" ++ crlf ++ lit "Connection: Upgrade" ++ crlf ++
  lit "Sec-WebSocket-Accept: " ++ accept_key key ++ crlf ++ crlf.

Definition ws_message (st : State) (query : text) : outcome text :=
  let symbol := symbol_of query in
  let interval := default (lit "1s") (query_param query (lit "interval")) in
  let! cs := candles_json st symbol interval 120 in
  Ret (lit "{" ++ quote "candles" ++ lit ":" ++ cs ++ lit "," ++ quote "depth" ++ lit ":" ++ depth_json st symbol ++ lit "}").

(** The loop of [ws_session]: per turn what the client sent, how its stream
    ended, the state at that time and whether the write succeeded; the frames
    sent. *)
Record WsTurn := mkWsTurn {
  wt_arrived : option bytes;
  wt_ending : Ending;
  wt_state : State;
  wt_written : bool
}.

Fixpoint ws_loop (query : text) (turns : list WsTurn) : outcome (list bytes) :=
  match turns with
  | [] => Ret []
  | t :: turns =>
      match ws_drain_client (wt_arrived t) (wt_ending t) with
      | Err _ | Ok (false, _) => Ret []
      | Ok (true, _) =>
          let! m := ws_message (wt_state t) query in
          if wt_written t then let! r := ws_loop query turns in Ret (ws_text m :: r) else Ret []
      end
  end.

(** ** Orders from queries *)

(** [required_query] for an unsigned integer of the given width; the error is the
    body of the answer. *)
Definition error_body (e : text) : text := lit "{" ++ quote "error" ++ lit ":" ++ [34] ++ e ++ [34] ++ lit "}".

Definition required_query (max : Z) (query : text) (key : string) : text + Z :=
  match query_param query (lit key) with
  | None => inl (error_body (lit "missing " ++ lit key))
  | Some v => match parse_uint max v with Some n => inr n | None => inl (error_body (lit "invalid " ++ lit key)) end
  end.

Definition sum_bind {E A B : Type} (x : E + A) (k : A -> E + B) : E + B := match x with inl e => inl e | inr a => k a end.

Definition new_order_from_query (query : text) : text + Order :=
  sum_bind
    (match query_param query (lit "side") with
     | Some v => if bool_decide (v = lit "buy") then inr Buy else if bool_decide (v = lit "sell") then inr Sell
                 else inl (error_body (lit "side must be buy or sell"))
     | None => inl (error_body (lit "side must be buy or sell"))
     end) (fun side =>
  sum_bind (required_query U32_MAX query "instrument") (fun instrument =>
  sum_bind (required_query U64_MAX query "order_id") (fun order_id =>
  sum_bind (required_query U64_MAX query "price") (fun price =>
  sum_bind (required_query U64_MAX query "qty") (fun qty =>
  sum_bind (required_query U64_MAX query "user") (fun user =>
  inr (Order.by_user (Order.on (Order.limit order_id side price qty) instrument) user))))))).

Definition cancel_from_query (query : text) : text + (InstrumentId * OrderId * Z) :=
  sum_bind (required_query U32_MAX query "instrument") (fun instrument =>
  sum_bind (required_query U64_MAX query "order_id") (fun order_id =>
  sum_bind (required_query U64_MAX query "cmd_id") (fun cmd_id => inr (instrument, order_id, cmd_id)))).

(** ** Access *)
Definition admin_access (authorization configured : option text) : string * text + unit :=
  match configured with
  | None | Some [] => inl ("503 Service Unavailable", error_body (lit "admin access is not configured"))
  | Some token =>
      if bool_decide (authorization = Some (lit "Bearer " ++ token)) then inr tt
      else inl ("401 Unauthorized", error_body (lit "admin authorization required"))
  end.

(** ** The connection pool

    A connection is what it will answer to the requests written to it, in order:
    [None] is an error while writing or reading, and a used-up connection is one
    the peer has closed. *)
Abbreviation Conn := (list (option text)) (only parsing).

(** [read_line]: up to and including the line feed. *)
Fixpoint read_line (s : text) : text * text :=
  match s with
  | [] => ([], [])
  | c :: rest => if c =? 10 then ([c], rest) else let r := read_line rest in (c :: r.1, r.2)
  end.

Definition lower (c : Z) : Z := if (65 <=? c) && (c <=? 90) then c + 32 else c.
Definition eq_ignore_ascii_case (a b : text) : bool := bool_decide (lower <$> a = lower <$> b).

(** The header loop of [send_order_api_request]: the content length, and what
    follows the headers. *)
Fixpoint response_headers (fuel : nat) (content_length : Z) (s : text) : io_result (Z * text) :=
  match fuel with
  | O => Ok (content_length, s)
  | S fuel =>
      let '(header, rest) := read_line s in
      if bool_decide (header = crlf) || bool_decide (header = []) then Ok (content_length, rest)
      else
        match split_once (lit ":") header with
        | Some (name, value) =>
            if eq_ignore_ascii_case name (lit "content-length") then
              match parse_uint U64_MAX (trim value) with
              | None => Err "invalid order API content length"
              | Some n => response_headers fuel n rest
              end
            else response_headers fuel content_length rest
        | None => response_headers fuel content_length rest
        end
  end.

(** What [send_order_api_request] makes of the answer. *)
Definition response_accepted (raw : text) : outcome (io_result bool) :=
  let '(status, rest) := read_line raw in
  if bool_decide (status = []) then Ret (Err "order API closed persistent connection")
  else
    match response_headers (S (length rest)) 0 rest with
    | Err why => Ret (Err why)
    | Ok (n, body) =>
        if 2 ^ 63 - 1 <? n then Panic "capacity overflow"
        else if Z.of_nat (length body) <? n then Ret (Err "failed to fill whole buffer")
        else Ret (Ok (starts_with (lit "HTTP/1.1 202") status))
    end.

Definition send_order_api_request (c : Conn) : outcome (io_result bool * Conn) :=
  match c with
  | [] => Ret (Err "order API closed persistent connection", [])
  | None :: c => Ret (Err "connection error", c)
  | Some raw :: c => let! r := response_accepted raw in Ret (r, c)
  end.

Record OrderApiPool := mkPool {
  pool_token : text;
  idle : list Conn;        (* the next one to be used first *)
  max_idle : nat;
  dials : list (option Conn)   (* what the next connection attempts give *)
}.

Module OrderApiPool.

Definition connect (p : OrderApiPool) : io_result (Conn * OrderApiPool) :=
  match dials p with
  | Some c :: ds => Ok (c, mkPool (pool_token p) (idle p) (max_idle p) ds)
  | _ => Err "connection refused"
  end.

Definition request (p : OrderApiPool) (path query : text) : text :=
  lit "POST " ++ path ++ lit "?" ++ query ++ lit " HTTP/1.1" ++ crlf ++ lit "Host: order-api" ++ crlf ++
  lit "Authorization: Bearer " ++ pool_token p ++ crlf ++ lit "Content-Length: 0" ++ crlf ++ lit "Connection: keep-alive" ++ crlf ++ crlf.

(** [for _ in 0..2]; with the number of times the request was sent. *)
Fixpoint attempts (n : nat) (p : OrderApiPool) (sent : nat) (last_error : string) : outcome (io_result unit * OrderApiPool * nat) :=
  match n with
  | O => Ret (Err last_error, p, sent)
  | S n =>
      let conn :=
        match idle p with
        | c :: rest => Ok (c, mkPool (pool_token p) rest (max_idle p) (dials p))
        | [] => connect p
        end in
      match conn with
      | Err why => Ret (Err why, p, sent)
      | Ok (c, p) =>
          let! r := send_order_api_request c in
          match r.1 with
          | Ok accepted =>
              let p := if (length (idle p) <? max_idle p)%nat then mkPool (pool_token p) (r.2 :: idle p) (max_idle p) (dials p) else p in
              Ret (if accepted then Ok tt else Err "order API rejected request", p, S sent)
          | Err why => attempts n p (S sent) why
          end
      end
  end.

Definition forward (p : OrderApiPool) : outcome (io_result unit * OrderApiPool * nat) := attempts 2 p 0 "order API unavailable".

End OrderApiPool.

(** ** HTTP *)
Record Reply := mkReply { reply_status : string; reply_type : string; reply_body : text }.

Definition respond (r : Reply) : text :=
  lit "HTTP/1.1 " ++ lit (reply_status r) ++ crlf ++ lit "Content-Type: " ++ lit (reply_type r) ++ crlf ++
  lit "Content-Length: " ++ show (Z.of_nat (length (reply_body r))) ++ crlf ++ lit "Access-Control-Allow-Origin: *" ++ crlf ++
  lit "Connection: close" ++ crlf ++ crlf ++ reply_body r.

(** The two headers that are read. *)
Record Headers := mkHeaders { ws_key : option text; authorization : option text }.

Fixpoint read_headers (fuel : nat) (h : Headers) (s : text) : Headers :=
  match fuel with
  | O => h
  | S fuel =>
      let '(hl, rest) := read_line s in
      if bool_decide (trim hl = []) then h
      else
        let h :=
          match split_once (lit ":") hl with
          | Some (k, v) =>
              let h := if eq_ignore_ascii_case k (lit "sec-websocket-key") then mkHeaders (Some (trim v)) (authorization h) else h in
              if eq_ignore_ascii_case k (lit "authorization") then mkHeaders (ws_key h) (Some (trim v)) else h
          | None => h
          end in
        read_headers fuel h rest
  end.

Record HttpRequest := mkRequest { method : text; path : text; query : text; headers : Headers }.

Definition read_request (raw : text) : HttpRequest :=
  let '(line, rest) := read_line raw in
  let path_full := default (lit "/") (words line !! 1%nat) in
  let '(p, q) := default (path_full, []) (split_once (lit "?") path_full) in
  mkRequest (default (lit "GET") (words line !! 0%nat)) p q (read_headers (S (length rest)) (mkHeaders None None) rest).

(** What a request leads to: an answer, or a WebSocket session. *)
Inductive Outcome :=
| Answer (r : Reply)
| Session (key query : text).

Record Server := mkServer {
  state : State;
  admin_token : option text;
  trading_token : option text;
  order_api : OrderApiPool;
  sent_requests : list text    (* the requests written to the order API *)
}.

Definition json (status : string) (body : text) : Outcome := Answer (mkReply status "application/json" body).
Definition html (page : text) : Outcome := Answer (mkReply "200 OK" "text/html; charset=utf-8" page).

(** The answer to a trading request whose query is good. *)
Definition forwarded (s : Server) (api_path q : text) : outcome (Outcome * Server) :=
  let req := OrderApiPool.request (order_api s) api_path q in
  let! r := OrderApiPool.forward (order_api s) in
  let '(res, pool, sent) := r in
  let s := mkServer (state s) (admin_token s) (trading_token s) pool (sent_requests s ++ replicate sent req) in
  Ret (match res with
       | Ok _ => json "202 Accepted" (lit "{" ++ quote "accepted" ++ lit ":true}")
       | Err why => json "503 Service Unavailable" (error_body (lit why))
       end, s).

Definition trading (s : Server) (r : HttpRequest) (valid : option text) (api_path : text) : outcome (Outcome * Server) :=
  match admin_access (authorization (headers r)) (trading_token s) with
  | inl (status, message) => Ret (json status message, s)
  | inr _ =>
      match valid with
      | Some message => Ret (json "400 Bad Request" message, s)
      | None => forwarded s api_path (query r)
      end
  end.

Definition bad {A : Type} (x : text + A) : option text := match x with inl m => Some m | inr _ => None end.

Definition handle_http (CHART_HTML ADMIN_HTML TRADE_HTML : text) (s : Server) (raw : text) : outcome (Outcome * Server) :=
  let r := read_request raw in
  let at_path l := bool_decide (path r = lit l) in
  let post := bool_decide (method r = lit "POST") in
  if at_path "/"%string || at_path "/index.html"%string then Ret (html CHART_HTML, s)
  else if at_path "/admin"%string || at_path "/admin/"%string then Ret (html ADMIN_HTML, s)
  else if at_path "/trade"%string || at_path "/trade/"%string then Ret (html TRADE_HTML, s)
  else if at_path "/ws"%string then
    Ret (match ws_key (headers r) with
         | Some key => Session key (query r)
         | None => Answer (mkReply "400 Bad Request" "text/plain" (lit "expected websocket"))
         end, s)
  else if at_path "/api/symbols"%string then Ret (json "200 OK" (symbols_json (state s)), s)
  else if at_path "/api/admin/overview"%string then
    Ret (match admin_access (authorization (headers r)) (admin_token s) with
         | inr _ => json "200 OK" (admin_overview_json (state s))
         | inl (status, message) => json status message
         end, s)
  else if at_path "/api/trade/order"%string && post then trading s r (bad (new_order_from_query (query r))) (lit "/orders")
  else if at_path "/api/trade/cancel"%string && post then trading s r (bad (cancel_from_query (query r))) (lit "/cancels")
  else if at_path "/api/candles"%string then
    let limit := default 120 (query_param (query r) (lit "limit") ≫= parse_uint U64_MAX) in
    let! body := candles_json (state s) (symbol_of (query r)) (default (lit "1m") (query_param (query r) (lit "interval"))) (Z.to_nat (Z.min limit 1000)) in
    Ret (json "200 OK" body, s)
  else if at_path "/api/trades"%string then
    let limit := default 100 (query_param (query r) (lit "limit") ≫= parse_uint U64_MAX) in
    Ret (json "200 OK" (trades_json (state s) (symbol_of (query r)) (Z.to_nat (Z.min limit 1000))), s)
  else if at_path "/api/depth"%string then Ret (json "200 OK" (depth_json (state s) (symbol_of (query r))), s)
  else Ret (Answer (mkReply "404 Not Found" "text/plain" (lit "not found")), s).

(** ** Base64 read back *)
Definition unsextet (c : Z) : option Z := Z.of_nat ∘ fst <$> list_find (fun d => d = c) BASE64.

(** The decoder of RFC 4648, for padded input. *)
Fixpoint unbase64 (t : text) : option bytes :=
  match t with
  | [] => Some []
  | a :: b :: c :: d :: rest =>
      x ← unsextet a; y ← unsextet b;
      if c =? 61 then Some [x * 4 + y / 16]
      else
        z ← unsextet c;
        if d =? 61 then Some [x * 4 + y / 16; y mod 16 * 16 + z / 4]
        else
          w ← unsextet d; r ← unbase64 rest;
          Some ([x * 4 + y / 16; y mod 16 * 16 + z / 4; z mod 4 * 64 + w] ++ r)
  | _ => None
  end.

Lemma unsextet_at k : 0 <= k < 64 -> unsextet (default 0 (BASE64 !! Z.to_nat k)) = Some k /\ default 0 (BASE64 !! Z.to_nat k) <> 61.
Proof.
  intros Hk. assert (H : forallb (fun n => bool_decide (unsextet (default 0 (BASE64 !! n)) = Some (Z.of_nat n)) &&
    negb (default 0 (BASE64 !! n) =? 61)) (seq 0 64) = true) by (vm_compute; reflexivity).
  rewrite forallb_forall in H. specialize (H (Z.to_nat k)). rewrite in_seq in H. specialize (H ltac:(lia)).
  apply andb_true_iff in H as [H1 H2]. apply bool_decide_eq_true in H1. zbool. by rewrite Z2Nat.id in H1 by lia.
Qed.

Lemma sextet_value n shift : 0 <= n -> 0 <= shift -> unsextet (sextet n shift) = Some (n / 2 ^ shift mod 64) /\ sextet n shift <> 61.
Proof.
  intros Hn Hs. unfold sextet. change 63 with (Z.ones 6). rewrite Z.land_ones, Z.shiftr_div_pow2 by lia. change (2 ^ 6) with 64.
  apply unsextet_at. apply Z.mod_pos_bound. lia.
Qed.

Lemma sextets a b c : is_byte a -> is_byte b -> is_byte c ->
  let n := a * 65536 + b * 256 + c in
  let x := n / 2 ^ 18 mod 64 in let y := n / 2 ^ 12 mod 64 in let z := n / 2 ^ 6 mod 64 in let w := n / 2 ^ 0 mod 64 in
  x * 4 + y / 16 = a /\ y mod 16 * 16 + z / 4 = b /\ z mod 4 * 64 + w = c.
Proof.
  intros Ha Hb Hc n x y z w. unfold is_byte in *. change (2 ^ 18) with 262144 in *. change (2 ^ 12) with 4096 in *. change (2 ^ 6) with 64 in *.
  change (2 ^ 0) with 1 in *. unfold x, y, z, w, n. Z.to_euclidean_division_equations. lia.
Qed.

Lemma base64_one a b c rest : is_byte a -> is_byte b -> is_byte c ->
  unbase64 (base64_chunk a (Some b) (Some c) ++ rest) = (fun r => [a; b; c] ++ r) <$> unbase64 rest.
Proof.
  intros Ha Hb Hc. destruct (sextets a b c Ha Hb Hc) as (E1 & E2 & E3). unfold base64_chunk. cbn [default from_option id app unbase64].
  set (n := a * 65536 + b * 256 + c) in *. assert (Hn : 0 <= n) by (unfold n, is_byte in *; lia).
  destruct (sextet_value n 18) as [S1 _]; [lia..|]. destruct (sextet_value n 12) as [S2 _]; [lia..|].
  destruct (sextet_value n 6) as [S3 N3]; [lia..|]. destruct (sextet_value n 0) as [S4 N4]; [lia..|].
  rewrite S1, S2, S3, S4. cbn [mbind option_bind]. rewrite (proj2 (Z.eqb_neq _ _) N3), (proj2 (Z.eqb_neq _ _) N4).
  rewrite E1, E2, E3. by destruct (unbase64 rest).
Qed.

(** Base64 reads back: what the handshake encodes is decoded by the
    standard's decoder to the same bytes, for every length and padding. *)
Theorem base64_round_trip (data : bytes) : Forall is_byte data -> unbase64 (base64 data) = Some data.
Proof.
  assert (H : forall n data, (length data <= n)%nat -> Forall is_byte data -> unbase64 (base64 data) = Some data); [|by eapply H].
  clear data. intros n. induction n as [|n IH]; intros data Hl Hd; [by destruct data; [|cbn in Hl; lia]|].
  destruct data as [|a [|b [|c rest]]]; [done| | |].
  - apply Forall_cons in Hd as [Ha _]. destruct (sextets a 0 0 Ha ltac:(done) ltac:(done)) as (E1 & _).
    unfold base64, base64_chunk. cbn [default from_option id unbase64]. set (n0 := a * 65536 + 0 * 256 + 0) in *.
    assert (Hn : 0 <= n0) by (unfold n0, is_byte in *; lia).
    destruct (sextet_value n0 18) as [S1 _]; [lia..|]. destruct (sextet_value n0 12) as [S2 _]; [lia..|].
    rewrite S1, S2. cbn [mbind option_bind Z.eqb Pos.eqb]. by rewrite E1.
  - apply Forall_cons in Hd as [Ha Hd]. apply Forall_cons in Hd as [Hb _]. destruct (sextets a b 0 Ha Hb ltac:(done)) as (E1 & E2 & _).
    unfold base64, base64_chunk. cbn [default from_option id unbase64]. set (n0 := a * 65536 + b * 256 + 0) in *.
    assert (Hn : 0 <= n0) by (unfold n0, is_byte in *; lia).
    destruct (sextet_value n0 18) as [S1 _]; [lia..|]. destruct (sextet_value n0 12) as [S2 _]; [lia..|].
    destruct (sextet_value n0 6) as [S3 N3]; [lia..|].
    rewrite S1, S2, S3. cbn [mbind option_bind Z.eqb Pos.eqb]. rewrite (proj2 (Z.eqb_neq _ _) N3). by rewrite E1, E2.
  - apply Forall_cons in Hd as [Ha Hd]. apply Forall_cons in Hd as [Hb Hd]. apply Forall_cons in Hd as [Hc Hd]. cbn [base64].
    rewrite base64_one by done. cbn [length] in Hl. rewrite IH by (done || lia). done.
Qed.

Lemma base64_round_trip_witness : unbase64 (base64 [255; 0; 127; 9]) = Some [255; 0; 127; 9].
Proof. apply (base64_round_trip [255; 0; 127; 9]). repeat apply Forall_cons_2; [by vm_compute..|apply Forall_nil_2]. Defined.

(** ** SHA-1 *)
Lemma pad_zeros_spec fuel msg k : (k <= fuel)%nat -> ((length msg + k) mod 64 = 56)%nat ->
  (forall j, (j < k)%nat -> ((length msg + j) mod 64 <> 56)%nat) -> pad_zeros fuel msg = msg ++ replicate k 0.
Proof.
  revert fuel msg. induction k as [|k IH]; intros fuel msg Hf He Hj.
  - rewrite Nat.add_0_r in He. destruct fuel as [|fuel]; cbn [pad_zeros]; [by rewrite app_nil_r|]. rewrite He. by rewrite app_nil_r.
  - destruct fuel as [|fuel]; [lia|]. cbn [pad_zeros]. specialize (Hj 0%nat ltac:(lia)) as H0. rewrite Nat.add_0_r in H0.
    rewrite (proj2 (Nat.eqb_neq _ _) H0). cbn [negb]. rewrite IH.
    + by rewrite <-(assoc_L (++)).
    + lia.
    + rewrite length_app. cbn [length]. by replace (length msg + 1 + k)%nat with (length msg + S k)%nat by lia.
    + intros j Hj'. rewrite length_app. cbn [length]. replace (length msg + 1 + j)%nat with (length msg + S j)%nat by lia. apply Hj. lia.
Qed.

(** The padding loop ends within 64 steps, and the padded message is whole
    blocks: the data, a one bit, zeros and the length in bits. *)
Theorem sha1_message_blocks (data : bytes) : exists k, (k < 64)%nat /\
  sha1_message data = data ++ [128] ++ replicate k 0 ++ be_bytes 8 (wrap64 (Z.of_nat (length data) * 8)) /\
  (length (sha1_message data) mod 64 = 0)%nat.
Proof.
  set (n := length (data ++ [128])). pose proof (Nat.mod_upper_bound n 64 ltac:(lia)) as Hr. pose proof (Nat.div_mod_eq n 64) as Hn.
  set (r := (n mod 64)%nat) in *. set (k := if (r <=? 56)%nat then (56 - r)%nat else (120 - r)%nat).
  assert (Hm : forall j, ((n + j) mod 64 = (r + j) mod 64)%nat) by (intros j; unfold r; by rewrite Nat.Div0.add_mod_idemp_l).
  assert (Hk : (k < 64)%nat /\ ((n + k) mod 64 = 56)%nat /\ forall j, (j < k)%nat -> ((n + j) mod 64 <> 56)%nat).
  { unfold k. destruct (Nat.leb_spec r 56) as [Hle|Hgt].
    - split; [lia|]. rewrite Hm. replace (r + (56 - r))%nat with 56%nat by lia. split; [done|]. intros j Hj.
      rewrite Hm, Nat.mod_small by lia. lia.
    - split; [lia|]. rewrite Hm. replace (r + (120 - r))%nat with 120%nat by lia. split; [done|]. intros j Hj. rewrite Hm.
      destruct (decide (r + j < 64)%nat); [rewrite Nat.mod_small by lia; lia|].
      replace (r + j)%nat with (r + j - 64 + 1 * 64)%nat by lia. rewrite Nat.Div0.mod_add, Nat.mod_small by lia. lia. }
  destruct Hk as (Hk & He & Hj). exists k. split; [done|]. unfold sha1_message.
  rewrite (pad_zeros_spec 64 (data ++ [128]) k) by (done || lia). rewrite <-!(assoc_L (++)). split; [done|].
  assert (El : length (data ++ [128] ++ replicate k 0 ++ be_bytes 8 (wrap64 (Z.of_nat (length data) * 8))) = (n + k + 8)%nat).
  { unfold n, be_bytes. rewrite !length_app, length_replicate, length_rev, length_le_bytes. lia. }
  rewrite El, <-Nat.Div0.add_mod_idemp_l, He. done.
Qed.

(** The examples of RFC 3174 and RFC 6455. *)
Theorem handshake_examples :
  sha1 (lit "abc") = [169; 153; 62; 54; 71; 6; 129; 106; 186; 62; 37; 113; 120; 80; 194; 108; 156; 208; 216; 157] /\
  accept_key (lit "dGhlIHNhbXBsZSBub25jZQ==") = lit "s3pPLMBiTxaQ9kYGzzhZRbK+xOo=".
Proof. vm_compute. split; reflexivity. Qed.

(** ** Frames *)

(** A frame of RFC 6455, with the mask of a client if it has one. *)
Definition frame (opcode : Z) (mask : option bytes) (payload : bytes) : bytes :=
  let n := Z.of_nat (length payload) in
  let m := match mask with Some _ => 128 | None => 0 end in
  [128 + opcode] ++ (if n <=? 125 then [m + n] else if n <=? 65535 then (m + 126) :: be_bytes 2 n else (m + 127) :: be_bytes 8 n) ++
  default [] mask ++ payload.

Lemma length_bits (m n : Z) : m = 0 \/ m = 128 -> 0 <= n < 128 -> Z.land (m + n) 127 = n /\ (Z.land (m + n) 128 =? 0) = (m =? 0).
Proof.
  intros Hm Hn. assert (H : forallb (fun k => (Z.land (0 + Z.of_nat k) 127 =? Z.of_nat k) && (Z.land (0 + Z.of_nat k) 128 =? 0) &&
    (Z.land (128 + Z.of_nat k) 127 =? Z.of_nat k) && negb (Z.land (128 + Z.of_nat k) 128 =? 0)) (seq 0 128) = true) by (vm_compute; reflexivity).
  rewrite forallb_forall in H. specialize (H (Z.to_nat n)). rewrite in_seq, Z2Nat.id in H by lia. specialize (H ltac:(lia)). zbool.
  destruct Hm as [-> | ->]; split; lia.
Qed.

Lemma opcode_bits k : 0 <= k < 16 -> Z.land (128 + k) 15 = k.
Proof.
  intros Hk. assert (H : forallb (fun k => Z.land (128 + Z.of_nat k) 15 =? Z.of_nat k) (seq 0 16) = true) by (vm_compute; reflexivity).
  rewrite forallb_forall in H. specialize (H (Z.to_nat k)). rewrite in_seq, Z2Nat.id in H by lia. specialize (H ltac:(lia)). by zbool.
Qed.

Lemma length_be n z : length (be_bytes n z) = n.
Proof. unfold be_bytes. by rewrite length_rev, length_le_bytes. Qed.

Lemma read_n_app n a b : length a = n -> read_n n (a ++ b) = Ok (a, b).
Proof.
  intros <-. unfold read_n. rewrite (proj2 (Nat.leb_le _ _)) by (rewrite length_app; lia). by rewrite take_app_length, drop_app_length.
Qed.

(** The length of a frame, read back. *)
Lemma frame_length m n rest : m = 0 \/ m = 128 -> 0 <= n < 2 ^ 63 ->
  exists second tail, (if n <=? 125 then [m + n] else if n <=? 65535 then (m + 126) :: be_bytes 2 n else (m + 127) :: be_bytes 8 n) ++ rest =
      second :: tail /\ (Z.land second 128 =? 0) = (m =? 0) /\
    (if Z.land second 127 =? 126 then let? x := read_n 2 tail in Ok (be_value x.1, x.2)
     else if Z.land second 127 =? 127 then let? x := read_n 8 tail in Ok (be_value x.1, x.2)
     else Ok (Z.land second 127, tail)) = Ok (n, rest).
Proof.
  intros Hm Hn. destruct (Z.leb_spec n 125); [|destruct (Z.leb_spec n 65535)]; eexists _, _; (split; [reflexivity|]).
  - destruct (length_bits m n Hm ltac:(lia)) as [-> ->]. split; [done|].
    destruct (Z.eqb_spec n 126); [lia|]. destruct (Z.eqb_spec n 127); [lia|]. done.
  - destruct (length_bits m 126 Hm ltac:(lia)) as [-> ->]. split; [done|]. cbn [Z.eqb Pos.eqb].
    fold (be_bytes 2 n). rewrite (read_n_app 2) by apply length_be. cbn [try_bind fst snd]. rewrite be_value_bytes; [done|]. change (256 ^ Z.of_nat 2) with 65536. lia.
  - destruct (length_bits m 127 Hm ltac:(lia)) as [-> ->]. split; [done|]. cbn [Z.eqb Pos.eqb].
    fold (be_bytes 8 n). rewrite (read_n_app 8) by apply length_be. cbn [try_bind fst snd]. rewrite be_value_bytes; [done|].
    change (256 ^ Z.of_nat 8) with 18446744073709551616. change (2 ^ 63) with 9223372036854775808 in Hn. lia.
Qed.

(** WebSocket frames.  [ws_drain_client] consumes exactly one frame, for every
    opcode, payload length (all three length encodings) and mask, and goes on
    unless the frame is a close; and the frames [ws_send_text] writes are such
    frames. *)
Theorem frames_consumed (opcode : Z) (mask : option bytes) (payload rest : bytes) (ending : Ending) :
  0 <= opcode < 16 -> (forall k, mask = Some k -> length k = 4%nat) -> Z.of_nat (length payload) < 2 ^ 62 ->
  ws_drain_client (Some (frame opcode mask payload ++ rest)) ending = Ok (negb (opcode =? 8), rest) /\
  ws_text payload = frame 1 None payload.
Proof.
  intros Ho Hk Hl. split; [|done]. unfold frame. set (n := Z.of_nat (length payload)) in *.
  set (m := match mask with Some _ => 128 | None => 0 end). cbn [app]. rewrite <-!(assoc_L (++)). cbn [ws_drain_client].
  destruct (frame_length m n (default [] mask ++ payload ++ rest)) as (second & tl & E & Hmask & Hlen).
  { unfold m. destruct mask; auto. }
  { unfold n. change (2 ^ 62) with 4611686018427387904 in Hl. change (2 ^ 63) with 9223372036854775808. lia. }
  rewrite E. change (second :: tl) with ([second] ++ tl). rewrite (read_n_app 1 [second] tl) by done. cbn [try_bind fst snd head default from_option id]. rewrite opcode_bits by done.
  rewrite Hlen. cbn [try_bind fst snd]. rewrite Hmask.
  assert (Hskip : wrap64 (n + (if negb (m =? 0) then 4 else 0)) = Z.of_nat (length (default [] mask ++ payload))).
  { change (2 ^ 62) with 4611686018427387904 in Hl. rewrite wrap64_small by (unfold_width; destruct (negb (m =? 0)); lia).
    rewrite length_app. unfold m. destruct mask as [k|]; cbn [Z.eqb negb default from_option id length]; [rewrite (Hk k eq_refl)|]; lia. }
  rewrite Hskip, (assoc_L (++)). generalize (default [] mask ++ payload). intros x. rewrite length_app.
  destruct ending; [rewrite Z.min_l by lia|destruct (Z.ltb_spec (Z.of_nat (length x + length rest)) (Z.of_nat (length x))); [lia|]];
    rewrite Nat2Z.id, drop_app_length; done.
Qed.

Lemma frames_consumed_witness :
  ws_drain_client (Some (frame 8 (Some [1; 2; 3; 4]) [7; 8] ++ [5])) Closed = Ok (false, [5]) /\
  ws_text [7; 8] = frame 1 None [7; 8].
Proof.
  apply (frames_consumed 8 (Some [1; 2; 3; 4]) [7; 8] [5] Closed).
  - lia.
  - intros k [= <-]. reflexivity.
  - vm_compute. reflexivity.
Defined.

(** ** Orders from queries *)

(** The terminal takes a query for an order exactly when the order API does, and
    both read the same order. *)
Lemma order_agrees (q : text) (o : Order) :
  new_order_from_query q = inr o <-> Ingress.order_from_query q = Ok o.
Proof.
  unfold new_order_from_query, Ingress.order_from_query, required_query, required, query_param.
  destruct (Ingress.query_param q (lit "side")) as [v|]; [|done].
  destruct (bool_decide (v = lit "buy")), (bool_decide (v = lit "sell")); cbn [sum_bind try_bind]; try done;
  destruct (Ingress.query_param q (lit "instrument")) as [vi|]; [destruct (parse_uint U32_MAX vi)| |destruct (parse_uint U32_MAX vi)| |destruct (parse_uint U32_MAX vi)|];
  destruct (Ingress.query_param q (lit "order_id")) as [v1|]; try destruct (parse_uint U64_MAX v1);
  destruct (Ingress.query_param q (lit "price")) as [v2|]; try destruct (parse_uint U64_MAX v2);
  destruct (Ingress.query_param q (lit "qty")) as [v3|]; try destruct (parse_uint U64_MAX v3);
  destruct (Ingress.query_param q (lit "user")) as [v4|]; try destruct (parse_uint U64_MAX v4);
  cbn [sum_bind try_bind]; split; congruence.
Qed.

(** ** The pool *)
Section pool.
Context (p : OrderApiPool).

(** The connections a request can be sent on, in the order they are tried. *)
Definition available (p : OrderApiPool) : list Conn := idle p ++ omap id (dials p).

(** An attempt leaves what it does not use: at most [sent] requests were sent,
    the idle connections stay within the limit, and success means that the last
    connection used answered the request with 202. *)
Lemma attempts_spec n sent why res q' sent' : forall q, OrderApiPool.attempts n q sent why = Ret (res, q', sent') ->
  (sent <= sent' <= sent + n)%nat /\ pool_token q' = pool_token q /\ max_idle q' = max_idle q /\
  (length (idle q) <= max_idle q -> length (idle q') <= max_idle q)%nat /\
  (res = Ok tt -> exists raw c, (Some raw :: c) ∈ available q /\ response_accepted raw = Ret (Ok true)).
Proof.
  revert sent why. induction n as [|n IH]; intros sent why q; cbn [OrderApiPool.attempts].
  { intros [= <- <- <-]. split_and!; first [lia|done]. }
  set (conn := match idle q with [] => _ | _ => _ end).
  assert (Hconn : forall c q1, conn = Ok (c, q1) -> pool_token q1 = pool_token q /\ max_idle q1 = max_idle q /\
    (length (idle q1) <= length (idle q))%nat /\ (forall x, x ∈ c :: available q1 -> x ∈ available q)).
  { unfold conn, OrderApiPool.connect, available. intros c q1. destruct (idle q) as [|c0 rest] eqn:Ei.
    - destruct (dials q) as [|[c1|] ds] eqn:Ed; try done. intros [= <- <-]. cbn [idle pool_token max_idle dials omap list_omap id app].
      split_and!; [done|done|done|done].
    - intros [= <- <-]. cbn [idle pool_token max_idle dials length app]. split_and!; [done|done|lia|done]. }
  destruct conn as [[c q1]|why1]; [|intros [= <- <- <-]; split_and!; first [lia|done]].
  destruct (Hconn c q1 eq_refl) as (T1 & M1 & L1 & A1). intros H. apply obind_ret in H as ([r c'] & Es & H). cbn [fst snd] in H.
  destruct r as [accepted|why1].
  - injection H as <- <- <-. split_and!; [lia|lia|by destruct (_ <? _)%nat|by destruct (_ <? _)%nat| |].
    + destruct (Nat.ltb_spec (length (idle q1)) (max_idle q1)); cbn [idle length]; lia.
    + destruct accepted; [|done]. intros _. destruct c as [|[raw|] c]; cbn [send_order_api_request] in Es; try done.
      apply obind_ret in Es as (r & Er & Es). injection Es as <- <-. exists raw, c. split; [apply A1; by left|done].
  - destruct (IH _ _ _ H) as (S1 & T2 & M2 & I2 & R2). split_and!; [lia|lia|congruence|congruence|rewrite <-M1; lia|].
    intros E. destruct (R2 E) as (raw & c2 & Hin & Hr). exists raw, c2. split; [|done]. apply A1. by right.
Qed.

(** Forwarding.  A trading request is sent at most twice; it counts as
    accepted only when a connection answered it with status 202 and a whole
    body; and the pool never keeps more idle connections than its limit. *)
Theorem forward_sound (res : io_result unit) (p' : OrderApiPool) (sent : nat) : (length (idle p) <= max_idle p)%nat ->
  OrderApiPool.forward p = Ret (res, p', sent) ->
  (sent <= 2)%nat /\ (length (idle p') <= max_idle p')%nat /\ pool_token p' = pool_token p /\
  (res = Ok tt -> exists raw c, (Some raw :: c) ∈ available p /\ response_accepted raw = Ret (Ok true)).
Proof.
  intros Hi H. destruct (attempts_spec _ _ _ _ _ _ _ H) as (S1 & T & M & I & R). rewrite M. split_and!; [lia|by apply I|done|done].
Qed.

(** A pool that holds two connections the peer has closed fails a request
    although the next connection attempt would succeed: both attempts are spent
    on idle connections. *)
Theorem stale_connections_fail (rest : list Conn) : idle p = [] :: [] :: rest ->
  OrderApiPool.forward p = Ret (Err "order API closed persistent connection", mkPool (pool_token p) rest (max_idle p) (dials p), 2%nat).
Proof.
  intros E. unfold OrderApiPool.forward. cbn [OrderApiPool.attempts]. rewrite E.
  cbn [send_order_api_request obind fst snd idle]. done.
Qed.
End pool.

Definition accepted_answer : text :=
  lit "HTTP/1.1 202 Accepted" ++ crlf ++ lit "Content-Length: 2" ++ crlf ++ crlf ++ lit "{}".

(** One connection was closed by the peer, a new one answers. *)
Definition example_pool : OrderApiPool := mkPool (lit "key") [[]] 1 [Some [Some accepted_answer; Some accepted_answer]].

Lemma forward_sound_witness : exists raw c, (Some raw :: c) ∈ available example_pool /\ response_accepted raw = Ret (Ok true).
Proof.
  refine (proj2 (proj2 (proj2 (forward_sound example_pool (Ok tt) (mkPool (lit "key") [[Some accepted_answer]] 1 []) 2 _ _))) eq_refl).
  - cbn. lia.
  - vm_compute. reflexivity.
Defined.

(** ** Trading *)
Lemma words_are_words s w : w ∈ words s -> is_word w.
Proof.
  revert w. induction s as [|c rest IH]; intros w; cbn [words]; [intros H; by apply elem_of_nil in H|].
  destruct (is_whitespace c) eqn:Ec; [apply IH|].
  assert (H1 : is_word [c]) by (split; [done|by repeat constructor]).
  destruct rest as [|d rest]; [intros H; by apply list_elem_of_singleton in H as ->|].
  destruct (is_whitespace d) eqn:Ed; [intros [->|H]%elem_of_cons; [done|by apply IH]|].
  destruct (words (d :: rest)) as [|w0 ws] eqn:Ew; [intros H; by apply list_elem_of_singleton in H as ->|].
  intros [->|H]%elem_of_cons; [|apply IH; by right]. destruct (IH w0 ltac:(by left)) as [_ H0]. split; [done|]. by constructor.
Qed.

Definition no_space (t : text) : Prop := Forall (fun c => is_whitespace c = false) t.

Lemma split_once_parts p s a b : split_once p s = Some (a, b) -> s = a ++ p ++ b.
Proof.
  revert a. induction s as [|c s IH]; intros a; cbn [split_once].
  - destruct (strip_prefix p []) as [r|] eqn:E; [|done]. intros [= <- <-]. exact (strip_prefix_Some _ _ _ E).
  - destruct (strip_prefix p (c :: s)) as [r|] eqn:E; [intros [= <- <-]; exact (strip_prefix_Some _ _ _ E)|].
    destruct (split_once p s) as [[a' b']|]; [|done]. cbn. intros [= <- <-]. cbn [app]. f_equal. by apply IH.
Qed.

(** The query of a request has no white space: it is part of a word. *)
Lemma query_no_space raw : no_space (query (read_request raw)).
Proof.
  unfold read_request. destruct (read_line raw) as [line rest]. destruct (words line !! 1%nat) as [w|] eqn:E; cbn [default from_option id].
  2: { destruct (split_once (lit "?") (lit "/")) as [[a b]|] eqn:Es; [by vm_compute in Es|constructor]. }
  apply list_elem_of_lookup_2, words_are_words in E as [_ Hw].
  destruct (split_once (lit "?") w) as [[a b]|] eqn:Es; cbn [default from_option id query]; [|constructor].
  apply split_once_parts in Es. rewrite Es in Hw. by apply Forall_app in Hw as [_ [_ Hw]%Forall_app].
Qed.

Lemma forwarded_sent s path q o s' : forwarded s path q = Ret (o, s') -> exists n, (n <= 2)%nat /\
  sent_requests s' = sent_requests s ++ replicate n (OrderApiPool.request (order_api s) path q) /\
  state s' = state s /\ pool_token (order_api s') = pool_token (order_api s).
Proof.
  unfold forwarded. intros H. apply obind_ret in H as ([[res p'] n] & E & H). injection H as _ <-. exists n. cbn.
  destruct (attempts_spec _ _ _ _ _ _ _ E) as (S1 & T & _). split_and!; [lia|done..].
Qed.

Lemma trading_sent s r valid path o s' : trading s r valid path = Ret (o, s') ->
  s' = s \/ (exists tok, trading_token s = Some tok /\ tok <> [] /\ authorization (headers r) = Some (lit "Bearer " ++ tok)) /\ valid = None /\
    forwarded s path (query r) = Ret (o, s').
Proof.
  unfold trading, admin_access. destruct (trading_token s) as [[|x tok]|]; [by intros [= _ <-]; left| |by intros [= _ <-]; left].
  destruct (bool_decide (authorization (headers r) = Some (lit "Bearer " ++ x :: tok))) eqn:Ea; [|by intros [= _ <-]; left].
  apply bool_decide_eq_true in Ea. destruct valid as [m|]; [by intros [= _ <-]; left|]. intros H. right. split_and!; [|done|done]. by exists (x :: tok).
Qed.

(** The lines of a forwarded request. *)
Definition request_line (api q : text) : text := lit "POST " ++ api ++ lit "?" ++ q ++ lit " HTTP/1.1" ++ [13].

Definition request_lines (p : OrderApiPool) (api q : text) : list text :=
  [request_line api q; lit "Host: order-api" ++ [13]; lit "Authorization: Bearer " ++ pool_token p ++ [13];
   lit "Content-Length: 0" ++ [13]; lit "Connection: keep-alive" ++ [13]; [13]; []].

Lemma split_lines ls : Forall (Forall (fun c => c <> 10)) ls -> split_on 10 (concat ((fun l => l ++ [10]) <$> ls)) = ls ++ [[]].
Proof.
  induction 1 as [|l ls Hl Hls IH]; [done|]. cbn [fmap list_fmap concat]. rewrite <-(assoc_L (++)). cbn [app].
  by rewrite split_on_first, IH.
Qed.

Lemma request_split p api q : Forall (fun c => c <> 10) (pool_token p) -> Forall (fun c => c <> 10) api -> no_space q ->
  split_on 10 (OrderApiPool.request p api q) = request_lines p api q.
Proof.
  intros Ht Ha Hq. assert (Hq' : Forall (fun c => c <> 10) q).
  { eapply Forall_impl; [exact Hq|]. intros c Hc ->. done. }
  pose proof (split_lines (take 6 (request_lines p api q))) as H. cbn [take request_lines] in H.
  replace (concat _) with (OrderApiPool.request p api q) in H.
  2: { unfold OrderApiPool.request, request_line, crlf. cbn [fmap list_fmap concat]. rewrite <-!(assoc_L (++)). cbn [app]. done. }
  rewrite H; [done|]. unfold request_line.
  repeat apply Forall_cons_2; [..|apply Forall_nil_2]; repeat apply Forall_app_2; try done; apply avoids_b; reflexivity.
Qed.

Lemma request_words api q : is_word api -> no_space q ->
  words (request_line api q) = [lit "POST"; api ++ lit "?" ++ q; lit "HTTP/1.1"].
Proof.
  intros Ha Hq. unfold request_line. change (lit "POST ") with (lit "POST" ++ [32]). change (lit " HTTP/1.1") with ([32] ++ lit "HTTP/1.1").
  rewrite <-!(assoc_L (++)). cbn [app]. rewrite words_word by (done || by apply word_b). rewrite words_space.
  rewrite (assoc_L (++) api), (assoc_L (++) (api ++ lit "?")). rewrite words_word; [|apply word_app; [apply word_app; [done|by repeat constructor]|done]|done].
  rewrite words_space, words_word by (done || by apply word_b). by rewrite <-(assoc_L (++)).
Qed.

Definition request_allowed (s : Server) (r : HttpRequest) (api : text) : Prop :=
  method r = lit "POST" /\
  (exists tok, trading_token s = Some tok /\ tok <> [] /\ authorization (headers r) = Some (lit "Bearer " ++ tok)) /\
  (api = lit "/orders" /\ (exists o, Ingress.order_from_query (query r) = Ok o) \/
   api = lit "/cancels" /\ exists c, cancel_from_query (query r) = inr c).

Lemma bad_none {A : Type} (x : text + A) : bad x = None -> exists a, x = inr a.
Proof. destruct x; [done|by eexists]. Qed.

Lemma handle_http_sent chart admin trade s raw o s' : handle_http chart admin trade s raw = Ret (o, s') ->
  s' = s \/ exists api, request_allowed s (read_request raw) api /\ forwarded s api (query (read_request raw)) = Ret (o, s').
Proof.
  unfold handle_http. set (r := read_request raw). intros H.
  repeat match type of H with (if ?b then _ else _) = _ => destruct b eqn:?; [try (injection H as _ <-; by left)|] end.
  - rename Heqb5 into E. apply andb_true_iff in E as [_ E]. apply bool_decide_eq_true in E.
    apply trading_sent in H as [->|(Hk & Hv & Hf)]; [by left|]. right. exists (lit "/orders"). split; [|done]. split_and!; [done|done|].
    left. split; [done|]. apply bad_none in Hv as (x & Hx). exists x. by apply order_agrees.
  - rename Heqb6 into E. apply andb_true_iff in E as [_ E]. apply bool_decide_eq_true in E.
    apply trading_sent in H as [->|(Hk & Hv & Hf)]; [by left|]. right. exists (lit "/cancels"). split; [|done]. split_and!; [done|done|].
    right. split; [done|]. by apply bad_none.
  - apply obind_ret in H as (b & _ & H). injection H as _ <-. by left.
  - injection H as _ <-. by left.
Qed.

(** The trading terminal.  Nothing is sent to the order API unless the
    request is a POST to one of the two trading routes, carries the configured,
    non-empty trading token, and its query is a cancel or an order that the API
    reads as well; then the one request is sent at most twice, and it arrives as
    the seven lines it was meant to be, with the client's query inside the
    request target: no query can add a header or a second request. *)
Theorem trading_guarded (chart admin trade : text) (s s' : Server) (raw : text) (o : Outcome) :
  Forall (fun c => c <> 10) (pool_token (order_api s)) -> handle_http chart admin trade s raw = Ret (o, s') ->
  let r := read_request raw in
  sent_requests s' = sent_requests s \/
  exists n api, (n <= 2)%nat /\ request_allowed s r api /\
    sent_requests s' = sent_requests s ++ replicate n (OrderApiPool.request (order_api s) api (query r)) /\
    split_on 10 (OrderApiPool.request (order_api s) api (query r)) = request_lines (order_api s) api (query r) /\
    words (request_line api (query r)) = [lit "POST"; api ++ lit "?" ++ query r; lit "HTTP/1.1"].
Proof.
  intros Ht H r. destruct (handle_http_sent _ _ _ _ _ _ _ H) as [->|(api & Ha & Hf)]; [by left|]. right.
  apply forwarded_sent in Hf as (n & Hn & Hs & _). exists n, api. pose proof (query_no_space raw) as Hq. fold r in Hq, Ha, Hs.
  assert (Hw : is_word api /\ Forall (fun c => c <> 10) api).
  { destruct Ha as (_ & _ & [[-> _]|[-> _]]); (split; [by apply word_b|by apply avoids_b]). }
  destruct Hw as [Hw Hw']. split; [done|]. split; [done|]. split; [done|]. split; [by apply request_split|by apply request_words].
Qed.

Definition example_request : text :=
  lit "POST /api/trade/order?side=buy&instrument=1&order_id=7&price=100&qty=5&user=9 HTTP/1.1" ++ crlf ++
  lit "Authorization: Bearer key" ++ crlf ++ crlf.

Definition example_server : Server := mkServer fresh_state None (Some (lit "key")) example_pool [].

Definition example_handled : Outcome * Server :=
  match handle_http [] [] [] example_server example_request with Ret r => r | Panic _ => (html [], example_server) end.

Lemma example_handled_ret : handle_http [] [] [] example_server example_request = Ret (example_handled.1, example_handled.2) /\
  length (sent_requests example_handled.2) = 2%nat.
Proof. vm_compute. split; reflexivity. Qed.

Lemma trading_guarded_witness : exists n api, (n <= 2)%nat /\ request_allowed example_server (read_request example_request) api /\
  sent_requests example_handled.2 = replicate n (OrderApiPool.request example_pool api (query (read_request example_request))).
Proof.
  destruct example_handled_ret as [E El].
  destruct (trading_guarded [] [] [] example_server example_handled.2 example_request example_handled.1) as [H|(n & api & Hn & Ha & Hs & _)].
  - apply avoids_b. reflexivity.
  - exact E.
  - exfalso. rewrite H in El. discriminate El.
  - exists n, api. split; [exact Hn|]. split; [exact Ha|exact Hs].
Defined.

