(* ===== verification/OrderServer.v ===== *)
(** * The order API's HTTP server

    [handle] of [src/src/bin/order_api.rs]: one client's connection, its
    requests read one after the other, their checks, the order, cancel, batch and
    route-administration routes, and the answers; and the configuration of the
    matcher connections with the probe that finds a Raft leader.  What arrives on
    a connection is a text ([Text]); bodies are bytes.  The broker's answer to the
    n-th record ([broker]) and what the nodes answer to a migration query ([http])
    are arguments, and so is the text of the metrics page.  Error texts are those of [Ingress], which
    leaves the offending values out.  Request lines and headers are ASCII: a line
    that is not UTF-8, which ends the connection, is outside the model. *)

From S2P Require Import Prelude Types Protocol Bytes Text Wire Sharding Queue Cluster Migration Ingress MarketData WebFront.

(** ** Answers *)
Definition respond_content (status content_type : string) (body : text) (keep_alive : bool) : text :=
  lit "HTTP/1.1 " ++ lit status ++ crlf ++ lit "Content-Type: " ++ lit content_type ++ crlf ++
  lit "Content-Length: " ++ show (Z.of_nat (length body)) ++ crlf ++
  lit "Connection: " ++ lit (if keep_alive then "keep-alive" else "close") ++ crlf ++ crlf ++ body.

Definition respond_json (status : string) (body : text) (keep_alive : bool) : text :=
  respond_content status "application/json" body keep_alive.

(** ** One request *)
Record Head := mkHead {
  authorized : bool;
  keep_alive : bool;
  content_length : Z
}.

(** One header line. *)
Definition on_header (token : text) (h : Head) (header : text) : Head :=
  match split_once (lit ":") header with
  | None => h
  | Some (key, value) =>
      let value := trim value in
      mkHead (authorized h || (eq_ignore_ascii_case key (lit "authorization") && bool_decide (value = lit "Bearer " ++ token)))
        (if eq_ignore_ascii_case key (lit "connection") then eq_ignore_ascii_case value (lit "keep-alive") else keep_alive h)
        (if eq_ignore_ascii_case key (lit "content-length") then default U64_MAX (parse_uint U64_MAX value) else content_length h)
  end.

(** The header loop; [None]: the stream ended first. *)
Fixpoint read_head (fuel : nat) (token : text) (h : Head) (s : text) : option (Head * text) :=
  match fuel with
  | O => None
  | S fuel =>
      let '(header, rest) := read_line s in
      if bool_decide (header = []) then None
      else if bool_decide (trim header = []) then Some (h, rest)
      else read_head fuel token (on_header token h header) rest
  end.

Record ApiRequest := mkApiRequest {
  r_method : text;
  r_path : text;
  r_query : text;
  r_head : Head;
  r_body : bytes
}.

(** The server's state: the ingress and the records handed to the producer so far. *)
Record Api := mkApi {
  a_ingress : KafkaIngress;
  a_sent : list Sent
}.

Definition with_ingress (a : Api) (k : KafkaIngress) (sent : list Sent) : Api := mkApi k (a_sent a ++ sent).

Definition with_control (k : KafkaIngress) (c : RouteControlPlane) : KafkaIngress :=
  mkIngress (ki_router k) c (ki_max_pipeline_backlog k) (ki_metrics k) (ki_backpressure k).

Section server.
Context (broker : nat -> io_result Z) (http : text -> text -> io_result text) (endpoints : gmap Z text) (render : KafkaIngress -> text).
Context (token : text) (category_size : Z) (ingress_enabled : bool).

Definition accepted_version (v : Z) (state : string) : text :=
  lit "{" ++ quote "accepted" ++ lit ":true," ++ quote "route_version" ++ lit ":" ++ show v ++ lit "," ++ quote "state" ++ lit ":" ++
  quote state ++ lit "}".

(** The routes of a migration: the new control plane and the answer's body. *)
Definition admin_route (c : RouteControlPlane) (path query : text) : RouteControlPlane * io_result text :=
  match required U32_MAX query (lit "category") with
  | Err why => (c, Err why)
  | Ok category =>
      if bool_decide (path = lit "/admin/routes/begin") then
        match required U64_MAX query (lit "to_group") with
        | Err why => (c, Err why)
        | Ok to_group =>
            let '(c, r) := RouteControlPlane.begin c category to_group in
            (c, let? m := r in Ok (accepted_version (route_version m) "FREEZING"))
        end
      else if bool_decide (path = lit "/admin/routes/frozen") then
        let '(c', r) := freeze_migration_inner http c endpoints category query in
        (c', let? index := r in
             Ok (lit "{" ++ quote "accepted" ++ lit ":true," ++ quote "state" ++ lit ":" ++ quote "CATCHING_UP" ++ lit "," ++
                 quote "frozen_index" ++ lit ":" ++ show index ++ lit "," ++ quote "captured_from" ++ lit ":" ++
                 quote (if bool_decide (is_Some (Ingress.query_param query (lit "raft_index"))) then "caller" else "source-node") ++ lit "}"))
      else if bool_decide (path = lit "/admin/routes/caught-up") then
        let '(c', r) := verify_caught_up_inner http c endpoints category query in
        (c', let? v := r in
             Ok match v with
                | ByCaller => lit "{" ++ quote "accepted" ++ lit ":true," ++ quote "state" ++ lit ":" ++ quote "VERIFIED" ++ lit "," ++
                              quote "verified_by" ++ lit ":" ++ quote "caller" ++ lit "}"
                | ByNodes fp => lit "{" ++ quote "accepted" ++ lit ":true," ++ quote "state" ++ lit ":" ++ quote "VERIFIED" ++ lit "," ++
                                quote "verified_by" ++ lit ":" ++ quote "nodes" ++ lit "," ++ quote "raft_applied_index" ++ lit ":" ++
                                show (fp_index fp) ++ lit "," ++ quote "fingerprint" ++ lit ":" ++ show (fp_value fp) ++ lit "}"
                end)
      else if bool_decide (path = lit "/admin/routes/activate") then
        let '(c', r) := RouteControlPlane.activate c category in (c', let? v := r in Ok (accepted_version v "ACTIVE"))
      else if bool_decide (path = lit "/admin/routes/abort") then
        let '(c', r) := RouteControlPlane.abort c category in
        (c', Ok (lit "{" ++ quote "accepted" ++ lit ":" ++ lit (if r then "true" else "false") ++ lit "," ++ quote "state" ++ lit ":" ++
                 quote "ABORTED" ++ lit "}"))
      else (c, Err "unknown route migration action")
  end.

(** A command's way to the broker, with the answer to the client. *)
Definition publish_command (a : Api) (category : Z) (user : UserId) (frame : bytes) : outcome (Api * io_result CategorySequence) :=
  let! r := KafkaIngress.publish category user frame (broker (length (a_sent a))) (a_ingress a) in
  let '(k, sent, res) := r in Ret (with_ingress a k sent, res).

Definition error_answer (status : string) (why : string) : string * text := (status, error_body (lit why)).

(** The answer to a complete request: the status, the body (always JSON but for
    the metrics page) and the state after it. *)
Definition answer (a : Api) (r : ApiRequest) : outcome (string * string * text * Api) :=
  let json (x : string * text) a := Ret (x.1, "application/json"%string, x.2, a) in
  let post := bool_decide (r_method r = lit "POST") in
  let at_path p := bool_decide (r_path r = lit p) in
  if bool_decide (r_method r = lit "GET") && at_path "/metrics"%string then Ret ("200 OK", "text/plain; version=0.0.4", render (a_ingress a), a)
  else if negb (authorized (r_head r)) then json (error_answer "401 Unauthorized" "unauthorized") a
  else if post && starts_with (lit "/admin/routes/") (r_path r) then
    let '(c, res) := admin_route (ki_control (a_ingress a)) (r_path r) (r_query r) in
    let a := mkApi (with_control (a_ingress a) c) (a_sent a) in
    match res with
    | Ok body => json ("200 OK"%string, body) a
    | Err why => json (error_answer "409 Conflict" why) a
    end
  else if negb ingress_enabled && post then
    json (error_answer "503 Service Unavailable" "HTTP ingress disabled for this worker role") a
  else if post && at_path "/commands/batch"%string then
    match decode_batch (r_body r) category_size with
    | Err why => json (error_answer "400 Bad Request" why) a
    | Ok records =>
        let! x := KafkaIngress.publish_batch records (broker <$> seq (length (a_sent a)) (length records)) (a_ingress a) in
        let '(k, sent, res) := x in
        let a := with_ingress a k sent in
        match res with
        | Ok _ => json ("202 Accepted"%string, lit "{" ++ quote "accepted" ++ lit ":true," ++ quote "status" ++ lit ":" ++ quote "PENDING" ++
                          lit "," ++ quote "count" ++ lit ":" ++ show (Z.of_nat (length records)) ++ lit "}") a
        | Err why => json (error_answer (ingress_error_status why) why) a
        end
    end
  else
    let finish (p : Api * io_result CategorySequence) :=
      match p.2 with
      | Ok seq => json ("202 Accepted"%string, lit "{" ++ quote "accepted" ++ lit ":true," ++ quote "status" ++ lit ":" ++ quote "PENDING" ++
                          lit "," ++ quote "category_id" ++ lit ":" ++ show (cs_category_id seq) ++ lit "," ++ quote "category_seq" ++
                          lit ":" ++ show (cs_category_seq seq) ++ lit "}") p.1
      | Err why => json (error_answer (ingress_error_status why) why) p.1
      end in
    if post && at_path "/orders"%string then
      match Ingress.order_from_query (r_query r) with
      | Err why => finish (a, Err why)
      | Ok o => let! p := publish_command a (asset_category (o_instrument o) category_size) (o_user o) (encode_new o) in finish p
      end
    else if post && at_path "/cancels"%string then
      match Ingress.cancel_from_query (r_query r) with
      | Err why => finish (a, Err why)
      | Ok (i, o, c, u) => let! p := publish_command a (asset_category i category_size) u (encode_cancel i o c) in finish p
      end
    else json (error_answer "404 Not Found" "not found") a.

(** The connection: the answers written to it, and the state after it. *)
Fixpoint handle (fuel : nat) (a : Api) (s : text) : outcome (list text * Api) :=
  match fuel with
  | O => Ret ([], a)
  | S fuel =>
      let '(first, rest) := read_line s in
      if bool_decide (first = []) then Ret ([], a)
      else if bool_decide (trim first = []) then handle fuel a rest
      else
        let parts := words first in
        let uri := default (lit "/") (parts !! 1%nat) in
        let version := default (lit "HTTP/1.0") (parts !! 2%nat) in
        match read_head (S (length rest)) token (mkHead false (bool_decide (version = lit "HTTP/1.1")) 0) rest with
        | None => Ret ([], a)
        | Some (h, rest) =>
            if 2 ^ 20 <? content_length h then
              Ret ([respond_json "413 Payload Too Large" (error_body (lit "payload too large")) false], a)
            else if Z.of_nat (length rest) <? content_length h then Ret ([], a)
            else
              let n := Z.to_nat (content_length h) in
              let '(p, q) := default (uri, []) (split_once (lit "?") uri) in
              let! x := answer a (mkApiRequest (default [] (parts !! 0%nat)) p q h (take n rest)) in
              let '(status, ctype, body, a) := x in
              let reply := respond_content status ctype body (keep_alive h) in
              if keep_alive h then let! r := handle fuel a (drop n rest) in Ret (reply :: r.1, r.2)
              else Ret ([reply], a)
        end
  end.

Definition serve (a : Api) (s : text) : outcome (list text * Api) := handle (S (length s)) a s.

End server.

(** ** Matcher connections *)
Record MatcherAddress := mkMatcherAddress { order_addr : text; metrics_addr : option text }.

Definition parse_matcher_list (value : text) : list MatcherAddress :=
  omap (fun item => (fun ab => mkMatcherAddress ab.1 (Some ab.2)) <$> split_once (lit "@") (trim item)) (split_on 44 value).

(** From the three environment variables. *)
Definition parse_matcher_groups (groups matchers matcher_addr : option text) : list (list MatcherAddress) :=
  let legacy :=
    match matchers with
    | Some v => match parse_matcher_list v with [] => None | ts => Some [ts] end
    | None => None
    end in
  let configured :=
    match groups with
    | Some v => let gs := parse_matcher_list <$> split_on 59 v in
        if negb (bool_decide (gs = [])) && forallb (fun g => match g with [] => false | _ => true end) gs then Some gs else None
    | None => None
    end in
  match configured with
  | Some gs => gs
  | None => default [[mkMatcherAddress (default (lit "trade-core:9001") matcher_addr) None]] legacy
  end.

(** [str::lines]: split at line feeds, without a final empty line; a carriage
    return before a line feed belongs to the line end. *)
Definition strip_cr (l : text) : text := match rev l with 13 :: r => rev r | _ => l end.

Definition lines (s : text) : list text :=
  let ls := split_on 10 s in
  let body := strip_cr <$> take (length ls - 1) ls in
  match last ls with Some (c :: l) => body ++ [c :: l] | _ => body end.

(** [is_leader], given the response. *)
Definition has_metric (response metric expected : text) : bool :=
  existsb (fun line => match split_once (lit " ") line with
                       | Some (name, value) => bool_decide (name = metric) && bool_decide (trim value = expected)
                       | None => false
                       end) (lines response).

Definition is_leader (response : text) : bool :=
  has_metric response (lit "tc_raft_role") (lit "2") && has_metric response (lit "tc_ready") (lit "1").

(** * Correctness *)

(** ** Lines and white space *)
Lemma read_line_at l rest : Forall (fun c => c <> 10) l -> read_line (l ++ 10 :: rest) = (l ++ [10], rest).
Proof. induction 1 as [|c l Hc Hl IH]; [done|]. cbn [app read_line]. rewrite (proj2 (Z.eqb_neq c 10)) by done. by rewrite IH. Qed.

Lemma read_line_parts s : s = (read_line s).1 ++ (read_line s).2.
Proof. induction s as [|c s IH]; [done|]. cbn [read_line]. destruct (c =? 10); [done|]. cbn. by f_equal. Qed.

Lemma drop_while_all f l s : Forall (fun c => f c = true) l -> drop_while f (l ++ s) = drop_while f s.
Proof. induction 1 as [|c l Hc Hl IH]; [done|]. cbn. by rewrite Hc. Qed.

Lemma drop_while_suffix f s : exists l, s = l ++ drop_while f s.
Proof. induction s as [|c s [l IH]]; [by exists []|]. cbn. destruct (f c); [exists (c :: l); cbn; by f_equal|by exists []]. Qed.

Lemma trim_core pre core post : Forall (fun c => is_whitespace c = true) pre -> Forall (fun c => is_whitespace c = true) post ->
  core <> [] -> drop_while is_whitespace core = core -> drop_while is_whitespace (rev core) = rev core -> trim (pre ++ core ++ post) = core.
Proof.
  intros Hpre Hpost Hn Hf Hl. unfold trim. rewrite drop_while_all by done.
  assert (drop_while is_whitespace (core ++ post) = core ++ post) as ->.
  { destruct core as [|c core]; [done|]. cbn in Hf |- *. destruct (is_whitespace c); [|done].
    destruct (drop_while_suffix is_whitespace core) as [l E]. rewrite Hf in E. apply (f_equal length) in E. rewrite length_app in E. cbn in E. lia. }
  rewrite rev_app_distr, drop_while_all by (by apply Forall_rev). rewrite Hl. apply rev_involutive.
Qed.

Lemma trim_infix s : exists a b, s = a ++ trim s ++ b.
Proof.
  unfold trim. destruct (drop_while_suffix is_whitespace s) as [a Ha]. set (u := drop_while is_whitespace s) in *.
  destruct (drop_while_suffix is_whitespace (rev u)) as [b Hb]. exists a, (rev b). rewrite Ha at 1. f_equal.
  rewrite <-rev_app_distr, <-Hb. by rewrite rev_involutive.
Qed.

(** ** Only the token opens the write routes *)
Section guard.
Context (broker : nat -> io_result Z) (http : text -> text -> io_result text) (endpoints : gmap Z text) (render : KafkaIngress -> text).
Context (token : text) (category_size : Z) (ingress_enabled : bool).

Definition bearer_in (s : text) : Prop := exists a b, s = a ++ (lit "Bearer " ++ token) ++ b.

Lemma bearer_grows a s b : bearer_in s -> bearer_in (a ++ s ++ b).
Proof. intros (x & y & ->). exists (a ++ x), (y ++ b). by rewrite <-!(assoc_L (++)). Qed.

Lemma bearer_parts s : (bearer_in (read_line s).1 -> bearer_in s) /\ (bearer_in (read_line s).2 -> bearer_in s).
Proof.
  rewrite (read_line_parts s) at 2 4. split; intros H; [exact (bearer_grows [] _ (read_line s).2 H)|].
  pose proof (bearer_grows (read_line s).1 _ [] H) as G. by rewrite app_nil_r in G.
Qed.

Lemma header_bearer h header : ~ bearer_in header -> authorized (on_header token h header) = authorized h.
Proof.
  intros H. unfold on_header. destruct (split_once (lit ":") header) as [[k v]|] eqn:E; [|done]. cbn [authorized].
  case_bool_decide as Ev; [|by rewrite andb_false_r, orb_false_r].
  destruct H. apply split_once_parts in E. rewrite E. destruct (trim_infix v) as (a & b & Hv). rewrite Ev in Hv.
  exists (k ++ lit ":" ++ a), b. rewrite Hv. by rewrite <-!(assoc_L (++)).
Qed.

Lemma head_bearer fuel : forall h s h' rest, read_head fuel token h s = Some (h', rest) -> ~ bearer_in s ->
  authorized h' = authorized h /\ ~ bearer_in rest.
Proof.
  induction fuel as [|fuel IH]; [done|]. intros h s h' rest. cbn [read_head]. pose proof (bearer_parts s) as [P1 P2].
  destruct (read_line s) as [header r]; cbn [fst snd] in *. case_bool_decide; [done|]. case_bool_decide; [intros [= <- <-]; tauto|].
  intros G Hn. apply IH in G as [H1 H2]; [|tauto]. split; [|done]. rewrite H1. apply header_bearer. tauto.
Qed.

Lemma answer_guard a r st ty body a' : authorized (r_head r) = false ->
  answer broker http endpoints render category_size ingress_enabled a r = Ret (st, ty, body, a') -> a' = a.
Proof. intros Ha. unfold answer. rewrite Ha. cbn [negb]. case_match; by intros [= _ _ _ <-]. Qed.

Lemma bearer_drop n s : bearer_in (drop n s) -> bearer_in s.
Proof. intros H. rewrite <-(take_drop n s). pose proof (bearer_grows (take n s) _ [] H) as G. by rewrite app_nil_r in G. Qed.

Lemma handle_guard fuel : forall a s replies a', ~ bearer_in s ->
  handle broker http endpoints render token category_size ingress_enabled fuel a s = Ret (replies, a') -> a' = a.
Proof.
  induction fuel as [|fuel IH]; intros a s replies a' Hs; cbn [handle]; [by intros [= _ <-]|].
  pose proof (bearer_parts s) as [P1 P2]. destruct (read_line s) as [first rest]; cbn [fst snd] in *.
  case_bool_decide; [by intros [= _ <-]|]. case_bool_decide; [apply IH; tauto|].
  destruct (read_head _ _ _ rest) as [[h rest']|] eqn:E; [|by intros [= _ <-]].
  apply head_bearer in E as [Hh Hr]; [|tauto]. cbn in Hh.
  case_match; [by intros [= _ <-]|]. case_match; [by intros [= _ <-]|].
  destruct (default _ _) as [p q]. intros ([[[st ty] body] a1] & Ea & Hk)%obind_ret. apply answer_guard in Ea as ->; [|done].
  destruct (keep_alive h); [|by injection Hk as _ <-]. apply obind_ret in Hk as ([rs a2] & E2 & [= _ <-]). cbn.
  eapply IH; [|exact E2]. intros G. by apply bearer_drop in G.
Qed.

(** C18: Whoever does not present the token changes nothing: however many requests a
    connection carries, if [Bearer <token>] occurs nowhere in what it sends, then no
    record reaches the broker and neither the route control plane nor the ingress
    counters change. *)
Theorem token_guards_api (a : Api) (s : text) (replies : list text) (a' : Api) : ~ bearer_in s ->
  serve broker http endpoints render token category_size ingress_enabled a s = Ret (replies, a') -> a' = a.
Proof. apply handle_guard. Qed.

End guard.

(** ** An order forwarded by the terminal *)

(** The header lines the terminal sends. *)
Definition request_tail (tok : text) : text :=
  (lit "Host: order-api" ++ [13]) ++ 10 :: (lit "Authorization: Bearer " ++ tok ++ [13]) ++ 10 ::
  (lit "Content-Length: 0" ++ [13]) ++ 10 :: (lit "Connection: keep-alive" ++ [13]) ++ 10 :: [13; 10].

Lemma request_parts p api q : OrderApiPool.request p api q = request_line api q ++ 10 :: request_tail (pool_token p).
Proof. unfold OrderApiPool.request, request_line, request_tail, crlf. rewrite <-!(assoc_L (++)). cbn [app]. done. Qed.

Lemma avoids_space s : no_space s -> Forall (fun c => c <> 10) s.
Proof. intros H. eapply Forall_impl; [exact H|]. by intros c Hc ->. Qed.

Lemma trim_nonempty c l : is_whitespace c = false -> trim (c :: l) <> [].
Proof.
  intros Hc. unfold trim. cbn [drop_while]. rewrite Hc. cbn [rev]. intros Et. apply (f_equal (@rev Z)) in Et. rewrite rev_involutive in Et.
  assert (H : forall u, drop_while is_whitespace (u ++ [c]) <> []).
  { intros u. induction u as [|x u IH]; cbn; [by rewrite Hc|]. by destruct (is_whitespace x). }
  by apply H in Et.
Qed.

Lemma words_end s c : is_whitespace c = true -> words (s ++ [c]) = words s.
Proof.
  intros Hc. induction s as [|x s IH]; [cbn; by rewrite Hc|]. cbn [app words]. destruct (is_whitespace x); [done|].
  destruct s as [|d s]; [cbn; by rewrite Hc|]. cbn [app] in IH |- *. by rewrite IH.
Qed.

Lemma read_head_line fuel tok h l rest : match l with [] => False | c :: _ => is_whitespace c = false end -> Forall (fun x => x <> 10) l ->
  read_head (S fuel) tok h (l ++ 10 :: rest) = read_head fuel tok (on_header tok h (l ++ [10])) rest.
Proof.
  destruct l as [|c l]; [done|]. intros Hc Hl. cbn [read_head]. rewrite read_line_at by done. cbn [app].
  case_bool_decide as E; [done|]. case_bool_decide as Et; [|done]. by apply trim_nonempty in Et.
Qed.

(** The token's header is recognised. *)
Lemma bearer_header tok h : is_word tok ->
  on_header tok h ((lit "Authorization: Bearer " ++ tok ++ [13]) ++ [10]) = mkHead true (keep_alive h) (content_length h).
Proof.
  intros Ht. unfold on_header.
  change (lit "Authorization: Bearer ") with (lit "Authorization" ++ lit ":" ++ [32] ++ lit "Bearer ").
  rewrite <-!(assoc_L (++)). change (lit ":") with [58]. rewrite split_once_first by (by apply avoids_b).
  assert (trim ([32] ++ lit "Bearer " ++ tok ++ [13] ++ [10]) = lit "Bearer " ++ tok) as ->.
  { rewrite (assoc_L (++) (lit "Bearer ")). apply trim_core; [by repeat constructor..|done|done|].
    rewrite rev_app_distr. destruct Ht as [Hn Hw]. apply Forall_rev in Hw. destruct (rev tok) as [|d u] eqn:E.
    - apply (f_equal (@length Z)) in E. rewrite length_rev in E. by destruct tok.
    - apply Forall_cons_1 in Hw as [Hd _]. cbn [app drop_while]. by rewrite Hd. }
  rewrite (bool_decide_eq_true_2 (lit "Bearer " ++ tok = lit "Bearer " ++ tok)) by done. rewrite !orb_true_r. done.
Qed.

Lemma head_of_request fuel tok : is_word tok -> read_head (5 + fuel) tok (mkHead false true 0) (request_tail tok) = Some (mkHead true true 0, []).
Proof.
  intros Ht. unfold request_tail. change (5 + fuel)%nat with (S (S (S (S (S fuel))))).
  rewrite read_head_line by (done || by apply avoids_b).
  replace (on_header _ _ _) with (mkHead false true 0) by reflexivity.
  rewrite read_head_line; [|done|].
  2: { apply Forall_app_2; [by apply avoids_b|]. apply Forall_app_2; [by apply avoids_space, Ht|by apply avoids_b]. }
  rewrite bearer_header by done.
  rewrite read_head_line by (done || by apply avoids_b).
  replace (on_header _ _ _) with (mkHead true true 0) by reflexivity.
  rewrite read_head_line by (done || by apply avoids_b).
  replace (on_header _ _ _) with (mkHead true true 0) by reflexivity. reflexivity.
Qed.

(** What the pool makes of an answer. *)
Lemma length_header n : 0 <= n <= U64_MAX -> let header := (lit "Content-Length: " ++ show n ++ [13]) ++ [10] in
  exists name value, split_once (lit ":") header = Some (name, value) /\
    eq_ignore_ascii_case name (lit "content-length") = true /\ parse_uint U64_MAX (trim value) = Some n.
Proof.
  intros Hn header. exists (lit "Content-Length"), ([32] ++ show n ++ [13; 10]). split.
  - unfold header. change (lit "Content-Length: ") with (lit "Content-Length" ++ lit ":" ++ [32]).
    rewrite <-!(assoc_L (++)). change (lit ":") with [58]. apply split_once_first. by apply avoids_b.
  - split; [done|]. assert (is_word (show n)) as Hw by (apply digits_word; [apply show_all; lia|apply show_nonempty]).
    rewrite trim_core; [by apply parse_show|by repeat constructor|by repeat constructor|apply Hw|..].
    + destruct Hw as [_ Hw]. destruct (show n) as [|c l]; [done|]. apply Forall_cons_1 in Hw as [Hc _]. cbn. by rewrite Hc.
    + destruct Hw as [_ Hw]. apply Forall_rev in Hw. destruct (rev (show n)) as [|c l]; [done|]. apply Forall_cons_1 in Hw as [Hc _]. cbn. by rewrite Hc.
Qed.

Lemma no_feed_digits n : 0 <= n -> Forall (fun c => c <> 10) (show n).
Proof. intros Hn. apply avoids_space. apply (digits_word (show n)); [by apply show_all|apply show_nonempty]. Qed.

Lemma response_other fuel n l rest name value : Forall (fun c => c <> 10) l -> l ++ [10] <> crlf ->
  split_once (lit ":") (l ++ [10]) = Some (name, value) -> eq_ignore_ascii_case name (lit "content-length") = false ->
  response_headers (S fuel) n (l ++ 10 :: rest) = response_headers fuel n rest.
Proof.
  intros Hl Hc E1 E2. cbn [response_headers]. rewrite read_line_at by done. rewrite E1, E2.
  rewrite (bool_decide_eq_false_2 (l ++ [10] = crlf)) by done. rewrite bool_decide_eq_false_2; [done|by destruct l].
Qed.

Lemma response_length fuel n m rest : 0 <= n <= U64_MAX ->
  response_headers (S fuel) m ((lit "Content-Length: " ++ show n ++ [13]) ++ 10 :: rest) = response_headers fuel n rest.
Proof.
  intros Hn. cbn [response_headers]. rewrite read_line_at.
  2: { apply Forall_app_2; [by apply avoids_b|]. apply Forall_app_2; [apply no_feed_digits; lia|by apply avoids_b]. }
  destruct (length_header n Hn) as (name & value & E1 & E2 & E3). rewrite E1, E2, E3.
  rewrite !bool_decide_eq_false_2; done.
Qed.

Lemma response_head fuel n body : 0 <= n <= U64_MAX ->
  response_headers (4 + fuel) 0 ((lit "Content-Type: application/json" ++ [13]) ++ 10 :: (lit "Content-Length: " ++ show n ++ [13]) ++
    10 :: (lit "Connection: keep-alive" ++ [13]) ++ 10 :: [13] ++ 10 :: body) = Ok (n, body).
Proof.
  intros Hn. change (4 + fuel)%nat with (S (S (S (S fuel)))).
  rewrite (response_other _ _ (lit "Content-Type: application/json" ++ [13]) _ (lit "Content-Type") (lit " application/json" ++ crlf))
    by (done || by apply avoids_b).
  rewrite response_length by done.
  by rewrite (response_other _ _ (lit "Connection: keep-alive" ++ [13]) _ (lit "Connection") (lit " keep-alive" ++ crlf))
    by (done || by apply avoids_b).
Qed.

Lemma response_of status body : Forall (fun c => c <> 10) (lit status) -> Z.of_nat (length body) < 2 ^ 63 ->
  response_accepted (respond_json status body true) = Ret (Ok (starts_with (lit "HTTP/1.1 202") (lit "HTTP/1.1 " ++ lit status ++ crlf))).
Proof.
  intros Hs Hb. set (n := Z.of_nat (length body)). unfold response_accepted.
  assert (respond_json status body true = (lit "HTTP/1.1 " ++ lit status ++ [13]) ++ 10 :: (lit "Content-Type: application/json" ++ [13]) ++ 10 ::
    (lit "Content-Length: " ++ show n ++ [13]) ++ 10 :: (lit "Connection: keep-alive" ++ [13]) ++ 10 :: [13] ++ 10 :: body) as ->.
  { unfold respond_json, respond_content, crlf. rewrite <-!(assoc_L (++)). cbn [app]. done. }
  rewrite read_line_at by (apply Forall_app_2; [by apply avoids_b|]; apply Forall_app_2; [done|by apply avoids_b]).
  match goal with |- context [response_headers ?f 0 ?t] => replace f with (4 + (length t - 3))%nat end.
  2: { rewrite length_app. cbn [length app]. rewrite length_app. cbn. lia. }
  rewrite response_head by (unfold n; unfold_width; lia).
  rewrite (proj2 (Z.ltb_ge (2 ^ 63 - 1) n)) by lia. rewrite (proj2 (Z.ltb_ge (Z.of_nat (length body)) n)) by (unfold n; lia).
  rewrite bool_decide_eq_false_2 by done. unfold crlf. by rewrite <-!(assoc_L (++)).
Qed.

(** What publishing sends and answers. *)
Lemma publish_sent c user frame d k k' sent res : KafkaIngress.publish c user frame d k = Ret (k', sent, res) ->
  sent = [] /\ (exists why, res = Err why) \/
  exists route, QueueRouter.route (ki_router k) c = Ret route /\
    sent = [(route, rev (le_bytes 4 c), encode_envelope user (q_version route) frame)] /\
    res = (let? offset := d in Ok (mkSequence c (saturating_add U64_MAX (wrap64 offset) 1))).
Proof.
  unfold KafkaIngress.publish. case_match; [intros [= _ <- <-]; eauto|].
  intros ([b [[]|why]] & _ & H1)%obind_ret; cbn [fst snd] in H1; [|injection H1 as _ <- <-; eauto].
  unfold KafkaIngress.reserve in H1. destruct (Pipeline.try_reserve _ _ _) as [m [u|n]]; [|injection H1 as _ <- <-; eauto].
  apply obind_ret in H1 as (x & Hx & H1). unfold KafkaIngress.prepare in Hx. apply obind_ret in Hx as (route & Hr & [= <-]).
  right. exists route. destruct d; injection H1 as _ <- <-; done.
Qed.

Lemma error_status_cases why : ingress_error_status why = "429 Too Many Requests"%string \/ ingress_error_status why = "503 Service Unavailable"%string.
Proof. unfold ingress_error_status. repeat case_match; auto. Qed.

Section forwarding.
Context (broker : nat -> io_result Z) (http : text -> text -> io_result text) (endpoints : gmap Z text) (render : KafkaIngress -> text).
Context (category_size : Z) (p : OrderApiPool).

Definition forwarded_request (api q : text) : ApiRequest := mkApiRequest (lit "POST") api q (mkHead true true 0) [].

Lemma serve_forwarded a api q : is_word (pool_token p) -> is_word api -> Forall (fun c => c <> 63) api -> no_space q ->
  serve broker http endpoints render (pool_token p) category_size true a (OrderApiPool.request p api q) =
  let! x := answer broker http endpoints render category_size true a (forwarded_request api q) in
  let '(status, ctype, body, a) := x in Ret ([respond_content status ctype body true], a).
Proof.
  intros Ht Ha Hm Hq. unfold serve. rewrite request_parts.
  assert (Hlen : exists n, length (request_line api q ++ 10 :: request_tail (pool_token p)) = S n).
  { exists (length (request_line api q) + length (request_tail (pool_token p)))%nat. rewrite length_app. cbn [length]. lia. }
  destruct Hlen as [n ->]. cbn [handle]. rewrite read_line_at.
  2: { unfold request_line. repeat apply Forall_app_2; try (by apply avoids_b); by apply avoids_space, Ha || by apply avoids_space. }
  rewrite bool_decide_eq_false_2 by done. rewrite bool_decide_eq_false_2 by (by apply trim_nonempty).
  rewrite words_end by done. rewrite request_words by done. cbn [lookup list_lookup default from_option id].
  rewrite (bool_decide_eq_true_2 (lit "HTTP/1.1" = lit "HTTP/1.1")) by done.
  replace (S (length (request_tail (pool_token p)))) with (5 + (length (request_tail (pool_token p)) - 4))%nat.
  2: { unfold request_tail. rewrite length_app. cbn. lia. }
  rewrite head_of_request by done. change (lit "?") with [63]. rewrite split_once_first by done. reflexivity.
Qed.

(** C17: An order the terminal forwards reaches the broker, and the terminal learns
    whether it did: the order API answers the forwarded request once, the
    connection pool reads that answer as accepted exactly when the broker has
    acknowledged the one record sent, and that record is the order the terminal
    validated, in the queue envelope of its user, on the route of its category.
    Otherwise nothing was sent, or the broker refused what was. *)
Theorem forwarded_order_published (q : text) (o : Order) (a a' : Api) (replies : list text) :
  is_word (pool_token p) -> no_space q -> new_order_from_query q = inr o ->
  serve broker http endpoints render (pool_token p) category_size true a (OrderApiPool.request p (lit "/orders") q) = Ret (replies, a') ->
  Forall (fun raw => Z.of_nat (length raw) < 2 ^ 63) replies ->
  exists raw accepted sent, replies = [raw] /\ response_accepted raw = Ret (Ok accepted) /\ a_sent a' = a_sent a ++ sent /\
    if (accepted : bool) then
      exists route offset, let c := asset_category (o_instrument o) category_size in
        QueueRouter.route (ki_router (a_ingress a)) c = Ret route /\ broker (length (a_sent a)) = Ok offset /\
        sent = [(route, rev (le_bytes 4 c), encode_envelope (o_user o) (q_version route) (encode_new o))]
    else sent = [] \/ exists why, broker (length (a_sent a)) = Err why.
Proof.
  intros Ht Hq Ho H Hlen. apply order_agrees in Ho. rewrite serve_forwarded in H by (done || by apply word_b || by apply avoids_b).
  apply obind_ret in H as ([[[st ty] body] a1] & Ea & [= <- <-]).
  apply Forall_cons_1 in Hlen as [Hlen _].
  assert (Hb : Z.of_nat (length body) < 2 ^ 63) by (unfold respond_content in Hlen; rewrite !length_app in Hlen; lia).
  unfold answer, publish_command in Ea. cbn [r_method r_path r_query r_head forwarded_request authorized negb] in Ea. rewrite Ho in Ea.
  apply obind_ret in Ea as ([a2 res] & Ep & Ea). apply obind_ret in Ep as ([[k sent] res'] & Ep & [= <- <-]).
  apply publish_sent in Ep. cbn [fst snd] in Ea. destruct res' as [sq|why]; injection Ea as <- <- _ <-.
  - exists (respond_json "202 Accepted" body true), true, sent. split; [done|]. split; [by rewrite response_of by (done || by apply avoids_b)|].
    split; [done|]. destruct Ep as [(_ & why & [=])|(route & Hr & -> & Hres)].
    destruct (broker (length (a_sent a))) as [offset|]; [|done]. by exists route, offset.
  - exists (respond_json (ingress_error_status why) body true), false, sent. split; [done|]. split.
    + destruct (error_status_cases why) as [-> | ->]; by rewrite response_of by (done || by apply avoids_b).
    + split; [done|]. destruct Ep as [(-> & _)|(route & Hr & -> & Hres)]; [by left|right].
      destruct (broker (length (a_sent a))) as [offset|]; [done|]. eauto.
Qed.

End forwarding.

(** An API whose two partitions have room, and a broker that answers every record. *)
Definition example_ingress : KafkaIngress :=
  mkIngress (mkQueue ["orders"%string] 2 1) (mkPlane 1 ∅ ∅ 1) 1000 Pipeline.new (Backpressure.from_env 10 20 30 1 2 1 ∅).

Definition example_api : Api := mkApi example_ingress [].
Definition example_query : text := lit "side=buy&order_id=7&price=100&qty=5&instrument=3&user=9".

Definition example_serve (token s : text) : outcome (list text * Api) :=
  serve (fun n => Ok (Z.of_nat n)) (fun _ _ => Err "no node") ∅ (fun _ => []) token 1000 true example_api s.

Definition example_served (token s : text) : list text * Api :=
  match example_serve token s with Ret r => r | Panic _ => ([], example_api) end.

Lemma example_serve_ret :
  let s := OrderApiPool.request example_pool (lit "/orders") example_query in
  let r := example_served (pool_token example_pool) s in
  example_serve (pool_token example_pool) s = Ret (r.1, r.2) /\
  forallb (fun raw => Z.of_nat (length raw) <? 2 ^ 63) r.1 = true.
Proof. split; vm_compute; reflexivity. Qed.

Lemma example_order : new_order_from_query example_query = inr (Order.by_user (Order.on (Order.limit 7 Buy 100 5) 3) 9).
Proof. vm_compute. reflexivity. Qed.

Lemma forwarded_order_published_witness : exists raw accepted,
  (example_served (pool_token example_pool) (OrderApiPool.request example_pool (lit "/orders") example_query)).1 = [raw] /\
  response_accepted raw = Ret (Ok accepted).
Proof.
  destruct example_serve_ret as [E L].
  assert (Hq : is_word example_query) by (by apply word_b).
  assert (Ht : is_word (pool_token example_pool)) by (by apply word_b).
  assert (Hl : Forall (fun raw => Z.of_nat (length raw) < 2 ^ 63)
    (example_served (pool_token example_pool) (OrderApiPool.request example_pool (lit "/orders") example_query)).1).
  { apply Forall_forall. intros x Hx. rewrite forallb_forall in L. apply list_elem_of_In, L in Hx. by zbool. }
  destruct (forwarded_order_published (fun n => Ok (Z.of_nat n)) (fun _ _ => Err "no node") ∅ (fun _ => []) 1000 example_pool example_query
    _ example_api _ _ Ht (proj2 Hq) example_order E Hl) as (raw & acc & _ & H1 & H2 & _). by exists raw, acc.
Defined.

Definition example_stranger : text := lit "POST /orders?" ++ example_query ++ lit " HTTP/1.1" ++ crlf ++ lit "Authorization: guess" ++ crlf ++ crlf.

Lemma no_bearer token s : forallb (fun x => negb (x =? 66)) s = true -> ~ bearer_in token s.
Proof. intros H%avoids_b (a & b & ->). by apply Forall_app in H as [_ [[Hb _]%Forall_cons_1 _]%Forall_app]. Qed.

Lemma token_guards_api_witness : (example_served (lit "key") example_stranger).2 = example_api.
Proof.
  assert (E : example_serve (lit "key") example_stranger = Ret ((example_served (lit "key") example_stranger).1, (example_served (lit "key") example_stranger).2))
    by (vm_compute; reflexivity).
  eapply (token_guards_api (fun n => Ok (Z.of_nat n)) (fun _ _ => Err "no node") ∅ (fun _ => []) (lit "key") 1000 true); [|exact E].
  by apply no_bearer.
Defined.

(** ** Malformed requests *)
Lemma required_error max q key why : required max q key = Err why -> why = "missing parameter"%string \/ why = "invalid parameter"%string.
Proof. unfold required. repeat case_match; intros [= <-]; auto. Qed.

Lemma order_error q why : Ingress.order_from_query q = Err why -> ingress_error_status why = "503 Service Unavailable"%string.
Proof.
  assert (H : forall max key w, required max q key = Err w -> ingress_error_status w = "503 Service Unavailable"%string).
  { intros max key w [-> | ->]%required_error; reflexivity. }
  unfold Ingress.order_from_query.
  match goal with |- context [try_bind ?side _] => destruct side as [sd|w] eqn:Es end; cbn [try_bind].
  2: { intros [= <-]. destruct (Ingress.query_param q (lit "side")); repeat (case_bool_decide; [done|]); by injection Es as <-. }
  repeat (match goal with |- context [try_bind (required ?m q ?k) _] => destruct (required m q k) eqn:? end; cbn [try_bind];
    [|intros [= <-]; by eapply H]). done.
Qed.

(** A malformed order is answered as an unavailable service, where a malformed
    batch is a bad request. *)
Theorem malformed_order_unavailable broker http endpoints render size a q why : Ingress.order_from_query q = Err why ->
  answer broker http endpoints render size true a (forwarded_request (lit "/orders") q) =
    Ret ("503 Service Unavailable"%string, "application/json"%string, error_body (lit why), a) /\
  answer broker http endpoints render size true a (forwarded_request (lit "/commands/batch") q) =
    Ret ("400 Bad Request"%string, "application/json"%string, error_body (lit "batch body must contain one or more records"), a).
Proof. intros H. split; [|reflexivity]. unfold answer. cbn [forwarded_request r_query]. rewrite H. cbn. by rewrite (order_error q). Qed.

(** ** Matcher groups *)
Definition show_target (t : MatcherAddress) : text := order_addr t ++ lit "@" ++ default [] (metrics_addr t).

Definition address_ok (t : MatcherAddress) : Prop :=
  is_Some (metrics_addr t) /\ no_space (show_target t) /\ Forall (fun c => c <> 64) (order_addr t) /\
  Forall (fun c => c <> 44) (show_target t) /\ Forall (fun c => c <> 59) (show_target t).

Fixpoint separated (c : Z) (ts : list text) : text :=
  match ts with [] => [] | [t] => t | t :: ts => t ++ c :: separated c ts end.

Lemma split_separated c ts : ts <> [] -> Forall (Forall (fun x => x <> c)) ts -> split_on c (separated c ts) = ts.
Proof.
  intros Hn. induction 1 as [|t ts Ht Hts IH]; [done|]. cbn [separated]. destruct ts as [|u ts]; [by apply split_on_avoid|].
  rewrite split_on_first by done. f_equal. by apply IH.
Qed.

Lemma separated_avoids c d ts : c <> d -> Forall (Forall (fun x => x <> d)) ts -> Forall (fun x => x <> d) (separated c ts).
Proof.
  intros Hcd. induction 1 as [|t ts Ht Hts IH]; [constructor|]. cbn [separated]. destruct ts; [done|].
  apply Forall_app_2; [done|]. by constructor.
Qed.

Lemma list_round_trip ts : ts <> [] -> Forall address_ok ts -> parse_matcher_list (separated 44 (show_target <$> ts)) = ts.
Proof.
  intros Hn Hok. unfold parse_matcher_list. rewrite split_separated.
  2: { by destruct ts. }
  2: { apply Forall_fmap. eapply Forall_impl; [exact Hok|]. intros t (_ & _ & _ & H & _). exact H. }
  clear Hn. induction Hok as [|[oa ma] ts ([m Hm] & Hs & Ho & _) Hts IH]; [done|]. cbn in Hm, Ho. subst ma. cbn [fmap list_fmap omap list_omap].
  rewrite trim_word.
  2: { split; [|done]. unfold show_target. by destruct oa. }
  unfold show_target at 1. cbn [order_addr metrics_addr default from_option id]. change (lit "@") with [64].
  rewrite split_once_first by done. cbn. f_equal. exact IH.
Qed.

(** The matcher groups of a well-formed configuration are read as written, whatever
    the two older variables say. *)
Theorem matcher_groups_round_trip (gs : list (list MatcherAddress)) (matchers addr : option text) :
  gs <> [] -> Forall (fun g => g <> [] /\ Forall address_ok g) gs ->
  parse_matcher_groups (Some (separated 59 ((fun g => separated 44 (show_target <$> g)) <$> gs))) matchers addr = gs.
Proof.
  intros Hn Hok. unfold parse_matcher_groups. rewrite split_separated.
  2: { by destruct gs. }
  2: { apply Forall_fmap. eapply Forall_impl; [exact Hok|]. intros g [_ Hg]. apply separated_avoids; [done|]. apply Forall_fmap.
       eapply Forall_impl; [exact Hg|]. intros t (_ & _ & _ & _ & H). exact H. }
  assert (parse_matcher_list <$> ((fun g => separated 44 (show_target <$> g)) <$> gs) = gs) as ->.
  { clear Hn. induction Hok as [|g gs [Hg Hgs] _ IH]; [done|]. cbn. f_equal; [by apply list_round_trip|exact IH]. }
  rewrite bool_decide_eq_false_2 by done. cbn [negb andb].
  replace (forallb _ gs) with true; [done|]. symmetry. apply forallb_forall. intros g Hg%list_elem_of_In.
  rewrite Forall_forall in Hok. apply Hok in Hg as [Hg _]. by destruct g.
Qed.
